(* ===== verification/_CoqProject ===== *)
-Q . S2P
Prelude.v
Digest.v
Tool.v
External.v
Trust.v
Policy.v
Lifecycle.v
Domain.v
Records.v
Wire.v
Approval.v
Matcher.v
Gate.v
Schedule.v
ScheduleSafety.v
ScheduleOps.v
Canonical.v
Btree.v
Frame.v
Text.v
Contract.v
Utf8.v
Assembler.v
Scripted.v
Registry.v
Subject.v
TrustRecord.v
AgentState.v
Agents.v
AgentService.v
AgentLaunch.v
Hunk.v
Render.v
Patch.v
Apply.v
ReadBack.v
Stage.v
RunStore.v
StoreClaims.v
StoreLaws.v
ClaimLaws.v
Interrupt.v
StoreSafety.v
ToolError.v
Supervise.v
Executor.v
ExecutorSafety.v
Recovery.v
RecoverySafety.v
Subscription.v
SubscriptionSafety.v
Worker.v
WorkerLaws.v
WorkerSafety.v
Serving.v
WorkerEnd.v
Status.v
StatusSafety.v
Start.v
StartSafety.v
