(* ===== verification/Prelude.v ===== *)
(** * Harkness: a verification development of the runtime core

    Harkness drives coding agents over a local workspace. Its runtime decides which
    tool calls may run, asks a person when policy says so, schedules what may run, runs
    it and records what happened, and launches external agents only under a standing
    grant; its Git service stages a chosen part of a change. This development models that
    core, and the provider and transport layers next to it, as executable definitions
    translated from the Rust source, with the theorems that make them correct.

    ** Parts, and the files that model them

    Below, [runtime] is [src/crates/harkness-runtime/src], [provider] is
    [src/crates/harkness-provider/src], [transport] is
    [src/crates/harkness-transport/src] and [git] is [src/crates/harkness-git/src].

    - This file: results, the state monad [stateM] of the [&mut self] methods, their
      atomicity, the interfaces [Timestamp], [Platform] and [Spelled], and the generic
      lemmas and automation.
    - [Digest]: [Sha256Hash] and [InputHash] ([runtime/integration/subject.rs],
      [runtime/approval/canonical.rs]).
    - [Tool], [External], [Trust]: tool identifiers, risks and capabilities
      ([runtime/tool]), the external operations and identities of a decision
      ([runtime/integration/binding.rs], [runtime/policy/integration.rs]), and the trust
      boundary of a workspace ([runtime/trust.rs]).
    - [Policy]: rules, layers and [PolicyEngine::evaluate] ([runtime/policy.rs]).
    - [Lifecycle], [Domain], [Records], [Wire]: the records of a task, a run, a step and
      a tool call, the methods that move them, the step relations those methods refine,
      and the stored form ([runtime/domain]).
    - [Approval], [Matcher], [Gate], [Canonical]: the durable question and its answer,
      which grant covers which call, the gate a call parks on, and the canonical
      encoding an exact-call grant is bound to ([runtime/approval]).
    - [Schedule], [ScheduleSafety], [ScheduleOps]: the scheduler, its critical sections
      as functions, their interleavings as a step relation with its invariant, and the
      operations whole ([runtime/schedule]).
    - [Registry]: the tools a process can execute ([runtime/tool/registry.rs]).
    - [RunStore], [StoreClaims], [StoreLaws], [ClaimLaws], [StoreSafety]: the tables of the
      run store, their keys and columns, transactions and the accesses that may fail, and
      every operation that inserts or changes a record, with the event that says so; its
      leases, approvals and listings; their invariant; and what any sequence of operations
      keeps ([runtime/store]).
    - [Interrupt], [Recovery], [RecoverySafety]: the transaction that ends an abandoned run
      ([runtime/store/recovery.rs]), the claim of a process on its runs as a row and a lock
      file, and the sweep of a starting coordinator ([runtime/coordinator/lease.rs],
      [recovery.rs]).
    - [Subscription], [SubscriptionSafety]: the readers of a run, their replay and their
      queues, and the publishing of its events, with what each reader is given over every
      interleaving ([runtime/coordinator/subscription.rs], [subscribe], [publish] and
      [close_delivery] of [mod.rs]).
    - [Worker], [WorkerLaws], [WorkerSafety], [WorkerEnd]: the worker that drives a run
      ([RunWorker] of [runtime/coordinator/mod.rs], [runtime/agent/types.rs]): the turns of
      its agent, its steps and calls, policy, approval, the scheduler, cancellation and
      faults, over [RunStore] with whatever others do to it in between; how its computations
      are reasoned about; what each of them promises; what a driven run comes to.
      [Start], [StartSafety]: starting, retrying and cancelling a run, answering its
      questions, and the shutdown ([RunCoordinator] and [CoordinatorInner] of the same file).
      [Serving]: what becomes of the calls it hands over ([runtime/schedule/ticket.rs],
      [Inner::run] of [scheduler.rs]), over [Executor].
    - [ToolError]: what a tool, the registry and an invocation fail with, and the bounded
      failure each is recorded as ([runtime/tool/error.rs]).
    - [Supervise]: the executor waiting for a body on a thread of its own, and the phase
      in which it may not be abandoned, as a step relation ([runtime/tool/context.rs],
      [supervise] of [runtime/tool/execute.rs]).
    - [Executor], [ExecutorSafety]: a recorded call resolved, bounded, started, supervised
      and recorded, over [RunStore] and [Registry] ([runtime/tool/execute.rs]).
    - [Subject], [TrustRecord]: the identity a trust grant is bound to, the grant, its
      check against what is observed and its stored form ([runtime/integration]).
    - [AgentState], [Agents], [AgentService], [AgentLaunch]: what was observed of an
      external agent and its row, the registered agents and [agents.json], the service
      over both stores, and what a launch rests on ([runtime/agent_registry],
      [runtime/store/trust_record.rs], [runtime/store/agent_registry.rs]).
    - [Frame]: newline-delimited framing ([transport/frame.rs]).
    - [Text], [Utf8], [Contract], [Btree], [Assembler], [Scripted]: UTF-8 and clamping,
      the contract of a model provider, ordered maps, the assembly of a turn, and the
      driver with its scripted provider ([provider]).
    - [Hunk], [Render]: a diff, the selection of its hunks and lines, its revalidation
      against a fresh diff, and the rendering of a patch ([git/diff.rs], [git/hunk.rs]);
      [Patch] is what a rendering must be, [Apply] what the patch does to the file,
      [ReadBack] what a reader of its text finds, and [Stage] the entry points over the
      repository ([git/hunk.rs], [git/commit.rs]).
    - [Status], [StatusSafety]: what the Git executable prints of a worktree, its reader
      and its bounded reader, and the printer of that format ([git/status.rs]).

    ** How state and operations correspond

    A method on [&mut self] is a [stateM] computation whose result and final state are
    both explicit, a refusal included: what a method leaves behind when it refuses is
    part of the model. A [&self] method is a function. Code under one lock is one
    function; threads are the interleaving of those functions, as a step relation
    ([Gate], whose resolvers store an answer and notify in two steps, [ScheduleSafety],
    [Subscription], [Start]) or as a sequence of operations split at their locks
    ([AgentService] and [RunStore], whose every access may also fail). Integers are [nat],
    [N] or [Z]; where the code adds with a check or saturates, so does the model. Text
    that arrives in pieces or is bounded in bytes is a list of bytes.

    Names are the source's; where Rust's modules reuse one, the type or the file tells
    them apart ([ToolCall_transition], [Trust.TrustState], [Subject.TrustState]).

    ** What the theorems show

    - Policy: what it takes for a request to be allowed, read off the request, the rules of
      both files and the grants; a repository's layer can only tighten; force push is never allowed; a decision [evaluate] can make that the
      store then refuses.
    - Records: every method that refuses leaves its record alone; states only move
      forward; what is decoded was encoded; a denied call never ran.
    - Approvals: which decisions are accepted, which grants cover a call, no lost wakeup
      at the gate between the storing of an answer and its notification, and that an approved encoding or hash determines the input.
    - Scheduling, over every interleaving: mutations of a workspace run alone, limits
      hold, a call is in one place, every queue drains, and the operations refine the
      step relation.
    - The run store, whatever fails under it: reachable tables are well-typed; a refused
      operation changes no row; rows move only by the methods of their records; a change
      and its event become true together; an approval starts only the call it was given
      for, and a call is started once; pages of a log neither repeat nor hide an event.
    - Startup: a sweep spares every run whose claim is not provably dead, and reports every
      other unfinished run, as ended or as a failure; an abandoned run is ended whole, its
      calls, steps and questions with it, once; and when the collector of lock files takes
      a claim that is just being made.
    - Following a run, over every interleaving: a reader is given the log from its first
      event in order, without a hole or a repeat, unless a page of the history fails to
      load; what is kept for it is bounded.
    - The executor: a completed call is recorded before it is reported, and never run
      again; a call recorded as over while its body runs has no effect, then or later;
      what the body reports outranks the executor's guess; a call that does not answer
      ends once its grace has run out, and not before; and an approved call whose tool is gone is stuck.
    - Driving a run, whatever its agent, its tools, the people asked and other processes do
      and whatever fails: the run has ended when its worker leaves it, unless the store
      refused its failure after the evidence of it was recorded; every call handed to the scheduler has a recorded verdict
      that allows it or an approval that covers it; a run that goes to its end leaves no
      step and no call open; and the executor is what the worker relies on.
    - Starting runs: a retry follows a run that is over and did not succeed, after its other
      retries, and warns exactly when the workspace may have been written; over every
      interleaving a shutdown cancels every run that still has a worker, and none starts
      after it.
    - Staging: a batch lands whole or not at all, on the diff it was chosen from; what is
      prepared is each chosen hunk and line once, and no two hunks of a file share a line;
      the rendered patch leaves of every hunk its context, the chosen entering lines and the
      leaving lines that were not chosen, and reads back as chosen; it
      is refused exactly when a missing final newline makes it unrepresentable.
    - Status: the reader of a worktree's status gives back what was printed, and stopped
      at a bound a beginning of it.
    - Providers and transport: framing, UTF-8 and assembly do not depend on how the
      stream was cut, what is framed is read back, the assembled turn is what arrived
      within its bounds, and a loaded script replays to the end without a defect.
    - Tools: a pinned version is immutable, and what an unversioned request resolves to.
    - Trust and agents: the check of a grant reports the first drift of the documented
      precedence; stored grants, observations and registrations read back as written;
      a repository can suggest agents but enable none; only a grant puts an agent in
      force, over any sequence of operations and failures; a launch passed every gate; a
      swapped executable is stopped durably; removal forgets.
    Some theorems state what the code does where its comments say otherwise; they are
    listed as findings of the development.

    ** Parameters and hypotheses

    [Platform] holds the types the source takes from its libraries ([OffsetDateTime],
    [serde_json::Value], [semver::Version]) with the operations it uses; each file adds
    what it needs as a class of its own: [Numbers] (the formatting of numbers),
    [VersionLaws] (an order), [Semver] (caret requirements), [AgentCodec],
    [RegistryCodec], [TrustCodec] and [StoreParams] (serde's texts and their lengths, the
    redactor and the canonical hash), [Faults] (which accesses fail), [Fresh] and
    [FreshLaws] (identifiers, drawn once), [Now], [InstantMax] and [Intervals] (the clock),
    [FileSystem] (which opens, locks and removals of a lock file fail), [Agent],
    [WorkerTexts], [Surroundings] and [Scheduling] (an agent, the texts of its records, and
    what answers a worker at each of its looks), [Startup] and [StartupLaws] (what other
    threads do to the store between the accesses of a start, the file system it asks and
    whether a thread can be spawned), with [SurroundingsLaws]: others change the
    store by its operations and insert no step or call of the run, and a call served to its
    end is over, which [Serving] proves of the executor;
    [DebugFormat] (how the standard library shows strings), [EscapesStrings] (a control
    character takes six bytes of JSON). A theorem with such a hypothesis has a witness
    with a concrete instance. The filesystem, the clock, SHA-256, libgit2's diffs and
    patch engine, a tool's body and the conversation with an agent are arguments.

    ** Bounds and fuel

    Definitions that are not structurally recursive take fuel that is the length of
    their input or the number of entries they can remove ([Text.scan], the pumps of
    [ScheduleOps]), and their specifications hold at that fuel, so none answers for
    having run out. [Worker.turns] counts the turns the code bounds itself, a wait of a
    worker is a number of slices that [Surroundings] gives, and [Worker.publish_pages] has
    one page for each event of the log and one to see its end. No theorem is restricted to inputs of a given size beyond the
    bounds the code itself checks, with two exceptions: the theorems about patches are
    of files shorter than an unsigned 32-bit number of lines and of diffs without
    context only where a hunk is the whole file, and those about pages of a log are of
    logs shorter than the last sequence number the database holds.

    ** Not modelled

    - The observation of child processes, and the renewal of a claim by its own thread. Of a
      start, the policy it looks up; of a cancellation and a shutdown, the scheduler's part,
      which is [Schedule.cancel_run], and the length of the wait. A worker's gate answers what [Surroundings]
      says, where [Gate] models it whole, and a panic of a worker is a fault where the code
      names one. Of the executor, tracing and how a context
      is built. A sweep asks about locks that no process takes or loses while it runs.
    - SQL statements and migrations: a statement of the run store is what it does to the
      tables. The listing of all runs, workspace trust, snapshots and the contents of
      artifacts are left out; other records are modelled by their wire form, or by rows
      with the columns' own checks where a theorem needs them.
    - The built-in tools, the transport's pipes and threads, the Git executable, file
      watching and indexing: effects of the operating system.
    - The command line and the desktop application, and the crates that are placeholders
      at this commit (forge, MCP, recipe).

    ** Plan

    Next: the renewal of claims; the chunking and paths of [harkness-context];
    redaction ([runtime/observe]); the messages of the transport. *)

From Stdlib Require Import Ascii.
From stdpp Require Import base decidable list gmap strings relations pretty.
From Stdlib Require Import Lia.

Declare Scope harkness_scope.
Delimit Scope harkness_scope with harkness.
Open Scope harkness_scope.

(** ** Results

    Rust's [Result<A, E>].  The type constructor takes the error first so that
    [result E] is a functor and stdpp's monad notation applies. *)

Inductive result (E A : Type) : Type :=
| Ok (a : A)
| Err (e : E).
Arguments Ok {E A} a.
Arguments Err {E A} e.

#[export] Instance result_ret E : MRet (result E) := λ A a, Ok a.
#[export] Instance result_bind E : MBind (result E) := λ A B f m,
  match m with Ok a => f a | Err e => Err e end.
#[export] Instance result_fmap E : FMap (result E) := λ A B f m,
  match m with Ok a => Ok (f a) | Err e => Err e end.
#[export] Instance result_eq_dec {E A} `{EqDecision E, EqDecision A} :
  EqDecision (result E A).
Proof. solve_decision. Defined.

Definition is_ok {E A} (r : result E A) : bool :=
  match r with Ok _ => true | Err _ => false end.

Definition ensure {E} (b : bool) (e : E) : result E unit :=
  if b then Ok tt else Err e.

Definition from_option_err {E A} (e : E) (o : option A) : result E A :=
  match o with Some a => Ok a | None => Err e end.

Definition is_some {A} (o : option A) : bool :=
  match o with Some _ => true | None => false end.
Definition is_none {A} (o : option A) : bool := negb (is_some o).
(** [Option::is_some_and] *)
Definition is_some_and {A} (f : A → bool) (o : option A) : bool :=
  match o with Some a => f a | None => false end.
(** [Result::is_ok_and] *)
Definition is_ok_and {E A} (f : A → bool) (r : result E A) : bool :=
  match r with Ok a => f a | Err _ => false end.

Lemma is_some_true {A} (o : option A) : is_some o = true ↔ ∃ a, o = Some a.
Proof. destruct o; cbn; naive_solver. Qed.
Lemma is_some_false {A} (o : option A) : is_some o = false ↔ o = None.
Proof. destruct o; cbn; naive_solver. Qed.
Lemma is_some_and_false {A} (f : A → bool) (o : option A) :
  is_some_and f o = false ↔ ∀ a, o = Some a → f a = false.
Proof. destruct o; cbn; naive_solver. Qed.

Lemma bind_Ok {E A B} (f : A → result E B) (m : result E A) b :
  m ≫= f = Ok b ↔ ∃ a, m = Ok a ∧ f a = Ok b.
Proof. destruct m; cbn; naive_solver. Qed.

Lemma ensure_Ok {E} (b : bool) (e : E) u : ensure b e = Ok u ↔ b = true.
Proof. destruct b, u; cbn; naive_solver. Qed.

(** ** Methods on [&mut self]

    A Rust method [fn m(&mut self) -> Result<A, E>] is a function of the
    current value that returns the result *and* the value left behind, so that
    what a refused call leaves in place is a statement about the model and not
    an artefact of it. *)

Definition stateM (S E A : Type) : Type := S → result E A * S.

#[export] Instance stateM_ret S E : MRet (stateM S E) := λ A a s, (Ok a, s).
#[export] Instance stateM_bind S E : MBind (stateM S E) := λ A B f m s,
  match m s with
  | (Ok a, s') => f a s'
  | (Err e, s') => (Err e, s')
  end.

Definition get {S E} : stateM S E S := λ s, (Ok s, s).
Definition modify {S E} (f : S → S) : stateM S E unit := λ s, (Ok tt, f s).
(** What a run of the method leaves behind. *)
Definition after {S E A} (m : stateM S E A) (s : S) : S := (m s).2.
Lemma after_Ok {S E} (m : stateM S E unit) s : is_ok (m s).1 = true → m s = (Ok tt, after m s).
Proof. unfold after. by destruct (m s) as [[[]|]]. Qed.
Definition lift {S E A} (r : result E A) : stateM S E A := λ s, (r, s).

(** Running a method on a field of the receiver ([self.field.m()?]). *)
Definition zoom {S T E A} (proj : S → T) (upd : T → S → S)
    (m : stateM T E A) : stateM S E A :=
  λ s, let '(r, t) := m (proj s) in (r, upd t s).

(** What a successful run of each construct did. *)
Lemma get_Ok {S E} (s s' a : S) : get (E := E) s = (Ok a, s') ↔ a = s ∧ s' = s.
Proof. unfold get. naive_solver. Qed.
Lemma modify_Ok {S E} (f : S → S) s u s' : modify (E := E) f s = (Ok u, s') ↔ s' = f s.
Proof. unfold modify. destruct u. naive_solver. Qed.
Lemma lift_Ok {S E A} (r : result E A) (s s' : S) a :
  lift r s = (Ok a, s') ↔ r = Ok a ∧ s' = s.
Proof. unfold lift. naive_solver. Qed.
Lemma ret_Ok {S E A} (b a : A) (s s' : S) :
  mret (M := stateM S E) b s = (Ok a, s') ↔ a = b ∧ s' = s.
Proof. unfold mret, stateM_ret. naive_solver. Qed.
Lemma bindM_Ok {S E A B} (f : A → stateM S E B) (m : stateM S E A) s b s' :
  (m ≫= f) s = (Ok b, s') ↔ ∃ a s1, m s = (Ok a, s1) ∧ f a s1 = (Ok b, s').
Proof.
  unfold mbind, stateM_bind. destruct (m s) as [[a|e] s1]; split.
  - eauto.
  - intros (?&?&[= <- <-]&?). done.
  - done.
  - by intros (?&?&?&?).
Qed.
Lemma zoom_Ok {S T E A} (proj : S → T) upd (m : stateM T E A) s a s' :
  zoom proj upd m s = (Ok a, s') ↔ ∃ t, m (proj s) = (Ok a, t) ∧ s' = upd t s.
Proof. unfold zoom. destruct (m (proj s)). naive_solver. Qed.

(** Decompose a successful run of a method into the successes of its parts. *)
Ltac stateM_inv H :=
  try (rewrite bindM_Ok in H; destruct H as (? & ? & ? & ?));
  repeat match goal with
  | H : get _ = (Ok _, _) |- _ => rewrite get_Ok in H; destruct H as [-> ->]
  | H : modify _ _ = (Ok _, _) |- _ => rewrite modify_Ok in H; subst
  | H : lift _ _ = (Ok _, _) |- _ => rewrite lift_Ok in H; destruct H as [? ->]
  | H : mret _ _ = (Ok _, _) |- _ => rewrite ret_Ok in H; destruct H as [-> ->]
  | H : zoom _ _ _ _ = (Ok _, _) |- _ => rewrite zoom_Ok in H; destruct H as (? & ? & ->)
  | H : mbind _ _ _ = (Ok _, _) |- _ => rewrite bindM_Ok in H; destruct H as (? & ? & ? & ?)
  | H : ensure _ _ = Ok _ |- _ => rewrite ensure_Ok in H
  end.

(** *** Methods that refuse without mutating

    [Reads m]: [m] never changes the receiver.  [Total m]: [m] never refuses.
    [Atomic m]: when [m] refuses, the receiver is what it was.  A method that
    checks first and mutates last is atomic by instance resolution alone. *)

Class Reads {S E A} (m : stateM S E A) : Prop := reads : ∀ s, (m s).2 = s.
Class Total {S E A} (m : stateM S E A) : Prop := total : ∀ s, is_ok (m s).1 = true.
Class Atomic {S E A} (m : stateM S E A) : Prop :=
  atomic : ∀ s e s', m s = (Err e, s') → s' = s.

#[export] Instance reads_get S E : Reads (get : stateM S E S).
Proof. by intros s. Qed.
#[export] Instance reads_lift S E A (r : result E A) : Reads (lift r : stateM S E A).
Proof. by intros s. Qed.
#[export] Instance total_modify S E f : Total (modify f : stateM S E unit).
Proof. by intros s. Qed.
#[export] Instance total_ret S E A (a : A) : Total (mret a : stateM S E A).
Proof. by intros s. Qed.
#[export] Instance total_bind S E A B (m : stateM S E A) (f : A → stateM S E B) :
  Total m → (∀ a, Total (f a)) → Total (m ≫= f).
Proof.
  intros Hm Hf s. unfold mbind, stateM_bind. specialize (Hm s).
  destruct (m s) as [[a|] s']; [apply Hf|done].
Qed.
#[export] Instance atomic_bind_reads S E A B (m : stateM S E A) (f : A → stateM S E B) :
  Reads m → (∀ a, Atomic (f a)) → Atomic (m ≫= f) | 1.
Proof.
  intros Hm Hf s e s'. unfold mbind, stateM_bind. specialize (Hm s).
  destruct (m s) as [[a|] s1]; cbn in Hm; subst; [apply Hf|naive_solver].
Qed.
#[export] Instance atomic_bind_total S E A B (m : stateM S E A) (f : A → stateM S E B) :
  Atomic m → (∀ a, Total (f a)) → Atomic (m ≫= f) | 2.
Proof.
  intros Hm Hf s e s'. unfold mbind, stateM_bind. specialize (Hm s).
  destruct (m s) as [[a|e1] s1]; [|naive_solver].
  intros Hfa. specialize (Hf a s1). by rewrite Hfa in Hf.
Qed.
#[export] Instance atomic_ret S E A (a : A) : Atomic (mret a : stateM S E A).
Proof. by intros s. Qed.

(** A method on a field, where writing the field back is a no-op. *)
Lemma atomic_zoom {S T E A} (proj : S → T) upd (m : stateM T E A) :
  (∀ s, upd (proj s) s = s) → Atomic m → Atomic (zoom proj upd m).
Proof.
  intros Hlaw Hm s e s'. unfold zoom. specialize (Hm (proj s)).
  destruct (m (proj s)) as [[]]; naive_solver.
Qed.

(** ** Fixed-width integers *)

Definition U32_MAX : N := 2 ^ 32 - 1.
Definition U64_MAX : N := 2 ^ 64 - 1.

Definition checked_add_u64 (a b : N) : option N :=
  if decide (a + b ≤ U64_MAX)%N then Some (a + b)%N else None.
Definition checked_mul_u64 (a b : N) : option N :=
  if decide (a * b ≤ U64_MAX)%N then Some (a * b)%N else None.
(** [u32::saturating_add], [u64::saturating_add] *)
Definition saturating_add_u32 (a b : N) : N := N.min (a + b) U32_MAX.
Definition saturating_add_u64 (a b : N) : N := N.min (a + b) U64_MAX.
(** [u64::try_from(usize)] *)
Definition u64_try_from (n : nat) : option N :=
  if decide (N.of_nat n ≤ U64_MAX)%N then Some (N.of_nat n) else None.

Lemma checked_add_u64_Some a b c :
  checked_add_u64 a b = Some c ↔ c = (a + b)%N ∧ (c ≤ U64_MAX)%N.
Proof. unfold checked_add_u64. case_decide; naive_solver. Qed.

Lemma checked_mul_u64_Some a b c :
  checked_mul_u64 a b = Some c ↔ c = (a * b)%N ∧ (c ≤ U64_MAX)%N.
Proof. unfold checked_mul_u64. case_decide; naive_solver. Qed.

(** ** Rust strings

    A [String] is its UTF-8 bytes.  [str::trim] removes the characters with the
    Unicode [White_Space] property; [is_blank s] is [s.trim().is_empty()]. *)

Definition utf8_bytes (s : string) : list N :=
  N_of_ascii <$> String.list_ascii_of_string s.

Fixpoint is_blank_bytes (l : list N) : bool :=
  match l with
  | [] => true
  | b :: t =>
    if ((9 <=? b) && (b <=? 13) || (b =? 32))%N then is_blank_bytes t
    else
      match t with
      | c :: t1 =>
        if ((b =? 0xC2) && ((c =? 0x85) || (c =? 0xA0)))%N then is_blank_bytes t1
        else
          match t1 with
          | d :: t2 =>
            (((b =? 0xE1) && (c =? 0x9A) && (d =? 0x80)
              || (b =? 0xE2) && (c =? 0x80)
                 && ((0x80 <=? d) && (d <=? 0x8A) || (d =? 0xA8) || (d =? 0xA9)
                     || (d =? 0xAF))
              || (b =? 0xE2) && (c =? 0x81) && (d =? 0x9F)
              || (b =? 0xE3) && (c =? 0x80) && (d =? 0x80))%N)
            && is_blank_bytes t2
          | [] => false
          end
      | [] => false
      end
  end.

Definition is_blank (s : string) : bool := is_blank_bytes (utf8_bytes s).

#[global] Arguments is_blank : simpl never.

(** A string that starts with a printable ASCII character is not blank. *)
Definition printable (c : ascii) : bool :=
  ((33 <=? N_of_ascii c) && (N_of_ascii c <=? 126))%N.

Lemma utf8_bytes_app a b : utf8_bytes (String.append a b) = utf8_bytes a ++ utf8_bytes b.
Proof.
  induction a as [|c a IH]; [done|].
  change (N_of_ascii c :: utf8_bytes (String.append a b) = N_of_ascii c :: utf8_bytes a ++ utf8_bytes b).
  by rewrite IH.
Qed.

Lemma is_blank_String c s : printable c = true → is_blank (String c s) = false.
Proof.
  unfold printable, is_blank, utf8_bytes. cbn. generalize (N_of_ascii c) as b. intros b.
  rewrite andb_true_iff, !N.leb_le. intros [? ?].
  repeat match goal with
  | |- context [(?x =? ?y)%N] => destruct (N.eqb_spec x y); [lia|]
  | |- context [(?x <=? ?y)%N] => destruct (N.leb_spec x y); try lia
  end; cbn; by repeat case_match.
Qed.

(** ** Enumerations with a stored spelling

    Most enums of the runtime pair a constant [ALL] with a method [as_str] and a
    reader [from_stored] that searches [ALL] for the spelling.  What their
    callers rely on is stated once, as an interface. *)

Class Spelled (A : Type) := {
  spelled_ALL : list A;
  as_str : A → string;
}.

Definition from_spelling {A} `{Spelled A} (value : string) : option A :=
  find (λ a, bool_decide (as_str a = value)) spelled_ALL.

Class SpelledLaws (A : Type) `{Spelled A} := {
  spelled_complete : ∀ a : A, a ∈ spelled_ALL;
  spelled_inj : Inj (=) (=) (as_str (A := A));
}.

Lemma find_Some_elem {A} (f : A → bool) l a :
  find f l = Some a → a ∈ l ∧ f a = true.
Proof.
  intros H. apply find_some in H as [Hin Hf]. split; [|done].
  by apply list_elem_of_In.
Qed.

Lemma find_is_Some {A} (f : A → bool) l a :
  a ∈ l → f a = true → ∃ b, find f l = Some b.
Proof.
  intros Hin Hf. destruct (find f l) eqn:E; [by eauto|].
  eapply find_none in E; [|by apply list_elem_of_In]. congruence.
Qed.

Section spelled.
Context {A : Type} `{SpelledLaws A}.

Lemma from_spelling_as_str a : from_spelling (as_str a) = Some a.
Proof.
  unfold from_spelling.
  destruct (find_is_Some (λ b, bool_decide (as_str b = as_str a)) spelled_ALL a)
    as [b Hb].
  - apply spelled_complete.
  - by apply bool_decide_eq_true.
  - rewrite Hb. apply find_Some_elem in Hb as [_ Hb%bool_decide_eq_true].
    f_equal. by apply spelled_inj.
Qed.

Lemma from_spelling_Some s a : from_spelling s = Some a ↔ s = as_str a.
Proof.
  split.
  - intros [_ Hb%bool_decide_eq_true]%find_Some_elem. done.
  - intros ->. apply from_spelling_as_str.
Qed.
End spelled.

(** ** Instants

    [time::OffsetDateTime] is a third-party type: the runtime compares instants,
    rewrites a value to the UTC offset and asks whether a value carries it.  The
    model takes those operations as a parameter, with the documented laws of the
    crate as hypotheses. *)

Class Timestamp (T : Type) := {
  ts_leb : T → T → bool;
  to_utc : T → T;
  is_utc : T → bool;
}.

Definition ts_ltb {T} `{Timestamp T} (a b : T) : bool := negb (ts_leb b a).
Definition ts_eqb {T} `{Timestamp T} (a b : T) : bool := ts_leb a b && ts_leb b a.
(** [Ord::max]: the second value unless it is strictly smaller. *)
Definition ts_max {T} `{Timestamp T} (a b : T) : T := if ts_ltb b a then a else b.

Class TimestampLaws (T : Type) `{Timestamp T} := {
  ts_leb_refl : ∀ a : T, ts_leb a a = true;
  ts_leb_trans : ∀ a b c : T, ts_leb a b = true → ts_leb b c = true → ts_leb a c = true;
  ts_leb_total : ∀ a b : T, ts_leb a b = true ∨ ts_leb b a = true;
  to_utc_le : ∀ a : T, ts_leb (to_utc a) a = true;
  to_utc_ge : ∀ a : T, ts_leb a (to_utc a) = true;
  to_utc_is_utc : ∀ a : T, is_utc (to_utc a) = true;
}.

Section timestamp.
Context {T : Type} `{TimestampLaws T}.

Lemma ts_max_ge_r (a b : T) : ts_leb b (ts_max a b) = true.
Proof.
  unfold ts_max, ts_ltb. destruct (ts_leb a b) eqn:E; cbn.
  - apply ts_leb_refl.
  - destruct (ts_leb_total a b); congruence.
Qed.

Lemma ts_max_ge_l (a b : T) : ts_leb a (ts_max a b) = true.
Proof.
  unfold ts_max, ts_ltb. destruct (ts_leb a b) eqn:E; cbn; [done|].
  apply ts_leb_refl.
Qed.

Lemma ts_max_utc (a b : T) :
  is_utc a = true → is_utc b = true → is_utc (ts_max a b) = true.
Proof. unfold ts_max. by case_match. Qed.

Lemma ts_ltb_false (a b : T) : ts_ltb a b = false ↔ ts_leb b a = true.
Proof. unfold ts_ltb. by destruct (ts_leb b a). Qed.

Lemma ts_eqb_refl (a : T) : ts_eqb a a = true.
Proof. unfold ts_eqb. by rewrite ts_leb_refl. Qed.
End timestamp.

(** A concrete clock, for evaluating the model: an instant and the UTC offset it
    is displayed at. *)
Record clock := Clock { clock_instant : Z; clock_offset : Z }.

#[export] Instance clock_eq_dec : EqDecision clock.
Proof. solve_decision. Defined.

#[export] Instance clock_timestamp : Timestamp clock := {
  ts_leb a b := Z.leb (clock_instant a) (clock_instant b);
  to_utc a := Clock (clock_instant a) 0;
  is_utc a := Z.eqb (clock_offset a) 0;
}.

#[export] Instance clock_laws : TimestampLaws clock.
Proof.
  split; cbn; intros.
  - lia.
  - lia.
  - lia.
  - lia.
  - lia.
  - done.
Qed.

(** ** Third-party types

    The source uses three more types it does not define: [serde_json::Value] for
    a tool's raw input and output, [semver::Version] for a tool's version, and
    SHA-256 from the [sha2] crate.  [Platform] bundles them with the instants, so
    that every component is a function of one parameter. *)

Class Platform := {
  OffsetDateTime : Type;
  OffsetDateTime_timestamp :: Timestamp OffsetDateTime;
  OffsetDateTime_eq_dec :: EqDecision OffsetDateTime;
  Value : Type;
  Value_eq_dec :: EqDecision Value;
  Version : Type;
  Version_eq_dec :: EqDecision Version;
  (** [semver::Version::parse], the error carrying its display text *)
  Version_parse : string → result string Version;
  (** [version.build.is_empty()] and [version.pre.is_empty()] *)
  Version_build_is_empty : Version → bool;
  Version_pre_is_empty : Version → bool;
  (** [Display] *)
  Version_to_string : Version → string;
  (** [Ord]: precedence order *)
  Version_leb : Version → Version → bool;
  (** [uuid::Uuid] *)
  Uuid : Type;
  Uuid_eq_dec :: EqDecision Uuid;
  Uuid_countable :: Countable Uuid;
  (** [Ord] *)
  Uuid_ltb : Uuid → Uuid → bool;
}.

Class PlatformLaws `{Platform} := {
  OffsetDateTime_laws :: TimestampLaws OffsetDateTime;
}.

(** The concrete platform the witnesses evaluate on: clock readings, strings for
    JSON values, and versions that are [(major, pre-release?)] pairs. *)
#[export] Instance demo_platform : Platform := {
  OffsetDateTime := clock;
  Value := string;
  Version := N * bool;
  Version_parse s := Ok (N.of_nat (String.length s), false);
  Version_build_is_empty _ := true;
  Version_pre_is_empty v := negb v.2;
  Version_to_string v := pretty v.1;
  Version_leb v w := ((v.1 <? w.1) || (v.1 =? w.1) && (v.2 || negb w.2))%N;
  Uuid := N;
  Uuid_ltb := N.ltb;
}.

Definition demo_at (n : Z) : OffsetDateTime := Clock n 0.
Definition demo_uuid (n : N) : Uuid := n.
Definition demo_value (s : string) : Value := s.

#[export] Instance demo_platform_laws : PlatformLaws.
Proof. split. apply _. Qed.

(** ** Reachability *)

Lemma rtc_invariant {A} (R : relation A) (P : A → Prop) x y :
  (∀ a b, P a → R a b → P b) → P x → rtc R x y → P y.
Proof. intros Hstep Hx Hrtc. induction Hrtc; eauto. Qed.

(** ** Automation *)

(** Split a boolean conjunction or disjunction hypothesis. *)
Ltac bool_hyps :=
  repeat match goal with
  | H : (_ && _) = true |- _ => apply andb_true_iff in H as [? ?]
  | H : (_ || _) = false |- _ => apply orb_false_iff in H as [? ?]
  | H : negb _ = true |- _ => apply negb_true_iff in H
  | H : negb _ = false |- _ => apply negb_false_iff in H
  | H : ensure _ _ = Ok _ |- _ => rewrite ensure_Ok in H
  | H : bool_decide _ = true |- _ => apply bool_decide_eq_true in H
  | H : bool_decide _ = false |- _ => apply bool_decide_eq_false in H
  end.

(** Case analysis on every [match] of the goal, closing the easy branches. *)
Ltac cases := repeat (case_match; simplify_eq/=); try done.

Create HintDb harkness discriminated.
#[export] Hint Resolve ts_leb_refl to_utc_is_utc ts_max_ge_r ts_max_ge_l
  ts_max_utc : harkness.
