(* ===== verification/Digest.v ===== *)
(** * Digests and their hexadecimal spelling

    Models [Sha256Hash] of [src/crates/harkness-runtime/src/integration/subject.rs]
    and [InputHash] of [approval/canonical.rs].  A digest is 32 bytes; the two
    types spell themselves in lowercase hexadecimal and read that spelling back
    with one loop over pairs of digits, written out in both files. *)

From S2P Require Import Prelude.
From Stdlib Require Import Ascii NArith.
From stdpp Require Import base decidable list strings.

Definition HEX_LENGTH : nat := 64.

(** ** Spelling a byte *)

Definition hex_digit (n : N) : N := if (n <? 10)%N then (48 + n)%N else (87 + n)%N.

(** [write!("{byte:02x}")] *)
Definition hex_byte (b : N) : list N := [hex_digit (b / 16); hex_digit (b mod 16)].

Definition hex_bytes (bytes : list N) : list N := bytes ≫= hex_byte.

Definition string_of_bytes (l : list N) : string :=
  String.string_of_list_ascii (ascii_of_N <$> l).

(** ** Reading a digit *)

Definition nibble (digit : N) : option N :=
  if ((48 <=? digit) && (digit <=? 57))%N then Some (digit - 48)%N
  else if ((97 <=? digit) && (digit <=? 102))%N then Some (digit - 97 + 10)%N
  else None.

(** [*byte = ( *byte << 4) | nibble] on a [u8] *)
Definition shift_in (byte n : N) : N := N.lor (N.shiftl byte 4 mod 256) n.

(** The loop over [bytes.iter_mut().zip(spelling.as_chunks::<2>().0)]: [None] is
    the early return on a character that is no lowercase digit. *)
Fixpoint parse_pairs (l : list N) : option (list N) :=
  match l with
  | a :: b :: l =>
    x ← nibble a;
    y ← nibble b;
    bytes ← parse_pairs l;
    Some (shift_in (shift_in 0 x) y :: bytes)
  | _ => Some []
  end.

Inductive DigestError :=
| MalformedDigest (value reason : string).

Record Sha256Hash := MkSha256Hash { sha256_bytes : list N }.
Record InputHash := MkInputHash { input_hash_bytes : list N }.

#[export] Instance Sha256Hash_eq_dec : EqDecision Sha256Hash.
Proof. solve_decision. Defined.
#[export] Instance InputHash_eq_dec : EqDecision InputHash.
Proof. solve_decision. Defined.

Definition digest_parse (value : string) : result DigestError (list N) :=
  let spelling := utf8_bytes value in
  if negb (length spelling =? HEX_LENGTH)
  then Err (MalformedDigest value "it is not 64 hexadecimal characters long")
  else match parse_pairs spelling with
       | None => Err (MalformedDigest value "it is not spelled in lowercase hexadecimal")
       | Some bytes => Ok bytes
       end.

Definition Sha256Hash_to_hex (h : Sha256Hash) : string :=
  string_of_bytes (hex_bytes (sha256_bytes h)).
Definition Sha256Hash_parse (value : string) : result DigestError Sha256Hash :=
  MkSha256Hash <$> digest_parse value.

Definition InputHash_to_hex (h : InputHash) : string :=
  string_of_bytes (hex_bytes (input_hash_bytes h)).
Definition InputHash_parse (value : string) : result DigestError InputHash :=
  MkInputHash <$> digest_parse value.

(** ** Well-formed digests: 32 octets *)

Definition octet (b : N) : Prop := (b < 256)%N.
Definition digest_wf (bytes : list N) : Prop := length bytes = 32 ∧ Forall octet bytes.

(** ** Lemmas *)

Lemma utf8_bytes_string_of_bytes l : Forall octet l → utf8_bytes (string_of_bytes l) = l.
Proof.
  intros H. unfold utf8_bytes, string_of_bytes.
  rewrite String.list_ascii_of_string_of_list_ascii, <- list_fmap_compose.
  induction H as [|b l Hb _ IH]; cbn; [done|].
  f_equal; [by apply N_ascii_embedding|done].
Qed.

Lemma string_of_bytes_utf8_bytes s : string_of_bytes (utf8_bytes s) = s.
Proof.
  unfold utf8_bytes, string_of_bytes. rewrite <- list_fmap_compose.
  rewrite <- (String.string_of_list_ascii_of_string s) at 2. f_equal.
  rewrite <- (list_fmap_id (String.list_ascii_of_string s)) at 2.
  apply list_fmap_ext. intros ? c _. apply ascii_N_embedding.
Qed.

Lemma nibble_Some d n :
  nibble d = Some n ↔ (n < 16)%N ∧ d = hex_digit n.
Proof.
  unfold nibble, hex_digit.
  destruct (N.leb_spec 48 d), (N.leb_spec d 57), (N.leb_spec 97 d), (N.leb_spec d 102),
    (N.ltb_spec n 10); cbn; split; intros; destruct_and?; simplify_eq; try lia;
    try (split; lia); f_equal; lia.
Qed.

Lemma hex_digit_octet n : (n < 16)%N → octet (hex_digit n).
Proof. unfold hex_digit, octet. destruct (N.ltb_spec n 10); lia. Qed.

(** A property of all small numbers is checked by evaluation. *)
Definition below (n : nat) : list N := N.of_nat <$> seq 0 n.

Lemma elem_of_below n x : (x < N.of_nat n)%N → x ∈ below n.
Proof.
  intros Hx. apply list_elem_of_fmap. exists (N.to_nat x).
  rewrite elem_of_seq. lia.
Qed.

Lemma shift_in_small x y :
  (x < 16)%N → (y < 16)%N → shift_in (shift_in 0 x) y = (16 * x + y)%N.
Proof.
  intros Hx Hy.
  assert (Forall (λ x, Forall (λ y, shift_in (shift_in 0 x) y = (16 * x + y)%N)
    (below 16)) (below 16)) as Hall.
  { apply (bool_decide_unpack _). by vm_compute. }
  rewrite Forall_forall in Hall. specialize (Hall x (elem_of_below 16 x Hx)).
  rewrite Forall_forall in Hall. exact (Hall y (elem_of_below 16 y Hy)).
Qed.

Lemma nibble_hex_digit n : (n < 16)%N → nibble (hex_digit n) = Some n.
Proof. intros ?. by apply nibble_Some. Qed.

Lemma parse_pairs_hex_bytes bytes :
  Forall octet bytes → parse_pairs (hex_bytes bytes) = Some bytes.
Proof.
  unfold octet. induction 1 as [|b l Hb _ IH]; [done|].
  assert (b / 16 < 16)%N by (apply N.Div0.div_lt_upper_bound; lia).
  assert (b mod 16 < 16)%N by (apply N.mod_upper_bound; lia).
  unfold hex_bytes. cbn -[shift_in N.div N.modulo].
  rewrite !nibble_hex_digit by done.
  cbn -[shift_in N.div N.modulo]. fold (hex_bytes l). rewrite IH.
  cbn -[shift_in N.div N.modulo].
  rewrite shift_in_small by done. by rewrite <- N.Div0.div_mod.
Qed.

Lemma parse_pairs_Some n l bytes :
  length l = 2 * n → parse_pairs l = Some bytes →
  l = hex_bytes bytes ∧ length bytes = n ∧ Forall octet bytes.
Proof.
  revert l bytes. induction n as [|n IH]; intros l bytes Hlen Hp.
  { destruct l; [|done]. cbn in Hp. by simplify_eq. }
  destruct l as [|a [|b l]]; cbn in Hlen; [lia|lia|].
  cbn -[shift_in] in Hp.
  destruct (nibble a) as [x|] eqn:Ha; [|done].
  destruct (nibble b) as [y|] eqn:Hb; [|done]. cbn -[shift_in] in Hp.
  destruct (parse_pairs l) as [bs|] eqn:Hl; [|done]. cbn -[shift_in] in Hp. simplify_eq.
  apply nibble_Some in Ha as [Hx ->]. apply nibble_Some in Hb as [Hy ->].
  destruct (IH l bs ltac:(lia) Hl) as (-> & <- & Hbs).
  rewrite shift_in_small by done.
  assert ((16 * x + y) / 16 = x)%N as Hdiv by (symmetry; apply (N.div_unique _ _ _ y); lia).
  assert ((16 * x + y) mod 16 = y)%N as Hmod
    by (symmetry; apply (N.mod_unique _ _ x); lia).
  split; [|split; [done|]].
  - unfold hex_bytes. cbn -[N.div N.modulo N.mul N.add]. by rewrite Hdiv, Hmod.
  - constructor; [|done]. unfold octet. lia.
Qed.

Lemma hex_bytes_octets bytes : Forall octet bytes → Forall octet (hex_bytes bytes).
Proof.
  unfold octet. induction 1 as [|b l Hb _ IH]; [constructor|].
  assert (b / 16 < 16)%N by (apply N.Div0.div_lt_upper_bound; lia).
  assert (b mod 16 < 16)%N by (apply N.mod_upper_bound; lia).
  unfold hex_bytes. cbn -[N.div N.modulo].
  repeat constructor; [by apply hex_digit_octet..|done].
Qed.

Lemma length_hex_bytes bytes : length (hex_bytes bytes) = 2 * length bytes.
Proof. induction bytes; cbn; [done|]. fold (hex_bytes bytes). lia. Qed.

(** Reading a digest accepts exactly the spelling of 32 octets. *)
Lemma digest_parse_Ok value bytes :
  digest_parse value = Ok bytes ↔
  digest_wf bytes ∧ value = string_of_bytes (hex_bytes bytes).
Proof.
  unfold digest_parse, digest_wf, HEX_LENGTH. split.
  - destruct (Nat.eqb_spec (length (utf8_bytes value)) 64) as [Hlen|]; cbn; [|done].
    destruct (parse_pairs (utf8_bytes value)) as [bs|] eqn:Hp; [|done].
    intros ?. simplify_eq.
    destruct (parse_pairs_Some 32 _ _ Hlen Hp) as (Heq & ? & ?).
    split; [done|]. by rewrite <- Heq, string_of_bytes_utf8_bytes.
  - intros [[Hlen Hoct] ->].
    rewrite utf8_bytes_string_of_bytes by by apply hex_bytes_octets.
    rewrite length_hex_bytes, Hlen. cbn. by rewrite parse_pairs_hex_bytes.
Qed.

(** *)
Theorem Sha256Hash_parse_roundtrip value h :
  Sha256Hash_parse value = Ok h ↔
  digest_wf (sha256_bytes h) ∧ value = Sha256Hash_to_hex h.
Proof.
  unfold Sha256Hash_parse, Sha256Hash_to_hex. rewrite <- digest_parse_Ok.
  destruct (digest_parse value); destruct h; cbn; naive_solver.
Qed.
