(* ===== verification/Tool.v ===== *)
(** * Tools: identifiers, risk, descriptors

    Models [src/crates/harkness-runtime/src/tool/identifier.rs] and the parts of
    [tool/descriptor.rs] that policy, approval and the scheduler read: the
    identifier grammar, the ordered risk levels, the declared metadata and the
    published descriptor. *)

From S2P Require Import Prelude.
From Stdlib Require Import Ascii.
From stdpp Require Import base decidable list gmap strings pretty.

(** ** Risk levels ([tool/descriptor.rs]) *)

Inductive RiskLevel :=
| Observe | WorkspaceWrite | Execute | Network | RemoteWrite | Destructive.

#[export] Instance RiskLevel_eq_dec : EqDecision RiskLevel.
Proof. solve_decision. Defined.

(** [derive(Ord)]: the declaration order. *)
Definition RiskLevel_rank (r : RiskLevel) : nat :=
  match r with
  | Observe => 0 | WorkspaceWrite => 1 | Execute => 2
  | Network => 3 | RemoteWrite => 4 | Destructive => 5
  end.

#[export] Instance RiskLevel_countable : Countable RiskLevel.
Proof.
  apply (inj_countable' RiskLevel_rank
    (λ n, match n with
          | 0 => Observe | 1 => WorkspaceWrite | 2 => Execute
          | 3 => Network | 4 => RemoteWrite | _ => Destructive
          end)).
  by intros [].
Defined.

Definition risk_max (a b : RiskLevel) : RiskLevel :=
  if RiskLevel_rank a <=? RiskLevel_rank b then b else a.

#[export] Instance RiskLevel_spelled : Spelled RiskLevel := {
  spelled_ALL :=
    [Observe; WorkspaceWrite; Execute; Network; RemoteWrite; Destructive];
  as_str r := match r with
    | Observe => "observe"
    | WorkspaceWrite => "workspace_write"
    | Execute => "execute"
    | Network => "network"
    | RemoteWrite => "remote_write"
    | Destructive => "destructive"
    end;
}.

#[export] Instance RiskLevel_spelled_laws : SpelledLaws RiskLevel.
Proof.
  split.
  - intros []; set_solver.
  - by intros [] [].
Qed.

(** [FromStr for RiskLevel], the error carrying the spelling that named nothing. *)
Definition RiskLevel_from_str (value : string) : result string RiskLevel :=
  from_option_err value (from_spelling value).

Definition lowest : RiskLevel := Observe.
Definition highest : RiskLevel := Destructive.
Definition mutates_state (r : RiskLevel) : bool :=
  negb (bool_decide (r = Observe)).

Definition risk_le (a b : RiskLevel) : Prop := RiskLevel_rank a ≤ RiskLevel_rank b.

#[export] Instance risk_le_dec a b : Decision (risk_le a b).
Proof. unfold risk_le. apply _. Defined.

Lemma RiskLevel_rank_inj a b : RiskLevel_rank a = RiskLevel_rank b → a = b.
Proof. by destruct a, b. Qed.

#[export] Instance risk_le_partial_order : PartialOrder risk_le.
Proof.
  unfold risk_le. repeat split.
  - intros ?; lia.
  - intros ???; lia.
  - intros a b ??. apply RiskLevel_rank_inj. lia.
Qed.

Lemma risk_max_rank a b :
  RiskLevel_rank (risk_max a b) = RiskLevel_rank a `max` RiskLevel_rank b.
Proof. unfold risk_max. destruct (Nat.leb_spec (RiskLevel_rank a) (RiskLevel_rank b)); lia. Qed.

Lemma risk_max_le_l a b : risk_le a (risk_max a b).
Proof. unfold risk_le. rewrite risk_max_rank. lia. Qed.
Lemma risk_max_le_r a b : risk_le b (risk_max a b).
Proof. unfold risk_le. rewrite risk_max_rank. lia. Qed.
Lemma risk_max_lub a b c : risk_le a c → risk_le b c → risk_le (risk_max a b) c.
Proof. unfold risk_le. rewrite risk_max_rank. lia. Qed.
Lemma risk_max_le_iff a b c : risk_le (risk_max a b) c ↔ risk_le a c ∧ risk_le b c.
Proof. unfold risk_le. rewrite risk_max_rank. lia. Qed.
#[export] Hint Resolve risk_max_le_l risk_max_le_r risk_max_lub : harkness.

(** ** Timeouts

    A duration is its number of seconds. *)

Definition Duration := N.
Definition OBSERVE_TIMEOUT : Duration := 30%N.
Definition LOCAL_WORK_TIMEOUT : Duration := 120%N.

Inductive ToolTimeout :=
| After (limit : Duration)
| OnlyByCancellation.

Definition ToolTimeout_for_risk (risk : RiskLevel) : ToolTimeout :=
  match risk with
  | Observe => After OBSERVE_TIMEOUT
  | WorkspaceWrite | Execute | Destructive => After LOCAL_WORK_TIMEOUT
  | Network | RemoteWrite => OnlyByCancellation
  end.

Definition ToolTimeout_limit (t : ToolTimeout) : option Duration :=
  match t with After limit => Some limit | OnlyByCancellation => None end.

(** ** Identifiers ([tool/identifier.rs]) *)

Definition MAX_IDENTIFIER_LENGTH : nat := 64.
Definition MINIMUM_TOOL_ID_SEGMENTS : nat := 2.
Definition MINIMUM_CAPABILITY_SEGMENTS : nat := 1.
Definition TOO_LONG : string := "it is longer than 64 characters".
Definition BUILD_METADATA : string :=
  "build metadata is ignored for semantic-version precedence, so it cannot distinguish one tool version from another; bump the patch version instead".

(** [value.chars().count()]: the bytes of a UTF-8 string that do not continue a
    character. *)
Definition chars_count (s : string) : nat :=
  length (filter (λ b, negb ((0x80 <=? b) && (b <? 0xC0))%N) (utf8_bytes s)).

Definition is_ascii_lowercase (c : ascii) : bool :=
  ((97 <=? N_of_ascii c) && (N_of_ascii c <=? 122))%N.
Definition is_ascii_digit (c : ascii) : bool :=
  ((48 <=? N_of_ascii c) && (N_of_ascii c <=? 57))%N.

(** [value.split(sep)]: always at least one segment. *)
Fixpoint split_on (sep : ascii) (s : string) : list string :=
  match s with
  | EmptyString => [EmptyString]
  | String c s =>
    if Ascii.eqb c sep then EmptyString :: split_on sep s
    else match split_on sep s with
         | [] => [String c EmptyString]
         | seg :: segs => String c seg :: segs
         end
  end.

Fixpoint string_forallb (f : ascii → bool) (s : string) : bool :=
  match s with
  | EmptyString => true
  | String c s => f c && string_forallb f s
  end.

Definition segment_char (c : ascii) : bool :=
  is_ascii_lowercase c || is_ascii_digit c || Ascii.eqb c "_"%char.

Fixpoint validate_segments (segments : list string) : result string unit :=
  match segments with
  | [] => Ok tt
  | segment :: rest =>
    match segment with
    | EmptyString => Err "every dot-separated segment must be non-empty"
    | String first others =>
      if negb (is_ascii_lowercase first)
      then Err "every segment must start with a lowercase ASCII letter"
      else if negb (string_forallb segment_char others)
      then Err "segments accept only lowercase ASCII letters, digits, and underscores"
      else validate_segments rest
    end
  end.

Definition validate_identifier (value : string) (minimum_segments : nat)
    : result string unit :=
  if bool_decide (value = EmptyString) then Err "it must not be empty"
  else if MAX_IDENTIFIER_LENGTH <? chars_count value then Err TOO_LONG
  else
    let segments := split_on "."%char value in
    _ ← validate_segments segments;
    if length segments <? minimum_segments
    then Err "it must name at least a namespace and a verb, as in fs.read"
    else Ok tt.

Inductive RegistryError :=
| InvalidToolId (value reason : string)
| InvalidToolVersion (value reason : string)
| InvalidCapability (value reason : string).

Record ToolId := MkToolId { ToolId_as_str : string }.
Record Capability := MkCapability { Capability_as_str : string }.

#[export] Instance ToolId_eq_dec : EqDecision ToolId.
Proof. solve_decision. Defined.
#[export] Instance Capability_eq_dec : EqDecision Capability.
Proof. solve_decision. Defined.

Definition ToolId_new (value : string) : result RegistryError ToolId :=
  match validate_identifier value MINIMUM_TOOL_ID_SEGMENTS with
  | Err reason => Err (InvalidToolId value reason)
  | Ok _ => Ok (MkToolId value)
  end.

(** [self.0.split('.').next().unwrap_or_default()] *)
Definition ToolId_namespace (id : ToolId) : string :=
  default EmptyString (head (split_on "."%char (ToolId_as_str id))).

Definition Capability_new (value : string) : result RegistryError Capability :=
  match validate_identifier value MINIMUM_CAPABILITY_SEGMENTS with
  | Err reason => Err (InvalidCapability value reason)
  | Ok _ => Ok (MkCapability value)
  end.

Section tool.
Context `{Platform}.

Record ToolVersion := MkToolVersion { as_semver : Version }.

#[export] Instance ToolVersion_eq_dec : EqDecision ToolVersion.
Proof. solve_decision. Defined.

Definition ToolVersion_new (value : string) : result RegistryError ToolVersion :=
  if MAX_IDENTIFIER_LENGTH <? chars_count value
  then Err (InvalidToolVersion value TOO_LONG)
  else match Version_parse value with
       | Ok version =>
         if negb (Version_build_is_empty version)
         then Err (InvalidToolVersion value BUILD_METADATA)
         else Ok (MkToolVersion version)
       | Err error => Err (InvalidToolVersion value error)
       end.

Definition is_prerelease (v : ToolVersion) : bool :=
  negb (Version_pre_is_empty (as_semver v)).

Record ToolIdentity := MkToolIdentity {
  ti_id : ToolId;
  ti_version : ToolVersion;
}.

#[export] Instance ToolIdentity_eq_dec : EqDecision ToolIdentity.
Proof. solve_decision. Defined.

Definition ToolIdentity_parse (id version : string)
    : result RegistryError ToolIdentity :=
  id ← ToolId_new id;
  version ← ToolVersion_new version;
  Ok (MkToolIdentity id version).

(** ** Descriptors *)

Record ToolDescriptor := MkToolDescriptor {
  td_identity : ToolIdentity;
  td_title : string;
  td_description : string;
  td_risk : RiskLevel;
  td_capabilities : list Capability;
  td_environment : list string;
  td_timeout : ToolTimeout;
  td_spawns_processes : bool;
  td_input_schema : Value;
  td_output_schema : Value;
}.
End tool.

(** ** What an accepted identifier is *)

(** The grammar the refusals describe: dot-separated segments, each a lowercase
    letter followed by lowercase letters, digits and underscores. *)
Definition segment_ok (seg : string) : Prop :=
  ∃ c rest, seg = String c rest ∧ is_ascii_lowercase c = true
            ∧ string_forallb segment_char rest = true.

Lemma validate_segments_Ok segs u :
  validate_segments segs = Ok u ↔ Forall segment_ok segs.
Proof.
  destruct u. induction segs as [|[|c rest] segs IH]; cbn.
  - split; [constructor|done].
  - split; [done|]. intros [(?&?&?&?) _]%Forall_cons. done.
  - destruct (is_ascii_lowercase c) eqn:Hc; cbn;
      [|split; [done|intros [(?&?&?&?&?) ?]%Forall_cons; simplify_eq; congruence]].
    destruct (string_forallb segment_char rest) eqn:Hr; cbn;
      [|split; [done|intros [(?&?&?&?&?) ?]%Forall_cons; simplify_eq; congruence]].
    rewrite IH, Forall_cons. unfold segment_ok. naive_solver.
Qed.

Lemma validate_identifier_Ok value n u :
  validate_identifier value n = Ok u ↔
  value ≠ EmptyString ∧ chars_count value ≤ MAX_IDENTIFIER_LENGTH
  ∧ Forall segment_ok (split_on "."%char value) ∧ n ≤ length (split_on "."%char value).
Proof.
  destruct u. unfold validate_identifier. case_bool_decide as He; [naive_solver|].
  destruct (Nat.ltb_spec MAX_IDENTIFIER_LENGTH (chars_count value)); [naive_solver lia|].
  rewrite bind_Ok. setoid_rewrite validate_segments_Ok.
  destruct (Nat.ltb_spec (length (split_on "."%char value)) n); naive_solver lia.
Qed.
