(* ===== verification/External.v ===== *)
(** * External operations: identity evidence and policy context

    Models [src/crates/harkness-runtime/src/integration/binding.rs] (the identity
    an authorization is bound to) and [policy/integration.rs] (the typed external
    capabilities, their risk floors, the identity shape each one requires, and the
    context attached to a policy evaluation). *)

From S2P Require Import Prelude Digest Tool.
From stdpp Require Import base decidable list gmap strings.

(** ** [IntegrationIdentity] *)

Record IntegrationIdentity := MkIntegrationIdentity {
  agent_executable_sha256 : option Sha256Hash;
  mcp_tool_schema_fingerprint : option Sha256Hash;
  recipe_content_hash : option Sha256Hash;
}.

#[export] Instance IntegrationIdentity_eq_dec : EqDecision IntegrationIdentity.
Proof. solve_decision. Defined.

Definition IntegrationIdentity_none : IntegrationIdentity :=
  MkIntegrationIdentity None None None.
Definition with_agent_executable_sha256_optional
    (hash : option Sha256Hash) (i : IntegrationIdentity) : IntegrationIdentity :=
  MkIntegrationIdentity hash (mcp_tool_schema_fingerprint i) (recipe_content_hash i).
Definition with_mcp_tool_schema_fingerprint_optional
    (hash : option Sha256Hash) (i : IntegrationIdentity) : IntegrationIdentity :=
  MkIntegrationIdentity (agent_executable_sha256 i) hash (recipe_content_hash i).
Definition with_recipe_content_hash_optional
    (hash : option Sha256Hash) (i : IntegrationIdentity) : IntegrationIdentity :=
  MkIntegrationIdentity (agent_executable_sha256 i) (mcp_tool_schema_fingerprint i) hash.


Definition IntegrationIdentity_is_empty (i : IntegrationIdentity) : bool :=
  is_none (agent_executable_sha256 i) && is_none (mcp_tool_schema_fingerprint i)
  && is_none (recipe_content_hash i).

(** ** [ExternalCapability] *)

Inductive ExternalCapability :=
| LaunchExternalAgent | ConnectMcpServer | InvokeMcpTool | ReadForgeResource
| PushRemoteBranch | CreatePullRequest | ModifyForgeResource
| ExecuteWorkflowRecipe.

#[export] Instance ExternalCapability_eq_dec : EqDecision ExternalCapability.
Proof. solve_decision. Defined.

Definition ExternalCapability_ALL : list ExternalCapability :=
  [LaunchExternalAgent; ConnectMcpServer; InvokeMcpTool; ReadForgeResource;
   PushRemoteBranch; CreatePullRequest; ModifyForgeResource; ExecuteWorkflowRecipe].

Definition ExternalCapability_as_str (c : ExternalCapability) : string :=
  match c with
  | LaunchExternalAgent => "launch_external_agent"
  | ConnectMcpServer => "connect_mcp_server"
  | InvokeMcpTool => "invoke_mcp_tool"
  | ReadForgeResource => "read_forge_resource"
  | PushRemoteBranch => "push_remote_branch"
  | CreatePullRequest => "create_pull_request"
  | ModifyForgeResource => "modify_forge_resource"
  | ExecuteWorkflowRecipe => "execute_workflow_recipe"
  end.

#[export] Instance ExternalCapability_spelled : Spelled ExternalCapability := {
  spelled_ALL := ExternalCapability_ALL;
  as_str := ExternalCapability_as_str;
}.

#[export] Instance ExternalCapability_spelled_laws : SpelledLaws ExternalCapability.
Proof.
  split.
  - intros []; set_solver.
  - by intros [] [].
Qed.

(** Keys of the policy file's [external_capabilities] map. *)
#[export] Instance ExternalCapability_countable : Countable ExternalCapability.
Proof.
  apply (inj_countable ExternalCapability_as_str
    (λ s, from_spelling (A := ExternalCapability) s)).
  intros c. exact (from_spelling_as_str (A := ExternalCapability) c).
Defined.

Definition from_capability (capability : Capability) : option ExternalCapability :=
  find (λ kind, bool_decide (ExternalCapability_as_str kind = Capability_as_str capability))
    ExternalCapability_ALL.

Definition ExternalCapability_capability (c : ExternalCapability)
    : result RegistryError Capability :=
  Capability_new (ExternalCapability_as_str c).

Definition ExternalCapability_risk_floor (c : ExternalCapability)
    (classified_risk : RiskLevel) : RiskLevel :=
  match c with
  | LaunchExternalAgent | ConnectMcpServer | InvokeMcpTool =>
    risk_max classified_risk Execute
  | ReadForgeResource => risk_max classified_risk Network
  | PushRemoteBranch | CreatePullRequest | ModifyForgeResource =>
    risk_max classified_risk RemoteWrite
  | ExecuteWorkflowRecipe => classified_risk
  end.

Definition noninteractive_denial_kind (c : ExternalCapability) : string :=
  match c with
  | LaunchExternalAgent => "noninteractive_external_agent_launch_denied"
  | ConnectMcpServer => "noninteractive_mcp_server_connect_denied"
  | InvokeMcpTool => "noninteractive_mcp_tool_invoke_denied"
  | ReadForgeResource => "noninteractive_forge_resource_read_denied"
  | PushRemoteBranch => "noninteractive_remote_branch_push_denied"
  | CreatePullRequest => "noninteractive_pull_request_create_denied"
  | ModifyForgeResource => "noninteractive_forge_resource_modify_denied"
  | ExecuteWorkflowRecipe => "noninteractive_workflow_recipe_execute_denied"
  end.

Definition EXTERNAL_POLICY_DENIAL_KINDS : list string :=
  ["noninteractive_external_agent_launch_denied";
   "noninteractive_mcp_server_connect_denied";
   "noninteractive_mcp_tool_invoke_denied";
   "noninteractive_forge_resource_read_denied";
   "noninteractive_remote_branch_push_denied";
   "noninteractive_pull_request_create_denied";
   "noninteractive_forge_resource_modify_denied";
   "noninteractive_workflow_recipe_execute_denied";
   "agent_executable_identity_required";
   "mcp_tool_schema_identity_required";
   "recipe_content_identity_required";
   "external_identity_context_invalid"].

Definition validate_identity_shape (c : ExternalCapability)
    (identity : IntegrationIdentity) : result string unit :=
  let executable := is_some (agent_executable_sha256 identity) in
  let schema := is_some (mcp_tool_schema_fingerprint identity) in
  let recipe := is_some (recipe_content_hash identity) in
  let valid_shape :=
    match c with
    | LaunchExternalAgent | ConnectMcpServer => executable && negb schema && negb recipe
    | InvokeMcpTool => negb executable && schema && negb recipe
    | ExecuteWorkflowRecipe => negb executable && negb schema && recipe
    | ReadForgeResource | PushRemoteBranch | CreatePullRequest | ModifyForgeResource =>
      negb executable && negb schema && negb recipe
    end in
  ensure valid_shape "external operation carries missing or irrelevant identity evidence".

(** ** Advisory context, retained for audit *)

Inductive AcpPermissionOption := AllowOnce | AllowAlways | RejectOnce | RejectAlways.

Record McpToolAnnotations := MkMcpToolAnnotations {
  read_only_hint : option bool;
  destructive_hint : option bool;
  idempotent_hint : option bool;
  open_world_hint : option bool;
}.

Record ExternalPermissionContext := MkExternalPermissionContext {
  acp_option : option AcpPermissionOption;
  mcp_annotations : option McpToolAnnotations;
}.

#[export] Instance AcpPermissionOption_eq_dec : EqDecision AcpPermissionOption.
Proof. solve_decision. Defined.
#[export] Instance McpToolAnnotations_eq_dec : EqDecision McpToolAnnotations.
Proof. solve_decision. Defined.
#[export] Instance ExternalPermissionContext_eq_dec : EqDecision ExternalPermissionContext.
Proof. solve_decision. Defined.

(** ** [ExternalPolicyContext] *)

Definition EXTERNAL_POLICY_CONTEXT_SCHEMA_VERSION : N := 1.

Record ExternalPolicyContext := MkExternalPolicyContext {
  epc_schema_version : N;
  epc_capability : ExternalCapability;
  epc_classified_risk : RiskLevel;
  epc_identity : IntegrationIdentity;
  epc_permission_context : option ExternalPermissionContext;
}.

#[export] Instance ExternalPolicyContext_eq_dec : EqDecision ExternalPolicyContext.
Proof. solve_decision. Defined.

Definition from_parts (capability : ExternalCapability) (classified_risk : RiskLevel)
    (identity : IntegrationIdentity) : ExternalPolicyContext :=
  MkExternalPolicyContext EXTERNAL_POLICY_CONTEXT_SCHEMA_VERSION capability
    classified_risk identity None.

Definition fixed (capability : ExternalCapability) (identity : IntegrationIdentity)
    : ExternalPolicyContext :=
  let risk :=
    match capability with
    | LaunchExternalAgent | ConnectMcpServer | InvokeMcpTool => Execute
    | ReadForgeResource => Network
    | PushRemoteBranch | CreatePullRequest | ModifyForgeResource => RemoteWrite
    | ExecuteWorkflowRecipe => Observe
    end in
  from_parts capability risk identity.

Definition launch_external_agent (executable : option Sha256Hash) : ExternalPolicyContext :=
  fixed LaunchExternalAgent
    (with_agent_executable_sha256_optional executable IntegrationIdentity_none).
Definition connect_mcp_server (executable : option Sha256Hash) : ExternalPolicyContext :=
  fixed ConnectMcpServer
    (with_agent_executable_sha256_optional executable IntegrationIdentity_none).
Definition read_forge_resource : ExternalPolicyContext :=
  fixed ReadForgeResource IntegrationIdentity_none.
Definition push_remote_branch : ExternalPolicyContext :=
  fixed PushRemoteBranch IntegrationIdentity_none.
Definition create_pull_request : ExternalPolicyContext :=
  fixed CreatePullRequest IntegrationIdentity_none.
Definition modify_forge_resource : ExternalPolicyContext :=
  fixed ModifyForgeResource IntegrationIdentity_none.

(** [step_risks.into_iter().max().unwrap_or(Observe)]: [Iterator::max] keeps the
    last of equal elements, which for an enum is the same value. *)
Definition risks_max (risks : list RiskLevel) : option RiskLevel :=
  match risks with
  | [] => None
  | r :: risks => Some (foldl risk_max r risks)
  end.

Definition execute_workflow_recipe (step_risks : list RiskLevel)
    (content : option Sha256Hash) : ExternalPolicyContext :=
  let classified_risk := default Observe (risks_max step_risks) in
  from_parts ExecuteWorkflowRecipe classified_risk
    (with_recipe_content_hash_optional content IntegrationIdentity_none).

Definition with_permission_context (context : ExternalPermissionContext)
    (c : ExternalPolicyContext) : ExternalPolicyContext :=
  MkExternalPolicyContext (epc_schema_version c) (epc_capability c)
    (epc_classified_risk c) (epc_identity c) (Some context).

Definition epc_risk_floor (c : ExternalPolicyContext) : RiskLevel :=
  ExternalCapability_risk_floor (epc_capability c) (epc_classified_risk c).

Definition validate_declaration (c : ExternalPolicyContext) (declared : list Capability)
    : result string unit :=
  ensure
    (existsb (λ capability, bool_decide
       (Capability_as_str capability = ExternalCapability_as_str (epc_capability c))) declared)
    "external policy context names a capability the tool did not declare".

Definition epc_validate_identity_shape (c : ExternalPolicyContext) : result string unit :=
  validate_identity_shape (epc_capability c) (epc_identity c).

Definition identity_denial_kind (c : ExternalPolicyContext) : option string :=
  match epc_capability c with
  | LaunchExternalAgent | ConnectMcpServer =>
    if is_none (agent_executable_sha256 (epc_identity c))
    then Some "agent_executable_identity_required" else None
  | InvokeMcpTool =>
    if is_none (mcp_tool_schema_fingerprint (epc_identity c))
    then Some "mcp_tool_schema_identity_required" else None
  | ExecuteWorkflowRecipe =>
    if is_none (recipe_content_hash (epc_identity c))
    then Some "recipe_content_identity_required" else None
  | _ => None
  end.

Definition invalid_identity_denial_kind (c : ExternalPolicyContext) : option string :=
  let executable := is_some (agent_executable_sha256 (epc_identity c)) in
  let schema := is_some (mcp_tool_schema_fingerprint (epc_identity c)) in
  let recipe := is_some (recipe_content_hash (epc_identity c)) in
  let has_irrelevant_identity :=
    match epc_capability c with
    | LaunchExternalAgent | ConnectMcpServer => schema || recipe
    | InvokeMcpTool => executable || recipe
    | ExecuteWorkflowRecipe => executable || schema
    | ReadForgeResource | PushRemoteBranch | CreatePullRequest | ModifyForgeResource =>
      executable || schema || recipe
    end in
  if has_irrelevant_identity then Some "external_identity_context_invalid"
  else identity_denial_kind c.

(** ** Properties *)

Lemma risk_floor_ge c r : risk_le r (ExternalCapability_risk_floor c r).
Proof. destruct c; cbn; first [apply risk_max_le_l | reflexivity]. Qed.
#[export] Hint Resolve risk_floor_ge : harkness.

(** The two identity checks of a context agree: a shape is refused exactly when a
    denial kind is named for it. *)
Lemma invalid_identity_denial_kind_None c :
  invalid_identity_denial_kind c = None ↔ epc_validate_identity_shape c = Ok tt.
Proof.
  unfold invalid_identity_denial_kind, identity_denial_kind, epc_validate_identity_shape,
    validate_identity_shape, is_none.
  destruct (epc_capability c), (agent_executable_sha256 _),
    (mcp_tool_schema_fingerprint _), (recipe_content_hash _); cbn; done.
Qed.

Lemma invalid_identity_denial_kind_listed c k :
  invalid_identity_denial_kind c = Some k → k ∈ EXTERNAL_POLICY_DENIAL_KINDS.
Proof.
  unfold invalid_identity_denial_kind, identity_denial_kind, is_none.
  destruct (epc_capability c), (agent_executable_sha256 _),
    (mcp_tool_schema_fingerprint _), (recipe_content_hash _);
    cbn; intros; simplify_eq; unfold EXTERNAL_POLICY_DENIAL_KINDS; set_solver.
Qed.

Lemma context_invalid_listed :
  "external_identity_context_invalid" ∈ EXTERNAL_POLICY_DENIAL_KINDS.
Proof. apply (bool_decide_unpack _). by vm_compute. Qed.
#[export] Hint Resolve context_invalid_listed : harkness.

Lemma noninteractive_denial_kind_listed c :
  noninteractive_denial_kind c ∈ EXTERNAL_POLICY_DENIAL_KINDS.
Proof. unfold EXTERNAL_POLICY_DENIAL_KINDS. destruct c; cbn; set_solver. Qed.

Lemma from_capability_Some cap kind :
  from_capability cap = Some kind ↔
  Capability_as_str cap = ExternalCapability_as_str kind.
Proof.
  exact (from_spelling_Some (A := ExternalCapability) (Capability_as_str cap) kind).
Qed.
