(* ===== verification/Trust.v ===== *)
(** * Trust: workspace trust, execution mode, request classification

    Models the pure half of [src/crates/harkness-runtime/src/trust.rs]: the trust
    of a workspace, what a request's paths and flags make of its risk, and the
    component-wise containment test of a path boundary.  Resolving a candidate
    through the filesystem is not modelled here. *)

From S2P Require Import Prelude Tool.
From stdpp Require Import base decidable list sets strings.

(** ** Trust of a workspace *)

Inductive TrustState := Untrusted | Trusted.
Inductive ExecutionMode := Interactive | NonInteractive.

#[export] Instance TrustState_eq_dec : EqDecision TrustState.
Proof. solve_decision. Defined.
#[export] Instance ExecutionMode_eq_dec : EqDecision ExecutionMode.
Proof. solve_decision. Defined.

(** ** Paths

    A canonical absolute path is the list of its components. *)

Definition CanonicalPath := list string.

(** [Path::starts_with] compares whole components. *)
Fixpoint starts_with (path root : CanonicalPath) : bool :=
  match root, path with
  | [], _ => true
  | r :: root, p :: path => bool_decide (r = p) && starts_with path root
  | _ :: _, [] => false
  end.

Record PathBoundary := MkPathBoundary {
  pb_workspace_root : CanonicalPath;
  pb_extra_roots : list CanonicalPath;
}.

Definition roots (b : PathBoundary) : list CanonicalPath :=
  pb_workspace_root b :: pb_extra_roots b.

Definition contains_resolved (b : PathBoundary) (candidate : CanonicalPath) : bool :=
  existsb (starts_with candidate) (roots b).

Record ContainedPath := MkContainedPath {
  cp_boundary : PathBoundary;
  cp_supplied : string;
  cp_resolved : CanonicalPath;
}.

(** ** Classification of one request *)

Inductive PathAccess := Read | Write | DestructiveAccess.

Definition PathAccess_risk (a : PathAccess) : RiskLevel :=
  match a with
  | Read => Observe
  | Write => WorkspaceWrite
  | DestructiveAccess => Destructive
  end.

Record RequestPath := MkRequestPath { rp_path : ContainedPath; rp_access : PathAccess }.

Inductive ForcePush := NoForce | WithLease | Force.

Definition ForcePush_as_str (f : ForcePush) : string :=
  match f with
  | NoForce => "none" | WithLease => "force_with_lease" | Force => "force"
  end.

Definition is_forcing (f : ForcePush) : bool :=
  match f with NoForce => false | _ => true end.

Record RequestFlags := MkRequestFlags {
  rf_executes : bool;
  rf_network : bool;
  rf_remote_write : bool;
  rf_destructive : bool;
  rf_force_push : ForcePush;
}.

Definition RequestFlags_default : RequestFlags :=
  MkRequestFlags false false false false NoForce.
Definition executing (f : RequestFlags) : RequestFlags :=
  MkRequestFlags true (rf_network f) (rf_remote_write f) (rf_destructive f) (rf_force_push f).
Definition using_network (f : RequestFlags) : RequestFlags :=
  MkRequestFlags (rf_executes f) true (rf_remote_write f) (rf_destructive f) (rf_force_push f).
Definition writing_remote (f : RequestFlags) : RequestFlags :=
  MkRequestFlags (rf_executes f) (rf_network f) true (rf_destructive f) (rf_force_push f).
Definition flag_destructive (f : RequestFlags) : RequestFlags :=
  MkRequestFlags (rf_executes f) (rf_network f) (rf_remote_write f) true (rf_force_push f).
Definition force_pushing (variant : ForcePush) (f : RequestFlags) : RequestFlags :=
  MkRequestFlags (rf_executes f) (rf_network f)
    (if is_forcing variant then true else rf_remote_write f) (rf_destructive f) variant.

Definition RequestFlags_risk (f : RequestFlags) : RiskLevel :=
  if rf_destructive f then Destructive
  else if rf_remote_write f then RemoteWrite
  else if rf_network f then Network
  else if rf_executes f then Execute
  else Observe.

Record RequestClassification := MkRequestClassification {
  rc_risk : RiskLevel;
  rc_force_push : ForcePush;
}.

Section classify.
Context `{Platform}.

(** [input_paths.map(risk).chain([descriptor.risk(), flags.risk()]).max()] *)
Definition classify_request (descriptor : ToolDescriptor)
    (input_paths : list RequestPath) (flags : RequestFlags) : RequestClassification :=
  let risks := (PathAccess_risk ∘ rp_access <$> input_paths)
               ++ [td_risk descriptor; RequestFlags_risk flags] in
  MkRequestClassification (foldr risk_max Observe risks) (rf_force_push flags).

Lemma foldr_risk_max_ge r risks : r ∈ risks → risk_le r (foldr risk_max Observe risks).
Proof.
  induction 1 as [r risks|r s risks _ IH]; cbn.
  - apply risk_max_le_l.
  - etrans; [exact IH|apply risk_max_le_r].
Qed.

Lemma foldr_risk_max_in risks :
  risks ≠ [] → foldr risk_max Observe risks ∈ risks.
Proof.
  induction risks as [|r risks IH]; [done|]. intros _. cbn.
  destruct risks as [|s risks].
  - cbn. unfold risk_max. destruct r; cbn; set_solver.
  - specialize (IH ltac:(done)). unfold risk_max at 1. case_match; set_solver.
Qed.

(** The classification is the least upper bound of the declared risk, the risk
    of the flags and the risk of every path access. *)
Theorem classify_request_lub descriptor paths flags bound :
  risk_le (rc_risk (classify_request descriptor paths flags)) bound ↔
  risk_le (td_risk descriptor) bound ∧ risk_le (RequestFlags_risk flags) bound
  ∧ Forall (λ p, risk_le (PathAccess_risk (rp_access p)) bound) paths.
Proof.
  unfold classify_request. cbn. rewrite foldr_app. cbn.
  induction paths as [|p paths IH]; cbn.
  - rewrite !risk_max_le_iff, Forall_nil.
    assert (risk_le Observe bound) by (unfold risk_le; cbn; lia). naive_solver.
  - rewrite risk_max_le_iff, IH, Forall_cons. naive_solver.
Qed.
End classify.
