(* ===== verification/Policy.v ===== *)
(** * Policy: layered rules and the decision of one request

    Models [src/crates/harkness-runtime/src/policy.rs]: the verdict lattice, the
    decision record and its validation, a policy file's rules and their
    validation, the loading of a file from its bytes, and
    [PolicyEngine::evaluate].  Parsing JSON and reading the file are parameters. *)

From S2P Require Import Prelude Digest Tool External Trust.
From stdpp Require Import base decidable list gmap sorting strings pretty.

Definition POLICY_SCHEMA_VERSION : N := 2.
Definition MINIMUM_POLICY_SCHEMA_VERSION : N := 1.
Definition MAX_POLICY_FILE_BYTES : N := 64 * 1024.

(** ** Verdicts *)

Inductive PolicyVerdict := Allow | Ask | Deny.
Inductive PolicySource := BuiltIn | FromUserPolicy | FromRepositoryPolicy | FromRunGrant.

#[export] Instance PolicyVerdict_eq_dec : EqDecision PolicyVerdict.
Proof. solve_decision. Defined.
#[export] Instance PolicySource_eq_dec : EqDecision PolicySource.
Proof. solve_decision. Defined.

Definition PolicyVerdict_as_str (v : PolicyVerdict) : string :=
  match v with Allow => "allow" | Ask => "ask" | Deny => "deny" end.
Definition PolicySource_as_str (s : PolicySource) : string :=
  match s with
  | BuiltIn => "built_in"
  | FromUserPolicy => "user_policy"
  | FromRepositoryPolicy => "repository_policy"
  | FromRunGrant => "run_grant"
  end.

(** [derive(Ord)]: [Allow < Ask < Deny]. *)
Definition severity (v : PolicyVerdict) : nat :=
  match v with Allow => 0 | Ask => 1 | Deny => 2 end.
Definition verdict_le (a b : PolicyVerdict) : Prop := severity a ≤ severity b.

#[export] Instance verdict_le_partial_order : PartialOrder verdict_le.
Proof.
  unfold verdict_le. repeat split.
  - intros ?; lia.
  - intros ???; lia.
  - intros [] [] ??; cbn in *; first [reflexivity | lia].
Qed.

(** ** Decisions *)

Record PolicyDecision := MkPolicyDecision {
  pd_verdict : PolicyVerdict;
  pd_reason : string;
  pd_source : PolicySource;
  pd_one_call_only : bool;
  pd_external_request : option ExternalPolicyContext;
  pd_denial_kind : option string;
}.

#[export] Instance PolicyDecision_eq_dec : EqDecision PolicyDecision.
Proof. solve_decision. Defined.

Definition PolicyDecision_new (verdict : PolicyVerdict) (reason : string)
    (source : PolicySource) (one_call_only : bool) : PolicyDecision :=
  MkPolicyDecision verdict reason source one_call_only None None.

Definition denied_as (kind : string) (d : PolicyDecision) : PolicyDecision :=
  MkPolicyDecision (pd_verdict d) (pd_reason d) (pd_source d) (pd_one_call_only d)
    (pd_external_request d) (Some kind).

(** [PolicyDecision::validate] *)
Definition PolicyDecision_validate (d : PolicyDecision) : result string unit :=
  if is_blank (pd_reason d)
  then Err "policy decisions require a non-empty reason"
  else if pd_one_call_only d && negb (bool_decide (pd_verdict d = Ask))
  then Err "only an approval request may be marked one-call-only"
  else if bool_decide (pd_source d = FromRunGrant) && negb (bool_decide (pd_verdict d = Allow))
  then Err "a run grant may only produce an allow decision"
  else if is_some (pd_denial_kind d) && negb (bool_decide (pd_verdict d = Deny))
  then Err "only a denial may carry a denial kind"
  else if match pd_denial_kind d with
          | Some kind => negb (bool_decide (kind ∈ EXTERNAL_POLICY_DENIAL_KINDS))
          | None => false
          end
  then Err "policy decision carries an unknown external denial kind"
  else match pd_external_request d with
  | Some external =>
    if negb (bool_decide (epc_schema_version external = EXTERNAL_POLICY_CONTEXT_SCHEMA_VERSION))
    then Err "external policy context was written by a newer Harkness build"
    else if negb (is_ok (epc_validate_identity_shape external))
    then
      if negb (bool_decide (pd_verdict d = Deny)
               && bool_decide (pd_denial_kind d = invalid_identity_denial_kind external))
      then Err "external policy context carries missing or irrelevant identity evidence"
      else Ok tt
    else match pd_denial_kind d with
         | Some kind =>
           if negb (bool_decide (kind = noninteractive_denial_kind (epc_capability external)))
              && negb (bool_decide (kind = "external_identity_context_invalid"))
           then Err "external denial kind does not match the evaluated request"
           else Ok tt
         | None => Ok tt
         end
  | None =>
    if is_some (pd_denial_kind d)
       && negb (bool_decide (pd_denial_kind d = Some "external_identity_context_invalid"))
    then Err "an external denial kind requires an external request context"
    else Ok tt
  end.

(** ** Grants, as policy sees them *)

Inductive RunGrantScope := GrantExactCall | GrantToolForRun | GrantCapabilityForRun.

#[export] Instance RunGrantScope_eq_dec : EqDecision RunGrantScope.
Proof. solve_decision. Defined.

Record RunGrant := MkRunGrant {
  rg_scope : RunGrantScope;
  rg_integration_identity : IntegrationIdentity;
}.

#[export] Instance RunGrant_eq_dec : EqDecision RunGrant.
Proof. solve_decision. Defined.

(** ** Policy files *)

Record PolicyFile := MkPolicyFile {
  pf_version : N;
  pf_risks : gmap RiskLevel PolicyVerdict;
  pf_tools : gmap string PolicyVerdict;
  pf_external_capabilities : gmap ExternalCapability PolicyVerdict;
}.

Definition PolicyFile_empty : PolicyFile :=
  MkPolicyFile POLICY_SCHEMA_VERSION ∅ ∅ ∅.

Definition with_risk (risk : RiskLevel) (verdict : PolicyVerdict) (f : PolicyFile) : PolicyFile :=
  MkPolicyFile (pf_version f) (<[risk:=verdict]> (pf_risks f)) (pf_tools f)
    (pf_external_capabilities f).
Definition with_tool (tool : ToolId) (verdict : PolicyVerdict) (f : PolicyFile) : PolicyFile :=
  MkPolicyFile (pf_version f) (pf_risks f) (<[ToolId_as_str tool:=verdict]> (pf_tools f))
    (pf_external_capabilities f).
Definition with_external_capability (capability : ExternalCapability)
    (verdict : PolicyVerdict) (f : PolicyFile) : PolicyFile :=
  MkPolicyFile (pf_version f) (pf_risks f) (pf_tools f)
    (<[capability:=verdict]> (pf_external_capabilities f)).

(** [Iterator::max_by_key]: the last of the greatest elements. *)
Definition max_by_severity {A} (l : list (PolicyVerdict * A)) : option (PolicyVerdict * A) :=
  foldl (λ best x, match best with
                   | None => Some x
                   | Some b => if severity b.1 <=? severity x.1 then Some x else Some b
                   end) None l.

Inductive PolicyLoadError :=
| Unreadable (path reason : string)
| Malformed (path reason : string)
| VersionTooNew (path : string) (found maximum : N).

Definition PolicyLoadError_kind (e : PolicyLoadError) : string :=
  match e with
  | Unreadable _ _ => "policy_unreadable"
  | Malformed _ _ => "policy_malformed"
  | VersionTooNew _ _ _ => "policy_version_too_new"
  end.

(** [Display], with a path shown as it is spelled. *)
Definition PolicyLoadError_to_string (e : PolicyLoadError) : string :=
  match e with
  | Unreadable path reason => "policy file " +:+ path +:+ " is unreadable: " +:+ reason
  | Malformed path reason => "policy file " +:+ path +:+ " is malformed: " +:+ reason
  | VersionTooNew path found maximum =>
    "policy file " +:+ path +:+ " uses version " +:+ pretty found
    +:+ ", newer than supported version " +:+ pretty maximum +:+ "; upgrade Harkness"
  end.

(** ** Requests *)

Section policy.
Context `{Platform}.

Record PolicyRequest := MkPolicyRequest {
  pr_descriptor : ToolDescriptor;
  pr_classification : RequestClassification;
  pr_trust : TrustState;
  pr_mode : ExecutionMode;
  pr_paths : list ContainedPath;
  pr_grants : list RunGrant;
  pr_external : option ExternalPolicyContext;
}.

Definition PolicyRequest_new (descriptor : ToolDescriptor)
    (classification : RequestClassification) (trust : TrustState)
    (mode : ExecutionMode) : PolicyRequest :=
  MkPolicyRequest descriptor classification trust mode [] [] None.
Definition with_grants (grants : list RunGrant) (r : PolicyRequest) : PolicyRequest :=
  MkPolicyRequest (pr_descriptor r) (pr_classification r) (pr_trust r) (pr_mode r)
    (pr_paths r) grants (pr_external r).
Definition with_external_context (external : ExternalPolicyContext)
    (r : PolicyRequest) : PolicyRequest :=
  MkPolicyRequest (pr_descriptor r) (pr_classification r) (pr_trust r) (pr_mode r)
    (pr_paths r) (pr_grants r) (Some external).

Definition pr_risk (r : PolicyRequest) : RiskLevel :=
  let base := risk_max (rc_risk (pr_classification r)) (td_risk (pr_descriptor r)) in
  match pr_external r with
  | None => base
  | Some external => risk_max base (epc_risk_floor external)
  end.

Definition pr_force_push (r : PolicyRequest) : ForcePush :=
  rc_force_push (pr_classification r).

Definition for_request (r : PolicyRequest) (d : PolicyDecision) : PolicyDecision :=
  MkPolicyDecision (pd_verdict d) (pd_reason d) (pd_source d) (pd_one_call_only d)
    (pr_external r) (pd_denial_kind d).

(** [self.descriptor().id().as_str()] *)
Definition pr_tool_id (r : PolicyRequest) : string :=
  ToolId_as_str (ti_id (td_identity (pr_descriptor r))).

(** [PolicyFile::selected]: the strictest matching rule of one file. *)
Definition selected (f : PolicyFile) (request : PolicyRequest)
    : option (PolicyVerdict * string) :=
  let risk := pr_risk request in
  let tool_id := pr_tool_id request in
  let tool := (λ verdict, (verdict, "tool " +:+ tool_id)) <$> pf_tools f !! tool_id in
  let risk_rule := (λ verdict, (verdict, "risk " +:+ as_str risk)) <$> pf_risks f !! risk in
  let external :=
    context ← pr_external request;
    (λ verdict, (verdict, "external capability "
                   +:+ ExternalCapability_as_str (epc_capability context)))
      <$> pf_external_capabilities f !! epc_capability context in
  max_by_severity (omap id [tool; risk_rule; external]).
End policy.

(** ** Validation and loading of a policy file

    [BTreeMap::keys] iterates in key order: bytewise order for strings, the
    declaration order for capabilities. *)

Definition string_le (a b : string) : Prop := String.leb a b = true.
#[export] Instance string_le_dec a b : Decision (string_le a b).
Proof. unfold string_le. apply _. Defined.

Definition sorted_keys {A} (m : gmap string A) : list string :=
  merge_sort string_le (map_to_list m).*1.

Definition invalid_tool_key (id : string) : option RegistryError :=
  match ToolId_new id with Ok _ => None | Err error => Some error end.

(** [for id in self.tools.keys() { id.parse()?; }]: the first key that is no tool
    identifier. *)
Fixpoint first_invalid_key (ids : list string) : option (string * RegistryError) :=
  match ids with
  | [] => None
  | id :: ids =>
    match invalid_tool_key id with
    | Some error => Some (id, error)
    | None => first_invalid_key ids
    end
  end.

Section validate.
(** [format!("invalid tool policy key {id:?}: {error}")]: the debug rendering of
    a string and the display of the error. *)
Context (invalid_key_reason : string → RegistryError → string).

Definition PolicyFile_validate (f : PolicyFile) (path : string)
    : result PolicyLoadError unit :=
  if (pf_version f <? MINIMUM_POLICY_SCHEMA_VERSION)%N
  then Err (Malformed path
         ("unsupported policy version " +:+ pretty (pf_version f)
          +:+ "; the minimum supported version is "
          +:+ pretty MINIMUM_POLICY_SCHEMA_VERSION))
  else if (pf_version f =? 1)%N && negb (bool_decide (pf_external_capabilities f = ∅))
  then Err (Malformed path "policy version 1 cannot carry external capability rules")
  else match first_invalid_key (sorted_keys (pf_tools f)) with
       | Some (id, error) => Err (Malformed path (invalid_key_reason id error))
       | None => Ok tt
       end.
End validate.

Definition validate_repository (f : PolicyFile) (path : string)
    : result PolicyLoadError unit :=
  match find (λ capability,
                bool_decide (pf_external_capabilities f !! capability = Some Allow))
          ExternalCapability_ALL with
  | Some capability =>
    Err (Malformed path
      ("repository policy may not grant allow for external capability "
       +:+ ExternalCapability_as_str capability))
  | None => Ok tt
  end.

(** What reading a path produced: [metadata] and [read_to_end] are the operating
    system's. *)
Inductive FileRead :=
| NotFound
| IoError (reason : string)
| NotRegular
| Contents (bytes : list N).

Section load.
(** [serde_json::from_slice] at [VersionProbe] and at [PolicyFile]. *)
Context (parse_probe : list N → result string N).
Context (parse_policy : list N → result string PolicyFile).
Context (invalid_key_reason : string → RegistryError → string).

Definition read_bounded (path : string) (read : FileRead)
    : result PolicyLoadError (option (list N)) :=
  match read with
  | NotFound => Ok None
  | IoError reason => Err (Unreadable path reason)
  | NotRegular => Err (Unreadable path "it is not a regular file")
  | Contents bytes =>
    if (MAX_POLICY_FILE_BYTES <? N.of_nat (length bytes))%N
    then Err (Unreadable path
           ("it exceeds the " +:+ pretty MAX_POLICY_FILE_BYTES
            +:+ "-byte maximum policy size"))
    else Ok (Some bytes)
  end.

Definition map_err {E F A} (f : E → F) (r : result E A) : result F A :=
  match r with Ok a => Ok a | Err e => Err (f e) end.

Definition load_optional_file (path : string) (read : FileRead)
    : result PolicyLoadError (option PolicyFile) :=
  bytes ← read_bounded path read;
  match bytes with
  | None => Ok None
  | Some bytes =>
    version ← map_err (Malformed path) (parse_probe bytes);
    if (POLICY_SCHEMA_VERSION <? version)%N
    then Err (VersionTooNew path version POLICY_SCHEMA_VERSION)
    else
      policy ← map_err (Malformed path) (parse_policy bytes);
      _ ← PolicyFile_validate invalid_key_reason policy path;
      Ok (Some (MkPolicyFile POLICY_SCHEMA_VERSION (pf_risks policy) (pf_tools policy)
                  (pf_external_capabilities policy)))
  end.

Definition load_file (path : string) (read : FileRead) : result PolicyLoadError PolicyFile :=
  default PolicyFile_empty <$> load_optional_file path read.

(** [RepositoryPolicy::load] and the tail of [load_repository_policy], once the
    boundary has resolved the path. *)
Definition load_repository_policy (path : string) (read : FileRead)
    : result PolicyLoadError (option PolicyFile) :=
  policy ← load_optional_file path read;
  _ ← match policy with
      | Some policy => validate_repository policy path
      | None => Ok tt
      end;
  Ok policy.
End load.

(** ** The engine *)

Inductive LoadedPolicy (T : Type) :=
| Loaded (policy : T)
| Failed (error : PolicyLoadError).
Arguments Loaded {T} policy.
Arguments Failed {T} error.

Record PolicyEngine := MkPolicyEngine {
  pe_user : LoadedPolicy PolicyFile;
  pe_repository : LoadedPolicy (option PolicyFile);
}.

Definition PolicyEngine_new (user : PolicyFile) (repository : option PolicyFile) : PolicyEngine :=
  MkPolicyEngine (Loaded user) (Loaded repository).

Definition risk_label (risk : RiskLevel) : string :=
  match risk with
  | Observe => "observation"
  | WorkspaceWrite => "workspace write"
  | Execute => "execution"
  | Network => "network access"
  | RemoteWrite => "remote write"
  | Destructive => "destructive work"
  end.

(** The running verdict, its source and its reason. *)
Definition layer_state : Type := PolicyVerdict * PolicySource * string.

Definition fold_layer (st : layer_state) (sel : option (PolicyVerdict * string))
    (layer : PolicySource) : layer_state :=
  match sel with
  | None => st
  | Some (candidate, selector) =>
    if severity st.1.1 <? severity candidate
    then (candidate, layer,
          PolicyVerdict_as_str candidate +:+ " by " +:+ PolicySource_as_str layer
          +:+ " rule for " +:+ selector)
    else st
  end.

Definition load_failure (error : PolicyLoadError) (source : PolicySource) : PolicyDecision :=
  PolicyDecision_new Deny ("denied: " +:+ PolicyLoadError_to_string error) source false.

Section evaluate.
Context `{Platform}.

Definition built_in_verdict (trust : TrustState) (risk : RiskLevel) : PolicyVerdict :=
  match trust, risk with
  | Trusted, Observe => Allow
  | Trusted, _ => Ask
  | Untrusted, Observe => Ask
  | Untrusted, _ => Deny
  end.

(** The last arm of the source's [reason] is [unreachable!()]. *)
Definition built_in_reason (trust : TrustState) (verdict : PolicyVerdict)
    (risk : RiskLevel) : option string :=
  match trust, verdict with
  | Untrusted, Deny => Some "denied: workspace is untrusted"
  | Untrusted, Ask =>
    Some "workspace observation requires approval because the workspace is untrusted"
  | _, Allow => Some (as_str risk +:+ " is allowed by the trusted-workspace default")
  | _, Ask =>
    Some (risk_label risk +:+ " requires approval (built-in default for "
          +:+ as_str risk +:+ ")")
  | _, Deny => None
  end.

Definition built_in (request : PolicyRequest) : layer_state :=
  let trust := pr_trust request in
  let risk := pr_risk request in
  let verdict := built_in_verdict trust risk in
  (verdict, BuiltIn, default EmptyString (built_in_reason trust verdict risk)).

Definition deny_built_in (reason : string) : PolicyDecision :=
  PolicyDecision_new Deny reason BuiltIn false.

(** The refusals of an external request that come before any rule. *)
Definition external_refusal (request : PolicyRequest) : option PolicyDecision :=
  let capabilities := td_capabilities (pr_descriptor request) in
  let declared_external := omap from_capability capabilities in
  let invalid reason := Some (denied_as "external_identity_context_invalid"
                                (for_request request (deny_built_in reason))) in
  if 1 <? length declared_external
  then invalid "denied: a tool call must declare exactly one external operation"
  else match declared_external, pr_external request with
  | declared :: _, None =>
    invalid ("denied: " +:+ ExternalCapability_as_str declared
             +:+ " requires external policy context")
  | _, None => None
  | _, Some external =>
    match validate_declaration external capabilities with
    | Err reason => invalid ("denied: " +:+ reason)
    | Ok _ =>
      match invalid_identity_denial_kind external with
      | Some kind =>
        Some (denied_as kind (for_request request (deny_built_in
          ("denied: " +:+ ExternalCapability_as_str (epc_capability external)
           +:+ " requires valid observed identity evidence before evaluation"))))
      | None => None
      end
    end
  end.

(** Only one exact call may be answered for these risks. *)
Definition exact_only (request : PolicyRequest) : bool :=
  match pr_risk request with RemoteWrite | Destructive => true | _ => false end.

Definition grant_matches (request : PolicyRequest) (grant : RunGrant) : bool :=
  (negb (exact_only request) || bool_decide (rg_scope grant = GrantExactCall))
  && match pr_external request with
     | None => IntegrationIdentity_is_empty (rg_integration_identity grant)
     | Some external => bool_decide (rg_integration_identity grant = epc_identity external)
     end.

(** The layers folded into one verdict. *)
Definition layered (user : PolicyFile) (repository : option PolicyFile)
    (request : PolicyRequest) : layer_state :=
  let st := fold_layer (built_in request) (selected user request) FromUserPolicy in
  match repository with
  | Some repository => fold_layer st (selected repository request) FromRepositoryPolicy
  | None => st
  end.

(** What the folded verdict becomes under grants and mode. *)
Definition answer (request : PolicyRequest) (st : layer_state) : PolicyDecision :=
  let '(verdict, source, reason) := st in
  let exact_only := exact_only request in
  let matching_grant := existsb (grant_matches request) (pr_grants request) in
  if bool_decide (verdict = Ask) && matching_grant
  then for_request request
         (PolicyDecision_new Allow "allowed: a live run-scoped grant matches this request"
            FromRunGrant false)
  else if bool_decide (verdict = Ask) && bool_decide (pr_mode request = NonInteractive)
  then
    let decision := for_request request
      (PolicyDecision_new Deny
         ("denied: noninteractive execution cannot answer approval; " +:+ reason)
         source false) in
    match pr_external request with
    | None => decision
    | Some external => denied_as (noninteractive_denial_kind (epc_capability external)) decision
    end
  else for_request request
         (PolicyDecision_new verdict reason source
            (bool_decide (verdict = Ask) && exact_only)).

(** [PolicyEngine::evaluate] *)
Definition evaluate (engine : PolicyEngine) (request : PolicyRequest) : PolicyDecision :=
  match external_refusal request with
  | Some refusal => refusal
  | None =>
    let force_push := pr_force_push request in
    if is_forcing force_push
    then for_request request (deny_built_in
           ("denied: force push is not permitted in v0.3 ("
            +:+ ForcePush_as_str force_push +:+ ")"))
    else match pe_user engine with
    | Failed error => for_request request (load_failure error FromUserPolicy)
    | Loaded user =>
      match pe_repository engine with
      | Failed error => for_request request (load_failure error FromRepositoryPolicy)
      | Loaded repository => answer request (layered user repository request)
      end
    end
  end.
End evaluate.

(** ** Lemmas *)

#[local] Arguments selected : simpl never.
#[local] Arguments layered : simpl never.
#[local] Arguments max_by_severity : simpl never.
#[local] Arguments fold_layer : simpl never.
#[local] Arguments external_refusal : simpl never.

Definition verdict_max (a b : PolicyVerdict) : PolicyVerdict :=
  if severity a <=? severity b then b else a.

Lemma severity_inj a b : severity a = severity b → a = b.
Proof. by destruct a, b. Qed.

Lemma severity_le a : severity a ≤ 2.
Proof. destruct a; cbn; lia. Qed.

Lemma verdict_max_severity a b :
  severity (verdict_max a b) = severity a `max` severity b.
Proof. unfold verdict_max. destruct (Nat.leb_spec (severity a) (severity b)); lia. Qed.

Lemma fold_layer_verdict st sel layer :
  (fold_layer st sel layer).1.1 =
  match sel with None => st.1.1 | Some s => verdict_max st.1.1 s.1 end.
Proof.
  destruct sel as [[v w]|]; [|done]. unfold fold_layer, verdict_max.
  change (v, w).1 with v.
  destruct (Nat.ltb_spec (severity st.1.1) (severity v));
    destruct (Nat.leb_spec (severity st.1.1) (severity v)); cbn; try lia; try done.
  apply severity_inj. lia.
Qed.

(** The selection keeps a greatest element: one of the list, above all of it. *)
Lemma max_by_severity_spec {A} (l : list (PolicyVerdict * A)) :
  match max_by_severity l with
  | None => l = []
  | Some b => b ∈ l ∧ ∀ x, x ∈ l → verdict_le x.1 b.1
  end.
Proof.
  unfold max_by_severity. induction l as [|x l IH] using rev_ind; [done|].
  rewrite foldl_app. cbn. destruct (foldl _ _ l) as [b|].
  - destruct IH as [Hb Hmax].
    assert (∀ y, y ∈ l ++ [x] → y = x ∨ verdict_le y.1 b.1) as Hall.
    { intros y [Hy|Hy%list_elem_of_singleton]%elem_of_app; auto. }
    destruct (Nat.leb_spec (severity b.1) (severity x.1)); (split; [set_solver|]);
      intros y Hy; destruct (Hall y Hy) as [->|Hle]; unfold verdict_le in *; lia.
  - subst l. cbn. split; [set_solver|]. intros y ->%list_elem_of_singleton.
    unfold verdict_le. lia.
Qed.

Section evaluate_lemmas.
Context `{Platform}.
Implicit Types (engine : PolicyEngine) (request : PolicyRequest).

Lemma external_refusal_Deny request d :
  external_refusal request = Some d → pd_verdict d = Deny.
Proof.
  unfold external_refusal. repeat case_match; naive_solver.
Qed.

Lemma pr_risk_ge_descriptor request : risk_le (td_risk (pr_descriptor request)) (pr_risk request).
Proof.
  unfold pr_risk. case_match; [|auto with harkness].
  etrans; [apply risk_max_le_r|apply risk_max_le_l].
Qed.

Lemma layered_verdict user repository request :
  (layered user repository request).1.1 =
  verdict_max
    (verdict_max (built_in_verdict (pr_trust request) (pr_risk request))
       (from_option fst Allow (selected user request)))
    (from_option fst Allow (repository ≫= λ f, selected f request)).
Proof.
  assert (∀ v, verdict_max v Allow = v) as Hr by (by intros []).
  unfold layered.
  assert ((fold_layer (built_in request) (selected user request) FromUserPolicy).1.1 =
    verdict_max (built_in_verdict (pr_trust request) (pr_risk request))
      (from_option fst Allow (selected user request))) as Heq.
  { rewrite fold_layer_verdict. by destruct (selected user request). }
  destruct repository as [f|]; cbn [mbind option_bind].
  - rewrite fold_layer_verdict, Heq. by destruct (selected f request).
  - by rewrite Heq.
Qed.

(** The verdict of [answer] depends on the folded verdict alone. *)
Definition answered (request : PolicyRequest) (v : PolicyVerdict) : PolicyVerdict :=
  match v with
  | Ask =>
    if existsb (grant_matches request) (pr_grants request) then Allow
    else match pr_mode request with NonInteractive => Deny | Interactive => Ask end
  | _ => v
  end.

Lemma answer_verdict request st : pd_verdict (answer request st) = answered request st.1.1.
Proof.
  destruct st as [[v s] r]. unfold answer, answered. cbn.
  destruct v, (pr_mode request), (existsb _ _), (pr_external request); done.
Qed.

Lemma answered_mono request v w :
  verdict_le v w → verdict_le (answered request v) (answered request w).
Proof.
  unfold verdict_le, answered. destruct v, w; cbn; intros; repeat case_match; cbn; lia.
Qed.

(** What [evaluate] answers, as a verdict. *)
Definition ruled (engine : PolicyEngine) (request : PolicyRequest) : PolicyVerdict :=
  match pe_user engine, pe_repository engine with
  | Loaded user, Loaded repository => answered request (layered user repository request).1.1
  | _, _ => Deny
  end.

Lemma evaluate_verdict engine request :
  pd_verdict (evaluate engine request) =
  if is_some (external_refusal request) || is_forcing (pr_force_push request)
  then Deny else ruled engine request.
Proof.
  unfold evaluate, ruled. destruct (external_refusal request) as [d|] eqn:Hd; cbn.
  { by eapply external_refusal_Deny. }
  destruct (is_forcing _); cbn; [done|].
  destruct (pe_user engine); [|done]. destruct (pe_repository engine); [|done].
  apply answer_verdict.
Qed.

(** *** Properties *)

(** Force push is refused whatever the rules, the grants, the trust and the
    mode say. *)
Theorem evaluate_denies_force_push engine request :
  is_forcing (pr_force_push request) = true →
  pd_verdict (evaluate engine request) = Deny.
Proof. intros Hf. rewrite evaluate_verdict, Hf, orb_true_r. done. Qed.

(** C2. A repository can only tighten: adding a repository layer, or failing to
    load it, never makes the verdict milder than evaluating without one. *)
Theorem evaluate_repository_only_tightens user repository request :
  verdict_le
    (pd_verdict (evaluate (MkPolicyEngine user (Loaded None)) request))
    (pd_verdict (evaluate (MkPolicyEngine user repository) request)).
Proof.
  rewrite !evaluate_verdict. case_match; [done|].
  unfold ruled. cbn [pe_user pe_repository]. destruct user as [user|]; [|done].
  destruct repository as [repository|].
  - apply answered_mono. rewrite !layered_verdict. unfold verdict_le.
    rewrite !verdict_max_severity. cbn [mbind option_bind from_option severity]. lia.
  - unfold verdict_le. cbn. destruct (answered _ _); cbn; lia.
Qed.

(** In an untrusted workspace nothing above observation is permitted: no user
    rule and no grant turns the refusal into anything else. *)
Theorem evaluate_untrusted_denies engine request :
  pr_trust request = Untrusted → mutates_state (pr_risk request) = true →
  pd_verdict (evaluate engine request) = Deny.
Proof.
  intros Ht Hr. rewrite evaluate_verdict. case_match; [done|]. unfold ruled.
  destruct (pe_user engine) as [user|]; [|done].
  destruct (pe_repository engine) as [repository|]; [|done].
  assert ((layered user repository request).1.1 = Deny) as ->; [|done].
  assert (built_in_verdict (pr_trust request) (pr_risk request) = Deny) as Hb
    by (rewrite Ht; by destruct (pr_risk request)).
  rewrite layered_verdict, Hb. apply severity_inj. rewrite !verdict_max_severity.
  cbn [severity].
  pose proof (severity_le (from_option fst Allow (selected user request))).
  pose proof (severity_le (from_option fst Allow (repository ≫= λ f, selected f request))).
  lia.
Qed.

(** The cascade of [evaluate], as far as [Allow] goes. *)
Lemma evaluate_Allow engine request :
  pd_verdict (evaluate engine request) = Allow ↔
  external_refusal request = None ∧ is_forcing (pr_force_push request) = false ∧
  ∃ user repository,
    pe_user engine = Loaded user ∧ pe_repository engine = Loaded repository ∧
    ((layered user repository request).1.1 = Allow
     ∨ (layered user repository request).1.1 = Ask
       ∧ ∃ grant, grant ∈ pr_grants request ∧ grant_matches request grant = true).
Proof.
  rewrite evaluate_verdict. split.
  - destruct (external_refusal request); [done|].
    destruct (is_forcing _); [done|]. cbn. unfold ruled.
    destruct (pe_user engine) as [user|]; [|done].
    destruct (pe_repository engine) as [repository|]; [|done].
    intros Ha. split_and!; [done..|]. exists user, repository. split_and!; [done..|].
    unfold answered in Ha. destruct ((layered _ _ _).1.1); [by left| |done].
    right. split; [done|].
    destruct (existsb _ _) eqn:He; [|by destruct (pr_mode request)].
    apply existsb_exists in He as (g & Hin & Hg).
    exists g. split; [by apply list_elem_of_In|done].
  - intros (Hx & Hf & user & repository & Hu & Hr & Hc). rewrite Hx, Hf. cbn.
    unfold ruled. rewrite Hu, Hr. unfold answered.
    destruct Hc as [->|[-> (g & Hin & Hg)]]; [done|].
    cbn. assert (existsb (grant_matches request) (pr_grants request) = true) as ->; [|done].
    apply existsb_exists. exists g. split; [by apply list_elem_of_In|done].
Qed.

Lemma grant_matches_exact request grant :
  grant_matches request grant = true → exact_only request = true →
  rg_scope grant = GrantExactCall.
Proof. unfold grant_matches. intros Hm Hx. rewrite Hx in Hm. cbn in Hm. by bool_hyps. Qed.

(** A run nobody can answer for never stops at a prompt, and only an [Ask]
    about a remote write or destructive work is marked as good for one call. *)
Theorem evaluate_asks_only_interactively engine request :
  pd_verdict (evaluate engine request) = Ask →
  pr_mode request = Interactive
  ∧ pd_one_call_only (evaluate engine request) = exact_only request.
Proof.
  unfold evaluate. destruct (external_refusal request) as [d|] eqn:Hd.
  { apply external_refusal_Deny in Hd. congruence. }
  destruct (is_forcing _); [done|].
  destruct (pe_user engine) as [user|]; [|done].
  destruct (pe_repository engine) as [repository|]; [|done].
  destruct (layered user repository request) as [[v s] r]. unfold answer.
  destruct v; [done| |done]. change (bool_decide (Ask = Ask)) with true. cbn [andb].
  destruct (existsb _ _); [done|].
  destruct (pr_mode request) eqn:Hm; [|by destruct (pr_external request)].
  done.
Qed.
End evaluate_lemmas.

(** ** Decisions are recordable

    A tool call records a decision only when [PolicyDecision::validate] accepts
    it ([ToolCall::apply_policy_decision]). *)

Lemma validate_without_kind d :
  is_blank (pd_reason d) = false →
  (pd_one_call_only d = true → pd_verdict d = Ask) →
  (pd_source d = FromRunGrant → pd_verdict d = Allow) →
  pd_denial_kind d = None →
  (∀ external, pd_external_request d = Some external →
    epc_schema_version external = EXTERNAL_POLICY_CONTEXT_SCHEMA_VERSION
    ∧ epc_validate_identity_shape external = Ok tt) →
  PolicyDecision_validate d = Ok tt.
Proof.
  intros Hblank Hone Hsrc Hkind Hext. unfold PolicyDecision_validate.
  rewrite Hblank, Hkind. cbn [is_some andb].
  rewrite (proj2 (andb_false_iff _ _)).
  2: { destruct (pd_one_call_only d); [right|by left]. rewrite Hone by done. done. }
  rewrite (proj2 (andb_false_iff (bool_decide (pd_source d = FromRunGrant)) _)).
  2: { case_bool_decide as Hs; [right|by left]. rewrite Hsrc by done. done. }
  destruct (pd_external_request d) as [external|]; [|done].
  destruct (Hext external eq_refl) as [-> ->]. done.
Qed.

Lemma validate_denied_as d kind external :
  is_blank (pd_reason d) = false → pd_verdict d = Deny → pd_one_call_only d = false →
  pd_source d ≠ FromRunGrant → pd_denial_kind d = Some kind →
  kind ∈ EXTERNAL_POLICY_DENIAL_KINDS →
  pd_external_request d = Some external →
  epc_schema_version external = EXTERNAL_POLICY_CONTEXT_SCHEMA_VERSION →
  PolicyDecision_validate d = Ok tt ↔
  match invalid_identity_denial_kind external with
  | Some required => kind = required
  | None => kind = noninteractive_denial_kind (epc_capability external)
            ∨ kind = "external_identity_context_invalid"
  end.
Proof.
  intros Hblank Hverdict Hone Hsrc Hkind Hin Hext Hver. unfold PolicyDecision_validate.
  rewrite Hblank, Hverdict, Hone, Hkind, Hext, Hver, (bool_decide_eq_false_2 _ Hsrc).
  rewrite (bool_decide_eq_true_2 _ Hin).
  change (bool_decide (Deny = Deny)) with true.
  cbn [is_some andb negb].
  destruct (invalid_identity_denial_kind external) as [required|] eqn:Hreq.
  - destruct (epc_validate_identity_shape external) as [[]|] eqn:Hshape.
    { apply invalid_identity_denial_kind_None in Hshape. congruence. }
    cbn. repeat (case_bool_decide; cbn); split; congruence.
  - apply invalid_identity_denial_kind_None in Hreq. rewrite Hreq. cbn.
    repeat case_bool_decide; cbn; intuition congruence.
Qed.

Section recordable.
Context `{Platform}.
Implicit Types (engine : PolicyEngine) (request : PolicyRequest).

(** Every context this build constructs carries the current version. *)
Definition context_current request : Prop :=
  ∀ external, pr_external request = Some external →
    epc_schema_version external = EXTERNAL_POLICY_CONTEXT_SCHEMA_VERSION.

(** The descriptor and the context disagree about the external operation. *)
Definition misdeclared request : bool :=
  (1 <? length (omap from_capability (td_capabilities (pr_descriptor request))))
  || match pr_external request with
     | Some external =>
       negb (is_ok (validate_declaration external (td_capabilities (pr_descriptor request))))
     | None => false
     end.

(** The identity evidence is missing, so that a specific refusal is owed. *)
Definition identity_missing request : bool :=
  match pr_external request with
  | Some external =>
    match invalid_identity_denial_kind external with
    | Some kind => negb (bool_decide (kind = "external_identity_context_invalid"))
    | None => false
    end
  | None => false
  end.

Lemma fold_layer_reason st sel layer :
  is_blank st.2 = false → is_blank (fold_layer st sel layer).2 = false.
Proof.
  unfold fold_layer. destruct sel as [[v w]|]; [|done]. case_match; [|done].
  intros _. destruct v; by apply is_blank_String.
Qed.

Lemma fold_layer_source st sel layer :
  st.1.2 ≠ FromRunGrant → layer ≠ FromRunGrant →
  (fold_layer st sel layer).1.2 ≠ FromRunGrant.
Proof. unfold fold_layer. destruct sel as [[v w]|]; [|done]. by case_match. Qed.

Lemma layered_reason user repository request :
  is_blank (layered user repository request).2 = false.
Proof.
  assert (is_blank (built_in request).2 = false) as Hb.
  { unfold built_in. destruct (pr_trust request), (pr_risk request);
      by apply is_blank_String. }
  unfold layered. destruct repository; by repeat apply fold_layer_reason.
Qed.

Lemma layered_source user repository request :
  (layered user repository request).1.2 ≠ FromRunGrant.
Proof.
  unfold layered. destruct repository; by repeat apply fold_layer_source.
Qed.

Lemma external_refusal_source request d :
  external_refusal request = Some d → pd_source d = BuiltIn.
Proof. unfold external_refusal. repeat case_match; naive_solver. Qed.

(** A decision that cites a run grant was an [Ask] some grant answered. *)
Lemma evaluate_source_grant engine request :
  pd_source (evaluate engine request) = FromRunGrant →
  pd_verdict (evaluate engine request) = Allow ∧
  existsb (grant_matches request) (pr_grants request) = true.
Proof.
  unfold evaluate. destruct (external_refusal request) as [d|] eqn:Hd.
  { by rewrite (external_refusal_source _ _ Hd). }
  destruct (is_forcing _); [done|].
  destruct (pe_user engine) as [user|]; [|done].
  destruct (pe_repository engine) as [repository|]; [|done].
  pose proof (layered_source user repository request) as Hs.
  destruct (layered user repository request) as [[v s] why]. cbn in Hs. unfold answer.
  destruct (bool_decide (v = Ask)), (existsb _ _); cbn; try done;
    repeat case_match; done.
Qed.

Lemma external_refusal_None_shape request external :
  external_refusal request = None → pr_external request = Some external →
  epc_validate_identity_shape external = Ok tt.
Proof.
  unfold external_refusal. intros Hn He. rewrite He in Hn.
  apply invalid_identity_denial_kind_None. by repeat case_match; simplify_eq.
Qed.
Lemma answer_validates request st :
  is_blank st.2 = false → st.1.2 ≠ FromRunGrant →
  (∀ external, pr_external request = Some external →
    epc_schema_version external = EXTERNAL_POLICY_CONTEXT_SCHEMA_VERSION
    ∧ epc_validate_identity_shape external = Ok tt) →
  PolicyDecision_validate (answer request st) = Ok tt.
Proof.
  destruct st as [[v s] r]. cbn. intros Hr Hs Hext. unfold answer.
  destruct (bool_decide (v = Ask) && existsb _ _) eqn:Hg.
  { by apply validate_without_kind. }
  destruct (bool_decide (v = Ask) && bool_decide (_ = NonInteractive)) eqn:Hn.
  - destruct (pr_external request) as [external|] eqn:He.
    + destruct (Hext external eq_refl) as [Hv Hshape].
      eapply validate_denied_as; try done.
      * apply noninteractive_denial_kind_listed.
      * rewrite (proj2 (invalid_identity_denial_kind_None external)) by done. by left.
    + apply validate_without_kind; try done; cbn; congruence.
  - apply validate_without_kind; try done; cbn.
    intros Hb. by bool_hyps.
Qed.

(** A refusal of the external context is recordable unless the operation is
    misdeclared and, at the same time, its identity evidence is missing. *)
Lemma external_refusal_validates request d :
  context_current request → external_refusal request = Some d →
  PolicyDecision_validate d = Ok tt ↔ misdeclared request && identity_missing request = false.
Proof.
  intros Hcur. unfold external_refusal, misdeclared, identity_missing.
  destruct (pr_external request) as [external|] eqn:Hext.
  - assert (∀ reason kind, is_blank reason = false → kind ∈ EXTERNAL_POLICY_DENIAL_KINDS →
      PolicyDecision_validate (denied_as kind (for_request request (deny_built_in reason)))
        = Ok tt ↔
      match invalid_identity_denial_kind external with
      | Some required => kind = required
      | None => kind = noninteractive_denial_kind (epc_capability external)
                ∨ kind = "external_identity_context_invalid"
      end) as Hval.
    { intros reason kind Hr Hk. by apply validate_denied_as; auto. }
    pose proof context_invalid_listed as Hctx.
    set (declared := omap from_capability _).
    assert (∀ reason, is_blank reason = false →
      PolicyDecision_validate (denied_as "external_identity_context_invalid"
        (for_request request (deny_built_in reason))) = Ok tt ↔
      match invalid_identity_denial_kind external with
      | Some kind => negb (bool_decide (kind = "external_identity_context_invalid"))
      | None => false
      end = false) as Hinv.
    { intros reason Hr. rewrite Hval by done.
      destruct (invalid_identity_denial_kind external) as [k|]; [|by intuition].
      case_bool_decide; cbn; intuition congruence. }
    clear Hctx.
    destruct (1 <? length declared) eqn:Hlen; cbn [orb andb].
    { intros [= <-]. rewrite Hinv by by apply is_blank_String. done. }
    assert (match validate_declaration external (td_capabilities (pr_descriptor request)) with
      | Ok _ => match invalid_identity_denial_kind external with
        | Some kind => Some (denied_as kind (for_request request (deny_built_in
            ("denied: " +:+ ExternalCapability_as_str (epc_capability external)
             +:+ " requires valid observed identity evidence before evaluation"))))
        | None => None
        end
      | Err reason => Some (denied_as "external_identity_context_invalid"
          (for_request request (deny_built_in ("denied: " +:+ reason))))
      end = Some d → PolicyDecision_validate d = Ok tt ↔
      negb (is_ok (validate_declaration external (td_capabilities (pr_descriptor request))))
      && match invalid_identity_denial_kind external with
         | Some kind => negb (bool_decide (kind = "external_identity_context_invalid"))
         | None => false
         end = false) as Hgoal; [|by destruct declared].
    destruct (validate_declaration _ _) as [u|e]; cbn [is_ok negb andb].
    + destruct (invalid_identity_denial_kind external) as [k|] eqn:Hk; [|done].
      intros [= <-]. rewrite Hval; [done|by apply is_blank_String|].
      by eapply invalid_identity_denial_kind_listed.
    + intros [= <-]. rewrite Hinv by by apply is_blank_String. done.
  - rewrite andb_false_r. repeat case_match; intros ?; simplify_eq; split; try done; intros _;
      unfold PolicyDecision_validate; cbn; rewrite Hext; done.
Qed.

(** What [evaluate] decides can be recorded, with one exception: a tool that
    misdeclares its external operation and presents no identity evidence is
    denied by a decision that [validate] refuses. *)
Theorem evaluate_recordable engine request :
  context_current request →
  PolicyDecision_validate (evaluate engine request) = Ok tt ↔
  misdeclared request && identity_missing request = false.
Proof.
  intros Hcur. unfold evaluate.
  destruct (external_refusal request) as [d|] eqn:Href.
  { by apply external_refusal_validates. }
  assert (misdeclared request && identity_missing request = false) as ->.
  { unfold misdeclared, identity_missing. unfold external_refusal in Href.
    by repeat case_match; simplify_eq/=. }
  split; [done|intros _].
  assert (∀ external, pr_external request = Some external →
    epc_schema_version external = EXTERNAL_POLICY_CONTEXT_SCHEMA_VERSION
    ∧ epc_validate_identity_shape external = Ok tt) as Hshape.
  { intros external He. split; [by apply Hcur|by eapply external_refusal_None_shape]. }
  destruct (is_forcing _) eqn:Hf.
  { apply validate_without_kind; try done; try by apply is_blank_String. }
  destruct (pe_user engine) as [user|];
    [|apply validate_without_kind; try done; try by apply is_blank_String].
  destruct (pe_repository engine) as [repository|];
    [|apply validate_without_kind; try done; try by apply is_blank_String].
  apply answer_validates; auto using layered_reason, layered_source.
Qed.
End recordable.

(** ** Selecting a rule of one file *)

Section selection.
Context `{Platform}.

(** The rules of [f] that speak about the request. *)
Definition matching_rules (f : PolicyFile) (request : PolicyRequest) : list PolicyVerdict :=
  omap (λ o, o)
    [pf_tools f !! pr_tool_id request;
     pf_risks f !! pr_risk request;
     pr_external request ≫= λ context, pf_external_capabilities f !! epc_capability context].

(** A file answers with the strictest of its matching rules: a permissive rule
    for one tool carves no exception out of a stricter rule for its risk. *)
Theorem selected_is_strictest f request :
  match selected f request with
  | None => matching_rules f request = []
  | Some (v, _) =>
    v ∈ matching_rules f request ∧ ∀ w, w ∈ matching_rules f request → verdict_le w v
  end.
Proof.
  assert (∃ l, selected f request = max_by_severity l ∧ l.*1 = matching_rules f request)
    as (l & -> & <-).
  { unfold selected, matching_rules. eexists. split; [reflexivity|].
    destruct (pf_tools f !! _), (pf_risks f !! _), (pr_external request) as [c|]; cbn;
      try destruct (pf_external_capabilities f !! _); reflexivity. }
  pose proof (max_by_severity_spec l) as Hmax.
  destruct (max_by_severity l) as [[v s]|]; [|by subst].
  destruct Hmax as [Hin Hle]. split.
  - apply list_elem_of_fmap. by exists (v, s).
  - intros w ([w' s'] & -> & Hin')%list_elem_of_fmap. exact (Hle _ Hin').
Qed.
End selection.

(** ** What it takes to be allowed *)

Section allowed.
Context `{Platform}.
Implicit Types (engine : PolicyEngine) (request : PolicyRequest).

(** A rule of a file speaks about the request: for its tool, its risk or its external
    operation. *)
Definition rule_of (f : PolicyFile) request (v : PolicyVerdict) : Prop :=
  pf_tools f !! pr_tool_id request = Some v ∨ pf_risks f !! pr_risk request = Some v ∨
  ∃ external, pr_external request = Some external ∧ pf_external_capabilities f !! epc_capability external = Some v.
(** What a user file and a repository file say about the request. *)
Definition says (user : PolicyFile) (repository : option PolicyFile) request (v : PolicyVerdict) : Prop :=
  rule_of user request v ∨ ∃ f, repository = Some f ∧ rule_of f request v.
(** A level the request is given: by its classification, its tool, or its external operation. *)
Definition rated request (level : RiskLevel) : Prop :=
  level = rc_risk (pr_classification request) ∨ level = td_risk (pr_descriptor request) ∨
  ∃ external, pr_external request = Some external ∧ level = epc_risk_floor external.
(** The declaration of the tool and the context of the request name the same one external
    operation with its identity evidence, or neither names one. *)
Definition external_in_order request : Prop :=
  let capabilities := td_capabilities (pr_descriptor request) in
  length (omap from_capability capabilities) ≤ 1 ∧
  match pr_external request with
  | None => omap from_capability capabilities = []
  | Some external => validate_declaration external capabilities = Ok tt ∧ epc_validate_identity_shape external = Ok tt
  end.
(** A grant of the identity the request shows; for remote writes and destructive work, only
    one that was given for one exact call. *)
Definition grant_covers request (grant : RunGrant) : Prop :=
  (pr_risk request = RemoteWrite ∨ pr_risk request = Destructive → rg_scope grant = GrantExactCall) ∧
  rg_integration_identity grant = match pr_external request with
                                  | Some external => epc_identity external
                                  | None => IntegrationIdentity_none
                                  end.

Lemma rule_of_matching f request v : rule_of f request v ↔ v ∈ matching_rules f request.
Proof.
  unfold rule_of, matching_rules. rewrite list_elem_of_omap. split.
  - intros [Hv|[Hv|(external & He & Hv)]]; eexists; (split; [|reflexivity]); rewrite <- Hv; [set_solver..|].
    rewrite He. cbn. set_solver.
  - intros (o & Hin & Ho). cbn in Ho. subst o.
    apply elem_of_cons in Hin as [Hin|[Hin|[Hin|[]%not_elem_of_nil]%elem_of_cons]%elem_of_cons]; [by left|by right; left|].
    right; right. destruct (pr_external request) as [external|]; [|done]. cbn in Hin. by exists external.
Qed.
Lemma selected_bounded f request n :
  severity (from_option fst Allow (selected f request)) ≤ n ↔ ∀ v, rule_of f request v → severity v ≤ n.
Proof.
  setoid_rewrite rule_of_matching. pose proof (selected_is_strictest f request) as Hs.
  destruct (selected f request) as [[v why]|]; cbn [from_option fst severity].
  - destruct Hs as [Hin Hle]. split; [|by intros Hall; apply Hall].
    intros Hv w Hw. specialize (Hle w Hw). unfold verdict_le in Hle. lia.
  - rewrite Hs. split; [by intros _ v ?%not_elem_of_nil|lia].
Qed.
Lemma layered_bounded user repository request n :
  severity (layered user repository request).1.1 ≤ n ↔
  severity (built_in_verdict (pr_trust request) (pr_risk request)) ≤ n ∧
  ∀ v, says user repository request v → severity v ≤ n.
Proof.
  rewrite layered_verdict, !verdict_max_severity, !Nat.max_lub_iff, selected_bounded. unfold says.
  destruct repository as [f|]; cbn [mbind option_bind from_option].
  - rewrite selected_bounded. naive_solver.
  - cbn [severity]. naive_solver lia.
Qed.
Lemma grant_covers_matches request grant : grant_covers request grant ↔ grant_matches request grant = true.
Proof.
  unfold grant_covers, grant_matches, exact_only. rewrite andb_true_iff.
  assert (match pr_external request with
     | Some external => bool_decide (rg_integration_identity grant = epc_identity external)
     | None => IntegrationIdentity_is_empty (rg_integration_identity grant)
     end = true ↔ rg_integration_identity grant = match pr_external request with
                                  | Some external => epc_identity external | None => IntegrationIdentity_none end) as ->.
  { destruct (pr_external request) as [external|]; [apply bool_decide_eq_true|].
    destruct (rg_integration_identity grant) as [[] [] []]; cbn; naive_solver. }
  destruct (pr_risk request); cbn; rewrite ?bool_decide_eq_true; naive_solver.
Qed.
Lemma external_refusal_None request : external_refusal request = None ↔ external_in_order request.
Proof.
  unfold external_refusal, external_in_order. set (declared := omap _ _).
  destruct (Nat.ltb_spec 1 (length declared)) as [Hl|Hl]; [split; [done|lia]|].
  destruct (pr_external request) as [external|].
  - rewrite <- invalid_identity_denial_kind_None.
    assert (∀ x : option PolicyDecision, match declared with [] => x | _ :: _ => x end = x) as Hd by by destruct declared.
    destruct declared; (destruct (validate_declaration _ _) as [[]|];
      [destruct (invalid_identity_denial_kind external)|]); naive_solver.
  - destruct declared; naive_solver.
Qed.
Lemma pr_risk_greatest request : rated request (pr_risk request) ∧ ∀ level, rated request level → risk_le level (pr_risk request).
Proof.
  assert (∀ a b, risk_max a b = a ∨ risk_max a b = b) as Hmax by (intros a b; unfold risk_max; case_match; auto).
  unfold rated, pr_risk. destruct (pr_external request) as [external|].
  - split.
    + destruct (Hmax (risk_max (rc_risk (pr_classification request)) (td_risk (pr_descriptor request))) (epc_risk_floor external)) as [->| ->]; [|naive_solver].
      destruct (Hmax (rc_risk (pr_classification request)) (td_risk (pr_descriptor request))) as [->| ->]; naive_solver.
    + intros level [->|[->|(e & [= <-] & ->)]]; [etrans; [apply risk_max_le_l|apply risk_max_le_l]|etrans; [apply risk_max_le_r|apply risk_max_le_l]|apply risk_max_le_r].
  - split; [destruct (Hmax (rc_risk (pr_classification request)) (td_risk (pr_descriptor request))) as [->| ->]; naive_solver|].
    intros level [->|[->|(e & [=] & ->)]]; [apply risk_max_le_l|apply risk_max_le_r].
Qed.

(** C36. What it takes to be allowed.  The risk of a request is the greatest of the levels its
    classification, its tool and its external operation give it; and it is allowed exactly
    when its external operation is in order, it forces no push, both layers loaded, no rule of
    either that speaks about it denies, nothing above observation is asked of an untrusted
    workspace, and either it observes a trusted workspace and every rule about it allows, or a
    grant covers it: one of the same identity and, for remote writes and destructive work, of
    one exact call. *)
Theorem evaluate_allows_iff engine request :
  (rated request (pr_risk request) ∧ ∀ level, rated request level → risk_le level (pr_risk request)) ∧
  (pd_verdict (evaluate engine request) = Allow ↔
   external_in_order request ∧ rc_force_push (pr_classification request) = NoForce ∧
   ∃ user repository, pe_user engine = Loaded user ∧ pe_repository engine = Loaded repository ∧
     (∀ v, says user repository request v → v ≠ Deny) ∧
     (pr_trust request = Untrusted → pr_risk request = Observe) ∧
     (pr_trust request = Trusted ∧ pr_risk request = Observe ∧ (∀ v, says user repository request v → v = Allow)
      ∨ ∃ grant, grant ∈ pr_grants request ∧ grant_covers request grant)).
Proof.
  split; [apply pr_risk_greatest|]. rewrite evaluate_Allow, external_refusal_None. unfold pr_force_push.
  assert (is_forcing (rc_force_push (pr_classification request)) = false ↔ rc_force_push (pr_classification request) = NoForce) as ->
    by by destruct (rc_force_push _).
  do 2 (apply and_iff_compat_l). f_equiv. intros user. f_equiv. intros repository. do 2 (apply and_iff_compat_l).
  setoid_rewrite grant_covers_matches.
  pose proof (layered_bounded user repository request 0) as H0. pose proof (layered_bounded user repository request 1) as H1.
  assert ((layered user repository request).1.1 = Allow ↔
    pr_trust request = Trusted ∧ pr_risk request = Observe ∧ ∀ v, says user repository request v → v = Allow) as Hallow.
  { transitivity (severity (layered user repository request).1.1 ≤ 0); [destruct ((layered _ _ _).1.1); cbn; split; (done || lia)|].
    rewrite H0. assert (∀ v, severity v ≤ 0 ↔ v = Allow) as Hv by (intros []; cbn; split; (done || lia)).
    setoid_rewrite Hv. destruct (pr_trust request), (pr_risk request); cbn; naive_solver. }
  assert ((∀ v, says user repository request v → v ≠ Deny) ∧ (pr_trust request = Untrusted → pr_risk request = Observe) ↔
    (layered user repository request).1.1 ≠ Deny) as Hd.
  { transitivity (severity (layered user repository request).1.1 ≤ 1); [|destruct ((layered _ _ _).1.1); cbn; split; (done || lia)].
    rewrite H1. assert (∀ v, severity v ≤ 1 ↔ v ≠ Deny) as Hv by (intros []; cbn; split; (done || lia)).
    setoid_rewrite Hv. destruct (pr_trust request), (pr_risk request); cbn; naive_solver. }
  rewrite <- Hallow, (assoc (∧)), Hd. destruct ((layered user repository request).1.1); naive_solver.
Qed.
End allowed.

(** ** Loading *)

Lemma first_invalid_key_None ids :
  first_invalid_key ids = None ↔ ∀ id, id ∈ ids → ∃ t, ToolId_new id = Ok t.
Proof.
  induction ids as [|id ids IH]; cbn; [set_solver|].
  unfold invalid_tool_key. destruct (ToolId_new id) as [t|e] eqn:Ht.
  - rewrite IH. split; [|set_solver].
    intros Hall id' [->|Hin]%elem_of_cons; [by eauto|by apply Hall].
  - split; [done|]. intros Hall. destruct (Hall id) as [t ?]; [set_solver|congruence].
Qed.

Lemma elem_of_sorted_keys {A} (m : gmap string A) id :
  id ∈ sorted_keys m ↔ is_Some (m !! id).
Proof.
  unfold sorted_keys. rewrite merge_sort_Permutation, list_elem_of_fmap. split.
  - intros ([id' a] & -> & Hin%elem_of_map_to_list). by exists a.
  - intros [a Ha]. exists (id, a). split; [done|]. by apply elem_of_map_to_list.
Qed.

Lemma PolicyFile_validate_Ok render f path u :
  PolicyFile_validate render f path = Ok u ↔
  (MINIMUM_POLICY_SCHEMA_VERSION ≤ pf_version f)%N
  ∧ (pf_version f = 1%N → pf_external_capabilities f = ∅)
  ∧ ∀ id, is_Some (pf_tools f !! id) → ∃ t, ToolId_new id = Ok t.
Proof.
  destruct u. unfold PolicyFile_validate.
  destruct (N.ltb_spec (pf_version f) MINIMUM_POLICY_SCHEMA_VERSION); [naive_solver lia|].
  setoid_rewrite <- elem_of_sorted_keys. rewrite <- first_invalid_key_None.
  destruct (N.eqb_spec (pf_version f) 1) as [Hv|Hv]; cbn.
  - case_bool_decide as He; cbn; [|naive_solver].
    destruct (first_invalid_key _) as [[]|]; naive_solver.
  - destruct (first_invalid_key _) as [[]|]; naive_solver.
Qed.

Lemma validate_repository_Ok f path u :
  validate_repository f path = Ok u ↔ ∀ c, pf_external_capabilities f !! c ≠ Some Allow.
Proof.
  destruct u. unfold validate_repository. destruct (find _ _) as [c|] eqn:Hf.
  - split; [done|]. intros Hall. exfalso. apply find_Some_elem in Hf as [_ Hf].
    apply (Hall c). by apply bool_decide_eq_true in Hf.
  - split; [|done]. intros _ c Hc.
    pose proof (find_none _ _ Hf c) as Hn. cbn in Hn.
    rewrite (bool_decide_eq_true_2 _ Hc) in Hn.
    discriminate Hn. destruct c; tauto.
Qed.

Section loading.
Context (parse_probe : list N → result string N).
Context (parse_policy : list N → result string PolicyFile).
Context (render : string → RegistryError → string).

(** A repository policy in force was read from a bounded file of a version
    this build knows, and holds only rules it may hold: every tool key is an
    identifier, and no external capability is granted. *)
Theorem load_repository_policy_sound path read policy :
  load_repository_policy parse_probe parse_policy render path read = Ok (Some policy) →
  (∃ bytes version parsed,
    read = Contents bytes ∧ (N.of_nat (length bytes) ≤ MAX_POLICY_FILE_BYTES)%N
    ∧ parse_probe bytes = Ok version ∧ (version ≤ POLICY_SCHEMA_VERSION)%N
    ∧ parse_policy bytes = Ok parsed ∧ pf_risks policy = pf_risks parsed
    ∧ pf_tools policy = pf_tools parsed
    ∧ (pf_version parsed = 1%N → pf_external_capabilities policy = ∅))
  ∧ pf_version policy = POLICY_SCHEMA_VERSION
  ∧ (∀ id, is_Some (pf_tools policy !! id) → ∃ t, ToolId_new id = Ok t)
  ∧ (∀ c, pf_external_capabilities policy !! c ≠ Some Allow).
Proof.
  unfold load_repository_policy, load_optional_file.
  intros ([p|] & Hp & Hrest)%bind_Ok; [|by apply bind_Ok in Hrest as (?&?&?)].
  apply bind_Ok in Hrest as (u & Hrepo & [= ->]). rewrite validate_repository_Ok in Hrepo.
  apply bind_Ok in Hp as ([bytes|] & Hread & Hp); [|done].
  apply bind_Ok in Hp as (version & Hver & Hp).
  destruct (parse_probe bytes) as [v|] eqn:Hprobe; [|done]. injection Hver as <-.
  destruct (N.ltb_spec POLICY_SCHEMA_VERSION v); [done|].
  apply bind_Ok in Hp as (parsed & Hparsed & Hp).
  destruct (parse_policy bytes) as [q|] eqn:Hq; [|done]. injection Hparsed as <-.
  apply bind_Ok in Hp as (u' & Hval & [= <-]).
  rewrite PolicyFile_validate_Ok in Hval. destruct Hval as (Hmin & Hext & Htools).
  destruct read as [| | |bs]; try done. cbn in Hread.
  destruct (N.ltb_spec MAX_POLICY_FILE_BYTES (N.of_nat (length bs))); [done|].
  injection Hread as <-. split; [|done]. by exists bs, v, q.
Qed.
End loading.

(** ** Concrete requests *)

Definition demo_descriptor (risk : RiskLevel) (capabilities : list Capability) : ToolDescriptor :=
  MkToolDescriptor
    (MkToolIdentity (MkToolId "git.push") (MkToolVersion (1%N, false)))
    "Push" "Pushes a branch" risk capabilities [] (ToolTimeout_for_risk risk) true "{}" "{}".

Definition demo_request (risk : RiskLevel) (trust : TrustState) (mode : ExecutionMode)
    : PolicyRequest :=
  let d := demo_descriptor risk [] in
  PolicyRequest_new d (classify_request d [] RequestFlags_default) trust mode.

Definition demo_engine : PolicyEngine :=
  PolicyEngine_new (with_risk RemoteWrite Allow PolicyFile_empty)
    (Some (with_risk RemoteWrite Ask PolicyFile_empty)).

Definition forced (r : PolicyRequest) : PolicyRequest :=
  MkPolicyRequest (pr_descriptor r)
    (classify_request (pr_descriptor r) [] (force_pushing WithLease RequestFlags_default))
    (pr_trust r) (pr_mode r) (pr_paths r) (pr_grants r) (pr_external r).

(** An agent launch whose descriptor declares two external operations and whose
    executable was never observed. *)
Definition misdeclared_launch : PolicyRequest :=
  let d := demo_descriptor Execute
    [MkCapability "launch_external_agent"; MkCapability "connect_mcp_server"] in
  with_external_context (launch_external_agent None)
    (PolicyRequest_new d (classify_request d [] RequestFlags_default) Trusted Interactive).

Lemma evaluate_denies_force_push_witness :
  pd_verdict (evaluate demo_engine (forced (demo_request RemoteWrite Trusted Interactive))) = Deny.
Proof. apply evaluate_denies_force_push. reflexivity. Defined.

Lemma evaluate_untrusted_denies_witness :
  pd_verdict (evaluate demo_engine (demo_request RemoteWrite Untrusted Interactive)) = Deny.
Proof. apply evaluate_untrusted_denies; reflexivity. Defined.

Lemma evaluate_asks_only_interactively_witness :
  Interactive = Interactive
  ∧ pd_one_call_only
      (evaluate demo_engine (demo_request RemoteWrite Trusted Interactive)) = true.
Proof.
  apply (evaluate_asks_only_interactively demo_engine
    (demo_request RemoteWrite Trusted Interactive)). by vm_compute.
Defined.

Lemma evaluate_recordable_witness :
  PolicyDecision_validate
    (evaluate demo_engine (demo_request RemoteWrite Trusted NonInteractive)) = Ok tt.
Proof. apply evaluate_recordable; [by intros ?|reflexivity]. Defined.

(** The exception of [evaluate_recordable] is reachable: the refusal of a
    misdeclared launch is denied as [external_identity_context_invalid], which
    [validate] does not accept while the executable's digest is missing. *)
Theorem misdeclared_launch_not_recordable engine :
  pd_verdict (evaluate engine misdeclared_launch) = Deny
  ∧ PolicyDecision_validate (evaluate engine misdeclared_launch)
    = Err "external policy context carries missing or irrelevant identity evidence".
Proof. by vm_compute. Qed.

(** A repository file of the previous version, with one tool rule. *)
Definition demo_parse (bytes : list N) : result string PolicyFile :=
  Ok (MkPolicyFile 1 ∅ {["fs.read" := Ask]} ∅).

Lemma load_repository_policy_sound_witness :
  ∃ policy,
    load_repository_policy (λ _, Ok 1%N) demo_parse (λ _ _, EmptyString)
      ".harkness/policy.json" (Contents [123%N; 125%N]) = Ok (Some policy)
    ∧ pf_version policy = 2%N.
Proof.
  eexists. split; [vm_compute; reflexivity|].
  eapply (load_repository_policy_sound (λ _, Ok 1%N) demo_parse (λ _ _, EmptyString)
    ".harkness/policy.json" (Contents [123%N; 125%N])).
  vm_compute. reflexivity.
Defined.
