(* ===== verification/Lifecycle.v ===== *)
(** * Lifecycle states and their transition tables

    Models [src/crates/harkness-runtime/src/domain/state.rs], [domain/error.rs]
    and the generic [Lifecycle<S>] of [domain/record.rs].  The trait
    [LifecycleState] is a type class; what the durable record format relies on
    about a transition table is a second class, proved for both tables. *)

From S2P Require Import Prelude.
From stdpp Require Import base decidable list sets strings.

(** ** [ExecutionState] *)

Inductive ExecutionState :=
| Queued | ExecRunning | WaitingForApproval
| ExecSucceeded | ExecFailed | ExecCancelled | ExecInterrupted.

#[export] Instance ExecutionState_eq_dec : EqDecision ExecutionState.
Proof. solve_decision. Defined.

Definition ExecutionState_ALL : list ExecutionState :=
  [Queued; ExecRunning; WaitingForApproval; ExecSucceeded; ExecFailed; ExecCancelled;
   ExecInterrupted].

Definition ExecutionState_as_str (s : ExecutionState) : string :=
  match s with
  | Queued => "queued"
  | ExecRunning => "running"
  | WaitingForApproval => "waiting_for_approval"
  | ExecSucceeded => "succeeded"
  | ExecFailed => "failed"
  | ExecCancelled => "cancelled"
  | ExecInterrupted => "interrupted"
  end.

Definition ExecutionState_is_terminal (s : ExecutionState) : bool :=
  match s with
  | ExecSucceeded | ExecFailed | ExecCancelled | ExecInterrupted => true
  | _ => false
  end.

Definition ExecutionState_requires_started_at (s : ExecutionState) : bool :=
  match s with ExecRunning | WaitingForApproval | ExecSucceeded => true | _ => false end.

Definition ExecutionState_forbids_started_at (s : ExecutionState) : bool :=
  match s with Queued => true | _ => false end.

Definition EXECUTION_TRANSITIONS : list (ExecutionState * ExecutionState) :=
  [(Queued, ExecRunning); (Queued, ExecFailed); (Queued, ExecCancelled);
   (Queued, ExecInterrupted);
   (ExecRunning, WaitingForApproval); (ExecRunning, ExecSucceeded);
   (ExecRunning, ExecFailed); (ExecRunning, ExecCancelled); (ExecRunning, ExecInterrupted);
   (WaitingForApproval, ExecRunning); (WaitingForApproval, ExecFailed);
   (WaitingForApproval, ExecCancelled); (WaitingForApproval, ExecInterrupted)].

Definition ExecutionState_minimum_revision (s : ExecutionState) : N :=
  match s with
  | Queued => 0
  | ExecRunning | ExecFailed | ExecCancelled | ExecInterrupted => 1
  | WaitingForApproval | ExecSucceeded => 2
  end.

(** ** [ToolCallState] *)

Inductive ToolCallState :=
| Pending | AwaitingApproval | CallRunning
| CallSucceeded | CallFailed | CallDenied | CallCancelled | CallInterrupted.

#[export] Instance ToolCallState_eq_dec : EqDecision ToolCallState.
Proof. solve_decision. Defined.

Definition ToolCallState_ALL : list ToolCallState :=
  [Pending; AwaitingApproval; CallRunning; CallSucceeded; CallFailed; CallDenied;
   CallCancelled; CallInterrupted].

Definition ToolCallState_as_str (s : ToolCallState) : string :=
  match s with
  | Pending => "pending"
  | AwaitingApproval => "awaiting_approval"
  | CallRunning => "running"
  | CallSucceeded => "succeeded"
  | CallFailed => "failed"
  | CallDenied => "denied"
  | CallCancelled => "cancelled"
  | CallInterrupted => "interrupted"
  end.

Definition ToolCallState_is_terminal (s : ToolCallState) : bool :=
  match s with
  | CallSucceeded | CallFailed | CallDenied | CallCancelled | CallInterrupted => true
  | _ => false
  end.

Definition ToolCallState_requires_started_at (s : ToolCallState) : bool :=
  match s with CallRunning | CallSucceeded => true | _ => false end.

Definition ToolCallState_forbids_started_at (s : ToolCallState) : bool :=
  match s with Pending | AwaitingApproval | CallDenied => true | _ => false end.

Definition TOOL_CALL_TRANSITIONS : list (ToolCallState * ToolCallState) :=
  [(Pending, AwaitingApproval); (Pending, CallRunning); (Pending, CallFailed);
   (Pending, CallDenied); (Pending, CallCancelled); (Pending, CallInterrupted);
   (AwaitingApproval, CallRunning); (AwaitingApproval, CallDenied);
   (AwaitingApproval, CallCancelled); (AwaitingApproval, CallInterrupted);
   (CallRunning, CallSucceeded); (CallRunning, CallFailed); (CallRunning, CallCancelled);
   (CallRunning, CallInterrupted)].

Definition ToolCallState_minimum_revision (s : ToolCallState) : N :=
  match s with
  | Pending => 0
  | AwaitingApproval | CallRunning | CallFailed | CallDenied | CallCancelled
  | CallInterrupted => 1
  | CallSucceeded => 2
  end.

#[export] Instance ExecutionState_spelled : Spelled ExecutionState := {
  spelled_ALL := ExecutionState_ALL;
  as_str := ExecutionState_as_str;
}.
#[export] Instance ToolCallState_spelled : Spelled ToolCallState := {
  spelled_ALL := ToolCallState_ALL;
  as_str := ToolCallState_as_str;
}.
#[export] Instance ExecutionState_spelled_laws : SpelledLaws ExecutionState.
Proof. split; [intros []; set_solver|by intros [] []]. Qed.
#[export] Instance ToolCallState_spelled_laws : SpelledLaws ToolCallState.
Proof. split; [intros []; set_solver|by intros [] []]. Qed.

(** ** Errors ([domain/error.rs]) *)

Inductive RunDomainError :=
| InvalidExecutionTransition (from to : ExecutionState)
| InvalidToolCallTransition (from to : ToolCallState)
| RevisionExhausted (record : string)
| SchemaVersionTooOld (record : string) (found minimum : N)
| SchemaVersionTooNew (record : string) (found maximum : N)
| InvalidTimestamp (record field reason : string)
| InvalidLifecycle (record reason : string).

Definition RunDomainError_kind (e : RunDomainError) : string :=
  match e with
  | InvalidExecutionTransition _ _ => "invalid_execution_transition"
  | InvalidToolCallTransition _ _ => "invalid_tool_call_transition"
  | RevisionExhausted _ => "revision_exhausted"
  | SchemaVersionTooOld _ _ _ => "schema_version_too_old"
  | SchemaVersionTooNew _ _ _ => "schema_version_too_new"
  | InvalidTimestamp _ _ _ => "invalid_timestamp"
  | InvalidLifecycle _ _ => "invalid_lifecycle"
  end.

(** ** The trait [LifecycleState] *)

Class LifecycleState (S : Type) := {
  LifecycleState_eq_dec :: EqDecision S;
  INITIAL : S;
  RUNNING : S;
  transitions : list (S * S);
  is_terminal : S → bool;
  requires_started_at : S → bool;
  forbids_started_at : S → bool;
  minimum_revision : S → N;
  invalid_transition : S → S → RunDomainError;
}.

#[export] Instance ExecutionState_lifecycle : LifecycleState ExecutionState := {
  INITIAL := Queued;
  RUNNING := ExecRunning;
  transitions := EXECUTION_TRANSITIONS;
  is_terminal := ExecutionState_is_terminal;
  requires_started_at := ExecutionState_requires_started_at;
  forbids_started_at := ExecutionState_forbids_started_at;
  minimum_revision := ExecutionState_minimum_revision;
  invalid_transition := InvalidExecutionTransition;
}.

#[export] Instance ToolCallState_lifecycle : LifecycleState ToolCallState := {
  INITIAL := Pending;
  RUNNING := CallRunning;
  transitions := TOOL_CALL_TRANSITIONS;
  is_terminal := ToolCallState_is_terminal;
  requires_started_at := ToolCallState_requires_started_at;
  forbids_started_at := ToolCallState_forbids_started_at;
  minimum_revision := ToolCallState_minimum_revision;
  invalid_transition := InvalidToolCallTransition;
}.

(** What the durable format relies on about a table. *)
Class LifecycleLaws (S : Type) `{LifecycleState S} := {
  edge_from_live : ∀ from to : S, (from, to) ∈ transitions → is_terminal from = false;
  edge_to_moved : ∀ from to : S, (from, to) ∈ transitions → to ≠ INITIAL;
  edge_requires : ∀ from to : S, (from, to) ∈ transitions →
    requires_started_at to = true → to = RUNNING ∨ requires_started_at from = true;
  edge_forbids : ∀ from to : S, (from, to) ∈ transitions →
    forbids_started_at to = true → to ≠ RUNNING ∧ forbids_started_at from = true;
  edge_revision : ∀ from to : S, (from, to) ∈ transitions →
    (minimum_revision to ≤ minimum_revision from + 1)%N;
  initial_live : is_terminal (INITIAL : S) = false;
  initial_not_started : requires_started_at (INITIAL : S) = false;
  initial_revision : minimum_revision (INITIAL : S) = 0%N;
  requires_not_forbids : ∀ s : S,
    requires_started_at s = true → forbids_started_at s = false;
}.

(** A law about every edge of a table is checked edge by edge. *)
Ltac check_edges :=
  intros ?? Hedge; repeat (apply elem_of_cons in Hedge as [[= -> ->]|Hedge]; [try done|]);
  try by apply elem_of_nil in Hedge.

#[export] Instance ExecutionState_laws : LifecycleLaws ExecutionState.
Proof.
  split; try done; try check_edges; cbn; try lia; try (by left); try (by right); try done.
  by intros [].
Qed.

#[export] Instance ToolCallState_laws : LifecycleLaws ToolCallState.
Proof.
  split; try done; try check_edges; cbn; try lia; try (by left); try (by right); try done.
  by intros [].
Qed.

Lemma execution_edge_live from to :
  (from, to) ∈ EXECUTION_TRANSITIONS → ExecutionState_is_terminal from = false.
Proof. exact (edge_from_live (S := ExecutionState) from to). Qed.
Lemma execution_edge_moved from to : (from, to) ∈ EXECUTION_TRANSITIONS → to ≠ Queued.
Proof. exact (edge_to_moved (S := ExecutionState) from to). Qed.
Lemma tool_call_edge_live from to :
  (from, to) ∈ TOOL_CALL_TRANSITIONS → ToolCallState_is_terminal from = false.
Proof. exact (edge_from_live (S := ToolCallState) from to). Qed.
Lemma tool_call_edge_moved from to : (from, to) ∈ TOOL_CALL_TRANSITIONS → to ≠ Pending.
Proof. exact (edge_to_moved (S := ToolCallState) from to). Qed.

(** ** [Lifecycle<S>] ([domain/record.rs]) *)

Definition invalid_timestamp (record field reason : string) : RunDomainError :=
  InvalidTimestamp record field reason.
Definition invalid_lifecycle (record reason : string) : RunDomainError :=
  InvalidLifecycle record reason.
Definition require_state (record : string) (condition : bool) (reason : string)
    : result RunDomainError unit :=
  ensure condition (invalid_lifecycle record reason).

Section lifecycle.
Context `{Platform} {S : Type} `{LifecycleState S}.

Definition validate_utc (record field : string) (timestamp : OffsetDateTime)
    : result RunDomainError unit :=
  ensure (is_utc timestamp) (invalid_timestamp record field "must use the UTC offset").

Record Lifecycle := MkLifecycle {
  lc_state : S;
  lc_created_at : OffsetDateTime;
  lc_updated_at : OffsetDateTime;
  lc_started_at : option OffsetDateTime;
  lc_finished_at : option OffsetDateTime;
  lc_revision : N;
}.

Definition Lifecycle_new (created_at : OffsetDateTime) : Lifecycle :=
  let created_at := to_utc created_at in
  MkLifecycle INITIAL created_at created_at None None 0.

(** The fields of a wire record, checked in the source's order. *)
Definition Lifecycle_from_wire (record : string) (state : S)
    (created_at updated_at : OffsetDateTime)
    (started_at finished_at : option OffsetDateTime) (revision : N)
    : result RunDomainError Lifecycle :=
  let refuse_timestamp (bad : bool) field reason :=
    ensure (negb bad) (invalid_timestamp record field reason) in
  let refuse (bad : bool) reason := ensure (negb bad) (invalid_lifecycle record reason) in
  let outside at_ := ts_ltb at_ created_at || ts_ltb updated_at at_ in
  let initial := bool_decide (state = INITIAL) in
  _ ← validate_utc record "created_at" created_at;
  _ ← validate_utc record "updated_at" updated_at;
  _ ← match started_at with
      | Some started_at => validate_utc record "started_at" started_at
      | None => Ok tt
      end;
  _ ← match finished_at with
      | Some finished_at => validate_utc record "finished_at" finished_at
      | None => Ok tt
      end;
  _ ← refuse_timestamp (ts_ltb updated_at created_at) "updated_at"
        "must not precede created_at";
  _ ← refuse_timestamp (is_some_and outside started_at) "started_at"
        "must fall between created_at and updated_at";
  _ ← refuse_timestamp (is_some_and outside finished_at) "finished_at"
        "must fall between created_at and updated_at";
  _ ← refuse (is_terminal state && negb (is_some finished_at))
        "a terminal state requires finished_at";
  _ ← refuse (negb (is_terminal state) && is_some finished_at)
        "a non-terminal state cannot carry finished_at";
  _ ← refuse (is_some_and (λ at_, negb (ts_eqb at_ updated_at)) finished_at)
        "finished_at must equal updated_at in a terminal state";
  _ ← refuse (requires_started_at state && negb (is_some started_at))
        "the current state requires started_at";
  _ ← refuse (forbids_started_at state && is_some started_at)
        "the current state cannot carry started_at";
  _ ← refuse (initial && negb (revision =? 0)%N)
        "the initial state requires revision zero";
  _ ← refuse (negb initial && (revision =? 0)%N)
        "a transitioned state requires a nonzero revision";
  _ ← refuse (revision <? minimum_revision state)%N
        "revision is too small for the current state";
  _ ← refuse ((revision =? 0)%N && negb (ts_eqb updated_at created_at))
        "revision zero requires updated_at to equal created_at";
  Ok (MkLifecycle state created_at updated_at started_at finished_at revision).

Definition validate_edge (l : Lifecycle) (to : S) : result RunDomainError unit :=
  ensure (bool_decide ((lc_state l, to) ∈ transitions)) (invalid_transition (lc_state l) to).

Definition Lifecycle_transition (record : string) (to : S) (at_ : OffsetDateTime)
    : stateM Lifecycle RunDomainError unit := λ l,
  match validate_edge l to with
  | Err e => (Err e, l)
  | Ok _ =>
    match checked_add_u64 (lc_revision l) 1 with
    | None => (Err (RevisionExhausted record), l)
    | Some revision =>
      let at_ := ts_max (to_utc at_) (lc_updated_at l) in
      (Ok tt,
       {| lc_state := to;
          lc_created_at := lc_created_at l;
          lc_updated_at := at_;
          lc_started_at :=
            if bool_decide (to = RUNNING) && negb (is_some (lc_started_at l))
            then Some at_ else lc_started_at l;
          lc_finished_at := if is_terminal to then Some at_ else lc_finished_at l;
          lc_revision := revision |})
    end
  end.

(** *** What a decoded lifecycle satisfies *)

Record lifecycle_wf (l : Lifecycle) : Prop := {
  wf_created_utc : is_utc (lc_created_at l) = true;
  wf_updated_utc : is_utc (lc_updated_at l) = true;
  wf_started_utc : ∀ t, lc_started_at l = Some t → is_utc t = true;
  wf_finished_utc : ∀ t, lc_finished_at l = Some t → is_utc t = true;
  wf_updated : ts_leb (lc_created_at l) (lc_updated_at l) = true;
  wf_started : ∀ t, lc_started_at l = Some t →
    ts_leb (lc_created_at l) t = true ∧ ts_leb t (lc_updated_at l) = true;
  wf_finished : ∀ t, lc_finished_at l = Some t →
    ts_leb (lc_created_at l) t = true ∧ ts_eqb t (lc_updated_at l) = true;
  wf_terminal : is_terminal (lc_state l) = is_some (lc_finished_at l);
  wf_requires : requires_started_at (lc_state l) = true → is_some (lc_started_at l) = true;
  wf_forbids : forbids_started_at (lc_state l) = true → lc_started_at l = None;
  wf_initial : lc_state l = INITIAL ↔ lc_revision l = 0%N;
  wf_revision : (minimum_revision (lc_state l) ≤ lc_revision l)%N;
  wf_zero : lc_revision l = 0%N → ts_eqb (lc_updated_at l) (lc_created_at l) = true;
}.

Context `{!PlatformLaws, !LifecycleLaws S}.

Lemma outside_false created updated t :
  ts_ltb t created || ts_ltb updated t = false ↔
  ts_leb created t = true ∧ ts_leb t updated = true.
Proof. by rewrite orb_false_iff, !ts_ltb_false. Qed.

Lemma started_utc_Ok record field o :
  match o with Some t => validate_utc record field t | None => Ok tt end = Ok tt ↔
  ∀ t, o = Some t → is_utc t = true.
Proof. destruct o; unfold validate_utc; rewrite ?ensure_Ok; naive_solver. Qed.

Lemma Lifecycle_from_wire_sound record st cr up sta fin rev l :
  Lifecycle_from_wire record st cr up sta fin rev = Ok l →
  l = MkLifecycle st cr up sta fin rev ∧ lifecycle_wf l.
Proof.
  unfold Lifecycle_from_wire. intros Hw.
  repeat (apply bind_Ok in Hw as ([] & Hc & Hw); revert Hc).
  injection Hw as <-. rewrite !started_utc_Ok. unfold validate_utc.
  rewrite !ensure_Ok, !negb_true_iff, !is_some_and_false.
  rewrite !andb_false_iff, ts_ltb_false, !negb_false_iff.
  setoid_rewrite outside_false. setoid_rewrite negb_false_iff.
  rewrite !bool_decide_eq_false, bool_decide_eq_true, N.eqb_eq, N.eqb_neq,
    N.ltb_ge, !is_some_false, !is_some_true.
  intros Hzero Hrev Hini0 Hini Hforb Hreq Heq Hlive Hterm Hfin Hsta Hup Hfu Hsu Huu Hcu.
  split; [done|]. split; cbn; try done.
  - intros t Ht. split; [by apply Hfin|by apply Heq].
  - destruct fin, (is_terminal st); naive_solver.
  - intros Hr. destruct Hreq as [|]; [congruence|by apply is_some_true].
  - intros Hf. by destruct Hforb as [?|?]; [congruence|].
  - split; [by destruct Hini as [|]|by destruct Hini0].
  - intros ->. by destruct Hzero.
Qed.

Lemma Lifecycle_from_wire_complete record l :
  lifecycle_wf l →
  Lifecycle_from_wire record (lc_state l) (lc_created_at l) (lc_updated_at l)
    (lc_started_at l) (lc_finished_at l) (lc_revision l) = Ok l.
Proof.
  destruct l as [st cr up sta fin rev].
  intros [? ? Hsu Hfu ? Hst Hfin Hterm Hreq Hforb Hini Hrev Hzero]; cbn in *.
  repeat (apply bind_Ok; exists tt; split); try done;
    unfold validate_utc; rewrite ?ensure_Ok, ?negb_true_iff,
      ?is_some_and_false, ?andb_false_iff, ?ts_ltb_false, ?negb_false_iff; try done.
  - by apply started_utc_Ok.
  - by apply started_utc_Ok.
  - intros t Ht. by apply outside_false, Hst.
  - intros t Ht. apply outside_false. destruct (Hfin t Ht) as [? Hq].
    unfold ts_eqb in Hq. by bool_hyps.
  - rewrite Hterm. by destruct fin; [right|left].
  - rewrite Hterm. by destruct fin; [left|right].
  - intros t Ht. by rewrite (proj2 (Hfin t Ht)).
  - destruct (requires_started_at st); [right; by apply Hreq|by left].
  - destruct (forbids_started_at st); [right; by rewrite Hforb|by left].
  - case_bool_decide; [right|by left]. by apply N.eqb_eq, Hini.
  - case_bool_decide; [by left|right]. by rewrite N.eqb_neq, <-Hini.
  - by apply N.ltb_ge.
  - destruct (N.eqb_spec rev 0); [right; by apply Hzero|by left].
Qed.

(** The decoder accepts exactly the fields of well-formed lifecycles, and
    rebuilds them unchanged. *)
Lemma Lifecycle_from_wire_Ok record l l' :
  Lifecycle_from_wire record (lc_state l) (lc_created_at l) (lc_updated_at l)
    (lc_started_at l) (lc_finished_at l) (lc_revision l) = Ok l' ↔
  l' = l ∧ lifecycle_wf l.
Proof.
  split.
  - intros [-> Hwf]%Lifecycle_from_wire_sound. by destruct l.
  - intros [-> Hwf]. by apply Lifecycle_from_wire_complete.
Qed.

(** ** What a transition does *)

Lemma Lifecycle_new_wf at_ : lifecycle_wf (Lifecycle_new at_).
Proof.
  split; cbn; try done; try apply to_utc_is_utc; try apply ts_leb_refl.
  - apply initial_live.
  - by rewrite initial_not_started.
  - by rewrite initial_revision.
  - intros _. apply ts_eqb_refl.
Qed.

(** A refused transition leaves the value as it was. *)
#[export] Instance Lifecycle_transition_atomic record to at_ :
  Atomic (Lifecycle_transition record to at_).
Proof. intros l e l'. unfold Lifecycle_transition. intros. repeat case_match; simplify_eq; done. Qed.

Lemma Lifecycle_transition_Ok record to at_ l u l' :
  Lifecycle_transition record to at_ l = (Ok u, l') ↔
  (lc_state l, to) ∈ transitions ∧
  (lc_revision l + 1 ≤ U64_MAX)%N ∧
  l' = MkLifecycle to (lc_created_at l) (ts_max (to_utc at_) (lc_updated_at l))
    (if bool_decide (to = RUNNING) && negb (is_some (lc_started_at l))
     then Some (ts_max (to_utc at_) (lc_updated_at l)) else lc_started_at l)
    (if is_terminal to then Some (ts_max (to_utc at_) (lc_updated_at l))
     else lc_finished_at l)
    (lc_revision l + 1).
Proof.
  unfold Lifecycle_transition, validate_edge, ensure.
  case_bool_decide as Hedge; [|naive_solver].
  destruct (checked_add_u64 (lc_revision l) 1) as [r|] eqn:E.
  - apply checked_add_u64_Some in E as [-> ?]. destruct u. naive_solver.
  - unfold checked_add_u64 in E. case_decide; naive_solver.
Qed.

(** The edge table and the [u64] counter are the only reasons to refuse. *)
Lemma Lifecycle_transition_is_ok record to at_ l :
  is_ok (Lifecycle_transition record to at_ l).1 = true ↔
  (lc_state l, to) ∈ transitions ∧ (lc_revision l < U64_MAX)%N.
Proof.
  unfold Lifecycle_transition, validate_edge, ensure, checked_add_u64.
  case_bool_decide; [|naive_solver]. case_decide; cbn; naive_solver lia.
Qed.

Lemma Lifecycle_transition_wf record to at_ l u l' :
  lifecycle_wf l → Lifecycle_transition record to at_ l = (Ok u, l') → lifecycle_wf l'.
Proof.
  intros [? ? Hsu Hfu Hup Hst Hfin Hterm Hreq Hforb Hini Hrev Hzero]
    (Hedge & Hmax & ->)%Lifecycle_transition_Ok.
  pose proof (edge_from_live _ _ Hedge) as Hlive.
  assert (lc_finished_at l = None) as Hnone
    by (apply is_some_false; congruence).
  set (now := ts_max (to_utc at_) (lc_updated_at l)).
  assert (ts_leb (lc_updated_at l) now = true) as Hnow by apply ts_max_ge_r.
  assert (ts_leb (lc_created_at l) now = true) as Hcr by by eapply ts_leb_trans.
  assert (is_utc now = true) as Hutc by (apply ts_max_utc; [apply to_utc_is_utc|done]).
  rewrite Hnone. split; cbn; try done.
  - intros t. case_match; naive_solver.
  - intros t. case_match; naive_solver.
  - intros t. case_match; intros Ht; simplify_eq.
    + split; [done|apply ts_leb_refl].
    + destruct (Hst _ Ht). split; [done|by eapply ts_leb_trans].
  - intros t. case_match; intros Ht; simplify_eq. split; [done|apply ts_eqb_refl].
  - by case_match.
  - intros Hr. case_bool_decide; cbn; [by destruct (lc_started_at l)|].
    destruct (edge_requires _ _ Hedge Hr); [done|by apply Hreq].
  - intros Hf. destruct (edge_forbids _ _ Hedge Hf) as [Hn Hf'].
    rewrite bool_decide_eq_false_2 by done. by apply Hforb.
  - split; [|lia]. intros ->. by destruct (edge_to_moved _ _ Hedge).
  - pose proof (edge_revision _ _ Hedge). lia.
  - lia.
Qed.

Lemma Lifecycle_transition_terminal record to at_ l :
  is_terminal (lc_state l) = true →
  Lifecycle_transition record to at_ l = (Err (invalid_transition (lc_state l) to), l).
Proof.
  intros Ht. unfold Lifecycle_transition, validate_edge, ensure.
  case_bool_decide as Hedge; [|done].
  by rewrite (edge_from_live _ _ Hedge) in Ht.
Qed.
End lifecycle.
#[global] Arguments Lifecycle {_} S.

(** What a successful transition leaves in the fields. *)
Ltac transition_inv H :=
  let Hedge := fresh "Hedge" in let Hmax := fresh "Hmax" in
  rewrite Lifecycle_transition_Ok in H; destruct H as (Hedge & Hmax & H).
