(* ===== verification/Domain.v ===== *)
(** * The runtime's records: tasks, runs, steps and tool calls

    Models [src/crates/harkness-runtime/src/domain/record.rs] and the record
    identifiers of [domain/id.rs].  Every [&mut self] method is a [stateM]
    computation on the record; a method that reads the receiver first and
    mutates last is shown to leave the record alone when it refuses
    ([Atomic]). *)

From S2P Require Import Prelude Digest Tool External Trust Policy Lifecycle.
From stdpp Require Import base decidable countable list strings.

(** ** Identifiers ([domain/id.rs]): distinct UUID newtypes *)

Section ids.
Context `{Platform}.

Record TaskId := MkTaskId { TaskId_uuid : Uuid }.
Record RunId := MkRunId { RunId_uuid : Uuid }.
Record StepId := MkStepId { StepId_uuid : Uuid }.
Record ToolCallId := MkToolCallId { ToolCallId_uuid : Uuid }.
Record ApprovalId := MkApprovalId { ApprovalId_uuid : Uuid }.
Record ProjectId := MkProjectId { ProjectId_uuid : Uuid }.

#[export] Instance TaskId_eq_dec : EqDecision TaskId.
Proof. solve_decision. Defined.
#[export] Instance RunId_eq_dec : EqDecision RunId.
Proof. solve_decision. Defined.
#[export] Instance StepId_eq_dec : EqDecision StepId.
Proof. solve_decision. Defined.
#[export] Instance ToolCallId_eq_dec : EqDecision ToolCallId.
Proof. solve_decision. Defined.
#[export] Instance ApprovalId_eq_dec : EqDecision ApprovalId.
Proof. solve_decision. Defined.
#[export] Instance ProjectId_eq_dec : EqDecision ProjectId.
Proof. solve_decision. Defined.
#[export] Instance ApprovalId_countable : Countable ApprovalId.
Proof. by refine (inj_countable' ApprovalId_uuid MkApprovalId _); intros []. Defined.
#[export] Instance ToolCallId_countable : Countable ToolCallId.
Proof. by refine (inj_countable' ToolCallId_uuid MkToolCallId _); intros []. Defined.
#[export] Instance ProjectId_countable : Countable ProjectId.
Proof. by refine (inj_countable' ProjectId_uuid MkProjectId _); intros []. Defined.
End ids.

(** ** Failures and approvals *)

Record Failure := MkFailure { failure_kind : string; failure_message : string }.

#[export] Instance Failure_eq_dec : EqDecision Failure.
Proof. solve_decision. Defined.

Definition Failure_new (kind message : string) : Failure := MkFailure kind message.

Definition with_redacted_message (f : Failure) (message : string) : Failure :=
  MkFailure (failure_kind f) message.

Inductive ApprovalOutcome := OutcomeApproved | OutcomeDenied.

#[export] Instance ApprovalOutcome_eq_dec : EqDecision ApprovalOutcome.
Proof. solve_decision. Defined.

Section records.
Context `{Platform}.

Record Approval := MkApproval {
  decided_by : string;
  decision : ApprovalOutcome;
  decided_at : OffsetDateTime;
}.

Definition Approval_new (by_ : string) (outcome : ApprovalOutcome) (at_ : OffsetDateTime)
    : Approval :=
  MkApproval by_ outcome (to_utc at_).
Definition Approval_approved (by_ : string) (at_ : OffsetDateTime) : Approval :=
  Approval_new by_ OutcomeApproved at_.
Definition Approval_denied (by_ : string) (at_ : OffsetDateTime) : Approval :=
  Approval_new by_ OutcomeDenied at_.

Definition approval_identity (record by_ : string) : result RunDomainError string :=
  if is_blank by_
  then Err (invalid_lifecycle record "approval decisions require decided_by")
  else Ok by_.

(** ** [Task] *)

Record Task := MkTask {
  task_id : TaskId;
  task_title : string;
  task_workspace_root : string;
  task_project_id : option ProjectId;
  task_created_at : OffsetDateTime;
}.

Definition Task_with_id (id : TaskId) (title workspace_root : string)
    (project_id : option ProjectId) (created_at : OffsetDateTime) : Task :=
  MkTask id title workspace_root project_id (to_utc created_at).

Definition Task_with_redacted_title (t : Task) (title : string) : Task :=
  MkTask (task_id t) title (task_workspace_root t) (task_project_id t) (task_created_at t).

(** ** [Run] *)

Record Run := MkRun {
  run_id : RunId;
  run_task_id : TaskId;
  run_lifecycle : Lifecycle ExecutionState;
  run_failure : option Failure;
  run_approvals : list Approval;
  run_retry_of : option RunId;
  run_workspace_may_be_modified : bool;
}.

Definition run_set_lifecycle (l : Lifecycle ExecutionState) (r : Run) : Run :=
  MkRun (run_id r) (run_task_id r) l (run_failure r) (run_approvals r) (run_retry_of r)
    (run_workspace_may_be_modified r).
Definition run_set_failure (f : Failure) (r : Run) : Run :=
  MkRun (run_id r) (run_task_id r) (run_lifecycle r) (Some f) (run_approvals r)
    (run_retry_of r) (run_workspace_may_be_modified r).
Definition run_push_approval (a : Approval) (r : Run) : Run :=
  MkRun (run_id r) (run_task_id r) (run_lifecycle r) (run_failure r)
    (run_approvals r ++ [a]) (run_retry_of r) (run_workspace_may_be_modified r).

Definition Run_with_id (id : RunId) (task : TaskId) (created_at : OffsetDateTime) : Run :=
  MkRun id task (Lifecycle_new created_at) None [] None false.

Definition Run_retrying_with_id (id : RunId) (task : TaskId) (original : RunId)
    (workspace_may_be_modified : bool) (created_at : OffsetDateTime) : Run :=
  let base := Run_with_id id task created_at in
  MkRun (run_id base) (run_task_id base) (run_lifecycle base) (run_failure base)
    (run_approvals base) (Some original) workspace_may_be_modified.

Definition run_state (r : Run) : ExecutionState := lc_state (run_lifecycle r).
Definition run_updated_at (r : Run) : OffsetDateTime := lc_updated_at (run_lifecycle r).

Definition run_lifecycle_transition (to : ExecutionState) (at_ : OffsetDateTime)
    : stateM Run RunDomainError unit :=
  zoom run_lifecycle run_set_lifecycle (Lifecycle_transition "run" to at_).

Definition Run_transition (to : ExecutionState) (at_ : OffsetDateTime)
    : stateM Run RunDomainError unit :=
  self ← get;
  _ ← lift (validate_edge (run_lifecycle self) to);
  _ ← lift (ensure (bool_decide (to ≠ ExecFailed))
        (invalid_lifecycle "run" "failed transitions require Run::fail"));
  _ ← lift (ensure
        (negb (bool_decide (run_state self = WaitingForApproval)
               && bool_decide (to = ExecRunning)))
        (invalid_lifecycle "run" "approval-gated work requires Run::approve"));
  run_lifecycle_transition to at_.

Definition Run_fail (failure : Failure) (at_ : OffsetDateTime)
    : stateM Run RunDomainError unit :=
  _ ← run_lifecycle_transition ExecFailed at_;
  modify (run_set_failure failure).

Definition Run_approve (by_ : string) (at_ : OffsetDateTime)
    : stateM Run RunDomainError unit :=
  self ← get;
  _ ← lift (require_state "run" (bool_decide (run_state self = WaitingForApproval))
        "approval decisions require waiting_for_approval");
  by_ ← lift (approval_identity "run" by_);
  _ ← run_lifecycle_transition ExecRunning at_;
  modify (λ self, run_push_approval (Approval_approved by_ (run_updated_at self)) self).

Definition Run_reject_approval (by_ : string) (failure : Failure) (at_ : OffsetDateTime)
    : stateM Run RunDomainError unit :=
  self ← get;
  _ ← lift (require_state "run" (bool_decide (run_state self = WaitingForApproval))
        "approval decisions require waiting_for_approval");
  by_ ← lift (approval_identity "run" by_);
  _ ← run_lifecycle_transition ExecFailed at_;
  _ ← modify (run_set_failure failure);
  modify (λ self, run_push_approval (Approval_denied by_ (run_updated_at self)) self).

Definition Run_resume_after_denial (by_ : string) (at_ : OffsetDateTime)
    : stateM Run RunDomainError unit :=
  self ← get;
  _ ← lift (require_state "run" (bool_decide (run_state self = WaitingForApproval))
        "approval decisions require waiting_for_approval");
  _ ← lift (approval_identity "run" by_);
  run_lifecycle_transition ExecRunning at_.

(** ** [Step] *)

Record Step := MkStep {
  step_id : StepId;
  step_run_id : RunId;
  step_ordinal : N;
  step_title : string;
  step_lifecycle : Lifecycle ExecutionState;
  step_failure : option Failure;
  step_approvals : list Approval;
}.

Definition step_set_lifecycle (l : Lifecycle ExecutionState) (s : Step) : Step :=
  MkStep (step_id s) (step_run_id s) (step_ordinal s) (step_title s) l (step_failure s)
    (step_approvals s).
Definition step_set_failure (f : Failure) (s : Step) : Step :=
  MkStep (step_id s) (step_run_id s) (step_ordinal s) (step_title s) (step_lifecycle s)
    (Some f) (step_approvals s).
Definition step_push_approval (a : Approval) (s : Step) : Step :=
  MkStep (step_id s) (step_run_id s) (step_ordinal s) (step_title s) (step_lifecycle s)
    (step_failure s) (step_approvals s ++ [a]).

Definition Step_with_id (id : StepId) (run : RunId) (ordinal : N) (title : string)
    (created_at : OffsetDateTime) : Step :=
  MkStep id run ordinal title (Lifecycle_new created_at) None [].

Definition step_state (s : Step) : ExecutionState := lc_state (step_lifecycle s).
Definition step_updated_at (s : Step) : OffsetDateTime := lc_updated_at (step_lifecycle s).

Definition step_lifecycle_transition (to : ExecutionState) (at_ : OffsetDateTime)
    : stateM Step RunDomainError unit :=
  zoom step_lifecycle step_set_lifecycle (Lifecycle_transition "step" to at_).

Definition Step_transition (to : ExecutionState) (at_ : OffsetDateTime)
    : stateM Step RunDomainError unit :=
  self ← get;
  _ ← lift (validate_edge (step_lifecycle self) to);
  _ ← lift (ensure (bool_decide (to ≠ ExecFailed))
        (invalid_lifecycle "step" "failed transitions require Step::fail"));
  _ ← lift (ensure
        (negb (bool_decide (step_state self = WaitingForApproval)
               && bool_decide (to = ExecRunning)))
        (invalid_lifecycle "step" "approval-gated work requires Step::approve"));
  step_lifecycle_transition to at_.

Definition Step_fail (failure : Failure) (at_ : OffsetDateTime)
    : stateM Step RunDomainError unit :=
  _ ← step_lifecycle_transition ExecFailed at_;
  modify (step_set_failure failure).

Definition Step_approve (by_ : string) (at_ : OffsetDateTime)
    : stateM Step RunDomainError unit :=
  self ← get;
  _ ← lift (require_state "step" (bool_decide (step_state self = WaitingForApproval))
        "approval decisions require waiting_for_approval");
  by_ ← lift (approval_identity "step" by_);
  _ ← step_lifecycle_transition ExecRunning at_;
  modify (λ self, step_push_approval (Approval_approved by_ (step_updated_at self)) self).

Definition Step_reject_approval (by_ : string) (failure : Failure) (at_ : OffsetDateTime)
    : stateM Step RunDomainError unit :=
  self ← get;
  _ ← lift (require_state "step" (bool_decide (step_state self = WaitingForApproval))
        "approval decisions require waiting_for_approval");
  by_ ← lift (approval_identity "step" by_);
  _ ← step_lifecycle_transition ExecFailed at_;
  _ ← modify (step_set_failure failure);
  modify (λ self, step_push_approval (Approval_denied by_ (step_updated_at self)) self).

(** ** [ToolCall] *)

Record ToolCall := MkToolCall {
  call_id : ToolCallId;
  call_run_id : RunId;
  call_step_id : StepId;
  call_tool_id : string;
  call_tool_version : string;
  call_input : Value;
  call_lifecycle : Lifecycle ToolCallState;
  call_failure : option Failure;
  call_output : option Value;
  call_approvals : list Approval;
  call_policy_decision : option PolicyDecision;
}.

Definition call_set_lifecycle (l : Lifecycle ToolCallState) (c : ToolCall) : ToolCall :=
  MkToolCall (call_id c) (call_run_id c) (call_step_id c) (call_tool_id c)
    (call_tool_version c) (call_input c) l (call_failure c) (call_output c)
    (call_approvals c) (call_policy_decision c).
Definition call_set_failure (f : Failure) (c : ToolCall) : ToolCall :=
  MkToolCall (call_id c) (call_run_id c) (call_step_id c) (call_tool_id c)
    (call_tool_version c) (call_input c) (call_lifecycle c) (Some f) (call_output c)
    (call_approvals c) (call_policy_decision c).
Definition call_set_output (v : Value) (c : ToolCall) : ToolCall :=
  MkToolCall (call_id c) (call_run_id c) (call_step_id c) (call_tool_id c)
    (call_tool_version c) (call_input c) (call_lifecycle c) (call_failure c) (Some v)
    (call_approvals c) (call_policy_decision c).
Definition call_push_approval (a : Approval) (c : ToolCall) : ToolCall :=
  MkToolCall (call_id c) (call_run_id c) (call_step_id c) (call_tool_id c)
    (call_tool_version c) (call_input c) (call_lifecycle c) (call_failure c)
    (call_output c) (call_approvals c ++ [a]) (call_policy_decision c).
Definition call_set_policy_decision (d : PolicyDecision) (c : ToolCall) : ToolCall :=
  MkToolCall (call_id c) (call_run_id c) (call_step_id c) (call_tool_id c)
    (call_tool_version c) (call_input c) (call_lifecycle c) (call_failure c)
    (call_output c) (call_approvals c) (Some d).
Definition call_set_tool_version (v : string) (c : ToolCall) : ToolCall :=
  MkToolCall (call_id c) (call_run_id c) (call_step_id c) (call_tool_id c)
    v (call_input c) (call_lifecycle c) (call_failure c)
    (call_output c) (call_approvals c) (call_policy_decision c).

Definition ToolCall_with_id (id : ToolCallId) (step : Step) (tool tool_version : string)
    (input : Value) (created_at : OffsetDateTime) : ToolCall :=
  MkToolCall id (step_run_id step) (step_id step) tool tool_version input
    (Lifecycle_new created_at) None None [] None.

Definition call_state (c : ToolCall) : ToolCallState := lc_state (call_lifecycle c).
Definition call_updated_at (c : ToolCall) : OffsetDateTime :=
  lc_updated_at (call_lifecycle c).

Definition call_lifecycle_transition (to : ToolCallState) (at_ : OffsetDateTime)
    : stateM ToolCall RunDomainError unit :=
  zoom call_lifecycle call_set_lifecycle (Lifecycle_transition "tool_call" to at_).

Definition ToolCall_apply_policy_decision (d : PolicyDecision) (at_ : OffsetDateTime)
    : stateM ToolCall RunDomainError unit :=
  self ← get;
  _ ← lift (require_state "tool_call" (bool_decide (call_state self = Pending))
        "policy evaluation requires pending");
  _ ← lift (require_state "tool_call" (is_none (call_policy_decision self))
        "a tool call may carry only one policy decision");
  _ ← lift (map_err (invalid_lifecycle "tool_call") (PolicyDecision_validate d));
  _ ← match pd_verdict d with
      | Allow => mret tt
      | Ask => call_lifecycle_transition AwaitingApproval at_
      | Deny =>
        _ ← call_lifecycle_transition CallDenied at_;
        modify (call_set_failure (Failure_new "policy" (pd_reason d)))
      end;
  modify (call_set_policy_decision d).

Definition ToolCall_transition (to : ToolCallState) (at_ : OffsetDateTime)
    : stateM ToolCall RunDomainError unit :=
  self ← get;
  _ ← lift (validate_edge (call_lifecycle self) to);
  _ ← lift (ensure
        (negb (bool_decide (to = CallSucceeded) || bool_decide (to = CallFailed)
               || bool_decide (to = CallDenied)))
        (invalid_lifecycle "tool_call"
           "outcome states require an outcome-specific transition method"));
  _ ← lift (ensure
        (negb (bool_decide (call_state self = AwaitingApproval)
               && bool_decide (to = CallRunning)))
        (invalid_lifecycle "tool_call" "approval-gated work requires ToolCall::approve"));
  call_lifecycle_transition to at_.

Definition version_agrees (c : ToolCall) (resolved : string) : bool :=
  bool_decide (call_tool_version c = "") || bool_decide (call_tool_version c = resolved).

Definition ToolCall_dispatch (resolved : string) (at_ : OffsetDateTime)
    : stateM ToolCall RunDomainError unit :=
  self ← get;
  _ ← lift (require_state "tool_call" (bool_decide (call_state self = Pending))
        "ToolCall::dispatch begins execution and requires pending");
  _ ← lift (require_state "tool_call" (version_agrees self resolved)
        "a recorded tool version may not be replaced by a different one");
  _ ← call_lifecycle_transition CallRunning at_;
  modify (call_set_tool_version resolved).

Definition ToolCall_dispatch_approved (by_ resolved : string) (at_ : OffsetDateTime)
    : stateM ToolCall RunDomainError unit :=
  self ← get;
  _ ← lift (require_state "tool_call" (bool_decide (call_state self = AwaitingApproval))
        "approval decisions require awaiting_approval");
  _ ← lift (require_state "tool_call" (version_agrees self resolved)
        "a recorded tool version may not be replaced by a different one");
  by_ ← lift (approval_identity "tool_call" by_);
  _ ← call_lifecycle_transition CallRunning at_;
  _ ← modify (call_set_tool_version resolved);
  modify (λ self, call_push_approval (Approval_approved by_ (call_updated_at self)) self).

Definition ToolCall_succeed (output : Value) (at_ : OffsetDateTime)
    : stateM ToolCall RunDomainError unit :=
  _ ← call_lifecycle_transition CallSucceeded at_;
  modify (call_set_output output).

Definition ToolCall_fail (failure : Failure) (at_ : OffsetDateTime)
    : stateM ToolCall RunDomainError unit :=
  _ ← call_lifecycle_transition CallFailed at_;
  modify (call_set_failure failure).

Definition ToolCall_approve (by_ : string) (at_ : OffsetDateTime)
    : stateM ToolCall RunDomainError unit :=
  self ← get;
  _ ← lift (require_state "tool_call" (bool_decide (call_state self = AwaitingApproval))
        "approval decisions require awaiting_approval");
  by_ ← lift (approval_identity "tool_call" by_);
  _ ← call_lifecycle_transition CallRunning at_;
  modify (λ self, call_push_approval (Approval_approved by_ (call_updated_at self)) self).

Definition ToolCall_reject_approval (by_ : string) (failure : Failure)
    (at_ : OffsetDateTime) : stateM ToolCall RunDomainError unit :=
  self ← get;
  _ ← lift (require_state "tool_call" (bool_decide (call_state self = AwaitingApproval))
        "approval decisions require awaiting_approval");
  by_ ← lift (approval_identity "tool_call" by_);
  _ ← call_lifecycle_transition CallDenied at_;
  _ ← modify (call_set_failure failure);
  modify (λ self, call_push_approval (Approval_denied by_ (call_updated_at self)) self).
End records.
