(* ===== verification/Records.v ===== *)
(** * How the records move: step relations, refusals and safety

    The methods of [Domain.v] as step relations, an abstract specification of a
    run and a step ([exec_edge]) that both records refine, and the safety
    properties of reachable records. *)

From S2P Require Import Prelude Digest Tool External Trust Policy Lifecycle Domain.
From Stdlib Require Import Sorting.Sorted.
From stdpp Require Import base decidable list strings relations sorting.

Section records.
Context `{PlatformLaws}.

(** ** Refusals are atomic *)

Lemma run_lifecycle_atomic to at_ : Atomic (run_lifecycle_transition to at_).
Proof. apply atomic_zoom; [by intros []|apply _]. Qed.
Lemma step_lifecycle_atomic to at_ : Atomic (step_lifecycle_transition to at_).
Proof. apply atomic_zoom; [by intros []|apply _]. Qed.
Lemma call_lifecycle_atomic to at_ : Atomic (call_lifecycle_transition to at_).
Proof. apply atomic_zoom; [by intros []|apply _]. Qed.

#[local] Existing Instances run_lifecycle_atomic step_lifecycle_atomic
  call_lifecycle_atomic.

(** A refused operation of a run, a step or a tool call leaves the record
    exactly as it was, whatever the reason it was refused for. *)
Theorem record_methods_refuse_atomically :
  (∀ to at_, Atomic (Run_transition to at_)) ∧
  (∀ failure at_, Atomic (Run_fail failure at_)) ∧
  (∀ by_ at_, Atomic (Run_approve by_ at_)) ∧
  (∀ by_ failure at_, Atomic (Run_reject_approval by_ failure at_)) ∧
  (∀ by_ at_, Atomic (Run_resume_after_denial by_ at_)) ∧
  (∀ to at_, Atomic (Step_transition to at_)) ∧
  (∀ failure at_, Atomic (Step_fail failure at_)) ∧
  (∀ by_ at_, Atomic (Step_approve by_ at_)) ∧
  (∀ by_ failure at_, Atomic (Step_reject_approval by_ failure at_)) ∧
  (∀ d at_, Atomic (ToolCall_apply_policy_decision d at_)) ∧
  (∀ to at_, Atomic (ToolCall_transition to at_)) ∧
  (∀ version at_, Atomic (ToolCall_dispatch version at_)) ∧
  (∀ by_ version at_, Atomic (ToolCall_dispatch_approved by_ version at_)) ∧
  (∀ output at_, Atomic (ToolCall_succeed output at_)) ∧
  (∀ failure at_, Atomic (ToolCall_fail failure at_)) ∧
  (∀ by_ at_, Atomic (ToolCall_approve by_ at_)) ∧
  (∀ by_ failure at_, Atomic (ToolCall_reject_approval by_ failure at_)).
Proof.
  repeat split; intros; try apply _.
  do 4 (apply atomic_bind_reads; [apply _|intros]).
  apply atomic_bind_total; [destruct (pd_verdict d); apply _|apply _].
Qed.

(** ** The abstract execution record

    What a run and a step have in common: a lifecycle, failure detail and an
    approval history. *)

Record ExecView := MkExecView {
  ev_lifecycle : Lifecycle ExecutionState;
  ev_failure : option Failure;
  ev_approvals : list Approval;
}.

Definition run_view (r : Run) : ExecView :=
  MkExecView (run_lifecycle r) (run_failure r) (run_approvals r).
Definition step_view (s : Step) : ExecView :=
  MkExecView (step_lifecycle s) (step_failure s) (step_approvals s).

Definition moved {S} `{LifecycleState S} (l : Lifecycle S) (to : S) (l' : Lifecycle S)
    : Prop :=
  ∃ record at_, Lifecycle_transition record to at_ l = (Ok tt, l').

Inductive exec_edge : ExecView → ExecView → Prop :=
| exec_move l l' f a to :
    moved l to l' → to ≠ ExecFailed →
    (lc_state l = WaitingForApproval → to ≠ ExecRunning) →
    exec_edge (MkExecView l f a) (MkExecView l' f a)
| exec_fail l l' f a g :
    moved l ExecFailed l' →
    exec_edge (MkExecView l f a) (MkExecView l' (Some g) a)
| exec_approve l l' f a who :
    lc_state l = WaitingForApproval → is_blank who = false → moved l ExecRunning l' →
    exec_edge (MkExecView l f a)
      (MkExecView l' f (a ++ [Approval_approved who (lc_updated_at l')]))
| exec_reject l l' f a g who :
    lc_state l = WaitingForApproval → is_blank who = false → moved l ExecFailed l' →
    exec_edge (MkExecView l f a)
      (MkExecView l' (Some g) (a ++ [Approval_denied who (lc_updated_at l')]))
| exec_resume l l' f a :
    lc_state l = WaitingForApproval → moved l ExecRunning l' →
    exec_edge (MkExecView l f a) (MkExecView l' f a).

(** ** The concrete step relations: one constructor per method *)

Inductive run_step : Run → Run → Prop :=
| run_does_transition r to at_ r' :
    Run_transition to at_ r = (Ok tt, r') → run_step r r'
| run_does_fail r failure at_ r' :
    Run_fail failure at_ r = (Ok tt, r') → run_step r r'
| run_does_approve r who at_ r' :
    Run_approve who at_ r = (Ok tt, r') → run_step r r'
| run_does_reject r who failure at_ r' :
    Run_reject_approval who failure at_ r = (Ok tt, r') → run_step r r'
| run_does_resume r who at_ r' :
    Run_resume_after_denial who at_ r = (Ok tt, r') → run_step r r'.

Inductive step_step : Step → Step → Prop :=
| step_does_transition s to at_ s' :
    Step_transition to at_ s = (Ok tt, s') → step_step s s'
| step_does_fail s failure at_ s' :
    Step_fail failure at_ s = (Ok tt, s') → step_step s s'
| step_does_approve s who at_ s' :
    Step_approve who at_ s = (Ok tt, s') → step_step s s'
| step_does_reject s who failure at_ s' :
    Step_reject_approval who failure at_ s = (Ok tt, s') → step_step s s'.

Inductive call_step : ToolCall → ToolCall → Prop :=
| call_does_policy c d at_ c' :
    ToolCall_apply_policy_decision d at_ c = (Ok tt, c') → call_step c c'
| call_does_transition c to at_ c' :
    ToolCall_transition to at_ c = (Ok tt, c') → call_step c c'
| call_does_dispatch c version at_ c' :
    ToolCall_dispatch version at_ c = (Ok tt, c') → call_step c c'
| call_does_dispatch_approved c who version at_ c' :
    ToolCall_dispatch_approved who version at_ c = (Ok tt, c') → call_step c c'
| call_does_succeed c output at_ c' :
    ToolCall_succeed output at_ c = (Ok tt, c') → call_step c c'
| call_does_fail c failure at_ c' :
    ToolCall_fail failure at_ c = (Ok tt, c') → call_step c c'
| call_does_approve c who at_ c' :
    ToolCall_approve who at_ c = (Ok tt, c') → call_step c c'
| call_does_reject c who failure at_ c' :
    ToolCall_reject_approval who failure at_ c = (Ok tt, c') → call_step c c'.

Lemma approval_identity_Ok record who who' :
  approval_identity record who = Ok who' ↔ who' = who ∧ is_blank who = false.
Proof. unfold approval_identity. destruct (is_blank who); naive_solver. Qed.

Lemma moved_intro {S} `{LifecycleState S} record to at_ (l : Lifecycle S) u l' :
  Lifecycle_transition record to at_ l = (Ok u, l') → moved l to l'.
Proof. destruct u. by exists record, at_. Qed.
End records.

(** Open a successful method call down to the lifecycle transition in it. *)
Ltac method_inv H :=
  stateM_inv H; unfold require_state, run_lifecycle_transition, step_lifecycle_transition,
    call_lifecycle_transition in *;
  repeat match goal with
  | H : zoom _ _ _ _ = (Ok _, _) |- _ => rewrite zoom_Ok in H; destruct H as (? & ? & ->)
  | H : ensure _ _ = Ok _ |- _ => rewrite ensure_Ok in H
  | H : approval_identity _ _ = Ok _ |- _ =>
      rewrite approval_identity_Ok in H; destruct H as [-> ?]
  | H : Lifecycle_transition _ _ _ _ = (Ok _, _) |- _ => apply moved_intro in H
  | H : modify _ _ = (Ok _, _) |- _ => rewrite modify_Ok in H; subst
  | H : @mret (stateM _ _) _ _ _ _ = (Ok _, _) |- _ => rewrite ret_Ok in H; destruct H as [_ ->]
  | u : unit |- _ => destruct u
  end;
  bool_hyps; cbn [run_lifecycle run_set_lifecycle run_set_failure run_push_approval
    step_lifecycle step_set_lifecycle step_set_failure step_push_approval] in *.

(** Unfold a successful tool-call step, method by method. *)
Ltac call_step_inv Hs :=
  inversion Hs as [? ? ? ? Hm|? ? ? ? Hm|? ? ? ? Hm|? ? ? ? ? Hm|? ? ? ? Hm|? ? ? ? Hm
    |? ? ? ? Hm|? ? ? ? ? Hm]; subst; clear Hs;
  unfold ToolCall_apply_policy_decision, ToolCall_transition, ToolCall_dispatch,
    ToolCall_dispatch_approved, ToolCall_succeed, ToolCall_fail, ToolCall_approve,
    ToolCall_reject_approval in Hm; method_inv Hm;
  try match goal with
  | H : match pd_verdict ?d with _ => _ end _ = _ |- _ =>
    destruct (pd_verdict d) eqn:?; method_inv H
  end.

Section refine.
Context `{PlatformLaws}.

(** Both records refine the abstract one, and their methods touch nothing
    else. *)
Lemma run_step_refines r r' :
  run_step r r' →
  exec_edge (run_view r) (run_view r') ∧
  run_id r' = run_id r ∧ run_task_id r' = run_task_id r ∧
  run_retry_of r' = run_retry_of r ∧
  run_workspace_may_be_modified r' = run_workspace_may_be_modified r.
Proof.
  intros Hs.
  inversion Hs as [? ? ? ? Hm|? ? ? ? Hm|? ? ? ? Hm|? ? ? ? ? Hm|? ? ? ? Hm]; subst;
    unfold Run_transition, Run_fail, Run_approve, Run_reject_approval,
      Run_resume_after_denial in Hm; method_inv Hm; (split; [|done]).
  - apply exec_move with to; [done|done|]. intros Hw ->.
    unfold run_state in *. rewrite !bool_decide_eq_true_2 in * by done. done.
  - by apply exec_fail.
  - by apply exec_approve.
  - by apply exec_reject.
  - by apply exec_resume.
Qed.

Lemma step_step_refines s s' :
  step_step s s' →
  exec_edge (step_view s) (step_view s') ∧
  step_id s' = step_id s ∧ step_run_id s' = step_run_id s ∧
  step_ordinal s' = step_ordinal s ∧ step_title s' = step_title s.
Proof.
  intros Hs.
  inversion Hs as [? ? ? ? Hm|? ? ? ? Hm|? ? ? ? Hm|? ? ? ? ? Hm]; subst;
    unfold Step_transition, Step_fail, Step_approve, Step_reject_approval in Hm;
    method_inv Hm; (split; [|done]).
  - apply exec_move with to; [done|done|]. intros Hw ->.
    unfold step_state in *. rewrite !bool_decide_eq_true_2 in * by done. done.
  - by apply exec_fail.
  - by apply exec_approve.
  - by apply exec_reject.
Qed.

(** ** What every edge does *)

Lemma moved_inv {S} `{LifecycleLaws S} (l : Lifecycle S) to l' :
  moved l to l' →
  (lc_state l, to) ∈ transitions ∧ lc_state l' = to ∧
  lc_revision l' = (lc_revision l + 1)%N ∧ (lc_revision l' ≤ U64_MAX)%N ∧
  lc_created_at l' = lc_created_at l ∧
  ts_leb (lc_updated_at l) (lc_updated_at l') = true ∧
  (is_some (lc_started_at l) = true → lc_started_at l' = lc_started_at l) ∧
  (lifecycle_wf l → lifecycle_wf l').
Proof.
  intros (record & at_ & Hm).
  assert (lifecycle_wf l → lifecycle_wf l') as Hwf
    by (intros; by eapply Lifecycle_transition_wf).
  transition_inv Hm. subst l'. cbn. split_and!; try done.
  - apply ts_max_ge_r.
  - intros ->. by rewrite andb_false_r.
Qed.

Lemma exec_edge_moved v v' :
  exec_edge v v' → ∃ to, moved (ev_lifecycle v) to (ev_lifecycle v').
Proof. inversion 1; cbn; eauto. Qed.

Lemma exec_edge_live v v' :
  exec_edge v v' → ExecutionState_is_terminal (lc_state (ev_lifecycle v)) = false.
Proof.
  intros [to (Hedge & _)%moved_inv]%exec_edge_moved.
  by apply execution_edge_live in Hedge.
Qed.

Lemma exec_edge_appends v v' :
  exec_edge v v' → ev_approvals v `prefix_of` ev_approvals v'.
Proof. inversion 1; cbn; by (reflexivity || eexists). Qed.

(** ** The invariant of an execution record *)

Definition is_denial (a : Approval) : bool := bool_decide (decision a = OutcomeDenied).

(** An entry of an approval history, written while the record was at
    [updated]. *)
Definition approval_in_range (created updated : OffsetDateTime) (a : Approval) : Prop :=
  is_utc (decided_at a) = true ∧ ts_leb created (decided_at a) = true ∧
  ts_leb (decided_at a) updated = true ∧ is_blank (decided_by a) = false.

Definition decided_before (a b : Approval) : Prop :=
  ts_leb (decided_at a) (decided_at b) = true.

(** Every answer costs two revisions: one to ask, one to resume. *)
Definition revisions_spent (s : ExecutionState) (answers : nat) : N :=
  match s with
  | Queued => 0
  | WaitingForApproval => 2 * N.of_nat answers + 2
  | _ => 2 * N.of_nat answers + 1
  end.

Record exec_wf (v : ExecView) : Prop := {
  exec_lifecycle_wf : lifecycle_wf (ev_lifecycle v);
  exec_revision_u64 : (lc_revision (ev_lifecycle v) ≤ U64_MAX)%N;
  exec_failure_iff :
    is_some (ev_failure v) = bool_decide (lc_state (ev_lifecycle v) = ExecFailed);
  exec_initial_unanswered : lc_state (ev_lifecycle v) = Queued → ev_approvals v = [];
  exec_started : ev_approvals v ≠ [] → is_some (lc_started_at (ev_lifecycle v)) = true;
  exec_revisions : (revisions_spent (lc_state (ev_lifecycle v)) (length (ev_approvals v))
    ≤ lc_revision (ev_lifecycle v))%N;
  exec_in_range : Forall (approval_in_range (lc_created_at (ev_lifecycle v))
    (lc_updated_at (ev_lifecycle v))) (ev_approvals v);
  exec_ordered : StronglySorted decided_before (ev_approvals v);
  exec_denial_last : ∀ pre a, ev_approvals v = pre ++ [a] →
    Forall (λ b, is_denial b = false) pre ∧
    (is_denial a = true → lc_state (ev_lifecycle v) = ExecFailed);
}.

Lemma exec_wf_new at_ : exec_wf (MkExecView (Lifecycle_new at_) None []).
Proof.
  split; cbn; try done.
  - apply Lifecycle_new_wf.
  - constructor.
  - by intros [].
Qed.

(** While a record is live no recorded answer is a denial. *)
Lemma exec_live_approved v :
  exec_wf v → lc_state (ev_lifecycle v) ≠ ExecFailed →
  Forall (λ b, is_denial b = false) (ev_approvals v).
Proof.
  intros Hwf Hst. destruct (ev_approvals v) as [|a l _] eqn:E using rev_ind; [done|].
  destruct (exec_denial_last _ Hwf _ _ E) as [Hpre Hlast].
  apply Forall_app; split; [done|]. constructor; [|done].
  destruct (is_denial a); [|done]. by destruct Hst; apply Hlast.
Qed.

Lemma in_range_later created updated updated' a :
  ts_leb updated updated' = true → Forall (approval_in_range created updated) a →
  Forall (approval_in_range created updated') a.
Proof.
  intros ? Ha. eapply Forall_impl; [exact Ha|]. intros x (?&?&?&?).
  split_and!; try done. by eapply ts_leb_trans.
Qed.

Lemma spent_by_edge from to answers rev :
  (from, to) ∈ EXECUTION_TRANSITIONS → (from = Queued → answers = 0) →
  (revisions_spent from answers ≤ rev)%N → (revisions_spent to answers ≤ rev + 1)%N.
Proof.
  intros Hedge Hq. revert Hq.
  repeat (apply elem_of_cons in Hedge as [[= -> ->]|Hedge]; [cbn; intros; lia || naive_solver lia|]).
  by apply elem_of_nil in Hedge.
Qed.

Lemma exec_wf_moved l f a to l' f' :
  exec_wf (MkExecView l f a) → moved l to l' →
  is_some f' = bool_decide (to = ExecFailed) → exec_wf (MkExecView l' f' a).
Proof.
  intros Hwf Hm Hf'. pose proof (moved_inv _ _ _ Hm) as (Hedge & Hto & Hrev & Hmax & Hcr & Hup & Hst & Hl).
  assert (lc_state l ≠ ExecFailed) as Hnf.
  { intros Hs. rewrite Hs in Hedge. by apply execution_edge_live in Hedge. }
  pose proof (exec_live_approved _ Hwf Hnf) as Hok.
  destruct Hwf as [? ? ? Hini Hsome Hspent Hrange Hord _]; cbn in *.
  split; cbn; try done; rewrite ?Hto.
  - by apply Hl.
  - done.
  - intros ->. by apply execution_edge_moved in Hedge.
  - intros Ha. specialize (Hsome Ha). by rewrite Hst.
  - rewrite Hrev. apply spent_by_edge with (lc_state l); [done| |done].
    intros Hq. by rewrite Hini.
  - rewrite Hcr. by eapply in_range_later.
  - intros pre x ->. rewrite Forall_app, Forall_singleton in Hok. destruct Hok as [? Hx].
    split; [done|]. by rewrite Hx.
Qed.

Lemma exec_wf_answered l f a to l' f' who outcome :
  exec_wf (MkExecView l f a) → lc_state l = WaitingForApproval → is_blank who = false →
  moved l to l' → to ≠ WaitingForApproval →
  is_some f' = bool_decide (to = ExecFailed) → (outcome = OutcomeDenied → to = ExecFailed) →
  exec_wf (MkExecView l' f' (a ++ [Approval_new who outcome (lc_updated_at l')])).
Proof.
  intros Hwf Hwait Hwho Hm Hnw Hf' Hout.
  pose proof (moved_inv _ _ _ Hm) as (Hedge & Hto & Hrev & Hmax & Hcr & Hup & Hst & Hl).
  pose proof (exec_live_approved _ Hwf) as Hok. cbn in Hok. rewrite Hwait in Hok.
  specialize (Hok ltac:(done)).
  destruct Hwf as [Hlwf ? ? Hini Hsome Hspent Hrange Hord _]; cbn in *.
  specialize (Hl Hlwf). rewrite Hwait in *.
  assert (lc_state l' ≠ Queued) as Hnq.
  { rewrite Hto. intros ->. by apply execution_edge_moved in Hedge. }
  assert (is_some (lc_started_at l) = true) as Hstarted.
  { apply (wf_requires _ Hlwf). by rewrite Hwait. }
  split; cbn; try done; rewrite ?Hto.
  - done.
  - intros _. by rewrite Hst.
  - rewrite length_app, Hrev. cbn [length]. destruct to; cbn in *; try done; lia.
  - apply Forall_app. split.
    + rewrite Hcr. by eapply in_range_later.
    + constructor; [|done]. split_and!; cbn; [apply to_utc_is_utc| |apply to_utc_le|done].
      eapply ts_leb_trans; [apply (wf_updated _ Hl)|apply to_utc_ge].
  - apply StronglySorted_app_2; [|done|by repeat constructor].
    intros x y Hx ->%list_elem_of_singleton. unfold decided_before. cbn.
    rewrite Forall_forall in Hrange. destruct (Hrange _ Hx) as (_ & _ & Hle & _).
    eapply ts_leb_trans; [exact Hle|]. eapply ts_leb_trans; [exact Hup|apply to_utc_ge].
  - intros pre x [<- <-]%app_inj_tail. split; [done|].
    unfold is_denial. cbn. by rewrite bool_decide_eq_true.
Qed.

Lemma exec_edge_wf v v' : exec_wf v → exec_edge v v' → exec_wf v'.
Proof.
  intros Hwf Hs. pose proof (exec_failure_iff _ Hwf) as Hf.
  assert (lc_state (ev_lifecycle v) ≠ ExecFailed) as Hnf.
  { intros Ht. by apply exec_edge_live in Hs; rewrite Ht in Hs. }
  rewrite bool_decide_eq_false_2 in Hf by done.
  destruct Hs; cbn in *.
  - eapply exec_wf_moved; [done..|]. by rewrite bool_decide_eq_false_2.
  - by eapply exec_wf_moved.
  - by eapply exec_wf_answered.
  - by eapply exec_wf_answered.
  - by eapply exec_wf_moved.
Qed.

(** ** Reachable runs and steps *)

Lemma run_reachable_wf id task created r :
  rtc run_step (Run_with_id id task created) r → exec_wf (run_view r).
Proof.
  apply rtc_invariant with (P := λ r, exec_wf (run_view r)); [|apply exec_wf_new].
  intros a b Hwf [Hs _]%run_step_refines. by eapply exec_edge_wf.
Qed.

(** A run moves only forward: a step is possible only from a live state
    along the transition table, costs exactly one revision, keeps the identity,
    the creation time and the retry provenance, never moves time back, never
    changes the start time once it is set, and only appends to the approval
    history.  A terminal run therefore never changes again. *)
Theorem run_step_forward r r' :
  run_step r r' →
  ExecutionState_is_terminal (run_state r) = false ∧
  (run_state r, run_state r') ∈ EXECUTION_TRANSITIONS ∧
  lc_revision (run_lifecycle r') = (lc_revision (run_lifecycle r) + 1)%N ∧
  run_id r' = run_id r ∧ run_retry_of r' = run_retry_of r ∧
  lc_created_at (run_lifecycle r') = lc_created_at (run_lifecycle r) ∧
  ts_leb (run_updated_at r) (run_updated_at r') = true ∧
  (is_some (lc_started_at (run_lifecycle r)) = true →
    lc_started_at (run_lifecycle r') = lc_started_at (run_lifecycle r)) ∧
  run_approvals r `prefix_of` run_approvals r'.
Proof.
  intros (Hs & Hid & _ & Hretry & _)%run_step_refines.
  pose proof (exec_edge_live _ _ Hs). pose proof (exec_edge_appends _ _ Hs).
  apply exec_edge_moved in Hs as [to (? & Hto & ? & ? & ? & ? & ? & _)%moved_inv].
  cbn in *. unfold run_state, run_updated_at. rewrite Hto. by split_and!.
Qed.

(** ** Tool calls *)

Definition call_terminal_failure (s : ToolCallState) : bool :=
  bool_decide (s = CallFailed) || bool_decide (s = CallDenied).

(** The answer a call may carry: one, given after it stopped being undecided. *)
Definition call_answer_wf (c : ToolCall) (a : Approval) : Prop :=
  approval_in_range (lc_created_at (call_lifecycle c)) (lc_updated_at (call_lifecycle c)) a ∧
  call_state c ≠ Pending ∧ call_state c ≠ AwaitingApproval ∧
  (2 ≤ lc_revision (call_lifecycle c))%N ∧
  (is_denial a = true ↔ call_state c = CallDenied).

Definition call_answers_wf (c : ToolCall) : Prop :=
  match call_approvals c with
  | [] => True
  | [a] => call_answer_wf c a
  | _ => False
  end.

Definition call_policy_wf (c : ToolCall) (d : PolicyDecision) : Prop :=
  PolicyDecision_validate d = Ok tt ∧
  match pd_verdict d with
  | Allow => True
  | Ask =>
    call_state c ≠ Pending ∧
    (is_some (lc_started_at (call_lifecycle c)) = true → call_approvals c ≠ [])
  | Deny =>
    call_state c = CallDenied ∧ call_approvals c = [] ∧
    call_failure c = Some (Failure_new "policy" (pd_reason d))
  end.

Record call_wf (c : ToolCall) : Prop := {
  call_lifecycle_wf : lifecycle_wf (call_lifecycle c);
  call_revision_u64 : (lc_revision (call_lifecycle c) ≤ U64_MAX)%N;
  call_failure_iff : is_some (call_failure c) = call_terminal_failure (call_state c);
  call_output_iff : is_some (call_output c) = bool_decide (call_state c = CallSucceeded);
  call_answered : call_answers_wf c;
  call_decided : ∀ d, call_policy_decision c = Some d → call_policy_wf c d;
}.

Lemma call_wf_new id step tool version input created :
  call_wf (ToolCall_with_id id step tool version input created).
Proof. split; cbn; try done. apply Lifecycle_new_wf. Qed.

Lemma tool_call_edge_cases from to :
  (from, to) ∈ TOOL_CALL_TRANSITIONS →
  (from = Pending ∧ to ≠ Pending ∧ to ≠ CallSucceeded) ∨
  (from = AwaitingApproval ∧
    (to = CallRunning ∨ to = CallDenied ∨ to = CallCancelled ∨ to = CallInterrupted)) ∨
  (from = CallRunning ∧
    (to = CallSucceeded ∨ to = CallFailed ∨ to = CallCancelled ∨ to = CallInterrupted)).
Proof.
  intros Hedge.
  repeat (apply elem_of_cons in Hedge as [[= -> ->]|Hedge]; [naive_solver|]).
  by apply elem_of_nil in Hedge.
Qed.

(** A live call's answer, if it has one, is an approval and the call runs. *)
Lemma call_live_answer c a :
  call_wf c → ToolCallState_is_terminal (call_state c) = false →
  call_approvals c = [a] → call_state c = CallRunning ∧ is_denial a = false.
Proof.
  intros Hwf Hlive Ha. pose proof (call_answered _ Hwf) as Han.
  unfold call_answers_wf in Han. rewrite Ha in Han.
  destruct Han as (_ & ? & ? & _ & Hd).
  destruct (call_state c), (is_denial a); naive_solver.
Qed.

Lemma call_live_not_denied c d :
  call_wf c → ToolCallState_is_terminal (call_state c) = false →
  call_policy_decision c = Some d → pd_verdict d ≠ Deny.
Proof.
  intros Hwf Hlive Hd Hv. destruct (call_decided _ Hwf _ Hd) as [_ Hp].
  rewrite Hv in Hp. destruct Hp as [Hs _]. by rewrite Hs in Hlive.
Qed.

Lemma started_moved {S} `{LifecycleLaws S} (l : Lifecycle S) to l' :
  moved l to l' → is_some (lc_started_at l') = true →
  is_some (lc_started_at l) = true ∨ to = RUNNING.
Proof.
  intros (? & ? & Hm). transition_inv Hm. subst. cbn.
  case_bool_decide; [by right|by left].
Qed.

(** A move that records no answer. *)
Lemma call_wf_moved c to l' version f' o' :
  call_wf c → moved (call_lifecycle c) to l' → to ≠ CallDenied →
  (call_state c = AwaitingApproval → to ≠ CallRunning) →
  is_some f' = bool_decide (to = CallFailed) →
  is_some o' = bool_decide (to = CallSucceeded) →
  call_wf (MkToolCall (call_id c) (call_run_id c) (call_step_id c) (call_tool_id c)
    version (call_input c) l' f' o' (call_approvals c) (call_policy_decision c)).
Proof.
  intros Hwf Hm Hnd Hgate Hf' Ho'.
  pose proof (moved_inv _ _ _ Hm) as (Hedge & Hto & Hrev & Hmax & Hcr & Hup & _ & Hl).
  assert (ToolCallState_is_terminal (call_state c) = false) as Hlive
    by by apply tool_call_edge_live in Hedge.
  pose proof (tool_call_edge_moved _ _ Hedge) as Hnp.
  pose proof (tool_call_edge_cases _ _ Hedge) as Hcases. fold (call_state c) in Hcases.
  split; unfold call_state; cbn; rewrite ?Hto; try done.
  - apply Hl, Hwf.
  - rewrite Hf'. unfold call_terminal_failure. by destruct to.
  - unfold call_answers_wf. cbn. pose proof (call_answered _ Hwf) as Han.
    unfold call_answers_wf in Han. destruct (call_approvals c) as [|a []] eqn:Ha; [done| |done].
    destruct (call_live_answer _ _ Hwf Hlive Ha) as [Hrun Hna].
    destruct Han as (Hr & _ & _ & Hrev2 & _).
    unfold call_answer_wf, call_state. cbn. rewrite Hto, Hcr. split_and!.
    + eapply Forall_singleton, in_range_later; [exact Hup|by apply Forall_singleton].
    + done.
    + intros ->. rewrite Hrun in Hcases. naive_solver.
    + lia.
    + by rewrite Hna.
  - intros d Hd. pose proof (call_live_not_denied _ _ Hwf Hlive Hd) as Hv.
    destruct (call_decided _ Hwf _ Hd) as [Hval Hp]. split; [done|].
    unfold call_state; cbn. rewrite Hto.
    destruct (pd_verdict d); [done| |done]. destruct Hp as [Hs Happ].
    split; [done|]. intros Hst. apply (started_moved _ _ _ Hm) in Hst as [?|Hr]; [auto|].
    cbn in Hr. by destruct Hcases as [[? _]|[[? _]|[_ [?|[?|[?|?]]]]]];
      [|destruct Hgate|congruence..].
Qed.

(** A move that records one answer: from [AwaitingApproval] only. *)
Lemma call_wf_answered c to l' version f' who outcome :
  call_wf c → call_state c = AwaitingApproval → is_blank who = false →
  moved (call_lifecycle c) to l' →
  to = CallRunning ∧ outcome = OutcomeApproved ∨ to = CallDenied ∧ outcome = OutcomeDenied →
  is_some f' = bool_decide (to = CallDenied) →
  call_wf (MkToolCall (call_id c) (call_run_id c) (call_step_id c) (call_tool_id c)
    version (call_input c) l' f' (call_output c)
    (call_approvals c ++ [Approval_new who outcome (lc_updated_at l')])
    (call_policy_decision c)).
Proof.
  intros Hwf Hs Hwho Hm Hout Hf'.
  pose proof (moved_inv _ _ _ Hm) as (Hedge & Hto & Hrev & Hmax & Hcr & Hup & _ & Hl).
  specialize (Hl (call_lifecycle_wf _ Hwf)).
  assert (call_approvals c = []) as Hnone.
  { pose proof (call_answered _ Hwf) as Han. unfold call_answers_wf in Han.
    destruct (call_approvals c) as [|a []]; [done| |done]. by destruct Han as (_ & _ & ? & _). }
  assert (1 ≤ lc_revision (call_lifecycle c))%N as Hone.
  { pose proof (wf_revision _ (call_lifecycle_wf _ Hwf)) as Hmin.
    unfold call_state in Hs. by rewrite Hs in Hmin. }
  rewrite Hnone. cbn [app]. split; unfold call_state; cbn; rewrite ?Hto; try done.
  - rewrite Hf'. unfold call_terminal_failure. by destruct Hout as [[-> ->]|[-> ->]].
  - rewrite (call_output_iff _ Hwf), Hs. by destruct Hout as [[-> ->]|[-> ->]].
  - unfold call_answers_wf, call_answer_wf, call_state, is_denial; cbn.
    rewrite Hto, Hrev, bool_decide_eq_true. split_and!.
    + split_and!; cbn; [apply to_utc_is_utc| |apply to_utc_le|done].
      eapply ts_leb_trans; [apply (wf_updated _ Hl)|apply to_utc_ge].
    + by destruct Hout as [[-> ->]|[-> ->]].
    + by destruct Hout as [[-> ->]|[-> ->]].
    + lia.
    + by destruct Hout as [[-> ->]|[-> ->]].
  - intros d Hd.
    pose proof (call_live_not_denied c d Hwf ltac:(by rewrite Hs) Hd) as Hv.
    destruct (call_decided _ Hwf _ Hd) as [Hval Hp]. split; [done|].
    unfold call_state; cbn. rewrite Hto.
    destruct (pd_verdict d); [done| |done]. split; [by destruct Hout as [[-> ->]|[-> ->]]|done].
Qed.

(** The policy verdict: [Ask] parks, [Deny] terminates. *)
Lemma call_wf_governed c to l' f' d :
  call_wf c → call_state c = Pending → PolicyDecision_validate d = Ok tt →
  moved (call_lifecycle c) to l' →
  pd_verdict d = Ask ∧ to = AwaitingApproval ∧ f' = call_failure c ∨
  pd_verdict d = Deny ∧ to = CallDenied ∧ f' = Some (Failure_new "policy" (pd_reason d)) →
  call_wf (MkToolCall (call_id c) (call_run_id c) (call_step_id c) (call_tool_id c)
    (call_tool_version c) (call_input c) l' f' (call_output c)
    (call_approvals c) (Some d)).
Proof.
  intros Hwf Hs Hval Hm Hout.
  pose proof (moved_inv _ _ _ Hm) as (Hedge & Hto & Hrev & Hmax & Hcr & Hup & _ & Hl).
  specialize (Hl (call_lifecycle_wf _ Hwf)).
  assert (call_approvals c = []) as Hnone.
  { pose proof (call_answered _ Hwf) as Han. unfold call_answers_wf in Han.
    destruct (call_approvals c) as [|a []]; [done| |done]. by destruct Han as (_ & ? & _). }
  pose proof (call_failure_iff _ Hwf) as Hf. rewrite Hs in Hf.
  rewrite Hnone. split; unfold call_state; cbn; rewrite ?Hto; try done.
  - destruct Hout as [(_ & -> & ->)|(_ & -> & ->)]; [by rewrite Hf|done].
  - rewrite (call_output_iff _ Hwf), Hs. by destruct Hout as [(_ & -> & _)|(_ & -> & _)].
  - intros ? [= <-]. split; [done|]. unfold call_state; cbn. rewrite Hto.
    destruct Hout as [(-> & -> & ->)|(-> & -> & ->)]; [|done]. split; [done|].
    rewrite (wf_forbids _ Hl); [done|]. by rewrite Hto.
Qed.

Lemma map_err_Ok {E F A} (f : E → F) (r : result E A) a : map_err f r = Ok a ↔ r = Ok a.
Proof. destruct r; cbn; naive_solver. Qed.

(** Recording the verdict [Allow] moves nothing. *)
Lemma call_wf_allowed c d :
  call_wf c → PolicyDecision_validate d = Ok tt → pd_verdict d = Allow →
  call_wf (call_set_policy_decision d c).
Proof.
  intros [] Hval Hv. split; cbn; try done.
  intros ? [= <-]. split; [done|]. by rewrite Hv.
Qed.

Lemma live_detail c :
  call_wf c → ToolCallState_is_terminal (call_state c) = false →
  is_some (call_failure c) = false ∧ is_some (call_output c) = false.
Proof.
  intros Hwf Hlive. rewrite (call_failure_iff _ Hwf), (call_output_iff _ Hwf).
  by destruct (call_state c).
Qed.

Lemma policy_step_wf d at_ c c' :
  call_wf c → ToolCall_apply_policy_decision d at_ c = (Ok tt, c') → call_wf c'.
Proof.
  intros Hwf Hm. unfold ToolCall_apply_policy_decision in Hm. method_inv Hm.
  match goal with H : map_err _ _ = _ |- _ => rewrite map_err_Ok in H end.
  match goal with H : _ _ = (Ok _, ?c') |- _ => destruct (pd_verdict d) eqn:Hv; method_inv H end.
  - by apply call_wf_allowed.
  - apply call_wf_governed with (c := c) (to := AwaitingApproval); try done. by left.
  - apply call_wf_governed with (c := c) (to := CallDenied); try done. by right.
Qed.

Lemma moved_live c to l' :
  moved (call_lifecycle c) to l' → ToolCallState_is_terminal (call_state c) = false.
Proof. by intros [?%tool_call_edge_live _]%moved_inv. Qed.

Lemma call_step_wf c c' : call_wf c → call_step c c' → call_wf c'.
Proof.
  intros Hwf Hs.
  inversion Hs as [? ? ? ? Hm|? ? ? ? Hm|? ? ? ? Hm|? ? ? ? ? Hm|? ? ? ? Hm|? ? ? ? Hm
    |? ? ? ? Hm|? ? ? ? ? Hm]; subst; [by eapply policy_step_wf|..];
    unfold ToolCall_transition, ToolCall_dispatch,
      ToolCall_dispatch_approved, ToolCall_succeed, ToolCall_fail, ToolCall_approve,
      ToolCall_reject_approval in Hm; method_inv Hm;
    (destruct (live_detail _ Hwf) as [Hf Ho]; [by eapply moved_live|]).
  - apply call_wf_moved with (c := c) (to := to); try done.
    + by intros Ha ->; rewrite Ha in *.
    + rewrite Hf. by rewrite bool_decide_eq_false_2.
    + rewrite Ho. by rewrite bool_decide_eq_false_2.
  - apply call_wf_moved with (c := c) (to := CallRunning); try done. congruence.
  - apply call_wf_answered with (c := c) (to := CallRunning); try done. by left.
  - by apply call_wf_moved with (c := c) (to := CallSucceeded).
  - by apply call_wf_moved with (c := c) (to := CallFailed).
  - apply call_wf_answered with (c := c) (to := CallRunning); try done. by left.
  - apply call_wf_answered with (c := c) (to := CallDenied); try done. by right.
Qed.

Lemma call_reachable_wf id step tool version input created c :
  rtc call_step (ToolCall_with_id id step tool version input created) c → call_wf c.
Proof.
  apply rtc_invariant; [intros; by eapply call_step_wf|apply call_wf_new].
Qed.

(** A call that policy said to ask about starts only after exactly one
    recorded answer, which is an approval by a named decider: no sequence of
    operations reaches a start time any other way. *)
Theorem ask_starts_only_approved id step tool version input created c d t :
  rtc call_step (ToolCall_with_id id step tool version input created) c →
  call_policy_decision c = Some d → pd_verdict d = Ask →
  lc_started_at (call_lifecycle c) = Some t →
  ∃ a, call_approvals c = [a] ∧ decision a = OutcomeApproved ∧
       is_blank (decided_by a) = false.
Proof.
  intros Hwf%call_reachable_wf Hd Hv Ht.
  destruct (call_decided _ Hwf _ Hd) as [_ Hp]. rewrite Hv, Ht in Hp.
  destruct Hp as [_ Happ]. specialize (Happ eq_refl).
  pose proof (call_answered _ Hwf) as Han. unfold call_answers_wf in Han.
  destruct (call_approvals c) as [|a []]; [done| |done]. exists a.
  destruct Han as ((_ & _ & _ & Hwho) & _ & _ & _ & Hden). split_and!; [done| |done].
  destruct (decision a) eqn:Ha; [done|].
  assert (call_state c = CallDenied) as Hs.
  { apply Hden. unfold is_denial. by rewrite Ha. }
  rewrite (wf_forbids _ (call_lifecycle_wf _ Hwf)) in Ht; [done|].
  unfold call_state in Hs. by rewrite Hs.
Qed.

(** A call that policy denied is terminated as denied, carries the policy's
    own reason as its failure, never started, has no output and consumed no
    approval. *)
Theorem deny_never_starts id step tool version input created c d :
  rtc call_step (ToolCall_with_id id step tool version input created) c →
  call_policy_decision c = Some d → pd_verdict d = Deny →
  call_state c = CallDenied ∧ lc_started_at (call_lifecycle c) = None ∧
  call_output c = None ∧ call_approvals c = [] ∧
  call_failure c = Some (Failure_new "policy" (pd_reason d)).
Proof.
  intros Hwf%call_reachable_wf Hd Hv.
  destruct (call_decided _ Hwf _ Hd) as [_ Hp]. rewrite Hv in Hp.
  destruct Hp as (Hs & Ha & Hf). split_and!; try done.
  - apply (wf_forbids _ (call_lifecycle_wf _ Hwf)). unfold call_state in Hs. by rewrite Hs.
  - apply is_some_false. by rewrite (call_output_iff _ Hwf), Hs.
Qed.

Lemma call_step_frame c c' :
  call_step c c' →
  call_id c' = call_id c ∧ call_run_id c' = call_run_id c ∧
  call_step_id c' = call_step_id c ∧ call_tool_id c' = call_tool_id c ∧
  call_input c' = call_input c ∧ call_approvals c `prefix_of` call_approvals c'.
Proof.
  intros Hs. call_step_inv Hs; cbn; split_and!; try done; by (reflexivity || eexists).
Qed.

Lemma call_step_pins c c' :
  call_step c c' → call_tool_version c ≠ "" → call_tool_version c' = call_tool_version c.
Proof.
  intros Hs Hv. call_step_inv Hs; cbn; try done; unfold version_agrees in *;
    rewrite bool_decide_eq_false_2 in * by done; cbn in *; by bool_hyps.
Qed.

Lemma call_step_keeps_decision c c' d :
  call_step c c' → call_policy_decision c = Some d → call_policy_decision c' = Some d.
Proof. intros Hs Hd. call_step_inv Hs; cbn; try done; by rewrite Hd in *. Qed.

Lemma call_step_moves c c' :
  call_step c c' →
  call_lifecycle c' = call_lifecycle c ∧ call_state c = Pending ∧
     (∃ d, call_policy_decision c' = Some d ∧ pd_verdict d = Allow) ∨
  ∃ to, moved (call_lifecycle c) to (call_lifecycle c').
Proof. intros Hs. call_step_inv Hs; cbn; (by right; eauto) || (left; eauto 6). Qed.

(** A tool call's own history: a step either records the verdict [Allow]
    and moves nothing, or follows one edge of the transition table at the price
    of one revision; it never renames the call, never replaces a recorded tool
    version, never rewrites a policy decision and only appends approvals. *)
Theorem call_step_forward c c' :
  call_step c c' →
  (call_lifecycle c' = call_lifecycle c ∧ call_state c = Pending ∧
     (∃ d, call_policy_decision c' = Some d ∧ pd_verdict d = Allow) ∨
   (call_state c, call_state c') ∈ TOOL_CALL_TRANSITIONS ∧
     lc_revision (call_lifecycle c') = (lc_revision (call_lifecycle c) + 1)%N ∧
     ts_leb (call_updated_at c) (call_updated_at c') = true) ∧
  call_id c' = call_id c ∧ call_run_id c' = call_run_id c ∧
  call_step_id c' = call_step_id c ∧ call_tool_id c' = call_tool_id c ∧
  call_input c' = call_input c ∧
  (call_tool_version c ≠ "" → call_tool_version c' = call_tool_version c) ∧
  (∀ d, call_policy_decision c = Some d → call_policy_decision c' = Some d) ∧
  call_approvals c `prefix_of` call_approvals c'.
Proof.
  intros Hs. destruct (call_step_frame _ _ Hs) as (? & ? & ? & ? & ? & ?).
  pose proof (call_step_pins _ _ Hs). pose proof (λ d, call_step_keeps_decision _ _ d Hs).
  split_and!; try done.
  destruct (call_step_moves _ _ Hs) as [?|[to Hm]]; [by left|right].
  apply moved_inv in Hm as (? & Hto & ? & _ & _ & ? & _).
  unfold call_state. by rewrite Hto.
Qed.
End refine.

(** ** Concrete records *)

Definition demo_failure : Failure := Failure_new "tool" "exit status 1".

Definition demo_run : Run := Run_retrying_with_id (MkRunId (demo_uuid 2)) (MkTaskId (demo_uuid 1)) (MkRunId (demo_uuid 1))
  true (demo_at 0).

(** A run that asked once, was approved, asked again and was refused. *)
Definition demo_history : Run :=
  after (Run_reject_approval "user:two" demo_failure (demo_at 5))
    (after (Run_transition WaitingForApproval (demo_at 4))
      (after (Run_approve "user:one" (demo_at 3))
        (after (Run_transition WaitingForApproval (demo_at 2))
          (after (Run_transition ExecRunning (demo_at 1)) demo_run)))).

Lemma demo_history_reachable : rtc run_step demo_run demo_history.
Proof.
  unfold demo_history.
  eapply rtc_l; [apply (run_does_transition _ ExecRunning (demo_at 1)), after_Ok; by vm_compute|].
  eapply rtc_l; [apply (run_does_transition _ WaitingForApproval (demo_at 2)), after_Ok; by vm_compute|].
  eapply rtc_l; [apply (run_does_approve _ "user:one" (demo_at 3)), after_Ok; by vm_compute|].
  eapply rtc_l; [apply (run_does_transition _ WaitingForApproval (demo_at 4)), after_Ok; by vm_compute|].
  eapply rtc_l; [apply (run_does_reject _ "user:two" demo_failure (demo_at 5)), after_Ok; by vm_compute|].
  apply rtc_refl.
Qed.

Definition demo_step : Step :=
  Step_with_id (MkStepId (demo_uuid 3)) (MkRunId (demo_uuid 2)) 0%N "build" (demo_at 0).

Definition demo_call : ToolCall :=
  ToolCall_with_id (MkToolCallId (demo_uuid 4)) demo_step "fs.read" "1.0.0" (demo_value "{}") (demo_at 0).

Definition demo_decision (v : PolicyVerdict) : PolicyDecision :=
  PolicyDecision_new v "built-in" BuiltIn false.

(** A call that was asked about, approved, and succeeded. *)
Definition demo_answered : ToolCall :=
  after (ToolCall_succeed (demo_value "ok") (demo_at 3))
    (after (ToolCall_dispatch_approved "reviewer" "1.0.0" (demo_at 2))
      (after (ToolCall_apply_policy_decision (demo_decision Ask) (demo_at 1)) demo_call)).

Definition demo_denied : ToolCall :=
  after (ToolCall_apply_policy_decision (demo_decision Deny) (demo_at 1)) demo_call.

Lemma demo_answered_reachable : rtc call_step demo_call demo_answered.
Proof.
  unfold demo_answered.
  eapply rtc_l; [apply (call_does_policy _ (demo_decision Ask) (demo_at 1)), after_Ok; by vm_compute|].
  eapply rtc_l; [apply (call_does_dispatch_approved _ "reviewer" "1.0.0" (demo_at 2)), after_Ok;
    by vm_compute|].
  apply rtc_once. apply (call_does_succeed _ (demo_value "ok") (demo_at 3)), after_Ok; by vm_compute.
Qed.

Lemma demo_denied_reachable : rtc call_step demo_call demo_denied.
Proof.
  unfold demo_denied. apply rtc_once.
  apply (call_does_policy _ (demo_decision Deny) (demo_at 1)), after_Ok; by vm_compute.
Qed.

Lemma run_step_forward_witness :
  run_id (after (Run_transition ExecRunning (demo_at 1)) demo_run) = run_id demo_run.
Proof.
  apply (run_step_forward demo_run).
  apply (run_does_transition _ ExecRunning (demo_at 1)), after_Ok; by vm_compute.
Defined.

Lemma call_step_forward_witness :
  call_tool_version (after (ToolCall_dispatch "1.0.0" (demo_at 1)) demo_call) = "1.0.0".
Proof.
  apply (call_step_forward demo_call); [|by vm_compute].
  apply (call_does_dispatch _ "1.0.0" (demo_at 1)), after_Ok; by vm_compute.
Defined.

Lemma ask_starts_only_approved_witness :
  ∃ a, call_approvals demo_answered = [a] ∧ decision a = OutcomeApproved ∧
       is_blank (decided_by a) = false.
Proof.
  apply (ask_starts_only_approved _ _ _ _ _ _ demo_answered (demo_decision Ask) (demo_at 2)
    demo_answered_reachable); by vm_compute.
Defined.

Lemma deny_never_starts_witness : call_state demo_denied = CallDenied.
Proof.
  apply (deny_never_starts _ _ _ _ _ _ demo_denied (demo_decision Deny)
    demo_denied_reachable); by vm_compute.
Defined.
