(* ===== verification/Wire.v ===== *)
(** * The durable record format

    Models [src/crates/harkness-runtime/src/domain/wire.rs]: the wire records,
    the encoders ([From<&Run> for RunWireRef] and its siblings) and the checked
    decoders ([TryFrom<RunWire> for Run] ...).  The JSON text itself is [serde]'s;
    a wire record and its borrowing twin have the same fields and are one type
    here. *)

From S2P Require Import Prelude Digest Tool External Trust Policy Lifecycle Domain Records.
From Stdlib Require Import Sorting.Sorted.
From stdpp Require Import base decidable list strings relations sorting.

Definition RUNTIME_RECORD_SCHEMA_VERSION : N := 4.
Definition MINIMUM_RUNTIME_RECORD_SCHEMA_VERSION : N := 1.

Definition validate_schema_version (record : string) (found : N)
    : result RunDomainError unit :=
  if (found <? MINIMUM_RUNTIME_RECORD_SCHEMA_VERSION)%N
  then Err (SchemaVersionTooOld record found MINIMUM_RUNTIME_RECORD_SCHEMA_VERSION)
  else if (RUNTIME_RECORD_SCHEMA_VERSION <? found)%N
  then Err (SchemaVersionTooNew record found RUNTIME_RECORD_SCHEMA_VERSION)
  else Ok tt.

Definition validate_failure (record : string) (required : bool) (failure : option Failure)
    : result RunDomainError unit :=
  match required, failure with
  | true, None =>
    Err (invalid_lifecycle record "failed or denied states require failure detail")
  | false, Some _ =>
    Err (invalid_lifecycle record
           "failure detail is permitted only in failed or denied states")
  | _, _ => Ok tt
  end.

Section wire.
Context `{Platform}.

Record TaskWire := MkTaskWire {
  tw_schema_version : N;
  tw_id : TaskId;
  tw_title : string;
  tw_workspace_root : string;
  tw_project_id : option ProjectId;
  tw_created_at : OffsetDateTime;
}.

Record RunWire := MkRunWire {
  rw_schema_version : N;
  rw_id : RunId;
  rw_task_id : TaskId;
  rw_state : ExecutionState;
  rw_revision : N;
  rw_created_at : OffsetDateTime;
  rw_updated_at : OffsetDateTime;
  rw_started_at : option OffsetDateTime;
  rw_finished_at : option OffsetDateTime;
  rw_failure : option Failure;
  rw_approvals : list Approval;
  rw_retry_of : option RunId;
  rw_workspace_may_be_modified : bool;
}.

Record StepWire := MkStepWire {
  sw_schema_version : N;
  sw_id : StepId;
  sw_run_id : RunId;
  sw_ordinal : N;
  sw_title : string;
  sw_state : ExecutionState;
  sw_revision : N;
  sw_created_at : OffsetDateTime;
  sw_updated_at : OffsetDateTime;
  sw_started_at : option OffsetDateTime;
  sw_finished_at : option OffsetDateTime;
  sw_failure : option Failure;
  sw_approvals : list Approval;
}.

Record ToolCallWire := MkToolCallWire {
  cw_schema_version : N;
  cw_id : ToolCallId;
  cw_run_id : RunId;
  cw_step_id : StepId;
  cw_tool_id : string;
  cw_tool_version : string;
  cw_input : Value;
  cw_state : ToolCallState;
  cw_revision : N;
  cw_created_at : OffsetDateTime;
  cw_updated_at : OffsetDateTime;
  cw_started_at : option OffsetDateTime;
  cw_finished_at : option OffsetDateTime;
  cw_failure : option Failure;
  cw_output : option Value;
  cw_approvals : list Approval;
  cw_policy_decision : option PolicyDecision;
}.

(** ** Encoders *)

Definition Task_to_wire (t : Task) : TaskWire :=
  MkTaskWire RUNTIME_RECORD_SCHEMA_VERSION (task_id t) (task_title t)
    (task_workspace_root t) (task_project_id t) (task_created_at t).

Definition Run_to_wire (r : Run) : RunWire :=
  let l := run_lifecycle r in
  MkRunWire RUNTIME_RECORD_SCHEMA_VERSION (run_id r) (run_task_id r) (lc_state l)
    (lc_revision l) (lc_created_at l) (lc_updated_at l) (lc_started_at l)
    (lc_finished_at l) (run_failure r) (run_approvals r) (run_retry_of r)
    (run_workspace_may_be_modified r).

Definition Step_to_wire (s : Step) : StepWire :=
  let l := step_lifecycle s in
  MkStepWire RUNTIME_RECORD_SCHEMA_VERSION (step_id s) (step_run_id s) (step_ordinal s)
    (step_title s) (lc_state l) (lc_revision l) (lc_created_at l) (lc_updated_at l)
    (lc_started_at l) (lc_finished_at l) (step_failure s) (step_approvals s).

Definition ToolCall_to_wire (c : ToolCall) : ToolCallWire :=
  let l := call_lifecycle c in
  MkToolCallWire RUNTIME_RECORD_SCHEMA_VERSION (call_id c) (call_run_id c)
    (call_step_id c) (call_tool_id c) (call_tool_version c) (call_input c)
    (lc_state l) (lc_revision l) (lc_created_at l) (lc_updated_at l) (lc_started_at l)
    (lc_finished_at l) (call_failure c) (call_output c) (call_approvals c)
    (call_policy_decision c).

(** ** Checks shared by the decoders *)

Definition validate_output (state : ToolCallState) (output : option Value)
    : result RunDomainError unit :=
  match bool_decide (state = CallSucceeded), output with
  | true, None => Err (invalid_lifecycle "tool_call" "succeeded requires output")
  | false, Some _ =>
    Err (invalid_lifecycle "tool_call" "output is permitted only in succeeded")
  | _, _ => Ok tt
  end.

(** The private trait [ApprovalState]. *)
Class WireApprovalState (S : Type) := {
  is_initial : S → bool;
  allows_denied_approval : S → bool;
  validate_approval_shape : S → string → option OffsetDateTime → N → list Approval →
    result RunDomainError unit;
}.

Definition ExecutionState_approval_shape (_ : ExecutionState) (record : string)
    (started_at : option OffsetDateTime) (revision : N) (approvals : list Approval)
    : result RunDomainError unit :=
  match approvals with
  | [] => Ok tt
  | _ =>
    _ ← ensure (is_some started_at)
          (invalid_lifecycle record "execution approval history requires started_at");
    let unrepresentable :=
      invalid_lifecycle record "approval count cannot be represented by revision" in
    count ← from_option_err unrepresentable (u64_try_from (length approvals));
    minimum_revision ← from_option_err unrepresentable
      (value ← checked_mul_u64 count 2; checked_add_u64 value 1);
    ensure (minimum_revision <=? revision)%N
      (invalid_lifecycle record
         "execution approval history requires more lifecycle revisions")
  end.

#[export] Instance ExecutionState_approval_state : WireApprovalState ExecutionState := {
  is_initial s := bool_decide (s = Queued);
  allows_denied_approval s := bool_decide (s = ExecFailed);
  validate_approval_shape := ExecutionState_approval_shape;
}.

Definition ToolCallState_approval_shape (self : ToolCallState) (record : string)
    (_ : option OffsetDateTime) (revision : N) (approvals : list Approval)
    : result RunDomainError unit :=
  _ ← ensure (length approvals <=? 1)%nat
        (invalid_lifecycle record "a tool call can carry at most one approval decision");
  match approvals with
  | [] => Ok tt
  | approval :: _ =>
    _ ← ensure (negb (bool_decide (self = Pending) || bool_decide (self = AwaitingApproval)))
          (invalid_lifecycle record
             "an undecided tool-call state cannot carry an approval decision");
    _ ← ensure (2 <=? revision)%N
          (invalid_lifecycle record
             "a tool-call approval decision requires two lifecycle revisions");
    ensure (negb (bool_decide (self = CallDenied)
                  && negb (bool_decide (decision approval = OutcomeDenied))))
      (invalid_lifecycle record "a denied tool call cannot carry an approved decision")
  end.

#[export] Instance ToolCallState_approval_state : WireApprovalState ToolCallState := {
  is_initial s := bool_decide (s = Pending);
  allows_denied_approval s := bool_decide (s = CallDenied);
  validate_approval_shape := ToolCallState_approval_shape;
}.

(** The loop of [validate_approvals]; it returns [denied_index]. *)
Fixpoint validate_entries (record : string) (created_at updated_at : OffsetDateTime)
    (index : nat) (previous : option OffsetDateTime) (denied_index : option nat)
    (approvals : list Approval) : result RunDomainError (option nat) :=
  match approvals with
  | [] => Ok denied_index
  | approval :: rest =>
    let at_ := decided_at approval in
    _ ← validate_utc record "approvals.decided_at" at_;
    _ ← ensure (negb (ts_ltb at_ created_at || ts_ltb updated_at at_))
          (invalid_timestamp record "approvals.decided_at"
             "must fall between created_at and updated_at");
    _ ← ensure (negb (is_some_and (ts_ltb at_) previous))
          (invalid_lifecycle record "approval decisions must be ordered by decided_at");
    _ ← ensure (negb (is_blank (decided_by approval)))
          (invalid_lifecycle record "approval decisions require decided_by");
    let denied := bool_decide (decision approval = OutcomeDenied) in
    _ ← ensure (negb (denied && is_some denied_index))
          (invalid_lifecycle record "approval history cannot contain multiple denials");
    validate_entries record created_at updated_at (S index) (Some at_)
      (if denied then Some index else denied_index) rest
  end.

Definition validate_approvals {S} `{WireApprovalState S} (record : string) (state : S)
    (created_at updated_at : OffsetDateTime) (started_at : option OffsetDateTime)
    (revision : N) (approvals : list Approval) : result RunDomainError unit :=
  _ ← ensure (negb (is_initial state && negb (bool_decide (approvals = []))))
        (invalid_lifecycle record "the initial state cannot carry approval decisions");
  _ ← validate_approval_shape state record started_at revision approvals;
  _ ← ensure (negb (is_some_and (λ count, revision <? count)%N
                      (u64_try_from (length approvals))))
        (invalid_lifecycle record "approval count cannot exceed revision");
  denied_index ← validate_entries record created_at updated_at 0 None None approvals;
  ensure (negb (is_some_and
                  (λ index, negb (index + 1 =? length approvals)%nat
                            || negb (allows_denied_approval state)) denied_index))
    (invalid_lifecycle record
       "a denied approval must be the final decision and terminal outcome").

Definition validate_policy_decision (state : ToolCallState) (failure : option Failure)
    (approvals : list Approval) (d : option PolicyDecision) : result RunDomainError unit :=
  match d with
  | None => Ok tt
  | Some d =>
    _ ← map_err (invalid_lifecycle "tool_call") (PolicyDecision_validate d);
    let consistent :=
      match pd_verdict d with
      | Allow => negb (bool_decide (state = AwaitingApproval) || bool_decide (state = CallDenied))
      | Ask => negb (bool_decide (state = Pending))
      | Deny =>
        bool_decide (state = CallDenied) && bool_decide (approvals = [])
        && is_some_and (λ f, bool_decide (failure_kind f = "policy")
                             && bool_decide (failure_message f = pd_reason d)) failure
      end in
    ensure consistent
      (invalid_lifecycle "tool_call" "policy decision contradicts the tool-call lifecycle")
  end.

(** ** Decoders *)

Definition Task_try_from (w : TaskWire) : result RunDomainError Task :=
  _ ← validate_schema_version "task" (tw_schema_version w);
  _ ← validate_utc "task" "created_at" (tw_created_at w);
  Ok (MkTask (tw_id w) (tw_title w) (tw_workspace_root w) (tw_project_id w)
        (tw_created_at w)).

Definition Run_try_from (w : RunWire) : result RunDomainError Run :=
  _ ← validate_schema_version "run" (rw_schema_version w);
  lifecycle ← Lifecycle_from_wire "run" (rw_state w) (rw_created_at w) (rw_updated_at w)
    (rw_started_at w) (rw_finished_at w) (rw_revision w);
  _ ← validate_failure "run" (bool_decide (rw_state w = ExecFailed)) (rw_failure w);
  _ ← validate_approvals "run" (rw_state w) (rw_created_at w) (rw_updated_at w)
        (rw_started_at w) (rw_revision w) (rw_approvals w);
  _ ← ensure (negb ((rw_schema_version w <? 4)%N
                    && (is_some (rw_retry_of w) || rw_workspace_may_be_modified w)))
        (invalid_lifecycle "run" "schema versions before 4 cannot carry retry provenance");
  _ ← ensure (bool_decide (rw_retry_of w ≠ Some (rw_id w)))
        (invalid_lifecycle "run" "a run cannot be a retry of itself");
  _ ← ensure (negb (rw_workspace_may_be_modified w && is_none (rw_retry_of w)))
        (invalid_lifecycle "run"
           "only a retry may claim an earlier attempt modified the workspace");
  Ok (MkRun (rw_id w) (rw_task_id w) lifecycle (rw_failure w) (rw_approvals w)
        (rw_retry_of w) (rw_workspace_may_be_modified w)).

Definition Step_try_from (w : StepWire) : result RunDomainError Step :=
  _ ← validate_schema_version "step" (sw_schema_version w);
  lifecycle ← Lifecycle_from_wire "step" (sw_state w) (sw_created_at w) (sw_updated_at w)
    (sw_started_at w) (sw_finished_at w) (sw_revision w);
  _ ← validate_failure "step" (bool_decide (sw_state w = ExecFailed)) (sw_failure w);
  _ ← validate_approvals "step" (sw_state w) (sw_created_at w) (sw_updated_at w)
        (sw_started_at w) (sw_revision w) (sw_approvals w);
  Ok (MkStep (sw_id w) (sw_run_id w) (sw_ordinal w) (sw_title w) lifecycle (sw_failure w)
        (sw_approvals w)).

Definition ToolCall_try_from (w : ToolCallWire) : result RunDomainError ToolCall :=
  _ ← validate_schema_version "tool_call" (cw_schema_version w);
  lifecycle ← Lifecycle_from_wire "tool_call" (cw_state w) (cw_created_at w)
    (cw_updated_at w) (cw_started_at w) (cw_finished_at w) (cw_revision w);
  _ ← validate_failure "tool_call"
        (bool_decide (cw_state w = CallFailed) || bool_decide (cw_state w = CallDenied))
        (cw_failure w);
  _ ← validate_output (cw_state w) (cw_output w);
  _ ← validate_approvals "tool_call" (cw_state w) (cw_created_at w) (cw_updated_at w)
        (cw_started_at w) (cw_revision w) (cw_approvals w);
  _ ← ensure (negb ((cw_schema_version w =? 1)%N && is_some (cw_policy_decision w)))
        (invalid_lifecycle "tool_call" "schema version 1 cannot carry a policy decision");
  _ ← ensure (negb ((cw_schema_version w <? 3)%N
                    && is_some_and (λ d, is_some (pd_external_request d)
                                         || is_some (pd_denial_kind d))
                         (cw_policy_decision w)))
        (invalid_lifecycle "tool_call"
           "schema versions before 3 cannot carry external policy decision fields");
  _ ← validate_policy_decision (cw_state w) (cw_failure w) (cw_approvals w)
        (cw_policy_decision w);
  Ok (MkToolCall (cw_id w) (cw_run_id w) (cw_step_id w) (cw_tool_id w) (cw_tool_version w)
        (cw_input w) lifecycle (cw_failure w) (cw_output w) (cw_approvals w)
        (cw_policy_decision w)).
End wire.

Section roundtrip.
Context `{PlatformLaws}.

Lemma validate_failure_Ok record required failure u :
  validate_failure record required failure = Ok u ↔ is_some failure = required.
Proof. destruct required, failure, u; cbn; naive_solver. Qed.

Lemma validate_output_Ok state output u :
  validate_output state output = Ok u ↔ is_some output = bool_decide (state = CallSucceeded).
Proof.
  unfold validate_output. destruct (bool_decide _), output, u; cbn; naive_solver.
Qed.

(** A history whose entries are in range, in order and undenied before the last
    passes the loop, which reports the denial if the last entry is one. *)
Lemma validate_entries_Ok record created updated l index previous :
  Forall (approval_in_range created updated) l → StronglySorted decided_before l →
  (∀ p, previous = Some p → Forall (λ a, ts_leb p (decided_at a) = true) l) →
  (∀ pre a, l = pre ++ [a] → Forall (λ b, is_denial b = false) pre) →
  ∃ d, validate_entries record created updated index previous None l = Ok d ∧
       ∀ i, d = Some i → i + 1 = index + length l ∧
         ∃ pre a, l = pre ++ [a] ∧ is_denial a = true.
Proof.
  revert index previous. induction l as [|a l IH]; intros index previous Hr Hs Hp Hd.
  { exists None. by split. }
  apply Forall_cons in Hr as [(Hutc & Hge & Hle & Hwho) Hr].
  apply StronglySorted_inv in Hs as [Hs Hbefore].
  assert (is_some_and (ts_ltb (decided_at a)) previous = false) as Hprev.
  { apply is_some_and_false. intros p ->. apply ts_ltb_false.
    by apply (Forall_inv (Hp p eq_refl)). }
  cbn. unfold validate_utc. rewrite Hutc, Hwho, Hprev, andb_false_r. cbn.
  unfold ts_ltb. rewrite Hge, Hle. cbn.
  destruct l as [|b l].
  - cbn. destruct (bool_decide (decision a = OutcomeDenied)) eqn:Ha.
    + eexists. split; [done|]. intros i [= <-]. split; [lia|].
      exists [], a. by split.
    + exists None. by split.
  - assert (is_denial a = false) as Ha.
    { destruct (exists_last (l := b :: l)) as (pre & z & Hz); [done|].
      specialize (Hd (a :: pre) z). rewrite Hz in Hd. by apply Forall_inv in Hd. }
    unfold is_denial in Ha. rewrite Ha.
    destruct (IH (S index) (Some (decided_at a))) as (d & -> & Hi); [done..| | |].
    + by intros p [= <-].
    + intros pre z Hz. specialize (Hd (a :: pre) z). rewrite Hz in Hd.
      by eapply Forall_inv_tail, Hd.
    + exists d. split; [done|]. intros i Hsome. destruct (Hi i Hsome) as [? (pre & z & Hz & ?)].
      split; [cbn in *; lia|]. exists (a :: pre), z. by rewrite Hz.
Qed.

(** The counter of a live record leaves room for the decoder's own arithmetic. *)
Lemma revision_room {E} (e e' : E) n rev :
  (2 * N.of_nat n + 1 ≤ rev)%N → (rev ≤ U64_MAX)%N →
  (count ← from_option_err e (u64_try_from n);
   minimum ← from_option_err e (value ← checked_mul_u64 count 2; checked_add_u64 value 1);
   ensure (minimum <=? rev)%N e') = Ok tt.
Proof.
  intros. apply bind_Ok. exists (N.of_nat n). split.
  { unfold u64_try_from. by rewrite decide_True by lia. }
  apply bind_Ok. exists (2 * N.of_nat n + 1)%N. split.
  { unfold checked_mul_u64, checked_add_u64. rewrite decide_True by lia.
    cbn [mbind option_bind]. rewrite decide_True by lia. cbn [from_option_err].
    f_equal. lia. }
  apply ensure_Ok, N.leb_le. lia.
Qed.

Lemma exec_spent v :
  exec_wf v → ev_approvals v ≠ [] →
  (2 * N.of_nat (length (ev_approvals v)) + 1 ≤ lc_revision (ev_lifecycle v))%N.
Proof.
  intros Hwf Hne. pose proof (exec_revisions _ Hwf) as Hspent.
  pose proof (exec_initial_unanswered _ Hwf) as Hini.
  destruct (lc_state (ev_lifecycle v)); cbn in Hspent; try lia. by destruct Hne, Hini.
Qed.

Lemma exec_shape_Ok record v :
  exec_wf v →
  ExecutionState_approval_shape (lc_state (ev_lifecycle v)) record
    (lc_started_at (ev_lifecycle v)) (lc_revision (ev_lifecycle v)) (ev_approvals v) = Ok tt.
Proof.
  intros Hwf. unfold ExecutionState_approval_shape.
  pose proof (exec_started _ Hwf) as Hsome. pose proof (exec_spent _ Hwf) as Hspent.
  destruct (ev_approvals v) as [|a l]; [done|].
  apply bind_Ok. exists tt. split; [by apply ensure_Ok, Hsome|].
  apply revision_room; [by apply Hspent|apply (exec_revision_u64 _ Hwf)].
Qed.

Lemma count_within n rev :
  (N.of_nat n ≤ rev)%N → is_some_and (λ count, rev <? count)%N (u64_try_from n) = false.
Proof.
  intros Hn. apply is_some_and_false. intros count Hc.
  unfold u64_try_from in Hc. case_decide; [|done]. injection Hc as <-. by apply N.ltb_ge.
Qed.

Lemma exec_history_Ok record v :
  exec_wf v →
  validate_approvals record (lc_state (ev_lifecycle v)) (lc_created_at (ev_lifecycle v))
    (lc_updated_at (ev_lifecycle v)) (lc_started_at (ev_lifecycle v))
    (lc_revision (ev_lifecycle v)) (ev_approvals v) = Ok tt.
Proof.
  intros Hwf. pose proof (exec_denial_last _ Hwf) as Hlast.
  destruct (validate_entries_Ok record _ _ (ev_approvals v) 0 None (exec_in_range _ Hwf)
    (exec_ordered _ Hwf)) as (d & Hentries & Hd);
    [done|intros pre a Hpa; by destruct (Hlast _ _ Hpa)|].
  apply bind_Ok. exists tt. split.
  { apply ensure_Ok. cbn [is_initial ExecutionState_approval_state].
    case_bool_decide as Hq; [|done]. by rewrite (exec_initial_unanswered _ Hwf). }
  apply bind_Ok. exists tt. split; [exact (exec_shape_Ok record v Hwf)|].
  apply bind_Ok. exists tt. split.
  { apply ensure_Ok, negb_true_iff, count_within.
    destruct (decide (ev_approvals v = [])) as [->|Hne]; [cbn; lia|].
    pose proof (exec_spent _ Hwf Hne). lia. }
  apply bind_Ok. exists d. split; [exact Hentries|].
  apply ensure_Ok, negb_true_iff, is_some_and_false. intros i Hi.
  destruct (Hd i Hi) as (Hidx & pre & a & Hpa & Hden).
  rewrite (proj2 (Nat.eqb_eq _ _)) by done. cbn.
  rewrite bool_decide_eq_true_2; [done|]. by apply (Hlast _ _ Hpa).
Qed.

(** What a run promises beyond its lifecycle: its retry provenance. *)
Definition run_wf (r : Run) : Prop :=
  exec_wf (run_view r) ∧ run_retry_of r ≠ Some (run_id r) ∧
  (run_workspace_may_be_modified r = true → is_none (run_retry_of r) = false).

Lemma run_step_wf r r' : run_wf r → run_step r r' → run_wf r'.
Proof.
  intros (Hwf & Hself & Hmod) (Hs & Hid & _ & Hretry & Hm)%run_step_refines.
  unfold run_wf. rewrite Hid, Hretry, Hm. split; [by eapply exec_edge_wf|done].
Qed.

Lemma run_encodes r : run_wf r → Run_try_from (Run_to_wire r) = Ok r.
Proof.
  intros (Hwf & Hself & Hmod).
  pose proof (exec_history_Ok "run" _ Hwf) as Hhist. cbn in Hhist.
  unfold Run_try_from, Run_to_wire. cbn.
  rewrite Lifecycle_from_wire_complete by apply Hwf. cbn.
  rewrite (proj2 (validate_failure_Ok _ _ _ tt)) by apply (exec_failure_iff _ Hwf). cbn.
  rewrite Hhist. cbn. rewrite bool_decide_eq_true_2 by done. cbn.
  destruct (run_workspace_may_be_modified r) eqn:Hm; cbn.
  - rewrite Hmod by done. cbn. rewrite <-Hm. by destruct r.
  - rewrite <-Hm. by destruct r.
Qed.

(** Every run that the domain operations can produce survives storage:
    encoding it and decoding the result gives back the same record. *)
Theorem run_round_trip id task created origin r :
  (∀ o, origin = Some o → o.1 ≠ id) →
  rtc run_step
    (match origin with
     | None => Run_with_id id task created
     | Some (original, modified) => Run_retrying_with_id id task original modified created
     end) r →
  Run_try_from (Run_to_wire r) = Ok r.
Proof.
  intros Horigin Hr. apply run_encodes.
  eapply (rtc_invariant _ run_wf); [by apply run_step_wf| |exact Hr].
  destruct origin as [[original modified]|]; (split; [apply exec_wf_new|]); cbn; [|done].
  split; [|done]. intros [= ->]. by apply (Horigin _ eq_refl).
Qed.

Lemma step_encodes s : exec_wf (step_view s) → Step_try_from (Step_to_wire s) = Ok s.
Proof.
  intros Hwf. pose proof (exec_history_Ok "step" _ Hwf) as Hhist. cbn in Hhist.
  unfold Step_try_from, Step_to_wire. cbn.
  rewrite Lifecycle_from_wire_complete by apply Hwf. cbn.
  rewrite (proj2 (validate_failure_Ok _ _ _ tt)) by apply (exec_failure_iff _ Hwf). cbn.
  rewrite Hhist. cbn. by destruct s.
Qed.
(** The same for a step. *)
Theorem step_round_trip id run ordinal title created s :
  rtc step_step (Step_with_id id run ordinal title created) s →
  Step_try_from (Step_to_wire s) = Ok s.
Proof.
  intros Hs.
  assert (exec_wf (step_view s)) as Hwf.
  { eapply (rtc_invariant _ (λ s, exec_wf (step_view s))); [| |exact Hs].
    - intros a b Hwf [Hab _]%step_step_refines. by eapply exec_edge_wf.
    - apply exec_wf_new. }
  by apply step_encodes.
Qed.

(** *** Tool calls *)

(** The one move the decoder does not accept the outcome of: parking a call
    that policy already allowed. *)
Definition parks_allowed (c c' : ToolCall) : Prop :=
  call_state c' = AwaitingApproval ∧
  ∃ d, call_policy_decision c = Some d ∧ pd_verdict d = Allow.

Definition call_step_governed (c c' : ToolCall) : Prop :=
  call_step c c' ∧ ¬ parks_allowed c c'.

Definition allow_respected (c : ToolCall) : Prop :=
  ∀ d, call_policy_decision c = Some d → pd_verdict d = Allow →
  call_state c ≠ AwaitingApproval ∧ call_state c ≠ CallDenied.

(** Only a refused approval or a policy denial ends in [CallDenied]. *)
Lemma call_step_denied c c' :
  call_step c c' → call_state c' = CallDenied →
  call_state c = AwaitingApproval ∧ call_policy_decision c' = call_policy_decision c ∨
  ∃ d, call_policy_decision c' = Some d ∧ pd_verdict d = Deny.
Proof.
  intros Hs Hd. call_step_inv Hs; unfold call_state in *; cbn in *;
    try match goal with Hm : moved _ _ _ |- _ => apply moved_inv in Hm as (_ & Hto & _) end;
    try (by left); try (by right; eauto); try congruence.
Qed.

Lemma allow_respected_step c c' :
  allow_respected c → call_step_governed c c' → allow_respected c'.
Proof.
  intros Hc [Hs Hnp] d Hd Hv.
  assert (call_policy_decision c = Some d ∨ call_state c' = Pending) as Hcases.
  { destruct (call_policy_decision c) as [d'|] eqn:E.
    - left. pose proof (call_step_keeps_decision _ _ _ Hs E). congruence.
    - right. call_step_inv Hs; unfold call_state in *; cbn in *; congruence. }
  destruct Hcases as [Hold| ->]; [|done].
  destruct (Hc d Hold Hv) as [Hna Hnd]. split.
  - intros Ha. apply Hnp. split; [done|by exists d].
  - intros Hden. destruct (call_step_denied _ _ Hs Hden) as [[Ha _]|(d' & Hd' & Hv')]; congruence.
Qed.

Lemma call_history_Ok c :
  call_wf c →
  validate_approvals "tool_call" (call_state c) (lc_created_at (call_lifecycle c))
    (lc_updated_at (call_lifecycle c)) (lc_started_at (call_lifecycle c))
    (lc_revision (call_lifecycle c)) (call_approvals c) = Ok tt.
Proof.
  intros Hwf. pose proof (call_answered _ Hwf) as Han. unfold call_answers_wf in Han.
  destruct (call_approvals c) as [|a []]; [| |done].
  { unfold validate_approvals. rewrite count_within by (cbn; lia). by destruct (call_state c). }
  destruct Han as (Hr & Hnp & Hna & Hrev & Hden).
  destruct (validate_entries_Ok "tool_call" (lc_created_at (call_lifecycle c))
    (lc_updated_at (call_lifecycle c)) [a] 0 None) as (d & Hentries & Hd);
    [by apply Forall_singleton|by repeat constructor|done|by intros [|? []] ? [=]|].
  unfold is_denial in *. rewrite bool_decide_eq_true in Hden.
  apply bind_Ok. exists tt. split.
  { apply ensure_Ok. cbn. by rewrite bool_decide_eq_false_2. }
  apply bind_Ok. exists tt. split.
  { cbn. rewrite (bool_decide_eq_false_2 (call_state c = Pending)),
      (bool_decide_eq_false_2 (call_state c = AwaitingApproval)) by done. cbn.
    rewrite (proj2 (N.leb_le _ _)) by done. cbn.
    destruct (decide (call_state c = CallDenied)) as [Hs|Hs].
    - rewrite (bool_decide_eq_true_2 (decision a = _)) by by apply Hden.
      by rewrite andb_false_r.
    - by rewrite bool_decide_eq_false_2. }
  apply bind_Ok. exists tt. split.
  { apply ensure_Ok, negb_true_iff, count_within. cbn. lia. }
  apply bind_Ok. exists d. split; [exact Hentries|].
  apply ensure_Ok, negb_true_iff, is_some_and_false. intros i Hi.
  destruct (Hd i Hi) as (Hidx & pre & b & Hb & Hdb).
  destruct pre as [|? []]; simplify_list_eq.
  rewrite (proj2 (Nat.eqb_eq _ _)) by done. cbn.
  rewrite bool_decide_eq_true_2; [done|]. apply Hden. by apply bool_decide_eq_true in Hdb.
Qed.

Lemma call_decision_Ok c :
  call_wf c → allow_respected c →
  validate_policy_decision (call_state c) (call_failure c) (call_approvals c)
    (call_policy_decision c) = Ok tt.
Proof.
  intros Hwf Hallow. unfold validate_policy_decision.
  destruct (call_policy_decision c) as [d|] eqn:E; [|done].
  destruct (call_decided _ Hwf _ E) as [Hval Hp]. rewrite Hval. cbn.
  destruct (pd_verdict d) eqn:Hv.
  - destruct (Hallow _ E Hv). by rewrite !bool_decide_eq_false_2.
  - destruct Hp as [Hp _]. by rewrite bool_decide_eq_false_2.
  - destruct Hp as (-> & -> & ->). cbn. by rewrite !bool_decide_eq_true_2.
Qed.

Lemma call_encodes c : call_wf c → allow_respected c → ToolCall_try_from (ToolCall_to_wire c) = Ok c.
Proof.
  intros Hwf Hallow.
  unfold ToolCall_try_from, ToolCall_to_wire. cbn.
  rewrite Lifecycle_from_wire_complete by apply Hwf. cbn.
  rewrite (proj2 (validate_failure_Ok _ _ _ tt)) by apply (call_failure_iff _ Hwf). cbn.
  rewrite (proj2 (validate_output_Ok _ _ tt)) by apply (call_output_iff _ Hwf). cbn.
  pose proof (call_history_Ok _ Hwf) as Hhist. unfold call_state in Hhist. rewrite Hhist.
  pose proof (call_decision_Ok _ Hwf Hallow) as Hdec. unfold call_state in Hdec.
  cbn. rewrite Hdec. cbn. by destruct c.
Qed.

(** Every tool call the domain operations can produce survives storage,
    provided no operation parks a call that policy already allowed. *)
Theorem tool_call_round_trip id step tool version input created c :
  rtc call_step_governed (ToolCall_with_id id step tool version input created) c →
  ToolCall_try_from (ToolCall_to_wire c) = Ok c.
Proof.
  intros Hc.
  assert (call_wf c ∧ allow_respected c) as [Hwf Hallow].
  { eapply (rtc_invariant _ (λ c, call_wf c ∧ allow_respected c)); [| |exact Hc].
    - intros a b [Hwf Hallow] Hs. split; [|by eapply allow_respected_step].
      eapply call_step_wf; [done|apply Hs].
    - split; [apply call_wf_new|done]. }
  by apply call_encodes.
Qed.

(** *** Decoding loses nothing *)

Lemma validate_schema_version_Ok record found u :
  validate_schema_version record found = Ok u ↔ (1 ≤ found ≤ 4)%N.
Proof.
  unfold validate_schema_version, MINIMUM_RUNTIME_RECORD_SCHEMA_VERSION,
    RUNTIME_RECORD_SCHEMA_VERSION.
  destruct (N.ltb_spec found 1), (N.ltb_spec 4 found), u; naive_solver lia.
Qed.

Definition run_wire_current (w : RunWire) : RunWire :=
  MkRunWire RUNTIME_RECORD_SCHEMA_VERSION (rw_id w) (rw_task_id w) (rw_state w)
    (rw_revision w) (rw_created_at w) (rw_updated_at w) (rw_started_at w)
    (rw_finished_at w) (rw_failure w) (rw_approvals w) (rw_retry_of w)
    (rw_workspace_may_be_modified w).

(** A run row that decodes was written in a known schema, holds a
    well-formed lifecycle, has failure detail exactly when it failed, names no
    retry of itself, and encodes back to the same row at the current schema:
    the decoder drops and invents nothing. *)
Theorem run_decode_lossless w r :
  Run_try_from w = Ok r →
  (1 ≤ rw_schema_version w ≤ 4)%N ∧ Run_to_wire r = run_wire_current w ∧
  lifecycle_wf (run_lifecycle r) ∧
  is_some (run_failure r) = bool_decide (run_state r = ExecFailed) ∧
  run_retry_of r ≠ Some (run_id r) ∧
  (run_workspace_may_be_modified r = true → is_some (run_retry_of r) = true).
Proof.
  unfold Run_try_from. intros Hw.
  apply bind_Ok in Hw as ([] & Hv%validate_schema_version_Ok & Hw).
  apply bind_Ok in Hw as (l & [-> Hl]%Lifecycle_from_wire_sound & Hw).
  apply bind_Ok in Hw as ([] & Hf%validate_failure_Ok & Hw).
  repeat (apply bind_Ok in Hw as ([] & ? & Hw)). injection Hw as <-.
  bool_hyps. split; [exact Hv|]. split_and!; try done.
  cbn. intros Hm. rewrite Hm in *. cbn in *. by destruct (rw_retry_of w).
Qed.

(** A stored tool call that decodes with a policy denial is one that never
    ran: denied, not started, no output, no approval, and its failure is the
    policy's reason. *)
Theorem decoded_denial_never_ran w c d :
  ToolCall_try_from w = Ok c →
  call_policy_decision c = Some d → pd_verdict d = Deny →
  call_state c = CallDenied ∧ lc_started_at (call_lifecycle c) = None ∧
  call_output c = None ∧ call_approvals c = [] ∧
  call_failure c = Some (Failure_new "policy" (pd_reason d)).
Proof.
  unfold ToolCall_try_from. intros Hw Hd Hv.
  apply bind_Ok in Hw as ([] & _ & Hw).
  apply bind_Ok in Hw as (l & [-> Hl]%Lifecycle_from_wire_sound & Hw).
  apply bind_Ok in Hw as ([] & _ & Hw).
  apply bind_Ok in Hw as ([] & Ho%validate_output_Ok & Hw).
  do 3 (apply bind_Ok in Hw as ([] & _ & Hw)).
  apply bind_Ok in Hw as ([] & Hp & Hw). injection Hw as <-. cbn in *.
  rewrite Hd in Hp. cbn in Hp. apply bind_Ok in Hp as ([] & _ & Hp).
  rewrite Hv, ensure_Ok in Hp. bool_hyps. unfold call_state. cbn.
  destruct (cw_failure w) as [[k m]|]; [cbn in *; bool_hyps; subst|done].
  split_and!; try done.
  - apply (wf_forbids _ Hl). cbn. by rewrite (ltac:(done) : cw_state w = CallDenied).
  - apply is_some_false. rewrite Ho. by rewrite (ltac:(done) : cw_state w = CallDenied).
Qed.
End roundtrip.

(** ** Witnesses *)

Lemma run_round_trip_witness :
  rtc run_step demo_run demo_history ∧ length (run_approvals demo_history) = 2 ∧
  Run_try_from (Run_to_wire demo_history) = Ok demo_history.
Proof.
  split; [apply demo_history_reachable|split; [reflexivity|]].
  apply (run_round_trip (MkRunId (demo_uuid 2)) (MkTaskId (demo_uuid 1)) (demo_at 0)
    (Some (MkRunId (demo_uuid 1), true))).
  - intros o [= <-]. by vm_compute.
  - apply demo_history_reachable.
Defined.

Definition demo_finished_step : Step :=
  after (Step_fail demo_failure (demo_at 2)) (after (Step_transition ExecRunning (demo_at 1)) demo_step).

Lemma step_round_trip_witness :
  Step_try_from (Step_to_wire demo_finished_step) = Ok demo_finished_step.
Proof.
  unfold demo_finished_step. apply (step_round_trip (MkStepId (demo_uuid 3)) (MkRunId (demo_uuid 2)) 0%N "build"
    (demo_at 0)).
  eapply rtc_l; [apply (step_does_transition _ ExecRunning (demo_at 1)), after_Ok; by vm_compute|].
  apply rtc_once. apply (step_does_fail _ demo_failure (demo_at 2)), after_Ok; by vm_compute.
Defined.

Lemma tool_call_round_trip_witness :
  ToolCall_try_from (ToolCall_to_wire demo_answered) = Ok demo_answered.
Proof.
  apply (tool_call_round_trip (MkToolCallId (demo_uuid 4)) demo_step "fs.read" "1.0.0"
    (demo_value "{}") (demo_at 0)).
  unfold demo_answered. eapply rtc_l; [split;
    [apply (call_does_policy _ (demo_decision Ask) (demo_at 1)), after_Ok; by vm_compute|by intros [_ (? & [=] & _)]]|].
  eapply rtc_l; [split;
    [apply (call_does_dispatch_approved _ "reviewer" "1.0.0" (demo_at 2)), after_Ok; by vm_compute|by intros [[=] _]]|].
  apply rtc_once. split;
    [apply (call_does_succeed _ (demo_value "ok") (demo_at 3)), after_Ok; by vm_compute|by intros [[=] _]].
Defined.

Lemma run_decode_lossless_witness :
  Run_to_wire demo_history = run_wire_current (Run_to_wire demo_history).
Proof. by apply (run_decode_lossless (Run_to_wire demo_history) demo_history). Defined.

Lemma decoded_denial_never_ran_witness : call_state demo_denied = CallDenied.
Proof.
  by apply (decoded_denial_never_ran (ToolCall_to_wire demo_denied) demo_denied
    (demo_decision Deny)).
Defined.

(** The hypothesis of the tool-call round trip is needed: a call that policy
    allowed can still be parked by the plain transition, and the parked record is
    one its own decoder refuses. *)
Theorem parked_allowed_call_not_storable :
  ∃ c, rtc call_step demo_call c ∧ call_state c = AwaitingApproval ∧
       ToolCall_try_from (ToolCall_to_wire c) =
         Err (invalid_lifecycle "tool_call" "policy decision contradicts the tool-call lifecycle").
Proof.
  exists (after (ToolCall_transition AwaitingApproval (demo_at 2))
    (after (ToolCall_apply_policy_decision (demo_decision Allow) (demo_at 1)) demo_call)).
  split; [|by vm_compute].
  eapply rtc_l; [apply (call_does_policy _ (demo_decision Allow) (demo_at 1)), after_Ok; by vm_compute|].
  apply rtc_once. apply (call_does_transition _ AwaitingApproval (demo_at 2)), after_Ok; by vm_compute.
Qed.
