(* ===== verification/Approval.v ===== *)
(** * Approvals: the durable question, its answer and the grant it becomes

    Models [src/crates/harkness-runtime/src/approval/record.rs], [matcher.rs] and
    the error vocabulary of [error.rs].  [ApprovalRequest_decide] and
    [ApprovalRequest_resolve] are [stateM] computations on the request; an
    [ApprovalGrant] has no constructor function but the projection of a granted
    request. *)

From S2P Require Import Prelude Digest Tool External Trust Policy Lifecycle Domain.
From stdpp Require Import base decidable list strings relations sorting.

(** ** Vocabulary ([approval/record.rs]) *)

Inductive ApprovalState := ApPending | Granted | ApDenied | Expired | Cancelled | Superseded.
Inductive ApprovalScope := ExactCall | ToolForRun | CapabilityForRun.
Inductive ApprovalVerdict := VerdictGranted | VerdictDenied.
Inductive DecidedVia := Cli | Gui.

#[export] Instance ApprovalState_eq_dec : EqDecision ApprovalState.
Proof. solve_decision. Defined.
#[export] Instance ApprovalScope_eq_dec : EqDecision ApprovalScope.
Proof. solve_decision. Defined.
#[export] Instance ApprovalVerdict_eq_dec : EqDecision ApprovalVerdict.
Proof. solve_decision. Defined.
#[export] Instance DecidedVia_eq_dec : EqDecision DecidedVia.
Proof. solve_decision. Defined.

Definition ApprovalState_ALL : list ApprovalState :=
  [ApPending; Granted; ApDenied; Expired; Cancelled; Superseded].
Definition ApprovalState_as_str (s : ApprovalState) : string :=
  match s with
  | ApPending => "pending"
  | Granted => "granted"
  | ApDenied => "denied"
  | Expired => "expired"
  | Cancelled => "cancelled"
  | Superseded => "superseded"
  end.
Definition ApprovalState_is_terminal (s : ApprovalState) : bool :=
  match s with ApPending => false | _ => true end.

Definition ApprovalScope_ALL : list ApprovalScope := [ExactCall; ToolForRun; CapabilityForRun].
Definition ApprovalScope_as_str (s : ApprovalScope) : string :=
  match s with
  | ExactCall => "exact_call"
  | ToolForRun => "tool_for_run"
  | CapabilityForRun => "capability_for_run"
  end.

Definition ApprovalVerdict_ALL : list ApprovalVerdict := [VerdictGranted; VerdictDenied].
Definition ApprovalVerdict_as_str (v : ApprovalVerdict) : string :=
  match v with VerdictGranted => "granted" | VerdictDenied => "denied" end.

Definition DecidedVia_ALL : list DecidedVia := [Cli; Gui].
Definition DecidedVia_as_str (v : DecidedVia) : string :=
  match v with Cli => "cli" | Gui => "gui" end.

#[export] Instance ApprovalState_spelled : Spelled ApprovalState :=
  { spelled_ALL := ApprovalState_ALL; as_str := ApprovalState_as_str }.
#[export] Instance ApprovalScope_spelled : Spelled ApprovalScope :=
  { spelled_ALL := ApprovalScope_ALL; as_str := ApprovalScope_as_str }.
#[export] Instance ApprovalVerdict_spelled : Spelled ApprovalVerdict :=
  { spelled_ALL := ApprovalVerdict_ALL; as_str := ApprovalVerdict_as_str }.
#[export] Instance DecidedVia_spelled : Spelled DecidedVia :=
  { spelled_ALL := DecidedVia_ALL; as_str := DecidedVia_as_str }.
#[export] Instance ApprovalState_spelled_laws : SpelledLaws ApprovalState.
Proof. split; [intros []; set_solver|by intros [] []]. Qed.
#[export] Instance ApprovalScope_spelled_laws : SpelledLaws ApprovalScope.
Proof. split; [intros []; set_solver|by intros [] []]. Qed.
#[export] Instance ApprovalVerdict_spelled_laws : SpelledLaws ApprovalVerdict.
Proof. split; [intros []; set_solver|by intros [] []]. Qed.
#[export] Instance DecidedVia_spelled_laws : SpelledLaws DecidedVia.
Proof. split; [intros []; set_solver|by intros [] []]. Qed.

Definition APPROVAL_TRANSITIONS : list (ApprovalState * ApprovalState) :=
  [(ApPending, Granted); (ApPending, ApDenied); (ApPending, Expired);
   (ApPending, Cancelled); (ApPending, Superseded)].

(** [ApprovalScope::ceiling] *)
Definition ceiling (s : ApprovalScope) (risk : RiskLevel) : ApprovalScope :=
  match risk with RemoteWrite | Destructive => ExactCall | _ => s end.

(** [sort_unstable] on capabilities orders their spellings; [dedup] drops
    consecutive repeats. *)
Definition capability_le (a b : Capability) : Prop :=
  String.leb (Capability_as_str a) (Capability_as_str b) = true.
#[export] Instance capability_le_dec : RelDecision capability_le.
Proof. intros a b. apply _. Defined.

Fixpoint dedup (l : list Capability) : list Capability :=
  match l with
  | a :: ((b :: _) as t) => if decide (a = b) then dedup t else a :: dedup t
  | _ => l
  end.

Section approval.
Context `{Platform}.

Record WorkspaceBinding := MkWorkspaceBinding {
  wb_project_id : option ProjectId;
  wb_canonical_root : CanonicalPath;
}.
#[export] Instance WorkspaceBinding_eq_dec : EqDecision WorkspaceBinding.
Proof. solve_decision. Defined.

Record ApprovalDecision := MkApprovalDecision {
  ad_approval_id : ApprovalId;
  ad_verdict : ApprovalVerdict;
  ad_scope : option ApprovalScope;
  ad_decided_at : OffsetDateTime;
  ad_decided_via : DecidedVia;
  ad_reason : option string;
}.

(** [ApprovalDecision::grant], [deny], [because] *)
Definition decision_grant (id : ApprovalId) (scope : ApprovalScope) (via : DecidedVia)
    (at_ : OffsetDateTime) : ApprovalDecision :=
  MkApprovalDecision id VerdictGranted (Some scope) (to_utc at_) via None.
Definition decision_deny (id : ApprovalId) (via : DecidedVia) (at_ : OffsetDateTime)
    : ApprovalDecision :=
  MkApprovalDecision id VerdictDenied None (to_utc at_) via None.
Definition because (reason : string) (d : ApprovalDecision) : ApprovalDecision :=
  MkApprovalDecision (ad_approval_id d) (ad_verdict d) (ad_scope d) (ad_decided_at d)
    (ad_decided_via d) (Some reason).

Record PendingApproval := MkPendingApproval {
  pa_run_id : RunId;
  pa_tool_call_id : ToolCallId;
  pa_tool : ToolIdentity;
  pa_capabilities : list Capability;
  pa_integration_identity : IntegrationIdentity;
  pa_input_hash : InputHash;
  pa_input_summary : string;
  pa_workspace : WorkspaceBinding;
  pa_risk : RiskLevel;
  pa_requested_scope : ApprovalScope;
  pa_expires_at : option OffsetDateTime;
  pa_created_at : OffsetDateTime;
}.

Definition PendingApproval_new (run : RunId) (call : ToolCallId) (tool : ToolIdentity)
    (input_hash : InputHash) (workspace : WorkspaceBinding) (risk : RiskLevel)
    (created_at : OffsetDateTime) : PendingApproval :=
  MkPendingApproval run call tool [] IntegrationIdentity_none input_hash "" workspace risk
    ExactCall None (to_utc created_at).
Definition requesting (scope : ApprovalScope) (p : PendingApproval) : PendingApproval :=
  MkPendingApproval (pa_run_id p) (pa_tool_call_id p) (pa_tool p) (pa_capabilities p)
    (pa_integration_identity p) (pa_input_hash p) (pa_input_summary p) (pa_workspace p)
    (pa_risk p) scope (pa_expires_at p) (pa_created_at p).
Definition with_capabilities (capabilities : list Capability) (p : PendingApproval)
    : PendingApproval :=
  MkPendingApproval (pa_run_id p) (pa_tool_call_id p) (pa_tool p)
    (dedup (merge_sort capability_le (pa_capabilities p ++ capabilities)))
    (pa_integration_identity p) (pa_input_hash p) (pa_input_summary p) (pa_workspace p)
    (pa_risk p) (pa_requested_scope p) (pa_expires_at p) (pa_created_at p).
Definition with_integration_identity (identity : IntegrationIdentity) (p : PendingApproval)
    : PendingApproval :=
  MkPendingApproval (pa_run_id p) (pa_tool_call_id p) (pa_tool p) (pa_capabilities p)
    identity (pa_input_hash p) (pa_input_summary p) (pa_workspace p)
    (pa_risk p) (pa_requested_scope p) (pa_expires_at p) (pa_created_at p).
Definition summarized_as (summary : string) (p : PendingApproval) : PendingApproval :=
  MkPendingApproval (pa_run_id p) (pa_tool_call_id p) (pa_tool p) (pa_capabilities p)
    (pa_integration_identity p) (pa_input_hash p) summary (pa_workspace p)
    (pa_risk p) (pa_requested_scope p) (pa_expires_at p) (pa_created_at p).
Definition expiring_at (at_ : OffsetDateTime) (p : PendingApproval) : PendingApproval :=
  MkPendingApproval (pa_run_id p) (pa_tool_call_id p) (pa_tool p) (pa_capabilities p)
    (pa_integration_identity p) (pa_input_hash p) (pa_input_summary p) (pa_workspace p)
    (pa_risk p) (pa_requested_scope p) (Some (to_utc at_)) (pa_created_at p).

Record ApprovalRequest := MkApprovalRequest {
  ar_id : ApprovalId;
  ar_pending : PendingApproval;
  ar_effective_scope : ApprovalScope;
  ar_state : ApprovalState;
  ar_resolved_at : option OffsetDateTime;
  ar_decision : option ApprovalDecision;
}.

Inductive ApprovalError :=
| ApInvalidTransition (id : ApprovalId) (from to : ApprovalState)
| AlreadyResolved (id : ApprovalId) (state : ApprovalState)
| DecisionIdentityMismatch (request decision : ApprovalId)
| ScopeExceedsRequest (id : ApprovalId) (effective requested : ApprovalScope)
| ApExpired (id : ApprovalId) (expires_at : OffsetDateTime)
| ScopeRequiresCapability (scope : ApprovalScope)
| InvalidIntegrationIdentity (reason : string)
| UncanonicalizableInput (pointer reason : string)
| InconsistentRecord (id : ApprovalId) (reason : string)
| MalformedInputHash (value reason : string).

Definition ApprovalError_kind (e : ApprovalError) : string :=
  match e with
  | ApInvalidTransition _ _ _ => "approval_invalid_transition"
  | AlreadyResolved _ _ => "approval_already_resolved"
  | DecisionIdentityMismatch _ _ => "approval_decision_identity_mismatch"
  | ScopeExceedsRequest _ _ _ => "approval_scope_exceeds_request"
  | ApExpired _ _ => "approval_expired"
  | ScopeRequiresCapability _ => "approval_scope_requires_capability"
  | InvalidIntegrationIdentity _ => "approval_invalid_integration_identity"
  | UncanonicalizableInput _ _ => "approval_uncanonicalizable_input"
  | InconsistentRecord _ _ => "approval_inconsistent_record"
  | MalformedInputHash _ _ => "approval_malformed_input_hash"
  end.

Definition validate_integration_identity (capabilities : list Capability)
    (identity : IntegrationIdentity) : result string unit :=
  match omap from_capability capabilities with
  | [] =>
    ensure (IntegrationIdentity_is_empty identity)
      "a local operation cannot carry external integration identity"
  | [capability] => validate_identity_shape capability identity
  | _ => Err "an approval must describe exactly one external operation"
  end.

Definition open_with_id (id : ApprovalId) (p : PendingApproval)
    : result ApprovalError ApprovalRequest :=
  let effective_scope := ceiling (pa_requested_scope p) (pa_risk p) in
  _ ← ensure (negb (bool_decide (effective_scope = CapabilityForRun)
                    && bool_decide (pa_capabilities p = [])))
        (ScopeRequiresCapability CapabilityForRun);
  _ ← map_err InvalidIntegrationIdentity
        (validate_integration_identity (pa_capabilities p) (pa_integration_identity p));
  Ok (MkApprovalRequest id p effective_scope ApPending None None).

(** [from_stored]: the match on [(decision, state)] in the source's order. *)
Definition ApprovalRequest_from_stored (id : ApprovalId) (p : PendingApproval)
    (effective_scope : ApprovalScope) (state : ApprovalState)
    (resolved_at : option OffsetDateTime) (decision : option ApprovalDecision)
    : result ApprovalError ApprovalRequest :=
  let refuse {A} reason : result ApprovalError A := Err (InconsistentRecord id reason) in
  let require b reason := ensure b (InconsistentRecord id reason) in
  let ceiling := ceiling (pa_requested_scope p) (pa_risk p) in
  _ ← require (bool_decide (effective_scope = ceiling)
               || bool_decide (effective_scope = ExactCall))
        "its effective scope is broader than its requested scope and risk allow";
  _ ← require (negb (bool_decide (effective_scope = CapabilityForRun)
                     && bool_decide (pa_capabilities p = [])))
        "it is scoped to a capability but names none";
  _ ← map_err (InconsistentRecord id)
        (validate_integration_identity (pa_capabilities p) (pa_integration_identity p));
  _ ← require (bool_decide (ApprovalState_is_terminal state = is_some resolved_at))
        "a resolved approval records when it was resolved, and a pending one does not";
  let decided := bool_decide (state = Granted) || bool_decide (state = ApDenied) in
  _ ← match decision with
      | None =>
        require (negb decided) "a decided approval records the decision that resolved it"
      | Some decision =>
        _ ← require decided "an approval nobody answered must record no decision";
        _ ← require (bool_decide (ad_approval_id decision = id))
              "its decision answers a different approval";
        let expected :=
          match ad_verdict decision with
          | VerdictGranted => Granted
          | VerdictDenied => ApDenied
          end in
        _ ← require (bool_decide (expected = state))
              "its state disagrees with the verdict that produced it";
        _ ← require (negb (is_some_and (λ at_, ts_leb at_ (ad_decided_at decision))
                             (pa_expires_at p)))
              "it was decided after the deadline for answering it";
        require (negb (bool_decide (ad_verdict decision = VerdictGranted)
                       && negb (bool_decide (ad_scope decision = Some effective_scope))))
          "its effective scope is not the scope its decision authorized"
      end;
  Ok (MkApprovalRequest id p effective_scope state resolved_at decision).

Definition was_downgraded (r : ApprovalRequest) : bool :=
  negb (bool_decide (ar_effective_scope r = pa_requested_scope (ar_pending r))).

Definition grantable_scopes (r : ApprovalRequest) : list ApprovalScope :=
  if decide (ar_effective_scope r = ExactCall) then [ExactCall]
  else [ExactCall; ar_effective_scope r].

Definition is_expired (r : ApprovalRequest) (at_ : OffsetDateTime) : bool :=
  is_some_and (λ expiry, ts_leb expiry at_) (pa_expires_at (ar_pending r)).

Definition ApprovalRequest_decide (d : ApprovalDecision)
    : stateM ApprovalRequest ApprovalError unit :=
  self ← get;
  _ ← lift (ensure (negb (ApprovalState_is_terminal (ar_state self)))
        (AlreadyResolved (ar_id self) (ar_state self)));
  _ ← lift (ensure (bool_decide (ad_approval_id d = ar_id self))
        (DecisionIdentityMismatch (ar_id self) (ad_approval_id d)));
  _ ← lift (ensure (negb (is_expired self (ad_decided_at d)))
        (ApExpired (ar_id self)
           (default (ad_decided_at d) (pa_expires_at (ar_pending self)))));
  _ ← lift match ad_scope d with
      | Some scope =>
        ensure (bool_decide (scope = ar_effective_scope self)
                || bool_decide (scope = ExactCall))
          (ScopeExceedsRequest (ar_id self) (ar_effective_scope self) scope)
      | None => Ok tt
      end;
  modify (λ self,
    MkApprovalRequest (ar_id self) (ar_pending self)
      (default (ar_effective_scope self) (ad_scope d))
      (match ad_verdict d with VerdictGranted => Granted | VerdictDenied => ApDenied end)
      (Some (ad_decided_at d)) (Some d)).

Definition ApprovalRequest_resolve (to : ApprovalState) (at_ : OffsetDateTime)
    : stateM ApprovalRequest ApprovalError unit :=
  self ← get;
  let decided := bool_decide (to = Granted) || bool_decide (to = ApDenied) in
  _ ← lift (ensure
        (negb (decided || negb (bool_decide ((ar_state self, to) ∈ APPROVAL_TRANSITIONS))))
        (ApInvalidTransition (ar_id self) (ar_state self) to));
  modify (λ self,
    MkApprovalRequest (ar_id self) (ar_pending self) (ar_effective_scope self) to
      (Some (to_utc at_)) (ar_decision self)).

Definition ApprovalRequest_expire := ApprovalRequest_resolve Expired.
Definition ApprovalRequest_cancel := ApprovalRequest_resolve Cancelled.
Definition ApprovalRequest_supersede := ApprovalRequest_resolve Superseded.
End approval.

(** ** What a stored approval promises *)

Section laws.
Context `{PlatformLaws}.

Definition answered_by (r : ApprovalRequest) (d : ApprovalDecision) : Prop :=
  ad_approval_id d = ar_id r ∧
  ar_state r = match ad_verdict d with VerdictGranted => Granted | VerdictDenied => ApDenied end ∧
  is_expired r (ad_decided_at d) = false ∧
  (ad_verdict d = VerdictGranted → ad_scope d = Some (ar_effective_scope r)).

Record request_wf (r : ApprovalRequest) : Prop := {
  wf_scope : ar_effective_scope r = ceiling (pa_requested_scope (ar_pending r)) (pa_risk (ar_pending r))
    ∨ ar_effective_scope r = ExactCall;
  wf_capability : ar_effective_scope r = CapabilityForRun → pa_capabilities (ar_pending r) ≠ [];
  wf_identity : validate_integration_identity (pa_capabilities (ar_pending r))
    (pa_integration_identity (ar_pending r)) = Ok tt;
  wf_resolved : ApprovalState_is_terminal (ar_state r) = is_some (ar_resolved_at r);
  wf_unanswered : ar_decision r = None → ar_state r ≠ Granted ∧ ar_state r ≠ ApDenied;
  wf_answered : ∀ d, ar_decision r = Some d → answered_by r d;
}.

Definition store_round_trip (r : ApprovalRequest) : result ApprovalError ApprovalRequest :=
  ApprovalRequest_from_stored (ar_id r) (ar_pending r) (ar_effective_scope r) (ar_state r)
    (ar_resolved_at r) (ar_decision r).

Lemma from_stored_sound id p scope state resolved d r :
  ApprovalRequest_from_stored id p scope state resolved d = Ok r →
  r = MkApprovalRequest id p scope state resolved d ∧ request_wf r.
Proof.
  unfold ApprovalRequest_from_stored. intros Hr.
  apply bind_Ok in Hr as ([] & Hscope & Hr).
  apply bind_Ok in Hr as ([] & Hcap & Hr).
  apply bind_Ok in Hr as ([] & Hid & Hr).
  apply bind_Ok in Hr as ([] & Hres & Hr).
  apply bind_Ok in Hr as ([] & Hdec & Hr).
  injection Hr as <-. bool_hyps. split; [done|]. split; cbn.
  - apply orb_true_iff in Hscope as [?%bool_decide_eq_true|?%bool_decide_eq_true]; auto.
  - intros -> Hnil. rewrite Hnil in Hcap. by rewrite !bool_decide_eq_true_2 in Hcap.
  - by destruct (validate_integration_identity _ _) as [[]|].
  - done.
  - intros ->. bool_hyps. auto.
  - intros a ->. repeat (apply bind_Ok in Hdec as ([] & ? & Hdec)). bool_hyps.
    unfold answered_by; cbn. split_and!; [done|by subst|done|].
    intros Hv. rewrite bool_decide_eq_true_2 in Hdec by done. cbn in Hdec. by bool_hyps.
Qed.

Lemma from_stored_complete r : request_wf r → store_round_trip r = Ok r.
Proof.
  destruct r as [id p scope state resolved d]. intros [Hscope Hcap Hid Hres Hun Han].
  cbn in *. unfold store_round_trip, ApprovalRequest_from_stored; cbn.
  apply bind_Ok. exists tt. split.
  { apply ensure_Ok, orb_true_iff. rewrite !bool_decide_eq_true. tauto. }
  apply bind_Ok. exists tt. split.
  { apply ensure_Ok. case_bool_decide as Hs; [|done]. by rewrite (bool_decide_eq_false_2 (pa_capabilities p = [])) by (by apply Hcap). }
  apply bind_Ok. exists tt. split; [by rewrite Hid|].
  apply bind_Ok. exists tt. split; [by apply ensure_Ok, bool_decide_eq_true|].
  apply bind_Ok. exists tt. split; [|done].
  destruct d as [d|]; cbn.
  - destruct (Han d eq_refl) as (Hdid & Hst & Hexp & Hsc); cbn in *.
    unfold is_expired in Hexp. cbn in Hexp. rewrite Hdid, Hexp.
    rewrite !(bool_decide_eq_true_2 (id = id)) by done. cbn. subst state.
    destruct (ad_verdict d) eqn:Hv; cbn; [|done].
    by rewrite (bool_decide_eq_true_2 (_ = Some _)) by auto.
  - destruct (Hun eq_refl). by rewrite !bool_decide_eq_false_2.
Qed.

(** Answers as a front end makes them: [grant] or [deny], perhaps explained. *)
Definition well_formed_answer (d : ApprovalDecision) : Prop :=
  is_some (ad_scope d) = bool_decide (ad_verdict d = VerdictGranted).

Inductive approval_step : ApprovalRequest → ApprovalRequest → Prop :=
| step_decide d r r' :
    well_formed_answer d → ApprovalRequest_decide d r = (Ok tt, r') → approval_step r r'
| step_resolve to at_ r r' :
    ApprovalRequest_resolve to at_ r = (Ok tt, r') → approval_step r r'.

Lemma decide_inv d r u r' :
  ApprovalRequest_decide d r = (Ok u, r') →
  ar_state r = ApPending ∧ ad_approval_id d = ar_id r ∧
  is_expired r (ad_decided_at d) = false ∧
  (∀ scope, ad_scope d = Some scope → scope = ar_effective_scope r ∨ scope = ExactCall) ∧
  r' = MkApprovalRequest (ar_id r) (ar_pending r)
         (default (ar_effective_scope r) (ad_scope d))
         (match ad_verdict d with VerdictGranted => Granted | VerdictDenied => ApDenied end)
         (Some (ad_decided_at d)) (Some d).
Proof.
  unfold ApprovalRequest_decide. intros Hr. stateM_inv Hr. bool_hyps.
  split_and!; try done.
  - by destruct (ar_state r).
  - intros scope Hs. rewrite Hs in *. bool_hyps.
    by match goal with H : _ || _ = true |- _ =>
      apply orb_true_iff in H as [?%bool_decide_eq_true|?%bool_decide_eq_true]; auto end.
Qed.

Lemma resolve_inv to at_ r u r' :
  ApprovalRequest_resolve to at_ r = (Ok u, r') →
  ar_state r = ApPending ∧ to ≠ ApPending ∧ to ≠ Granted ∧ to ≠ ApDenied ∧
  r' = MkApprovalRequest (ar_id r) (ar_pending r) (ar_effective_scope r) to
         (Some (to_utc at_)) (ar_decision r).
Proof.
  unfold ApprovalRequest_resolve. intros Hr. stateM_inv Hr. bool_hyps.
  destruct (ar_state r), to; (split_and!; done) || (exfalso; set_solver).
Qed.

Lemma approval_step_wf r r' :
  request_wf r → approval_step r r' →
  request_wf r' ∧ ar_id r' = ar_id r ∧ ar_pending r' = ar_pending r.
Proof.
  intros Hwf Hs. inversion Hs as [d ? ? Hd Hr|to at_ ? ? Hr]; subst.
  - apply decide_inv in Hr as (Hst & Hid & Hexp & Hsc & ->).
    split; [|done]. destruct Hwf as [Hscope Hcap Hident _ _ _].
    assert (default (ar_effective_scope r) (ad_scope d) = ar_effective_scope r ∨
            default (ar_effective_scope r) (ad_scope d) = ExactCall) as Hdef.
    { destruct (ad_scope d) eqn:E; cbn; [by apply Hsc|by left]. }
    split; cbn; try done.
    + destruct Hdef as [->| ->]; auto.
    + destruct Hdef as [->| ->]; [done|]. by intros.
    + by destruct (ad_verdict d).
    + intros ? [= <-]. unfold answered_by; cbn. split_and!; try done.
      intros Hv. unfold well_formed_answer in Hd. rewrite bool_decide_eq_true_2 in Hd by done.
      by destruct (ad_scope d).
  - apply resolve_inv in Hr as (Hst & Hnp & Hng & Hnd & ->).
    split; [|done]. destruct Hwf as [Hscope Hcap Hident _ _ Han].
    split; cbn; try done.
    + by destruct to.
    + intros d Hd. destruct (Han d Hd) as (_ & Hbad & _). rewrite Hst in Hbad.
      by destruct (ad_verdict d).
Qed.

Lemma open_with_id_wf id p r :
  open_with_id id p = Ok r → request_wf r ∧ ar_id r = id ∧ ar_pending r = p ∧
    ar_state r = ApPending.
Proof.
  unfold open_with_id. intros Hr.
  apply bind_Ok in Hr as ([] & Hcap & Hr).
  apply bind_Ok in Hr as ([] & Hid & Hr). injection Hr as <-. bool_hyps.
  split; [|done]. split; cbn; try done.
  - by left.
  - intros Hs Hnil. rewrite Hs, Hnil in Hcap. by rewrite !bool_decide_eq_true_2 in Hcap.
  - by destruct (validate_integration_identity _ _) as [[]|].
Qed.

Lemma approval_reachable_wf id p r0 r :
  open_with_id id p = Ok r0 → rtc approval_step r0 r →
  request_wf r ∧ ar_id r = id ∧ ar_pending r = p.
Proof.
  intros (Hwf & Hid & Hp & _)%open_with_id_wf Hr.
  eapply (rtc_invariant _ (λ r, request_wf r ∧ ar_id r = id ∧ ar_pending r = p));
    [| |exact Hr]; [|done].
  intros a b (Hwfa & Hida & Hpa) Hs.
  destruct (approval_step_wf _ _ Hwfa Hs) as (? & -> & ->). done.
Qed.

(** A decision is accepted exactly when the question is still open, the
    decision names it, its deadline has not passed, and the scope it asks for,
    if any, is one of the scopes the request advertises as grantable. *)
Theorem decide_accepts_iff d r :
  is_ok (ApprovalRequest_decide d r).1 = true ↔
  ar_state r = ApPending ∧ ad_approval_id d = ar_id r ∧
  is_expired r (ad_decided_at d) = false ∧
  (∀ scope, ad_scope d = Some scope → scope ∈ grantable_scopes r).
Proof.
  clear H0.
  unfold ApprovalRequest_decide, get, lift, modify, mbind, stateM_bind, grantable_scopes. cbn.
  destruct (ar_state r); cbn; try by (split; [done|intros (? & _)]).
  case_bool_decide; cbn; [|by (split; [done|intros (_ & ? & _)])].
  destruct (is_expired r (ad_decided_at d)); cbn; [by (split; [done|intros (_ & _ & ? & _)])|].
  destruct (ad_scope d) as [scope|]; cbn; [|by split].
  repeat case_bool_decide; case_decide; subst; cbn;
    (split; [intros Hok; split_and!; try done; intros ? [= <-]; set_solver|]);
    intros (_ & _ & _ & Hs); try done;
    specialize (Hs _ eq_refl); set_solver.
Qed.

(** An approval that left the pending state can be neither answered nor
    resolved again, and the refusal leaves it as it was; an answer is told it
    lost the race. *)
Theorem resolved_approval_is_final r :
  ar_state r ≠ ApPending →
  (∀ d, ApprovalRequest_decide d r = (Err (AlreadyResolved (ar_id r) (ar_state r)), r)) ∧
  (∀ to at_, ApprovalRequest_resolve to at_ r
     = (Err (ApInvalidTransition (ar_id r) (ar_state r) to), r)).
Proof.
  intros Hst. split.
  - intros d. unfold ApprovalRequest_decide, get, lift, mbind, stateM_bind. cbn.
    by destruct (ar_state r).
  - intros to at_. unfold ApprovalRequest_resolve, get, lift, mbind, stateM_bind. cbn.
    rewrite (bool_decide_eq_false_2 (_ ∈ _)); [by rewrite orb_true_r|].
    intros Hin. destruct (ar_state r); try done; by unfold APPROVAL_TRANSITIONS in Hin; set_solver.
Qed.

(** However a request is answered, what it finally authorizes is never
    broader than the risk ceiling of what was asked: it is the ceiling itself or
    one exact call, and for remote-write and destructive work always one exact
    call; the question itself is never rewritten. *)
Theorem approval_scope_bounded id p r0 r :
  open_with_id id p = Ok r0 → rtc approval_step r0 r →
  ar_id r = id ∧ ar_pending r = p ∧
  (ar_effective_scope r = ceiling (pa_requested_scope p) (pa_risk p)
   ∨ ar_effective_scope r = ExactCall) ∧
  (pa_risk p = RemoteWrite ∨ pa_risk p = Destructive → ar_effective_scope r = ExactCall) ∧
  (ar_effective_scope r = CapabilityForRun → pa_capabilities p ≠ []).
Proof.
  intros Ho Hr. destruct (approval_reachable_wf _ _ _ _ Ho Hr) as ([Hs Hc _ _ _ _] & -> & Hp).
  rewrite Hp in *. split_and!; try done.
  intros [Hk|Hk]; rewrite Hk in Hs; cbn in Hs; by destruct Hs.
Qed.

(** Every request the operations can produce is one the store's reader
    accepts and rebuilds unchanged. *)
Theorem approval_stored_round_trip id p r0 r :
  open_with_id id p = Ok r0 → rtc approval_step r0 r → store_round_trip r = Ok r.
Proof.
  intros Ho Hr. by apply from_stored_complete, (approval_reachable_wf _ _ _ _ Ho Hr).
Qed.
End laws.

(** ** A concrete question and its answer *)

Definition demo_approval_id : ApprovalId := MkApprovalId (demo_uuid 9).
Definition demo_tool : ToolIdentity :=
  MkToolIdentity (MkToolId "git.push") (MkToolVersion ((1%N, false) : Version)).
Definition demo_hash : InputHash := MkInputHash (replicate 32 7%N).
Definition demo_workspace : WorkspaceBinding :=
  MkWorkspaceBinding (Some (MkProjectId (demo_uuid 5))) ["home"; "repo"].

(** A destructive call, asked about for the whole run, to be answered by 100. *)
Definition demo_pending : PendingApproval :=
  expiring_at (demo_at 100) (requesting ToolForRun
    (PendingApproval_new (MkRunId (demo_uuid 2)) (MkToolCallId (demo_uuid 4)) demo_tool
       demo_hash demo_workspace Destructive (demo_at 0))).

Definition demo_question : ApprovalRequest :=
  MkApprovalRequest demo_approval_id demo_pending ExactCall ApPending None None.

Definition demo_answer : ApprovalDecision :=
  because "reviewed" (decision_grant demo_approval_id ExactCall Gui (demo_at 10)).

Definition demo_granted : ApprovalRequest := after (ApprovalRequest_decide demo_answer) demo_question.

Lemma demo_question_opens : open_with_id demo_approval_id demo_pending = Ok demo_question.
Proof. by vm_compute. Qed.

Lemma demo_granted_reachable : rtc approval_step demo_question demo_granted.
Proof.
  apply rtc_once, (step_decide demo_answer); [done|]. apply after_Ok. by vm_compute.
Qed.

Lemma resolved_approval_is_final_witness :
  ApprovalRequest_decide demo_answer demo_granted
    = (Err (AlreadyResolved demo_approval_id Granted), demo_granted).
Proof. by apply (resolved_approval_is_final demo_granted). Defined.

Lemma approval_scope_bounded_witness : ar_effective_scope demo_granted = ExactCall.
Proof.
  apply (approval_scope_bounded _ _ _ _ demo_question_opens demo_granted_reachable).
  by right.
Defined.

Lemma approval_stored_round_trip_witness : store_round_trip demo_granted = Ok demo_granted.
Proof.
  apply (approval_stored_round_trip _ _ _ _ demo_question_opens demo_granted_reachable).
Defined.
