(* ===== verification/Matcher.v ===== *)
(** * Binding a grant to the call it was given for

    Models [src/crates/harkness-runtime/src/approval/matcher.rs] and composes it
    with the policy engine: what a run's approvals can make policy allow. *)

From S2P Require Import Prelude Digest Tool External Trust Policy Lifecycle Domain Approval.
From stdpp Require Import base decidable list strings relations.

Inductive IntegrationIdentityField :=
| AgentExecutableSha256 | McpToolSchemaFingerprint | RecipeContentHash.

Definition IntegrationIdentityField_as_str (f : IntegrationIdentityField) : string :=
  match f with
  | AgentExecutableSha256 => "agent_executable_sha256"
  | McpToolSchemaFingerprint => "mcp_tool_schema_fingerprint"
  | RecipeContentHash => "recipe_content_hash"
  end.

(** [policy_scope] *)
Definition policy_scope (s : ApprovalScope) : RunGrantScope :=
  match s with
  | ExactCall => GrantExactCall
  | ToolForRun => GrantToolForRun
  | CapabilityForRun => GrantCapabilityForRun
  end.

Section matcher.
Context `{Platform}.

Record ApprovalGrant := MkApprovalGrant {
  ag_approval_id : ApprovalId;
  ag_run_id : RunId;
  ag_tool_call_id : ToolCallId;
  ag_workspace : WorkspaceBinding;
  ag_tool : ToolIdentity;
  ag_capabilities : list Capability;
  ag_integration_identity : IntegrationIdentity;
  ag_input_hash : InputHash;
  ag_scope : ApprovalScope;
}.

(** [ApprovalGrant::of] *)
Definition grant_of (r : ApprovalRequest) : option ApprovalGrant :=
  let p := ar_pending r in
  if decide (ar_state r = Granted)
  then Some (MkApprovalGrant (ar_id r) (pa_run_id p) (pa_tool_call_id p) (pa_workspace p)
               (pa_tool p) (pa_capabilities p) (pa_integration_identity p)
               (pa_input_hash p) (ar_effective_scope r))
  else None.

Record CandidateCall := MkCandidateCall {
  cc_run_id : RunId;
  cc_tool_call_id : ToolCallId;
  cc_workspace : WorkspaceBinding;
  cc_tool : ToolIdentity;
  cc_capabilities : list Capability;
  cc_integration_identity : IntegrationIdentity;
  cc_input_hash : InputHash;
}.

Record IntegrationIdentityDrift := MkIntegrationIdentityDrift {
  drift_approval_id : ApprovalId;
  drift_changed_fields : list IntegrationIdentityField;
}.

Definition drift_between (id : ApprovalId) (approved observed : IntegrationIdentity)
    : IntegrationIdentityDrift :=
  let changed {A} `{EqDecision A} (a b : A) field :=
    if decide (a = b) then [] else [field] in
  MkIntegrationIdentityDrift id
    (changed (agent_executable_sha256 approved) (agent_executable_sha256 observed)
       AgentExecutableSha256
     ++ changed (mcp_tool_schema_fingerprint approved) (mcp_tool_schema_fingerprint observed)
       McpToolSchemaFingerprint
     ++ changed (recipe_content_hash approved) (recipe_content_hash observed)
       RecipeContentHash).

Inductive GrantMatch :=
| Matched (grant : RunGrant)
| IdentityDrift (drift : IntegrationIdentityDrift)
| NotApplicable.

Record GrantMatches := MkGrantMatches {
  gm_grants : list RunGrant;
  gm_identity_drifts : list IntegrationIdentityDrift;
}.

Definition scope_applies_except_identity (g : ApprovalGrant) (c : CandidateCall) : bool :=
  bool_decide (ag_run_id g = cc_run_id c)
  && bool_decide (ag_workspace g = cc_workspace c)
  && match ag_scope g with
     | ExactCall =>
       bool_decide (ag_tool_call_id g = cc_tool_call_id c)
       && bool_decide (ag_tool g = cc_tool c)
       && bool_decide (ag_input_hash g = cc_input_hash c)
     | ToolForRun => bool_decide (ag_tool g = cc_tool c)
     | CapabilityForRun =>
       negb (bool_decide (cc_capabilities c = []))
       && forallb (λ required, bool_decide (required ∈ ag_capabilities g)) (cc_capabilities c)
     end.

Definition match_candidate (g : ApprovalGrant) (c : CandidateCall) : GrantMatch :=
  if negb (scope_applies_except_identity g c) then NotApplicable
  else if negb (bool_decide (ag_integration_identity g = cc_integration_identity c))
  then IdentityDrift (drift_between (ag_approval_id g) (ag_integration_identity g)
                        (cc_integration_identity c))
  else Matched (MkRunGrant (policy_scope (ag_scope g)) (ag_integration_identity g)).

(** [ApprovalGrant::matching] *)
Definition matching (g : ApprovalGrant) (c : CandidateCall) : option RunGrant :=
  match match_candidate g c with
  | Matched grant => Some grant
  | IdentityDrift _ | NotApplicable => None
  end.

Definition grant_applies (g : ApprovalGrant) (c : CandidateCall) : bool :=
  match match_candidate g c with Matched _ => true | _ => false end.

(** The loop of [matching_grants_detailed], pushing onto the result. *)
Definition push_match (m : GrantMatches) (found : GrantMatch) : GrantMatches :=
  match found with
  | Matched grant => MkGrantMatches (gm_grants m ++ [grant]) (gm_identity_drifts m)
  | IdentityDrift drift => MkGrantMatches (gm_grants m) (gm_identity_drifts m ++ [drift])
  | NotApplicable => m
  end.

Definition matching_grants_detailed (grants : list ApprovalGrant) (c : CandidateCall)
    : GrantMatches :=
  fold_left (λ m g, push_match m (match_candidate g c)) grants (MkGrantMatches [] []).

Definition matching_grants (grants : list ApprovalGrant) (c : CandidateCall) : list RunGrant :=
  gm_grants (matching_grants_detailed grants c).

(** ** What a scope covers, stated without the code's shape *)

Definition covers (g : ApprovalGrant) (c : CandidateCall) : Prop :=
  ag_run_id g = cc_run_id c ∧ ag_workspace g = cc_workspace c ∧
  ag_integration_identity g = cc_integration_identity c ∧
  match ag_scope g with
  | ExactCall =>
    ag_tool_call_id g = cc_tool_call_id c ∧ ag_tool g = cc_tool c ∧
    ag_input_hash g = cc_input_hash c
  | ToolForRun => ag_tool g = cc_tool c
  | CapabilityForRun =>
    cc_capabilities c ≠ [] ∧ cc_capabilities c ⊆ ag_capabilities g
  end.

Lemma scope_applies_iff g c :
  scope_applies_except_identity g c = true ∧
    ag_integration_identity g = cc_integration_identity c ↔ covers g c.
Proof.
  unfold scope_applies_except_identity, covers.
  rewrite !andb_true_iff, !bool_decide_eq_true.
  destruct (ag_scope g); rewrite ?andb_true_iff, ?negb_true_iff, ?bool_decide_eq_true,
    ?bool_decide_eq_false; [naive_solver..|].
  rewrite forallb_forall. setoid_rewrite bool_decide_eq_true.
  setoid_rewrite <-list_elem_of_In. unfold subseteq, list_subseteq. naive_solver.
Qed.

Lemma match_candidate_Matched g c rg :
  match_candidate g c = Matched rg ↔
  covers g c ∧ rg = MkRunGrant (policy_scope (ag_scope g)) (ag_integration_identity g).
Proof.
  rewrite <-scope_applies_iff. unfold match_candidate.
  destruct (scope_applies_except_identity g c); cbn; [|naive_solver].
  case_bool_decide; cbn; naive_solver.
Qed.

Lemma fold_push grants c m :
  gm_grants (fold_left (λ m g, push_match m (match_candidate g c)) grants m) =
    gm_grants m ++ omap (λ g, matching g c) grants ∧
  gm_identity_drifts (fold_left (λ m g, push_match m (match_candidate g c)) grants m) =
    gm_identity_drifts m ++
    omap (λ g, match match_candidate g c with IdentityDrift d => Some d | _ => None end) grants.
Proof.
  revert m. induction grants as [|g grants IH]; intros m; cbn; [by rewrite !app_nil_r|].
  destruct (IH (push_match m (match_candidate g c))) as [-> ->]. unfold matching.
  destruct (match_candidate g c); cbn; by rewrite <-?app_assoc.
Qed.
End matcher.

Section theorems.
Context `{PlatformLaws}.

(** C33. A grant applies exactly when it covers the call: same run, same
    workspace, the very same external identities, and, by its scope, the same
    recorded call with the same tool version and input, the same tool version,
    or a non-empty set of capabilities all of which were granted.  The matcher
    returns one policy grant per covering approval, in order, at the scope the
    human allowed. *)
Theorem grant_applies_exactly grants c :
  (∀ g, grant_applies g c = true ↔ covers g c) ∧
  matching_grants grants c =
    omap (λ g, if grant_applies g c
               then Some (MkRunGrant (policy_scope (ag_scope g)) (ag_integration_identity g))
               else None) grants.
Proof.
  split.
  - intros g. unfold grant_applies. destruct (match_candidate g c) eqn:E;
      rewrite <-scope_applies_iff; unfold match_candidate in E;
      repeat case_match; bool_hyps; naive_solver.
  - unfold matching_grants, matching_grants_detailed. rewrite (proj1 (fold_push _ _ _)). cbn.
    induction grants as [|g grants IH]; cbn; [done|]. rewrite IH. unfold matching, grant_applies.
    destruct (match_candidate g c) eqn:E; [|done..].
    by apply match_candidate_Matched in E as [_ ->].
Qed.

(** Drift is reported, and never taken for an authorization, exactly when
    everything but the external identities matches; the fields named are
    exactly those that changed, so the report is never empty. *)
Theorem drift_exactly g c d :
  match_candidate g c = IdentityDrift d ↔
  covers (MkApprovalGrant (ag_approval_id g) (ag_run_id g) (ag_tool_call_id g)
    (ag_workspace g) (ag_tool g) (ag_capabilities g) (cc_integration_identity c)
    (ag_input_hash g) (ag_scope g)) c ∧
  ag_integration_identity g ≠ cc_integration_identity c ∧
  drift_approval_id d = ag_approval_id g ∧ drift_changed_fields d ≠ [] ∧
  d = drift_between (ag_approval_id g) (ag_integration_identity g) (cc_integration_identity c).
Proof.
  rewrite <-scope_applies_iff. unfold match_candidate, scope_applies_except_identity. cbn.
  destruct (_ && _ && _); cbn; [|naive_solver].
  case_bool_decide as Hid; cbn; [naive_solver|]. split; [|naive_solver].
  intros [= <-]. split_and!; try done. unfold drift_between. cbn.
  destruct (ag_integration_identity g) as [a1 a2 a3], (cc_integration_identity c) as [b1 b2 b3].
  cbn. repeat case_decide; try done. by subst.
Qed.

(** A grant exists only behind a recorded human approval: the request was
    answered, by a grant that names it, before its deadline, for exactly the
    scope the grant carries, and that scope is within the risk ceiling.  Every
    other field is the question's own. *)
Theorem no_grant_without_decision id p r0 r g :
  open_with_id id p = Ok r0 → rtc approval_step r0 r → grant_of r = Some g →
  (∃ d, ar_decision r = Some d ∧ ad_verdict d = VerdictGranted ∧ ad_approval_id d = id ∧
        ad_scope d = Some (ag_scope g) ∧ is_expired r (ad_decided_at d) = false) ∧
  ag_run_id g = pa_run_id p ∧ ag_tool_call_id g = pa_tool_call_id p ∧
  ag_workspace g = pa_workspace p ∧ ag_tool g = pa_tool p ∧
  ag_input_hash g = pa_input_hash p ∧
  ag_integration_identity g = pa_integration_identity p ∧
  (pa_risk p = RemoteWrite ∨ pa_risk p = Destructive → ag_scope g = ExactCall).
Proof.
  intros Ho Hr Hg. destruct (approval_reachable_wf _ _ _ _ Ho Hr) as ([Hs _ _ _ Hun Han] & Hid & Hp).
  unfold grant_of in Hg. case_decide as Hst; [|done]. injection Hg as <-. cbn. rewrite Hp in *.
  split; [|split_and!; try done; intros [Hk|Hk]; rewrite Hk in Hs; cbn in Hs; by destruct Hs].
  destruct (ar_decision r) as [d|]; [|by destruct (Hun eq_refl)].
  destruct (Han d eq_refl) as (Hdid & Hds & Hexp & Hsc).
  exists d. destruct (ad_verdict d); [|congruence]. split_and!; try done; [congruence|by apply Hsc].
Qed.

(** End to end: when policy allows a call because of a run grant and the
    grants it was given are the matcher's, some approval of the run covers this
    very call; for remote-write and destructive work it is an approval of this
    recorded call, tool version and input, and for an external operation it
    carries the identity observed now. *)
Theorem approval_authorizes engine request grants c :
  pr_grants request = matching_grants grants c →
  pd_source (evaluate engine request) = FromRunGrant →
  pd_verdict (evaluate engine request) = Allow ∧
  ∃ g, g ∈ grants ∧ covers g c ∧
    (∀ external, pr_external request = Some external →
       ag_integration_identity g = epc_identity external) ∧
    (pr_risk request = RemoteWrite ∨ pr_risk request = Destructive →
       ag_scope g = ExactCall ∧ ag_tool_call_id g = cc_tool_call_id c ∧
       ag_tool g = cc_tool c ∧ ag_input_hash g = cc_input_hash c).
Proof.
  intros Hg (Hv & Hex)%evaluate_source_grant. split; [done|].
  apply existsb_exists in Hex as (rg & Hin%list_elem_of_In & Hm).
  rewrite Hg in Hin. unfold matching_grants, matching_grants_detailed in Hin.
  rewrite (proj1 (fold_push _ _ _)) in Hin. cbn in Hin.
  apply list_elem_of_omap in Hin as (g & Hgin & Hgm). unfold matching in Hgm.
  destruct (match_candidate g c) eqn:E; [|done..]. injection Hgm as ->.
  apply match_candidate_Matched in E as [Hcov ->]. exists g.
  unfold grant_matches in Hm. cbn in Hm. apply andb_true_iff in Hm as [Hscope Hident].
  split_and!; [done|done| |].
  - intros external He. rewrite He in Hident. by bool_hyps.
  - intros Hrisk. assert (exact_only request = true) as Hx
      by (unfold exact_only; by destruct Hrisk as [->| ->]).
    rewrite Hx in Hscope. cbn in Hscope. bool_hyps.
    destruct Hcov as (_ & _ & _ & Hcov). by destruct (ag_scope g).
Qed.
End theorems.

(** ** Witnesses *)

Definition demo_grant : ApprovalGrant :=
  MkApprovalGrant demo_approval_id (MkRunId (demo_uuid 2)) (MkToolCallId (demo_uuid 4))
    demo_workspace demo_tool [] IntegrationIdentity_none demo_hash ExactCall.

Definition demo_candidate : CandidateCall :=
  MkCandidateCall (MkRunId (demo_uuid 2)) (MkToolCallId (demo_uuid 4)) demo_workspace demo_tool
    [] IntegrationIdentity_none demo_hash.

(** A destructive call in a trusted workspace, under policy that asks. *)
Definition demo_asked : PolicyRequest :=
  with_grants (matching_grants [demo_grant] demo_candidate)
    (demo_request Destructive Trusted Interactive).

Lemma no_grant_without_decision_witness :
  grant_of demo_granted = Some demo_grant ∧ ag_scope demo_grant = ExactCall.
Proof.
  assert (grant_of demo_granted = Some demo_grant) as Hg by by vm_compute.
  split; [exact Hg|].
  apply (no_grant_without_decision _ _ _ _ _ demo_question_opens demo_granted_reachable Hg).
  by right.
Defined.

Lemma approval_authorizes_witness :
  pd_verdict (evaluate demo_engine demo_asked) = Allow ∧
  ∃ g, g ∈ [demo_grant] ∧ covers g demo_candidate.
Proof.
  destruct (approval_authorizes demo_engine demo_asked [demo_grant] demo_candidate)
    as [Hv (g & Hg & Hc & _)]; [reflexivity|by vm_compute|].
  split; [exact Hv|by exists g].
Defined.
