(* ===== verification/Gate.v ===== *)
(** * The gate a call parks on while a human decides

    Models [src/crates/harkness-runtime/src/approval/gate.rs].  The map behind the
    mutex is a [gmap]; each critical section of the code is one function on it.
    [gate_step] interleaves the threads: a ticket is held by a thread that is
    running, parked on the condition variable or back from its wait, and a thread
    that resolves stores the answer under the lock and notifies once it gave the
    lock up. *)

From S2P Require Import Prelude Digest Tool External Trust Policy Lifecycle Domain Approval.
From stdpp Require Import base decidable list gmap strings relations.

Section gate.
Context `{Platform}.

Record ApprovalObservation := MkApprovalObservation {
  ob_approval_id : ApprovalId;
  ob_state : ApprovalState;
  ob_verdict : ApprovalVerdict;
  ob_scope : option ApprovalScope;
  ob_reason : option string;
}.

Definition unanswered_reason (s : ApprovalState) : string :=
  match s with
  | Expired => "the approval request expired before it was answered"
  | Cancelled => "the run was cancelled while the approval was pending"
  | Superseded => "the run will not resume, so the approval authorizes nothing"
  | _ => "the approval was resolved without a decision"
  end.

Definition observation_of (r : ApprovalRequest) : option ApprovalObservation :=
  if negb (ApprovalState_is_terminal (ar_state r)) then None
  else
    let '(verdict, scope, reason) :=
      match ar_decision r with
      | Some d => (ad_verdict d, ad_scope d, ad_reason d)
      | None => (VerdictDenied, None, Some (unanswered_reason (ar_state r)))
      end in
    Some (MkApprovalObservation (ar_id r) (ar_state r) verdict scope reason).

Definition is_granted (o : ApprovalObservation) : bool :=
  bool_decide (ob_verdict o = VerdictGranted).

(** ** [ApprovalGate]: the critical sections *)

(** One entry per live ticket, holding its answer once one arrives. *)
Abbreviation ApprovalGate := (gmap ApprovalId (option ApprovalObservation)).

Definition ApprovalGate_new : ApprovalGate := ∅.

(** [None] when a ticket is already outstanding. *)
Definition ticket (id : ApprovalId) (waiting : ApprovalGate) : option ApprovalGate :=
  match waiting !! id with
  | Some _ => None
  | None => Some (<[id := None]> waiting)
  end.

(** The new map, and whether the waiters are notified. *)
Definition resolve (o : ApprovalObservation) (waiting : ApprovalGate) : ApprovalGate * bool :=
  match waiting !! ob_approval_id o with
  | None => (waiting, false)
  | Some _ => (<[ob_approval_id o := Some o]> waiting, true)
  end.

Definition resolve_from (r : ApprovalRequest) (waiting : ApprovalGate) : ApprovalGate * bool :=
  match observation_of r with
  | Some o => resolve o waiting
  | None => (waiting, false)
  end.

Definition is_resolved (id : ApprovalId) (waiting : ApprovalGate) : bool :=
  is_some_and is_some (waiting !! id).
Definition is_waiting (id : ApprovalId) (waiting : ApprovalGate) : bool :=
  is_some (waiting !! id).
Definition forget (id : ApprovalId) (waiting : ApprovalGate) : ApprovalGate := delete id waiting.

(** One turn of the loop of [wait]: [get_mut(&id).and_then(Option::take)]. *)
Definition wait_turn (id : ApprovalId) (waiting : ApprovalGate)
    : option ApprovalObservation * ApprovalGate :=
  match waiting !! id with
  | Some (Some o) => (Some o, <[id := None]> waiting)
  | _ => (None, waiting)
  end.

(** ** Threads *)

(** The holder of a ticket: on its way, parked on the condition variable, or back from its
    wait with the ticket still to be dropped. *)
Inductive Holder := HolderRunning | HolderParked | HolderReturned.
(** A thread inside [resolve]: before its critical section, or between the end of it and
    [notify_all]. *)
Inductive Resolver := Resolving (o : ApprovalObservation) | Notifying (o : ApprovalObservation).

Record GateSystem := MkGateSystem {
  gs_waiting : ApprovalGate;
  gs_holders : gmap ApprovalId Holder;
  gs_resolvers : gmap nat Resolver;
  (** what each [wait] returned, newest first *)
  gs_delivered : list (ApprovalId * ApprovalObservation);
  (** what each [resolve] was given, newest first *)
  gs_resolved : list ApprovalObservation;
}.

Definition wake (h : Holder) : Holder := match h with HolderParked => HolderRunning | h => h end.
(** [notify_all] *)
Definition wake_all (holders : gmap ApprovalId Holder) : gmap ApprovalId Holder := wake <$> holders.

(** What a thread inside [resolve] does next, and where it then is. *)
Definition resolver_next (r : Resolver) (waiting : ApprovalGate) (holders : gmap ApprovalId Holder)
    : option Resolver * ApprovalGate * gmap ApprovalId Holder :=
  match r with
  | Resolving o =>
    let '(waiting, notify) := resolve o waiting in
    (if notify then Some (Notifying o) else None, waiting, holders)
  | Notifying o => (None, waiting, wake_all holders)
  end.

(** One critical section, one notification or one wake-up at a time.  Parking is one with the
    turn that found no answer: [Condvar::wait] gives the lock up as it parks. *)
Inductive gate_step : GateSystem → GateSystem → Prop :=
| gate_ticket w w' hs rv dl rs id :
    ticket id w = Some w' →
    gate_step (MkGateSystem w hs rv dl rs) (MkGateSystem w' (<[id := HolderRunning]> hs) rv dl rs)
| gate_resolve w hs rv dl rs t o :
    rv !! t = None →
    gate_step (MkGateSystem w hs rv dl rs) (MkGateSystem w hs (<[t := Resolving o]> rv) dl (o :: rs))
| gate_resolver w w' hs hs' rv dl rs t r next :
    rv !! t = Some r → resolver_next r w hs = (next, w', hs') →
    gate_step (MkGateSystem w hs rv dl rs) (MkGateSystem w' hs' (partial_alter (λ _, next) t rv) dl rs)
| gate_take w w' hs rv dl rs id o :
    hs !! id = Some HolderRunning → wait_turn id w = (Some o, w') →
    gate_step (MkGateSystem w hs rv dl rs) (MkGateSystem w' (<[id := HolderReturned]> hs) rv ((id, o) :: dl) rs)
| gate_park w w' hs rv dl rs id :
    hs !! id = Some HolderRunning → wait_turn id w = (None, w') →
    gate_step (MkGateSystem w hs rv dl rs) (MkGateSystem w' (<[id := HolderParked]> hs) rv dl rs)
| gate_wake w hs rv dl rs id :
    (* a spurious wake-up, or the timeout of [wait_for] *)
    hs !! id = Some HolderParked →
    gate_step (MkGateSystem w hs rv dl rs) (MkGateSystem w (<[id := HolderRunning]> hs) rv dl rs)
| gate_drop w hs rv dl rs id h :
    hs !! id = Some h → h ≠ HolderParked →
    gate_step (MkGateSystem w hs rv dl rs) (MkGateSystem (forget id w) (delete id hs) rv dl rs).

Definition gate_start : GateSystem := MkGateSystem ApprovalGate_new ∅ ∅ [] [].

(** A resolver whose notification is still to come. *)
Definition to_notify (s : GateSystem) : Prop := ∃ t o, gs_resolvers s !! t = Some (Notifying o).

Record gate_wf (s : GateSystem) : Prop := {
  gate_tickets : ∀ id, is_Some (gs_waiting s !! id) ↔ is_Some (gs_holders s !! id);
  gate_parked : ∀ id o, gs_holders s !! id = Some HolderParked →
    gs_waiting s !! id = Some (Some o) → to_notify s;
  gate_resolving : ∀ t o, gs_resolvers s !! t = Some (Resolving o) → o ∈ gs_resolved s;
  gate_answers : ∀ id o, gs_waiting s !! id = Some (Some o) →
    ob_approval_id o = id ∧ o ∈ gs_resolved s;
  gate_deliveries : ∀ id o, (id, o) ∈ gs_delivered s →
    ob_approval_id o = id ∧ o ∈ gs_resolved s;
}.

Lemma wake_not_parked hs id : wake_all hs !! id ≠ Some HolderParked.
Proof. unfold wake_all. rewrite lookup_fmap. by destruct (hs !! id) as [[]|]. Qed.
Lemma wait_turn_None id w w' : wait_turn id w = (None, w') → w' = w ∧ ∀ o, w !! id ≠ Some (Some o).
Proof. unfold wait_turn. by destruct (w !! id) as [[]|]; intros [= <-]. Qed.
Lemma wait_turn_Some id w o w' : wait_turn id w = (Some o, w') → w !! id = Some (Some o) ∧ w' = <[id := None]> w.
Proof. unfold wait_turn. by destruct (w !! id) as [[]|]; intros [= <- <-]. Qed.

(** The write of a resolver leaves it with a notification to give. *)
Lemma resolver_next_wf w hs rv dl rs t r next w' hs' :
  gate_wf (MkGateSystem w hs rv dl rs) → rv !! t = Some r → resolver_next r w hs = (next, w', hs') →
  gate_wf (MkGateSystem w' hs' (partial_alter (λ _, next) t rv) dl rs).
Proof.
  intros [Ht Hp Hr Ha Hd] Hrv Hn. cbn in *.
  assert (∀ u o, partial_alter (λ _, next) t rv !! u = Some (Resolving o) → o ∈ rs) as Hr'.
  { intros u o. destruct (decide (u = t)) as [->|Hne]; [|rewrite lookup_partial_alter_ne by done; apply Hr].
    rewrite lookup_partial_alter_eq. intros ->. destruct r as [o'|o']; cbn in Hn; [|by injection Hn].
    by destruct (resolve o' w) as [w0 []]; injection Hn. }
  destruct r as [o|o]; cbn in Hn.
  - unfold resolve in Hn. destruct (w !! ob_approval_id o) as [old|] eqn:E; injection Hn as <- <- <-.
    + split; cbn; [| |exact Hr'| |done].
      * intros j. rewrite <-Ht. destruct (decide (j = ob_approval_id o)) as [->|]; simplify_map_eq; [|done].
        split; intros _; by eexists.
      * intros j p Hj _. exists t, o. cbn. by rewrite lookup_partial_alter_eq.
      * intros j p Hj. destruct (decide (j = ob_approval_id o)) as [->|]; simplify_map_eq; [|by apply Ha].
        split; [done|]. by eapply Hr.
    + split; cbn; [done| |exact Hr'|done|done]. intros j p Hj Hw. destruct (Hp j p Hj Hw) as (u & q & Hu). cbn in Hu.
      exists u, q. cbn. rewrite lookup_partial_alter_ne; [done|]. intros ->. congruence.
  - injection Hn as <- <- <-. split; cbn; [| |exact Hr'|done|done].
    + intros j. unfold wake_all. by rewrite lookup_fmap, fmap_is_Some.
    + intros j p Hj. by apply wake_not_parked in Hj.
Qed.

Lemma gate_step_wf s s' : gate_wf s → gate_step s s' → gate_wf s'.
Proof.
  intros Hwf Hs. destruct Hs as [w w' hs rv dl rs id Hop|w hs rv dl rs t o Hop|w w' hs hs' rv dl rs t r next Hrv Hop
    |w w' hs rv dl rs id o Hh Hop|w w' hs rv dl rs id Hh Hop|w hs rv dl rs id Hh|w hs rv dl rs id h Hh Hnp];
    [|destruct Hwf as [Ht Hp Hr Ha Hd]|by eapply resolver_next_wf|destruct Hwf as [Ht Hp Hr Ha Hd]..]; cbn in *.
  - destruct Hwf as [Ht Hp Hr Ha Hd]. cbn in *. unfold ticket in Hop. destruct (w !! id) eqn:E; [done|]. injection Hop as <-.
    split; cbn; try done.
    + intros j. destruct (decide (j = id)) as [->|]; simplify_map_eq; [|apply Ht]. split; intros _; by eexists.
    + intros j p Hj Hw. destruct (decide (j = id)) as [->|]; simplify_map_eq. by eapply Hp.
    + intros j p Hj. destruct (decide (j = id)) as [->|]; simplify_map_eq; auto.
  - split; cbn; [done| | | |].
    + intros j p Hj Hw. destruct (Hp j p Hj Hw) as (u & q & Hu). cbn in Hu. exists u, q. cbn.
      rewrite lookup_insert_ne; [done|]. intros ->. congruence.
    + intros u p. destruct (decide (u = t)) as [->|Hne].
      * rewrite lookup_insert_eq. intros [= <-]. by left.
      * rewrite lookup_insert_ne by done. intros Hu. right. by eapply Hr.
    + intros j p Hj. destruct (Ha j p Hj). split; [done|by right].
    + intros j p Hj. destruct (Hd j p Hj). split; [done|by right].
  - apply wait_turn_Some in Hop as [E ->]. destruct (Ha _ _ E). split; cbn; [| |done| |].
    + intros j. destruct (decide (j = id)) as [->|]; simplify_map_eq; [|apply Ht]. split; intros _; by eexists.
    + intros j p Hj Hw. destruct (decide (j = id)) as [->|]; simplify_map_eq. by eapply Hp.
    + intros j q Hj. destruct (decide (j = id)) as [->|]; simplify_map_eq; auto.
    + intros j q [[= -> ->]|Hj]%elem_of_cons; auto.
  - apply wait_turn_None in Hop as [-> E]. split; cbn; try done.
    + intros j. rewrite Ht. destruct (decide (j = id)) as [->|]; simplify_map_eq; [|done]. split; intros _; by eexists.
    + intros j p Hj Hw. destruct (decide (j = id)) as [->|]; [by destruct (E p)|]. simplify_map_eq. by eapply Hp.
  - split; cbn; try done.
    + intros j. rewrite Ht. destruct (decide (j = id)) as [->|]; simplify_map_eq; [|done]. split; intros _; by eexists.
    + intros j p Hj Hw. destruct (decide (j = id)) as [->|]; simplify_map_eq. by eapply Hp.
  - unfold forget. split; cbn; try done.
    + intros j. destruct (decide (j = id)) as [->|]; simplify_map_eq; [|apply Ht]. split; intros []; congruence.
    + intros j p Hj Hw. destruct (decide (j = id)) as [->|]; simplify_map_eq. by eapply Hp.
    + intros j q Hj. destruct (decide (j = id)) as [->|]; simplify_map_eq; auto.
Qed.

Lemma gate_reachable_wf s : rtc gate_step gate_start s → gate_wf s.
Proof.
  apply rtc_invariant; [by apply gate_step_wf|]. split; cbn; [by intros; rewrite !lookup_empty; split; intros []|by intros..|].
  by intros id o Hi%elem_of_nil.
Qed.

(** An answer stays until the thread it is for takes it or lets go of its ticket. *)
Lemma answer_stays s s' id :
  gate_wf s → gate_step s s' → is_resolved id (gs_waiting s) = true →
  is_resolved id (gs_waiting s') = true ∨ (∃ o, gs_delivered s' = (id, o) :: gs_delivered s) ∨ gs_holders s' !! id = None.
Proof.
  intros _ Hs. unfold is_resolved. destruct Hs as [w w' hs rv dl rs j Hop|w hs rv dl rs t o Hop|w w' hs hs' rv dl rs t r next Hrv Hop
    |w w' hs rv dl rs j o Hh Hop|w w' hs rv dl rs j Hh Hop|w hs rv dl rs j Hh|w hs rv dl rs j h Hh Hnp]; cbn; try by left.
  - unfold ticket in Hop. destruct (w !! j) eqn:E; [done|]. injection Hop as <-. left.
    destruct (decide (id = j)) as [->|]; [by rewrite E in *|by rewrite lookup_insert_ne].
  - destruct r as [o|o]; cbn in Hop; [|injection Hop as <- <- <-; by left]. unfold resolve in Hop.
    destruct (w !! ob_approval_id o) eqn:E; injection Hop as <- <- <-; [|by left]. left.
    destruct (decide (id = ob_approval_id o)) as [->|]; [by rewrite lookup_insert_eq|by rewrite lookup_insert_ne].
  - apply wait_turn_Some in Hop as [E ->]. destruct (decide (id = j)) as [->|]; [|left; by rewrite lookup_insert_ne].
    right; left. by exists o.
  - apply wait_turn_None in Hop as [-> _]. by left.
  - unfold forget. destruct (decide (id = j)) as [->|]; [right; right; by rewrite lookup_delete_eq|left; by rewrite lookup_delete_ne].
Qed.

(** C39. No wake-up is lost and nothing leaks, although an answer is stored before the waiters
    are notified and the lock is free in between. In every reachable state the map has exactly
    one entry per outstanding ticket; a thread that is parked although its answer is stored has
    a notification on its way, and that notification leaves no thread parked and every answer
    in its place; a thread that is on its way takes its answer at its next turn; no step removes
    an answer but the return of the wait it is for, or the drop of its ticket; and whatever a
    wait returned was resolved for that very approval. *)
Theorem no_lost_wakeup s :
  rtc gate_step gate_start s →
  (∀ id, is_waiting id (gs_waiting s) = true ↔ is_Some (gs_holders s !! id)) ∧
  (∀ id, gs_holders s !! id = Some HolderParked → is_resolved id (gs_waiting s) = true → to_notify s) ∧
  (∀ t o next w' hs', gs_resolvers s !! t = Some (Notifying o) →
     resolver_next (Notifying o) (gs_waiting s) (gs_holders s) = (next, w', hs') →
     w' = gs_waiting s ∧ ∀ id, hs' !! id ≠ Some HolderParked) ∧
  (∀ id, gs_holders s !! id = Some HolderRunning → is_resolved id (gs_waiting s) = true →
     ∃ o s', wait_turn id (gs_waiting s) = (Some o, <[id := None]> (gs_waiting s)) ∧
             gate_step s s' ∧ gs_delivered s' = (id, o) :: gs_delivered s) ∧
  (∀ id s', gate_step s s' → is_resolved id (gs_waiting s) = true →
     is_resolved id (gs_waiting s') = true ∨ (∃ o, gs_delivered s' = (id, o) :: gs_delivered s)
     ∨ gs_holders s' !! id = None) ∧
  (∀ id o, (id, o) ∈ gs_delivered s → ob_approval_id o = id ∧ o ∈ gs_resolved s).
Proof.
  intros Hwf%gate_reachable_wf. pose proof Hwf as [Ht Hp Hr Ha Hd].
  assert (∀ id, is_resolved id (gs_waiting s) = true → ∃ o, gs_waiting s !! id = Some (Some o)) as Hres.
  { intros id. unfold is_resolved. destruct (gs_waiting s !! id) as [[o|]|]; [by exists o|done..]. }
  split_and!; [| | | |by intros; eapply answer_stays|done].
  - intros id. unfold is_waiting. by rewrite is_some_true, <-Ht.
  - intros id Hpk (o & Ho)%Hres. by eapply Hp.
  - intros t o next w' hs' _ [= <- <- <-]. split; [done|]. intros id. apply wake_not_parked.
  - intros id Hh (o & E)%Hres.
    assert (wait_turn id (gs_waiting s) = (Some o, <[id := None]> (gs_waiting s))) as Hw by (unfold wait_turn; by rewrite E).
    destruct s as [w hs rv dl rs]. cbn in *. eexists o, _. split_and!; [done|by eapply gate_take|done].
Qed.

(** What a waiter learns is what the record says: nothing while the request
    is pending, a grant exactly when the request was granted, with the scope the
    record ends up authorizing; every other end is a refusal that says why. *)
Theorem observation_faithful `{!PlatformLaws} r :
  request_wf r →
  (observation_of r = None ↔ ar_state r = ApPending) ∧
  (∀ o, observation_of r = Some o →
     ob_approval_id o = ar_id r ∧ ob_state o = ar_state r ∧
     (is_granted o = true ↔ ar_state r = Granted) ∧
     (is_granted o = true → ob_scope o = Some (ar_effective_scope r)) ∧
     (ar_decision r = None → is_granted o = false ∧ is_some (ob_reason o) = true)).
Proof.
  intros [_ _ _ _ Hun Han]. unfold observation_of.
  destruct (ar_decision r) as [d|].
  - destruct (Han d eq_refl) as (_ & Hst & _ & Hsc). rewrite Hst. unfold is_granted.
    destruct (ad_verdict d) eqn:Hv; cbn; (split; [done|]); intros o [= <-]; cbn;
      split_and!; try done; intros; by apply Hsc.
  - destruct (Hun eq_refl). unfold is_granted.
    destruct (ar_state r); cbn; (split; [done|]); intros o; try done; intros [= <-]; done.
Qed.
End gate.

Definition demo_observation : ApprovalObservation :=
  MkApprovalObservation demo_approval_id Granted VerdictGranted (Some ExactCall) (Some "reviewed").

Lemma observation_faithful_witness :
  observation_of demo_granted = Some demo_observation ∧ is_granted demo_observation = true.
Proof.
  assert (observation_of demo_granted = Some demo_observation) as Ho by by vm_compute.
  split; [exact Ho|].
  assert (request_wf demo_granted) as Hwf
    by apply (approval_reachable_wf _ _ _ _ demo_question_opens demo_granted_reachable).
  apply (observation_faithful demo_granted Hwf); [exact Ho|by vm_compute].
Defined.

(** The thread parks, the answer is stored, and its notification is on its way. *)
Definition demo_between : GateSystem :=
  MkGateSystem (<[demo_approval_id := Some demo_observation]> {[demo_approval_id := None]})
    {[demo_approval_id := HolderParked]} {[0 := Notifying demo_observation]} [] [demo_observation].
Lemma demo_between_reachable : rtc gate_step gate_start demo_between.
Proof.
  eapply rtc_l; [by apply (gate_ticket ∅ {[demo_approval_id := None]} ∅ ∅ [] [] demo_approval_id)|].
  eapply rtc_l; [by apply (gate_park _ {[demo_approval_id := None]} _ _ _ _ demo_approval_id)|].
  eapply rtc_l; [by apply (gate_resolve _ _ _ _ _ 0 demo_observation)|]. apply rtc_once.
  exact (gate_resolver {[demo_approval_id := None]} (<[demo_approval_id := Some demo_observation]> {[demo_approval_id := None]})
    {[demo_approval_id := HolderParked]} {[demo_approval_id := HolderParked]} {[0 := Resolving demo_observation]} []
    [demo_observation] 0 (Resolving demo_observation) (Some (Notifying demo_observation)) eq_refl eq_refl).
Qed.
Lemma no_lost_wakeup_witness :
  gs_holders demo_between !! demo_approval_id = Some HolderParked ∧
  is_resolved demo_approval_id (gs_waiting demo_between) = true ∧ to_notify demo_between.
Proof.
  assert (gs_holders demo_between !! demo_approval_id = Some HolderParked) as Hh by by vm_compute.
  assert (is_resolved demo_approval_id (gs_waiting demo_between) = true) as Hres by by vm_compute.
  split; [exact Hh|]. split; [exact Hres|].
  destruct (no_lost_wakeup demo_between demo_between_reachable) as (_ & Hn & _). exact (Hn _ Hh Hres).
Defined.
