(* ===== verification/Schedule.v ===== *)
(** * The scheduler: admission, dispatch, cancellation, shutdown

    Models [src/crates/harkness-runtime/src/schedule/scheduler.rs] and
    [workspace.rs].  An [Arc<Workspace>] is an address into [sc_heap], so that a
    workspace dropped from the map while somebody still holds it is a different
    object from the one a later submission creates for the same key.  Each
    critical section is one function of the scheduler's state; the operations
    are their compositions.  Threads, locks and condition variables appear only
    in [ScheduleSafety.v], as the interleaving of the critical sections. *)

From S2P Require Import Prelude Digest Tool External Trust Policy Lifecycle Domain.
From stdpp Require Import base decidable list gmap strings relations.

Definition WORKSPACE_QUEUE_CAPACITY : nat := 64.
Definition WORKSPACE_READ_CONCURRENCY : nat := 4.
Definition MAX_PROCESS_CONCURRENCY : nat := 4.

(** [default_process_limit], from the machine's available parallelism. *)
Definition default_process_limit (available : option nat) : nat :=
  default 1 available `min` MAX_PROCESS_CONCURRENCY.

Definition CancellationToken := nat.

Section schedule.
Context `{Platform}.

Record WorkspaceKey := MkWorkspaceKey {
  wk_project_id : ProjectId;
  wk_canonical_root : CanonicalPath;
}.
#[export] Instance WorkspaceKey_eq_dec : EqDecision WorkspaceKey.
Proof. solve_decision. Defined.

(** Derived [Ord]: the project first, then the path component by component. *)
Fixpoint path_ltb (a b : CanonicalPath) : bool :=
  match a, b with
  | [], [] => false
  | [], _ :: _ => true
  | _ :: _, [] => false
  | x :: a, y :: b => String.ltb x y || (bool_decide (x = y) && path_ltb a b)
  end.
Definition key_ltb (a b : WorkspaceKey) : bool :=
  let '(p, q) := (ProjectId_uuid (wk_project_id a), ProjectId_uuid (wk_project_id b)) in
  Uuid_ltb p q || (bool_decide (p = q) && path_ltb (wk_canonical_root a) (wk_canonical_root b)).

(** ** [tool/context.rs]: the catalog's description of a workspace *)

Inductive WorkspaceSourceKind := SourceLocal | SourceManagedRepository | SourceWorktree.
Record WorkspaceMetadata := MkWorkspaceMetadata {
  wm_project_id : ProjectId;
  wm_display_name : string;
  wm_source : WorkspaceSourceKind;
  wm_canonical_root : CanonicalPath;
}.
(** [ToolError::ForbiddenPath] *)
Record ForbiddenPath := MkForbiddenPath { fp_path : CanonicalPath; fp_reason : string }.

Inductive Admission :=
| AdmitPending
| AdmitApproved (decided_by : string)
| AdmitBoundApproved (decided_by : string) (expected_tool : ToolIdentity)
    (expected_input_hash : InputHash).

Record ScheduledCall := MkScheduledCall {
  sd_call : ToolCallId;
  sd_workspace : WorkspaceKey;
  sd_risk : RiskLevel;
  sd_cancellation : CancellationToken;
  sd_admission : Admission;
  sd_workspace_metadata : option WorkspaceMetadata;
}.
Definition ScheduledCall_new (call : ToolCallId) (workspace : WorkspaceKey) (risk : RiskLevel)
    (cancellation : CancellationToken) : ScheduledCall :=
  MkScheduledCall call workspace risk cancellation AdmitPending None.

(** [std::fs::canonicalize] is a parameter. *)
Definition with_workspace_metadata (canonicalize : CanonicalPath → result string CanonicalPath)
    (metadata : WorkspaceMetadata) (c : ScheduledCall) : result ForbiddenPath ScheduledCall :=
  let forbidden reason := Err (MkForbiddenPath (wm_canonical_root metadata) reason) in
  if negb (bool_decide (wm_project_id metadata = wk_project_id (sd_workspace c)))
  then forbidden "workspace metadata names a different catalog project"
  else
    match canonicalize (wm_canonical_root metadata) with
    | Err error => forbidden ("the catalog workspace root is unavailable: " +:+ error)
    | Ok canonical =>
      if negb (bool_decide (canonical = wk_canonical_root (sd_workspace c)))
      then forbidden "workspace metadata names a different canonical root"
      else Ok (MkScheduledCall (sd_call c) (sd_workspace c) (sd_risk c) (sd_cancellation c)
                 (sd_admission c) (Some metadata))
    end.
Definition approved_by (by_ : string) (c : ScheduledCall) : ScheduledCall :=
  MkScheduledCall (sd_call c) (sd_workspace c) (sd_risk c) (sd_cancellation c)
    (AdmitApproved by_) (sd_workspace_metadata c).
Definition approved_with_binding (by_ : string) (tool : ToolIdentity) (hash : InputHash)
    (c : ScheduledCall) : ScheduledCall :=
  MkScheduledCall (sd_call c) (sd_workspace c) (sd_risk c) (sd_cancellation c)
    (AdmitBoundApproved by_ tool hash) (sd_workspace_metadata c).

(** The [report] half of the ticket's channel is [sc_reports] below. *)
Record Waiting := MkWaiting {
  w_dispatch : N;
  w_call : ToolCallId;
  w_run : RunId;
  w_root : CanonicalPath;
  w_risk : RiskLevel;
  w_spawns_processes : bool;
  w_cancellation : CancellationToken;
  w_admission : Admission;
  w_workspace_metadata : option WorkspaceMetadata;
}.

Record Running := MkRunning {
  r_run : RunId;
  r_cancellation : CancellationToken;
  r_mutating : bool;
  r_holds_process : bool;
}.

(** [Workspace] with its [WorkspaceState].  The running set is keyed by the
    dispatch number; no operation depends on the order of its entries. *)
Record Workspace := MkWorkspace {
  ws_key : WorkspaceKey;
  ws_queue : list Waiting;
  ws_running : list (N * Running);
  ws_waiting : nat;
}.

Definition Workspace_empty (key : WorkspaceKey) : Workspace := MkWorkspace key [] [] 0.

(** [BTreeMap::insert] and [remove] on the running set *)
Definition running_remove (d : N) (l : list (N * Running)) : list (N * Running) :=
  filter (λ e, e.1 ≠ d) l.
Definition running_insert (d : N) (r : Running) (l : list (N * Running))
    : list (N * Running) :=
  (d, r) :: running_remove d l.
Definition running_get (d : N) (l : list (N * Running)) : option Running :=
  snd <$> find (λ e, bool_decide (e.1 = d)) l.

Definition mutating (ws : Workspace) : bool := existsb (λ e, r_mutating e.2) (ws_running ws).
Definition reads (ws : Workspace) : nat :=
  length (filter (λ e, r_mutating e.2 = false) (ws_running ws)).
Definition is_idle (ws : Workspace) : bool :=
  bool_decide (ws_queue ws = []) && bool_decide (ws_running ws = [])
  && bool_decide (ws_waiting ws = 0).

(** ** [Inner] *)

Inductive ScheduleError :=
| SchedShutdown (call : ToolCallId)
| AlreadyScheduled (call : ToolCallId)
| SchedExecution (call : ToolCallId)
| WorkerLost (call : ToolCallId).

(** [ScheduleError::call] *)
Definition ScheduleError_call (e : ScheduleError) : ToolCallId :=
  match e with
  | SchedShutdown call | AlreadyScheduled call | SchedExecution call | WorkerLost call => call
  end.

(** What a ticket's channel was sent. *)
Inductive Report := CancelledUndispatched (call : ToolCallId) | Ran (call : ToolCallId).

(** The guard a worker thread carries. *)
Record Completion := MkCompletion {
  c_workspace : nat;
  c_dispatch : N;
  c_call : ToolCallId;
}.

Record Inner := MkInner {
  sc_heap : list Workspace;
  sc_workspaces : list (WorkspaceKey * nat);
  sc_capacity : nat;
  sc_in_use : nat;
  sc_live : nat;
  sc_dispatched : N;
  sc_sweep : N;
  sc_claimed : gset ToolCallId;
  sc_shutting_down : bool;
  sc_cancelled : gset nat;
  sc_reports : list Report;
}.

Definition set_workspace (a : nat) (ws : Workspace) (s : Inner) : Inner :=
  MkInner (<[a := ws]> (sc_heap s)) (sc_workspaces s) (sc_capacity s) (sc_in_use s)
    (sc_live s) (sc_dispatched s) (sc_sweep s) (sc_claimed s) (sc_shutting_down s)
    (sc_cancelled s) (sc_reports s).
Definition set_map (m : list (WorkspaceKey * nat)) (s : Inner) : Inner :=
  MkInner (sc_heap s) m (sc_capacity s) (sc_in_use s)
    (sc_live s) (sc_dispatched s) (sc_sweep s) (sc_claimed s) (sc_shutting_down s)
    (sc_cancelled s) (sc_reports s).
Definition set_slots (in_use : nat) (s : Inner) : Inner :=
  MkInner (sc_heap s) (sc_workspaces s) (sc_capacity s) in_use
    (sc_live s) (sc_dispatched s) (sc_sweep s) (sc_claimed s) (sc_shutting_down s)
    (sc_cancelled s) (sc_reports s).
Definition set_live (live : nat) (s : Inner) : Inner :=
  MkInner (sc_heap s) (sc_workspaces s) (sc_capacity s) (sc_in_use s)
    live (sc_dispatched s) (sc_sweep s) (sc_claimed s) (sc_shutting_down s)
    (sc_cancelled s) (sc_reports s).
Definition set_claimed (claimed : gset ToolCallId) (s : Inner) : Inner :=
  MkInner (sc_heap s) (sc_workspaces s) (sc_capacity s) (sc_in_use s)
    (sc_live s) (sc_dispatched s) (sc_sweep s) claimed (sc_shutting_down s)
    (sc_cancelled s) (sc_reports s).
Definition add_report (r : Report) (s : Inner) : Inner :=
  MkInner (sc_heap s) (sc_workspaces s) (sc_capacity s) (sc_in_use s)
    (sc_live s) (sc_dispatched s) (sc_sweep s) (sc_claimed s) (sc_shutting_down s)
    (sc_cancelled s) (sc_reports s ++ [r]).

(** [with_process_limit] *)
Definition Scheduler_with_process_limit (processes : nat) : Inner :=
  MkInner [] [] (processes `max` 1) 0 0 0 0 ∅ false ∅ [].

(** ** Claims and counters *)

Definition claim (call : ToolCallId) : stateM Inner ScheduleError unit := λ s,
  if decide (call ∈ sc_claimed s) then (Err (AlreadyScheduled call), s)
  else (Ok tt, set_claimed ({[call]} ∪ sc_claimed s) s).
Definition release (call : ToolCallId) (s : Inner) : Inner :=
  set_claimed (sc_claimed s ∖ {[call]}) s.

(** [AtomicU64::fetch_add] wraps. *)
Definition fetch_add_dispatched (s : Inner) : N * Inner :=
  (sc_dispatched s,
   MkInner (sc_heap s) (sc_workspaces s) (sc_capacity s) (sc_in_use s) (sc_live s)
     ((sc_dispatched s + 1) mod 2 ^ 64) (sc_sweep s) (sc_claimed s) (sc_shutting_down s)
     (sc_cancelled s) (sc_reports s)).
Definition fetch_add_sweep (s : Inner) : N * Inner :=
  (sc_sweep s,
   MkInner (sc_heap s) (sc_workspaces s) (sc_capacity s) (sc_in_use s) (sc_live s)
     (sc_dispatched s) ((sc_sweep s + 1) mod 2 ^ 64) (sc_claimed s) (sc_shutting_down s)
     (sc_cancelled s) (sc_reports s)).

(** ** The workspace map *)

Definition map_get (key : WorkspaceKey) (m : list (WorkspaceKey * nat)) : option nat :=
  snd <$> find (λ e, bool_decide (e.1 = key)) m.
(** [BTreeMap::insert] of a key that is absent *)
Fixpoint map_insert (key : WorkspaceKey) (a : nat) (m : list (WorkspaceKey * nat))
    : list (WorkspaceKey * nat) :=
  match m with
  | [] => [(key, a)]
  | e :: m => if key_ltb key e.1 then (key, a) :: e :: m else e :: map_insert key a m
  end.

(** [entry(key).or_insert_with(...)] *)
Definition get_or_insert (key : WorkspaceKey) (s : Inner) : nat * Inner :=
  match map_get key (sc_workspaces s) with
  | Some a => (a, s)
  | None =>
    let a := length (sc_heap s) in
    (a, MkInner (sc_heap s ++ [Workspace_empty key]) (map_insert key a (sc_workspaces s))
          (sc_capacity s) (sc_in_use s) (sc_live s) (sc_dispatched s) (sc_sweep s)
          (sc_claimed s) (sc_shutting_down s) (sc_cancelled s) (sc_reports s))
  end.

Definition live_workspaces (s : Inner) : list nat := (sc_workspaces s).*2.

Definition with_workspace {A} (a : nat) (f : Workspace → Inner → A * Inner) (none : A)
    (s : Inner) : A * Inner :=
  match sc_heap s !! a with
  | Some ws => f ws s
  | None => (none, s)
  end.

(** [WorkspaceState::waiting] counts a submitter that holds no lock. *)
Definition bump_waiting (a : nat) (s : Inner) : Inner :=
  match sc_heap s !! a with
  | Some ws => set_workspace a (MkWorkspace (ws_key ws) (ws_queue ws) (ws_running ws)
                                  (ws_waiting ws + 1)) s
  | None => s
  end.
Definition drop_waiting (a : nat) (s : Inner) : Inner :=
  match sc_heap s !! a with
  | Some ws => set_workspace a (MkWorkspace (ws_key ws) (ws_queue ws) (ws_running ws)
                                  (ws_waiting ws - 1)) s
  | None => s
  end.

(** ** [ProcessLimit] *)

Definition try_acquire (s : Inner) : bool * Inner :=
  if (sc_capacity s <=? sc_in_use s)%nat then (false, s)
  else (true, set_slots (sc_in_use s + 1) s).
Definition release_slot (s : Inner) : Inner := set_slots (sc_in_use s - 1) s.

(** ** [admit] *)

(** Whether the workspace's own rules let a call through. *)
Definition workspace_admits (ws : Workspace) (head : Waiting) : bool :=
  if mutates_state (w_risk head) then bool_decide (ws_running ws = [])
  else negb (mutating ws || (WORKSPACE_READ_CONCURRENCY <=? reads ws)%nat).

(** One turn of the loop: the front call, admitted, or nothing. *)
Definition admit_one (a : nat) (s : Inner) : option Waiting * Inner :=
  with_workspace a (λ ws s,
    match ws_queue ws with
    | [] => (None, s)
    | head :: rest =>
      if sc_shutting_down s then (None, s)
      else if negb (workspace_admits ws head) then (None, s)
      else
        let holds_process := w_spawns_processes head in
        let '(acquired, s1) := if holds_process then try_acquire s else (true, s) in
        if negb acquired then (None, s1)
        else
          let s2 := set_live (sc_live s1 + 1) s1 in
          let running := MkRunning (w_run head) (w_cancellation head)
            (mutates_state (w_risk head)) holds_process in
          (Some head,
           set_workspace a (MkWorkspace (ws_key ws) rest
             (running_insert (w_dispatch head) running (ws_running ws)) (ws_waiting ws)) s2)
    end) None s.

(** The loop; each turn shortens the queue, so its length is enough fuel. *)
Fixpoint admit_loop (fuel : nat) (a : nat) (s : Inner) : list Waiting * Inner :=
  match fuel with
  | 0 => ([], s)
  | S fuel =>
    match admit_one a s with
    | (None, s) => ([], s)
    | (Some w, s) => let '(ready, s) := admit_loop fuel a s in (w :: ready, s)
    end
  end.

Definition admit_calls (a : nat) (s : Inner) : list Waiting * Inner :=
  admit_loop (from_option (λ ws, length (ws_queue ws)) 0 (sc_heap s !! a)) a s.

(** [dispatch] spawns one worker per admitted call; a worker is its guard. *)
Definition dispatch (a : nat) (ready : list Waiting) : list Completion :=
  (λ w, MkCompletion a (w_dispatch w) (w_call w)) <$> ready.

Definition admit_and_dispatch (a : nat) (s : Inner) : list Completion * Inner :=
  let '(ready, s) := admit_calls a s in (dispatch a ready, s).

(** ** [submit], after the record is loaded *)

(** The higher of the classified and the declared risk. *)
Definition waiting_of (c : ScheduledCall) (run : RunId) (declared : RiskLevel)
    (spawns : bool) (number : N) : Waiting :=
  MkWaiting number (sd_call c) run (wk_canonical_root (sd_workspace c))
    (risk_max (sd_risk c) declared) spawns (sd_cancellation c) (sd_admission c)
    (sd_workspace_metadata c).

(** [declared]: an unresolvable tool falls back to the mildest declaration. *)
Definition declared (registry_get : ToolId → option ToolVersion → option ToolDescriptor)
    (id version : string) : RiskLevel * bool :=
  let resolved :=
    match ToolId_new id with
    | Err _ => None
    | Ok id =>
      if decide (version = "") then registry_get id None
      else match ToolVersion_new version with
           | Ok version => registry_get id (Some version)
           | Err _ => None
           end
    end in
  match resolved with
  | None => (lowest, false)
  | Some tool => (td_risk tool, td_spawns_processes tool)
  end.

(** The opening of [submit]: refuse, claim, load, number. *)
Definition submit_enter (load_tool_call : ToolCallId → option ToolCall)
    (registry_get : ToolId → option ToolVersion → option ToolDescriptor)
    (c : ScheduledCall) (s : Inner) : result ScheduleError Waiting * Inner :=
  if sc_shutting_down s then (Err (SchedShutdown (sd_call c)), s)
  else
    match claim (sd_call c) s with
    | (Err e, s) => (Err e, s)
    | (Ok _, s) =>
      match load_tool_call (sd_call c) with
      | None => (Err (SchedExecution (sd_call c)), release (sd_call c) s)
      | Some record =>
        let '(risk, spawns) :=
          declared registry_get (call_tool_id record) (call_tool_version record) in
        let '(number, s) := fetch_add_dispatched s in
        (Ok (waiting_of c (call_run_id record) risk spawns number), s)
      end
    end.

(** Get-or-insert and registration, under the map lock. *)
Definition register (key : WorkspaceKey) (s : Inner) : nat * Inner :=
  let '(a, s) := get_or_insert key s in (a, bump_waiting a s).

(** The condition the submitter leaves the backpressure loop on. *)
Definition has_room (a : nat) (s : Inner) : bool :=
  is_some_and (λ ws, length (ws_queue ws) <? WORKSPACE_QUEUE_CAPACITY)%nat (sc_heap s !! a).
Definition may_join (a : nat) (s : Inner) : bool := has_room a s || sc_shutting_down s.

Definition push_back (a : nat) (w : Waiting) (s : Inner) : Inner :=
  match sc_heap s !! a with
  | Some ws => set_workspace a (MkWorkspace (ws_key ws) (ws_queue ws ++ [w]) (ws_running ws)
                                  (ws_waiting ws)) s
  | None => s
  end.

(** Leaving the loop: join the queue, or give the claim back. *)
Definition join (a : nat) (w : Waiting) (s : Inner)
    : result ScheduleError (list Completion) * Inner :=
  let s := drop_waiting a s in
  if sc_shutting_down s then (Err (SchedShutdown (w_call w)), release (w_call w) s)
  else
    let '(spawned, s) := admit_and_dispatch a (push_back a w s) in
    (Ok spawned, s).

(** ** Completion *)

Definition complete_free (a : nat) (d : N) (s : Inner) : bool * Inner :=
  with_workspace a (λ ws s,
    let released := is_some_and r_holds_process (running_get d (ws_running ws)) in
    let s := set_workspace a (MkWorkspace (ws_key ws) (ws_queue ws)
               (running_remove d (ws_running ws)) (ws_waiting ws)) s in
    (released, if released then release_slot s else s)) false s.

Definition rotate_left {A} (n : nat) (l : list A) : list A := drop n l ++ take n l.

(** The order a freed process slot is offered in. *)
Definition pump_order (released : nat) (s : Inner) : list nat * Inner :=
  let workspaces := live_workspaces s in
  let workspaces :=
    if decide (released ∈ workspaces) then workspaces else workspaces ++ [released] in
  let '(n, s) := fetch_add_sweep s in
  (rotate_left (N.to_nat (n mod N.of_nat (length workspaces))) workspaces, s).

Fixpoint pump (workspaces : list nat) (s : Inner) : list Completion * Inner :=
  match workspaces with
  | [] => ([], s)
  | a :: rest =>
    let '(spawned, s) := admit_and_dispatch a s in
    let '(more, s) := pump rest s in
    (spawned ++ more, s)
  end.

Definition pump_in_turn (released : nat) (s : Inner) : list Completion * Inner :=
  let '(order, s) := pump_order released s in pump order s.

(** [try_lock] may find a workspace locked: [locked] says which. *)
Definition forget_idle (locked : nat → bool) (s : Inner) : Inner :=
  set_map (filter (λ e, locked e.2 = true ∨
             from_option is_idle false (sc_heap s !! e.2) = false) (sc_workspaces s)) s.

Definition complete (locked : nat → bool) (a : nat) (d : N) (s : Inner)
    : list Completion * Inner :=
  let '(released, s) := complete_free a d s in
  let '(spawned, s) := if released then pump_in_turn a s else admit_and_dispatch a s in
  (spawned, forget_idle locked s).

(** [Completion::drop], then the report. *)
Definition finish (locked : nat → bool) (c : Completion) (s : Inner) : list Completion * Inner :=
  let '(spawned, s) := complete locked (c_workspace c) (c_dispatch c) s in
  let s := release (c_call c) s in
  (spawned, add_report (Ran (c_call c)) (set_live (sc_live s - 1) s)).

(** ** Cancellation *)

Definition stop_matches (run : option RunId) (candidate : RunId) : bool :=
  match run with None => true | Some run => bool_decide (run = candidate) end.

(** One workspace's sweep: the calls taken out of its queue. *)
Definition stop_sweep (run : option RunId) (a : nat) (s : Inner) : (list Waiting * nat) * Inner :=
  with_workspace a (λ ws s,
    let removed := filter (λ w, stop_matches run (w_run w) = true) (ws_queue ws) in
    let kept := filter (λ w, stop_matches run (w_run w) = false) (ws_queue ws) in
    let tripped := filter (λ e, stop_matches run (r_run e.2) = true) (ws_running ws) in
    let s := set_workspace a (MkWorkspace (ws_key ws) kept (ws_running ws) (ws_waiting ws)) s in
    ((removed, length tripped),
     MkInner (sc_heap s) (sc_workspaces s) (sc_capacity s) (sc_in_use s) (sc_live s)
       (sc_dispatched s) (sc_sweep s) (sc_claimed s) (sc_shutting_down s)
       (list_to_set ((λ e, r_cancellation e.2) <$> tripped) ∪ sc_cancelled s)
       (sc_reports s))) ([], 0) s.

Fixpoint stop_sweeps (run : option RunId) (workspaces : list nat) (s : Inner)
    : (list (nat * list Waiting) * nat) * Inner :=
  match workspaces with
  | [] => (([], 0), s)
  | a :: rest =>
    let '((removed, tripped), s) := stop_sweep run a s in
    let '((swept, more), s) := stop_sweeps run rest s in
    (((a, removed) :: swept, tripped + more), s)
  end.

(** A removed call is recorded cancelled and its claim given back. *)
Definition settle_removed (w : Waiting) (s : Inner) : Inner :=
  release (w_call w) (add_report (CancelledUndispatched (w_call w)) s).

Fixpoint stop_settle (swept : list (nat * list Waiting)) (s : Inner) : list Completion * Inner :=
  match swept with
  | [] => ([], s)
  | (a, removed) :: rest =>
    let s := foldl (λ s w, settle_removed w s) s removed in
    let '(spawned, s) := admit_and_dispatch a s in
    let '(more, s) := stop_settle rest s in
    (spawned ++ more, s)
  end.

Record CancelReport := MkCancelReport { cr_queued : nat; cr_running : nat }.

Definition stop (locked : nat → bool) (run : option RunId) (s : Inner)
    : (CancelReport * list Completion) * Inner :=
  let '((swept, tripped), s) := stop_sweeps run (live_workspaces s) s in
  let queued := sum_list ((λ e, length e.2) <$> swept) in
  let '(spawned, s) := stop_settle swept s in
  ((MkCancelReport queued tripped, spawned), forget_idle locked s).

Definition cancel_run (locked : nat → bool) (run : RunId) (s : Inner) :=
  stop locked (Some run) s.

(** [shutdown] up to the wait for the workers. *)
Definition begin_shutdown (s : Inner) : Inner :=
  MkInner (sc_heap s) (sc_workspaces s) (sc_capacity s) (sc_in_use s) (sc_live s)
    (sc_dispatched s) (sc_sweep s) (sc_claimed s) true (sc_cancelled s) (sc_reports s).
Definition shutdown (locked : nat → bool) (s : Inner) : (CancelReport * list Completion) * Inner :=
  if sc_shutting_down s then ((MkCancelReport 0 0, []), s)
  else stop locked None (begin_shutdown s).

(** ** [submit], whole *)

(** For a submitter that finds room at once: [None] is one that has to wait for
    room first.  A submission that sees a shutdown once it has joined sweeps. *)
Definition submit (load_tool_call : ToolCallId → option ToolCall)
    (registry_get : ToolId → option ToolVersion → option ToolDescriptor)
    (locked : nat → bool) (c : ScheduledCall) (s : Inner)
    : option (result ScheduleError (list Completion)) * Inner :=
  match submit_enter load_tool_call registry_get c s with
  | (Err e, s) => (Some (Err e), s)
  | (Ok w, s) =>
    let '(a, s) := register (sd_workspace c) s in
    if may_join a s then
      match join a w s with
      | (Err e, s) => (Some (Err e), s)
      | (Ok spawned, s) =>
        if sc_shutting_down s then
          let '((_, more), s) := stop locked None s in (Some (Ok (spawned ++ more)), s)
        else (Some (Ok spawned), s)
      end
    else (None, s)
  end.

(** ** [snapshot.rs] *)

Record WorkspaceLoad := MkWorkspaceLoad {
  wl_workspace : WorkspaceKey;
  wl_queued : nat;
  wl_running : nat;
  wl_waiting : nat;
  wl_mutating : bool;
}.
Record ProcessSlots := MkProcessSlots { ps_in_use : nat; ps_capacity : nat }.
Definition available (p : ProcessSlots) : nat := ps_capacity p - ps_in_use p.
Record ScheduleSnapshot := MkScheduleSnapshot {
  sn_workspaces : list WorkspaceLoad;
  sn_processes : ProcessSlots;
  sn_shutting_down : bool;
}.
Definition snapshot_queued (sn : ScheduleSnapshot) : nat :=
  sum_list (wl_queued <$> sn_workspaces sn).
Definition snapshot_running (sn : ScheduleSnapshot) : nat :=
  sum_list (wl_running <$> sn_workspaces sn).

Definition load_of (ws : Workspace) : option WorkspaceLoad :=
  if is_idle ws then None
  else Some (MkWorkspaceLoad (ws_key ws) (length (ws_queue ws)) (length (ws_running ws))
               (ws_waiting ws) (mutating ws)).
Definition snapshot (s : Inner) : ScheduleSnapshot :=
  MkScheduleSnapshot
    (omap (λ a, sc_heap s !! a ≫= load_of) (live_workspaces s))
    (MkProcessSlots (sc_in_use s) (sc_capacity s)) (sc_shutting_down s).
End schedule.
