(* ===== verification/ScheduleSafety.v ===== *)
(** * The scheduler's safety, over every interleaving

    [sched_step] lets the threads of the scheduler take their critical sections
    in any order: submitters entering, registering, joining or giving up, workers
    finishing, sweeps, cancellations and shutdown.  Where one lock is held across
    two of the steps below, the relation allows the others in between, so it has
    more behaviours than the code. *)

From S2P Require Import Prelude Digest Tool External Trust Policy Lifecycle Domain Schedule.
From stdpp Require Import base decidable list gmap strings relations.

Lemma NoDup_shrink {A} (l k : list A) : l ⊆+ k → NoDup k → NoDup l.
Proof. by intros [k' ->]%submseteq_Permutation [? _]%NoDup_app. Qed.

Section safety.
Context `{Platform}.
Context (load_tool_call : ToolCallId → option ToolCall).
Context (registry_get : ToolId → option ToolVersion → option ToolDescriptor).

(** The scheduler and what each of its threads is in the middle of. *)
Record System := MkSystem {
  sy_inner : Inner;
  (** submitters with a claim and a number, before they register *)
  sy_entering : list (WorkspaceKey * Waiting);
  (** submitters counted by [ws_waiting], at the backpressure loop *)
  sy_parked : list (nat * Waiting);
  (** workers whose call occupies its slots *)
  sy_workers : list Completion;
  (** workers that freed their slots and still hold the claim *)
  sy_finishing : list Completion;
  (** calls swept out of a queue and not yet recorded *)
  sy_removed : list Waiting;
}.

Inductive sched_step : System → System → Prop :=
| step_enter s s' en pk wk fi rm c w :
    (sc_dispatched s + 1 < 2 ^ 64)%N →
    submit_enter load_tool_call registry_get c s = (Ok w, s') →
    sched_step (MkSystem s en pk wk fi rm)
      (MkSystem s' ((sd_workspace c, w) :: en) pk wk fi rm)
| step_refuse s s' en pk wk fi rm c e :
    submit_enter load_tool_call registry_get c s = (Err e, s') →
    sched_step (MkSystem s en pk wk fi rm) (MkSystem s' en pk wk fi rm)
| step_register s s' en1 en2 pk wk fi rm key w a :
    register key s = (a, s') →
    sched_step (MkSystem s (en1 ++ (key, w) :: en2) pk wk fi rm)
      (MkSystem s' (en1 ++ en2) ((a, w) :: pk) wk fi rm)
| step_join s en pk1 pk2 wk fi rm a w :
    has_room a s = true →
    sched_step (MkSystem s en (pk1 ++ (a, w) :: pk2) wk fi rm)
      (MkSystem (push_back a w (drop_waiting a s)) en (pk1 ++ pk2) wk fi rm)
| step_give_up s en pk1 pk2 wk fi rm a w :
    sc_shutting_down s = true →
    sched_step (MkSystem s en (pk1 ++ (a, w) :: pk2) wk fi rm)
      (MkSystem (release (w_call w) (drop_waiting a s)) en (pk1 ++ pk2) wk fi rm)
| step_admit s s' en pk wk fi rm a w :
    admit_one a s = (Some w, s') →
    sched_step (MkSystem s en pk wk fi rm)
      (MkSystem s' en pk (MkCompletion a (w_dispatch w) (w_call w) :: wk) fi rm)
| step_free s en pk wk1 wk2 fi rm c :
    sched_step (MkSystem s en pk (wk1 ++ c :: wk2) fi rm)
      (MkSystem (complete_free (c_workspace c) (c_dispatch c) s).2 en pk (wk1 ++ wk2)
         (c :: fi) rm)
| step_leave s en pk wk fi1 fi2 rm c :
    sched_step (MkSystem s en pk wk (fi1 ++ c :: fi2) rm)
      (MkSystem (add_report (Ran (c_call c))
                   (set_live (sc_live s - 1) (release (c_call c) s)))
         en pk wk (fi1 ++ fi2) rm)
| step_forget s en pk wk fi rm locked :
    sched_step (MkSystem s en pk wk fi rm) (MkSystem (forget_idle locked s) en pk wk fi rm)
| step_sweep s s' en pk wk fi rm run a removed tripped :
    stop_sweep run a s = ((removed, tripped), s') →
    sched_step (MkSystem s en pk wk fi rm) (MkSystem s' en pk wk fi (removed ++ rm))
| step_settle s en pk wk fi rm1 rm2 w :
    sched_step (MkSystem s en pk wk fi (rm1 ++ w :: rm2))
      (MkSystem (settle_removed w s) en pk wk fi (rm1 ++ rm2))
| step_shutdown s en pk wk fi rm :
    sched_step (MkSystem s en pk wk fi rm) (MkSystem (begin_shutdown s) en pk wk fi rm)
| step_turn s en pk wk fi rm :
    sched_step (MkSystem s en pk wk fi rm) (MkSystem (fetch_add_sweep s).2 en pk wk fi rm).

Definition sched_start (processes : nat) : System :=
  MkSystem (Scheduler_with_process_limit processes) [] [] [] [] [].

(** ** The invariant *)

Definition active (ws : Workspace) : Prop := is_idle ws = false.

(** A mutation runs alone; reads are capped. *)
Definition slots_ok (ws : Workspace) : Prop :=
  (∀ e, e ∈ ws_running ws → r_mutating e.2 = true → length (ws_running ws) = 1) ∧
  length (ws_running ws) ≤ WORKSPACE_READ_CONCURRENCY.

Definition holders (ws : Workspace) : list (N * Running) :=
  filter (λ e, r_holds_process e.2 = true) (ws_running ws).

Definition numbers (ws : Workspace) : list N :=
  (w_dispatch <$> ws_queue ws) ++ (ws_running ws).*1.

Definition queued_calls (ws : Workspace) : list ToolCallId := w_call <$> ws_queue ws.

Definition workers_at (a : nat) (wk : list Completion) : list N :=
  c_dispatch <$> filter (λ c, c_workspace c = a) wk.

Definition all_numbers (y : System) : list N :=
  (w_dispatch <$> (sy_entering y).*2) ++ (w_dispatch <$> (sy_parked y).*2)
  ++ (sc_heap (sy_inner y) ≫= numbers).

(** Where each claimed call is: at most one place. *)
Definition all_calls (y : System) : list ToolCallId :=
  (w_call <$> (sy_entering y).*2) ++ (w_call <$> (sy_parked y).*2)
  ++ (sc_heap (sy_inner y) ≫= queued_calls)
  ++ (c_call <$> sy_workers y) ++ (c_call <$> sy_finishing y) ++ (w_call <$> sy_removed y).

Record map_wf (s : Inner) : Prop := {
  map_keys : NoDup (sc_workspaces s).*1;
  map_sound : ∀ k a, (k, a) ∈ sc_workspaces s →
    ∃ ws, sc_heap s !! a = Some ws ∧ ws_key ws = k;
  map_active : ∀ a ws, sc_heap s !! a = Some ws → active ws →
    (ws_key ws, a) ∈ sc_workspaces s;
}.

Definition object_ok (ws : Workspace) : Prop :=
  slots_ok ws ∧ length (ws_queue ws) ≤ WORKSPACE_QUEUE_CAPACITY.

Record sched_wf (y : System) : Prop := {
  sy_map : map_wf (sy_inner y);
  sy_objects : ∀ a ws, sc_heap (sy_inner y) !! a = Some ws → object_ok ws;
  sy_processes : sc_in_use (sy_inner y) = length (sc_heap (sy_inner y) ≫= holders);
  sy_capacity : sc_in_use (sy_inner y) ≤ sc_capacity (sy_inner y);
  sy_waiting : ∀ a, length (filter (λ p, p.1 = a) (sy_parked y)) =
    from_option ws_waiting 0 (sc_heap (sy_inner y) !! a);
  sy_numbers : NoDup (all_numbers y) ∧
    ∀ d, d ∈ all_numbers y → (d < sc_dispatched (sy_inner y))%N;
  sy_calls : NoDup (all_calls y) ∧ ∀ c, c ∈ all_calls y → c ∈ sc_claimed (sy_inner y);
  sy_working : ∀ a, workers_at a (sy_workers y) ≡ₚ
    from_option (λ ws, (ws_running ws).*1) [] (sc_heap (sy_inner y) !! a);
  sy_live : sc_live (sy_inner y) = length (sy_workers y) + length (sy_finishing y);
}.

(** Updating one object of the heap changes that object's share alone. *)
Lemma heap_bind_insert {A} (f : Workspace → list A) (h : list Workspace) a ws :
  h !! a = Some ws →
  ∃ rest, h ≫= f ≡ₚ f ws ++ rest ∧ ∀ ws', <[a := ws']> h ≫= f ≡ₚ f ws' ++ rest.
Proof.
  intros Ha. pose proof (lookup_lt_Some _ _ _ Ha) as Hlt.
  exists ((take a h ≫= f) ++ (drop (S a) h ≫= f)). split.
  - rewrite <-(take_drop_middle _ _ _ Ha) at 1. rewrite bind_app, bind_cons.
    by rewrite Permutation_app_swap_app.
  - intros ws'. rewrite insert_take_drop by done. rewrite bind_app, bind_cons.
    by rewrite Permutation_app_swap_app.
Qed.

(** ** The workspace map *)

Lemma map_wf_set a ws ws' s s' :
  sc_heap s !! a = Some ws → ws_key ws' = ws_key ws →
  (active ws' → (ws_key ws, a) ∈ sc_workspaces s) →
  sc_heap s' = <[a := ws']> (sc_heap s) → sc_workspaces s' = sc_workspaces s →
  map_wf s → map_wf s'.
Proof.
  intros Ha Hk Hact Hh Hm [Hkeys Hsound Hactive].
  pose proof (lookup_lt_Some _ _ _ Ha) as Hlt.
  split; rewrite ?Hh, ?Hm; [done| |].
  - intros k b [wb [Hb <-]]%Hsound. destruct (decide (a = b)) as [<-|Hne].
    + simplify_eq. exists ws'. by rewrite list_lookup_insert_eq.
    + exists wb. by rewrite list_lookup_insert_ne.
  - intros b wb Hb Hwb. destruct (decide (a = b)) as [<-|Hne].
    + rewrite list_lookup_insert_eq in Hb by done. simplify_eq. rewrite Hk. eauto.
    + rewrite list_lookup_insert_ne in Hb by done. eauto.
Qed.

Lemma map_wf_same s s' :
  sc_heap s' = sc_heap s → sc_workspaces s' = sc_workspaces s → map_wf s → map_wf s'.
Proof. intros Hh Hm [Hk Hs Ha]. by split; rewrite ?Hh, ?Hm. Qed.

Lemma map_insert_perm key a m : Schedule.map_insert key a m ≡ₚ (key, a) :: m.
Proof.
  induction m as [|e m IH]; simpl; [done|]. destruct (key_ltb key e.1); [done|].
  rewrite IH. apply Permutation_swap.
Qed.

Lemma map_get_Some key m a : map_get key m = Some a → (key, a) ∈ m.
Proof.
  unfold map_get. rewrite fmap_Some. intros [[k b] [Hf ->]].
  apply find_some in Hf as [Hin Hk%bool_decide_eq_true]. simpl in *. subst.
  by apply list_elem_of_In.
Qed.
Lemma map_get_None key m : map_get key m = None → key ∉ m.*1.
Proof.
  unfold map_get. rewrite fmap_None. intros Hf [[k a] [-> Hin]]%list_elem_of_fmap.
  apply list_elem_of_In in Hin. pose proof (find_none _ _ Hf _ Hin) as Hk.
  by apply bool_decide_eq_false in Hk.
Qed.

Lemma map_wf_forget locked s : map_wf s → map_wf (forget_idle locked s).
Proof.
  intros [Hk Hs Ha]. split; simpl.
  - eapply NoDup_shrink, Hk. by apply sublist_submseteq, fmap_sublist, sublist_filter.
  - intros k a [_ Hin]%list_elem_of_filter. eauto.
  - intros a ws Hws Hact. apply list_elem_of_filter. split; [right|eauto].
    simpl. by rewrite Hws.
Qed.

(** ** What the steps do to the heap *)

Lemma admit_one_Some a s w s' :
  admit_one a s = (Some w, s') →
  ∃ ws rest,
    sc_heap s !! a = Some ws ∧ ws_queue ws = w :: rest ∧ sc_shutting_down s = false ∧
    workspace_admits ws w = true ∧
    (w_spawns_processes w = true → sc_in_use s < sc_capacity s) ∧
    s' = set_workspace a
           (MkWorkspace (ws_key ws) rest
              (running_insert (w_dispatch w)
                 (MkRunning (w_run w) (w_cancellation w) (mutates_state (w_risk w))
                    (w_spawns_processes w)) (ws_running ws)) (ws_waiting ws))
           (set_live (sc_live s + 1)
              (set_slots (sc_in_use s + Nat.b2n (w_spawns_processes w)) s)).
Proof.
  unfold admit_one, with_workspace. destruct (sc_heap s !! a) as [ws|]; [|done].
  destruct (ws_queue ws) as [|head rest] eqn:Hq; [done|].
  destruct (sc_shutting_down s) eqn:Hsd; [done|].
  destruct (workspace_admits ws head) eqn:Hadm; [simpl|done].
  unfold try_acquire. destruct (w_spawns_processes head) eqn:Hsp; simpl.
  - destruct (Nat.leb_spec (sc_capacity s) (sc_in_use s)); simpl; [done|].
    intros [= <- <-]. exists ws, rest. rewrite Hsp. simpl. split_and!; done.
  - intros [= <- <-]. exists ws, rest. rewrite Hsp. simpl. rewrite Nat.add_0_r.
    split_and!; done.
Qed.

Lemma admit_one_None a s s' : admit_one a s = (None, s') → s' = s.
Proof.
  unfold admit_one, with_workspace. destruct (sc_heap s !! a) as [ws|]; [|congruence].
  destruct (ws_queue ws) as [|head rest]; [congruence|].
  destruct (sc_shutting_down s); [congruence|].
  destruct (workspace_admits ws head); simpl; [|congruence].
  unfold try_acquire. destruct (w_spawns_processes head); simpl; [|congruence].
  destruct (_ <=? _)%nat; simpl; congruence.
Qed.

Lemma submit_enter_Ok c s w s' :
  submit_enter load_tool_call registry_get c s = (Ok w, s') →
  w_call w = sd_call c ∧ w_dispatch w = sc_dispatched s ∧ (sd_call c ∉ sc_claimed s) ∧
  sc_shutting_down s = false ∧
  s' = (fetch_add_dispatched (set_claimed ({[sd_call c]} ∪ sc_claimed s) s)).2.
Proof.
  unfold submit_enter, claim. destruct (sc_shutting_down s); [done|].
  case_decide as Hin; [done|]. destruct (load_tool_call (sd_call c)) as [record|]; [|done].
  destruct (declared _ _ _) as [risk spawns]. simpl. intros [= <- <-].
  split_and!; done.
Qed.

Lemma submit_enter_Err c s e s' :
  submit_enter load_tool_call registry_get c s = (Err e, s') →
  s' = set_claimed (sc_claimed s') s ∧ sc_claimed s ⊆ sc_claimed s'.
Proof.
  unfold submit_enter, claim. destruct (sc_shutting_down s).
  { intros [= _ <-]. by destruct s. }
  case_decide as Hin. { intros [= _ <-]. by destruct s. }
  destruct (load_tool_call (sd_call c)) as [record|].
  { destruct (declared _ _ _) as [risk spawns]. simpl. congruence. }
  intros [= _ <-]. split; [by destruct s|]. simpl. set_solver.
Qed.

(** ** Counting *)

Lemma holders_set (h : list Workspace) a ws ws' :
  h !! a = Some ws →
  length (<[a := ws']> h ≫= holders) + length (holders ws)
    = length (h ≫= holders) + length (holders ws').
Proof.
  intros Ha. destruct (heap_bind_insert holders h a ws Ha) as (rest & -> & ->).
  rewrite !length_app. lia.
Qed.

Lemma holders_more ws ws' d r :
  ws_running ws' = (d, r) :: ws_running ws →
  length (holders ws') = Nat.b2n (r_holds_process r) + length (holders ws).
Proof.
  unfold holders. intros ->. rewrite filter_cons. simpl.
  by destruct (r_holds_process r).
Qed.

Lemma running_remove_fresh d l : d ∉ l.*1 → running_remove d l = l.
Proof.
  unfold running_remove. intros Hd. induction l as [|[n r] l IH]; [done|].
  csimpl in Hd. apply not_elem_of_cons in Hd as [Hn Hl].
  rewrite filter_cons_True by (simpl; congruence). by rewrite IH.
Qed.

(** Removing a number that occurs once takes exactly its entry. *)
Lemma running_remove_split d l :
  NoDup l.*1 → d ∈ l.*1 →
  ∃ r, l ≡ₚ (d, r) :: running_remove d l ∧ running_get d l = Some r.
Proof.
  intros Hnd Hd. induction l as [|[n r] l IH]; [by apply elem_of_nil in Hd|].
  csimpl in Hnd; csimpl in Hd. apply NoDup_cons in Hnd as [Hn Hnd].
  unfold running_remove, running_get. simpl. destruct (decide (n = d)) as [->|Hne].
  - exists r. rewrite filter_cons_False by (simpl; tauto).
    rewrite bool_decide_eq_true_2 by done. split; [|done].
    change (filter _ l) with (running_remove d l). by rewrite running_remove_fresh.
  - apply elem_of_cons in Hd as [Hd|Hd]; [congruence|].
    destruct (IH Hnd Hd) as (r' & Hp & Hg). exists r'.
    rewrite filter_cons_True by (simpl; congruence).
    rewrite bool_decide_eq_false_2 by done. split; [|exact Hg].
    rewrite Hp at 1. apply Permutation_swap.
Qed.

(** A cleared conjunction of places keeps its numbers and its calls. *)
Lemma numbers_shrink (l l' : list N) (n n' : N) :
  l' ⊆+ l → (n ≤ n')%N →
  NoDup l ∧ (∀ d, d ∈ l → (d < n)%N) → NoDup l' ∧ (∀ d, d ∈ l' → (d < n')%N).
Proof.
  intros Hl Hn [Hnd Hlt]. split; [by eapply NoDup_shrink|].
  intros d Hd. apply (elem_of_submseteq _ l) in Hd; [|done]. apply Hlt in Hd. lia.
Qed.

Lemma calls_shrink (l l' : list ToolCallId) (cs cs' : gset ToolCallId) :
  l' ⊆+ l → cs ⊆ cs' →
  NoDup l ∧ (∀ c, c ∈ l → c ∈ cs) → NoDup l' ∧ (∀ c, c ∈ l' → c ∈ cs').
Proof.
  intros Hl Hcs [Hnd Hin]. split; [by eapply NoDup_shrink|].
  intros d Hd. apply (elem_of_submseteq _ l) in Hd; [|done]. apply Hin in Hd. set_solver.
Qed.

(** Giving a claim back: the call was in one place, and is now in none. *)
Lemma calls_release (l l' : list ToolCallId) (cs : gset ToolCallId) c :
  l ≡ₚ c :: l' →
  NoDup l ∧ (∀ d, d ∈ l → d ∈ cs) → NoDup l' ∧ (∀ d, d ∈ l' → d ∈ cs ∖ {[c]}).
Proof.
  intros Hl. rewrite Hl. intros [[Hc Hnd]%NoDup_cons Hin]. split; [done|].
  intros d Hd. apply elem_of_difference. split; [apply Hin; rewrite Hl; by right|set_solver].
Qed.

Lemma lookup_set {A} (f : Workspace → A) (x : A) (h : list Workspace) a ws ws' b :
  h !! a = Some ws →
  from_option f x (<[a := ws']> h !! b)
    = if decide (a = b) then f ws' else from_option f x (h !! b).
Proof.
  intros Ha%lookup_lt_Some. case_decide as Hab; subst.
  - by rewrite list_lookup_insert_eq.
  - by rewrite list_lookup_insert_ne.
Qed.

Lemma objects_set (h : list Workspace) a ws' :
  object_ok ws' → (∀ b ws, h !! b = Some ws → object_ok ws) →
  ∀ b ws, <[a := ws']> h !! b = Some ws → object_ok ws.
Proof.
  intros Hok Hall b ws Hb. apply list_lookup_insert_Some in Hb as [(_ & <- & _)|[_ Hb]]; eauto.
Qed.

(** ** Each step keeps the invariant *)

Lemma wf_start n : sched_wf (sched_start n).
Proof.
  split; simpl; try done.
  - split; [constructor|by intros k a ?%elem_of_nil|done].
  - lia.
  - split; [constructor|by intros d ?%elem_of_nil].
  - split; [constructor|by intros d ?%elem_of_nil].
Qed.

Lemma wf_enter s s' en pk wk fi rm c w :
  (sc_dispatched s + 1 < 2 ^ 64)%N →
  submit_enter load_tool_call registry_get c s = (Ok w, s') →
  sched_wf (MkSystem s en pk wk fi rm) →
  sched_wf (MkSystem s' ((sd_workspace c, w) :: en) pk wk fi rm).
Proof.
  intros Hwrap (Hwc & Hwd & Hnew & _ & ->)%submit_enter_Ok
    [Hmap Hobj Hproc Hcap Hwait [Hnd Hlt] [Hcd Hcl] Hwork Hlive]; simpl in *.
  split; try done; simpl.
  - by apply (map_wf_same s).
  - rewrite N.mod_small by done. unfold all_numbers. simpl. rewrite Hwd. split.
    + apply NoDup_cons. split; [|done]. intros Hin%Hlt. lia.
    + intros d [->|Hd%Hlt]%elem_of_cons; lia.
  - unfold all_calls. simpl. rewrite Hwc. split.
    + apply NoDup_cons. split; [|done]. by intros Hin%Hcl.
    + intros d [->|Hd%Hcl]%elem_of_cons; set_solver.
Qed.

Lemma wf_refuse s s' en pk wk fi rm c e :
  submit_enter load_tool_call registry_get c s = (Err e, s') →
  sched_wf (MkSystem s en pk wk fi rm) → sched_wf (MkSystem s' en pk wk fi rm).
Proof.
  intros [-> Hsub]%submit_enter_Err
    [Hmap Hobj Hproc Hcap Hwait [Hnd Hlt] Hcalls Hwork Hlive]; simpl in *.
  split; try done; simpl.
  - by apply (map_wf_same s).
  - by eapply calls_shrink, Hcalls.
Qed.

Lemma object_ok_empty key : object_ok (Workspace_empty key).
Proof. split; [split|]; simpl; [by intros e ?%elem_of_nil| |]; vm_compute; lia. Qed.

(** The address [register] works on, before the submitter is counted. *)
Lemma wf_get_or_insert key s en pk wk fi rm a s' :
  get_or_insert key s = (a, s') →
  sched_wf (MkSystem s en pk wk fi rm) →
  sched_wf (MkSystem s' en pk wk fi rm) ∧ (key, a) ∈ sc_workspaces s'.
Proof.
  unfold get_or_insert. intros Hget Hwf. destruct (map_get key _) as [b|] eqn:Hm.
  { injection Hget as <- <-. split; [done|]. by apply map_get_Some. }
  apply map_get_None in Hm. injection Hget as <- <-. simpl.
  destruct Hwf as [[Hk Hs Ha] Hobj Hproc Hcap Hwait Hnum Hcalls Hwork Hlive]; simpl in *.
  assert (∀ b ws, (sc_heap s ++ [Workspace_empty key]) !! b = Some ws →
    sc_heap s !! b = Some ws ∨ b = length (sc_heap s) ∧ ws = Workspace_empty key) as Hnew.
  { intros b ws [Hb|[Hb Hws]]%lookup_app_Some; [by left|right].
    apply list_lookup_singleton_Some in Hws as [Hz <-]. split; [lia|done]. }
  assert (∀ {A} (f : Workspace → A) x b, f (Workspace_empty key) = x →
    from_option f x ((sc_heap s ++ [Workspace_empty key]) !! b)
      = from_option f x (sc_heap s !! b)) as Hfrom.
  { intros A f x b Hf. destruct (decide (b < length (sc_heap s))) as [Hlt|Hge].
    { by rewrite lookup_app_l. }
    rewrite (lookup_ge_None_2 (sc_heap s)) by lia.
    rewrite lookup_app_r by lia. by destruct (b - length (sc_heap s)) as [|[]]. }
  split; [|rewrite map_insert_perm; by left].
  split; unfold all_numbers, all_calls; simpl; rewrite ?bind_app; simpl;
    rewrite ?(right_id_L [] (++)); try done.
  - split; simpl.
    + rewrite map_insert_perm. csimpl. by apply NoDup_cons.
    + intros k b [[= -> ->]|(ws & Hws & Hkey)%Hs]%(elem_of_Permutation_proper _ _ _
        (map_insert_perm _ _ _))%elem_of_cons.
      * exists (Workspace_empty key). split; [|done].
        by rewrite lookup_app_r, Nat.sub_diag by lia.
      * exists ws. split; [|done]. by apply lookup_app_l_Some.
    + intros b ws [Hb|[-> ->]]%Hnew Hact; [|done]. rewrite map_insert_perm. right. eauto.
  - intros b ws [Hb|[-> ->]]%Hnew; [eauto|apply object_ok_empty].
  - intros b. by rewrite Hfrom.
  - intros b. by rewrite Hfrom.
Qed.

Lemma wf_bump key s en1 en2 pk wk fi rm w a :
  (key, a) ∈ sc_workspaces s →
  sched_wf (MkSystem s (en1 ++ (key, w) :: en2) pk wk fi rm) →
  sched_wf (MkSystem (bump_waiting a s) (en1 ++ en2) ((a, w) :: pk) wk fi rm).
Proof.
  intros Hin [Hmap Hobj Hproc Hcap Hwait Hnum Hcalls Hwork Hlive]; simpl in *.
  destruct (map_sound _ Hmap _ _ Hin) as (ws & Ha & <-).
  unfold bump_waiting. rewrite Ha. set (ws' := MkWorkspace _ _ _ _).
  split; simpl; try done.
  - by apply (map_wf_set a ws ws' s).
  - apply objects_set; [|done]. exact (Hobj _ _ Ha).
  - pose proof (holders_set _ a ws ws' Ha) as Hh. change (holders ws') with (holders ws) in Hh.
    lia.
  - intros b. rewrite (lookup_set _ _ _ a ws) by done. rewrite filter_cons. simpl.
    specialize (Hwait b). destruct (decide (a = b)) as [->|]; [|done].
    rewrite Ha in Hwait. simpl in *. lia.
  - eapply numbers_shrink, Hnum; [|done]. unfold all_numbers; simpl.
    destruct (heap_bind_insert numbers _ a ws Ha) as (rest & -> & ->).
    rewrite !fmap_app. csimpl. change (numbers ws') with (numbers ws). solve_submseteq.
  - eapply calls_shrink, Hcalls; [|done]. unfold all_calls; simpl.
    destruct (heap_bind_insert queued_calls _ a ws Ha) as (rest & -> & ->).
    rewrite !fmap_app. csimpl. change (queued_calls ws') with (queued_calls ws).
    solve_submseteq.
  - intros b. rewrite (lookup_set _ _ _ a ws) by done.
    rewrite Hwork. case_decide as Hab; [subst; by rewrite Ha|done].
Qed.

Lemma wf_register s s' en1 en2 pk wk fi rm key w a :
  register key s = (a, s') →
  sched_wf (MkSystem s (en1 ++ (key, w) :: en2) pk wk fi rm) →
  sched_wf (MkSystem s' (en1 ++ en2) ((a, w) :: pk) wk fi rm).
Proof.
  unfold register. destruct (get_or_insert key s) as [b s1] eqn:Hget.
  intros [= <- <-] [Hwf Hin]%(wf_get_or_insert _ _ _ _ _ _ _ _ _ Hget).
  by apply wf_bump with key.
Qed.

(** Everything after a parked submitter stops waiting and, perhaps, queues. *)
Lemma parked_counted s en pk1 pk2 wk fi rm a w :
  sched_wf (MkSystem s en (pk1 ++ (a, w) :: pk2) wk fi rm) →
  ∃ ws, sc_heap s !! a = Some ws ∧ active ws ∧ ∀ b,
    length (filter (λ p, p.1 = b) (pk1 ++ pk2))
      = if decide (a = b) then ws_waiting ws - 1
        else from_option ws_waiting 0 (sc_heap s !! b).
Proof.
  intros Hwf. pose proof (sy_waiting _ Hwf) as Hwait; simpl in Hwait.
  assert (∀ b, length (filter (λ p, p.1 = b) (pk1 ++ (a, w) :: pk2))
    = length (filter (λ p, p.1 = b) (pk1 ++ pk2)) + if decide (a = b) then 1 else 0) as Hone.
  { intros b. rewrite !filter_app, filter_cons. simpl.
    destruct (decide (a = b)); rewrite !length_app; simpl; lia. }
  pose proof (Hwait a) as Ha. rewrite Hone, decide_True in Ha by done.
  destruct (sc_heap s !! a) as [ws|] eqn:Hws; simpl in Ha; [|lia].
  exists ws. split_and!; [done| |].
  - unfold active, is_idle. rewrite (bool_decide_eq_false_2 (ws_waiting ws = 0)) by lia.
    by rewrite andb_false_r.
  - intros b. specialize (Hwait b). rewrite Hone in Hwait.
    destruct (decide (a = b)) as [->|]; [|lia]. rewrite Hws in Hwait. simpl in Hwait. lia.
Qed.

Lemma wf_join s en pk1 pk2 wk fi rm a w :
  has_room a s = true →
  sched_wf (MkSystem s en (pk1 ++ (a, w) :: pk2) wk fi rm) →
  sched_wf (MkSystem (push_back a w (drop_waiting a s)) en (pk1 ++ pk2) wk fi rm).
Proof.
  intros Hroom Hwf.
  destruct (parked_counted _ _ _ _ _ _ _ _ _ Hwf) as (ws & Ha & Hact & Hleft).
  destruct Hwf as [Hmap Hobj Hproc Hcap _ Hnum Hcalls Hwork Hlive]; simpl in *.
  unfold has_room in Hroom. rewrite Ha in Hroom. apply Nat.ltb_lt in Hroom.
  unfold drop_waiting. rewrite Ha. unfold push_back; simpl.
  rewrite list_lookup_insert_eq by (by eapply lookup_lt_Some). simpl.
  unfold set_workspace; simpl. rewrite list_insert_insert_eq. set (ws' := MkWorkspace _ _ _ _).
  split; simpl; try done.
  - apply (map_wf_set a ws ws' s); try done. intros _. by apply (map_active _ Hmap).
  - apply objects_set; [|done]. split; [apply (Hobj _ _ Ha)|].
    simpl. rewrite length_app. simpl. lia.
  - pose proof (holders_set _ a ws ws' Ha) as Hh. change (holders ws') with (holders ws) in Hh.
    lia.
  - intros b. rewrite (lookup_set _ _ _ a ws) by done. apply Hleft.
  - eapply numbers_shrink, Hnum; [|done]. unfold all_numbers; simpl.
    destruct (heap_bind_insert numbers _ a ws Ha) as (rest & -> & ->).
    rewrite !fmap_app. csimpl. unfold numbers. simpl. rewrite fmap_app. csimpl.
    solve_submseteq.
  - eapply calls_shrink, Hcalls; [|done]. unfold all_calls; simpl.
    destruct (heap_bind_insert queued_calls _ a ws Ha) as (rest & -> & ->).
    rewrite !fmap_app. csimpl. unfold queued_calls. simpl. rewrite fmap_app. csimpl.
    solve_submseteq.
  - intros b. rewrite (lookup_set _ _ _ a ws) by done.
    rewrite Hwork. case_decide as Hab; [subst; by rewrite Ha|done].
Qed.

Lemma wf_give_up s en pk1 pk2 wk fi rm a w :
  sched_wf (MkSystem s en (pk1 ++ (a, w) :: pk2) wk fi rm) →
  sched_wf (MkSystem (release (w_call w) (drop_waiting a s)) en (pk1 ++ pk2) wk fi rm).
Proof.
  intros Hwf. destruct (parked_counted _ _ _ _ _ _ _ _ _ Hwf) as (ws & Ha & Hact & Hleft).
  destruct Hwf as [Hmap Hobj Hproc Hcap _ Hnum Hcalls Hwork Hlive]; simpl in *.
  unfold drop_waiting. rewrite Ha. set (ws' := MkWorkspace _ _ _ _).
  split; simpl; try done.
  - apply (map_wf_set a ws ws' s); try done. intros _. by apply (map_active _ Hmap).
  - apply objects_set; [|done]. exact (Hobj _ _ Ha).
  - pose proof (holders_set _ a ws ws' Ha) as Hh. change (holders ws') with (holders ws) in Hh.
    lia.
  - intros b. rewrite (lookup_set _ _ _ a ws) by done. apply Hleft.
  - eapply numbers_shrink, Hnum; [|done]. unfold all_numbers; simpl.
    destruct (heap_bind_insert numbers _ a ws Ha) as (rest & -> & ->).
    rewrite !fmap_app. csimpl. change (numbers ws') with (numbers ws). solve_submseteq.
  - eapply calls_release, Hcalls. unfold all_calls; simpl.
    destruct (heap_bind_insert queued_calls _ a ws Ha) as (rest & -> & ->).
    rewrite !fmap_app. csimpl. change (queued_calls ws') with (queued_calls ws).
    solve_Permutation.
  - intros b. rewrite (lookup_set _ _ _ a ws) by done.
    rewrite Hwork. case_decide as Hab; [subst; by rewrite Ha|done].
Qed.

Lemma numbers_of y a ws :
  sched_wf y → sc_heap (sy_inner y) !! a = Some ws →
  NoDup (w_dispatch <$> ws_queue ws) ∧ NoDup (ws_running ws).*1 ∧
  ∀ d, d ∈ w_dispatch <$> ws_queue ws → d ∉ (ws_running ws).*1.
Proof.
  intros [_ _ _ _ _ [Hnd _] _ _ _] Ha. unfold all_numbers in Hnd.
  destruct (heap_bind_insert numbers _ a ws Ha) as (rest & Hh & _). rewrite Hh in Hnd.
  apply NoDup_app in Hnd as (_ & _ & Hnd). apply NoDup_app in Hnd as (_ & _ & Hnd).
  apply NoDup_app in Hnd as [Hnd _]. apply NoDup_app in Hnd as (? & ? & ?). eauto.
Qed.

Lemma not_mutating_reads ws : mutating ws = false → reads ws = length (ws_running ws).
Proof.
  unfold mutating, reads. intros Hm. f_equal. induction (ws_running ws) as [|e l IH]; [done|].
  simpl in Hm. apply orb_false_iff in Hm as [He Hl]. rewrite filter_cons_True by done.
  by rewrite IH.
Qed.

(** The admission rules keep a mutation alone and the reads capped. *)
Lemma slots_admit ws w r rest d :
  slots_ok ws → workspace_admits ws w = true → d ∉ (ws_running ws).*1 →
  r_mutating r = mutates_state (w_risk w) →
  slots_ok (MkWorkspace (ws_key ws) rest (running_insert d r (ws_running ws)) (ws_waiting ws)).
Proof.
  unfold slots_ok, workspace_admits, running_insert. intros [Hal Hlen] Hadm Hd Hr.
  cbn [ws_running]. rewrite running_remove_fresh by done.
  destruct (mutates_state (w_risk w)) eqn:Hm.
  - apply bool_decide_eq_true in Hadm. rewrite Hadm. split; [done|vm_compute; lia].
  - apply negb_true_iff, orb_false_iff in Hadm as [Hmut Hcap].
    apply Nat.leb_gt in Hcap. rewrite not_mutating_reads in Hcap by done. split; [|cbn [length]; lia].
    intros e He Hem. exfalso. apply elem_of_cons in He as [->|He]; [simpl in Hem; congruence|].
    assert (mutating ws = true) as Hyes; [|congruence].
    apply existsb_exists. exists e. by rewrite <-list_elem_of_In.
Qed.

Lemma wf_admit s s' en pk wk fi rm a w :
  admit_one a s = (Some w, s') →
  sched_wf (MkSystem s en pk wk fi rm) →
  sched_wf (MkSystem s' en pk (MkCompletion a (w_dispatch w) (w_call w) :: wk) fi rm).
Proof.
  intros (ws & rest & Ha & Hq & Hopen & Hadm & Hslot & ->)%admit_one_Some Hwf.
  destruct (numbers_of _ _ _ Hwf Ha) as (_ & _ & Hdis).
  assert (w_dispatch w ∉ (ws_running ws).*1) as Hd by (apply Hdis; rewrite Hq; by left).
  destruct Hwf as [Hmap Hobj Hproc Hcap Hwait Hnum Hcalls Hwork Hlive]; simpl in *.
  destruct (Hobj _ _ Ha) as [Hok Hlen].
  set (run := MkRunning _ _ _ _). set (ws' := MkWorkspace _ _ _ _).
  assert (ws_running ws' = (w_dispatch w, run) :: ws_running ws) as Hrun.
  { simpl. unfold running_insert. by rewrite running_remove_fresh. }
  assert (ws_queue ws' = rest) as Hrest by done.
  assert (ws_key ws' = ws_key ws ∧ ws_waiting ws' = ws_waiting ws) as [Hkey Hws] by done.
  assert (slots_ok ws') as Hok' by (by apply slots_admit with w).
  clearbody ws'. split; simpl; try done.
  - apply (map_wf_set a ws ws' s); try done. intros _. apply (map_active _ Hmap); [done|].
    unfold active, is_idle. by rewrite Hq.
  - apply objects_set; [|done]. split; [done|]. rewrite Hrest. rewrite Hq in Hlen.
    simpl in Hlen. lia.
  - pose proof (holders_set _ a ws ws' Ha) as Hh.
    rewrite (holders_more _ _ _ _ Hrun) in Hh. simpl in Hh. lia.
  - destruct (w_spawns_processes w); simpl; [pose proof (Hslot eq_refl)|]; lia.
  - intros b. rewrite (lookup_set _ _ _ a ws) by done. rewrite Hwait.
    case_decide as Hab; [subst; by rewrite Ha, Hws|done].
  - eapply numbers_shrink, Hnum; [|done]. unfold all_numbers; simpl.
    destruct (heap_bind_insert numbers _ a ws Ha) as (more & -> & ->).
    unfold numbers. rewrite Hrun, Hrest, Hq. csimpl. solve_submseteq.
  - eapply calls_shrink, Hcalls; [|done]. unfold all_calls; simpl.
    destruct (heap_bind_insert queued_calls _ a ws Ha) as (more & -> & ->).
    unfold queued_calls. rewrite Hrest, Hq. csimpl. solve_submseteq.
  - intros b. rewrite (lookup_set _ _ _ a ws) by done. unfold workers_at.
    rewrite filter_cons. simpl. rewrite Hrun. destruct (decide (a = b)) as [->|]; [|apply Hwork].
    specialize (Hwork b). rewrite Ha in Hwork. csimpl. by rewrite <-Hwork.
  - lia.
Qed.

Lemma holders_fewer ws ws' d r :
  ws_running ws ≡ₚ (d, r) :: ws_running ws' →
  length (holders ws) = Nat.b2n (r_holds_process r) + length (holders ws').
Proof.
  unfold holders. intros ->. rewrite filter_cons. simpl.
  by destruct (r_holds_process r).
Qed.

Lemma slots_free ws ws' e :
  ws_running ws ≡ₚ e :: ws_running ws' → slots_ok ws → slots_ok ws'.
Proof.
  intros Hp [Hal Hlen]. pose proof (Permutation_length Hp) as Hl. simpl in Hl.
  split; [|lia]. intros x Hx Hm.
  assert (length (ws_running ws) = 1) as H1 by (eapply Hal, Hm; rewrite Hp; by right).
  destruct (ws_running ws'); [by apply elem_of_nil in Hx|simpl in Hl; lia].
Qed.

(** What a worker gives back, found where [admit_one] left it. *)
Lemma worker_found s en pk wk1 wk2 fi rm c :
  sched_wf (MkSystem s en pk (wk1 ++ c :: wk2) fi rm) →
  ∃ ws r, sc_heap s !! c_workspace c = Some ws ∧
    ws_running ws ≡ₚ (c_dispatch c, r) :: running_remove (c_dispatch c) (ws_running ws) ∧
    running_get (c_dispatch c) (ws_running ws) = Some r.
Proof.
  intros Hwf. pose proof (sy_working _ Hwf (c_workspace c)) as Hw; simpl in Hw.
  assert (c_dispatch c ∈ workers_at (c_workspace c) (wk1 ++ c :: wk2)) as Hin.
  { apply list_elem_of_fmap. exists c. split; [done|]. apply list_elem_of_filter.
    split; [done|]. apply elem_of_app. right. by left. }
  rewrite Hw in Hin. destruct (sc_heap s !! c_workspace c) as [ws|] eqn:Ha;
    [|by apply elem_of_nil in Hin].
  destruct (numbers_of _ _ _ Hwf Ha) as (_ & Hnd & _).
  destruct (running_remove_split _ _ Hnd Hin) as (r & Hp & Hg). eauto.
Qed.

Lemma wf_free s en pk wk1 wk2 fi rm c :
  sched_wf (MkSystem s en pk (wk1 ++ c :: wk2) fi rm) →
  sched_wf (MkSystem (complete_free (c_workspace c) (c_dispatch c) s).2 en pk (wk1 ++ wk2)
              (c :: fi) rm).
Proof.
  intros Hwf. destruct (worker_found _ _ _ _ _ _ _ _ Hwf) as (ws & r & Ha & Hp & Hg).
  destruct Hwf as [Hmap Hobj Hproc Hcap Hwait Hnum Hcalls Hwork Hlive]; simpl in *.
  destruct (Hobj _ _ Ha) as [Hok Hlen].
  unfold complete_free, with_workspace. rewrite Ha, Hg. simpl.
  set (ws' := MkWorkspace _ _ _ _).
  pose proof (holders_set _ _ ws ws' Ha) as Hh.
  pose proof (holders_fewer ws ws' _ _ Hp) as Hf.
  assert ((if r_holds_process r then release_slot (set_workspace (c_workspace c) ws' s)
           else set_workspace (c_workspace c) ws' s)
    = set_slots (sc_in_use s - Nat.b2n (r_holds_process r))
        (set_workspace (c_workspace c) ws' s)) as ->.
  { destruct (r_holds_process r); [done|]. simpl. rewrite Nat.sub_0_r. by destruct s. }
  split; simpl; try done.
  - apply (map_wf_set (c_workspace c) ws ws' s); try done. intros _.
    apply (map_active _ Hmap); [done|]. unfold active, is_idle.
    rewrite (bool_decide_eq_false_2 (ws_running ws = [])); [by rewrite andb_false_r|].
    intros He. rewrite He in Hp. by apply Permutation_nil_cons in Hp.
  - apply objects_set; [|done]. split; [by eapply slots_free|done].
  - lia.
  - lia.
  - intros b. rewrite (lookup_set _ _ _ _ ws) by done. rewrite Hwait.
    case_decide as Hab; [subst; by rewrite Ha|done].
  - eapply numbers_shrink, Hnum; [|done]. unfold all_numbers; simpl.
    destruct (heap_bind_insert numbers _ _ ws Ha) as (more & -> & ->).
    unfold numbers. rewrite Hp. simpl. csimpl. solve_submseteq.
  - eapply calls_shrink, Hcalls; [|done]. unfold all_calls; simpl.
    destruct (heap_bind_insert queued_calls _ _ ws Ha) as (more & -> & ->).
    rewrite !fmap_app. csimpl. change (queued_calls ws') with (queued_calls ws).
    solve_submseteq.
  - intros b. rewrite (lookup_set _ _ _ _ ws) by done. specialize (Hwork b).
    unfold workers_at in *. rewrite filter_app, filter_cons in Hwork.
    rewrite filter_app. simpl in Hwork. destruct (decide (c_workspace c = b)) as [<-|]; [|done].
    rewrite Ha in Hwork. simpl in Hwork. rewrite Hp in Hwork.
    rewrite fmap_app in *. csimpl in Hwork. rewrite <-Permutation_middle in Hwork.
    by apply Permutation_cons_inv in Hwork.
  - rewrite length_app in *. simpl in *. lia.
Qed.

Lemma wf_leave s en pk wk fi1 fi2 rm c :
  sched_wf (MkSystem s en pk wk (fi1 ++ c :: fi2) rm) →
  sched_wf (MkSystem (add_report (Ran (c_call c))
                        (set_live (sc_live s - 1) (release (c_call c) s)))
              en pk wk (fi1 ++ fi2) rm).
Proof.
  intros [Hmap Hobj Hproc Hcap Hwait Hnum Hcalls Hwork Hlive]; simpl in *.
  split; try done; simpl.
  - by apply (map_wf_same s).
  - eapply calls_release, Hcalls. unfold all_calls; simpl. rewrite !fmap_app. csimpl.
    solve_Permutation.
  - rewrite Hlive, !length_app. simpl. lia.
Qed.

Lemma wf_forget s en pk wk fi rm locked :
  sched_wf (MkSystem s en pk wk fi rm) →
  sched_wf (MkSystem (forget_idle locked s) en pk wk fi rm).
Proof.
  intros [Hmap Hobj Hproc Hcap Hwait Hnum Hcalls Hwork Hlive]; simpl in *.
  split; try done; simpl. by apply map_wf_forget.
Qed.

Lemma wf_settle s en pk wk fi rm1 rm2 w :
  sched_wf (MkSystem s en pk wk fi (rm1 ++ w :: rm2)) →
  sched_wf (MkSystem (settle_removed w s) en pk wk fi (rm1 ++ rm2)).
Proof.
  intros [Hmap Hobj Hproc Hcap Hwait Hnum Hcalls Hwork Hlive]; simpl in *.
  split; try done; simpl.
  - by apply (map_wf_same s).
  - eapply calls_release, Hcalls. unfold all_calls; simpl. rewrite !fmap_app. csimpl.
    solve_Permutation.
Qed.

(** A sweep splits the queue: what it takes and what it leaves. *)
Lemma queue_split run q :
  q ≡ₚ filter (λ w, stop_matches run (w_run w) = true) q
       ++ filter (λ w, stop_matches run (w_run w) = false) q.
Proof.
  induction q as [|w q IH]; [done|]. rewrite !filter_cons.
  destruct (stop_matches run (w_run w)); simpl.
  - by rewrite <-IH.
  - rewrite <-Permutation_middle. by rewrite <-IH.
Qed.

Lemma wf_sweep s s' en pk wk fi rm run a removed tripped :
  stop_sweep run a s = ((removed, tripped), s') →
  sched_wf (MkSystem s en pk wk fi rm) → sched_wf (MkSystem s' en pk wk fi (removed ++ rm)).
Proof.
  unfold stop_sweep, with_workspace. destruct (sc_heap s !! a) as [ws|] eqn:Ha.
  2: { by intros [= <- <- <-]. }
  intros [= <- <- <-] [Hmap Hobj Hproc Hcap Hwait Hnum Hcalls Hwork Hlive]; simpl in *.
  pose proof (queue_split run (ws_queue ws)) as Hq.
  set (taken := filter _ (ws_queue ws)) in *. set (kept := filter _ (ws_queue ws)) in *.
  set (ws' := MkWorkspace _ _ _ _).
  pose proof (holders_set _ _ ws ws' Ha) as Hh. change (holders ws') with (holders ws) in Hh.
  split; simpl; try done.
  - apply (map_wf_set a ws ws' s); try done. intros Hact. apply (map_active _ Hmap); [done|].
    revert Hact. unfold active, is_idle; simpl. destruct (ws_queue ws); [done|].
    by rewrite (bool_decide_eq_false_2 (_ :: _ = [])).
  - apply objects_set; [|done]. destruct (Hobj _ _ Ha) as [Hok Hlen]. split; [done|].
    apply Permutation_length in Hq. rewrite length_app in Hq. simpl. lia.
  - lia.
  - intros b. rewrite (lookup_set _ _ _ a ws) by done. rewrite Hwait.
    case_decide as Hab; [subst; by rewrite Ha|done].
  - eapply numbers_shrink, Hnum; [|done]. unfold all_numbers; simpl.
    destruct (heap_bind_insert numbers _ _ ws Ha) as (more & -> & ->).
    unfold numbers. rewrite Hq. simpl. rewrite fmap_app. solve_submseteq.
  - eapply calls_shrink, Hcalls; [|done]. unfold all_calls; simpl.
    destruct (heap_bind_insert queued_calls _ _ ws Ha) as (more & -> & ->).
    unfold queued_calls. rewrite Hq. simpl. rewrite !fmap_app. solve_submseteq.
  - intros b. rewrite (lookup_set _ _ _ a ws) by done.
    rewrite Hwork. case_decide as Hab; [subst; by rewrite Ha|done].
Qed.

Lemma wf_shutdown s en pk wk fi rm :
  sched_wf (MkSystem s en pk wk fi rm) → sched_wf (MkSystem (begin_shutdown s) en pk wk fi rm).
Proof.
  intros [Hmap Hobj Hproc Hcap Hwait Hnum Hcalls Hwork Hlive]; simpl in *.
  split; try done; simpl. by apply (map_wf_same s).
Qed.

Lemma wf_turn s en pk wk fi rm :
  sched_wf (MkSystem s en pk wk fi rm) →
  sched_wf (MkSystem (fetch_add_sweep s).2 en pk wk fi rm).
Proof.
  intros [Hmap Hobj Hproc Hcap Hwait Hnum Hcalls Hwork Hlive]; simpl in *.
  split; try done; simpl. by apply (map_wf_same s).
Qed.

Lemma wf_step y y' : sched_step y y' → sched_wf y → sched_wf y'.
Proof.
  destruct 1; eauto using wf_enter, wf_refuse, wf_register, wf_join, wf_give_up, wf_admit,
    wf_free, wf_leave, wf_forget, wf_sweep, wf_settle, wf_shutdown, wf_turn.
Qed.

Lemma reachable_wf n y : rtc sched_step (sched_start n) y → sched_wf y.
Proof. apply (rtc_invariant sched_step sched_wf); eauto using wf_step, wf_start. Qed.
End safety.
