(* ===== verification/ScheduleOps.v ===== *)
(** * The scheduler's operations, and what they guarantee

    First the guarantees that hold after any interleaving of the critical
    sections, from the invariant of [ScheduleSafety.v].  Then the operations
    whole: each of [submit], [finish], [cancel_run] and [shutdown] is a sequence
    of those critical sections, admission takes a queue from the front, a sweep
    takes exactly the calls it names, no call is left that could have been
    admitted, and every queue drains. *)

From stdpp Require Import base decidable list gmap strings relations.
From S2P Require Import Prelude Digest Tool External Trust Policy Lifecycle Domain Records Schedule ScheduleSafety.

Section operations.
Context `{Platform}.
Context (load_tool_call : ToolCallId → option ToolCall).
Context (registry_get : ToolId → option ToolVersion → option ToolDescriptor).

Abbreviation sched_step := (ScheduleSafety.sched_step load_tool_call registry_get).

(** ** What every interleaving guarantees *)

(** Two objects for one key are never both in use: a lookup that created a
    second one found the first dropped, and only an idle one is dropped. *)
Lemma active_unique s a b wa wb :
  map_wf s → sc_heap s !! a = Some wa → sc_heap s !! b = Some wb →
  active wa → active wb → ws_key wa = ws_key wb → a = b.
Proof.
  intros [Hk _ Hact] Ha Hb Haa Hab Hkey.
  pose proof (Hact _ _ Ha Haa) as Hina. pose proof (Hact _ _ Hb Hab) as Hinb.
  rewrite Hkey in Hina. revert Hk Hina Hinb. generalize (sc_workspaces s), (ws_key wb). clear.
  induction l as [|[k' c] m IH]; intros k Hk Hina Hinb; [by apply elem_of_nil in Hina|].
  csimpl in Hk. apply NoDup_cons in Hk as [Hnot Hk].
  assert (∀ c, (k, c) ∈ m → k ∈ m.*1) as Hfst.
  { intros x Hx. apply list_elem_of_fmap. by exists (k, x). }
  apply elem_of_cons in Hina as [Ha|Hina]; apply elem_of_cons in Hinb as [Hb|Hinb];
    simplify_eq; eauto; exfalso; eauto.
Qed.

Lemma running_active ws e : e ∈ ws_running ws → active ws.
Proof.
  intros He. unfold active, is_idle. rewrite (bool_decide_eq_false_2 (ws_running ws = [])).
  { by rewrite andb_false_r. }
  intros Hn. rewrite Hn in He. by apply elem_of_nil in He.
Qed.

(** C1. In every state the scheduler can reach, a mutating call running in a
    workspace is the only call running under that workspace's key, in whatever
    object of that key the other call is held. *)
Theorem mutation_runs_alone n y a b wa wb e f :
  rtc sched_step (sched_start n) y →
  sc_heap (sy_inner y) !! a = Some wa → sc_heap (sy_inner y) !! b = Some wb →
  ws_key wa = ws_key wb →
  e ∈ ws_running wa → r_mutating e.2 = true → f ∈ ws_running wb →
  a = b ∧ f = e.
Proof.
  intros Hwf%reachable_wf Ha Hb Hkey He Hm Hf.
  assert (a = b) as <- by (eapply active_unique; eauto using running_active, sy_map).
  split; [done|]. simplify_eq. destruct (sy_objects _ Hwf _ _ Ha) as [[Hal _] _].
  specialize (Hal _ He Hm). destruct (ws_running wa) as [|x [|]]; [done| |done].
  apply elem_of_cons in He as [->|He%elem_of_nil]; [|done].
  by apply elem_of_cons in Hf as [->|Hf%elem_of_nil].
Qed.

Lemma admit_capacity a s : sc_capacity (admit_one a s).2 = sc_capacity s.
Proof.
  destruct (admit_one a s) as [[w|] s'] eqn:Hd.
  - by apply admit_one_Some in Hd as (ws & rest & _ & _ & _ & _ & _ & ->).
  - by apply admit_one_None in Hd as ->.
Qed.

Lemma step_capacity y y' :
  sched_step y y' → sc_capacity (sy_inner y') = sc_capacity (sy_inner y).
Proof.
  destruct 1 as [s s' en pk wk fi rm c w _ Hs|s s' en pk wk fi rm c e Hs
    |s s' en1 en2 pk wk fi rm key w a Hs|s en pk1 pk2 wk fi rm a w Hr
    |s en pk1 pk2 wk fi rm a w Ho|s s' en pk wk fi rm a w Hs|s en pk wk1 wk2 fi rm c
    |s en pk wk fi1 fi2 rm c|s en pk wk fi rm locked|s s' en pk wk fi rm run a removed t Hs
    |s en pk wk fi rm1 rm2 w|s en pk wk fi rm|s en pk wk fi rm]; simpl; try done.
  - by apply submit_enter_Ok in Hs as (_ & _ & _ & _ & ->).
  - by apply submit_enter_Err in Hs as [-> _].
  - unfold register, get_or_insert, bump_waiting in Hs.
    destruct (map_get key _); simplify_eq/=; by case_match.
  - unfold push_back, drop_waiting. destruct (_ !! a); simpl; [|by destruct (_ !! a)].
    by destruct (_ !! a).
  - unfold drop_waiting. by destruct (_ !! a).
  - pose proof (admit_capacity a s) as Hc. by rewrite Hs in Hc.
  - unfold complete_free, with_workspace. destruct (_ !! _); [|done]. simpl.
    by destruct (is_some_and _ _).
  - unfold stop_sweep, with_workspace in Hs. by destruct (_ !! _); simplify_eq/=.
Qed.

Lemma reachable_capacity n y :
  rtc sched_step (sched_start n) y → sc_capacity (sy_inner y) = n `max` 1.
Proof.
  apply (rtc_invariant sched_step (λ y, sc_capacity (sy_inner y) = n `max` 1)); [|done].
  intros u v Hu Huv. by rewrite (step_capacity _ _ Huv).
Qed.

(** C38. In every reachable state the calls running with a process slot, over all
    the workspaces, are exactly as many as the limiter counts in use, and no more
    than the limit the scheduler was created with. *)
Theorem process_limit_respected n y :
  rtc sched_step (sched_start n) y →
  length (sc_heap (sy_inner y) ≫= holders) = sc_in_use (sy_inner y) ∧
  length (sc_heap (sy_inner y) ≫= holders) ≤ n `max` 1.
Proof.
  intros Hr. pose proof (reachable_capacity _ _ Hr) as Hc.
  destruct (reachable_wf _ _ _ _ Hr) as [_ _ Hproc Hcap _ _ _ _ _]. lia.
Qed.

(** In every reachable state a workspace runs at most four calls and
    queues at most sixty-four, however many submitters wait for room. *)
Theorem workspace_bounds n y a ws :
  rtc sched_step (sched_start n) y → sc_heap (sy_inner y) !! a = Some ws →
  length (ws_running ws) ≤ WORKSPACE_READ_CONCURRENCY ∧
  length (ws_queue ws) ≤ WORKSPACE_QUEUE_CAPACITY.
Proof.
  intros Hwf%reachable_wf Ha. by destruct (sy_objects _ Hwf _ _ Ha) as [[_ ?] ?].
Qed.

(** In every reachable state a tool call is in at most one place: with one
    submitter, in one queue, on one worker or in one sweep's hands, and while
    it is there its claim refuses a second submission of it. *)
Theorem call_in_one_place n y c :
  rtc sched_step (sched_start n) y →
  NoDup (all_calls y) ∧
  (sd_call c ∈ all_calls y → ∃ e,
     submit_enter load_tool_call registry_get c (sy_inner y) = (Err e, sy_inner y)).
Proof.
  intros Hwf%reachable_wf. destruct (sy_calls _ Hwf) as [Hnd Hcl]. split; [done|].
  intros Hin%Hcl. unfold submit_enter, claim.
  destruct (sc_shutting_down _); [eauto|]. rewrite decide_True by done. eauto.
Qed.

Lemma blocked_worker n y a ws :
  rtc sched_step (sched_start n) y →
  sc_shutting_down (sy_inner y) = false →
  sc_heap (sy_inner y) !! a = Some ws → ws_queue ws ≠ [] →
  (admit_one a (sy_inner y)).1 = None →
  ∃ c, c ∈ sy_workers y ∧ c_dispatch c ∈ (sc_heap (sy_inner y) ≫= λ ws, (ws_running ws).*1).
Proof.
  intros Hr Hopen Ha Hq Hnone. pose proof (reachable_capacity _ _ Hr) as Hlim.
  pose proof (reachable_wf _ _ _ _ Hr) as Hwf.
  assert (∀ b wb, sc_heap (sy_inner y) !! b = Some wb → ws_running wb ≠ [] →
    ∃ c, c ∈ sy_workers y ∧
      c_dispatch c ∈ (sc_heap (sy_inner y) ≫= λ ws, (ws_running ws).*1)) as Hrun.
  { intros b wb Hb Hne. pose proof (sy_working _ Hwf b) as Hw. rewrite Hb in Hw. simpl in Hw.
    destruct (ws_running wb) as [|e l] eqn:He; [done|].
    assert (e.1 ∈ workers_at b (sy_workers y)) as Hin by (rewrite Hw; by left).
    apply list_elem_of_fmap in Hin as (c & Hc & [_ Hcin]%list_elem_of_filter).
    exists c. split; [done|]. rewrite <-Hc. apply list_elem_of_bind. exists wb. split.
    - rewrite He. by left.
    - by eapply list_elem_of_lookup_2. }
  unfold admit_one, with_workspace in Hnone. rewrite Ha, Hopen in Hnone.
  destruct (ws_queue ws) as [|w rest]; [done|].
  destruct (workspace_admits ws w) eqn:Hadm; simpl in Hnone.
  - unfold try_acquire in Hnone. destruct (w_spawns_processes w); [|done].
    destruct (Nat.leb_spec (sc_capacity (sy_inner y)) (sc_in_use (sy_inner y))) as [Hle|];
      [|done].
    rewrite (sy_processes _ Hwf) in Hle.
    destruct (sc_heap (sy_inner y) ≫= holders) as [|e l] eqn:Hh; [simpl in *; lia|].
    assert (e ∈ sc_heap (sy_inner y) ≫= holders) as He by (rewrite Hh; by left).
    apply list_elem_of_bind in He as (wb & [_ He]%list_elem_of_filter & Hb).
    apply list_elem_of_lookup in Hb as [b Hb]. apply (Hrun b wb Hb).
    intros Hn. rewrite Hn in He. by apply elem_of_nil in He.
  - apply (Hrun a ws Ha). intros Hn. unfold workspace_admits, mutating, reads in Hadm.
    rewrite Hn in Hadm. by destruct (mutates_state _).
Qed.

(** No deadlock: in every reachable state with the scheduler open, a queue
    whose front call is not admitted waits for a call that is running now, in
    its workspace or on a process slot. *)
Theorem blocked_call_has_a_worker n y a ws :
  rtc sched_step (sched_start n) y →
  sc_shutting_down (sy_inner y) = false →
  sc_heap (sy_inner y) !! a = Some ws → ws_queue ws ≠ [] →
  (admit_one a (sy_inner y)).1 = None →
  ∃ c, c ∈ sy_workers y ∧ c_dispatch c ∈ (sc_heap (sy_inner y) ≫= λ ws, (ws_running ws).*1).
Proof. apply blocked_worker. Qed.

(** ** The operations are sequences of steps *)

Lemma admit_loop_steps fuel a s ready s' en pk wk fi rm :
  admit_loop fuel a s = (ready, s') →
  rtc sched_step (MkSystem s en pk wk fi rm)
    (MkSystem s' en pk (rev (dispatch a ready) ++ wk) fi rm).
Proof.
  revert s ready wk. induction fuel as [|fuel IH]; intros s ready wk; simpl.
  { intros [= <- <-]. apply rtc_refl. }
  destruct (admit_one a s) as [[w|] s1] eqn:Hone.
  - destruct (admit_loop fuel a s1) as [more s2] eqn:Hloop. intros [= <- <-].
    eapply rtc_l; [by apply step_admit|]. simpl. rewrite <-app_assoc. by apply IH.
  - intros [= <- <-]. apply admit_one_None in Hone as ->. apply rtc_refl.
Qed.

Lemma admit_steps a s spawned s' en pk wk fi rm :
  admit_and_dispatch a s = (spawned, s') →
  rtc sched_step (MkSystem s en pk wk fi rm)
    (MkSystem s' en pk (rev spawned ++ wk) fi rm).
Proof.
  unfold admit_and_dispatch. destruct (admit_calls a s) as [ready s1] eqn:Hloop.
  intros [= <- <-]. by eapply admit_loop_steps.
Qed.

Lemma pump_steps order s spawned s' en pk wk fi rm :
  pump order s = (spawned, s') →
  rtc sched_step (MkSystem s en pk wk fi rm)
    (MkSystem s' en pk (rev spawned ++ wk) fi rm).
Proof.
  revert s spawned wk. induction order as [|a order IH]; intros s spawned wk; simpl.
  { intros [= <- <-]. apply rtc_refl. }
  destruct (admit_and_dispatch a s) as [sp s1] eqn:Hadm.
  destruct (pump order s1) as [more s2] eqn:Hpump. intros [= <- <-].
  etrans; [by eapply admit_steps|]. rewrite rev_app_distr, <-app_assoc. by apply IH.
Qed.

Lemma finish_steps locked c s spawned s' en pk wk1 wk2 fi rm :
  finish locked c s = (spawned, s') →
  rtc sched_step (MkSystem s en pk (wk1 ++ c :: wk2) fi rm)
    (MkSystem s' en pk (rev spawned ++ wk1 ++ wk2) fi rm).
Proof.
  unfold finish, complete. intros Hfin.
  eapply rtc_l; [apply step_free|].
  destruct (complete_free (c_workspace c) (c_dispatch c) s) as [released s1]. simpl.
  assert (∃ s2, (if released then pump_in_turn (c_workspace c) s1
                 else admit_and_dispatch (c_workspace c) s1) = (spawned, s2) ∧
    s' = add_report (Ran (c_call c)) (set_live (sc_live (forget_idle locked s2) - 1)
           (release (c_call c) (forget_idle locked s2)))) as (s2 & Hpump & ->).
  { destruct (if released then _ else _) as [sp s2] eqn:E. exists s2. by simplify_eq/=. }
  etrans; [|eapply rtc_l;
    [apply (step_forget _ _ s2 en pk (rev spawned ++ wk1 ++ wk2) (c :: fi) rm locked)|];
    apply rtc_once, (step_leave _ _ _ _ _ _ [] fi)].
  destruct released; [|by eapply admit_steps].
  unfold pump_in_turn, pump_order in Hpump. destruct (fetch_add_sweep s1) as [turn s3] eqn:Hturn.
  eapply rtc_l; [apply step_turn|]. rewrite Hturn. by eapply pump_steps.
Qed.

Lemma admit_loop_open fuel a : ∀ s ready s',
  admit_loop fuel a s = (ready, s') → sc_shutting_down s' = sc_shutting_down s.
Proof.
  induction fuel as [|fuel IH]; intros s ready s'; simpl; [by intros [= <- <-]|].
  destruct (admit_one a s) as [[w|] s1] eqn:Hone.
  - destruct (admit_loop fuel a s1) as [more s2] eqn:Hloop. intros [= <- <-].
    rewrite (IH _ _ _ Hloop).
    by apply admit_one_Some in Hone as (ws & rest & _ & _ & _ & _ & _ & ->).
  - intros [= <- <-]. by apply admit_one_None in Hone as ->.
Qed.

Lemma drop_waiting_open a s : sc_shutting_down (drop_waiting a s) = sc_shutting_down s.
Proof. unfold drop_waiting. by destruct (sc_heap s !! a). Qed.
Lemma push_back_open a w s : sc_shutting_down (push_back a w s) = sc_shutting_down s.
Proof. unfold push_back. by destruct (sc_heap s !! a). Qed.

(** A submission that joined found the scheduler open, and leaves it open. *)
Lemma join_Ok a w s spawned s' :
  join a w s = (Ok spawned, s') →
  sc_shutting_down s = false ∧ sc_shutting_down s' = false ∧
  admit_and_dispatch a (push_back a w (drop_waiting a s)) = (spawned, s').
Proof.
  unfold join. rewrite drop_waiting_open. destruct (sc_shutting_down s) eqn:Hopen; [done|].
  unfold admit_and_dispatch, admit_calls.
  destruct (admit_loop _ a _) as [ready s1] eqn:Hloop. intros [= <- <-]. split_and!; try done.
  by rewrite (admit_loop_open _ _ _ _ _ Hloop), push_back_open, drop_waiting_open.
Qed.

(** The three ways [submit] returns. *)
Lemma submit_inv locked c s r s' :
  submit load_tool_call registry_get locked c s = (Some r, s') →
  (∃ e, r = Err e ∧ submit_enter load_tool_call registry_get c s = (Err e, s')) ∨
  ∃ w s1 a s2, submit_enter load_tool_call registry_get c s = (Ok w, s1) ∧
    register (sd_workspace c) s1 = (a, s2) ∧ sc_shutting_down s2 = false ∧
    has_room a s2 = true ∧
    ∃ spawned, r = Ok spawned ∧
      admit_and_dispatch a (push_back a w (drop_waiting a s2)) = (spawned, s').
Proof.
  unfold submit. destruct (submit_enter _ _ c s) as [[w|e] s1] eqn:Henter.
  2: { intros [= <- <-]. left. by exists e. }
  assert (sc_shutting_down s1 = false) as Hopen1.
  { by apply submit_enter_Ok in Henter as (_ & _ & _ & Ho & ->). }
  destruct (register (sd_workspace c) s1) as [a s2] eqn:Hreg.
  assert (sc_shutting_down s2 = false) as Hopen2.
  { unfold register, get_or_insert, bump_waiting in Hreg.
    destruct (map_get _ _); simplify_eq/=; by case_match. }
  unfold may_join. rewrite Hopen2, orb_false_r. destruct (has_room a s2) eqn:Hroom; [|done].
  destruct (join a w s2) as [[sp|e] s3] eqn:Hjoin.
  - apply join_Ok in Hjoin as (_ & Hopen3 & Hadm). rewrite Hopen3. intros [= <- <-].
    right. exists w, s1, a, s2. split_and!; try done. by exists sp.
  - unfold join in Hjoin. rewrite drop_waiting_open, Hopen2 in Hjoin.
    by destruct (admit_and_dispatch _ _).
Qed.

Lemma submit_steps locked c s spawned s' wk fi rm :
  (sc_dispatched s + 1 < 2 ^ 64)%N →
  submit load_tool_call registry_get locked c s = (Some (Ok spawned), s') →
  rtc sched_step (MkSystem s [] [] wk fi rm)
    (MkSystem s' [] [] (rev spawned ++ wk) fi rm).
Proof.
  intros Hwrap [(e & He & _)|(w & s1 & a & s2 & Henter & Hreg & _ & Hroom & sp & Hsp & Hadm)]
    %submit_inv; [done|]. injection Hsp as <-.
  eapply rtc_l; [by apply step_enter with (c := c)|].
  eapply rtc_l; [by apply (step_register _ _ s1 s2 [] [] [] wk fi rm _ w a)|]. simpl.
  eapply rtc_l; [by apply (step_join _ _ s2 [] [] [] wk fi rm a w)|by eapply admit_steps].
Qed.

Lemma submit_refused_steps locked c s e s' wk fi rm :
  submit load_tool_call registry_get locked c s = (Some (Err e), s') →
  rtc sched_step (MkSystem s [] [] wk fi rm) (MkSystem s' [] [] wk fi rm).
Proof.
  intros [(e' & He & Henter)|(w & s1 & a & s2 & _ & _ & _ & _ & sp & Hsp & _)]%submit_inv; [|done].
  by eapply rtc_once, step_refuse.
Qed.

Lemma settle_steps en pk wk fi removed : ∀ s rm rest,
  rm ≡ₚ removed ++ rest →
  ∃ rm', rm' ≡ₚ rest ∧
    rtc sched_step (MkSystem s en pk wk fi rm)
      (MkSystem (foldl (λ s w, settle_removed w s) s removed) en pk wk fi rm').
Proof.
  induction removed as [|w removed IH]; intros s rm rest Hrm; simpl.
  { exists rm. split; [done|apply rtc_refl]. }
  assert (w ∈ rm) as (rm1 & rm2 & ->)%list_elem_of_split by (rewrite Hrm; by left).
  destruct (IH (settle_removed w s) (rm1 ++ rm2) rest) as (rm' & Hp & Hsteps).
  { rewrite <-Permutation_middle in Hrm. simpl in Hrm. by apply Permutation_cons_inv in Hrm. }
  exists rm'. split; [done|]. eapply rtc_l; [apply step_settle|exact Hsteps].
Qed.

Lemma stop_settle_steps en pk fi swept : ∀ s spawned s' wk rm rest,
  stop_settle swept s = (spawned, s') →
  rm ≡ₚ (swept ≫= snd) ++ rest →
  ∃ rm', rm' ≡ₚ rest ∧
    rtc sched_step (MkSystem s en pk wk fi rm)
      (MkSystem s' en pk (rev spawned ++ wk) fi rm').
Proof.
  induction swept as [|[a removed] swept IH]; intros s spawned s' wk rm rest; simpl.
  { intros [= <- <-] Hrm. exists rm. split; [done|apply rtc_refl]. }
  destruct (admit_and_dispatch a _) as [sp s1] eqn:Hadm.
  destruct (stop_settle swept s1) as [more s2] eqn:Hmore. intros [= <- <-] Hrm.
  rewrite <-app_assoc in Hrm.
  destruct (settle_steps en pk wk fi removed s rm _ Hrm) as (rm1 & Hrm1 & Hsettle).
  destruct (IH _ _ _ (rev sp ++ wk) rm1 rest Hmore Hrm1) as (rm2 & Hrm2 & Hrest).
  exists rm2. split; [done|]. etrans; [exact Hsettle|]. etrans; [by eapply admit_steps|].
  by rewrite rev_app_distr, <-app_assoc.
Qed.

Lemma stop_sweeps_steps run en pk wk fi order : ∀ s swept tripped s' rm,
  stop_sweeps run order s = ((swept, tripped), s') →
  ∃ rm', rm' ≡ₚ (swept ≫= snd) ++ rm ∧
    rtc sched_step (MkSystem s en pk wk fi rm) (MkSystem s' en pk wk fi rm').
Proof.
  induction order as [|a order IH]; intros s swept tripped s' rm; simpl.
  { intros [= <- <- <-]. exists rm. split; [done|apply rtc_refl]. }
  destruct (stop_sweep run a s) as [[removed n] s1] eqn:Hsweep.
  destruct (stop_sweeps run order s1) as [[swept' m] s2] eqn:Hrest. intros [= <- <- <-].
  destruct (IH _ _ _ _ (removed ++ rm) Hrest) as (rm' & Hp & Hsteps).
  exists rm'. split; [|by eapply rtc_l; [by eapply step_sweep|]].
  rewrite Hp. simpl. solve_Permutation.
Qed.

Lemma stop_steps locked run s report spawned s' en pk wk fi :
  stop locked run s = ((report, spawned), s') →
  rtc sched_step (MkSystem s en pk wk fi []) (MkSystem s' en pk (rev spawned ++ wk) fi []).
Proof.
  unfold stop. destruct (stop_sweeps run _ s) as [[swept tripped] s1] eqn:Hsweep.
  destruct (stop_settle swept s1) as [sp s2] eqn:Hsettle. intros [= <- <- <-].
  destruct (stop_sweeps_steps _ en pk wk fi _ _ _ _ _ [] Hsweep) as (rm1 & Hrm1 & H1).
  destruct (stop_settle_steps en pk fi _ _ _ _ wk _ _ Hsettle Hrm1) as (rm2 & Hrm2 & H2).
  apply Permutation_nil_r in Hrm2 as ->.
  etrans; [exact H1|]. etrans; [exact H2|]. apply rtc_once, step_forget.
Qed.

(** The scheduler between operations: its state and its workers. *)
Inductive op_step : Inner * list Completion → Inner * list Completion → Prop :=
| op_submit locked c s spawned s' wk :
    (sc_dispatched s + 1 < 2 ^ 64)%N →
    submit load_tool_call registry_get locked c s = (Some (Ok spawned), s') →
    op_step (s, wk) (s', rev spawned ++ wk)
| op_refuse locked c s e s' wk :
    submit load_tool_call registry_get locked c s = (Some (Err e), s') →
    op_step (s, wk) (s', wk)
| op_finish locked c s spawned s' wk1 wk2 :
    finish locked c s = (spawned, s') →
    op_step (s, wk1 ++ c :: wk2) (s', rev spawned ++ wk1 ++ wk2)
| op_cancel locked run s report spawned s' wk :
    cancel_run locked run s = ((report, spawned), s') →
    op_step (s, wk) (s', rev spawned ++ wk)
| op_shutdown locked s report spawned s' wk :
    shutdown locked s = ((report, spawned), s') →
    op_step (s, wk) (s', rev spawned ++ wk).

Definition at_rest (p : Inner * list Completion) : System := MkSystem p.1 [] [] p.2 [] [].

Lemma op_steps_refine p q : op_step p q → rtc sched_step (at_rest p) (at_rest q).
Proof.
  unfold at_rest. destruct 1 as [lk c s sp s' wk Hw Hs|lk c s e s' wk Hs|lk c s sp s' wk1 wk2 Hs
    |lk run s r sp s' wk Hs|lk s r sp s' wk Hs]; simpl.
  - by eapply submit_steps.
  - by eapply submit_refused_steps.
  - by eapply finish_steps.
  - by eapply stop_steps.
  - unfold shutdown in Hs. destruct (sc_shutting_down s); [simplify_eq/=; apply rtc_refl|].
    eapply rtc_l; [apply step_shutdown|]. by eapply stop_steps.
Qed.

Lemma ops_steps p q : rtc op_step p q → rtc sched_step (at_rest p) (at_rest q).
Proof.
  induction 1 as [|p q r Hpq _ IH]; [apply rtc_refl|]. etrans; [|exact IH].
  by apply op_steps_refine.
Qed.

(** C35. Every whole operation of the scheduler (a submission that finds room or
    is refused, a worker's completion with its pump, a cancellation, a shutdown)
    is a sequence of the critical sections of [sched_step], so that what every
    interleaving guarantees, any sequence of operations guarantees. *)
Theorem scheduler_refines_steps p q :
  rtc op_step p q → rtc sched_step (at_rest p) (at_rest q).
Proof. apply ops_steps. Qed.

(** ** Admission, whole *)

(** Why the front call of a queue stays where it is. *)
Definition held_back (s : Inner) (ws : Workspace) (w : Waiting) : bool :=
  sc_shutting_down s || negb (workspace_admits ws w)
  || (w_spawns_processes w && (sc_capacity s <=? sc_in_use s)%nat).

Definition blocked (a : nat) (s : Inner) : bool :=
  match sc_heap s !! a with
  | None => true
  | Some ws => match ws_queue ws with [] => true | w :: _ => held_back s ws w end
  end.

Lemma admit_one_blocked a s :
  if blocked a s then admit_one a s = (None, s) else is_Some (admit_one a s).1.
Proof.
  unfold blocked, held_back, admit_one, with_workspace.
  destruct (sc_heap s !! a) as [ws|]; [|done]. destruct (ws_queue ws) as [|w q]; [done|].
  destruct (sc_shutting_down s); [done|]. destruct (workspace_admits ws w); [|done]. simpl.
  unfold try_acquire. destruct (w_spawns_processes w); [|by eexists]. simpl.
  destruct (_ <=? _)%nat; [done|by eexists].
Qed.

Definition queue_of (a : nat) (s : Inner) : list Waiting :=
  from_option ws_queue [] (sc_heap s !! a).

(** What one run of [admit_calls] leaves alone. *)
Record same_elsewhere (a : nat) (s s' : Inner) : Prop := {
  se_heap : ∀ b, b ≠ a → sc_heap s' !! b = sc_heap s !! b;
  se_key : ws_key <$> sc_heap s' !! a = ws_key <$> sc_heap s !! a;
  se_waiting : ws_waiting <$> sc_heap s' !! a = ws_waiting <$> sc_heap s !! a;
  se_map : sc_workspaces s' = sc_workspaces s;
  se_capacity : sc_capacity s' = sc_capacity s;
  se_open : sc_shutting_down s' = sc_shutting_down s;
  se_claimed : sc_claimed s' = sc_claimed s;
  se_reports : sc_reports s' = sc_reports s;
  se_cancelled : sc_cancelled s' = sc_cancelled s;
  se_slots : sc_in_use s ≤ sc_in_use s';
  se_length : length (sc_heap s') = length (sc_heap s);
}.

Lemma same_elsewhere_refl a s : same_elsewhere a s s.
Proof. by split. Qed.
Lemma same_elsewhere_trans a s t u :
  same_elsewhere a s t → same_elsewhere a t u → same_elsewhere a s u.
Proof.
  intros [H1 H2 H3 H4 H5 H6 H7 H8 H9 H10 H11] [G1 G2 G3 G4 G5 G6 G7 G8 G9 G10 G11].
  split; try congruence; [|lia]. intros b Hb. by rewrite G1, H1.
Qed.

Lemma admit_one_elsewhere a s w s' :
  admit_one a s = (Some w, s') → same_elsewhere a s s' ∧ queue_of a s = w :: queue_of a s'.
Proof.
  intros (ws & rest & Ha & Hq & Hopen & _ & _ & ->)%admit_one_Some.
  pose proof (lookup_lt_Some _ _ _ Ha) as Hlt. unfold queue_of. split.
  - split; simpl; try done; rewrite ?list_lookup_insert_eq, ?Ha by done; try done.
    + intros b Hb. by rewrite list_lookup_insert_ne.
    + lia.
    + by rewrite length_insert.
  - simpl. by rewrite list_lookup_insert_eq, Ha by done.
Qed.

Lemma admit_loop_spec a : ∀ fuel s ready s',
  admit_loop fuel a s = (ready, s') →
  same_elsewhere a s s' ∧ queue_of a s = ready ++ queue_of a s' ∧
  (length (queue_of a s) ≤ fuel → blocked a s' = true) ∧
  sc_live s' = sc_live s + length ready.
Proof.
  induction fuel as [|fuel IH]; intros s ready s'; simpl.
  - intros [= <- <-]. split_and!; [apply same_elsewhere_refl|done| |simpl; lia].
    unfold queue_of, blocked. destruct (sc_heap s !! a) as [ws|]; [|done]. simpl.
    destruct (ws_queue ws); simpl; [done|lia].
  - pose proof (admit_one_blocked a s) as Hb.
    destruct (admit_one a s) as [[w|] s1] eqn:Hone.
    + destruct (admit_loop fuel a s1) as [more s2] eqn:Hloop. intros [= <- <-].
      destruct (IH _ _ _ Hloop) as (Hse & Hq & Hbl & Hlive).
      destruct (admit_one_elsewhere _ _ _ _ Hone) as [Hse1 Hq1].
      split_and!; [by eapply same_elsewhere_trans| | |].
      * by rewrite Hq1, Hq.
      * rewrite Hq1. simpl. intros Hlen. apply Hbl. lia.
      * apply admit_one_Some in Hone as (ws & rest & _ & _ & _ & _ & _ & ->).
        rewrite Hlive. simpl. lia.
    + intros [= <- <-]. destruct (blocked a s) eqn:Hbl; [|by apply is_Some_None in Hb].
      simplify_eq. split_and!; [apply same_elsewhere_refl|done|done|simpl; lia].
Qed.

Lemma admit_calls_spec a s ready s' :
  admit_calls a s = (ready, s') →
  same_elsewhere a s s' ∧ queue_of a s = ready ++ queue_of a s' ∧ blocked a s' = true ∧
  sc_live s' = sc_live s + length ready.
Proof.
  intros (Hse & Hq & Hb & Hl)%admit_loop_spec. split_and!; try done. apply Hb.
  unfold queue_of. by destruct (sc_heap s !! a).
Qed.

(** Admission is first come, first served, and complete: the calls admitted
    are the front of the queue, in its order; what is left is the rest of it; the
    call then in front is one that the scheduler's state holds back; and no other
    workspace, claim or report is touched. *)
Theorem admit_calls_in_order a s :
  let '(ready, s') := admit_calls a s in
  queue_of a s = ready ++ queue_of a s' ∧ blocked a s' = true ∧
  (∀ b, b ≠ a → sc_heap s' !! b = sc_heap s !! b) ∧
  sc_claimed s' = sc_claimed s ∧ sc_reports s' = sc_reports s ∧
  sc_live s' = sc_live s + length ready.
Proof.
  destruct (admit_calls a s) as [ready s'] eqn:Hadm.
  apply admit_calls_spec in Hadm as ([] & Hq & Hb & Hl). split_and!; done.
Qed.

(** ** No call is left that could have been admitted *)

Lemma blocked_local b s s' :
  (∀ ws', sc_heap s' !! b = Some ws' → ws_queue ws' = [] ∨
    ∃ ws, sc_heap s !! b = Some ws ∧ ws_queue ws' = ws_queue ws ∧
      ws_running ws' = ws_running ws) →
  sc_capacity s' = sc_capacity s → sc_in_use s ≤ sc_in_use s' →
  sc_shutting_down s' = sc_shutting_down s →
  blocked b s = true → blocked b s' = true.
Proof.
  unfold blocked, held_back. intros Hheap Hcap Hslots Hopen Hb.
  destruct (sc_heap s' !! b) as [ws'|]; [|done].
  destruct (Hheap _ eq_refl) as [->|(ws & Hws & Hq & Hr)]; [done|].
  rewrite Hws in Hb. rewrite Hq, Hopen, Hcap. destruct (ws_queue ws) as [|w q]; [done|].
  unfold workspace_admits, mutating, reads in *. rewrite Hr.
  apply orb_true_iff in Hb as [->|Hb]; [done|]. apply andb_true_iff in Hb as [-> Hb].
  apply Nat.leb_le in Hb. apply orb_true_iff. right. simpl. apply Nat.leb_le. lia.
Qed.

Lemma blocked_elsewhere a b s s' :
  same_elsewhere a s s' → b ≠ a → blocked b s = true → blocked b s' = true.
Proof.
  intros [Hheap _ _ _ Hcap Hopen _ _ _ Hslots _] Hb. apply blocked_local; try done.
  intros ws' Hws. right. rewrite Hheap in Hws by done. eauto.
Qed.

Lemma blocked_admitted a b s ready s' :
  admit_calls a s = (ready, s') → blocked b s = true ∨ b = a → blocked b s' = true.
Proof.
  intros (Hse & _ & Hb & _)%admit_calls_spec. destruct (decide (b = a)) as [->|Hne]; [done|].
  intros [Hbl|]; [|done]. by eapply blocked_elsewhere.
Qed.

Definition total_queued (s : Inner) : nat := length (sc_heap s ≫= ws_queue).

Lemma admit_loop_total a : ∀ fuel s ready s',
  admit_loop fuel a s = (ready, s') → total_queued s = total_queued s' + length ready.
Proof.
  induction fuel as [|fuel IH]; intros s ready s'; simpl; [intros [= <- <-]; simpl; lia|].
  destruct (admit_one a s) as [[w|] s1] eqn:Hone.
  - destruct (admit_loop fuel a s1) as [more s2] eqn:Hloop. intros [= <- <-].
    apply IH in Hloop. apply admit_one_Some in Hone as (ws & rest & Ha & Hq & _ & _ & _ & ->).
    revert Hloop. unfold total_queued. simpl.
    destruct (heap_bind_insert ws_queue _ a ws Ha) as (more' & -> & ->).
    rewrite Hq, !length_app. simpl. lia.
  - intros [= <- <-]. apply admit_one_None in Hone as ->. simpl. lia.
Qed.

(** What the scheduler's later admissions cannot change. *)
Definition same_frame (s s' : Inner) : Prop :=
  sc_workspaces s' = sc_workspaces s ∧ sc_shutting_down s' = sc_shutting_down s.

Lemma pump_spec order : ∀ s spawned s',
  pump order s = (spawned, s') →
  (∀ b, blocked b s = true ∨ b ∈ order → blocked b s' = true) ∧
  total_queued s = total_queued s' + length spawned ∧ same_frame s s'.
Proof.
  induction order as [|a order IH]; intros s spawned s'; simpl.
  - intros [= <- <-]. split_and!; [|simpl; lia|done].
    by intros b [?|?%elem_of_nil].
  - unfold admit_and_dispatch. destruct (admit_calls a s) as [ready s1] eqn:Hadm.
    destruct (pump order s1) as [more s2] eqn:Hpump. intros [= <- <-].
    destruct (IH _ _ _ Hpump) as (Hb & Htot & Hm & Ho).
    pose proof (admit_calls_spec _ _ _ _ Hadm) as ([_ _ _ Hm1 _ Ho1 _ _ _ _ _] & _).
    pose proof (admit_loop_total _ _ _ _ _ Hadm) as Htot1.
    split_and!; [|rewrite length_app; unfold dispatch; rewrite length_fmap; lia
                 |unfold same_frame; split; congruence].
    intros b Hor. apply Hb.
    destruct (decide (b = a)) as [->|Hne]; [left; eapply blocked_admitted; eauto|].
    destruct Hor as [Hbl|[->|Hin]%elem_of_cons]; [|done|by right].
    left. eapply blocked_admitted; eauto.
Qed.

Lemma complete_free_spec a d s released s' :
  complete_free a d s = (released, s') →
  (∀ b, b ≠ a → sc_heap s' !! b = sc_heap s !! b) ∧ queue_of a s' = queue_of a s ∧
  total_queued s' = total_queued s ∧ same_frame s s' ∧ sc_capacity s' = sc_capacity s ∧
  (released = false → sc_in_use s' = sc_in_use s).
Proof.
  unfold complete_free, with_workspace, queue_of, total_queued.
  destruct (sc_heap s !! a) as [ws|] eqn:Ha; [|by intros [= <- <-]; rewrite Ha].
  destruct (heap_bind_insert ws_queue _ a ws Ha) as (rest & Hall & Hset).
  pose proof (lookup_lt_Some _ _ _ Ha) as Hlt.
  intros [= <- <-]. split_and!.
  - intros b Hb. destruct (is_some_and _ _); simpl; by rewrite list_lookup_insert_ne.
  - destruct (is_some_and _ _); simpl; by rewrite list_lookup_insert_eq.
  - destruct (is_some_and _ _); simpl; by rewrite Hset, Hall.
  - by destruct (is_some_and _ _).
  - by destruct (is_some_and _ _).
  - by destruct (is_some_and _ _).
Qed.

(** The workspaces a freed slot is offered to: each mapped one and its own. *)
Lemma pump_order_members a s :
  ∃ order, pump_order a s = (order, (fetch_add_sweep s).2) ∧ a ∈ order ∧
    ∀ k b, (k, b) ∈ sc_workspaces s → b ∈ order.
Proof.
  unfold pump_order, rotate_left. simpl. eexists. split; [done|].
  assert (∀ k b, (k, b) ∈ sc_workspaces s → b ∈ live_workspaces s) as Hlive.
  { intros k b Hkb. apply list_elem_of_fmap. by exists (k, b). }
  case_decide as Hd; split; intros; rewrite Permutation_app_comm, take_drop; eauto;
    apply elem_of_app; [right; by left|left; eauto].
Qed.

(** A completion leaves no admissible call: not where it ran, and, when it gave
    a process slot back, nowhere. *)
Lemma finish_spec locked c s spawned s' :
  map_wf s → finish locked c s = (spawned, s') → (∀ b, blocked b s = true) →
  (∀ b, blocked b s' = true) ∧ total_queued s = total_queued s' + length spawned ∧
  sc_shutting_down s' = sc_shutting_down s.
Proof.
  intros Hmap. unfold finish, complete.
  destruct (complete_free _ _ s) as [released s1] eqn:Hfree.
  destruct (complete_free_spec _ _ _ _ _ Hfree) as (Hoth & Hq & Htot & [Hm Ho] & Hcap & Hslot).
  destruct (if released then _ else _) as [sp s2] eqn:Hpump. intros [= <- <-] Hall.
  set (a := c_workspace c) in *.
  assert (∃ order, pump order (if released then (fetch_add_sweep s1).2 else s1) = (sp, s2) ∧
    a ∈ order ∧ (released = true → ∀ k b, (k, b) ∈ sc_workspaces s → b ∈ order))
    as (order & Hp & Hin & Hmapped).
  { destruct released.
    - unfold pump_in_turn in Hpump.
      destruct (pump_order_members a s1) as (order & Ho' & Hin & Hmem). rewrite Ho' in Hpump.
      exists order. split_and!; [done..|]. intros _ k b Hkb. rewrite <-Hm in Hkb. eauto.
    - exists [a]. simpl. rewrite Hpump. split; [by rewrite app_nil_r|].
      split; [by left|done]. }
  destruct (pump_spec _ _ _ _ Hp) as (Hbl & Htot2 & Hm2 & Ho2).
  split_and!; simpl.
  - intros b. change (blocked b s2 = true). apply Hbl.
    destruct (decide (b = a)) as [->|Hne]; [by right|].
    destruct released eqn:Hr.
    + destruct (sc_heap s !! b) as [wb|] eqn:Hb.
      * destruct (is_idle wb) eqn:Hidle; [left|right; eapply Hmapped, (map_active _ Hmap); eauto].
        unfold blocked. simpl. rewrite Hoth, Hb by done. unfold is_idle in Hidle.
        apply andb_true_iff in Hidle as [[Hz _]%andb_true_iff _].
        by apply bool_decide_eq_true in Hz as ->.
      * left. unfold blocked. simpl. by rewrite Hoth, Hb.
    + left. eapply blocked_local, Hall; try done; [|rewrite Hslot by done; lia].
      intros ws' Hws. right. rewrite Hoth in Hws by done. eauto.
  - change (total_queued s = total_queued s2 + length sp). rewrite <-Htot, <-Htot2.
    by destruct released.
  - rewrite Ho2. by destruct released.
Qed.

(** A submission's bookkeeping, up to the queue it joins. *)
Lemma register_local key s a s' b :
  register key s = (a, s') → blocked b s = true → blocked b s' = true.
Proof.
  unfold register, get_or_insert. intros Hreg.
  assert (sc_capacity s' = sc_capacity s ∧ sc_in_use s' = sc_in_use s ∧
    sc_shutting_down s' = sc_shutting_down s ∧
    ∀ ws', sc_heap s' !! b = Some ws' → ws_queue ws' = [] ∨
      ∃ ws, sc_heap s !! b = Some ws ∧ ws_queue ws' = ws_queue ws ∧
        ws_running ws' = ws_running ws) as (Hc & Hi & Ho & Hh).
  { assert (∀ (h : list Workspace) d wd ws', h !! d = Some wd →
      (∀ wb, h !! b = Some wb → ws_queue wb = [] ∨ sc_heap s !! b = Some wb) →
      <[d := MkWorkspace (ws_key wd) (ws_queue wd) (ws_running wd) (ws_waiting wd + 1)]> h !! b
        = Some ws' → ws_queue ws' = [] ∨ ∃ ws, sc_heap s !! b = Some ws ∧
          ws_queue ws' = ws_queue ws ∧ ws_running ws' = ws_running ws) as Hset.
    { intros h d wd ws' Hd Hold Hws.
      apply list_lookup_insert_Some in Hws as [(-> & <- & _)|[_ Hws]];
        [apply Hold in Hd as [Hd|Hd]|apply Hold in Hws as [Hws|Hws]]; simpl; eauto. }
    unfold bump_waiting in Hreg. destruct (map_get key _) as [d|]; simplify_eq/=.
    - destruct (sc_heap s !! a) as [wa|] eqn:Ha; split_and!; try done; simpl.
      + intros ws'. eapply Hset; eauto.
      + intros ws' Hws. eauto.
    - rewrite list_lookup_middle by done. simpl. split_and!; try done.
      intros ws'. eapply (Hset _ _ (Workspace_empty key)); [by apply list_lookup_middle|].
      intros wb [Hwb|[_ Hwb]]%lookup_app_Some; [by right|left].
      by apply list_lookup_singleton_Some in Hwb as [_ <-]. }
  apply blocked_local; try done. by rewrite Hi.
Qed.

Lemma submit_blocked locked c s r s' :
  submit load_tool_call registry_get locked c s = (Some r, s') →
  (∀ b, blocked b s = true) → ∀ b, blocked b s' = true.
Proof.
  intros [(e & _ & Henter)|(w & s1 & a & s2 & Henter & Hreg & Hopen & Hroom & sp & _ & Hadm)]
    %submit_inv Hall b.
  { apply submit_enter_Err in Henter as [He _]. rewrite He. exact (Hall b). }
  assert (∀ b, blocked b s2 = true) as H2.
  { intros d. eapply register_local; [exact Hreg|].
    apply submit_enter_Ok in Henter as (_ & _ & _ & _ & ->). exact (Hall d). }
  unfold has_room in Hroom. destruct (sc_heap s2 !! a) as [ws|] eqn:Ha; [|done].
  unfold drop_waiting in Hadm. rewrite Ha in Hadm. unfold push_back in Hadm. simpl in Hadm.
  rewrite list_lookup_insert_eq in Hadm by (by eapply lookup_lt_Some). simpl in Hadm.
  unfold admit_and_dispatch in Hadm. destruct (admit_calls a _) as [ready s3] eqn:Hcalls.
  injection Hadm as <- <-. eapply blocked_admitted; [exact Hcalls|].
  destruct (decide (b = a)) as [|Hne]; [by right|left].
  unfold set_workspace; simpl. rewrite list_insert_insert_eq.
  eapply blocked_local, H2; try done. simpl. intros wb Hwb. right.
  rewrite list_lookup_insert_ne in Hwb by done. eauto.
Qed.

Lemma stop_sweep_spec run a s removed tripped s' :
  stop_sweep run a s = ((removed, tripped), s') →
  (∀ b, b ≠ a → sc_heap s' !! b = sc_heap s !! b) ∧
  removed = filter (λ w, stop_matches run (w_run w) = true) (queue_of a s) ∧
  queue_of a s' = filter (λ w, stop_matches run (w_run w) = false) (queue_of a s) ∧
  same_frame s s' ∧ sc_capacity s' = sc_capacity s ∧ sc_in_use s' = sc_in_use s ∧
  sc_claimed s' = sc_claimed s ∧ sc_reports s' = sc_reports s ∧
  sc_cancelled s ⊆ sc_cancelled s' ∧
  (∀ e, e ∈ from_option ws_running [] (sc_heap s !! a) → stop_matches run (r_run e.2) = true →
    r_cancellation e.2 ∈ sc_cancelled s') ∧
  from_option ws_running [] (sc_heap s' !! a) = from_option ws_running [] (sc_heap s !! a).
Proof.
  unfold stop_sweep, with_workspace, queue_of. destruct (sc_heap s !! a) as [ws|] eqn:Ha.
  2: { intros [= <- <- <-]. rewrite Ha. split_and!; try done. by intros e ?%elem_of_nil. }
  pose proof (lookup_lt_Some _ _ _ Ha) as Hlt.
  intros [= <- <- <-]. simpl. rewrite list_lookup_insert_eq by done. split_and!; try done.
  - intros b Hb. by rewrite list_lookup_insert_ne.
  - set_solver.
  - intros e He Hm. apply elem_of_union_l, elem_of_list_to_set, list_elem_of_fmap.
    exists e. split; [done|]. by apply list_elem_of_filter.
Qed.

(** ** A sweep takes exactly the calls it names *)

Definition running_of (a : nat) (s : Inner) : list (N * Running) :=
  from_option ws_running [] (sc_heap s !! a).

Definition named (run : option RunId) (q : list Waiting) : list Waiting :=
  filter (λ w, stop_matches run (w_run w) = true) q.
Definition spared (run : option RunId) (q : list Waiting) : list Waiting :=
  filter (λ w, stop_matches run (w_run w) = false) q.

Lemma stop_sweeps_spec run order : ∀ s swept tripped s',
  NoDup order →
  stop_sweeps run order s = ((swept, tripped), s') →
  swept = (λ a, (a, named run (queue_of a s))) <$> order ∧
  (∀ b, b ∉ order → sc_heap s' !! b = sc_heap s !! b) ∧
  (∀ a, a ∈ order → queue_of a s' = spared run (queue_of a s)) ∧
  same_frame s s' ∧ sc_capacity s' = sc_capacity s ∧ sc_in_use s' = sc_in_use s ∧
  sc_claimed s' = sc_claimed s ∧ sc_reports s' = sc_reports s ∧
  sc_cancelled s ⊆ sc_cancelled s' ∧
  (∀ a e, a ∈ order → e ∈ running_of a s → stop_matches run (r_run e.2) = true →
    r_cancellation e.2 ∈ sc_cancelled s').
Proof.
  induction order as [|a order IH]; intros s swept tripped s' Hnd; simpl.
  { intros [= <- <- <-]. split_and!; try done; by intros ? ?%elem_of_nil || intros ? ? ?%elem_of_nil. }
  apply NoDup_cons in Hnd as [Hnot Hnd].
  destruct (stop_sweep run a s) as [[removed n] s1] eqn:Hsweep.
  destruct (stop_sweeps run order s1) as [[swept' m] s2] eqn:Hrest. intros [= <- <- <-].
  apply stop_sweep_spec in Hsweep
    as (Hoth & -> & Hq & [Hm Ho] & Hc & Hi & Hcl & Hrep & Hsub & Htok & Hrun).
  destruct (IH _ _ _ _ Hnd Hrest)
    as (-> & Hoth2 & Hq2 & [Hm2 Ho2] & Hc2 & Hi2 & Hcl2 & Hrep2 & Hsub2 & Htok2).
  assert (∀ b, b ∈ order → b ≠ a) as Hne by (intros b Hb ->; done).
  split_and!; try congruence.
  - f_equal. apply list_fmap_ext. intros i b Hb%list_elem_of_lookup_2.
    unfold queue_of. by rewrite Hoth by auto.
  - intros b [Hba Hbo]%not_elem_of_cons. by rewrite Hoth2, Hoth.
  - intros b [->|Hb]%elem_of_cons.
    + unfold queue_of at 1. rewrite Hoth2 by done. exact Hq.
    + rewrite Hq2 by done. unfold queue_of. by rewrite Hoth by auto.
  - unfold same_frame. split; congruence.
  - by etrans.
  - intros b e [->|Hb]%elem_of_cons He Hmatch.
    + apply Hsub2. by eapply Htok.
    + eapply Htok2; [done| |done]. unfold running_of in *. by rewrite Hoth by auto.
Qed.

Lemma settle_all removed : ∀ s,
  foldl (λ s w, settle_removed w s) s removed =
  MkInner (sc_heap s) (sc_workspaces s) (sc_capacity s) (sc_in_use s) (sc_live s)
    (sc_dispatched s) (sc_sweep s)
    (sc_claimed s ∖ list_to_set (w_call <$> removed)) (sc_shutting_down s) (sc_cancelled s)
    (sc_reports s ++ ((λ w, CancelledUndispatched (w_call w)) <$> removed)).
Proof.
  induction removed as [|w removed IH]; intros s; simpl.
  - rewrite app_nil_r, difference_empty_L. by destruct s.
  - rewrite IH. simpl. f_equal; [set_solver|by rewrite <-app_assoc].
Qed.

Lemma stop_settle_spec swept : ∀ s spawned s',
  stop_settle swept s = (spawned, s') →
  (∀ b, blocked b s = true ∨ b ∈ swept.*1 → blocked b s' = true) ∧
  sc_reports s' = sc_reports s ++ ((λ w, CancelledUndispatched (w_call w)) <$> (swept ≫= snd)) ∧
  sc_claimed s' = sc_claimed s ∖ list_to_set (w_call <$> (swept ≫= snd)) ∧
  same_frame s s' ∧ sc_cancelled s' = sc_cancelled s ∧
  (∀ a, queue_of a s' `suffix_of` queue_of a s) ∧
  (sc_shutting_down s = true → spawned = []).
Proof.
  induction swept as [|[a removed] swept IH]; intros s spawned s'; simpl.
  { intros [= <- <-]. rewrite app_nil_r, difference_empty_L. split_and!; try done.
    by intros b [?|?%elem_of_nil]. }
  rewrite settle_all. set (s0 := MkInner _ _ _ _ _ _ _ _ _ _ _).
  unfold admit_and_dispatch. destruct (admit_calls a s0) as [ready s1] eqn:Hadm.
  destruct (stop_settle swept s1) as [more s2] eqn:Hmore. intros [= <- <-].
  destruct (IH _ _ _ Hmore) as (Hb & Hrep & Hcl & [Hm Ho] & Hcan & Hsuf & Hdown).
  destruct (admit_calls_spec _ _ _ _ Hadm)
    as ([Hoth _ _ Hm1 _ Ho1 Hcl1 Hrep1 Hcan1 _ _] & Hq & _ & _).
  split_and!.
  - intros b Hor. apply Hb. destruct (decide (b = a)) as [->|Hne].
    + left. eapply blocked_admitted; eauto.
    + destruct Hor as [Hbl|[->|Hin]%elem_of_cons]; [|done|by right].
      left. eapply blocked_admitted; [exact Hadm|]. by left.
  - rewrite Hrep, Hrep1. simpl. by rewrite fmap_app, <-app_assoc.
  - rewrite Hcl, Hcl1. simpl. rewrite fmap_app, list_to_set_app_L. clear. set_solver.
  - unfold same_frame. rewrite Hm, Ho, Hm1, Ho1. done.
  - by rewrite Hcan, Hcan1.
  - intros b. etrans; [apply Hsuf|]. destruct (decide (b = a)) as [->|Hne].
    + exists ready. exact Hq.
    + unfold queue_of. rewrite Hoth by done. done.
  - intros Hd. rewrite Hdown by (by rewrite Ho1). rewrite app_nil_r.
    pose proof (admit_one_blocked a s0) as Hone. unfold admit_calls in Hadm.
    assert (blocked a s0 = true) as Hbl.
    { unfold blocked, held_back. simpl. rewrite Hd. by destruct (_ !! a) as [[? [] ? ?]|]. }
    rewrite Hbl in Hone. destruct (from_option _ _ _); simpl in Hadm; [by simplify_eq|].
    rewrite Hone in Hadm. by simplify_eq.
Qed.

Lemma live_nodup s : map_wf s → NoDup (live_workspaces s).
Proof.
  intros [Hk Hs _]. unfold live_workspaces. induction (sc_workspaces s) as [|[k a] m IH];
    [constructor|]. csimpl in *. apply NoDup_cons in Hk as [Hnot Hk]. apply NoDup_cons. split.
  - intros [[k' b] [Hb Hin]]%list_elem_of_fmap. simpl in Hb. subst b.
    destruct (Hs k a) as (ws & Hws & <-); [by left|].
    destruct (Hs k' a) as (ws' & Hws' & <-); [by right|].
    assert (ws' = ws) as -> by congruence. apply Hnot, list_elem_of_fmap.
    by exists (ws_key ws, a).
  - apply IH; [done|]. intros k' b Hin. apply Hs. by right.
Qed.

Lemma swept_calls (f : nat → list Waiting) (l : list nat) :
  ((λ a, (a, f a)) <$> l) ≫= snd = l ≫= f.
Proof. induction l as [|a l IH]; [done|]. simpl. f_equal. exact IH. Qed.

Lemma stop_spec locked run s report spawned s' :
  map_wf s → stop locked run s = ((report, spawned), s') →
  let gone := live_workspaces s ≫= λ a, named run (queue_of a s) in
  cr_queued report = length gone ∧
  sc_reports s' = sc_reports s ++ ((λ w, CancelledUndispatched (w_call w)) <$> gone) ∧
  sc_claimed s' = sc_claimed s ∖ list_to_set (w_call <$> gone) ∧
  (∀ a, a ∈ live_workspaces s → queue_of a s' `suffix_of` spared run (queue_of a s)) ∧
  (∀ a, a ∉ live_workspaces s → queue_of a s' `suffix_of` queue_of a s) ∧
  (∀ a e, a ∈ live_workspaces s → e ∈ running_of a s → stop_matches run (r_run e.2) = true →
    r_cancellation e.2 ∈ sc_cancelled s') ∧
  sc_shutting_down s' = sc_shutting_down s ∧
  (sc_shutting_down s = true → spawned = []) ∧
  ((∀ b, blocked b s = true) → ∀ b, blocked b s' = true).
Proof.
  intros Hmap. unfold stop.
  destruct (stop_sweeps run _ s) as [[swept tripped] s1] eqn:Hsweep.
  destruct (stop_settle swept s1) as [sp s2] eqn:Hsettle. intros [= <- <- <-].
  apply stop_sweeps_spec in Hsweep; [|by apply live_nodup].
  destruct Hsweep as (-> & Hoth & Hq & [Hm Ho] & Hc & Hi & Hcl & Hrep & Hsub & Htok).
  destruct (stop_settle_spec _ _ _ _ Hsettle) as (Hb & Hrep2 & Hcl2 & [Hm2 Ho2] & Hcan & Hsuf & Hdown).
  assert (((λ a, (a, named run (queue_of a s))) <$> live_workspaces s) ≫= snd
    = live_workspaces s ≫= λ a, named run (queue_of a s)) as Hgone.
  { apply swept_calls. }
  rewrite Hgone in *. simpl. split_and!.
  - rewrite <-Hgone. generalize ((λ a, (a, named run (queue_of a s))) <$> live_workspaces s).
    induction l as [|e l IH]; [done|]. csimpl. by rewrite length_app, IH.
  - by rewrite Hrep2, Hrep.
  - by rewrite Hcl2, Hcl.
  - intros a Ha. rewrite <-Hq by done. apply Hsuf.
  - intros a Ha. etrans; [apply Hsuf|]. unfold queue_of. by rewrite Hoth.
  - intros a e Ha He Hmatch. rewrite Hcan. by eapply Htok.
  - by rewrite Ho2, Ho.
  - intros Hd. apply Hdown. by rewrite Ho.
  - intros Hall b. change (blocked b s2 = true). apply Hb.
    destruct (decide (b ∈ live_workspaces s)) as [Hin|Hin].
    + right. rewrite <-list_fmap_compose. unfold compose. simpl. by rewrite list_fmap_id.
    + left. eapply blocked_local, Hall; try done; [|by rewrite Hi].
      intros ws Hws. right. rewrite Hoth in Hws by done. eauto.
Qed.

Lemma idle_queue a s :
  map_wf s → a ∉ live_workspaces s → queue_of a s = [] ∧ running_of a s = [].
Proof.
  intros Hmap Hnot. unfold queue_of, running_of.
  destruct (sc_heap s !! a) as [ws|] eqn:Ha; [|done]. simpl.
  destruct (is_idle ws) eqn:Hidle.
  - apply andb_true_iff in Hidle as [[Hq Hr]%andb_true_iff _].
    by apply bool_decide_eq_true in Hq, Hr.
  - destruct Hnot. apply list_elem_of_fmap. exists (ws_key ws, a). split; [done|].
    by apply (map_active _ Hmap).
Qed.

(** Cancelling a run, in any reachable state: the calls reported as
    cancelled, and whose claims are given back, are exactly that run's queued
    calls, as many as the report counts; what is left of each queue is an end of
    its other calls, in their order; and every running call of the run has its
    cancellation tripped. *)
Theorem cancel_run_exact n y locked run report spawned s' :
  rtc sched_step (sched_start n) y →
  cancel_run locked run (sy_inner y) = ((report, spawned), s') →
  let s := sy_inner y in
  let gone := live_workspaces s ≫= λ a, named (Some run) (queue_of a s) in
  cr_queued report = length gone ∧
  sc_reports s' = sc_reports s ++ ((λ w, CancelledUndispatched (w_call w)) <$> gone) ∧
  sc_claimed s' = sc_claimed s ∖ list_to_set (w_call <$> gone) ∧
  (∀ a, queue_of a s' `suffix_of` spared (Some run) (queue_of a s)) ∧
  (∀ a e, e ∈ running_of a s → r_run e.2 = run → r_cancellation e.2 ∈ sc_cancelled s').
Proof.
  intros [Hmap _ _ _ _ _ _ _ _]%reachable_wf Hcan.
  destruct (stop_spec _ _ _ _ _ _ Hmap Hcan)
    as (Hn & Hrep & Hcl & Hq & Hoth & Htok & _). simpl. split_and!; try done.
  - intros a. destruct (decide (a ∈ live_workspaces (sy_inner y))) as [Hin|Hin]; [by apply Hq|].
    destruct (idle_queue a _ Hmap Hin) as [Hz _]. specialize (Hoth a Hin).
    by rewrite Hz in *.
  - intros a e He Hrun. destruct (decide (a ∈ live_workspaces (sy_inner y))) as [Hin|Hin].
    + eapply Htok; [done..|]. simpl. by apply bool_decide_eq_true.
    + destruct (idle_queue a _ Hmap Hin) as [_ Hz]. rewrite Hz in He. by apply elem_of_nil in He.
Qed.

(** Shutting an open scheduler down, in any reachable state: nothing is
    dispatched, every queue is empty afterwards, every running call has its
    cancellation tripped, and every later submission is refused unchanged. *)
Theorem shutdown_drains n y locked report spawned s' :
  rtc sched_step (sched_start n) y → sc_shutting_down (sy_inner y) = false →
  shutdown locked (sy_inner y) = ((report, spawned), s') →
  spawned = [] ∧ (∀ a, queue_of a s' = []) ∧
  (∀ a e, e ∈ running_of a (sy_inner y) → r_cancellation e.2 ∈ sc_cancelled s') ∧
  (∀ lk c, submit load_tool_call registry_get lk c s'
     = (Some (Err (SchedShutdown (sd_call c))), s')).
Proof.
  intros [Hmap _ _ _ _ _ _ _ _]%reachable_wf Hopen. unfold shutdown. rewrite Hopen. intros Hstop.
  assert (map_wf (begin_shutdown (sy_inner y))) as Hmap'
    by by apply (map_wf_same (sy_inner y)).
  destruct (stop_spec _ _ _ _ _ _ Hmap' Hstop)
    as (_ & _ & _ & Hq & Hoth & Htok & Hdown & Hsp & _).
  split_and!; [by apply Hsp| | |].
  - intros a. destruct (decide (a ∈ live_workspaces (begin_shutdown (sy_inner y)))) as [Hin|Hin].
    + specialize (Hq a Hin). unfold spared in Hq. simpl in Hq.
      apply suffix_nil_inv. etrans; [exact Hq|]. clear.
      induction (queue_of _ _) as [|w q IH]; [done|]. by rewrite filter_cons_False.
    + destruct (idle_queue a _ Hmap' Hin) as [Hz _]. specialize (Hoth a Hin).
      rewrite Hz in Hoth. by apply suffix_nil_inv.
  - intros a e He. destruct (decide (a ∈ live_workspaces (begin_shutdown (sy_inner y)))) as [Hin|Hin].
    + by eapply Htok.
    + destruct (idle_queue a _ Hmap' Hin) as [_ Hz].
      change (running_of a (begin_shutdown (sy_inner y))) with (running_of a (sy_inner y)) in Hz.
      rewrite Hz in He. by apply elem_of_nil in He.
  - intros lk c. unfold submit, submit_enter. by rewrite Hdown.
Qed.

(** ** Every queue drains *)

Definition op_start (n : nat) : Inner * list Completion := (Scheduler_with_process_limit n, []).

Definition saturated (p : Inner * list Completion) : Prop :=
  sched_wf (at_rest p) ∧ ∀ b, blocked b p.1 = true.

Lemma saturated_op p q : op_step p q → saturated p → saturated q.
Proof.
  intros Hop [Hwf Hall]. split.
  { apply (rtc_invariant sched_step sched_wf _ _ (λ a b Ha Hab, wf_step _ _ a b Hab Ha) Hwf).
    by apply op_steps_refine. }
  destruct Hop as [lk c s sp s' wk Hw Hs|lk c s e s' wk Hs|lk c s sp s' wk1 wk2 Hs
    |lk run s r sp s' wk Hs|lk s r sp s' wk Hs]; simpl in *.
  - by eapply submit_blocked.
  - by eapply submit_blocked.
  - by eapply finish_spec; [apply (sy_map _ Hwf)| |].
  - eapply stop_spec; [apply (sy_map _ Hwf)|done|done].
  - unfold shutdown in Hs. destruct (sc_shutting_down s) eqn:Hd; [by simplify_eq/=|].
    eapply stop_spec; [|exact Hs|].
    + by apply (map_wf_same s), (sy_map _ Hwf).
    + intros b. unfold blocked, held_back. simpl. by destruct (_ !! b) as [[? [] ? ?]|].
Qed.

Lemma ops_saturated n p : rtc op_step (op_start n) p → saturated p.
Proof.
  apply (rtc_invariant op_step saturated); [eauto using saturated_op|].
  split; [exact (wf_start n)|]. by intros [].
Qed.

(** Between operations no call is queued that the scheduler could run: in
    every state a sequence of operations reaches, each queue is empty or its
    front call is held back by the shutdown, by the calls running in its
    workspace, or by the process limit. *)
Theorem nothing_admissible_waits n p a :
  rtc op_step (op_start n) p → admit_one a p.1 = (None, p.1).
Proof.
  intros [_ Hall]%ops_saturated. pose proof (admit_one_blocked a p.1) as Hone.
  by rewrite Hall in Hone.
Qed.

Inductive finish_step : Inner * list Completion → Inner * list Completion → Prop :=
| finish_one locked c s spawned s' wk1 wk2 :
    finish locked c s = (spawned, s') →
    finish_step (s, wk1 ++ c :: wk2) (s', rev spawned ++ wk1 ++ wk2).

Definition work_left (p : Inner * list Completion) : nat :=
  2 * total_queued p.1 + length p.2.

Lemma finish_step_op p q : finish_step p q → op_step p q.
Proof. destruct 1. by eapply op_finish. Qed.

Lemma finish_step_works p q :
  saturated p → finish_step p q →
  work_left q < work_left p ∧ sc_shutting_down q.1 = sc_shutting_down p.1.
Proof.
  intros Hsat Hstep. destruct Hstep as [locked c s spawned s' wk1 wk2 Hfin].
  destruct Hsat as [Hwf Hall]. unfold work_left. simpl in *.
  destruct (finish_spec _ _ _ _ _ (sy_map _ Hwf) Hfin Hall) as (_ & Htot & Hopen).
  split; [|done]. rewrite !length_app, length_rev. simpl.
  change (total_queued s = total_queued s' + length spawned) in Htot. lia.
Qed.

Lemma finish_steps_work n k p q :
  rtc op_step (op_start n) p → nsteps finish_step k p q →
  rtc op_step (op_start n) q ∧ k + work_left q ≤ work_left p ∧
  sc_shutting_down q.1 = sc_shutting_down p.1.
Proof.
  intros Hp Hsteps. induction Hsteps as [p|k p r q Hpr Hrq IH]; [split_and!; [done|lia|done]|].
  destruct (finish_step_works _ _ (ops_saturated _ _ Hp) Hpr) as [Hlt Hopen].
  destruct IH as (Hq & Hle & Hopen').
  { eapply rtc_r; [exact Hp|]. by apply finish_step_op. }
  split_and!; [done|lia|congruence].
Qed.

(** C34. Every queued call is dispatched in the end.  From a state the operations
    reach, with the scheduler open, the workers can finish only a bounded number
    of times with nobody submitting more; while a worker is left one can finish;
    and when none is left every queue is empty. *)
Theorem every_queue_drains n p k q :
  rtc op_step (op_start n) p → sc_shutting_down p.1 = false → nsteps finish_step k p q →
  k ≤ work_left p ∧ (q.2 ≠ [] → ∃ r, finish_step q r) ∧
  (q.2 = [] → ∀ a, queue_of a q.1 = []).
Proof.
  intros Hp Hopen Hsteps.
  destruct (finish_steps_work _ _ _ _ Hp Hsteps) as (Hq & Hle & Hopen').
  split_and!; [lia| |].
  - intros Hne. destruct q as [s [|c wk]]; [done|].
    destruct (finish (λ _, false) c s) as [spawned s'] eqn:Hfin.
    eexists. by apply (finish_one (λ _, false) c s spawned s' [] wk).
  - intros Hnone a. unfold queue_of. destruct (sc_heap q.1 !! a) as [ws|] eqn:Ha; [|done].
    simpl. destruct (ws_queue ws) as [|w rest] eqn:Hw; [done|exfalso].
    destruct (blocked_worker n (at_rest q) a ws) as (c & Hc & _); simpl.
    + apply (ops_steps _ _ Hq).
    + congruence.
    + done.
    + by rewrite Hw.
    + pose proof (admit_one_blocked a q.1) as Hone.
      destruct (ops_saturated _ _ Hq) as [_ Hall]. by rewrite Hall in Hone; rewrite Hone.
    + simpl in Hc. rewrite Hnone in Hc. by apply elem_of_nil in Hc.
Qed.

(** ** The turn rotates *)

Lemma rotate_head {A} (l : list A) k x : l !! k = Some x → head (rotate_left k l) = Some x.
Proof.
  intros Hk. unfold rotate_left. by rewrite <-(take_drop_middle _ _ _ Hk) at 1;
    rewrite drop_app_length' by (rewrite length_take; apply lookup_lt_Some in Hk; lia).
Qed.

Lemma sweep_iter i s :
  Nat.iter i (λ s, (fetch_add_sweep s).2) s
    = MkInner (sc_heap s) (sc_workspaces s) (sc_capacity s) (sc_in_use s) (sc_live s)
        (sc_dispatched s)
        (match i with 0 => sc_sweep s | _ => (sc_sweep s + N.of_nat i) mod 2 ^ 64 end)
        (sc_claimed s) (sc_shutting_down s) (sc_cancelled s) (sc_reports s).
Proof.
  induction i as [|i IH]; [by destruct s|]. cbn [Nat.iter nat_rect].
  change (nat_rect _ s _ i) with (Nat.iter i (λ s, (fetch_add_sweep s).2) s).
  rewrite IH. unfold fetch_add_sweep. simpl. f_equal. destruct i; [done|].
  rewrite N.Div0.add_mod_idemp_l. f_equal. lia.
Qed.

(** The turns from [t] on reach every residue before [m] of them are over. *)
Lemma turn_reaches (t m j : N) :
  (j < m)%N → (t + m ≤ 2 ^ 64)%N →
  ∃ i : nat, (N.of_nat i < m)%N ∧
    ((match i with 0%nat => t | _ => (t + N.of_nat i) mod 2 ^ 64 end) mod m = j)%N.
Proof.
  intros Hj Hwrap. assert (m ≠ 0)%N as Hm by lia.
  pose proof (N.div_mod t m Hm) as Hdiv. pose proof (N.mod_lt t m Hm) as Hr.
  set (q := (t / m)%N) in *. set (r := (t mod m)%N) in *. clearbody q r.
  set (i := (if r <=? j then j - r else j + m - r)%N).
  assert (i < m ∧ (t + i) mod m = j)%N as [Hi Hmod].
  { subst i. destruct (N.leb_spec r j); (split; [lia|]); symmetry.
    - apply (N.mod_unique _ _ q); lia.
    - apply (N.mod_unique _ _ (q + 1)); lia. }
  exists (N.to_nat i). rewrite N2Nat.id. split; [done|].
  destruct (N.to_nat i) eqn:Hz; [replace i with 0%N in Hmod by lia; by rewrite N.add_0_r in Hmod|].
  rewrite (N.mod_small (t + i)) by lia. exact Hmod.
Qed.

(** A freed process slot is offered fairly: the order is a rotation of the
    workspaces, and over as many turns as there are workspaces each of them has
    the first offer, while the turn counter does not wrap. *)
Theorem pump_takes_turns released s b :
  let order := (pump_order released s).1 in
  b ∈ order → (sc_sweep s + N.of_nat (length order) ≤ 2 ^ 64)%N →
  ∃ i, i < length order ∧
    head (pump_order released (Nat.iter i (λ s, (fetch_add_sweep s).2) s)).1 = Some b.
Proof.
  unfold pump_order. cbn [fst snd fetch_add_sweep].
  set (l := if decide (released ∈ live_workspaces s) then _ else _).
  assert (∀ k, rotate_left k l ≡ₚ l) as Hperm.
  { intros k. unfold rotate_left. by rewrite Permutation_app_comm, take_drop. }
  cbn zeta. rewrite !Hperm. intros [j Hj]%list_elem_of_lookup Hwrap.
  pose proof (lookup_lt_Some _ _ _ Hj) as Hjl.
  destruct (turn_reaches (sc_sweep s) (N.of_nat (length l)) (N.of_nat j)) as (i & Hi & Hmod);
    [lia|done|].
  exists i. split; [rewrite ?Hperm; lia|]. rewrite sweep_iter. cbn [sc_sweep]. unfold live_workspaces in *.
  cbn [sc_workspaces]. fold l. apply rotate_head. rewrite Hmod. by rewrite Nat2N.id.
Qed.

(** ** The snapshot *)

Lemma sum_list_perm (l k : list nat) : l ≡ₚ k → sum_list l = sum_list k.
Proof. induction 1; simpl; lia. Qed.

(** A sum over the mapped workspaces that are not idle is a sum over them all. *)
Lemma loads_total s (f : Workspace → nat) (g : WorkspaceLoad → nat) :
  map_wf s →
  (∀ ws l, load_of ws = Some l → g l = f ws) → (∀ ws, is_idle ws = true → f ws = 0) →
  sum_list (g <$> sn_workspaces (snapshot s)) = sum_list (f <$> sc_heap s).
Proof.
  intros Hmap Hg Hf. unfold snapshot. simpl.
  assert (∀ l, sum_list (g <$> omap (λ a, sc_heap s !! a ≫= load_of) l)
    = sum_list ((λ a, from_option f 0 (sc_heap s !! a)) <$> l)) as Homap.
  { induction l as [|a l IH]; [done|]. csimpl. destruct (sc_heap s !! a) as [ws|]; simpl; [|exact IH].
    destruct (load_of ws) as [w|] eqn:Hw; simpl; [rewrite (Hg _ _ Hw); f_equal; exact IH|].
    unfold load_of in Hw. destruct (is_idle ws) eqn:Hidle; [|done]. rewrite Hf by done. exact IH. }
  rewrite Homap. transitivity
    (sum_list ((λ a, from_option f 0 (sc_heap s !! a)) <$> seq 0 (length (sc_heap s)))).
  2: { f_equal. apply list_eq. intros i. rewrite !list_lookup_fmap.
       destruct (decide (i < length (sc_heap s))) as [Hi|Hi].
       - rewrite lookup_seq_lt by done. simpl.
         destruct (lookup_lt_is_Some_2 _ _ Hi) as [ws ->]. done.
       - rewrite lookup_seq_ge by lia. by rewrite lookup_ge_None_2 by lia. }
  assert (∀ a, a ∉ live_workspaces s → from_option f 0 (sc_heap s !! a) = 0) as Hidle.
  { intros a Ha. destruct (sc_heap s !! a) as [ws|] eqn:Hws; [|done]. simpl. apply Hf.
    destruct (is_idle ws) eqn:Hi; [done|]. destruct Ha. apply list_elem_of_fmap.
    exists (ws_key ws, a). split; [done|]. by apply (map_active _ Hmap). }
  assert (live_workspaces s ≡ₚ filter (.∈ live_workspaces s) (seq 0 (length (sc_heap s)))) as Hp.
  { apply NoDup_Permutation; [by apply live_nodup|apply NoDup_filter, NoDup_seq|].
    intros a. rewrite list_elem_of_filter, elem_of_seq. split; [|tauto]. intros Ha. split; [done|].
    apply list_elem_of_fmap in Ha as ([k b] & -> & Hin).
    destruct (map_sound _ Hmap _ _ Hin) as (ws & Hws & _). apply lookup_lt_Some in Hws.
    simpl. lia. }
  rewrite (sum_list_perm _ _ (fmap_Permutation _ _ _ Hp)).
  generalize (seq 0 (length (sc_heap s))). induction l as [|a l IH]; [done|].
  rewrite filter_cons. case_decide as Ha; csimpl; rewrite IH; [done|]. by rewrite Hidle.
Qed.

(** A snapshot of any reachable state accounts for everything: its totals are
    the calls queued and the calls running anywhere, with a running worker for
    each of the latter, its process slots are not overdrawn, and a workspace it
    shows mutating shows exactly one call running. *)
Theorem snapshot_accounts n y :
  rtc sched_step (sched_start n) y →
  let sn := snapshot (sy_inner y) in
  snapshot_queued sn = total_queued (sy_inner y) ∧
  snapshot_running sn = length (sc_heap (sy_inner y) ≫= ws_running) ∧
  ps_in_use (sn_processes sn) + available (sn_processes sn) = n `max` 1 ∧
  (∀ l, l ∈ sn_workspaces sn → wl_mutating l = true → wl_running l = 1).
Proof.
  intros Hr. pose proof (reachable_capacity _ _ Hr) as Hcap.
  apply reachable_wf in Hr as [Hmap Hobj _ Hle _ _ _ _ _].
  assert (∀ {A} (f : Workspace → list A) h,
    sum_list ((λ ws, length (f ws)) <$> h) = length (h ≫= f)) as Hlen.
  { intros A f h. induction h as [|ws h IH]; [done|]. csimpl. by rewrite length_app, IH. }
  split_and!.
  - unfold snapshot_queued, total_queued. rewrite <-Hlen. apply loads_total; [done| |].
    + intros ws l. unfold load_of. destruct (is_idle ws); [done|]. by intros [= <-].
    + intros ws [[Hq _]%andb_true_iff _]%andb_true_iff. by apply bool_decide_eq_true in Hq as ->.
  - unfold snapshot_running. rewrite <-Hlen. apply loads_total; [done| |].
    + intros ws l. unfold load_of. destruct (is_idle ws); [done|]. by intros [= <-].
    + intros ws [[_ Hq]%andb_true_iff _]%andb_true_iff. by apply bool_decide_eq_true in Hq as ->.
  - rewrite <-Hcap. unfold available. simpl. lia.
  - intros l (a & _ & Ha)%list_elem_of_omap Hm. destruct (sc_heap _ !! a) as [ws|] eqn:Hws; [|done].
    simpl in Ha. unfold load_of in Ha. destruct (is_idle ws); [done|]. injection Ha as <-.
    simpl in *. destruct (Hobj _ _ Hws) as [[Hal _] _].
    apply existsb_exists in Hm as (e & He & Hem). eapply Hal; [|exact Hem].
    by apply list_elem_of_In.
Qed.
End operations.

(** ** A concrete schedule *)

(** Calls of one step: the demonstration call under other ids. *)
Definition demo_call_id (n : N) : ToolCallId := MkToolCallId (demo_uuid n).
Definition demo_load (c : ToolCallId) : option ToolCall :=
  Some (ToolCall_with_id c demo_step "fs.write" "" (demo_value "{}") (demo_at 0)).

(** A registry whose tools all mutate and spawn processes. *)
Definition demo_registry (_ : ToolId) (_ : option ToolVersion) : option ToolDescriptor :=
  Some (demo_descriptor WorkspaceWrite []).

Definition demo_key : WorkspaceKey :=
  MkWorkspaceKey (MkProjectId (demo_uuid 9)) ["home"; "project"].

Definition demo_scheduled (n : N) : ScheduledCall :=
  ScheduledCall_new (demo_call_id n) demo_key Observe 7.

(** An equation of closed terms, by evaluating both sides in the kernel. *)
Ltac vm_eq := match goal with |- ?x = ?y => exact (eq_refl y <: x = y) end.

(** The first call runs with a process slot; the second is queued behind it. *)
Definition demo_one : Inner := Eval vm_compute in
  (submit demo_load demo_registry (λ _, false) (demo_scheduled 10)
     (Scheduler_with_process_limit 2)).2.
Definition demo_two : Inner := Eval vm_compute in
  (submit demo_load demo_registry (λ _, false) (demo_scheduled 11) demo_one).2.
Definition demo_worker : Completion := MkCompletion 0 0 (demo_call_id 10).
Definition demo_busy : Inner * list Completion := (demo_two, [demo_worker]).

Lemma demo_busy_reachable : rtc (op_step demo_load demo_registry) (op_start 2) demo_busy.
Proof.
  apply (rtc_l _ _ (demo_one, [demo_worker])).
  - apply (op_submit _ _ (λ _, false) (demo_scheduled 10) _ [demo_worker] demo_one []);
      [done|vm_eq].
  - apply rtc_once.
    apply (op_submit _ _ (λ _, false) (demo_scheduled 11) demo_one [] demo_two [demo_worker]);
      [done|vm_eq].
Qed.

Lemma demo_busy_steps :
  rtc (sched_step demo_load demo_registry) (sched_start 2) (at_rest demo_busy).
Proof. apply (ops_steps _ _ (op_start 2)), demo_busy_reachable. Qed.

(** The entry of the running call. *)
Definition demo_entry : N * Running :=
  (0%N, MkRunning (MkRunId (demo_uuid 2)) 7 true true).
Definition demo_workspace_now : Workspace := Eval vm_compute in
  default (Workspace_empty demo_key) (sc_heap demo_two !! 0).

Lemma demo_lookup : sc_heap demo_two !! 0 = Some demo_workspace_now.
Proof. vm_eq. Qed.
Lemma demo_running : ws_running demo_workspace_now = [demo_entry].
Proof. vm_eq. Qed.

Lemma mutation_runs_alone_witness :
  r_mutating demo_entry.2 = true ∧ 0 = 0 ∧ demo_entry = demo_entry.
Proof.
  split; [done|].
  apply (mutation_runs_alone demo_load demo_registry 2 _ 0 0 demo_workspace_now demo_workspace_now demo_entry
    demo_entry demo_busy_steps demo_lookup demo_lookup); try done;
    rewrite demo_running; by left.
Defined.

Lemma process_limit_respected_witness :
  length (sc_heap demo_two ≫= holders) = 1 ∧ 1 ≤ 2.
Proof.
  destruct (process_limit_respected demo_load demo_registry 2 _ demo_busy_steps) as [Heq Hle].
  assert (length (sc_heap demo_two ≫= holders) = 1) as Hone by vm_eq.
  split; [exact Hone|]. exact (eq_ind _ (λ n, n ≤ 2) Hle _ Hone).
Defined.

Lemma workspace_bounds_witness : length (ws_queue demo_workspace_now) = 1 ∧ 1 ≤ 64.
Proof.
  destruct (workspace_bounds demo_load demo_registry 2 (at_rest demo_busy) 0 demo_workspace_now demo_busy_steps
    demo_lookup) as [_ Hle].
  assert (length (ws_queue demo_workspace_now) = 1) as Hone by vm_eq.
  split; [exact Hone|]. exact (eq_ind _ (λ n, n ≤ 64) Hle _ Hone).
Defined.

Lemma call_in_one_place_witness :
  NoDup (all_calls (at_rest demo_busy)) ∧
  ∃ e, submit_enter demo_load demo_registry (demo_scheduled 11) demo_two = (Err e, demo_two).
Proof.
  destruct (call_in_one_place demo_load demo_registry 2 (at_rest demo_busy) (demo_scheduled 11) demo_busy_steps)
    as [Hnd Hin].
  split; [exact Hnd|]. apply Hin.
  assert (all_calls (at_rest demo_busy) = [demo_call_id 11; demo_call_id 10]) as -> by vm_eq.
  by left.
Defined.

Lemma blocked_call_has_a_worker_witness :
  (admit_one 0 demo_two).1 = None ∧ ∃ c, c ∈ [demo_worker] ∧
    c_dispatch c ∈ (sc_heap demo_two ≫= λ ws, (ws_running ws).*1).
Proof.
  assert ((admit_one 0 demo_two).1 = None) as Hnone by vm_eq. split; [done|].
  apply (blocked_call_has_a_worker demo_load demo_registry 2 (at_rest demo_busy) 0 demo_workspace_now
    demo_busy_steps); [by vm_compute|exact demo_lookup| |exact Hnone].
  assert (length (ws_queue demo_workspace_now) = 1) as Hlen by vm_eq.
  intros Hq. by rewrite Hq in Hlen.
Defined.

Lemma scheduler_refines_steps_witness :
  rtc (sched_step demo_load demo_registry) (at_rest (op_start 2)) (at_rest demo_busy).
Proof. apply scheduler_refines_steps, demo_busy_reachable. Defined.

(** Cancelling the run takes the queued call out and trips the running one. *)
Definition demo_run_id : RunId := MkRunId (demo_uuid 2).
Definition demo_cancelled : (CancelReport * list Completion) * Inner := Eval vm_compute in
  cancel_run (λ _, false) demo_run_id demo_two.

Lemma cancel_run_exact_witness :
  sc_reports demo_cancelled.2 = [CancelledUndispatched (demo_call_id 11)] ∧
  cr_queued demo_cancelled.1.1 = 1 ∧ 7 ∈ sc_cancelled demo_cancelled.2.
Proof.
  destruct (cancel_run_exact demo_load demo_registry 2 (at_rest demo_busy) (λ _, false) demo_run_id
    demo_cancelled.1.1 demo_cancelled.1.2 demo_cancelled.2 demo_busy_steps) as (Hn & Hr & _ & _ & Ht);
    [vm_eq|].
  split; [rewrite Hr; vm_eq|]. split; [rewrite Hn; vm_eq|].
  apply (Ht 0 demo_entry); [|vm_eq]. by left.
Defined.

Definition demo_stopped : (CancelReport * list Completion) * Inner := Eval vm_compute in
  shutdown (λ _, false) demo_two.

Lemma shutdown_drains_witness :
  shutdown (λ _, false) demo_two = demo_stopped ∧ demo_stopped.1.2 = [] ∧
  queue_of 0 demo_stopped.2 = [] ∧
  submit demo_load demo_registry (λ _, false) (demo_scheduled 12) demo_stopped.2
    = (Some (Err (SchedShutdown (demo_call_id 12))), demo_stopped.2).
Proof.
  assert (shutdown (λ _, false) demo_two = demo_stopped) as Heq by vm_eq.
  destruct (shutdown_drains demo_load demo_registry 2 (at_rest demo_busy) (λ _, false)
    demo_stopped.1.1 demo_stopped.1.2 demo_stopped.2 demo_busy_steps)
    as (Hs & Hq & _ & Hsub); [exact eq_refl|exact Heq|].
  split; [exact Heq|]. split; [exact Hs|]. split; [apply Hq|apply Hsub].
Defined.

Lemma nothing_admissible_waits_witness : admit_one 0 demo_two = (None, demo_two).
Proof. apply (nothing_admissible_waits demo_load demo_registry 2 demo_busy 0), demo_busy_reachable. Defined.

(** The running call finishes, and the queued one takes its place. *)
Definition demo_finished : Inner := Eval vm_compute in
  (finish (λ _, false) demo_worker demo_two).2.
Definition demo_next : Completion := MkCompletion 0 1 (demo_call_id 11).

Lemma every_queue_drains_witness :
  1 ≤ work_left demo_busy ∧ ∃ r, finish_step (demo_finished, [demo_next]) r.
Proof.
  destruct (every_queue_drains demo_load demo_registry 2 demo_busy 1 (demo_finished, [demo_next])
    demo_busy_reachable) as (Hk & Hgo & _).
  - by vm_compute.
  - apply nsteps_once.
    apply (finish_one (λ _, false) demo_worker demo_two [demo_next] demo_finished [] []). vm_eq.
  - split; [exact Hk|]. by apply Hgo.
Defined.

Lemma pump_takes_turns_witness :
  ∃ i, i < 1 ∧
    head (pump_order 0 (Nat.iter i (λ s, (fetch_add_sweep s).2) demo_two)).1 = Some 0.
Proof.
  apply (pump_takes_turns 0 demo_two 0).
  - assert ((pump_order 0 demo_two).1 = [0]) as -> by vm_eq. by left.
  - assert ((pump_order 0 demo_two).1 = [0]) as -> by vm_eq. by vm_compute.
Defined.

Lemma snapshot_accounts_witness :
  snapshot_queued (snapshot demo_two) = 1 ∧
  snapshot_queued (snapshot demo_two) = total_queued demo_two.
Proof.
  destruct (snapshot_accounts demo_load demo_registry 2 _ demo_busy_steps) as [Hq _].
  split; [vm_eq|exact Hq].
Defined.
