(* ===== verification/Canonical.v ===== *)
(** * The canonical encoding of a tool input

    Models [src/crates/harkness-runtime/src/approval/canonical.rs]: the frozen
    spelling of a JSON value that an exact-call approval is bound to, and the bytes
    its hash is taken of.  Text is its UTF-8 bytes.  [serde_json]'s numbers, the
    formatting of doubles and SHA-256 are parameters. *)

From Stdlib Require Import Ascii.
From stdpp Require Import base list sorting strings pretty.
From S2P Require Import Prelude Digest.

#[local] Set Warnings "-register-all".

Inductive ApprovalError :=
| UncanonicalizableInput (pointer reason : string).

(** [serde_json::Number] and [f64], as this file uses them. *)
Class Numbers := {
  Number : Type;
  as_u64 : Number → option N;
  as_i64 : Number → option Z;
  F64 : Type;
  as_f64 : Number → option F64;
  is_finite : F64 → bool;
  (** [format!("{value:?}")] *)
  f64_debug : F64 → list N;
}.

(** The bytes a number is spelled with: digits, [-], [.] and [e]. *)
Definition digit (b : N) : bool := ((48 <=? b) && (b <=? 57))%N.
Definition number_byte (b : N) : bool :=
  (digit b || (b =? 45) || (b =? 46) || (b =? 101))%N.

(** What the two libraries document: a number is its value, an integer that is no
    [u64] is negative, and the shortest decimal of a finite double round-trips and
    always carries a [.] or an [e]. *)
Class NumbersLaws `{Numbers} := {
  as_u64_inj n m x : as_u64 n = Some x → as_u64 m = Some x → n = m;
  as_i64_inj n m z : as_i64 n = Some z → as_i64 m = Some z → n = m;
  as_i64_neg n z : as_u64 n = None → as_i64 n = Some z → (z < 0)%Z;
  as_f64_inj n m x : as_u64 n = None → as_i64 n = None → as_u64 m = None → as_i64 m = None →
    as_f64 n = Some x → as_f64 m = Some x → n = m;
  f64_debug_inj x y : is_finite x = true → is_finite y = true → f64_debug x = f64_debug y → x = y;
  f64_debug_bytes x : is_finite x = true → Forall (λ b, number_byte b = true) (f64_debug x);
  f64_debug_point x : is_finite x = true → ∃ b, b ∈ f64_debug x ∧ (b = 46 ∨ b = 101)%N;
}.

Section canonical.
Context `{Numbers}.

(** [serde_json::Value]; an object's fields are in the order its map keeps. *)
Inductive Value :=
| Null
| Bool (b : bool)
| Num (n : Number)
| Str (text : string)
| Arr (items : list Value)
| Obj (fields : list (string * Value)).

Definition lit (s : string) : list N := utf8_bytes s.

(** One byte of a string: the characters escaped are single bytes, and every byte
    of any other character is emitted as it is. *)
Definition escape_byte (b : N) : list N :=
  (if b =? 34 then [92; 34]
   else if b =? 92 then [92; 92]
   else if b =? 8 then [92; 98]
   else if b =? 12 then [92; 102]
   else if b =? 10 then [92; 110]
   else if b =? 13 then [92; 114]
   else if b =? 9 then [92; 116]
   else if b <? 32 then [92; 117; 48; 48] ++ hex_byte b
   else [b])%N.
Definition write_string (value : string) : list N :=
  [34%N] ++ (utf8_bytes value ≫= escape_byte) ++ [34%N].

Definition NO_REPRESENTABLE_VALUE : string := "it is a number with no representable value".
Definition NOT_FINITE : string :=
  "it is not finite, and a non-finite number has no canonical JSON spelling".

Definition encode_double (value : F64) : option (list N) :=
  if is_finite value then Some (f64_debug value) else None.

Definition write_number (number : Number) (pointer : string)
    : result ApprovalError (list N) :=
  match as_u64 number with
  | Some value => Ok (lit (pretty value))
  | None =>
    match as_i64 number with
    | Some value => Ok (lit (pretty value))
    | None =>
      match as_f64 number with
      | None => Err (UncanonicalizableInput pointer NO_REPRESENTABLE_VALUE)
      | Some value =>
        match encode_double value with
        | None => Err (UncanonicalizableInput pointer NOT_FINITE)
        | Some text => Ok text
        end
      end
    end
  end.

(** [key.replace('~', "~0").replace('/', "~1")] *)
Fixpoint replace (from : ascii) (to : string) (s : string) : string :=
  match s with
  | EmptyString => EmptyString
  | String c s => (if Ascii.eqb c from then to else String c EmptyString) +:+ replace from to s
  end.
Definition escape_pointer_token (key : string) : string :=
  replace "/"%char "~1" (replace "~"%char "~0" key).

(** [left.as_bytes().cmp(right.as_bytes())] is not [Greater] *)
Fixpoint bytes_leb (a b : list N) : bool :=
  match a, b with
  | [], _ => true
  | _ :: _, [] => false
  | x :: a, y :: b => ((x <? y) || ((x =? y) && bytes_leb a b))%N
  end.
Definition key_le {A} (x y : string * A) : Prop :=
  bytes_leb (utf8_bytes x.1) (utf8_bytes y.1) = true.
#[export] Instance key_le_dec {A} : RelDecision (@key_le A).
Proof. intros x y. unfold key_le. apply _. Defined.

(** The loop that writes the parts of an array or an object, commas between; a
    part is what precedes its value, and its value. *)
Fixpoint join_parts (index : nat) (parts : list (list N * result ApprovalError (list N)))
    : result ApprovalError (list N) :=
  match parts with
  | [] => Ok []
  | (before, value) :: rest =>
    text ← value;
    more ← join_parts (S index) rest;
    Ok ((if 0 <? index then [44%N] else []) ++ before ++ text ++ more)
  end.

(** The text [write_value] appends; [pointer] is what its caller pushed, truncated
    again on the way out.  An object's values are written in key order; each is
    named here in the map's order and then sorted, which is the same text, as
    writing one depends on nothing but the value and its pointer. *)
Fixpoint write_value (pointer : string) (value : Value) {struct value}
    : result ApprovalError (list N) :=
  match value with
  | Null => Ok (lit "null")
  | Bool true => Ok (lit "true")
  | Bool false => Ok (lit "false")
  | Num number => write_number number pointer
  | Str text => Ok (write_string text)
  | Arr items =>
    body ← join_parts 0
      ((fix go (index : nat) (items : list Value) :=
          match items with
          | [] => []
          | item :: items =>
            ([], write_value (pointer +:+ "/" +:+ pretty index) item) :: go (S index) items
          end) 0 items);
    Ok ([91%N] ++ body ++ [93%N])
  | Obj fields =>
    let values := map (λ '(key, value),
      (key, write_value (pointer +:+ "/" +:+ escape_pointer_token key) value)) fields in
    body ← join_parts 0
      ((λ '(key, value), (write_string key ++ [58%N], value)) <$> merge_sort key_le values);
    Ok ([123%N] ++ body ++ [125%N])
  end.

Definition canonical_input (input : Value) : result ApprovalError (list N) :=
  write_value EmptyString input.

(** ** The hash *)

Definition CANONICAL_INPUT_DOMAIN : string := "harkness.approval.canonical-input.v1".

(** [(bytes.len() as u64).to_le_bytes()] *)
Fixpoint to_le_bytes (width : nat) (n : N) : list N :=
  match width with
  | 0 => []
  | S width => (n mod 256)%N :: to_le_bytes width (n / 256)
  end.
(** What one [absorb] feeds the hasher. *)
Definition absorb (bytes : list N) : list N :=
  to_le_bytes 8 (N.of_nat (length bytes) mod 2 ^ 64) ++ bytes.

Context (sha256 : list N → list N).

Definition canonical_input_hash (input : Value) : result ApprovalError InputHash :=
  canonical ← canonical_input input;
  Ok (MkInputHash (sha256 (absorb (lit CANONICAL_INPUT_DOMAIN) ++ absorb canonical))).
End canonical.

#[global] Arguments write_string : simpl never.

(** ** Spelling decimals *)

Lemma utf8_bytes_inj a b : utf8_bytes a = utf8_bytes b → a = b.
Proof.
  intros Hab. rewrite <-(string_of_bytes_utf8_bytes a), <-(string_of_bytes_utf8_bytes b).
  by rewrite Hab.
Qed.

Lemma pretty_N_go_digits x : ∀ s,
  Forall (λ b, digit b = true) (utf8_bytes s) →
  Forall (λ b, digit b = true) (utf8_bytes (pretty_N_go x s)).
Proof.
  induction (N.lt_wf_0 x) as [x _ IH]. intros s Hs. destruct (decide (x = 0)%N) as [->|Hx].
  - by rewrite pretty_N_go_0.
  - rewrite pretty_N_go_step by lia. apply IH; [by apply N.div_lt; lia|]. constructor; [|done].
    pose proof (N.mod_lt x 10 ltac:(done)) as Hm. generalize dependent (x mod 10)%N.
    intros m Hm. assert (m = 0 ∨ m = 1 ∨ m = 2 ∨ m = 3 ∨ m = 4 ∨ m = 5 ∨ m = 6 ∨ m = 7 ∨ m = 8 ∨ m = 9)%N
      as Hcases by lia.
    by destruct_or? Hcases; subst.
Qed.

Lemma pretty_N_digits (n : N) :
  Forall (λ b, digit b = true) (utf8_bytes (pretty n)) ∧ utf8_bytes (pretty n) ≠ [].
Proof.
  unfold pretty, pretty_N. destruct (decide (n = 0)%N) as [->|Hn]; [by repeat constructor|]. split.
  - by apply pretty_N_go_digits.
  - rewrite pretty_N_go_step by lia. intros Hnil.
    assert (∀ x s, s ≠ EmptyString → utf8_bytes (pretty_N_go x s) ≠ []) as Hgo.
    { clear. intros x. induction (N.lt_wf_0 x) as [x _ IH]. intros s Hs.
      destruct (decide (x = 0)%N) as [->|Hx].
      - rewrite pretty_N_go_0. by destruct s.
      - rewrite pretty_N_go_step by lia. apply IH; [by apply N.div_lt; lia|done]. }
    by eapply Hgo, Hnil.
Qed.

Lemma pretty_Z_neg (z : Z) :
  (z < 0)%Z → utf8_bytes (pretty z) = 45%N :: utf8_bytes (pretty (Z.to_N (- z))).
Proof. by destruct z. Qed.

(** ** A text and what follows it *)

(** What can follow a value: nothing, or a comma or a closing bracket. *)
Definition ends (rest : list N) : Prop :=
  match rest with [] => True | b :: _ => b = 44%N ∨ b = 93%N ∨ b = 125%N end.

Lemma number_prefix t t' r r' :
  Forall (λ b, number_byte b = true) t → Forall (λ b, number_byte b = true) t' →
  ends r → ends r' → t ++ r = t' ++ r' → t = t' ∧ r = r'.
Proof.
  assert (∀ (b : N) (l r : list N), number_byte b = true → ends r → b :: l ≠ r) as Hstop.
  { intros b l r0 Hb Hr <-. by destruct Hr as [-> | [-> | ->]]. }
  intros Ht. revert t'. induction Ht as [|b t Hb Ht IH]; intros t' Ht' Hr Hr' Heq; simpl in Heq.
  - destruct Ht' as [|b' t' Hb' Ht']; [done|]. by destruct (Hstop b' (t' ++ r') r).
  - destruct Ht' as [|b' t' Hb' Ht']; [by destruct (Hstop b (t ++ r) r')|].
    injection Heq as -> Heq. by destruct (IH t' Ht' Hr Hr' Heq) as [-> ->].
Qed.

(** Reading one escaped byte back. *)
Definition unescape (l : list N) : option (N * list N) :=
  (match l with
   | 92 :: c :: rest =>
     if c =? 34 then Some (34, rest) else if c =? 92 then Some (92, rest)
     else if c =? 98 then Some (8, rest) else if c =? 102 then Some (12, rest)
     else if c =? 110 then Some (10, rest) else if c =? 114 then Some (13, rest)
     else if c =? 116 then Some (9, rest)
     else match rest with
          | _ :: _ :: x :: y :: rest =>
            match nibble x, nibble y with Some x, Some y => Some (16 * x + y, rest) | _, _ => None end
          | _ => None
          end
   | b :: rest => if b =? 34 then None else Some (b, rest)
   | [] => None
   end)%N.

Lemma unescape_escape b rest : unescape (escape_byte b ++ rest) = Some (b, rest).
Proof.
  unfold escape_byte.
  destruct (N.eqb_spec b 34) as [->|H34]; [done|]. destruct (N.eqb_spec b 92) as [->|H92]; [done|].
  destruct (N.eqb_spec b 8) as [->|_]; [done|]. destruct (N.eqb_spec b 12) as [->|_]; [done|].
  destruct (N.eqb_spec b 10) as [->|_]; [done|]. destruct (N.eqb_spec b 13) as [->|_]; [done|].
  destruct (N.eqb_spec b 9) as [->|_]; [done|]. destruct (N.ltb_spec b 32) as [Hlt|_].
  - unfold hex_byte. simpl.
    assert (nibble (hex_digit (b / 16)) = Some (b / 16)%N) as ->.
    { apply nibble_Some. split; [apply N.Div0.div_lt_upper_bound; lia|done]. }
    assert (nibble (hex_digit (b mod 16)) = Some (b mod 16)%N) as ->.
    { apply nibble_Some. split; [by apply N.mod_lt|done]. }
    by rewrite <-N.div_mod'.
  - simpl. destruct (N.eqb_spec b 34) as [|_]; [done|].
    destruct b as [|p]; [done|]. do 7 (destruct p as [p|p|]; try done).
Qed.

Lemma escapes_prefix : ∀ s s' r r',
  (s ≫= escape_byte) ++ 34%N :: r = (s' ≫= escape_byte) ++ 34%N :: r' → s = s' ∧ r = r'.
Proof.
  assert (∀ b l r, escape_byte b ++ l ≠ 34%N :: r) as Hquote.
  { intros b l r Heq. pose proof (unescape_escape b l) as Hu. by rewrite Heq in Hu. }
  induction s as [|b s IH]; intros [|b' s'] r r' Heq; simpl in Heq.
  - by simplify_eq.
  - rewrite <-app_assoc in Heq. by apply symmetry, Hquote in Heq.
  - rewrite <-app_assoc in Heq. by apply Hquote in Heq.
  - rewrite <-!app_assoc in Heq. apply (f_equal unescape) in Heq.
    rewrite !unescape_escape in Heq. injection Heq as -> Hrest.
    by destruct (IH _ _ _ Hrest) as [-> ->].
Qed.

Lemma write_string_prefix s s' r r' :
  write_string s ++ r = write_string s' ++ r' → s = s' ∧ r = r'.
Proof.
  unfold write_string. simpl. rewrite <-!app_assoc. simpl. intros [= Heq].
  apply escapes_prefix in Heq as [Hs ->]. split; [by apply utf8_bytes_inj|done].
Qed.

(** ** Sorting by key *)

Lemma bytes_leb_total a b : bytes_leb a b = true ∨ bytes_leb b a = true.
Proof.
  revert b. induction a as [|x a IH]; intros [|y b]; simpl; auto.
  rewrite !orb_true_iff, !andb_true_iff, !N.ltb_lt, !N.eqb_eq.
  destruct (N.lt_trichotomy x y) as [|[->|]]; auto. destruct (IH b); auto.
Qed.
Lemma bytes_leb_trans a b c : bytes_leb a b = true → bytes_leb b c = true → bytes_leb a c = true.
Proof.
  revert b c. induction a as [|x a IH]; intros [|y b] [|z c]; simpl; try done.
  rewrite !orb_true_iff, !andb_true_iff, !N.ltb_lt, !N.eqb_eq.
  intros [Hxy|[-> Hab]] [Hyz|[-> Hbc]]; auto; [left; lia|right; split; [done|by eapply IH]].
Qed.
Lemma bytes_leb_antisym a b : bytes_leb a b = true → bytes_leb b a = true → a = b.
Proof.
  revert b. induction a as [|x a IH]; intros [|y b]; simpl; try done.
  rewrite !orb_true_iff, !andb_true_iff, !N.ltb_lt, !N.eqb_eq.
  intros [Hxy|[-> Hab]] [Hyx|[Heq Hba]]; try lia. f_equal. by apply IH.
Qed.

#[export] Instance key_le_trans {A} : Transitive (@key_le A).
Proof. intros x y z. unfold key_le. apply bytes_leb_trans. Qed.
#[export] Instance key_le_total {A} : base.Total (@key_le A).
Proof. intros x y. apply bytes_leb_total. Qed.

(** Entries with distinct keys have one sorted order. *)
Lemma sorted_unique {A} (l k : list (string * A)) :
  StronglySorted key_le l → StronglySorted key_le k → l ≡ₚ k → NoDup l.*1 → l = k.
Proof.
  intros Hl. revert k. induction Hl as [|x l Hl IH Hx]; intros k Hk Hp Hnd.
  { by apply Permutation_nil_l in Hp. }
  destruct Hk as [|y k Hk Hy]; [by apply Permutation_nil_r in Hp|].
  csimpl in Hnd. apply NoDup_cons in Hnd as [Hnot Hnd].
  assert (y ∈ x :: l) as [->|Hin]%elem_of_cons by (rewrite Hp; by left).
  { f_equal. apply IH; [done| |done]. by apply Permutation_cons_inv in Hp. }
  exfalso. assert (x ∈ y :: k) as [->|Hxk]%elem_of_cons by (rewrite <-Hp; by left).
  { apply Hnot, list_elem_of_fmap. by exists y. }
  rewrite Forall_forall in Hx, Hy. specialize (Hx _ Hin). specialize (Hy _ Hxk).
  assert (x.1 = y.1) as Hkey by (apply utf8_bytes_inj, bytes_leb_antisym; [exact Hx|exact Hy]).
  apply Hnot. rewrite Hkey. apply list_elem_of_fmap. by exists y.
Qed.
Lemma sort_unique {A} (l k : list (string * A)) :
  l ≡ₚ k → NoDup l.*1 → merge_sort key_le l = merge_sort key_le k.
Proof.
  intros Hp Hnd. apply sorted_unique.
  - apply StronglySorted_merge_sort; apply _.
  - apply StronglySorted_merge_sort; apply _.
  - by rewrite !merge_sort_Permutation.
  - by rewrite (fmap_Permutation fst _ _ (merge_sort_Permutation key_le l)).
Qed.

Lemma Ok_inj {E A} (a b : A) : Ok (E := E) a = Ok b → a = b.
Proof. by intros [=]. Qed.

Section laws.
Context `{NumbersLaws}.

Lemma digits_are_number_bytes l :
  Forall (λ b, digit b = true) l → Forall (λ b, number_byte b = true) l.
Proof.
  intros Hl. eapply Forall_impl; [exact Hl|]. intros b Hb. unfold number_byte. simpl in *.
  by rewrite Hb.
Qed.

(** What the text of a number is made of, by the branch that wrote it. *)
Lemma write_number_text n ptr t :
  write_number n ptr = Ok t →
  Forall (λ b, number_byte b = true) t ∧ t ≠ [].
Proof.
  unfold write_number, lit. destruct (as_u64 n) as [x|] eqn:Hu.
  { intros [= <-]. destruct (pretty_N_digits x). split; [by apply digits_are_number_bytes|done]. }
  destruct (as_i64 n) as [z|] eqn:Hi.
  { intros [= <-]. rewrite pretty_Z_neg by (by eapply as_i64_neg).
    destruct (pretty_N_digits (Z.to_N (- z))). split; [|done].
    constructor; [done|by apply digits_are_number_bytes]. }
  destruct (as_f64 n) as [x|]; [|done]. unfold encode_double.
  destruct (is_finite x) eqn:Hx; [|done]. intros [= <-]. split; [by apply f64_debug_bytes|].
  intros Hnil. destruct (f64_debug_point x Hx) as (b & Hb & _). rewrite Hnil in Hb.
  by apply elem_of_nil in Hb.
Qed.

Lemma digits_no_point l b :
  Forall (λ b, digit b = true) l → b ∈ l → (b = 46 ∨ b = 101 ∨ b = 45)%N → False.
Proof.
  rewrite Forall_forall. intros Hl Hb Hor. specialize (Hl _ Hb). by destruct Hor as [-> | [-> | ->]].
Qed.

Lemma write_number_inj n m ptr ptr' t :
  write_number n ptr = Ok t → write_number m ptr' = Ok t → n = m.
Proof.
  unfold write_number, lit, encode_double.
  destruct (as_u64 n) as [x|] eqn:Hu, (as_u64 m) as [y|] eqn:Hu'.
  - intros [= <-] [= Heq%utf8_bytes_inj]. apply (inj pretty) in Heq as ->. by eapply as_u64_inj.
  - intros [= <-]. destruct (pretty_N_digits x) as [Hd _].
    destruct (as_i64 m) as [z|] eqn:Hi'.
    + intros [= Heq]. rewrite pretty_Z_neg in Heq by (by apply (as_i64_neg m)). exfalso.
      eapply (digits_no_point _ 45 Hd); [|by auto]. rewrite <-Heq. by left.
    + destruct (as_f64 m) as [d|]; [|done]. destruct (is_finite d) eqn:Hf; [|done].
      intros [= Heq]. exfalso. destruct (f64_debug_point d Hf) as (b & Hb & Hor).
      rewrite Heq in Hb. eapply (digits_no_point _ b Hd Hb). tauto.
  - destruct (as_i64 n) as [z|] eqn:Hi.
    + intros [= <-] [= Heq]. rewrite pretty_Z_neg in Heq by (by apply (as_i64_neg n)). exfalso.
      destruct (pretty_N_digits y) as [Hd _].
      eapply (digits_no_point _ 45 Hd); [|by auto]. rewrite Heq. by left.
    + destruct (as_f64 n) as [d|]; [|done]. destruct (is_finite d) eqn:Hf; [|done].
      intros [= <-] [= Heq]. exfalso. destruct (f64_debug_point d Hf) as (b & Hb & Hor).
      destruct (pretty_N_digits y) as [Hd _].
      rewrite <-Heq in Hb. eapply (digits_no_point _ b Hd Hb). tauto.
  - destruct (as_i64 n) as [z|] eqn:Hi, (as_i64 m) as [z'|] eqn:Hi'.
    + intros [= <-] [= Heq%utf8_bytes_inj]. apply (inj pretty) in Heq as ->. by eapply as_i64_inj.
    + intros [= <-]. rewrite pretty_Z_neg by (by apply (as_i64_neg n)).
      destruct (as_f64 m) as [d|]; [|done]. destruct (is_finite d) eqn:Hf; [|done].
      intros [= Heq]. exfalso. destruct (f64_debug_point d Hf) as (b & Hb & Hor).
      rewrite Heq in Hb. apply elem_of_cons in Hb as [->|Hb]; [by destruct Hor|].
      destruct (pretty_N_digits (Z.to_N (- z))) as [Hd _].
      eapply (digits_no_point _ b Hd Hb). tauto.
    + destruct (as_f64 n) as [d|]; [|done]. destruct (is_finite d) eqn:Hf; [|done].
      intros [= <-]. rewrite pretty_Z_neg by (by apply (as_i64_neg m)). intros [= Heq]. exfalso.
      destruct (f64_debug_point d Hf) as (b & Hb & Hor). rewrite <-Heq in Hb.
      apply elem_of_cons in Hb as [->|Hb]; [by destruct Hor|].
      destruct (pretty_N_digits (Z.to_N (- z'))) as [Hd _].
      eapply (digits_no_point _ b Hd Hb). tauto.
    + destruct (as_f64 n) as [d|] eqn:Hf; [|done]. destruct (is_finite d) eqn:Hfin; [|done].
      intros [= <-]. destruct (as_f64 m) as [d'|] eqn:Hf'; [|done].
      destruct (is_finite d') eqn:Hfin'; [|done]. intros [= Heq].
      assert (d = d') as -> by (by apply f64_debug_inj). by eapply as_f64_inj.
Qed.

(** ** The same value *)

(** Two values are the same when they differ only in the order of fields. *)
Inductive same : Value → Value → Prop :=
| same_null : same Null Null
| same_bool b : same (Bool b) (Bool b)
| same_num n : same (Num n) (Num n)
| same_str s : same (Str s) (Str s)
| same_arr items items' : Forall2 same items items' → same (Arr items) (Arr items')
| same_obj fields sorted sorted' fields' :
    fields ≡ₚ sorted → Forall2 (λ f g, f.1 = g.1 ∧ same f.2 g.2) sorted sorted' →
    sorted' ≡ₚ fields' → same (Obj fields) (Obj fields').

Fixpoint Value_nested (P : Value → Prop) (Hnull : P Null) (Hbool : ∀ b, P (Bool b))
    (Hnum : ∀ n, P (Num n)) (Hstr : ∀ s, P (Str s))
    (Harr : ∀ items, Forall P items → P (Arr items))
    (Hobj : ∀ fields, Forall (λ f, P f.2) fields → P (Obj fields)) (v : Value) : P v :=
  match v with
  | Null => Hnull
  | Bool b => Hbool b
  | Num n => Hnum n
  | Str s => Hstr s
  | Arr items => Harr items
      ((fix go items := match items return Forall P items with
        | [] => Forall_nil_2 _
        | v :: items => Forall_cons_2 _ _ _
            (Value_nested P Hnull Hbool Hnum Hstr Harr Hobj v) (go items)
        end) items)
  | Obj fields => Hobj fields
      ((fix go fields := match fields return Forall (λ f, P f.2) fields with
        | [] => Forall_nil_2 _
        | f :: fields => Forall_cons_2 _ _ _
            (Value_nested P Hnull Hbool Hnum Hstr Harr Hobj f.2) (go fields)
        end) fields)
  end.

(** ** Parts *)

(** The parts [write_value] joins, by name. *)
Fixpoint array_parts (ptr : string) (index : nat) (items : list Value)
    : list (list N * result ApprovalError (list N)) :=
  match items with
  | [] => []
  | item :: items =>
    ([], write_value (ptr +:+ "/" +:+ pretty index) item) :: array_parts ptr (S index) items
  end.
Definition field_value (ptr : string) (f : string * Value)
    : string * result ApprovalError (list N) :=
  (f.1, write_value (ptr +:+ "/" +:+ escape_pointer_token f.1) f.2).
Definition field_part (f : string * result ApprovalError (list N))
    : list N * result ApprovalError (list N) :=
  (write_string f.1 ++ [58%N], f.2).

Lemma write_arr ptr items :
  write_value ptr (Arr items) =
  body ← join_parts 0 (array_parts ptr 0 items); Ok ([91%N] ++ body ++ [93%N]).
Proof.
  cbn [write_value]. f_equal. f_equal. generalize 0 as index.
  induction items as [|item items IH]; intros index; [done|]. simpl. f_equal. apply IH.
Qed.

Lemma write_obj ptr fields :
  write_value ptr (Obj fields) =
  body ← join_parts 0 (field_part <$> merge_sort key_le (field_value ptr <$> fields));
  Ok ([123%N] ++ body ++ [125%N]).
Proof.
  cbn [write_value].
  assert (map (λ '(key, value), (key, write_value (ptr +:+ "/" +:+ escape_pointer_token key) value))
    fields = field_value ptr <$> fields) as ->.
  { induction fields as [|[k v] fields IH]; [done|]. csimpl. by rewrite IH. }
  assert (∀ l : list (string * result ApprovalError (list N)),
    ((λ '(key, value), (write_string key ++ [58%N], value)) <$> l) = field_part <$> l) as Hparts.
  { intros l. apply list_fmap_ext. by intros ? [k v]. }
  by rewrite Hparts.
Qed.

(** The first byte of a value says what kind of value it is. *)
Definition kind (v : Value) : nat :=
  match v with
  | Null => 0 | Bool true => 1 | Bool false => 2 | Num _ => 3 | Str _ => 4 | Arr _ => 5 | Obj _ => 6
  end.
Definition kind_of_byte (b : N) : option nat :=
  (if b =? 110 then Some 0%nat else if b =? 116 then Some 1%nat else if b =? 102 then Some 2%nat
   else if b =? 34 then Some 4%nat else if b =? 91 then Some 5%nat
   else if b =? 123 then Some 6%nat else if number_byte b then Some 3%nat else None)%N.

Lemma write_value_kind v ptr t :
  write_value ptr v = Ok t → ∃ b rest, t = b :: rest ∧ kind_of_byte b = Some (kind v).
Proof.
  destruct v as [|[]|n|s|items|fields]; try (simpl; intros [= <-]; eauto; fail).
  - intros Hn. destruct (write_number_text n ptr t Hn) as [Hbytes Hne].
    destruct Hbytes as [|b t Hb _]; [done|]. exists b, t. split; [done|]. unfold kind_of_byte.
    rewrite Hb. repeat (case_match; [by match goal with Hx : (_ =? _)%N = true |- _ =>
      apply N.eqb_eq in Hx; subst end|]). done.
  - rewrite write_arr. intros (body & _ & [= <-])%bind_Ok. eauto.
  - rewrite write_obj. intros (body & _ & [= <-])%bind_Ok. eauto.
Qed.

(** ** Where a value ends *)

Abbreviation part := (list N * result ApprovalError (list N))%type.

(** A part can be told from what follows it, and is not empty. *)
Definition delimited (p q : part) : Prop :=
  ∀ t t' r r', p.2 = Ok t → q.2 = Ok t' → ends r → ends r' →
    p.1 ++ t ++ r = q.1 ++ t' ++ r' → p.1 = q.1 ∧ t = t' ∧ r = r'.
Definition visible (p : part) : Prop :=
  ∀ t, p.2 = Ok t → ∃ b rest, p.1 ++ t = b :: rest ∧ kind_of_byte b ≠ None.
Definition agree (p q : part) : Prop := p.1 = q.1 ∧ ∃ t, p.2 = Ok t ∧ q.2 = Ok t.

Lemma join_cons_Ok i p ps s :
  join_parts i (p :: ps) = Ok s → ∃ t more, p.2 = Ok t ∧ join_parts (S i) ps = Ok more ∧
    s = (if 0 <? i then [44%N] else []) ++ p.1 ++ t ++ more.
Proof.
  destruct p as [before value]. cbn [join_parts].
  intros (t & Ht & (more & Hmore & [= <-])%bind_Ok)%bind_Ok. eauto.
Qed.

Lemma join_ends i ps s (c : N) r :
  join_parts (S i) ps = Ok s → (c = 93 ∨ c = 125)%N → ends (s ++ c :: r).
Proof.
  destruct ps as [|p ps].
  - intros [= <-] Hc. simpl. tauto.
  - intros (t & more & _ & _ & ->)%join_cons_Ok _. by left.
Qed.

Lemma join_prefix (c : N) : (c = 93 ∨ c = 125)%N → ∀ ps qs i s s' r r',
  join_parts i ps = Ok s → join_parts i qs = Ok s' → s ++ c :: r = s' ++ c :: r' →
  (∀ p q, p ∈ ps → q ∈ qs → delimited p q) →
  Forall visible ps → Forall visible qs →
  Forall2 agree ps qs ∧ s = s' ∧ r = r'.
Proof.
  intros Hc. assert (∀ i (p : part) ps s r r', visible p →
    join_parts i (p :: ps) = Ok s → c :: r ≠ s ++ r') as Hclose.
  { intros i p ps s r r' Hvis (t & more & Ht & _ & ->)%join_cons_Ok.
    destruct (Hvis t Ht) as (b & rest & Hb & Hk). destruct (0 <? i); simpl.
    - intros [= -> _]. by destruct Hc.
    - rewrite (app_assoc p.1), Hb. intros [= -> _]. by destruct Hc as [-> | ->]. }
  induction ps as [|p ps IH]; intros [|q qs] i s s' r r' Hs Hs' Heq Hdel Hps Hqs.
  - simplify_eq/=. by split; [constructor|].
  - simplify_eq/=. apply Forall_cons in Hqs as [Hq _].
    by destruct (Hclose _ _ _ _ r (c :: r') Hq Hs').
  - simplify_eq/=. apply Forall_cons in Hps as [Hp _].
    by destruct (Hclose _ _ _ _ r' (c :: r) Hp Hs).
  - apply join_cons_Ok in Hs as (t & more & Ht & Hmore & ->).
    apply join_cons_Ok in Hs' as (t' & more' & Ht' & Hmore' & ->).
    apply Forall_cons in Hps as [_ Hps], Hqs as [_ Hqs].
    rewrite <-!app_assoc in Heq. apply app_inv_head in Heq.
    destruct (Hdel p q ltac:(by left) ltac:(by left) t t' (more ++ c :: r) (more' ++ c :: r') Ht Ht')
      as (Hbefore & -> & Hrest); [by eapply join_ends|by eapply join_ends|done|].
    destruct (IH qs (S i) more more' r r') as (Hall & -> & ->); try done.
    { intros x y Hx Hy. apply Hdel; by right. }
    split; [|by rewrite Hbefore]. constructor; [|done]. split; [done|by exists t'].
Qed.

Lemma array_parts_elem ptr i items p :
  p ∈ array_parts ptr i items → ∃ ptr' v, v ∈ items ∧ p = ([], write_value ptr' v).
Proof.
  revert i. induction items as [|v items IH]; intros i; simpl; [by intros ?%elem_of_nil|].
  intros [->|Hin]%elem_of_cons; [by eexists _, v; split; [left|]|].
  destruct (IH _ Hin) as (ptr' & w & Hw & ->). exists ptr', w. split; [by right|done].
Qed.
Lemma object_parts_elem ptr fields p :
  p ∈ field_part <$> merge_sort key_le (field_value ptr <$> fields) →
  ∃ f ptr', f ∈ fields ∧ p = (write_string f.1 ++ [58%N], write_value ptr' f.2).
Proof.
  rewrite merge_sort_Permutation.
  intros (e & -> & (f & -> & Hf)%list_elem_of_fmap)%list_elem_of_fmap. eauto.
Qed.

Lemma array_visible ptr i items : Forall visible (array_parts ptr i items).
Proof.
  apply Forall_forall. intros p (ptr' & v & _ & ->)%array_parts_elem t Ht.
  destruct (write_value_kind _ _ _ Ht) as (b & rest & -> & Hk). exists b, rest. by rewrite Hk.
Qed.
Lemma object_visible ptr fields :
  Forall visible (field_part <$> merge_sort key_le (field_value ptr <$> fields)).
Proof.
  apply Forall_forall. intros p (f & ptr' & _ & ->)%object_parts_elem t _.
  eexists 34%N, _. split; [done|]. done.
Qed.

Lemma write_value_prefix v : ∀ w ptr ptr' s s' r r',
  write_value ptr v = Ok s → write_value ptr' w = Ok s' → ends r → ends r' →
  s ++ r = s' ++ r' → s = s' ∧ r = r'.
Proof.
  assert (∀ v w ptr ptr' s s' r r',
    write_value ptr v = Ok s → write_value ptr' w = Ok s' → s ++ r = s' ++ r' →
    kind v = kind w) as Hkind.
  { intros x y ptr ptr' s s' r r' Hs Hs' Heq.
    destruct (write_value_kind _ _ _ Hs) as (b & l & -> & Hb).
    destruct (write_value_kind _ _ _ Hs') as (b' & l' & -> & Hb').
    injection Heq as -> _. congruence. }
  induction v as [|b|n|str|items IH|fields IH] using Value_nested;
    intros w ptr ptr' s s' r r' Hs Hs' Hr Hr' Heq;
    pose proof (Hkind _ _ _ _ _ _ _ _ Hs Hs' Heq) as Hk;
    destruct w as [|b'|m|str'|items'|fields']; simpl in Hk; try (by repeat case_match).
  - simplify_eq/=. by simplify_list_eq.
  - destruct b, b'; simplify_eq/=; by simplify_list_eq.
  - destruct (write_number_text _ _ _ Hs), (write_number_text _ _ _ Hs').
    by apply number_prefix.
  - injection Hs as <-. injection Hs' as <-. by apply write_string_prefix in Heq as [-> ->].
  - rewrite write_arr in Hs, Hs'. apply bind_Ok in Hs as (body & Hbody & [= <-]).
    apply bind_Ok in Hs' as (body' & Hbody' & [= <-]). simpl in Heq. injection Heq as Heq.
    rewrite <-!app_assoc in Heq.
    destruct (join_prefix 93 (or_introl eq_refl) _ _ _ _ _ _ _ Hbody Hbody' Heq) as (_ & -> & ->); eauto using array_visible.
    intros p q (pp & x & Hx & ->)%array_parts_elem (qq & y & Hy & ->)%array_parts_elem.
    rewrite Forall_forall in IH. intros t t' u u' Ht Ht' Hu Hu' Htu. cbn [fst] in Htu.
    by destruct (IH x Hx y _ _ _ _ _ _ Ht Ht' Hu Hu' Htu).
  - rewrite write_obj in Hs, Hs'. apply bind_Ok in Hs as (body & Hbody & [= <-]).
    apply bind_Ok in Hs' as (body' & Hbody' & [= <-]). simpl in Heq. injection Heq as Heq.
    rewrite <-!app_assoc in Heq.
    destruct (join_prefix 125 (or_intror eq_refl) _ _ _ _ _ _ _ Hbody Hbody' Heq) as (_ & -> & ->); eauto using object_visible.
    intros p q (f & pp & Hf & ->)%object_parts_elem (g & qq & Hg & ->)%object_parts_elem.
    rewrite Forall_forall in IH. intros t t' u u' Ht Ht' Hu Hu' Htu. cbn [fst] in Htu.
    rewrite <-!(app_assoc (write_string _)) in Htu.
    apply write_string_prefix in Htu as [-> Htu].
    injection Htu as Htu. by destruct (IH f Hf (g.2) _ _ _ _ _ _ Ht Ht' Hu Hu' Htu) as [-> ->].
Qed.

(** ** One spelling per value *)

Lemma prefix_delimited ptr ptr' before v w :
  delimited (before, write_value ptr v) (before, write_value ptr' w).
Proof.
  intros t t' r r' Ht Ht' Hr Hr' Heq. apply app_inv_head in Heq.
  by destruct (write_value_prefix _ _ _ _ _ _ _ _ Ht Ht' Hr Hr' Heq).
Qed.

Lemma array_delimited ptr ptr' i j items items' p q :
  p ∈ array_parts ptr i items → q ∈ array_parts ptr' j items' → delimited p q.
Proof.
  intros (pp & x & _ & ->)%array_parts_elem (qq & y & _ & ->)%array_parts_elem.
  apply prefix_delimited.
Qed.
Lemma object_delimited ptr ptr' fields fields' p q :
  p ∈ field_part <$> merge_sort key_le (field_value ptr <$> fields) →
  q ∈ field_part <$> merge_sort key_le (field_value ptr' <$> fields') → delimited p q.
Proof.
  intros (f & pp & _ & ->)%object_parts_elem (g & qq & _ & ->)%object_parts_elem.
  intros t t' r r' Ht Ht' Hr Hr' Heq. cbn [fst] in Heq.
  rewrite <-!(app_assoc (write_string _)) in Heq.
  apply write_string_prefix in Heq as [Hk Heq]. cbn [fst].
  rewrite Hk. injection Heq as Heq.
  by destruct (write_value_prefix _ _ _ _ _ _ _ _ Ht Ht' Hr Hr' Heq).
Qed.

Lemma agree_arrays ptr ptr' : ∀ items items' i,
  Forall2 agree (array_parts ptr i items) (array_parts ptr' i items') →
  Forall (λ v, ∀ w ptr ptr' s, write_value ptr v = Ok s → write_value ptr' w = Ok s → same v w)
    items → Forall2 same items items'.
Proof.
  induction items as [|v items IH]; intros [|w items'] i Hall Hsame; inversion Hall as
    [|p q ps qs [_ (t & Ht & Ht')] Hrest]; subst; [constructor|].
  apply Forall_cons in Hsame as [Hv Hsame]. constructor; [by eapply Hv|by eapply IH].
Qed.

(** What was written is the fields, in the order of their keys. *)
Lemma sorted_fields ptr fields :
  ∃ sorted, merge_sort key_le (field_value ptr <$> fields) = field_value ptr <$> sorted ∧
    fields ≡ₚ sorted.
Proof.
  pose proof (merge_sort_Permutation key_le (field_value ptr <$> fields)) as Hp.
  apply Permutation_map_inv in Hp as (sorted & Heq & Hp). by exists sorted.
Qed.

Lemma agree_objects ptr ptr' : ∀ sorted sorted',
  Forall2 agree (field_part <$> (field_value ptr <$> sorted))
    (field_part <$> (field_value ptr' <$> sorted')) →
  Forall (λ f, ∀ w ptr ptr' s, write_value ptr f.2 = Ok s → write_value ptr' w = Ok s →
    same f.2 w) sorted →
  Forall2 (λ f g, f.1 = g.1 ∧ same f.2 g.2) sorted sorted'.
Proof.
  induction sorted as [|f sorted IH]; intros [|g sorted'] Hall Hsame; inversion Hall as
    [|p q ps qs [Hkey (t & Ht & Ht')] Hrest]; subst; [constructor|].
  apply Forall_cons in Hsame as [Hf Hsame]. constructor; [split; [|eapply Hf; [exact Ht|exact Ht']]|by apply IH].
  cbn in Hkey. by apply write_string_prefix in Hkey as [-> _].
Qed.

Lemma write_value_inj v : ∀ w ptr ptr' s,
  write_value ptr v = Ok s → write_value ptr' w = Ok s → same v w.
Proof.
  induction v as [|b|n|str|items IH|fields IH] using Value_nested; intros w ptr ptr' s Hs Hs';
    destruct (write_value_kind _ _ _ Hs) as (c & l & -> & Hc);
    destruct (write_value_kind _ _ _ Hs') as (c' & l' & Hcc & Hc');
    injection Hcc as <- <-; rewrite Hc in Hc'; injection Hc' as Hk;
    destruct w as [|b'|m|str'|items'|fields']; simpl in Hk; try (by repeat case_match).
  - constructor.
  - destruct b, b'; done || constructor.
  - rewrite (write_number_inj _ _ _ _ _ Hs Hs'). constructor.
  - pose proof (Ok_inj _ _ (eq_trans Hs (eq_sym Hs'))) as Heq.
    apply (f_equal (.++ [])), write_string_prefix in Heq as [-> _]. constructor.
  - rewrite write_arr in Hs, Hs'. apply bind_Ok in Hs as (body & Hbody & [= <- <-]).
    apply bind_Ok in Hs' as (body' & Hbody' & [= Hb]).
    apply app_inv_tail in Hb as ->.
    destruct (join_prefix 93 (or_introl eq_refl) _ _ _ _ _ [] [] Hbody Hbody' eq_refl)
      as (Hall & _); eauto using array_visible, array_delimited.
    constructor. by eapply agree_arrays.
  - rewrite write_obj in Hs, Hs'. apply bind_Ok in Hs as (body & Hbody & [= <- <-]).
    apply bind_Ok in Hs' as (body' & Hbody' & [= Hb]).
    apply app_inv_tail in Hb as ->.
    destruct (join_prefix 125 (or_intror eq_refl) _ _ _ _ _ [] [] Hbody Hbody' eq_refl)
      as (Hall & _); eauto using object_visible, object_delimited.
    destruct (sorted_fields ptr fields) as (sorted & Hsort & Hp).
    destruct (sorted_fields ptr' fields') as (sorted' & Hsort' & Hp').
    rewrite Hsort, Hsort' in Hall. apply same_obj with sorted sorted'; [done| |done].
    eapply agree_objects; [exact Hall|]. by rewrite <-Hp.
Qed.

(** ** The order of fields does not matter *)

(** A map holds a key once. *)
Fixpoint unique_keys (v : Value) : Prop :=
  match v with
  | Arr items => foldr and True (map unique_keys items)
  | Obj fields => NoDup fields.*1 ∧ foldr and True (map (λ '(_, v), unique_keys v) fields)
  | _ => True
  end.

Lemma write_same v : ∀ w ptr, same v w → unique_keys v → write_value ptr v = write_value ptr w.
Proof.
  induction v as [|b|n|str|items IH|fields IH] using Value_nested; intros w ptr Hs Hu;
    inversion Hs as [| | | |items0 items' Hall|fields0 sorted sorted' fields' Hp Hall Hp']; subst;
    try done.
  - rewrite !write_arr. assert (array_parts ptr 0 items = array_parts ptr 0 items') as ->; [|done].
    clear Hs. revert IH Hu. simpl. generalize 0 as i. induction Hall as [|x y xs ys Hxy _ IHl];
      intros i IH Hu; [done|]. simpl in Hu. apply Forall_cons in IH as [Hx IH]. simpl.
    rewrite (Hx y) by tauto. f_equal. apply IHl; tauto.
  - rewrite !write_obj. destruct Hu as [Hnd Hu].
    assert (Forall (λ f, unique_keys f.2) fields) as Hfu.
    { clear -Hu. induction fields as [|[k v] fields IH]; [done|]. simpl in Hu. constructor; simpl; tauto. }
    assert (field_value ptr <$> sorted = field_value ptr <$> sorted') as Heq.
    { rewrite Hp in IH, Hfu. clear -Hall IH Hfu.
      induction Hall as [|f g fs gs [Hk Hsame] _ IHl]; [done|].
      apply Forall_cons in IH as [Hf IH]. apply Forall_cons in Hfu as [Huf Hfu]. csimpl.
      rewrite IHl by done. f_equal. unfold field_value. rewrite <-Hk. f_equal. by apply Hf. }
    rewrite (sort_unique (field_value ptr <$> fields) (field_value ptr <$> fields')); [done| |].
    + by rewrite Hp, Heq, Hp'.
    + rewrite <-list_fmap_compose. exact Hnd.
Qed.

(** ** Properties *)

(** C32. One spelling per value, and one value per spelling: of inputs whose maps
    hold each key once, two that can be encoded have the same encoding exactly
    when they are the same value, the order of fields aside. *)
Theorem canonical_input_faithful v w s s' :
  unique_keys v →
  canonical_input v = Ok s → canonical_input w = Ok s' → (s = s' ↔ same v w).
Proof.
  intros Hu Hv Hw. split.
  - intros <-. by eapply write_value_inj.
  - intros Hs. pose proof (write_same v w EmptyString Hs Hu) as Heq.
    unfold canonical_input in *. rewrite Hv, Hw in Heq. by injection Heq.
Qed.

Lemma to_le_bytes_length w n : length (to_le_bytes w n) = w.
Proof. revert n. induction w; intros n; simpl; auto. Qed.

Lemma to_le_bytes_inj w : ∀ n m,
  (n < 256 ^ N.of_nat w)%N → (m < 256 ^ N.of_nat w)%N →
  to_le_bytes w n = to_le_bytes w m → n = m.
Proof.
  induction w as [|w IH]; intros n m Hn Hm Heq; simpl in Heq.
  - change (256 ^ N.of_nat 0)%N with 1%N in *. lia.
  - injection Heq as Hmod Hrest.
    assert (256 ^ N.of_nat (S w) = 256 * 256 ^ N.of_nat w)%N as Hpow
      by (rewrite Nat2N.inj_succ; apply N.pow_succ_r').
    rewrite Hpow in Hn, Hm. apply IH in Hrest; [|by apply N.Div0.div_lt_upper_bound..].
    rewrite (N.div_mod' n 256), (N.div_mod' m 256). congruence.
Qed.

(** Framing: what was absorbed can be read back off the front. *)
Lemma absorb_inj a b r r' :
  (N.of_nat (length a) < 2 ^ 64)%N → (N.of_nat (length b) < 2 ^ 64)%N →
  absorb a ++ r = absorb b ++ r' → a = b ∧ r = r'.
Proof.
  unfold absorb. intros Ha Hb Heq. rewrite !N.mod_small in Heq by done.
  rewrite <-!app_assoc in Heq. apply app_inj_1 in Heq as [Hlen Heq];
    [|by rewrite !to_le_bytes_length].
  apply to_le_bytes_inj in Hlen; [|exact Ha|exact Hb].
  apply app_inj_1 in Heq; [done|lia].
Qed.

(** An exact-call hash names one input: two inputs with one hash, each of
    whose encodings is shorter than 2^64 bytes, are the same value unless the two
    are a collision of SHA-256 itself. *)
Theorem canonical_hash_binds sha256 v w h s s' :
  canonical_input v = Ok s → canonical_input w = Ok s' →
  (N.of_nat (length s) < 2 ^ 64)%N → (N.of_nat (length s') < 2 ^ 64)%N →
  canonical_input_hash sha256 v = Ok h → canonical_input_hash sha256 w = Ok h →
  same v w ∨ ∃ x y, x ≠ y ∧ sha256 x = sha256 y.
Proof.
  unfold canonical_input_hash. intros Hv Hw Hls Hls'. rewrite Hv, Hw. cbn.
  intros [= <-] [= Hhash].
  set (d := absorb (lit CANONICAL_INPUT_DOMAIN)) in *.
  destruct (decide (d ++ absorb s = d ++ absorb s')) as [Heq|Hne]; [left|right; by eauto].
  apply app_inv_head in Heq. apply (f_equal (.++ [])) in Heq.
  destruct (absorb_inj _ _ _ _ Hls Hls' Heq) as [<- _]. by eapply write_value_inj.
Qed.

(** The numbers of a value. *)
Fixpoint numbers (v : Value) : list Number :=
  match v with
  | Num n => [n]
  | Arr items => concat (map numbers items)
  | Obj fields => concat (map (λ '(_, v), numbers v) fields)
  | _ => []
  end.
Definition spellable (n : Number) : bool := is_ok (write_number n EmptyString).

Lemma join_parts_is_ok : ∀ ps i,
  is_ok (join_parts i ps) = forallb (λ p, is_ok p.2) ps.
Proof.
  induction ps as [|[before [t|e]] ps IH]; intros i; simpl; [done| |done].
  rewrite <-(IH (S i)). by destruct (join_parts (S i) ps).
Qed.

Lemma write_value_is_ok v : ∀ ptr,
  is_ok (write_value ptr v) = forallb spellable (numbers v).
Proof.
  induction v as [|[]|n|str|items IH|fields IH] using Value_nested; intros ptr; try done.
  - simpl. rewrite andb_true_r. unfold spellable, write_number.
    destruct (as_u64 n), (as_i64 n), (as_f64 n) as [x|]; try done. by destruct (encode_double x).
  - rewrite write_arr. transitivity (is_ok (join_parts 0 (array_parts ptr 0 items))).
    { by destruct (join_parts _ _). }
    rewrite join_parts_is_ok. simpl. generalize 0 as i.
    induction IH as [|v items Hv _ IHl]; intros i; [done|]. simpl.
    by rewrite Hv, forallb_app, IHl.
  - rewrite write_obj. transitivity (is_ok (join_parts 0
      (field_part <$> merge_sort key_le (field_value ptr <$> fields)))).
    { by destruct (join_parts _ _). }
    rewrite join_parts_is_ok.
    destruct (sorted_fields ptr fields) as (sorted & -> & Hp).
    transitivity (forallb (λ f, forallb spellable (numbers f.2)) fields).
    + rewrite Hp in IH. transitivity (forallb (λ f, forallb spellable (numbers f.2)) sorted).
      * clear Hp. induction IH as [|f sorted Hf _ IHl]; [done|]. csimpl. by rewrite Hf, IHl.
      * apply eq_true_iff_eq. rewrite !forallb_forall.
        split; intros Hall f Hin; apply Hall; revert Hin; rewrite <-!list_elem_of_In; by rewrite Hp.
    + simpl. clear. induction fields as [|[k v] fields IH]; [done|]. simpl.
      by rewrite forallb_app, IH.
Qed.

(** The encoding refuses exactly the inputs that hold a number with no finite
    value somewhere, and nothing else. *)
Theorem canonical_input_refuses v :
  is_ok (canonical_input v) = true ↔
  ∀ n, n ∈ numbers v →
    is_Some (as_u64 n) ∨ is_Some (as_i64 n) ∨ ∃ x, as_f64 n = Some x ∧ is_finite x = true.
Proof.
  unfold canonical_input. rewrite write_value_is_ok, forallb_forall.
  assert (∀ n, spellable n = true ↔ is_Some (as_u64 n) ∨ is_Some (as_i64 n) ∨
    ∃ x, as_f64 n = Some x ∧ is_finite x = true) as Hspell.
  { intros n. unfold spellable, write_number, encode_double.
    destruct (as_u64 n); [by split; [left|]|]. destruct (as_i64 n); [by split; [right; left|]|].
    destruct (as_f64 n) as [x|]; [|split; [done|intros [[]|[[]|(? & ? & _)]]; done]].
    destruct (is_finite x) eqn:Hx; simpl.
    - split; [right; right; by exists x|done].
    - split; [done|]. intros [[]|[[]|(y & [= <-] & Hy)]]; congruence. }
  split.
  - intros Hall n Hn. by apply Hspell, Hall, list_elem_of_In.
  - intros Hall n Hn%list_elem_of_In. by apply Hspell, Hall.
Qed.
End laws.

(** ** Concrete inputs *)

(** Integers, and doubles that are whole and finite below a thousand. *)
#[export] Instance demo_numbers : Numbers := {
  Number := Z + N;
  as_u64 n := match n with inl z => if (0 <=? z)%Z then Some (Z.to_N z) else None | inr _ => None end;
  as_i64 n := match n with inl z => Some z | inr _ => None end;
  F64 := N;
  as_f64 n := match n with inl z => Some (Z.to_N z) | inr d => Some d end;
  is_finite d := (d <? 1000)%N;
  f64_debug d := utf8_bytes (pretty d) ++ [46; 48]%N;
}.

#[export] Instance demo_numbers_laws : NumbersLaws.
Proof.
  split; simpl.
  - intros [n|n] [m|m] x; try done. destruct (Z.leb_spec 0 n), (Z.leb_spec 0 m); try done.
    intros [= <-] [= Heq]. f_equal. lia.
  - intros [n|n] [m|m] z; try done. by intros [= ->] [= ->].
  - intros [n|n] z; [|done]. destruct (Z.leb_spec 0 n); [done|]. by intros _ [= <-].
  - intros [n|n] [m|m] x; try done. by intros _ _ _ _ [= ->] [= ->].
  - intros x y _ _ Heq%app_inv_tail%utf8_bytes_inj. by apply (inj pretty) in Heq.
  - intros x _. apply Forall_app. split; [|by repeat constructor].
    apply digits_are_number_bytes. by destruct (pretty_N_digits x).
  - intros x _. exists 46%N. split; [|by left]. apply elem_of_app. right. by left.
Qed.

Definition demo_input : Value :=
  Obj [("path", Str "a.rs"); ("limit", Num (inl 5%Z)); ("deep", Arr [Null; Bool true])].
(** The same fields in another order. *)
Definition demo_reordered : Value :=
  Obj [("deep", Arr [Null; Bool true]); ("path", Str "a.rs"); ("limit", Num (inl 5%Z))].

Definition demo_text : list N :=
  utf8_bytes "{" ++ write_string "deep" ++ utf8_bytes ":[null,true]," ++ write_string "limit"
  ++ utf8_bytes ":5," ++ write_string "path" ++ utf8_bytes ":" ++ write_string "a.rs"
  ++ utf8_bytes "}".

Lemma demo_unique : unique_keys demo_input.
Proof.
  split; [|done]. repeat constructor; rewrite ?elem_of_cons, ?elem_of_nil; naive_solver.
Qed.

Lemma canonical_input_faithful_witness : same demo_input demo_reordered.
Proof.
  apply (canonical_input_faithful demo_input demo_reordered demo_text demo_text demo_unique);
    vm_compute; reflexivity.
Defined.

Lemma canonical_hash_binds_witness :
  same demo_input demo_reordered ∨ ∃ x y : list N, x ≠ y ∧ take 32 x = take 32 y.
Proof.
  apply (canonical_hash_binds (take 32) demo_input demo_reordered
    (MkInputHash (take 32 (absorb (lit CANONICAL_INPUT_DOMAIN) ++ absorb demo_text)))
    demo_text demo_text); try (vm_compute; reflexivity).
Defined.
