(* ===== verification/Btree.v ===== *)
(** * Ordered maps

    Rust's [BTreeMap] as its entries in key order.  The components iterate these
    maps, so the order is part of what they do and a finite map without one would
    not say it.  The order of a key type is the interface [KeyOrder], its laws
    [KeyOrderLaws]. *)

From Stdlib Require Import Sorted Lia.
From stdpp Require Import base decidable list numbers.
From S2P Require Import Prelude.

Class KeyOrder (K : Type) := key_lt : K → K → bool.

Class KeyOrderLaws (K : Type) `{KeyOrder K} := {
  key_lt_irrefl : ∀ a : K, key_lt a a = false;
  key_lt_trans : ∀ a b c : K, key_lt a b = true → key_lt b c = true → key_lt a c = true;
  key_lt_total : ∀ a b : K, key_lt a b = false → key_lt b a = false → a = b;
}.

Abbreviation BTreeMap K V := (list (K * V)).


Section map.
Context {K V : Type} `{KeyOrder K}.
Implicit Types (m : BTreeMap K V).

(** [BTreeMap::get] *)
Fixpoint bt_get (k : K) m : option V :=
  match m with
  | [] => None
  | (k', v) :: rest =>
    if key_lt k k' then None else if key_lt k' k then bt_get k rest else Some v
  end.

(** [BTreeMap::insert] *)
Fixpoint bt_insert (k : K) (v : V) m : BTreeMap K V :=
  match m with
  | [] => [(k, v)]
  | (k', v') :: rest =>
    if key_lt k k' then (k, v) :: m
    else if key_lt k' k then (k', v') :: bt_insert k v rest
    else (k, v) :: rest
  end.

(** [BTreeMap::remove], what it leaves *)
Fixpoint bt_remove (k : K) m : BTreeMap K V :=
  match m with
  | [] => []
  | (k', v') :: rest =>
    if key_lt k k' then m
    else if key_lt k' k then (k', v') :: bt_remove k rest
    else rest
  end.

(** [BTreeMap::keys], [BTreeMap::into_values] *)
Definition bt_keys m : list K := m.*1.
Definition bt_values m : list V := m.*2.

Definition key_before (a b : K * V) : Prop := key_lt a.1 b.1 = true.
Definition bt_sorted m : Prop := StronglySorted key_before m.

Context `{!KeyOrderLaws K}.

Lemma key_lt_asym (a b : K) : key_lt a b = true → key_lt b a = false.
Proof.
  intros Hab. destruct (key_lt b a) eqn:Hba; [|done].
  pose proof (key_lt_trans _ _ _ Hab Hba). by rewrite key_lt_irrefl in *.
Qed.

(** Compare two keys: before, equal, after. *)
Ltac compare_keys a b :=
  let Hab := fresh "Hlt" in let Hba := fresh "Hgt" in
  destruct (key_lt a b) eqn:Hab;
  [|destruct (key_lt b a) eqn:Hba; [|pose proof (key_lt_total a b Hab Hba); subst]].

Lemma bt_get_insert k v m : bt_get k (bt_insert k v m) = Some v.
Proof.
  induction m as [|[k' v'] m IH]; cbn; [by rewrite key_lt_irrefl|].
  compare_keys k k'; cbn; by rewrite ?key_lt_irrefl, ?Hlt, ?Hgt.
Qed.

Lemma bt_get_insert_ne k j v m : j ≠ k → bt_get j (bt_insert k v m) = bt_get j m.
Proof.
  intros Hne. induction m as [|[k' v'] m IH]; cbn.
  - compare_keys j k; done.
  - compare_keys k k'; cbn.
    + compare_keys j k; [|done|done]. by rewrite (key_lt_trans _ _ _ Hlt0 Hlt).
    + by rewrite IH.
    + compare_keys j k'; done.
Qed.

Lemma bt_insert_Forall (P : K * V → Prop) k v m :
  P (k, v) → Forall P m → Forall P (bt_insert k v m).
Proof.
  intros Hk. induction 1 as [|[k' v'] m Hp Hm IH]; cbn; [by constructor|].
  repeat case_match; repeat constructor; done.
Qed.

Lemma bt_sorted_insert k v m : bt_sorted m → bt_sorted (bt_insert k v m).
Proof.
  induction 1 as [|[k' v'] m Hs IH Hf]; cbn; [repeat constructor|].
  compare_keys k k'.
  - constructor; [by constructor|]. constructor; [done|].
    eapply List.Forall_impl; [|exact Hf]. intros x Hx. by eapply key_lt_trans.
  - constructor; [done|]. by apply bt_insert_Forall.
  - by constructor.
Qed.

Lemma bt_remove_Forall (P : K * V → Prop) k m : Forall P m → Forall P (bt_remove k m).
Proof.
  induction 1 as [|[k' v'] m Hp Hm IH]; cbn; [done|].
  repeat case_match; [by constructor|by constructor|done].
Qed.

Lemma bt_sorted_remove k m : bt_sorted m → bt_sorted (bt_remove k m).
Proof.
  induction 1 as [|[k' v'] m Hs IH Hf]; cbn; [constructor|].
  compare_keys k k'; [by constructor| |done].
  constructor; [done|]. by apply bt_remove_Forall.
Qed.

(** A key before every key of the map is not in it. *)
Lemma bt_get_before k m : Forall (λ e, key_lt k e.1 = true) m → bt_get k m = None.
Proof. destruct 1 as [|[k' v'] m Hk Hm]; cbn in *; [done|by rewrite Hk]. Qed.

Lemma bt_get_remove k m : bt_sorted m → bt_get k (bt_remove k m) = None.
Proof.
  induction 1 as [|[k' v'] m Hs IH Hf]; cbn; [done|].
  compare_keys k k'; cbn; rewrite ?Hlt, ?Hgt; [done|done|by apply bt_get_before].
Qed.

Lemma bt_get_remove_ne k j m : bt_sorted m → j ≠ k → bt_get j (bt_remove k m) = bt_get j m.
Proof.
  intros Hm Hne. induction Hm as [|[k' v'] m Hs IH Hf]; cbn; [done|].
  compare_keys k k'; cbn; [done|by rewrite IH|].
  compare_keys j k'; [|done|done]. apply bt_get_before.
  eapply List.Forall_impl; [|exact Hf]. intros x Hx. by eapply key_lt_trans.
Qed.

Lemma bt_insert_remove k v m : bt_sorted m → bt_insert k v (bt_remove k m) = bt_insert k v m.
Proof.
  induction 1 as [|[k' v'] m Hs IH Hf]; cbn; [done|].
  compare_keys k k'; cbn; rewrite ?Hlt, ?Hgt; [done|by rewrite IH|].
  destruct Hf as [|[k'' v''] m Hk Hm]; cbn in *; [done|].
  unfold key_before in Hk. cbn in Hk. by rewrite Hk.
Qed.

Lemma bt_get_elem k v m : bt_sorted m → bt_get k m = Some v ↔ (k, v) ∈ m.
Proof.
  induction 1 as [|[k' v'] m Hs IH Hf]; cbn.
  { split; [done|]. by intros ?%not_elem_of_nil. }
  rewrite elem_of_cons. rewrite list.Forall_forall in Hf. compare_keys k k'.
  - split; [done|]. intros [[= -> ->]|Hin]; [by rewrite key_lt_irrefl in Hlt|].
    specialize (Hf _ Hin). unfold key_before in Hf. cbn in Hf.
    by rewrite (key_lt_asym _ _ Hlt) in Hf.
  - rewrite IH. split; [by right|]. intros [[= -> ->]|Hin]; [by rewrite key_lt_irrefl in Hgt|done].
  - split; [by intros [= ->]; left|]. intros [[= ->]|Hin]; [done|].
    specialize (Hf _ Hin). unfold key_before in Hf. cbn in Hf. by rewrite key_lt_irrefl in Hf.
Qed.

Lemma bt_get_is_key k m : bt_sorted m → bt_get k m = None ↔ k ∉ bt_keys m.
Proof.
  intros Hm. unfold bt_keys. rewrite list_elem_of_fmap. split.
  - intros Hn ([k' v] & -> & Hin). apply bt_get_elem in Hin; [|done]. cbn in *. congruence.
  - intros Hn. destruct (bt_get k m) as [v|] eqn:Hg; [|done]. exfalso. apply Hn.
    exists (k, v). split; [done|]. by apply bt_get_elem.
Qed.

Lemma bt_sorted_nodup m : bt_sorted m → NoDup (bt_keys m).
Proof.
  induction 1 as [|[k' v'] m Hs IH Hf]; cbn; constructor; [|done].
  intros ([k v] & -> & Hin)%list_elem_of_fmap. rewrite list.Forall_forall in Hf.
  specialize (Hf _ Hin). unfold key_before in Hf. cbn in Hf. by rewrite key_lt_irrefl in Hf.
Qed.

(** A sorted map is its lookups. *)
Lemma bt_ext m1 m2 :
  bt_sorted m1 → bt_sorted m2 → (∀ k, bt_get k m1 = bt_get k m2) → m1 = m2.
Proof.
  intros H1. revert m2. induction H1 as [|[k v] m1 Hs IH Hf]; intros m2 H2 Heq.
  - destruct H2 as [|[k v] m2 _ _]; [done|]. specialize (Heq k). cbn in Heq.
    by rewrite key_lt_irrefl in Heq.
  - destruct H2 as [|[k2 v2] m2 H2 Hf2].
    { specialize (Heq k). cbn in Heq. by rewrite key_lt_irrefl in Heq. }
    assert (k = k2) as <-.
    { apply key_lt_total.
      - destruct (key_lt k k2) eqn:Hlt; [|done]. specialize (Heq k). cbn in Heq.
        by rewrite key_lt_irrefl, Hlt in Heq.
      - destruct (key_lt k2 k) eqn:Hlt; [|done]. specialize (Heq k2). cbn in Heq.
        by rewrite key_lt_irrefl, Hlt in Heq. }
    assert (v = v2) as <-.
    { specialize (Heq k). cbn in Heq. rewrite key_lt_irrefl in Heq. by simplify_eq. }
    f_equal. apply IH; [done|]. intros j. specialize (Heq j). cbn in Heq.
    compare_keys j k; [|done|].
    + rewrite !bt_get_before; [done| |]; (eapply List.Forall_impl; [|eassumption]);
        intros x Hx; by eapply key_lt_trans.
    + by rewrite !bt_get_before.
Qed.

Lemma bt_insert_length k v m :
  length (bt_insert k v m) = match bt_get k m with Some _ => length m | None => S (length m) end.
Proof.
  induction m as [|[k' v'] m IH]; cbn; [done|].
  compare_keys k k'; cbn; [done| |done]. rewrite IH. by destruct (bt_get k m).
Qed.
End map.

(** The strict order of a total order. *)
Lemma key_order_of_leb {K} (leb : K → K → bool) :
  (∀ a, leb a a = true) →
  (∀ a b c, leb a b = true → leb b c = true → leb a c = true) →
  (∀ a b, leb a b = true ∨ leb b a = true) →
  (∀ a b, leb a b = true → leb b a = true → a = b) →
  @KeyOrderLaws K (λ a b, negb (leb b a)).
Proof.
  intros Hrefl Htrans Htotal Hanti. split; unfold key_lt.
  - intros a. by rewrite Hrefl.
  - intros a b c. rewrite !negb_true_iff. intros Hab Hbc.
    destruct (leb c a) eqn:Hca; [|done]. exfalso.
    destruct (Htotal b c) as [Hle|Hle]; [|congruence].
    by rewrite (Htrans _ _ _ Hle Hca) in Hab.
  - intros a b. rewrite !negb_false_iff. intros. by apply Hanti.
Qed.

(** [u32] keys *)
#[export] Instance N_key_order : KeyOrder N := N.ltb.
#[export] Instance N_key_order_laws : KeyOrderLaws N.
Proof.
  split; unfold key_lt, N_key_order.
  - apply N.ltb_irrefl.
  - intros a b c. rewrite !N.ltb_lt. lia.
  - intros a b. rewrite !N.ltb_ge. lia.
Qed.

#[export] Hint Resolve bt_sorted_insert bt_sorted_remove : harkness.
