(* ===== verification/Frame.v ===== *)
(** * Newline-delimited framing

    Models [src/crates/harkness-transport/src/frame.rs]: the splitter that turns
    a byte stream into lines under a hard bound, and the writer that frames one
    message as one line.  A byte is an [N] below 256; [on_line] is the list of
    lines it has been called with. *)

From stdpp Require Import base list strings pretty.
From S2P Require Import Prelude.

Definition LF : N := 10.
Definition CR : N := 13.

Inductive TransportError :=
| MessageTooLarge (bytes limit : nat)
| UnencodableMessage (detail : string).

Record LineSplitter := MkLineSplitter {
  ls_limit : nat;
  ls_pending : list N;
  ls_deferred_carriage_return : bool;
}.

Definition LineSplitter_new (limit : nat) : LineSplitter := MkLineSplitter limit [] false.

Definition set_pending (p : list N) (s : LineSplitter) : LineSplitter :=
  MkLineSplitter (ls_limit s) p (ls_deferred_carriage_return s).
Definition set_deferred (d : bool) (s : LineSplitter) : LineSplitter :=
  MkLineSplitter (ls_limit s) (ls_pending s) d.

Definition extend (run : list N) : stateM LineSplitter TransportError unit :=
  s ← get;
  if ls_limit s <? length (ls_pending s) + length run then
    modify (set_pending []);;
    lift (Err (MessageTooLarge (ls_limit s + 1) (ls_limit s)))
  else modify (set_pending (ls_pending s ++ run)).

(** [run.split_last()] *)
Definition split_last {A} (l : list A) : option (A * list A) :=
  match last l with
  | Some x => Some (x, removelast l)
  | None => None
  end.

Definition absorb (run : list N) : stateM LineSplitter TransportError unit :=
  match run with
  | [] => mret tt
  | _ =>
    s ← get;
    modify (set_deferred false);;
    (if ls_deferred_carriage_return s then extend [CR] else mret tt);;
    match split_last run with
    | Some (last, head) =>
      if (last =? CR)%N then extend head;; modify (set_deferred true) else extend run
    | None => extend run
    end
  end.

(** [chunk.iter().position(..)], with the two halves it cuts at. *)
Fixpoint cut (chunk : list N) : option (list N * list N) :=
  match chunk with
  | [] => None
  | b :: rest =>
    if (b =? LF)%N then Some ([], rest)
    else match cut rest with
         | Some (line, after) => Some (b :: line, after)
         | None => None
         end
  end.

(** The splitter and the lines it has delivered. *)
Abbreviation Reader := (LineSplitter * list (list N))%type.
Definition with_splitter (s : LineSplitter) (r : Reader) : Reader := (s, r.2).

(** The line is complete: deliver it unless it is blank, and start the next. *)
Definition deliver (r : Reader) : Reader :=
  let s := set_deferred false r.1 in
  (set_pending [] s, r.2 ++ (if bool_decide (ls_pending s = []) then [] else [ls_pending s])).

(** The loop; each turn shortens the chunk, so its length is enough fuel. *)
Fixpoint feed_loop (fuel : nat) (chunk : list N) : stateM Reader TransportError unit :=
  match fuel with
  | 0 => mret tt
  | S fuel =>
    match cut chunk with
    | Some (line, rest) =>
      zoom fst with_splitter (absorb line);;
      modify deliver;;
      feed_loop fuel rest
    | None => zoom fst with_splitter (absorb chunk)
    end
  end.
Definition feed (chunk : list N) : stateM Reader TransportError unit :=
  feed_loop (S (length chunk)) chunk.

Definition has_partial_line (s : LineSplitter) : bool :=
  negb (bool_decide (ls_pending s = [])) || ls_deferred_carriage_return s.

(** [encoded.find(['\n', '\r'])] *)
Fixpoint find_terminator (encoded : list N) : option nat :=
  match encoded with
  | [] => None
  | b :: rest =>
    if (b =? LF)%N || (b =? CR)%N then Some 0 else S <$> find_terminator rest
  end.

Definition frame (encoded : list N) : result TransportError (list N) :=
  match find_terminator encoded with
  | Some offset =>
    Err (UnencodableMessage
      ("the encoding contains a line terminator at byte " +:+ pretty offset +:+
       ", which newline-delimited framing would deliver as two messages"))
  | None => Ok (encoded ++ [LF])
  end.

(** ** What one operation does *)

Definition splitter_ok (s : LineSplitter) : Prop := length (ls_pending s) ≤ ls_limit s.

Lemma extend_eq run s :
  extend run s =
  if ls_limit s <? length (ls_pending s) + length run
  then (Err (MessageTooLarge (ls_limit s + 1) (ls_limit s)), set_pending [] s)
  else (Ok tt, set_pending (ls_pending s ++ run) s).
Proof. unfold extend, mbind, stateM_bind, get. by destruct (_ <? _). Qed.

Lemma extend_nil s : splitter_ok s → extend [] s = (Ok tt, s).
Proof.
  unfold splitter_ok. rewrite extend_eq. intros Hok. rewrite app_nil_r.
  destruct (Nat.ltb_spec (ls_limit s) (length (ls_pending s) + length (@nil N))) as [Hlt|_].
  - simpl in Hlt. lia.
  - by destruct s.
Qed.

Lemma extend_app x y s : splitter_ok s → extend (x ++ y) s = (extend x;; extend y) s.
Proof.
  unfold splitter_ok. intros Hok. unfold mbind, stateM_bind.
  rewrite !extend_eq, length_app.
  destruct (Nat.ltb_spec (ls_limit s) (length (ls_pending s) + length x)).
  - destruct (Nat.ltb_spec (ls_limit s) (length (ls_pending s) + (length x + length y))); [done|lia].
  - rewrite extend_eq. simpl. rewrite length_app, Nat.add_assoc.
    destruct (_ <? _); [done|]. unfold set_pending. simpl. by rewrite app_assoc.
Qed.

Lemma extend_ok run s : splitter_ok s → splitter_ok (extend run s).2.
Proof.
  unfold splitter_ok. intros Hok. rewrite extend_eq.
  destruct (Nat.ltb_spec (ls_limit s) (length (ls_pending s) + length run)); simpl; [lia|].
  rewrite length_app. lia.
Qed.

(** What [absorb] does, with its sequencing written out. *)
Definition held_back (s : LineSplitter) : list N :=
  if ls_deferred_carriage_return s then [CR] else [].

Lemma split_last_app {A} (l : list A) x : split_last (l ++ [x]) = Some (x, l).
Proof. unfold split_last. by rewrite last_snoc, removelast_last. Qed.

(** The content a run adds once the carriage return before it is settled. *)
Definition body (run : list N) : list N :=
  match split_last run with
  | Some (x, head) => if (x =? CR)%N then head else run
  | None => run
  end.
Definition ends_cr (run : list N) : bool :=
  match split_last run with Some (x, _) => (x =? CR)%N | None => false end.

Lemma absorb_eq b run s :
  splitter_ok s →
  absorb (b :: run) s =
  match extend (held_back s ++ body (b :: run)) (set_deferred false s) with
  | (Ok _, s') => (Ok tt, set_deferred (ends_cr (b :: run)) s')
  | (Err e, s') => (Err e, s')
  end.
Proof.
  intros Hok. assert (splitter_ok (set_deferred false s)) as Hok' by done.
  assert ((if ls_deferred_carriage_return s then extend [CR] else mret tt) (set_deferred false s)
    = extend (held_back s) (set_deferred false s)) as Hheld.
  { unfold held_back. destruct (ls_deferred_carriage_return s); [done|].
    by rewrite extend_nil. }
  rewrite extend_app by done. unfold absorb, get, modify. unfold mbind at 1 2 3, stateM_bind at 1 2 3.
  rewrite Hheld. unfold mbind, stateM_bind.
  destruct (extend (held_back s) (set_deferred false s)) as [[u|e] s1] eqn:He; [|done].
  assert (ls_deferred_carriage_return s1 = false) as Hdef.
  { rewrite extend_eq in He. destruct (_ <? _); simplify_eq/=. done. }
  unfold body, ends_cr. destruct (split_last (b :: run)) as [[x head]|] eqn:Hsp.
  - destruct (x =? CR)%N; [done|].
    destruct (extend (b :: run) s1) as [[u'|e] s2] eqn:He2; [|done].
    rewrite extend_eq in He2. destruct (_ <? _); simplify_eq/=. by destruct s1; simpl in *; subst.
  - destruct (extend (b :: run) s1) as [[u'|e] s2] eqn:He2; [|done].
    rewrite extend_eq in He2. destruct (_ <? _); simplify_eq/=. by destruct s1; simpl in *; subst.
Qed.

(** ** The stream a splitter stands for

    A splitter in use stands for the bytes [cur] it has read of the current line:
    it holds their content, and owes the carriage return they end with. *)

Definition rep (limit : nat) (cur : list N) : LineSplitter :=
  MkLineSplitter limit (body cur) (ends_cr cur).

Definition fits (limit : nat) (line : list N) : bool := length (body line) <=? limit.

Definition refused (limit : nat) : LineSplitter := MkLineSplitter limit [] false.

Lemma body_held cur : body cur ++ (if ends_cr cur then [CR] else []) = cur.
Proof.
  unfold body, ends_cr. destruct cur as [|b cur _] using rev_ind; [done|].
  rewrite split_last_app. destruct (N.eqb_spec b CR) as [->|]; [done|apply app_nil_r].
Qed.

Lemma body_app cur b run : body (cur ++ b :: run) = cur ++ body (b :: run).
Proof.
  destruct (exists_last (l := b :: run)) as (head & x & ->); [done|]. unfold body.
  rewrite app_assoc, !split_last_app. by destruct (x =? CR)%N; rewrite ?app_assoc.
Qed.
Lemma ends_cr_app cur b run : ends_cr (cur ++ b :: run) = ends_cr (b :: run).
Proof.
  destruct (exists_last (l := b :: run)) as (head & x & ->); [done|]. unfold ends_cr.
  by rewrite app_assoc, !split_last_app.
Qed.

Lemma absorb_rep limit cur run :
  fits limit cur = true →
  absorb run (rep limit cur) =
  if fits limit (cur ++ run) then (Ok tt, rep limit (cur ++ run))
  else (Err (MessageTooLarge (limit + 1) limit), refused limit).
Proof.
  intros Hfit%Nat.leb_le. destruct run as [|b run].
  { rewrite app_nil_r. unfold fits. by rewrite (proj2 (Nat.leb_le _ _) Hfit). }
  rewrite absorb_eq by done. rewrite extend_eq. unfold held_back, fits, rep. simpl.
  rewrite app_assoc, body_held, body_app, ends_cr_app.
  assert (length (body cur) + length ((if ends_cr cur then [CR] else []) ++ body (b :: run))
    = length (cur ++ body (b :: run))) as ->.
  { rewrite <-(body_held cur) at 3. rewrite !length_app. lia. }
  rewrite Nat.leb_antisym. destruct (_ <? _); done.
Qed.

(** The lines of a stream that continues [cur], and what is left of its last. *)
Fixpoint assemble (cur bytes : list N) : list (list N) * list N :=
  match bytes with
  | [] => ([], cur)
  | b :: rest =>
    if (b =? LF)%N then let '(ls, tail) := assemble [] rest in (cur :: ls, tail)
    else assemble (cur ++ [b]) rest
  end.

(** What is delivered of them: their content, unless blank. *)
Definition delivered (lines : list (list N)) : list (list N) :=
  filter (λ l, l ≠ []) (body <$> lines).

Fixpoint fitting (limit : nat) (lines : list (list N)) : list (list N) :=
  match lines with
  | [] => []
  | l :: lines => if fits limit l then l :: fitting limit lines else []
  end.

Definition outcome (limit : nat) (out : list (list N)) (a : list (list N) * list N)
    : result TransportError unit * Reader :=
  if forallb (fits limit) (a.1 ++ [a.2])
  then (Ok tt, (rep limit a.2, out ++ delivered a.1))
  else (Err (MessageTooLarge (limit + 1) limit),
        (refused limit, out ++ delivered (fitting limit a.1))).

Lemma cut_assemble cur chunk :
  match cut chunk with
  | Some (line, rest) =>
    assemble cur chunk = ((cur ++ line) :: (assemble [] rest).1, (assemble [] rest).2)
    ∧ length rest < length chunk
  | None => assemble cur chunk = ([], cur ++ chunk)
  end.
Proof.
  revert cur. induction chunk as [|b chunk IH]; intros cur; simpl; [by rewrite app_nil_r|].
  destruct (b =? LF)%N.
  - rewrite app_nil_r. destruct (assemble [] chunk). split; [done|lia].
  - specialize (IH (cur ++ [b])). destruct (cut chunk) as [[line rest]|].
    + destruct IH as [-> Hlen]. rewrite <-app_assoc. split; [done|lia].
    + rewrite IH. by rewrite <-app_assoc.
Qed.

Lemma deliver_rep limit line out :
  deliver (rep limit line, out) = (rep limit [], out ++ delivered [line]).
Proof.
  unfold deliver, delivered, rep. simpl. f_equal. f_equal. rewrite filter_cons.
  case_bool_decide as Hz; simpl; [by rewrite decide_False by tauto|by rewrite decide_True by done].
Qed.

Lemma delivered_app l k : delivered (l ++ k) = delivered l ++ delivered k.
Proof. unfold delivered. by rewrite fmap_app, filter_app. Qed.

Lemma delivered_cons x l : delivered (x :: l) = delivered [x] ++ delivered l.
Proof. apply (delivered_app [x]). Qed.

Lemma absorb_reader limit cur run out :
  fits limit cur = true →
  zoom fst with_splitter (absorb run) (rep limit cur, out) =
  if fits limit (cur ++ run) then (Ok tt, (rep limit (cur ++ run), out))
  else (Err (MessageTooLarge (limit + 1) limit), (refused limit, out)).
Proof.
  intros Hfit. unfold zoom. simpl. rewrite absorb_rep by done. by destruct (fits _ (cur ++ run)).
Qed.

Lemma feed_loop_spec limit : ∀ fuel cur chunk out,
  length chunk < fuel → fits limit cur = true →
  feed_loop fuel chunk (rep limit cur, out) = outcome limit out (assemble cur chunk).
Proof.
  induction fuel as [|fuel IH]; intros cur chunk out Hfuel Hfit; [lia|].
  pose proof (cut_assemble cur chunk) as Hcut. simpl. destruct (cut chunk) as [[line rest]|].
  - destruct Hcut as [-> Hlen]. unfold mbind, stateM_bind.
    rewrite absorb_reader by done. unfold outcome at 1. simpl.
    destruct (fits limit (cur ++ line)) eqn:Hline; simpl; [|by rewrite app_nil_r].
    unfold modify. rewrite deliver_rep. rewrite IH by (done || lia).
    unfold outcome. simpl. destruct (forallb _ _); simpl;
      by rewrite <-app_assoc, <-delivered_cons.
  - rewrite Hcut. rewrite absorb_reader by done. unfold outcome. simpl. rewrite andb_true_r.
    destruct (fits limit (cur ++ chunk)); by rewrite app_nil_r.
Qed.

(** ** Properties *)

(** The splitter against its specification, on every stream and from every
    point of a line: the lines of the stream are delivered in order, each without
    its terminator and unless it is blank, when every line and the unfinished one
    are within the limit; otherwise the lines before the first one over the limit
    are delivered, the refusal names the limit and the first size over it, and
    nothing of the stream is kept. *)
Theorem feed_delivers_lines limit cur chunk out :
  fits limit cur = true →
  feed chunk (rep limit cur, out) = outcome limit out (assemble cur chunk).
Proof. intros Hfit. apply feed_loop_spec; [lia|done]. Qed.

Fixpoint feeds (chunks : list (list N)) : stateM Reader TransportError unit :=
  match chunks with
  | [] => mret tt
  | chunk :: rest => feed chunk;; feeds rest
  end.

Lemma feed_spec limit cur chunk out :
  fits limit cur = true →
  feed chunk (rep limit cur, out) = outcome limit out (assemble cur chunk).
Proof. intros Hfit. apply feed_loop_spec; [lia|done]. Qed.

Lemma assemble_app a : ∀ cur b,
  assemble cur (a ++ b) =
    ((assemble cur a).1 ++ (assemble (assemble cur a).2 b).1, (assemble (assemble cur a).2 b).2).
Proof.
  induction a as [|x a IH]; intros cur b; simpl; [by destruct (assemble cur b)|].
  destruct (x =? LF)%N; [|apply IH]. rewrite IH. by destruct (assemble [] a).
Qed.

Lemma fits_app limit x y : fits limit (x ++ y) = true → fits limit x = true.
Proof.
  unfold fits. rewrite !Nat.leb_le. destruct y as [|b y]; [by rewrite app_nil_r|].
  rewrite body_app, length_app. rewrite <-(body_held x) at 1. rewrite length_app. lia.
Qed.

Lemma fitting_all limit l : forallb (fits limit) l = true → fitting limit l = l.
Proof.
  induction l as [|x l IH]; [done|]. simpl. intros [-> Hl]%andb_true_iff. by rewrite IH.
Qed.
Lemma fitting_app limit l k :
  fitting limit (l ++ k) =
    if forallb (fits limit) l then l ++ fitting limit k else fitting limit l.
Proof.
  induction l as [|x l IH]; [done|]. simpl. destruct (fits limit x); [|done]. rewrite IH.
  by destruct (forallb _ l).
Qed.

(** A line over the limit stays over it, whatever follows. *)
Lemma assemble_too_long limit tail bytes :
  fits limit tail = false →
  ∃ l rest, (assemble tail bytes).1 ++ [(assemble tail bytes).2] = l :: rest ∧
    fits limit l = false ∧
    ((assemble tail bytes).1 = [] ∨ head (assemble tail bytes).1 = Some l).
Proof.
  revert tail. induction bytes as [|b bs IH]; intros tail Htail; simpl.
  - exists tail, []. eauto.
  - destruct (b =? LF)%N.
    + destruct (assemble [] bs) as [ls t]. exists tail, (ls ++ [t]). eauto.
    + apply IH. destruct (fits limit (tail ++ [b])) eqn:Hf; [|done].
      by rewrite (fits_app _ _ _ Hf) in Htail.
Qed.

Lemma feeds_spec limit chunks : ∀ cur out,
  fits limit cur = true →
  feeds chunks (rep limit cur, out) = feed (concat chunks) (rep limit cur, out).
Proof.
  induction chunks as [|chunk chunks IH]; intros cur out Hfit; simpl.
  { rewrite feed_spec by done. unfold outcome. simpl. by rewrite Hfit, app_nil_r. }
  unfold mbind, stateM_bind. rewrite !feed_spec, assemble_app by done.
  destruct (assemble cur chunk) as [ls tail]. unfold outcome at 1. simpl.
  destruct (forallb (fits limit) (ls ++ [tail])) eqn:Hall.
  - rewrite forallb_app in Hall. apply andb_true_iff in Hall as [Hls Htail].
    simpl in Htail. rewrite andb_true_r in Htail. rewrite IH, feed_spec by done.
    unfold outcome. simpl. rewrite !forallb_app, fitting_app, Hls. simpl.
    destruct (forallb _ _ && _); by rewrite !delivered_app, app_assoc.
  - unfold outcome. simpl.
    assert (forallb (fits limit) ((ls ++ (assemble tail (concat chunks)).1) ++
      [(assemble tail (concat chunks)).2]) = false ∧
      fitting limit (ls ++ (assemble tail (concat chunks)).1) = fitting limit ls) as [-> ->]; [|done].
    rewrite forallb_app in Hall. simpl in Hall. rewrite !forallb_app, fitting_app.
    destruct (forallb (fits limit) ls) eqn:Hls; simpl in *; [|done].
    rewrite andb_true_r in Hall.
    destruct (assemble_too_long limit tail (concat chunks) Hall) as (l & rest & Heq & Hl & Hhead).
    destruct (assemble tail (concat chunks)) as [ls' t]; simpl in *.
    destruct ls' as [|x ls']; simplify_eq/=.
    + rewrite Hl. simpl. by rewrite app_nil_r, fitting_all.
    + rewrite Hl. simpl. by rewrite app_nil_r, fitting_all.
Qed.

(** C37. How the stream is cut into reads does not matter: reading it in pieces
    delivers the same lines, ends in the same state and refuses with the same
    error as reading it whole. *)
Theorem feeds_ignore_chunking limit chunks :
  feeds chunks (LineSplitter_new limit, []) = feed (concat chunks) (LineSplitter_new limit, []).
Proof. by apply (feeds_spec limit chunks []). Qed.

Lemma find_terminator_None m :
  find_terminator m = None ↔ ∀ b, b ∈ m → b ≠ LF ∧ b ≠ CR.
Proof.
  induction m as [|b m IH]; simpl.
  { split; [|done]. by intros _ b ?%elem_of_nil. }
  destruct (N.eqb_spec b LF) as [->|Hlf]; simpl.
  { split; [done|]. intros Hall. by destruct (Hall LF) as [[] _]; [left|]. }
  destruct (N.eqb_spec b CR) as [->|Hcr]; simpl.
  { split; [done|]. intros Hall. by destruct (Hall CR) as [_ []]; [left|]. }
  rewrite fmap_None, IH. split.
  - intros Hall x [->|Hx]%elem_of_cons; [done|by apply Hall].
  - intros Hall x Hx. apply Hall. by right.
Qed.

Lemma assemble_line m : ∀ cur rest,
  (∀ b, b ∈ m → b ≠ LF) →
  assemble cur (m ++ LF :: rest) = ((cur ++ m) :: (assemble [] rest).1, (assemble [] rest).2).
Proof.
  induction m as [|b m IH]; intros cur rest Hm; simpl.
  - rewrite app_nil_r. by destruct (assemble [] rest).
  - destruct (N.eqb_spec b LF) as [Hb|_]; [destruct (Hm b); [by left|done]|].
    rewrite IH by (intros x Hx; apply Hm; by right). by rewrite <-app_assoc.
Qed.

Lemma body_plain m : (∀ b, b ∈ m → b ≠ CR) → body m = m.
Proof.
  intros Hm. destruct m as [|b m _] using rev_ind; [done|]. unfold body. rewrite split_last_app.
  destruct (N.eqb_spec b CR) as [->|]; [|done]. destruct (Hm CR); [|done].
  apply elem_of_app. right. by left.
Qed.

(** What is framed arrives: any messages that frame, each nonempty and within
    the reader's limit, written one after another and read back in whatever pieces
    the stream delivers them, are the lines read, in order, with none left over. *)
Theorem frames_round_trip limit messages frames chunks :
  mapM frame messages = Ok frames → concat chunks = concat frames →
  Forall (λ m, m ≠ [] ∧ length m ≤ limit) messages →
  feeds chunks (LineSplitter_new limit, []) = (Ok tt, (LineSplitter_new limit, messages)) ∧
  has_partial_line (feeds chunks (LineSplitter_new limit, [])).2.1 = false.
Proof.
  intros Hframes Hchunks Hall.
  assert (assemble [] (concat frames) = (messages, []) ∧ delivered messages = messages ∧
    forallb (fits limit) messages = true) as (Has & Hdel & Hfit).
  { clear Hchunks. revert frames Hframes.
    induction Hall as [|m messages [Hne Hlen] _ IH]; intros frames Hframes; simpl in Hframes.
    { by injection Hframes as <-. }
    apply bind_Ok in Hframes as (f & Hf & Hframes).
    apply bind_Ok in Hframes as (fs & Hfs & [= <-]).
    unfold frame in Hf. destruct (find_terminator m) eqn:Ht; [done|]. injection Hf as <-.
    rewrite find_terminator_None in Ht. destruct (IH fs Hfs) as (Has & Hdel & Hfit).
    assert (body m = m) as Hbody by (apply body_plain; intros; by apply Ht).
    simpl. rewrite <-app_assoc. change ([LF] ++ concat fs) with (LF :: concat fs).
    rewrite assemble_line, Has by (intros; by apply Ht).
    assert (delivered [m] = [m]) as Hm.
    { unfold delivered. csimpl. rewrite Hbody. by destruct m. }
    rewrite delivered_cons, Hdel, Hfit, Hm. unfold fits. rewrite Hbody.
    split_and!; [done..|]. by rewrite (proj2 (Nat.leb_le _ _) Hlen). }
  rewrite (feeds_spec limit chunks []), Hchunks, feed_spec, Has by done. unfold outcome. simpl.
  by rewrite forallb_app, Hfit, Hdel.
Qed.

(** The reader never holds or delivers more than it promises: whatever it is
    fed, in whatever pieces and with whatever outcome, the pending line is within
    the limit, and each line delivered is nonempty, within the limit and free of
    newlines. *)
Theorem splitter_bounded limit chunks :
  let '(s, lines) := (feeds chunks (LineSplitter_new limit, [])).2 in
  length (ls_pending s) ≤ limit ∧
  Forall (λ l, l ≠ [] ∧ length l ≤ limit ∧ LF ∉ l) lines.
Proof.
  rewrite (feeds_spec limit chunks []), feed_spec by done. unfold outcome.
  assert (Forall (λ l, LF ∉ l) (assemble [] (concat chunks)).1) as Hlf.
  { assert (LF ∉ @nil N) as Hnil by by intros ?%elem_of_nil. revert Hnil.
    generalize (@nil N) as cur. induction (concat chunks) as [|b bs IH]; intros cur Hcur; simpl; [constructor|].
    destruct (N.eqb_spec b LF) as [->|Hb].
    - specialize (IH []). destruct (assemble [] bs). constructor; [done|].
      apply IH. by intros ?%elem_of_nil.
    - apply IH. intros [|[Heq|?%elem_of_nil]%elem_of_cons]%elem_of_app; by try congruence. }
  assert (∀ ls, Forall (λ l, LF ∉ l) ls → forallb (fits limit) ls = true →
    Forall (λ l, l ≠ [] ∧ length l ≤ limit ∧ LF ∉ l) (delivered ls)) as Hdel.
  { intros ls Hls Hfit. unfold delivered. apply Forall_forall. intros l [Hne Hin]%list_elem_of_filter.
    apply list_elem_of_fmap in Hin as (x & -> & Hx). split_and!; [done| |].
    - apply Nat.leb_le. rewrite forallb_forall in Hfit. apply Hfit. by apply list_elem_of_In.
    - rewrite Forall_forall in Hls. intros Hin. apply (Hls _ Hx).
      rewrite <-(body_held x). apply elem_of_app. by left. }
  destruct (forallb _ _) eqn:Hall; simpl.
  - rewrite forallb_app in Hall. apply andb_true_iff in Hall as [Hls Htail]. simpl in Htail.
    rewrite andb_true_r in Htail. split; [by apply Nat.leb_le|by apply Hdel].
  - split; [lia|]. revert Hlf. generalize (assemble [] (concat chunks)).1 as ls. intros ls Hlf.
    apply Hdel.
    + induction Hlf as [|l ls Hl _ IH]; simpl; [constructor|]. destruct (fits limit l); by constructor.
    + clear. induction ls as [|l ls IH]; simpl; [done|].
      destruct (fits limit l) eqn:Hl; simpl; [by rewrite Hl|done].
Qed.

Lemma feed_delivers_lines_witness :
  feed [97; 10; 98]%N (rep 8 [120]%N, []) = (Ok tt, (rep 8 [98]%N, [[120; 97]%N])).
Proof. apply (feed_delivers_lines 8 [120]%N [97; 10; 98]%N []). reflexivity. Defined.

Lemma frames_round_trip_witness :
  feeds [[97; 98]; [10; 99]; [10]]%N (LineSplitter_new 2, [])
    = (Ok tt, (LineSplitter_new 2, [[97; 98]; [99]]%N)).
Proof.
  apply (frames_round_trip 2 [[97; 98]; [99]]%N [[97; 98; 10]; [99; 10]]%N); [reflexivity..|].
  repeat constructor; done || (simpl; lia).
Defined.
