(* ===== verification/Text.v ===== *)
(** * Text and its bounds

    [std::str::from_utf8], from the well-formed byte sequences of the Unicode
    standard, and the clamping of [src/crates/harkness-provider/src/text.rs] that
    bounds an error's detail ([contract/error.rs]).  A byte is an [N] below 256 and
    a [String] its bytes. *)

From stdpp Require Import base list strings pretty.
From S2P Require Import Prelude.

(** ** [std::str::from_utf8] *)

(** What the first bytes of a stream are. *)
Inductive char_result :=
| Char (c rest : list N)
| CutOff
| Bad (error_len : nat).

(** A lead byte's width, and the range its second byte must be in. *)
Definition lead (b0 : N) : option (nat * N * N) :=
  (if b0 <? 0xC2 then None
   else if b0 <=? 0xDF then Some (2%nat, 0x80, 0xBF)
   else if b0 =? 0xE0 then Some (3%nat, 0xA0, 0xBF)
   else if b0 =? 0xED then Some (3%nat, 0x80, 0x9F)
   else if b0 <=? 0xEF then Some (3%nat, 0x80, 0xBF)
   else if b0 =? 0xF0 then Some (4%nat, 0x90, 0xBF)
   else if b0 <=? 0xF3 then Some (4%nat, 0x80, 0xBF)
   else if b0 =? 0xF4 then Some (4%nat, 0x80, 0x8F)
   else None)%N.

Definition within (lo hi b : N) : bool := ((lo <=? b) && (b <=? hi))%N.
Definition continues (b : N) : bool := within 0x80 0xBF b.

Definition decode1 (bytes : list N) : char_result :=
  match bytes with
  | [] => CutOff
  | b0 :: r0 =>
    if (b0 <? 0x80)%N then Char [b0] r0
    else match lead b0 with
    | None => Bad 1
    | Some (width, lo, hi) =>
      match r0 with
      | [] => CutOff
      | b1 :: r1 =>
        if negb (within lo hi b1) then Bad 1
        else if bool_decide (width = 2) then Char [b0; b1] r1
        else match r1 with
        | [] => CutOff
        | b2 :: r2 =>
          if negb (continues b2) then Bad 2
          else if bool_decide (width = 3) then Char [b0; b1; b2] r2
          else match r2 with
          | [] => CutOff
          | b3 :: r3 =>
            if negb (continues b3) then Bad 3 else Char [b0; b1; b2; b3] r3
          end
        end
      end
    end
  end.

Inductive stream_end := Whole | Cut (tail : list N) | Broken (error_len : nat).

(** The characters a stream starts with, and what stops them; each character
    shortens the stream, so its length is enough fuel. *)
Fixpoint scan_loop (fuel : nat) (bytes : list N) : list N * stream_end :=
  match fuel, bytes with
  | _, [] => ([], Whole)
  | 0, _ => ([], Cut bytes)
  | S fuel, _ =>
    match decode1 bytes with
    | Char c rest => let '(text, stop) := scan_loop fuel rest in (c ++ text, stop)
    | CutOff => ([], Cut bytes)
    | Bad n => ([], Broken n)
    end
  end.
Definition scan (bytes : list N) : list N * stream_end := scan_loop (length bytes) bytes.

Record Utf8Error := MkUtf8Error { valid_up_to : nat; error_len : option nat }.

Definition from_utf8 (bytes : list N) : result Utf8Error (list N) :=
  match scan bytes with
  | (text, Whole) => Ok text
  | (text, Cut _) => Err (MkUtf8Error (length text) None)
  | (text, Broken n) => Err (MkUtf8Error (length text) (Some n))
  end.

(** ** Bounded text ([text.rs]) *)

(** [str::is_char_boundary] *)
Definition is_char_boundary (text : list N) (index : nat) : bool :=
  match text !! index with
  | Some b => bool_decide (index = 0) || negb (continues b)
  | None => bool_decide (index = length text) || bool_decide (index = 0)
  end.

(** The loop that walks down to a boundary. *)
Fixpoint floor_loop (text : list N) (index : nat) : nat :=
  match index with
  | 0 => 0
  | S below => if is_char_boundary text index then index else floor_loop text below
  end.
Definition floor_char_boundary (text : list N) (limit : nat) : nat :=
  if length text <=? limit then length text else floor_loop text limit.

(** [format!("… (+{dropped} bytes)")] *)
Definition ELLIPSIS : list N := [0xE2; 0x80; 0xA6]%N.
Definition marker (dropped : nat) : list N :=
  ELLIPSIS ++ utf8_bytes (" (+" +:+ pretty dropped +:+ " bytes)").

Definition clamp (text : list N) (limit : nat) : list N :=
  if length text <=? limit then text
  else
    let boundary := floor_char_boundary text limit in
    let dropped := length text - boundary in
    take boundary text ++ marker dropped.

Definition MAX_ERROR_DETAIL_BYTES : nat := 2048.

(** The private field, and its one construction path; decoding a stored detail is
    [From<String>], which is [new] again. *)
Record ErrorDetail := MkErrorDetail { detail_text : list N }.
Definition ErrorDetail_new (text : list N) : ErrorDetail :=
  MkErrorDetail (clamp text MAX_ERROR_DETAIL_BYTES).
Definition ErrorDetail_from (text : list N) : ErrorDetail := ErrorDetail_new text.
Definition ErrorDetail_into (d : ErrorDetail) : list N := detail_text d.

(** ** Decoding and extension *)

Lemma decode1_Char_app bytes c rest x :
  decode1 bytes = Char c rest → decode1 (bytes ++ x) = Char c (rest ++ x).
Proof.
  unfold decode1. destruct bytes as [|b0 r0]; [done|]. simpl.
  destruct (b0 <? 0x80)%N; [by intros [= <- <-]|].
  destruct (lead b0) as [[[w lo] hi]|]; [|done]. destruct r0 as [|b1 r1]; [done|]. simpl.
  destruct (negb _); [done|]. destruct (bool_decide (w = 2)); [by intros [= <- <-]|].
  destruct r1 as [|b2 r2]; [done|]. simpl. destruct (negb _); [done|].
  destruct (bool_decide (w = 3)); [by intros [= <- <-]|].
  destruct r2 as [|b3 r3]; [done|]. simpl. destruct (negb _); [done|]. by intros [= <- <-].
Qed.

Lemma decode1_Bad_app bytes n x : decode1 bytes = Bad n → decode1 (bytes ++ x) = Bad n.
Proof.
  unfold decode1. destruct bytes as [|b0 r0]; [done|]. simpl.
  destruct (b0 <? 0x80)%N; [done|].
  destruct (lead b0) as [[[w lo] hi]|]; [|done]. destruct r0 as [|b1 r1]; [done|]. simpl.
  destruct (negb _); [done|]. destruct (bool_decide (w = 2)); [done|].
  destruct r1 as [|b2 r2]; [done|]. simpl. destruct (negb _); [done|].
  destruct (bool_decide (w = 3)); [done|].
  destruct r2 as [|b3 r3]; [done|]. simpl. by destruct (negb _).
Qed.

(** A character is what it was read from, one to four bytes of it. *)
Lemma decode1_Char bytes c rest :
  decode1 bytes = Char c rest → bytes = c ++ rest ∧ 0 < length c ≤ 4.
Proof.
  unfold decode1. destruct bytes as [|b0 r0]; [done|].
  destruct (b0 <? 0x80)%N; [intros [= <- <-]; simpl; split; [done|lia]|].
  destruct (lead b0) as [[[w lo] hi]|]; [|done]. destruct r0 as [|b1 r1]; [done|].
  destruct (negb _); [done|].
  destruct (bool_decide (w = 2)); [intros [= <- <-]; simpl; split; [done|lia]|].
  destruct r1 as [|b2 r2]; [done|]. destruct (negb _); [done|].
  destruct (bool_decide (w = 3)); [intros [= <- <-]; simpl; split; [done|lia]|].
  destruct r2 as [|b3 r3]; [done|]. destruct (negb _); [done|].
  intros [= <- <-]. simpl. split; [done|lia].
Qed.

(** A character decodes to itself before anything. *)
Lemma decode1_Char_self c rest x :
  decode1 (c ++ rest) = Char c rest → decode1 (c ++ x) = Char c x.
Proof.
  intros Hd. pose proof (decode1_Char _ _ _ Hd) as [_ Hc].
  destruct c as [|b0 [|b1 [|b2 [|b3 [|b4 c]]]]]; simpl in Hc; [lia| | | | |lia];
    revert Hd; unfold decode1; simpl;
    repeat first
      [ done
      | match goal with |- context [if ?b then _ else _] => destruct b end
      | match goal with |- context [match ?o with Some _ => _ | None => _ end] =>
          destruct o as [[[? ?] ?]|] end
      | match goal with |- context [match ?l with [] => _ | _ :: _ => _ end] =>
          is_var l; destruct l end ];
    intros; simplify_list_eq; try done; discriminate_list.
Qed.

(** What is cut off is at most three bytes. *)
Lemma decode1_CutOff bytes : decode1 bytes = CutOff → length bytes ≤ 3.
Proof.
  unfold decode1. destruct bytes as [|b0 r0]; [simpl; lia|].
  destruct (b0 <? 0x80)%N; [done|].
  destruct (lead b0) as [[[w lo] hi]|]; [|done]. destruct r0 as [|b1 r1]; [simpl; lia|].
  destruct (negb _); [done|]. destruct (bool_decide (w = 2)); [done|].
  destruct r1 as [|b2 r2]; [simpl; lia|]. destruct (negb _); [done|].
  destruct (bool_decide (w = 3)); [done|].
  destruct r2 as [|b3 r3]; [simpl; lia|]. by destruct (negb _).
Qed.

(** ** Scanning *)

(** The fuel does not matter once there is enough of it. *)
Lemma scan_loop_fuel : ∀ fuel fuel' bytes,
  length bytes ≤ fuel → length bytes ≤ fuel' → scan_loop fuel bytes = scan_loop fuel' bytes.
Proof.
  induction fuel as [|fuel IH]; intros [|fuel'] bytes H1 H2;
    (destruct bytes as [|b bytes]; [done|]); [simpl in *; lia..|].
  cbn [scan_loop]. destruct (decode1 (b :: bytes)) as [c rest| |n] eqn:Hd; [|done..].
  apply decode1_Char in Hd as [Hb Hc]. rewrite (IH fuel' rest); [done| |];
    rewrite Hb, length_app in *; lia.
Qed.

Lemma scan_eq bytes :
  scan bytes =
  match bytes with
  | [] => ([], Whole)
  | _ =>
    match decode1 bytes with
    | Char c rest => let '(text, stop) := scan rest in (c ++ text, stop)
    | CutOff => ([], Cut bytes)
    | Bad n => ([], Broken n)
    end
  end.
Proof.
  unfold scan. destruct bytes as [|b bytes]; [done|]. cbn [length scan_loop].
  destruct (decode1 (b :: bytes)) as [c rest| |n] eqn:Hd; [|done..].
  apply decode1_Char in Hd as [Hb Hc]. rewrite (scan_loop_fuel _ (length rest)); [done| |lia].
  apply (f_equal length) in Hb. rewrite length_app in Hb. simpl in Hb. lia.
Qed.

(** The stream is its characters and what stopped them; the characters alone are
    a whole stream. *)
Lemma scan_spec bytes :
  scan (scan bytes).1 = ((scan bytes).1, Whole) ∧
  match (scan bytes).2 with
  | Whole => bytes = (scan bytes).1
  | Cut tail => bytes = (scan bytes).1 ++ tail ∧ tail ≠ [] ∧ decode1 tail = CutOff
  | Broken n => ∃ tail, bytes = (scan bytes).1 ++ tail
  end.
Proof.
  induction bytes as [bytes IH] using (induction_ltof1 _ length). unfold ltof in IH.
  rewrite (scan_eq bytes). destruct bytes as [|b bytes]; [done|].
  destruct (decode1 (b :: bytes)) as [c rest| |n] eqn:Hd; [| |by split; [|exists (b :: bytes)]].
  2: { split; [done|]. split_and!; done. }
  pose proof (decode1_Char _ _ _ Hd) as [Hb Hc]. destruct (IH rest) as [Htext Hstop].
  { rewrite Hb, length_app. lia. }
  rewrite Hb in Hd. destruct (scan rest) as [text stop]; simpl in *. split.
  - rewrite scan_eq. destruct (c ++ text) as [|x l] eqn:Hct.
    { apply app_nil in Hct as [-> _]. simpl in Hc. lia. }
    rewrite <-Hct. clear x l Hct.
    assert (decode1 (c ++ text) = Char c text) as ->.
    { by apply decode1_Char_self with rest. }
    by rewrite Htext.
  - rewrite Hb. destruct stop.
    + by rewrite <-Hstop.
    + destruct Hstop as (-> & ? & ?). by rewrite app_assoc.
    + destruct Hstop as [tail ->]. exists tail. by rewrite app_assoc.
Qed.

Lemma scan_app a b :
  scan (a ++ b) =
  match (scan a).2 with
  | Whole => ((scan a).1 ++ (scan b).1, (scan b).2)
  | Cut tail => ((scan a).1 ++ (scan (tail ++ b)).1, (scan (tail ++ b)).2)
  | Broken n => ((scan a).1, Broken n)
  end.
Proof.
  induction a as [a IH] using (induction_ltof1 _ length). unfold ltof in IH.
  rewrite (scan_eq a). destruct a as [|x a]; [simpl; by destruct (scan b)|].
  destruct (decode1 (x :: a)) as [c rest| |n] eqn:Hd.
  - pose proof (decode1_Char _ _ _ Hd) as [Ha Hc].
    specialize (IH rest). rewrite Ha, length_app in IH. specialize (IH ltac:(lia)).
    rewrite scan_eq. simpl app. change (x :: a ++ b) with ((x :: a) ++ b).
    rewrite (decode1_Char_app _ _ _ b Hd), IH. destruct (scan rest) as [text stop].
    simpl. by destruct stop; rewrite <-?app_assoc.
  - simpl. by destruct (scan (x :: a ++ b)).
  - rewrite scan_eq. simpl app. change (x :: a ++ b) with ((x :: a) ++ b).
    by rewrite (decode1_Bad_app _ _ b Hd).
Qed.

(** The stream is nothing but characters. *)
Definition valid (text : list N) : Prop := scan text = (text, Whole).

Lemma scan_tail tail : decode1 tail = CutOff → tail ≠ [] → scan tail = ([], Cut tail).
Proof. intros Hd Hne. rewrite scan_eq. destruct tail; [done|]. by rewrite Hd. Qed.

(** ** Clamping *)

Lemma valid_nil : valid [].
Proof. done. Qed.

Lemma valid_app a b : valid a → valid b → valid (a ++ b).
Proof. unfold valid. intros Ha Hb. by rewrite scan_app, Ha, Hb. Qed.

(** A byte of a listed character, other than its first. *)
Ltac later_byte i :=
  let Hb := fresh in
  intros [= <- <-] ? Hb; destruct i as [|[|[|[|i]]]]; simplify_eq/=; try lia; try done;
  by rewrite ?lookup_nil in Hb.

(** The bytes of one character after its first continue it. *)
Lemma char_tail_continues bytes c rest i b :
  decode1 bytes = Char c rest → 0 < i → c !! i = Some b → continues b = true.
Proof.
  assert (∀ lo hi b, (0x80 <= lo)%N → (hi <= 0xBF)%N → within lo hi b = true →
    continues b = true) as Hrange.
  { intros lo hi x Hlo Hhi. unfold continues, within. rewrite !andb_true_iff, !N.leb_le. lia. }
  assert (∀ b0 w lo hi, lead b0 = Some (w, lo, hi) → (0x80 <= lo)%N ∧ (hi <= 0xBF)%N) as Hlead.
  { intros b0 w lo hi. unfold lead. repeat case_match; intros; simplify_eq; lia. }
  unfold decode1. destruct bytes as [|b0 r0]; [done|].
  destruct (b0 <? 0x80)%N; [later_byte i|].
  destruct (lead b0) as [[[w lo] hi]|] eqn:Hl; [|done]. apply Hlead in Hl as [Hlo Hhi].
  destruct r0 as [|b1 r1]; [done|]. destruct (within lo hi b1) eqn:H1; [|done]. simpl.
  pose proof (Hrange _ _ _ Hlo Hhi H1) as Hb1.
  destruct (bool_decide (w = 2)); [later_byte i|].
  destruct r1 as [|b2 r2]; [done|]. destruct (continues b2) eqn:H2; [|done]. simpl.
  destruct (bool_decide (w = 3)); [later_byte i|].
  destruct r2 as [|b3 r3]; [done|]. destruct (continues b3) eqn:H3; [|done]. simpl.
  later_byte i.
Qed.

(** Cutting a valid text at a boundary leaves a valid text. *)
Lemma valid_take text : ∀ n,
  valid text → n ≤ length text → is_char_boundary text n = true → valid (take n text).
Proof.
  induction text as [text IH] using (induction_ltof1 _ length). unfold ltof in IH.
  intros n Hval Hn Hb. destruct (decide (n = 0)) as [->|Hn0]; [by rewrite take_0|].
  unfold valid in Hval. rewrite scan_eq in Hval. destruct text as [|x text]; [by rewrite take_nil|].
  destruct (decode1 (x :: text)) as [c rest| |k] eqn:Hd; [|done..].
  pose proof (decode1_Char _ _ _ Hd) as [Htext Hc].
  destruct (scan rest) as [t stop] eqn:Hrest. injection Hval as Hct ->.
  assert (valid rest) as Hvr.
  { unfold valid. rewrite Hrest. f_equal. rewrite Htext in Hct. by apply app_inv_head in Hct. }
  destruct (decide (n < length c)) as [Hlt|Hge].
  - exfalso. destruct (lookup_lt_is_Some_2 c n Hlt) as [b Hcb].
    assert (0 < n) as Hn1 by lia. pose proof (char_tail_continues _ _ _ _ _ Hd Hn1 Hcb) as Hcont.
    unfold is_char_boundary in Hb. rewrite Htext, lookup_app_l, Hcb in Hb by done.
    rewrite Hcont, bool_decide_eq_false_2 in Hb by done. done.
  - rewrite Htext, take_app_ge by lia. apply valid_app.
    + unfold valid. rewrite scan_eq. destruct c as [|y c]; [simpl in Hc; lia|].
      rewrite Htext in Hd. pose proof (decode1_Char_self _ _ [] Hd) as Hself.
      rewrite app_nil_r in Hself. rewrite Hself. simpl. by rewrite app_nil_r.
    + rewrite Htext, length_app in Hn. apply IH; [rewrite Htext, length_app; lia|done|lia|].
      revert Hb. unfold is_char_boundary. rewrite Htext, lookup_app_r by lia.
      destruct (decide (n - length c = 0)) as [->|Hne].
      * intros _. destruct rest; simpl; by rewrite ?bool_decide_eq_true_2, ?orb_true_r by done.
      * destruct (rest !! (n - length c)) as [b|] eqn:Hlk.
        -- rewrite !bool_decide_eq_false_2 by lia. done.
        -- rewrite length_app. intros _. apply lookup_ge_None in Hlk.
           by rewrite bool_decide_eq_true_2 by lia.
Qed.

Lemma floor_loop_spec text n :
  floor_loop text n ≤ n ∧ is_char_boundary text (floor_loop text n) = true.
Proof.
  induction n as [|n IH]; cbn [floor_loop].
  - split; [lia|]. unfold is_char_boundary. destruct (text !! 0);
      by rewrite ?bool_decide_eq_true_2, ?orb_true_r by done.
  - destruct (is_char_boundary text (S n)) eqn:Hb; [done|]. destruct IH. split; [lia|done].
Qed.

(** A clamped text is still text: of a valid one, clamping keeps a valid prefix
    of at most the limit, and what it appends names exactly the bytes it dropped;
    a text within the limit is unchanged. *)
Theorem clamp_keeps_whole_characters text limit :
  valid text →
  (length text ≤ limit → clamp text limit = text) ∧
  (limit < length text → ∃ kept, kept `prefix_of` text ∧ valid kept ∧ length kept ≤ limit ∧
     clamp text limit = kept ++ marker (length text - length kept)).
Proof.
  intros Hval. unfold clamp, floor_char_boundary. split; intros Hlen.
  - by rewrite (proj2 (Nat.leb_le _ _) Hlen).
  - rewrite (proj2 (Nat.leb_gt _ _) Hlen).
    destruct (floor_loop_spec text limit) as [Hle Hb].
    assert (length (take (floor_loop text limit) text) = floor_loop text limit) as Hlt
      by (rewrite length_take; lia).
    exists (take (floor_loop text limit) text). rewrite Hlt. split_and!; [apply prefix_take| |done|done].
    apply valid_take; [done|lia|done].
Qed.

(** A stored detail does not read back as it was.  Decoding clamps again, and
    the marker of the first clamping carries a clamped detail over the limit, so
    the marker decoded names the length of a marker instead of what was dropped. *)
Theorem error_detail_round_trip_fails :
  ∃ text, valid text ∧ ErrorDetail_from (ErrorDetail_into (ErrorDetail_new text)) ≠ ErrorDetail_new text
    ∧ clamp text MAX_ERROR_DETAIL_BYTES = take MAX_ERROR_DETAIL_BYTES text ++ marker 952
    ∧ clamp (clamp text MAX_ERROR_DETAIL_BYTES) MAX_ERROR_DETAIL_BYTES
      = take MAX_ERROR_DETAIL_BYTES text ++ marker 16.
Proof.
  exists (replicate 3000 120%N). split_and!; [by vm_compute|by vm_compute|by vm_compute|by vm_compute].
Qed.

Lemma clamp_keeps_whole_characters_witness :
  ∃ kept, length kept ≤ 2 ∧ clamp [97; 0xC3; 0xA9; 98]%N 2 = kept ++ marker 3.
Proof.
  destruct (clamp_keeps_whole_characters [97; 0xC3; 0xA9; 98]%N 2) as [_ Hlong]; [reflexivity|].
  destruct Hlong as (kept & Hpre & _ & Hlen & Hc); [simpl; lia|].
  exists kept. split; [done|]. rewrite Hc. destruct kept as [|x [|y [|]]]; simpl in *; try lia.
  - done.
  - done.
  - exfalso. by vm_compute in Hc.
Defined.
