(* ===== verification/Contract.v ===== *)
(** * The model-provider contract

    Models [src/crates/harkness-provider/src/contract]: the identities ([ids.rs]),
    the events a provider streams and the sink they go to ([event.rs]), the two
    error namespaces ([error.rs]), and the turn they are assembled into
    ([assemble/turn.rs]).  Text that arrives in pieces is its bytes, a [list N];
    names and identities are strings.  A [Duration] is its nanoseconds. *)

From stdpp Require Import base decidable countable list strings pretty.
From S2P Require Import Prelude Text.

(** ** Identities ([ids.rs]) *)

Definition MAX_PROVIDER_ID_BYTES : nat := 64.
Definition MAX_MODEL_ID_BYTES : nat := 256.
Definition MAX_TOOL_CALL_ID_BYTES : nat := 512.
Definition SYNTHESIZED_TOOL_CALL_ID_PREFIX : string := "harkness-synth-".

Inductive ContractError :=
| InvalidIdentifier (subject value reason : string)
| InvalidRequest (field reason : string).

Definition ContractError_KINDS : list string := ["invalid_identifier"; "invalid_request"].
Definition ContractError_kind (e : ContractError) : string :=
  match e with
  | InvalidIdentifier _ _ _ => "invalid_identifier"
  | InvalidRequest _ _ => "invalid_request"
  end.

(** The bytes of the snake-case grammar, by position. *)
Definition snake_byte (length index : nat) (byte : N) : bool :=
  (if (97 <=? byte) && (byte <=? 122) then true
   else if (48 <=? byte) && (byte <=? 57) then (0 <? index)%nat
   else if byte =? 95 then (0 <? index)%nat && (index + 1 <? length)%nat
   else false)%N.

(** [value.contains("__")] *)
Fixpoint has_double_underscore (bytes : list N) : bool :=
  match bytes with
  | a :: (b :: _) as rest => ((a =? 95) && (b =? 95))%N || has_double_underscore rest
  | _ => false
  end.

(** The grammar [ProviderId] and [ScenarioName] share. *)
Definition snake_case (limit : nat) (value : string) : bool :=
  let bytes := utf8_bytes value in
  negb (bool_decide (bytes = [])) && (length bytes <=? limit)
  && forallb (λ p, snake_byte (length bytes) p.1 p.2) (imap pair bytes)
  && negb (has_double_underscore bytes).

Record ProviderId := MkProviderId { ProviderId_str : string }.
Definition ProviderId_new (value : string) : result ContractError ProviderId :=
  if snake_case MAX_PROVIDER_ID_BYTES value then Ok (MkProviderId value)
  else Err (InvalidIdentifier "provider id" value
    "expected at most 64 lowercase snake-case characters starting with a letter").

(** [value.chars().any(char::is_control)]: U+0000 to U+001F and U+007F to U+009F,
    the latter past ASCII written [C2 80] to [C2 9F]. *)
Fixpoint any_control (bytes : list N) : bool :=
  match bytes with
  | [] => false
  | b :: rest =>
    ((b <? 32) || (b =? 127))%N
    || ((b =? 0xC2)%N && match rest with c :: _ => ((0x80 <=? c) && (c <=? 0x9F))%N | [] => false end)
    || any_control rest
  end.

(** [value.trim() != value]: the first or the last character is white space, which
    takes one to three bytes. *)
Definition padded (bytes : list N) : bool :=
  existsb (λ k, (k <=? length bytes)%nat
                && (is_blank_bytes (take k bytes) || is_blank_bytes (drop (length bytes - k) bytes)))
    [1; 2; 3].

Definition refuse_opaque_identifier (value : string) (limit : nat) : option string :=
  let bytes := utf8_bytes value in
  if bool_decide (bytes = []) then Some "it cannot be empty"
  else if limit <? length bytes then Some "it is longer than the bound its column can hold"
  else if any_control bytes then Some "it cannot contain a control character"
  else if padded bytes then Some "it cannot begin or end with whitespace"
  else None.

Record ModelId := MkModelId { ModelId_str : string }.
Definition ModelId_new (value : string) : result ContractError ModelId :=
  match refuse_opaque_identifier value MAX_MODEL_ID_BYTES with
  | Some reason => Err (InvalidIdentifier "model id" value reason)
  | None => Ok (MkModelId value)
  end.

Record ProviderToolCallId := MkProviderToolCallId { ProviderToolCallId_str : string }.
#[export] Instance ProviderToolCallId_eq_dec : EqDecision ProviderToolCallId.
Proof. solve_decision. Defined.
#[export] Instance ProviderToolCallId_countable : Countable ProviderToolCallId.
Proof.
  refine (inj_countable' ProviderToolCallId_str MkProviderToolCallId _). by intros [].
Defined.

Definition ProviderToolCallId_new (value : string) : result ContractError ProviderToolCallId :=
  match refuse_opaque_identifier value MAX_TOOL_CALL_ID_BYTES with
  | Some reason => Err (InvalidIdentifier "tool call id" value reason)
  | None => Ok (MkProviderToolCallId value)
  end.

Definition ProviderToolCallId_synthesized (counter : N) : ProviderToolCallId :=
  MkProviderToolCallId (SYNTHESIZED_TOOL_CALL_ID_PREFIX +:+ pretty counter).

(** ** Events ([event.rs]) *)

Inductive StopReason :=
| EndTurn | ToolUse | MaxOutput | Refusal | AbortedBySink
| Other (spelling : string).
#[export] Instance StopReason_eq_dec : EqDecision StopReason.
Proof. solve_decision. Defined.

Definition StopReason_SPELLINGS : list string :=
  ["end_turn"; "tool_use"; "max_output"; "refusal"; "aborted_by_sink"].
Definition StopReason_as_str (s : StopReason) : string :=
  match s with
  | EndTurn => "end_turn" | ToolUse => "tool_use" | MaxOutput => "max_output"
  | Refusal => "refusal" | AbortedBySink => "aborted_by_sink"
  | Other spelling => spelling
  end.

Record TokenUsage := MkTokenUsage {
  input_tokens : option N;
  output_tokens : option N;
  exact_count : bool;
}.

(** [TokenUsage::absorb] *)
Definition usage_absorb (usage later : TokenUsage) : TokenUsage :=
  MkTokenUsage
    (if is_some (input_tokens later) then input_tokens later else input_tokens usage)
    (if is_some (output_tokens later) then output_tokens later else output_tokens usage)
    (exact_count usage && exact_count later).

Inductive ModelEvent :=
| TurnStarted (provider_request_id : option string)
| TextDelta (text : list N)
| ToolCallStarted (index : N) (id : option ProviderToolCallId) (name : option string)
| ToolCallArgumentsDelta (index : N) (fragment : list N)
| ToolCallReady (index : N)
| Usage (input output : option N) (exact : bool)
| TurnCompleted (stop : StopReason).

Definition ModelEvent_KINDS : list string :=
  ["turn_started"; "text_delta"; "tool_call_started"; "tool_call_arguments_delta";
   "tool_call_ready"; "usage"; "turn_completed"].
Definition ModelEvent_kind (e : ModelEvent) : string :=
  match e with
  | TurnStarted _ => "turn_started"
  | TextDelta _ => "text_delta"
  | ToolCallStarted _ _ _ => "tool_call_started"
  | ToolCallArgumentsDelta _ _ => "tool_call_arguments_delta"
  | ToolCallReady _ => "tool_call_ready"
  | Usage _ _ _ => "usage"
  | TurnCompleted _ => "turn_completed"
  end.

Inductive SinkControl := Continue | Stop.
#[export] Instance SinkControl_eq_dec : EqDecision SinkControl.
Proof. solve_decision. Defined.

(** [trait ModelEventSink]: what a sink answers an event with, and what it becomes. *)
Class ModelEventSink (S : Type) := sink_event : ModelEvent → S → SinkControl * S.

(** [DiscardEvents] *)
#[export] Instance DiscardEvents : ModelEventSink unit := λ _ s, (Continue, s).

Definition DEFAULT_RECORDED_EVENT_CAPACITY : nat := 4096.
Record RecordedEvents := MkRecordedEvents { re_events : list ModelEvent; re_capacity : nat }.
Definition RecordedEvents_with_capacity (capacity : nat) : RecordedEvents :=
  MkRecordedEvents [] capacity.
Definition is_full (r : RecordedEvents) : bool := re_capacity r <=? length (re_events r).
#[export] Instance RecordedEvents_sink : ModelEventSink RecordedEvents := λ event r,
  if is_full r then (Stop, r)
  else
    let r := MkRecordedEvents (re_events r ++ [event]) (re_capacity r) in
    (if is_full r then Stop else Continue, r).

(** ** What assembly produces ([assemble/turn.rs]) *)

Inductive IdProvenance := FromProvider | Synthesized.
#[export] Instance IdProvenance_eq_dec : EqDecision IdProvenance.
Proof. solve_decision. Defined.

Inductive ToolCallDefect :=
| UnparsableArguments (detail : ErrorDetail)
| MissingName
| Truncated.

Record AssemblyDiagnostics := MkAssemblyDiagnostics {
  ignored_after_completion : N;
  synthesized_ids : N;
  duplicate_ids : N;
}.
Definition AssemblyDiagnostics_default : AssemblyDiagnostics := MkAssemblyDiagnostics 0 0 0.
Definition diagnostics_is_clean (d : AssemblyDiagnostics) : bool :=
  ((ignored_after_completion d =? 0) && (synthesized_ids d =? 0) && (duplicate_ids d =? 0))%N.

Section turn.
Context `{Platform}.

Inductive AssembledToolCall :=
| Ready (index : N) (id : ProviderToolCallId) (id_provenance : IdProvenance)
    (duplicate_of : option ProviderToolCallId) (name : string) (arguments : Value)
| Invalid (index : N) (id : ProviderToolCallId) (id_provenance : IdProvenance)
    (duplicate_of : option ProviderToolCallId) (name : option string)
    (raw_arguments : list N) (defect : ToolCallDefect).

Definition atc_index (c : AssembledToolCall) : N :=
  match c with Ready index _ _ _ _ _ => index | Invalid index _ _ _ _ _ _ => index end.
Definition atc_id (c : AssembledToolCall) : ProviderToolCallId :=
  match c with Ready _ id _ _ _ _ => id | Invalid _ id _ _ _ _ _ => id end.
Definition atc_id_provenance (c : AssembledToolCall) : IdProvenance :=
  match c with Ready _ _ p _ _ _ => p | Invalid _ _ p _ _ _ _ => p end.
Definition atc_duplicate_of (c : AssembledToolCall) : option ProviderToolCallId :=
  match c with Ready _ _ _ d _ _ => d | Invalid _ _ _ d _ _ _ => d end.
Definition atc_name (c : AssembledToolCall) : option string :=
  match c with Ready _ _ _ _ name _ => Some name | Invalid _ _ _ _ name _ _ => name end.
Definition atc_arguments (c : AssembledToolCall) : option Value :=
  match c with Ready _ _ _ _ _ arguments => Some arguments | Invalid _ _ _ _ _ _ _ => None end.
Definition is_ready (c : AssembledToolCall) : bool :=
  match c with Ready _ _ _ _ _ _ => true | Invalid _ _ _ _ _ _ _ => false end.
Definition atc_defect (c : AssembledToolCall) : option ToolCallDefect :=
  match c with Ready _ _ _ _ _ _ => None | Invalid _ _ _ _ _ _ defect => Some defect end.

Record AssistantTurn := MkAssistantTurn {
  turn_text : list N;
  turn_tool_calls : list AssembledToolCall;
  turn_usage : option TokenUsage;
  turn_stop : option StopReason;
}.
Definition ready_calls (t : AssistantTurn) : list AssembledToolCall :=
  filter is_ready (turn_tool_calls t).
Definition invalid_calls (t : AssistantTurn) : list AssembledToolCall :=
  filter (λ c, negb (is_ready c)) (turn_tool_calls t).

Record TurnOutcome := MkTurnOutcome {
  to_turn : AssistantTurn;
  to_stop : StopReason;
  to_usage : option TokenUsage;
  to_provider_request_id : option string;
  to_elapsed : N;
  to_first_event_latency : option N;
  to_event_count : N;
  to_diagnostics : AssemblyDiagnostics;
}.

(** ** Failures ([error.rs]) *)

Inductive ProviderError :=
| EndpointUnreachable (detail : ErrorDetail)
| AuthenticationFailed (detail : ErrorDetail)
| RateLimited (retry_after : option N) (detail : ErrorDetail)
| ContextOverflow (detail : ErrorDetail)
| ProviderTimeout (detail : ErrorDetail)
| Disconnected (detail : ErrorDetail) (partial : option AssistantTurn)
| MalformedResponse (detail : ErrorDetail)
| UnsupportedCapability (capability : ErrorDetail)
| EmptyResponse
| Cancelled.

Definition ProviderError_KINDS : list string :=
  ["endpoint_unreachable"; "authentication_failed"; "rate_limited"; "context_overflow";
   "provider_timeout"; "disconnected"; "malformed_response"; "unsupported_capability";
   "empty_response"; "cancelled"].
Definition ProviderError_kind (e : ProviderError) : string :=
  match e with
  | EndpointUnreachable _ => "endpoint_unreachable"
  | AuthenticationFailed _ => "authentication_failed"
  | RateLimited _ _ => "rate_limited"
  | ContextOverflow _ => "context_overflow"
  | ProviderTimeout _ => "provider_timeout"
  | Disconnected _ _ => "disconnected"
  | MalformedResponse _ => "malformed_response"
  | UnsupportedCapability _ => "unsupported_capability"
  | EmptyResponse => "empty_response"
  | Cancelled => "cancelled"
  end.

Inductive RetryHint := After (delay : N) | Immediate | Never | Unknown.
Definition retry_hint (e : ProviderError) : RetryHint :=
  match e with
  | RateLimited (Some after) _ => After after
  | Disconnected _ _ | EmptyResponse | MalformedResponse _ => Immediate
  | AuthenticationFailed _ | ContextOverflow _ | UnsupportedCapability _ | Cancelled => Never
  | EndpointUnreachable _ | ProviderTimeout _ | RateLimited None _ => Unknown
  end.

Definition detailed (detail : string) : ErrorDetail := ErrorDetail_new (utf8_bytes detail).
Definition endpoint_unreachable (detail : string) : ProviderError :=
  EndpointUnreachable (detailed detail).
Definition authentication_failed (detail : string) : ProviderError :=
  AuthenticationFailed (detailed detail).
Definition rate_limited (retry_after : option N) (detail : string) : ProviderError :=
  RateLimited retry_after (detailed detail).
Definition context_overflow (detail : string) : ProviderError :=
  ContextOverflow (detailed detail).
Definition provider_timeout (detail : string) : ProviderError :=
  ProviderTimeout (detailed detail).
Definition disconnected (detail : string) : ProviderError :=
  Disconnected (detailed detail) None.
Definition malformed_response (detail : string) : ProviderError :=
  MalformedResponse (detailed detail).
Definition unsupported_capability (capability : string) : ProviderError :=
  UnsupportedCapability (detailed capability).

Definition partial_turn (e : ProviderError) : option AssistantTurn :=
  match e with Disconnected _ partial => partial | _ => None end.
End turn.
