(* ===== verification/Utf8.v ===== *)
(** * Text that is never handed over in halves

    Models [src/crates/harkness-provider/src/assemble/utf8.rs], the accumulator a
    provider's response is decoded through. *)

From stdpp Require Import base list strings pretty.
From S2P Require Import Prelude Text Contract.

Section accumulator.
Context `{Platform}.

(** ** [Utf8Accumulator] *)

Definition MAX_PENDING_UTF8_BYTES : nat := 3.

Record Utf8Accumulator := MkUtf8Accumulator { u_pending : list N; u_poisoned : bool }.

Definition Utf8Accumulator_new : Utf8Accumulator := MkUtf8Accumulator [] false.

Definition poisoned : ProviderError :=
  malformed_response
    "the stream carried bytes that are not UTF-8, and it is not resynchronized".

Definition push (bytes : list N) : stateM Utf8Accumulator ProviderError (list N) :=
  s ← get;
  if u_poisoned s then lift (Err poisoned)
  else
    let pending := u_pending s ++ bytes in
    match from_utf8 pending with
    | Ok text => modify (λ _, MkUtf8Accumulator [] false);; mret text
    | Err error =>
      match error_len error with
      | None =>
        let boundary := valid_up_to error in
        modify (λ _, MkUtf8Accumulator (drop boundary pending) false);;
        mret (take boundary pending)
      | Some _ =>
        modify (λ _, MkUtf8Accumulator [] true);;
        lift (Err (malformed_response
          ("the provider sent bytes that are not UTF-8 at offset " +:+ pretty (valid_up_to error))))
      end
    end.

Definition pending (s : Utf8Accumulator) : nat := length (u_pending s).

Definition finish (s : Utf8Accumulator) : result ProviderError unit :=
  if u_poisoned s then Err poisoned
  else if bool_decide (u_pending s = []) then Ok tt
  else Err (malformed_response
    ("the stream ended with " +:+ pretty (length (u_pending s)) +:+
     " bytes of an incomplete UTF-8 character")).

(** ** The accumulator *)

(** What a healthy accumulator holds: nothing, or the start of a character. *)
Definition holding (s : Utf8Accumulator) : Prop :=
  u_poisoned s = false ∧ (u_pending s = [] ∨ decode1 (u_pending s) = CutOff).
Definition given_up : Utf8Accumulator := MkUtf8Accumulator [] true.

(** [push], by what the scan of everything held says. *)
Lemma push_eq bytes s :
  u_poisoned s = false →
  push bytes s =
  match scan (u_pending s ++ bytes) with
  | (text, Whole) => (Ok text, Utf8Accumulator_new)
  | (text, Cut tail) => (Ok text, MkUtf8Accumulator tail false)
  | (text, Broken n) =>
    (Err (malformed_response
       ("the provider sent bytes that are not UTF-8 at offset " +:+ pretty (length text))), given_up)
  end.
Proof.
  intros Hp. unfold push, get, modify, lift, mbind, stateM_bind, mret, stateM_ret, from_utf8.
  rewrite Hp. pose proof (scan_spec (u_pending s ++ bytes)) as [_ Hstop].
  destruct (scan (u_pending s ++ bytes)) as [text [|tail|n]]; simpl in *; [done| |done].
  destruct Hstop as (-> & _ & _). by rewrite take_app_length, drop_app_length.
Qed.

Fixpoint pushes (chunks : list (list N)) : stateM Utf8Accumulator ProviderError (list N) :=
  match chunks with
  | [] => mret []
  | chunk :: rest => text ← push chunk; more ← pushes rest; mret (text ++ more)
  end.

Lemma push_holding bytes s text s' :
  holding s → push bytes s = (Ok text, s') →
  holding s' ∧ valid text ∧ u_pending s ++ bytes = text ++ u_pending s'.
Proof.
  intros [Hp _]. rewrite push_eq by done. unfold holding, valid.
  pose proof (scan_spec (u_pending s ++ bytes)) as [Hval Hstop].
  destruct (scan (u_pending s ++ bytes)) as [t [|tail|n]]; simpl in *; [| |done]; intros [= <- <-].
  - simpl. split_and!; [done|by left|done|by rewrite app_nil_r].
  - simpl. destruct Hstop as (? & ? & ?). split_and!; [done|by right|done|done].
Qed.

Lemma pushes_stream chunks :
  let stream := concat chunks in
  match scan stream, pushes chunks Utf8Accumulator_new with
  | (text, Whole), (r, s) => r = Ok stream ∧ text = stream ∧ finish s = Ok tt
  | (text, Cut tail), (r, s) =>
    r = Ok text ∧ stream = text ++ tail ∧ u_pending s = tail ∧ is_ok (finish s) = false
  | (_, Broken _), (r, s) => is_ok r = false ∧ s = given_up
  end.
Proof.
  assert (∀ s, holding s →
    match scan (u_pending s ++ concat chunks), pushes chunks s with
    | (text, Whole), (r, s') => r = Ok text ∧ s' = Utf8Accumulator_new
    | (text, Cut tail), (r, s') => r = Ok text ∧ s' = MkUtf8Accumulator tail false
    | (_, Broken _), (r, s') => is_ok r = false ∧ s' = given_up
    end) as Hgen.
  { induction chunks as [|chunk chunks IH]; intros s Hs; simpl.
    - rewrite app_nil_r. destruct Hs as [Hp [Hz|Hcut]].
      + rewrite Hz. simpl. split; [done|]. by destruct s; simpl in *; subst.
      + destruct (u_pending s) as [|b l] eqn:Hpend.
        * split; [done|]. by destruct s; simpl in *; subst.
        * rewrite scan_tail by done. split; [done|]. by destruct s; simpl in *; subst.
    - rewrite app_assoc. unfold mbind, stateM_bind, mret, stateM_ret.
      destruct (push chunk s) as [[text|e] s1] eqn:Hpush.
      + destruct (push_holding _ _ _ _ Hs Hpush) as (Hs1 & Hval & ->).
        rewrite <-app_assoc, scan_app, Hval. simpl. specialize (IH _ Hs1).
        destruct (scan (u_pending s1 ++ concat chunks)) as [t [|tail|n]];
          destruct (pushes chunks s1) as [[r|e] s2]; destruct IH as [Hr ->]; by simplify_eq/=.
      + destruct Hs as [Hp _]. rewrite push_eq in Hpush by done.
        rewrite scan_app. destruct (scan (u_pending s ++ chunk)) as [t [|tail|n]]; simplify_eq/=.
        done. }
  specialize (Hgen Utf8Accumulator_new (conj eq_refl (or_introl eq_refl))). simpl in Hgen.
  cbv zeta. pose proof (scan_spec (concat chunks)) as [_ Hstop].
  destruct (scan (concat chunks)) as [t [|tail|n]]; simpl in *;
    destruct (pushes chunks Utf8Accumulator_new) as [r s]; destruct Hgen as [-> ->]; [| |done].
  - by rewrite <-Hstop.
  - destruct Hstop as (-> & Hne & _). split_and!; try done. unfold finish. simpl.
    by rewrite bool_decide_eq_false_2.
Qed.

(** Text comes out whole, however the stream is cut.  Pushed chunk by chunk, a
    stream releases exactly its leading characters; it ends well just when it is
    valid UTF-8; a character still incomplete is what is held, and is refused at the
    end; and a stream with bytes that start no character is refused before the end,
    with nothing held. *)
Theorem pushes_ignore_chunking chunks :
  let stream := concat chunks in
  match scan stream, pushes chunks Utf8Accumulator_new with
  | (text, Whole), (r, s) => r = Ok stream ∧ text = stream ∧ finish s = Ok tt
  | (text, Cut tail), (r, s) =>
    r = Ok text ∧ stream = text ++ tail ∧ u_pending s = tail ∧ is_ok (finish s) = false
  | (_, Broken _), (r, s) => is_ok r = false ∧ s = given_up
  end.
Proof. apply pushes_stream. Qed.

(** Everything an accumulator can come to. *)
Definition accumulator_wf (s : Utf8Accumulator) : Prop := holding s ∨ s = given_up.

Lemma push_wf bytes s : accumulator_wf s → accumulator_wf (push bytes s).2.
Proof.
  intros [Hs| ->]; [|by right]. destruct (push bytes s) as [[t|e] s'] eqn:Hpush; simpl.
  - left. by eapply push_holding.
  - destruct Hs as [Hp _]. rewrite push_eq in Hpush by done. right.
    by destruct (scan _) as [? []]; simplify_eq.
Qed.

(** From any state pushing can reach, the accumulator holds at most three bytes,
    what a push releases is valid UTF-8 in itself, and once it has refused a stream
    it holds nothing and refuses everything after, and the end. *)
Theorem accumulator_bounded chunks bytes :
  let s := (pushes chunks Utf8Accumulator_new).2 in
  pending s ≤ MAX_PENDING_UTF8_BYTES ∧
  (∀ text s', push bytes s = (Ok text, s') → valid text) ∧
  (∀ e s', push bytes s = (Err e, s') →
     pending s' = 0 ∧ is_ok (finish s') = false ∧ ∀ more, push more s' = (Err poisoned, s')).
Proof.
  assert (∀ s, accumulator_wf s → accumulator_wf (pushes chunks s).2) as Hwf.
  { induction chunks as [|chunk chunks IH]; intros s Hs; [done|]. simpl.
    unfold mbind, stateM_bind, mret, stateM_ret. pose proof (push_wf chunk s Hs) as H1.
    destruct (push chunk s) as [[t|e] s1]; [|done]. specialize (IH _ H1). simpl in IH.
    destruct (pushes chunks s1) as [[r|e] s2]; exact IH. }
  specialize (Hwf Utf8Accumulator_new (or_introl (conj eq_refl (or_introl eq_refl)))).
  cbv zeta. set (s := (pushes chunks Utf8Accumulator_new).2) in *. split_and!.
  - unfold pending. destruct Hwf as [[_ [->|Hcut]]|Hgiven]; [simpl; lia| |rewrite Hgiven; simpl; lia].
    by apply decode1_CutOff.
  - intros text s' Hpush. destruct Hwf as [Hs|Hgiven]; [by eapply push_holding|].
    rewrite Hgiven in Hpush. unfold push, get, lift, mbind, stateM_bind in Hpush. done.
  - intros e s' Hpush. pose proof (push_wf bytes s Hwf) as Hwf'. rewrite Hpush in Hwf'. simpl in Hwf'.
    assert (s' = given_up) as ->; [|done]. destruct Hwf as [[Hp _]|Hgiven].
    + rewrite push_eq in Hpush by done. by destruct (scan _) as [? []]; simplify_eq.
    + rewrite Hgiven in Hpush. unfold push, get, lift, mbind, stateM_bind in Hpush. by simplify_eq/=.
Qed.
End accumulator.
