(* ===== verification/Assembler.v ===== *)
(** * One assistant turn from a stream of events

    Models [src/crates/harkness-provider/src/assemble/assembler.rs]: the state
    machine that reads a provider's events into one turn, with its bounds and the
    defects it surfaces.  The turn's clock is not part of the state: what it reads
    when an operation looks at it is an argument.  [serde_json::from_str] is a
    parameter. *)

From Stdlib Require Import Sorted.
From stdpp Require Import base decidable gmap list strings pretty.
From S2P Require Import Prelude Text Contract Btree.

Definition MAX_TOOL_CALL_ARGUMENT_BYTES : nat := N.to_nat (1024 * 1024).
Definition MAX_TURN_TEXT_BYTES : nat := N.to_nat (8 * 1024 * 1024).
Definition MAX_TOOL_CALLS_PER_TURN : nat := 256.

Record AssemblyLimits := MkAssemblyLimits {
  max_tool_call_argument_bytes : nat;
  max_turn_text_bytes : nat;
  max_tool_calls : nat;
}.
Definition AssemblyLimits_default : AssemblyLimits :=
  MkAssemblyLimits MAX_TOOL_CALL_ARGUMENT_BYTES MAX_TURN_TEXT_BYTES MAX_TOOL_CALLS_PER_TURN.

Inductive Absorbed := Recorded | IgnoredAfterCompletion.
#[export] Instance Absorbed_eq_dec : EqDecision Absorbed.
Proof. solve_decision. Defined.

Record OpenCall := MkOpenCall {
  oc_index : N;
  oc_id : ProviderToolCallId;
  oc_id_provenance : IdProvenance;
  oc_duplicate_of : option ProviderToolCallId;
  oc_name : option string;
  oc_raw_arguments : list N;
}.
Definition push_arguments (fragment : list N) (c : OpenCall) : OpenCall :=
  MkOpenCall (oc_index c) (oc_id c) (oc_id_provenance c) (oc_duplicate_of c) (oc_name c)
    (oc_raw_arguments c ++ fragment).

(** [serde_json::from_str::<Value>], the error carrying its display text, and
    [Value::Object(Map::new())] *)
Class Json `{Platform} := {
  from_str : list N → result string Value;
  empty_object : Value;
}.

Section assembler.
Context `{Json}.

Inductive CallSlot := Open (call : OpenCall) | Finalized (call : AssembledToolCall).

Record TurnAssembler := MkTurnAssembler {
  ta_limits : AssemblyLimits;
  ta_started : bool;
  ta_completed : bool;
  ta_text : list N;
  ta_calls : BTreeMap N CallSlot;
  ta_seen_ids : gset ProviderToolCallId;
  ta_synthesized : N;
  ta_usage : option TokenUsage;
  ta_stop : option StopReason;
  ta_provider_request_id : option string;
  ta_diagnostics : AssemblyDiagnostics;
  ta_event_count : N;
  ta_first_event_latency : option N;
}.

(** [TurnAssembler::with_clock], then [with_limits] *)
Definition TurnAssembler_new (limits : AssemblyLimits) : TurnAssembler :=
  MkTurnAssembler limits false false [] [] ∅ 0 None None None AssemblyDiagnostics_default 0 None.

(** *** Field assignments *)

Definition count_event (now : N) (s : TurnAssembler) : TurnAssembler :=
  MkTurnAssembler (ta_limits s) (ta_started s) (ta_completed s) (ta_text s) (ta_calls s)
    (ta_seen_ids s) (ta_synthesized s) (ta_usage s) (ta_stop s) (ta_provider_request_id s)
    (ta_diagnostics s) (saturating_add_u32 (ta_event_count s) 1)
    (if is_none (ta_first_event_latency s) then Some now else ta_first_event_latency s).
Definition set_started (id : option string) (s : TurnAssembler) : TurnAssembler :=
  MkTurnAssembler (ta_limits s) true (ta_completed s) (ta_text s) (ta_calls s)
    (ta_seen_ids s) (ta_synthesized s) (ta_usage s) (ta_stop s) id
    (ta_diagnostics s) (ta_event_count s) (ta_first_event_latency s).
Definition set_text (text : list N) (s : TurnAssembler) : TurnAssembler :=
  MkTurnAssembler (ta_limits s) (ta_started s) (ta_completed s) text (ta_calls s)
    (ta_seen_ids s) (ta_synthesized s) (ta_usage s) (ta_stop s) (ta_provider_request_id s)
    (ta_diagnostics s) (ta_event_count s) (ta_first_event_latency s).
Definition set_calls (calls : BTreeMap N CallSlot) (s : TurnAssembler) : TurnAssembler :=
  MkTurnAssembler (ta_limits s) (ta_started s) (ta_completed s) (ta_text s) calls
    (ta_seen_ids s) (ta_synthesized s) (ta_usage s) (ta_stop s) (ta_provider_request_id s)
    (ta_diagnostics s) (ta_event_count s) (ta_first_event_latency s).
Definition set_ids (seen : gset ProviderToolCallId) (synthesized : N) (s : TurnAssembler)
    : TurnAssembler :=
  MkTurnAssembler (ta_limits s) (ta_started s) (ta_completed s) (ta_text s) (ta_calls s)
    seen synthesized (ta_usage s) (ta_stop s) (ta_provider_request_id s)
    (ta_diagnostics s) (ta_event_count s) (ta_first_event_latency s).
Definition set_usage (usage : option TokenUsage) (s : TurnAssembler) : TurnAssembler :=
  MkTurnAssembler (ta_limits s) (ta_started s) (ta_completed s) (ta_text s) (ta_calls s)
    (ta_seen_ids s) (ta_synthesized s) usage (ta_stop s) (ta_provider_request_id s)
    (ta_diagnostics s) (ta_event_count s) (ta_first_event_latency s).
Definition set_completed (stop : StopReason) (s : TurnAssembler) : TurnAssembler :=
  MkTurnAssembler (ta_limits s) (ta_started s) true (ta_text s) (ta_calls s)
    (ta_seen_ids s) (ta_synthesized s) (ta_usage s) (Some stop) (ta_provider_request_id s)
    (ta_diagnostics s) (ta_event_count s) (ta_first_event_latency s).
Definition set_diagnostics (d : AssemblyDiagnostics) (s : TurnAssembler) : TurnAssembler :=
  MkTurnAssembler (ta_limits s) (ta_started s) (ta_completed s) (ta_text s) (ta_calls s)
    (ta_seen_ids s) (ta_synthesized s) (ta_usage s) (ta_stop s) (ta_provider_request_id s)
    d (ta_event_count s) (ta_first_event_latency s).

Definition bump_ignored (d : AssemblyDiagnostics) : AssemblyDiagnostics :=
  MkAssemblyDiagnostics (saturating_add_u32 (ignored_after_completion d) 1)
    (synthesized_ids d) (duplicate_ids d).
Definition bump_synthesized (d : AssemblyDiagnostics) : AssemblyDiagnostics :=
  MkAssemblyDiagnostics (ignored_after_completion d)
    (saturating_add_u32 (synthesized_ids d) 1) (duplicate_ids d).
Definition bump_duplicate (d : AssemblyDiagnostics) : AssemblyDiagnostics :=
  MkAssemblyDiagnostics (ignored_after_completion d) (synthesized_ids d)
    (saturating_add_u32 (duplicate_ids d) 1).

(** ** Closing a call *)

Definition finalize (call : OpenCall) (truncated : bool) : AssembledToolCall :=
  let '(MkOpenCall index id id_provenance duplicate_of name raw_arguments) := call in
  if truncated
  then Invalid index id id_provenance duplicate_of name raw_arguments Truncated
  else match name with
  | None => Invalid index id id_provenance duplicate_of None raw_arguments MissingName
  | Some named =>
    let parsed :=
      if is_blank_bytes raw_arguments then Ok empty_object else from_str raw_arguments in
    match parsed with
    | Ok arguments => Ready index id id_provenance duplicate_of named arguments
    | Err error =>
      Invalid index id id_provenance duplicate_of (Some named) raw_arguments
        (UnparsableArguments (ErrorDetail_new (utf8_bytes error)))
    end
  end.

Definition is_open (slot : CallSlot) : bool :=
  match slot with Open _ => true | Finalized _ => false end.

(** The loop of [finalize_open_calls], over the indices collected first. *)
Definition finalize_index (truncated : bool) (calls : BTreeMap N CallSlot) (index : N)
    : BTreeMap N CallSlot :=
  let removed := bt_remove index calls in
  match bt_get index calls with
  | Some (Open call) => bt_insert index (Finalized (finalize call truncated)) removed
  | _ => removed
  end.
Definition finalize_open_calls (truncated : bool) (s : TurnAssembler) : TurnAssembler :=
  let open := (filter (λ e, is_open e.2) (ta_calls s)).*1 in
  set_calls (foldl (finalize_index truncated) (ta_calls s) open) s.

(** ** Reading an event *)

(** The identity of a call: the provider's, or the next synthesized one. *)
Definition name_call (id : option ProviderToolCallId)
    : stateM TurnAssembler ProviderError (ProviderToolCallId * IdProvenance) :=
  match id with
  | Some id => mret (id, FromProvider)
  | None =>
    modify (λ s, set_ids (ta_seen_ids s) (saturating_add_u32 (ta_synthesized s) 1) s);;
    modify (λ s, set_diagnostics (bump_synthesized (ta_diagnostics s)) s);;
    s ← get;
    mret (ProviderToolCallId_synthesized (ta_synthesized s), Synthesized)
  end.

(** [BTreeSet::insert] and what a repeated identity is recorded as. *)
Definition note_id (id : ProviderToolCallId)
    : stateM TurnAssembler ProviderError (option ProviderToolCallId) :=
  s ← get;
  if decide (id ∈ ta_seen_ids s)
  then modify (λ s, set_diagnostics (bump_duplicate (ta_diagnostics s)) s);; mret (Some id)
  else modify (λ s, set_ids ({[id]} ∪ ta_seen_ids s) (ta_synthesized s) s);; mret None.

Definition start_call (index : N) (id : option ProviderToolCallId) (name : option string)
    : stateM TurnAssembler ProviderError unit :=
  s ← get;
  if is_some (bt_get index (ta_calls s))
  then lift (Err (malformed_response
    ("the provider started a second tool call at index " +:+ pretty index)))
  else if max_tool_calls (ta_limits s) <=? length (ta_calls s)
  then lift (Err (malformed_response
    ("the turn exceeds the " +:+ pretty (max_tool_calls (ta_limits s)) +:+ " tool call cap")))
  else
    named ← name_call id;
    duplicate_of ← note_id named.1;
    modify (λ s, set_calls
      (bt_insert index (Open (MkOpenCall index named.1 named.2 duplicate_of name [])) (ta_calls s)) s).

Definition extend_call (index : N) (fragment : list N)
    : stateM TurnAssembler ProviderError unit :=
  s ← get;
  let limit := max_tool_call_argument_bytes (ta_limits s) in
  match bt_get index (ta_calls s) with
  | Some (Open call) =>
    if limit <? length (oc_raw_arguments call) + length fragment
    then lift (Err (malformed_response
      ("tool call " +:+ pretty index +:+ " exceeds the " +:+ pretty limit +:+ " byte argument cap")))
    else modify (λ s, set_calls
      (bt_insert index (Open (push_arguments fragment call)) (ta_calls s)) s)
  | Some (Finalized _) => lift (Err (malformed_response
      ("the provider sent arguments for tool call " +:+ pretty index +:+ " after it was ready")))
  | None => lift (Err (malformed_response
      ("the provider sent arguments for tool call " +:+ pretty index
       +:+ ", which no call started")))
  end.

Definition ready_call (index : N) : stateM TurnAssembler ProviderError unit :=
  s ← get;
  let slot := bt_get index (ta_calls s) in
  modify (λ s, set_calls (bt_remove index (ta_calls s)) s);;
  match slot with
  | Some (Open call) =>
    modify (λ s, set_calls (bt_insert index (Finalized (finalize call false)) (ta_calls s)) s)
  | Some (Finalized call) =>
    modify (λ s, set_calls (bt_insert index (Finalized call) (ta_calls s)) s);;
    lift (Err (malformed_response
      ("the provider readied tool call " +:+ pretty index +:+ " twice")))
  | None => lift (Err (malformed_response
      ("the provider readied tool call " +:+ pretty index +:+ ", which no call started")))
  end.

(** The arms of [observe]'s match. *)
Definition absorb_event (event : ModelEvent) : stateM TurnAssembler ProviderError unit :=
  match event with
  | TurnStarted provider_request_id =>
    s ← get;
    if ta_started s
    then lift (Err (malformed_response "the provider started one turn twice"))
    else modify (set_started provider_request_id)
  | TextDelta text =>
    s ← get;
    if max_turn_text_bytes (ta_limits s) <? length (ta_text s) + length text
    then lift (Err (malformed_response
      ("the turn's text exceeds the " +:+ pretty (max_turn_text_bytes (ta_limits s))
       +:+ " byte cap")))
    else modify (λ s, set_text (ta_text s ++ text) s)
  | ToolCallStarted index id name => start_call index id name
  | ToolCallArgumentsDelta index fragment => extend_call index fragment
  | ToolCallReady index => ready_call index
  | Usage input output exact =>
    let reported := MkTokenUsage input output exact in
    modify (λ s, set_usage
      (Some match ta_usage s with
            | Some usage => usage_absorb usage reported
            | None => reported
            end) s)
  | TurnCompleted stop =>
    modify (finalize_open_calls false);;
    modify (set_completed stop)
  end.

Definition observe (now : N) (event : ModelEvent) : stateM TurnAssembler ProviderError Absorbed :=
  modify (count_event now);;
  s ← get;
  if ta_completed s then
    modify (λ s, set_diagnostics (bump_ignored (ta_diagnostics s)) s);;
    mret IgnoredAfterCompletion
  else
    absorb_event event;;
    mret Recorded.

(** ** Ending a turn *)

Definition slot_call (truncated : bool) (slot : CallSlot) : AssembledToolCall :=
  match slot with Finalized call => call | Open call => finalize call truncated end.

Definition take_turn (truncated : bool) (s : TurnAssembler) : AssistantTurn :=
  let s := finalize_open_calls truncated s in
  MkAssistantTurn (ta_text s) (slot_call truncated <$> bt_values (ta_calls s))
    (ta_usage s) (ta_stop s).

Definition into_outcome (now : N) (stop : StopReason) (truncated : bool) (s : TurnAssembler)
    : TurnOutcome :=
  MkTurnOutcome (take_turn truncated s) stop (ta_usage s) (ta_provider_request_id s) now
    (ta_first_event_latency s) (ta_event_count s) (ta_diagnostics s).

Definition into_partial (s : TurnAssembler) : AssistantTurn := take_turn true s.

Definition abort_by_sink (now : N) (s : TurnAssembler) : TurnOutcome :=
  into_outcome now AbortedBySink true s.

Definition finish (now : N) (s : TurnAssembler) : result ProviderError TurnOutcome :=
  if ta_completed s then
    Ok (into_outcome now (default EndTurn (ta_stop s)) false s)
  else if (ta_event_count s =? 0)%N then Err EmptyResponse
  else Err (Disconnected (detailed "the stream ended before the turn completed")
              (Some (into_partial s))).
End assembler.

(** ** Reading whole streams *)

#[global] Arguments finalize : simpl never.
#[global] Arguments bt_get : simpl never.
#[global] Arguments bt_insert : simpl never.
#[global] Arguments bt_remove : simpl never.

Section streams.
Context `{Json}.

(** Events with the clock's reading at each, until one is refused. *)
Fixpoint observes (events : list (N * ModelEvent)) : stateM TurnAssembler ProviderError unit :=
  match events with
  | [] => mret tt
  | (now, event) :: rest => observe now event;; observes rest
  end.

(** *** What a stream says, read off its events alone *)

Definition is_completion (e : ModelEvent) : bool :=
  match e with TurnCompleted _ => true | _ => false end.
Definition is_start (e : ModelEvent) : bool :=
  match e with TurnStarted _ => true | _ => false end.

(** The events up to and including the first completion. *)
Fixpoint heard (events : list ModelEvent) : list ModelEvent :=
  match events with
  | [] => []
  | e :: rest => e :: if is_completion e then [] else heard rest
  end.

Definition text_of (events : list ModelEvent) : list N :=
  concat (omap (λ e, match e with TextDelta text => Some text | _ => None end) events).
Definition arguments_of (index : N) (events : list ModelEvent) : list N :=
  concat (omap (λ e, match e with
    | ToolCallArgumentsDelta i fragment => if decide (i = index) then Some fragment else None
    | _ => None end) events).
Definition readied (index : N) (events : list ModelEvent) : bool :=
  existsb (λ e, match e with ToolCallReady i => bool_decide (i = index) | _ => false end) events.
Definition usage_of (events : list ModelEvent) : option TokenUsage :=
  foldl (λ u e, match e with
    | Usage i o exact =>
      Some match u with
           | Some u => usage_absorb u (MkTokenUsage i o exact)
           | None => MkTokenUsage i o exact
           end
    | _ => u end) None events.
Definition stop_of (events : list ModelEvent) : option StopReason :=
  foldl (λ u e, match e with TurnCompleted stop => Some stop | _ => u end) None events.

(** The call a start introduces, after the calls [before] it in the turn: an unnamed
    call gets the next counter, and an identity seen before is marked, not merged. *)
Definition introduced (before : list OpenCall) (index : N) (id : option ProviderToolCallId)
    (name : option string) : OpenCall :=
  let unnamed := length (filter (λ c, oc_id_provenance c = Synthesized) before) in
  let '(id, provenance) := match id with
    | Some id => (id, FromProvider)
    | None => (ProviderToolCallId_synthesized (N.min (N.of_nat unnamed + 1) U32_MAX), Synthesized)
    end in
  MkOpenCall index id provenance
    (if decide (id ∈ oc_id <$> before) then Some id else None) name [].
Definition calls_of (events : list ModelEvent) : list OpenCall :=
  foldl (λ before e, match e with
    | ToolCallStarted index id name => before ++ [introduced before index id name]
    | _ => before end) [] events.

(** A call with everything that arrived for it. *)
Definition gathered (events : list ModelEvent) (c : OpenCall) : OpenCall :=
  push_arguments (arguments_of (oc_index c) events) c.
(** A turn that completed, or a call that was readied, is not truncated. *)
Definition closed_whole (events : list ModelEvent) (index : N) : bool :=
  readied index events || existsb is_completion events.

(** ** The map of calls *)

Lemma get_finalize_index t m i j : bt_sorted m →
  bt_sorted (finalize_index t m i) ∧
  (∀ c, bt_get i m = Some (Open c) →
    bt_get j (finalize_index t m i) =
      if decide (j = i) then Some (Finalized (finalize c t)) else bt_get j m).
Proof.
  intros Hm. unfold finalize_index. split.
  - destruct (bt_get i m) as [[c|c]|]; try apply bt_sorted_insert; by apply bt_sorted_remove.
  - intros c ->. case_decide as Hji; [subst; by rewrite bt_get_insert|].
    by rewrite bt_get_insert_ne, bt_get_remove_ne.
Qed.

Lemma get_finalize_indices t l : ∀ m, bt_sorted m → NoDup l →
  (∀ i, i ∈ l → ∃ c, bt_get i m = Some (Open c)) →
  bt_sorted (foldl (finalize_index t) m l) ∧
  ∀ j, bt_get j (foldl (finalize_index t) m l) =
    if decide (j ∈ l) then (λ slot, Finalized (slot_call t slot)) <$> bt_get j m else bt_get j m.
Proof.
  induction l as [|i l IH]; intros m Hm Hnd Hopen; cbn [foldl].
  - split; [done|]. intros j. case_decide as Hj; [by apply not_elem_of_nil in Hj|done].
  - apply NoDup_cons in Hnd as [Hni Hnd].
    destruct (Hopen i) as [c Hc]; [by left|].
    destruct (IH (finalize_index t m i)) as [Hs Hg]; [by apply get_finalize_index|done| |].
    + intros k Hk. destruct (Hopen k) as [ck Hck]; [by right|]. exists ck.
      rewrite (proj2 (get_finalize_index t m i k Hm) c Hc).
      rewrite decide_False; [done|]. by intros ->.
    + split; [done|]. intros j. rewrite Hg, (proj2 (get_finalize_index t m i j Hm) c Hc).
      destruct (decide (j = i)) as [->|Hne].
      * rewrite decide_False by done. rewrite decide_True by (by left). by rewrite Hc.
      * destruct (decide (j ∈ l)); [rewrite decide_True by (by right)|rewrite decide_False]; [done..|].
        rewrite elem_of_cons. naive_solver.
Qed.

Lemma open_indices (m : BTreeMap N CallSlot) : bt_sorted m →
  NoDup (filter (λ e, is_open e.2) m).*1 ∧
  ∀ i, i ∈ (filter (λ e, is_open e.2) m).*1 ↔ ∃ c, bt_get i m = Some (Open c).
Proof.
  intros Hm. split.
  - pose proof (bt_sorted_nodup m Hm) as Hnd. clear Hm. unfold bt_keys in Hnd.
    induction m as [|[k v] m IH]; [constructor|].
    cbn in Hnd. apply NoDup_cons in Hnd as [Hk Hnd]. rewrite filter_cons.
    case_decide; [|by apply IH]. cbn. constructor; [|by apply IH].
    intros (e & -> & He)%list_elem_of_fmap. apply Hk.
    apply list_elem_of_filter in He as [_ He]. apply list_elem_of_fmap. eauto.
  - intros i. rewrite list_elem_of_fmap. split.
    + intros ([k v] & -> & [Hopen Hin]%list_elem_of_filter). cbn in *.
      destruct v as [c|]; [|done]. exists c. by apply bt_get_elem.
    + intros [c Hc]. exists (i, Open c). split; [done|].
      apply list_elem_of_filter. split; [done|]. by apply bt_get_elem.
Qed.

(** Closing the open calls closes every slot and leaves the order. *)
Lemma get_finalize_open t s : bt_sorted (ta_calls s) →
  bt_sorted (ta_calls (finalize_open_calls t s)) ∧
  ∀ i, bt_get i (ta_calls (finalize_open_calls t s))
       = (λ slot, Finalized (slot_call t slot)) <$> bt_get i (ta_calls s).
Proof.
  intros Hm. unfold finalize_open_calls. cbn [ta_calls set_calls].
  destruct (open_indices (ta_calls s) Hm) as [Hnd Hin].
  destruct (get_finalize_indices t _ _ Hm Hnd) as [Hs Hg]; [intros i; apply Hin|].
  split; [done|]. intros i. rewrite Hg. case_decide as Hi; [done|].
  rewrite Hin in Hi. destruct (bt_get i (ta_calls s)) as [[c|c]|] eqn:Hgi; [|done|done].
  exfalso. apply Hi. by exists c.
Qed.

Lemma sorted_fmap {A B} (f : A → B) (m : BTreeMap N A) :
  bt_sorted m → bt_sorted (prod_map id f <$> m).
Proof.
  induction 1 as [|[k v] m Hs IH Hf]; cbn; constructor; [done|].
  apply list.Forall_fmap. eapply List.Forall_impl; [|exact Hf]. done.
Qed.

Lemma get_fmap {A B} (f : A → B) (m : BTreeMap N A) i :
  bt_get i (prod_map id f <$> m) = f <$> bt_get i m.
Proof.
  induction m as [|[k v] m IH]; [done|]. unfold bt_get in *. cbn. by repeat case_match.
Qed.

Lemma finalize_open_eq t s : bt_sorted (ta_calls s) →
  ta_calls (finalize_open_calls t s)
  = prod_map id (λ slot, Finalized (slot_call t slot)) <$> ta_calls s.
Proof.
  intros Hm. destruct (get_finalize_open t s Hm) as [Hs Hg].
  apply bt_ext; [done|by apply sorted_fmap|]. intros i. by rewrite Hg, get_fmap.
Qed.

Lemma take_turn_eq t s : bt_sorted (ta_calls s) →
  take_turn t s = MkAssistantTurn (ta_text s) (slot_call t <$> bt_values (ta_calls s))
                    (ta_usage s) (ta_stop s).
Proof.
  intros Hm. unfold take_turn. rewrite finalize_open_eq by done. f_equal.
  unfold bt_values. rewrite <-!list_fmap_compose. by apply list_fmap_ext.
Qed.

(** *** What a state has read *)

Definition slot_of (events : list ModelEvent) (c : OpenCall) : CallSlot :=
  if closed_whole events (oc_index c) then Finalized (finalize (gathered events c) false)
  else Open (gathered events c).

Record calls_read (events : list ModelEvent) (s : TurnAssembler) : Prop := {
  rd_sorted : bt_sorted (ta_calls s);
  rd_slots : ∀ i slot, bt_get i (ta_calls s) = Some slot ↔
    ∃ c, c ∈ calls_of events ∧ oc_index c = i ∧ slot_of events c = slot;
  rd_indices : NoDup (oc_index <$> calls_of events);
  rd_fresh : ∀ i, i ∉ oc_index <$> calls_of events →
    arguments_of i events = [] ∧ readied i events = false;
  rd_seen : ∀ id, id ∈ ta_seen_ids s ↔ id ∈ oc_id <$> calls_of events;
  rd_synthesized : ta_synthesized s =
    N.min (N.of_nat (length (filter (λ c, oc_id_provenance c = Synthesized) (calls_of events)))) U32_MAX;
}.

Record reads (events : list ModelEvent) (s : TurnAssembler) : Prop := {
  rd_calls : calls_read events s;
  rd_text : ta_text s = text_of events;
  rd_started : ta_started s = existsb is_start events;
  rd_completed : ta_completed s = existsb is_completion events;
  rd_usage : ta_usage s = usage_of events;
  rd_stop : ta_stop s = stop_of events;
}.

(** What one more event adds to the reference. *)
Lemma text_of_snoc es e :
  text_of (es ++ [e]) = text_of es ++ match e with TextDelta t => t | _ => [] end.
Proof. unfold text_of. rewrite omap_app, concat_app. destruct e; cbn; by rewrite ?app_nil_r. Qed.

Lemma arguments_of_snoc i es e :
  arguments_of i (es ++ [e]) = arguments_of i es ++
    match e with ToolCallArgumentsDelta j f => if decide (j = i) then f else [] | _ => [] end.
Proof.
  unfold arguments_of. rewrite omap_app, concat_app.
  destruct e; cbn; try by rewrite ?app_nil_r. case_decide; cbn; by rewrite ?app_nil_r.
Qed.

Lemma readied_snoc i es e :
  readied i (es ++ [e]) =
    readied i es || match e with ToolCallReady j => bool_decide (j = i) | _ => false end.
Proof. unfold readied. rewrite existsb_app. cbn. by rewrite orb_false_r. Qed.

Lemma calls_of_snoc es e :
  calls_of (es ++ [e]) =
    match e with
    | ToolCallStarted i id name => calls_of es ++ [introduced (calls_of es) i id name]
    | _ => calls_of es
    end.
Proof. unfold calls_of. by rewrite foldl_app. Qed.

Lemma existsb_snoc {A} (f : A → bool) l x : existsb f (l ++ [x]) = existsb f l || f x.
Proof. rewrite existsb_app. cbn. by rewrite orb_false_r. Qed.

Lemma slot_of_ext es es' c :
  arguments_of (oc_index c) es' = arguments_of (oc_index c) es →
  closed_whole es' (oc_index c) = closed_whole es (oc_index c) →
  slot_of es' c = slot_of es c.
Proof. unfold slot_of, gathered. by intros -> ->. Qed.

(** Events that are about no call leave what was read of the calls. *)
Definition about_calls (e : ModelEvent) : bool :=
  match e with TurnStarted _ | TextDelta _ | Usage _ _ _ => false | _ => true end.

Lemma calls_read_quiet es e s s' :
  about_calls e = false → calls_read es s →
  ta_calls s' = ta_calls s → ta_seen_ids s' = ta_seen_ids s →
  ta_synthesized s' = ta_synthesized s → calls_read (es ++ [e]) s'.
Proof.
  intros He [Hs Hsl Hi Hf Hse Hsy] Hc1 Hc2 Hc3.
  assert (calls_of (es ++ [e]) = calls_of es) as Hc by (rewrite calls_of_snoc; by destruct e).
  assert (∀ i, arguments_of i (es ++ [e]) = arguments_of i es) as Ha
    by (intros i; rewrite arguments_of_snoc; destruct e; by rewrite ?app_nil_r).
  assert (∀ i, readied i (es ++ [e]) = readied i es) as Hr
    by (intros i; rewrite readied_snoc; destruct e; by rewrite ?orb_false_r).
  assert (∀ c, slot_of (es ++ [e]) c = slot_of es c) as Hslot.
  { intros c. apply slot_of_ext; [apply Ha|]. unfold closed_whole.
    rewrite Hr, existsb_snoc. destruct e; by rewrite ?orb_false_r. }
  split; rewrite ?Hc, ?Hc1, ?Hc2, ?Hc3; try done.
  - intros i slot. rewrite Hsl. by setoid_rewrite Hslot.
  - intros i Hni. rewrite Ha, Hr. by apply Hf.
Qed.

Lemma get_none_index es s i : calls_read es s →
  bt_get i (ta_calls s) = None ↔ i ∉ oc_index <$> calls_of es.
Proof.
  intros Hr. rewrite list_elem_of_fmap. split.
  - intros Hn (c & -> & Hc). assert (bt_get (oc_index c) (ta_calls s) = Some (slot_of es c)) as Hs
      by (apply (rd_slots _ _ Hr); eauto). congruence.
  - intros Hni. destruct (bt_get i (ta_calls s)) as [slot|] eqn:Hg; [|done]. exfalso.
    apply (rd_slots _ _ Hr) in Hg as (c & Hc & <- & _). apply Hni. eauto.
Qed.

Lemma index_unique es s c c' : calls_read es s →
  c ∈ calls_of es → c' ∈ calls_of es → oc_index c = oc_index c' → c = c'.
Proof.
  intros Hr (k & Hk)%list_elem_of_lookup (k' & Hk')%list_elem_of_lookup Heq.
  assert (k = k') as <-; [|congruence].
  eapply (NoDup_lookup (oc_index <$> calls_of es) k k' (oc_index c)); [apply (rd_indices _ _ Hr)| |];
    rewrite list_lookup_fmap; [by rewrite Hk|by rewrite Hk', Heq].
Qed.

(** A slot that changes at one index. *)
Lemma slots_update es es' s i slot m :
  calls_read es s → calls_of es' = calls_of es →
  (∃ c, c ∈ calls_of es ∧ oc_index c = i ∧ slot_of es' c = slot) →
  (∀ c, oc_index c ≠ i → slot_of es' c = slot_of es c) →
  (∀ j, bt_get j m = if decide (j = i) then Some slot else bt_get j (ta_calls s)) →
  ∀ j sl, bt_get j m = Some sl ↔ ∃ c, c ∈ calls_of es' ∧ oc_index c = j ∧ slot_of es' c = sl.
Proof.
  intros Hr Hc (c0 & Hc0 & Hi0 & Hs0) Hother Hm j sl. rewrite Hm, Hc. case_decide as Hj.
  - subst j. split.
    + intros [= <-]. eauto.
    + intros (c & Hin & Hic & Hsl). assert (c = c0) as -> by (eapply index_unique; eauto; congruence).
      congruence.
  - rewrite (rd_slots _ _ Hr). split; intros (c & Hin & Hic & Hsl); exists c; split_and!; try done.
    + rewrite Hother by congruence. done.
    + rewrite Hother in Hsl by congruence. done.
Qed.

(** *** One event read *)

Lemma start_call_Ok i id name s s' :
  start_call i id name s = (Ok tt, s') →
  bt_get i (ta_calls s) = None ∧ length (ta_calls s) < max_tool_calls (ta_limits s) ∧
  ∃ named dup,
    named = match id with
            | Some id => (id, FromProvider)
            | None => (ProviderToolCallId_synthesized (saturating_add_u32 (ta_synthesized s) 1), Synthesized)
            end ∧
    dup = (if decide (named.1 ∈ ta_seen_ids s) then Some named.1 else None) ∧
    ta_calls s' = bt_insert i (Open (MkOpenCall i named.1 named.2 dup name [])) (ta_calls s) ∧
    (∀ k, k ∈ ta_seen_ids s' ↔ k = named.1 ∨ k ∈ ta_seen_ids s) ∧
    ta_synthesized s' = (if id is Some _ then ta_synthesized s else saturating_add_u32 (ta_synthesized s) 1) ∧
    ta_text s' = ta_text s ∧ ta_started s' = ta_started s ∧ ta_completed s' = ta_completed s ∧
    ta_usage s' = ta_usage s ∧ ta_stop s' = ta_stop s ∧ ta_limits s' = ta_limits s.
Proof.
  unfold start_call, name_call, note_id, get, lift, modify, mbind, stateM_bind, mret, stateM_ret.
  destruct (bt_get i (ta_calls s)) eqn:Hg; cbn [is_some]; [done|].
  destruct (Nat.leb_spec (max_tool_calls (ta_limits s)) (length (ta_calls s))); [done|].
  intros Hrun. split; [done|]. split; [done|].
  destruct id as [id|]; cbn in Hrun; case_decide as Hseen; cbn in Hrun; simplify_eq/=;
    eexists _, _; (split; [done|]); cbn; rewrite ?decide_True, ?decide_False by done;
    split_and!; try done; set_solver.
Qed.

Lemma calls_read_start es i id name s s' :
  calls_read es s → existsb is_completion es = false →
  start_call i id name s = (Ok tt, s') → calls_read (es ++ [ToolCallStarted i id name]) s'.
Proof.
  intros Hr Hnc Hrun. apply start_call_Ok in Hrun
    as (Hg & _ & named & dup & Hnamed & Hdup & Hcalls & Hseen & Hsyn & _).
  assert (i ∉ oc_index <$> calls_of es) as Hfresh by by apply (get_none_index es s i Hr).
  destruct Hr as [Hs Hsl Hi Hf Hse Hsy].
  assert (introduced (calls_of es) i id name = MkOpenCall i named.1 named.2 dup name []) as Hnew.
  { unfold introduced. rewrite Hdup, Hnamed. rewrite Hsy.
    replace (saturating_add_u32 (N.min (N.of_nat (length (filter (λ c, oc_id_provenance c = Synthesized)
      (calls_of es)))) U32_MAX) 1) with (N.min (N.of_nat (length (filter (λ c, oc_id_provenance c = Synthesized)
      (calls_of es))) + 1) U32_MAX) by (unfold saturating_add_u32, U32_MAX; lia).
    destruct id as [id|]; cbn [fst snd]; f_equal; by apply decide_ext; rewrite Hse. }
  destruct (Hf i Hfresh) as [Harg Hrd].
  assert (∀ j, arguments_of j (es ++ [ToolCallStarted i id name]) = arguments_of j es) as Ha
    by (intros j; rewrite arguments_of_snoc; by rewrite app_nil_r).
  assert (∀ j, readied j (es ++ [ToolCallStarted i id name]) = readied j es) as Hrr
    by (intros j; rewrite readied_snoc; by rewrite orb_false_r).
  assert (∀ c, slot_of (es ++ [ToolCallStarted i id name]) c = slot_of es c) as Hslot.
  { intros c. apply slot_of_ext; [apply Ha|]. unfold closed_whole.
    by rewrite Hrr, existsb_snoc, orb_false_r. }
  assert (slot_of es (introduced (calls_of es) i id name) =
          Open (MkOpenCall i named.1 named.2 dup name [])) as Hopen.
  { rewrite Hnew. unfold slot_of, closed_whole, gathered, push_arguments. cbn.
    by rewrite Hrd, Hnc, Harg. }
  split; rewrite ?calls_of_snoc.
  - rewrite Hcalls. by apply bt_sorted_insert.
  - intros j slot. rewrite Hcalls. setoid_rewrite Hslot. setoid_rewrite elem_of_app.
    setoid_rewrite list_elem_of_singleton. destruct (decide (j = i)) as [->|Hne].
    + rewrite bt_get_insert. split.
      * intros [= <-]. exists (introduced (calls_of es) i id name).
        split; [by right|]. split; [by rewrite Hnew|done].
      * intros (c & [Hc| ->] & Hic & <-); [|by rewrite Hopen].
        exfalso. apply Hfresh. rewrite <-Hic. apply list_elem_of_fmap. eauto.
    + rewrite bt_get_insert_ne by done. rewrite Hsl. split.
      * intros (c & Hc & ?). eauto.
      * intros (c & [Hc| ->] & Hic & ?); [eauto|]. rewrite Hnew in Hic. by cbn in Hic.
  - rewrite fmap_app. cbn. apply NoDup_app. split; [done|]. split; [|apply NoDup_singleton].
    intros j Hj ->%list_elem_of_singleton. apply Hfresh. by rewrite Hnew in Hj.
  - intros j. rewrite fmap_app, Ha, Hrr. intros Hj. apply Hf. set_solver.
  - intros k. rewrite Hseen, Hse, fmap_app, elem_of_app. cbn.
    rewrite list_elem_of_singleton, Hnew. cbn. naive_solver.
  - rewrite filter_app, length_app, Hsyn, Hnew, Hsy, Hnamed.
    generalize (length (filter (λ c, oc_id_provenance c = Synthesized) (calls_of es))) as n.
    intros n. unfold saturating_add_u32. generalize U32_MAX as M. intros M.
    destruct id as [id|]; cbn -[N.min N.of_nat Nat.add decide];
      [rewrite decide_False by done|rewrite decide_True by done]; cbn -[N.min N.of_nat Nat.add]; lia.
Qed.

(** A change of one open call, by an event about its index alone. *)
Lemma calls_read_change es e i c slot s s' :
  calls_read es s → calls_of (es ++ [e]) = calls_of es →
  c ∈ calls_of es → oc_index c = i →
  slot_of (es ++ [e]) c = slot →
  (∀ j, j ≠ i → arguments_of j (es ++ [e]) = arguments_of j es ∧
    readied j (es ++ [e]) = readied j es) →
  is_completion e = false →
  ta_calls s' = bt_insert i slot (ta_calls s) → ta_seen_ids s' = ta_seen_ids s →
  ta_synthesized s' = ta_synthesized s → calls_read (es ++ [e]) s'.
Proof.
  intros Hr Hcs Hc Hic Hslot Hother Hnc Hm Hse Hsy.
  split; rewrite ?Hcs, ?Hse, ?Hsy; try apply Hr.
  - rewrite Hm. apply bt_sorted_insert, Hr.
  - rewrite <-Hcs. apply (slots_update es (es ++ [e]) s i slot); [done|done|by eauto| |].
    + intros c' Hc'. destruct (Hother _ Hc') as [Ha Hrd]. apply slot_of_ext; [done|].
      unfold closed_whole. by rewrite Hrd, existsb_snoc, Hnc, orb_false_r.
    + intros j. rewrite Hm. case_decide as Hj; [subst; apply bt_get_insert|by apply bt_get_insert_ne].
  - intros j Hj. destruct (decide (j = i)) as [->|Hne].
    + exfalso. apply Hj. rewrite <-Hic. apply list_elem_of_fmap. eauto.
    + destruct (Hother j Hne) as [-> ->]. by apply Hr.
Qed.

Lemma open_slot es s i call : calls_read es s → bt_get i (ta_calls s) = Some (Open call) →
  ∃ c, c ∈ calls_of es ∧ oc_index c = i ∧ closed_whole es i = false ∧ gathered es c = call.
Proof.
  intros Hr Hg. apply (rd_slots _ _ Hr) in Hg as (c & Hc & <- & Hs). exists c. split_and!; [done..| |];
    unfold slot_of in Hs; by destruct (closed_whole es (oc_index c)); simplify_eq.
Qed.

Lemma extend_call_Ok i f s s' :
  extend_call i f s = (Ok tt, s') →
  ∃ call, bt_get i (ta_calls s) = Some (Open call) ∧
    length (oc_raw_arguments call) + length f ≤ max_tool_call_argument_bytes (ta_limits s) ∧
    s' = set_calls (bt_insert i (Open (push_arguments f call)) (ta_calls s)) s.
Proof.
  unfold extend_call, get, lift, modify, mbind, stateM_bind.
  destruct (bt_get i (ta_calls s)) as [[call|call]|]; [|done|done].
  destruct (Nat.ltb_spec (max_tool_call_argument_bytes (ta_limits s))
    (length (oc_raw_arguments call) + length f)); [done|]. intros [= <-]. eauto.
Qed.

Lemma calls_read_extend es i f s s' :
  calls_read es s → existsb is_completion es = false → extend_call i f s = (Ok tt, s') →
  calls_read (es ++ [ToolCallArgumentsDelta i f]) s'.
Proof.
  intros Hr Hnc Hrun. apply extend_call_Ok in Hrun as (call & Hg & _ & ->).
  destruct (open_slot _ _ _ _ Hr Hg) as (c & Hc & Hic & Hcl & <-).
  eapply calls_read_change with (c := c); [exact Hr|by rewrite calls_of_snoc|exact Hc|exact Hic| | |done|done|done|done].
  - unfold slot_of. unfold closed_whole in *. rewrite Hic, readied_snoc, existsb_snoc, !orb_false_r, Hcl.
    f_equal. unfold gathered, push_arguments. cbn. f_equal.
    rewrite arguments_of_snoc, Hic, decide_True, app_assoc by done. done.
  - intros j Hj. rewrite arguments_of_snoc, readied_snoc, orb_false_r, decide_False by done.
    by rewrite app_nil_r.
Qed.

Lemma ready_call_Ok i s s' :
  bt_sorted (ta_calls s) → ready_call i s = (Ok tt, s') →
  ∃ call, bt_get i (ta_calls s) = Some (Open call) ∧
    s' = set_calls (bt_insert i (Finalized (finalize call false)) (ta_calls s)) s.
Proof.
  intros Hm. unfold ready_call, get, lift, modify, mbind, stateM_bind.
  destruct (bt_get i (ta_calls s)) as [[call|call]|]; [|done|done]. intros [= <-].
  exists call. split; [done|]. unfold set_calls. cbn. by rewrite bt_insert_remove.
Qed.

Lemma calls_read_ready es i s s' :
  calls_read es s → existsb is_completion es = false → ready_call i s = (Ok tt, s') →
  calls_read (es ++ [ToolCallReady i]) s'.
Proof.
  intros Hr Hnc Hrun. apply ready_call_Ok in Hrun as (call & Hg & ->); [|apply Hr].
  destruct (open_slot _ _ _ _ Hr Hg) as (c & Hc & Hic & Hcl & <-).
  assert (∀ j, arguments_of j (es ++ [ToolCallReady i]) = arguments_of j es) as Ha
    by (intros j; by rewrite arguments_of_snoc, app_nil_r).
  eapply calls_read_change with (c := c); [exact Hr|by rewrite calls_of_snoc|exact Hc|exact Hic| | |done|done|done|done].
  - unfold slot_of, closed_whole, gathered. rewrite Hic, readied_snoc, bool_decide_eq_true_2, orb_true_r by done.
    by rewrite Ha.
  - intros j Hj. rewrite readied_snoc, bool_decide_eq_false_2, orb_false_r by done. done.
Qed.

Lemma slot_of_completed es stop c :
  slot_of (es ++ [TurnCompleted stop]) c = Finalized (slot_call false (slot_of es c)).
Proof.
  unfold slot_of, closed_whole, gathered. rewrite arguments_of_snoc, existsb_snoc, app_nil_r, !orb_true_r.
  by destruct (readied (oc_index c) es || existsb is_completion es).
Qed.

Lemma calls_read_complete es stop s s' :
  calls_read es s → ta_calls s' = ta_calls (finalize_open_calls false s) →
  ta_seen_ids s' = ta_seen_ids s → ta_synthesized s' = ta_synthesized s →
  calls_read (es ++ [TurnCompleted stop]) s'.
Proof.
  intros Hr Hc Hse Hsy. destruct (get_finalize_open false s (rd_sorted _ _ Hr)) as [Hs Hg].
  split; rewrite ?calls_of_snoc, ?Hc, ?Hse, ?Hsy; try apply Hr; [done| |].
  - intros i slot. rewrite Hg. setoid_rewrite slot_of_completed. split.
    + intros (sl & Hsl & ->)%fmap_Some. apply (rd_slots _ _ Hr) in Hsl as (c & ? & ? & <-). eauto.
    + intros (c & Hin & Hic & <-). apply fmap_Some. exists (slot_of es c). split; [|done].
      apply (rd_slots _ _ Hr). eauto.
  - intros i Hi. rewrite arguments_of_snoc, readied_snoc, app_nil_r, orb_false_r.
    by apply (rd_fresh _ _ Hr).
Qed.

Lemma calls_read_fields es s s' :
  calls_read es s → ta_calls s' = ta_calls s → ta_seen_ids s' = ta_seen_ids s →
  ta_synthesized s' = ta_synthesized s → calls_read es s'.
Proof. intros [] H1 H2 H3. by split; rewrite ?H1, ?H2, ?H3. Qed.

Lemma text_of_quiet es e : (∀ t, e ≠ TextDelta t) → text_of (es ++ [e]) = text_of es.
Proof. intros He. rewrite text_of_snoc. destruct e; rewrite ?app_nil_r; try done. by destruct (He text). Qed.

Lemma reads_step es e s s' :
  reads es s → ta_completed s = false → absorb_event e s = (Ok tt, s') → reads (es ++ [e]) s'.
Proof.
  intros [Hc Ht Hst Hco Hu Hsp] Hnc Hrun. assert (existsb is_completion es = false) as Hnc' by congruence.
  destruct e; cbn [absorb_event] in Hrun.
  - unfold get, lift, modify, mbind, stateM_bind in Hrun. destruct (ta_started s) eqn:Hs; simplify_eq/=.
    split; cbn; rewrite ?text_of_quiet, ?existsb_snoc, ?orb_true_r, ?orb_false_r by done; try done;
      [by eapply calls_read_quiet|unfold usage_of; by rewrite foldl_app|unfold stop_of; by rewrite foldl_app].
  - unfold get, lift, modify, mbind, stateM_bind in Hrun.
    destruct (Nat.ltb_spec (max_turn_text_bytes (ta_limits s)) (length (ta_text s) + length text)); simplify_eq/=.
    split; cbn; rewrite ?text_of_snoc, ?existsb_snoc, ?orb_false_r; try done;
      [by eapply calls_read_quiet|by rewrite Ht|unfold usage_of; by rewrite foldl_app
      |unfold stop_of; by rewrite foldl_app].
  - pose proof (calls_read_start _ _ _ _ _ _ Hc Hnc' Hrun) as Hc'.
    apply start_call_Ok in Hrun as (_ & _ & ? & ? & _ & _ & _ & _ & _ & Et & Es & Eco & Eu & Esp & _).
    split; rewrite ?Et, ?Es, ?Eco, ?Eu, ?Esp, ?text_of_quiet, ?existsb_snoc, ?orb_false_r by done; try done;
      [unfold usage_of; by rewrite foldl_app|unfold stop_of; by rewrite foldl_app].
  - pose proof (calls_read_extend _ _ _ _ _ Hc Hnc' Hrun) as Hc'.
    apply extend_call_Ok in Hrun as (call & _ & _ & ->).
    split; cbn; rewrite ?text_of_quiet, ?existsb_snoc, ?orb_false_r by done; try done;
      [unfold usage_of; by rewrite foldl_app|unfold stop_of; by rewrite foldl_app].
  - pose proof (calls_read_ready _ _ _ _ Hc Hnc' Hrun) as Hc'.
    apply ready_call_Ok in Hrun as (call & _ & ->); [|apply Hc].
    split; cbn; rewrite ?text_of_quiet, ?existsb_snoc, ?orb_false_r by done; try done;
      [unfold usage_of; by rewrite foldl_app|unfold stop_of; by rewrite foldl_app].
  - unfold modify in Hrun. simplify_eq/=.
    split; cbn; rewrite ?text_of_quiet, ?existsb_snoc, ?orb_false_r by done; try done;
      [by eapply calls_read_quiet|unfold usage_of; rewrite foldl_app; cbn; by rewrite Hu
      |unfold stop_of; by rewrite foldl_app].
  - unfold modify, mbind, stateM_bind in Hrun. simplify_eq/=.
    split; cbn; rewrite ?text_of_quiet, ?existsb_snoc, ?orb_false_r, ?orb_true_r by done; try done;
      [by eapply calls_read_complete|unfold usage_of; by rewrite foldl_app|unfold stop_of; by rewrite foldl_app].
Qed.

Lemma reads_new limits : reads [] (TurnAssembler_new limits).
Proof.
  split; [|done..]. split; [constructor| |constructor|done| |done].
  - intros i slot. split; [done|]. intros (c & Hc & _). by apply not_elem_of_nil in Hc.
  - intros id. cbn. set_solver.
Qed.

Lemma reads_counted es now s : reads es s → reads es (count_event now s).
Proof. intros []. split; try done. by eapply calls_read_fields. Qed.

Lemma reads_ignored es s : reads es s → reads es (set_diagnostics (bump_ignored (ta_diagnostics s)) s).
Proof. intros []. split; try done. by eapply calls_read_fields. Qed.

Lemma observe_Ok now e s r s' :
  observe now e s = (Ok r, s') →
  if ta_completed s
  then r = IgnoredAfterCompletion ∧
    s' = set_diagnostics (bump_ignored (ta_diagnostics s)) (count_event now s)
  else r = Recorded ∧ absorb_event e (count_event now s) = (Ok tt, s').
Proof.
  unfold observe, modify, get, mbind, stateM_bind, mret, stateM_ret. cbn [ta_completed count_event].
  destruct (ta_completed s).
  - by intros [= <- <-].
  - destruct (absorb_event e (count_event now s)) as [[[]|] s1]; [|done]. by intros [= <- <-].
Qed.

Lemma observes_reads events : ∀ es s s',
  reads es s → observes events s = (Ok tt, s') →
  reads (es ++ if existsb is_completion es then [] else heard events.*2) s'.
Proof.
  induction events as [|[now e] events IH]; intros es s s' Hr; cbn [observes fmap list_fmap heard].
  - intros [= <-]. case_match; by rewrite app_nil_r.
  - rewrite bindM_Ok. intros (r & s1 & Hobs & Hrest). apply observe_Ok in Hobs.
    rewrite (rd_completed _ _ Hr) in Hobs. destruct (existsb is_completion es) eqn:Hco.
    + destruct Hobs as [_ ->].
      assert (reads es (set_diagnostics (bump_ignored (ta_diagnostics s)) (count_event now s))) as Hr'
        by exact (reads_ignored _ _ (reads_counted es now s Hr)).
      specialize (IH es _ _ Hr' Hrest). by rewrite Hco in IH.
    + destruct Hobs as [_ Habs].
      assert (reads (es ++ [e]) s1) as Hr1.
      { eapply reads_step; [by apply reads_counted| |exact Habs]. cbn. by rewrite (rd_completed _ _ Hr). }
      specialize (IH _ _ _ Hr1 Hrest). rewrite existsb_snoc, Hco in IH. cbn in IH.
      rewrite <-app_assoc in IH. exact IH.
Qed.

(** ** The assembled turn *)

Lemma atc_index_finalize c t : atc_index (finalize c t) = oc_index c.
Proof. destruct c. unfold finalize. by repeat case_match. Qed.

Lemma slot_call_of es t c :
  slot_call t (slot_of es c) =
  finalize (gathered es c) (t && negb (closed_whole es (oc_index c))).
Proof. unfold slot_of. destruct (closed_whole es (oc_index c)); cbn; by destruct t. Qed.

Lemma entries_of es s : calls_read es s →
  ta_calls s ≡ₚ (λ c, (oc_index c, slot_of es c)) <$> calls_of es.
Proof.
  intros Hr. apply NoDup_Permutation.
  - eapply NoDup_fmap_1, bt_sorted_nodup, Hr.
  - apply (NoDup_fmap_1 fst). rewrite <-list_fmap_compose. apply (rd_indices _ _ Hr).
  - intros [i slot]. rewrite <-bt_get_elem by apply Hr. rewrite (rd_slots _ _ Hr), list_elem_of_fmap.
    split; [intros (c & Hc & <- & <-); eauto|intros (c & [= -> ->] & Hc); eauto].
Qed.

Lemma entry_index es s t : calls_read es s →
  atc_index <$> (slot_call t <$> bt_values (ta_calls s)) = bt_keys (ta_calls s).
Proof.
  intros Hr. unfold bt_values, bt_keys. rewrite <-!list_fmap_compose.
  apply list_fmap_ext. intros k [i slot] Hk. cbn.
  apply list_elem_of_lookup_2, bt_get_elem, (rd_slots _ _ Hr) in Hk as (c & Hc & <- & <-); [|apply Hr].
  by rewrite slot_call_of, atc_index_finalize.
Qed.

Lemma keys_sorted {V} (m : BTreeMap N V) : bt_sorted m → StronglySorted N.lt (bt_keys m).
Proof.
  induction 1 as [|[k v] m Hs IH Hf]; cbn; constructor; [done|].
  apply list.Forall_fmap. eapply List.Forall_impl; [|exact Hf].
  intros [k' v'] Hk. by apply N.ltb_lt.
Qed.

Lemma turn_of_reads es s t : reads es s →
  turn_text (take_turn t s) = text_of es ∧
  turn_usage (take_turn t s) = usage_of es ∧
  turn_stop (take_turn t s) = stop_of es ∧
  turn_tool_calls (take_turn t s) ≡ₚ
    (λ c, finalize (gathered es c) (t && negb (closed_whole es (oc_index c)))) <$> calls_of es ∧
  StronglySorted N.lt (atc_index <$> turn_tool_calls (take_turn t s)).
Proof.
  intros Hr. pose proof (rd_calls _ _ Hr) as Hc. rewrite take_turn_eq by apply Hc. cbn.
  split_and!; [apply Hr|apply Hr|apply Hr| |].
  - unfold bt_values. rewrite (entries_of _ _ Hc), <-!list_fmap_compose.
    apply reflexive_eq, list_fmap_ext. intros k c _. cbn. apply slot_call_of.
  - rewrite (entry_index _ _ _ Hc). apply keys_sorted, Hc.
Qed.

(** C40. The turn is what arrived.  If no event is refused, the turn's text is the text
    deltas in order; its calls are the calls started, none dropped and none merged,
    in index order whatever order they came in; each has its own argument fragments
    in order, the identity the provider gave it or the next synthesized one, and the
    mark of a repeated identity; and a call the stream ended under is closed as
    truncated, every other by its name and arguments.  Events after the completion
    change nothing. *)
Theorem assembled_turn_is_what_arrived limits events s truncated :
  observes events (TurnAssembler_new limits) = (Ok tt, s) →
  let es := heard events.*2 in
  let turn := take_turn truncated s in
  turn_text turn = text_of es ∧ turn_usage turn = usage_of es ∧ turn_stop turn = stop_of es ∧
  turn_tool_calls turn ≡ₚ
    (λ c, finalize (gathered es c) (truncated && negb (closed_whole es (oc_index c)))) <$> calls_of es ∧
  StronglySorted N.lt (atc_index <$> turn_tool_calls turn).
Proof.
  intros Hobs es turn. apply turn_of_reads.
  exact (observes_reads _ _ _ _ (reads_new limits) Hobs).
Qed.

(** ** Bounds and refusals *)

(** What any events leave, refused ones included. *)
Definition after_all (events : list (N * ModelEvent)) (s : TurnAssembler) : TurnAssembler :=
  foldl (λ s p, (observe p.1 p.2 s).2) s events.

Definition slot_bytes (slot : CallSlot) : nat :=
  match slot with
  | Open call => length (oc_raw_arguments call)
  | Finalized (Invalid _ _ _ _ _ raw _) => length raw
  | Finalized (Ready _ _ _ _ _ _) => 0
  end.

Record within_limits (s : TurnAssembler) : Prop := {
  wl_sorted : bt_sorted (ta_calls s);
  wl_text : length (ta_text s) ≤ max_turn_text_bytes (ta_limits s);
  wl_count : length (ta_calls s) ≤ max_tool_calls (ta_limits s);
  wl_calls : ∀ i slot, bt_get i (ta_calls s) = Some slot →
    slot_bytes slot ≤ max_tool_call_argument_bytes (ta_limits s);
}.

Lemma finalize_bytes c t : slot_bytes (Finalized (finalize c t)) ≤ length (oc_raw_arguments c).
Proof. destruct c. unfold finalize. repeat case_match; simplify_eq/=; lia. Qed.

Lemma slot_call_bytes t slot : slot_bytes (Finalized (slot_call t slot)) ≤ slot_bytes slot.
Proof. destruct slot as [c|c]; [apply finalize_bytes|done]. Qed.

Lemma within_fields s s' : within_limits s → ta_limits s' = ta_limits s → ta_text s' = ta_text s →
  ta_calls s' = ta_calls s → within_limits s'.
Proof. intros [] H1 H2 H3. split; by rewrite ?H1, ?H2, ?H3. Qed.

Lemma within_set s i slot :
  within_limits s → bt_get i (ta_calls s) ≠ None →
  slot_bytes slot ≤ max_tool_call_argument_bytes (ta_limits s) →
  within_limits (set_calls (bt_insert i slot (ta_calls s)) s).
Proof.
  intros [Hs Ht Hc Hb] Hg Hl. split; cbn; [by apply bt_sorted_insert|done| |].
  - rewrite bt_insert_length. by destruct (bt_get i (ta_calls s)).
  - intros j sl. destruct (decide (j = i)) as [->|Hne].
    + rewrite bt_get_insert. by intros [= <-].
    + rewrite bt_get_insert_ne by done. apply Hb.
Qed.

(** The events a state refuses. *)
Definition refused (s : TurnAssembler) (e : ModelEvent) : bool :=
  negb (ta_completed s) &&
  match e with
  | TurnStarted _ => ta_started s
  | TextDelta text => max_turn_text_bytes (ta_limits s) <? length (ta_text s) + length text
  | ToolCallStarted i _ _ =>
    is_some (bt_get i (ta_calls s)) || (max_tool_calls (ta_limits s) <=? length (ta_calls s))
  | ToolCallArgumentsDelta i fragment =>
    match bt_get i (ta_calls s) with
    | Some (Open c) =>
      max_tool_call_argument_bytes (ta_limits s) <? length (oc_raw_arguments c) + length fragment
    | _ => true
    end
  | ToolCallReady i => match bt_get i (ta_calls s) with Some (Open _) => false | _ => true end
  | Usage _ _ _ | TurnCompleted _ => false
  end.

Lemma set_calls_same s m : m = ta_calls s → set_calls m s = s.
Proof. intros ->. by destruct s. Qed.

Lemma bt_insert_same i (slot : CallSlot) m : bt_sorted m → bt_get i m = Some slot → bt_insert i slot m = m.
Proof.
  intros Hm Hg. apply bt_ext; [by apply bt_sorted_insert|done|]. intros j.
  destruct (decide (j = i)) as [->|Hne]; [by rewrite bt_get_insert|by apply bt_get_insert_ne].
Qed.

Lemma bt_remove_absent i (m : BTreeMap N CallSlot) : bt_sorted m → bt_get i m = None → bt_remove i m = m.
Proof.
  intros Hm Hg. apply bt_ext; [by apply bt_sorted_remove|done|]. intros j.
  destruct (decide (j = i)) as [->|Hne]; [by rewrite bt_get_remove|by apply bt_get_remove_ne].
Qed.

Lemma absorb_event_refused s e : bt_sorted (ta_calls s) → ta_completed s = false →
  is_ok (absorb_event e s).1 = negb (refused s e) ∧
  (refused s e = true → (absorb_event e s).2 = s).
Proof.
  intros Hm Hnc. unfold refused. rewrite Hnc. cbn [negb andb]. destruct e; cbn [absorb_event].
  - unfold get, lift, modify, mbind, stateM_bind. by destruct (ta_started s).
  - unfold get, lift, modify, mbind, stateM_bind. by case_match.
  - unfold start_call, name_call, note_id, get, lift, modify, mbind, stateM_bind, mret, stateM_ret.
    destruct (is_some (bt_get index (ta_calls s))); [done|]. cbn.
    destruct (max_tool_calls (ta_limits s) <=? length (ta_calls s)); [done|].
    destruct id; cbn; by case_decide.
  - unfold extend_call, get, lift, modify, mbind, stateM_bind.
    destruct (bt_get index (ta_calls s)) as [[c|c]|]; [|done|done]. by case_match.
  - unfold ready_call, get, lift, modify, mbind, stateM_bind.
    destruct (bt_get index (ta_calls s)) as [[c|c]|] eqn:Hg; cbn; split; try done; intros _.
    + unfold set_calls at 1. cbn. apply set_calls_same.
      by rewrite bt_insert_remove, bt_insert_same.
    + apply set_calls_same. by rewrite bt_remove_absent.
  - done.
  - done.
Qed.

Lemma within_absorb s e s' : within_limits s → absorb_event e s = (Ok tt, s') →
  within_limits s' ∧ ta_limits s' = ta_limits s.
Proof.
  intros Hw Hrun. destruct e; cbn [absorb_event] in Hrun.
  - unfold get, lift, modify, mbind, stateM_bind in Hrun. destruct (ta_started s); simplify_eq/=.
    split; [by eapply within_fields|done].
  - unfold get, lift, modify, mbind, stateM_bind in Hrun.
    destruct (Nat.ltb_spec (max_turn_text_bytes (ta_limits s)) (length (ta_text s) + length text)); simplify_eq/=.
    split; [|done]. destruct Hw. split; cbn; rewrite ?length_app; done.
  - apply start_call_Ok in Hrun as (Hg & Hlen & named & dup & _ & _ & Hc & _ & _ & Ht & _ & _ & _ & _ & Hl).
    split; [|done]. destruct Hw as [Hs Htx Hcn Hb]. split; rewrite ?Hl, ?Ht, ?Hc; [by apply bt_sorted_insert|done| |].
    + rewrite bt_insert_length, Hg. lia.
    + intros j sl. destruct (decide (j = index)) as [->|Hne].
      * rewrite bt_get_insert. intros [= <-]. cbn. lia.
      * rewrite bt_get_insert_ne by done. apply Hb.
  - apply extend_call_Ok in Hrun as (call & Hg & Hlen & ->). split; [|done].
    apply within_set; [done|by rewrite Hg|]. cbn. by rewrite length_app.
  - apply ready_call_Ok in Hrun as (call & Hg & ->); [|apply Hw]. split; [|done].
    apply within_set; [done|by rewrite Hg|].
    etrans; [apply finalize_bytes|]. exact (wl_calls _ Hw _ _ Hg).
  - unfold modify in Hrun. simplify_eq/=. split; [by eapply within_fields|done].
  - unfold modify, mbind, stateM_bind in Hrun. simplify_eq/=. split; [|done].
    destruct (get_finalize_open false s (wl_sorted _ Hw)) as [Hs Hg].
    pose proof (finalize_open_eq false s (wl_sorted _ Hw)) as Heq.
    destruct Hw as [Hso Htx Hcn Hb]. split; cbn [ta_calls ta_limits ta_text set_completed].
    + done.
    + done.
    + rewrite Heq, length_fmap. done.
    + intros i slot. rewrite Hg. intros (sl & Hsl & ->)%fmap_Some.
      etrans; [apply slot_call_bytes|]. by eapply Hb.
Qed.

Lemma observe_eq now e s :
  observe now e s =
  if ta_completed s
  then (Ok IgnoredAfterCompletion, set_diagnostics (bump_ignored (ta_diagnostics s)) (count_event now s))
  else match absorb_event e (count_event now s) with
       | (Ok _, s') => (Ok Recorded, s')
       | (Err error, s') => (Err error, s')
       end.
Proof.
  unfold observe, modify, get, mbind, stateM_bind, mret, stateM_ret. cbn [ta_completed count_event].
  by destruct (ta_completed s).
Qed.

Lemma refused_counted now s e : refused (count_event now s) e = refused s e.
Proof. done. Qed.

Lemma within_observe now e s : within_limits s →
  within_limits (observe now e s).2 ∧ ta_limits (observe now e s).2 = ta_limits s.
Proof.
  intros Hw. assert (within_limits (count_event now s)) as Hw1 by by eapply within_fields.
  rewrite observe_eq. destruct (ta_completed s) eqn:Hco.
  - split; [by eapply within_fields|done].
  - destruct (absorb_event_refused (count_event now s) e) as [Hok Hsame]; [apply Hw|done|].
    destruct (absorb_event e (count_event now s)) as [[[]|err] s'] eqn:Habs; cbn [fst snd is_ok] in *.
    + apply (within_absorb _ _ _ Hw1 Habs).
    + rewrite Hsame; [done|]. by destruct (refused _ e).
Qed.

Lemma within_after events : ∀ s, within_limits s →
  within_limits (after_all events s) ∧ ta_limits (after_all events s) = ta_limits s.
Proof.
  induction events as [|[now e] events IH]; intros s Hw; [done|]. cbn.
  destruct (within_observe now e s Hw) as [Hw1 Hl]. destruct (IH _ Hw1) as [? Hl2].
  split; [done|]. by rewrite <-Hl.
Qed.

Lemma within_new limits : within_limits (TurnAssembler_new limits).
Proof. split; cbn; [constructor|lia|lia|done]. Qed.

(** What a provider sends is never held past its bounds: from a new assembler,
    whatever events are observed and whichever are refused, the text, the number of
    calls and the argument bytes of each call stay within the limits. *)
Theorem assembler_bounded limits events :
  let s := after_all events (TurnAssembler_new limits) in
  length (ta_text s) ≤ max_turn_text_bytes limits ∧
  length (ta_calls s) ≤ max_tool_calls limits ∧
  ∀ i slot, bt_get i (ta_calls s) = Some slot → slot_bytes slot ≤ max_tool_call_argument_bytes limits.
Proof.
  intros s. destruct (within_after events _ (within_new limits)) as [[_ Ht Hc Hb] Hl].
  fold s in Ht, Hc, Hb, Hl. rewrite Hl in *. done.
Qed.

(** Exactly these events are refused before the turn completes: a second start of
    the turn, a call at an index in use, arguments or readiness for a call that is
    not open, and anything past a bound.  A refused event leaves the state as it
    was, but for the count of events and the latency of the first. *)
Theorem observe_refuses_exactly limits events now e :
  let s := after_all events (TurnAssembler_new limits) in
  is_ok (observe now e s).1 = negb (refused s e) ∧
  (refused s e = true → (observe now e s).2 = count_event now s).
Proof.
  intros s. destruct (within_after events _ (within_new limits)) as [Hw _]. fold s in Hw.
  rewrite observe_eq. destruct (ta_completed s) eqn:Hco.
  - unfold refused. by rewrite Hco.
  - destruct (absorb_event_refused (count_event now s) e) as [Hok Hsame]; [apply Hw|done|].
    rewrite refused_counted in Hok, Hsame.
    destruct (absorb_event e (count_event now s)) as [[[]|err] s']; cbn [fst snd is_ok] in *.
    + split; [done|]. intros Hr. by rewrite Hr in Hok.
    + split; [done|]. intros Hr. by apply Hsame.
Qed.

(** ** The end of a turn *)

Lemma observes_count events : ∀ s s', observes events s = (Ok tt, s') →
  ta_event_count s' = foldl (λ n _, saturating_add_u32 n 1) (ta_event_count s) events.
Proof.
  induction events as [|[now e] events IH]; intros s s'; cbn [observes foldl].
  - by intros [= <-].
  - rewrite bindM_Ok. intros (r & s1 & Hobs & Hrest). rewrite (IH _ _ Hrest). f_equal.
    apply observe_Ok in Hobs. destruct (ta_completed s).
    + by destruct Hobs as [_ ->].
    + destruct Hobs as [_ Habs]. destruct e; cbn [absorb_event] in Habs;
        unfold start_call, name_call, note_id, extend_call, ready_call,
          get, lift, modify, mbind, stateM_bind, mret, stateM_ret in Habs;
        repeat (case_match; simplify_eq/=); by simplify_eq/=.
Qed.

Lemma count_zero events n :
  foldl (λ n _, saturating_add_u32 n 1) n events = 0%N ↔ n = 0%N ∧ events = ([] : list (N * ModelEvent)).
Proof.
  revert n. induction events as [|e events IH]; intros n; cbn; [naive_solver|].
  rewrite IH. unfold saturating_add_u32, U32_MAX. split; [|by intros [_ ?]]. intros [? _]. lia.
Qed.

(** A call is executable only as a whole. *)
Lemma ready_closed es s t c : reads es s →
  c ∈ turn_tool_calls (take_turn t s) → is_ready c = true → t = true →
  closed_whole es (atc_index c) = true.
Proof.
  intros Hr Hc Hready ->. destruct (turn_of_reads es s true Hr) as (_ & _ & _ & Hperm & _).
  rewrite Hperm in Hc. apply list_elem_of_fmap in Hc as (c0 & -> & Hin).
  rewrite atc_index_finalize. cbn. destruct (closed_whole es (oc_index c0)) eqn:Hcl; [done|].
  exfalso. destruct c0. by cbn in *.
Qed.

(** How a turn ends.  With a completion it is the outcome, stopped as the provider
    said; with no event at all it is an empty response; and a stream cut short is a
    disconnect that carries what had arrived, in which no call is executable unless
    the provider had readied it. *)
Theorem finish_classifies limits events s now :
  observes events (TurnAssembler_new limits) = (Ok tt, s) →
  let es := heard events.*2 in
  match finish now s with
  | Ok outcome =>
    existsb is_completion es = true ∧ stop_of es = Some (to_stop outcome) ∧
    to_turn outcome = take_turn false s ∧ to_usage outcome = usage_of es
  | Err EmptyResponse => events = []
  | Err (Disconnected _ (Some partial)) =>
    existsb is_completion es = false ∧ events ≠ [] ∧ partial = take_turn true s ∧
    ∀ c, c ∈ turn_tool_calls partial → is_ready c = true → readied (atc_index c) es = true
  | Err _ => False
  end.
Proof.
  intros Hobs es. pose proof (observes_reads _ _ _ _ (reads_new limits) Hobs) as Hr. cbn in Hr. fold es in Hr.
  pose proof (observes_count _ _ _ Hobs) as Hn. unfold finish. rewrite (rd_completed _ _ Hr).
  destruct (existsb is_completion es) eqn:Hco.
  - cbn. rewrite (rd_stop _ _ Hr), (rd_usage _ _ Hr). split_and!; try done.
    assert (is_Some (stop_of es)) as [stop Hstop].
    { clear -Hco. induction es as [|e es IH] using rev_ind; [done|].
      unfold stop_of in *. rewrite foldl_app. rewrite existsb_snoc in Hco. cbn.
      destruct e; cbn in Hco; rewrite ?orb_false_r in Hco; eauto. }
    by rewrite Hstop.
  - destruct (N.eqb_spec (ta_event_count s) 0) as [Hz|Hz].
    + rewrite Hn in Hz. by apply count_zero in Hz as [_ Hz].
    + split_and!; [done| |done|].
      * intros Hnil. apply Hz. by rewrite Hn, Hnil.
      * intros c Hc Hready. pose proof (ready_closed _ _ _ _ Hr Hc Hready eq_refl) as Hcl.
        unfold closed_whole in Hcl. by rewrite Hco, orb_false_r in Hcl.
Qed.

(** A completed turn is final: whatever arrives after it is counted and changes
    neither the turn nor what the call reports of it. *)
Theorem completed_turn_is_final events s now :
  ta_completed s = true →
  let s' := after_all events s in
  (∀ now e, e ∈ events.*2 → (observe now e s).1 = Ok IgnoredAfterCompletion) ∧
  take_turn false s' = take_turn false s ∧
  match finish now s, finish now s' with
  | Ok a, Ok b => to_turn a = to_turn b ∧ to_stop a = to_stop b ∧ to_usage a = to_usage b ∧
      to_provider_request_id a = to_provider_request_id b
  | _, _ => False
  end.
Proof.
  intros Hco s'.
  assert (take_turn false s' = take_turn false s ∧ ta_completed s' = true ∧ ta_stop s' = ta_stop s ∧
    ta_usage s' = ta_usage s ∧ ta_provider_request_id s' = ta_provider_request_id s)
    as (Ht & Hc & Hs & Hu & Hp).
  { subst s'. revert s Hco. induction events as [|[n e] events IH]; intros s Hco; [done|].
    cbn [after_all foldl fst snd]. rewrite observe_eq, Hco. cbn [snd].
    destruct (IH (set_diagnostics (bump_ignored (ta_diagnostics s)) (count_event n s)) Hco)
      as (Ht & Hc & Hs & Hu & Hp). unfold after_all in *. rewrite Ht, Hc, Hs, Hu, Hp. done. }
  split; [intros; by rewrite observe_eq, Hco|]. split; [done|].
  unfold finish. rewrite Hco, Hc. cbn. rewrite Hs, Hu, Hp, Ht. done.
Qed.

(** ** Arguments in pieces *)

(** Observing the fragments of one text one by one, at any times. *)
Definition fragment_events (index : N) (fragments : list (N * list N)) : list (N * ModelEvent) :=
  (λ p, (p.1, ToolCallArgumentsDelta index p.2)) <$> fragments.

Lemma fragments_extend index frags : ∀ s call,
  ta_completed s = false → bt_sorted (ta_calls s) →
  bt_get index (ta_calls s) = Some (Open call) →
  length (oc_raw_arguments call) + length (concat frags.*2) ≤ max_tool_call_argument_bytes (ta_limits s) →
  ∃ s', observes (fragment_events index frags) s = (Ok tt, s') ∧
    ta_calls s' = bt_insert index (Open (push_arguments (concat frags.*2) call)) (ta_calls s) ∧
    ta_text s' = ta_text s ∧ ta_usage s' = ta_usage s ∧ ta_stop s' = ta_stop s.
Proof.
  induction frags as [|[now f] frags IH]; intros s call Hco Hm Hg Hlen; cbn in Hlen.
  - exists s. split_and!; try done. unfold push_arguments. cbn. rewrite app_nil_r.
    rewrite bt_insert_same; [done|done|]. by destruct call.
  - rewrite length_app in Hlen. cbn [fragment_events fmap list_fmap observes fst snd].
    set (s1 := set_calls (bt_insert index (Open (push_arguments f call)) (ta_calls s)) (count_event now s)).
    assert (observe now (ToolCallArgumentsDelta index f) s = (Ok Recorded, s1)) as Hobs.
    { rewrite observe_eq, Hco. cbn [absorb_event]. unfold extend_call, get, lift, modify, mbind, stateM_bind.
      cbn [ta_calls ta_limits count_event]. rewrite Hg.
      rewrite (proj2 (Nat.ltb_ge _ _)) by lia. done. }
    destruct (IH s1 (push_arguments f call)) as (s' & Hrun & Hc & Ht & Hu & Hsp).
    + done.
    + by apply bt_sorted_insert.
    + cbn. by rewrite bt_get_insert.
    + cbn. rewrite length_app. lia.
    + exists s'. unfold mbind, stateM_bind. rewrite Hobs. unfold fragment_events in Hrun. rewrite Hrun.
      split; [done|]. split; [|by split_and!]. rewrite Hc. subst s1. cbn.
      apply bt_ext; [by repeat apply bt_sorted_insert|by apply bt_sorted_insert|]. intros j.
      destruct (decide (j = index)) as [->|Hne].
      * rewrite !bt_get_insert. unfold push_arguments. cbn. by rewrite app_assoc.
      * by rewrite !bt_get_insert_ne.
Qed.

Lemma split_arguments_assemble index frags text now s call :
  ta_completed s = false → bt_sorted (ta_calls s) →
  bt_get index (ta_calls s) = Some (Open call) →
  concat frags.*2 = text →
  length (oc_raw_arguments call) + length text ≤ max_tool_call_argument_bytes (ta_limits s) →
  ∃ whole pieces,
    observes [(now, ToolCallArgumentsDelta index text)] s = (Ok tt, whole) ∧
    observes (fragment_events index frags) s = (Ok tt, pieces) ∧
    ta_calls pieces = ta_calls whole ∧ ∀ t, take_turn t pieces = take_turn t whole.
Proof.
  intros Hco Hm Hg Htext Hlen.
  destruct (fragments_extend index [(now, text)] s call) as (whole & Hw & Hwc & Hwt & Hwu & Hws);
    [done|done|done|by cbn; rewrite app_nil_r|].
  destruct (fragments_extend index frags s call) as (pieces & Hp & Hpc & Hpt & Hpu & Hps);
    [done|done|done|by rewrite Htext|].
  exists whole, pieces. split; [exact Hw|]. split; [exact Hp|].
  assert (ta_calls pieces = ta_calls whole) as Hc.
  { rewrite Hwc, Hpc, Htext. cbn. by rewrite app_nil_r. }
  split; [done|]. intros t. rewrite !take_turn_eq by (rewrite ?Hc, ?Hwc; by apply bt_sorted_insert).
  by rewrite Hc, Hpt, Hwt, Hpu, Hwu, Hps, Hws.
Qed.
End streams.

(** ** A concrete turn *)

#[export] Instance demo_json : Json := {
  from_str bytes := match bytes with
                    | 123%N :: _ => Ok (demo_value "{..}")
                    | _ => Err "expected value"
                    end;
  empty_object := demo_value "{}";
}.

Definition demo_limits : AssemblyLimits := MkAssemblyLimits 16 16 4.
Definition demo_call_one : ProviderToolCallId := MkProviderToolCallId "call_1".

(** Two calls interleaved, the later index first, one unnamed by the provider. *)
Definition demo_opening : list (N * ModelEvent) :=
  [(5, TurnStarted None); (6, TextDelta [79; 107]);
   (7, ToolCallStarted 1 (Some demo_call_one) (Some "fs.read"));
   (8, ToolCallStarted 0 None (Some "fs.list"));
   (9, ToolCallArgumentsDelta 1 [123]); (9, ToolCallArgumentsDelta 0 [123; 125]);
   (9, ToolCallArgumentsDelta 1 [125]); (10, ToolCallReady 0)]%N.
Definition demo_turn : list (N * ModelEvent) :=
  demo_opening ++ [(11%N, TurnCompleted ToolUse); (12%N, TextDelta [33%N])].
Definition demo_cut : TurnAssembler := Eval vm_compute in after_all demo_opening (TurnAssembler_new demo_limits).
Definition demo_done : TurnAssembler := Eval vm_compute in after_all demo_turn (TurnAssembler_new demo_limits).

Lemma assembled_turn_is_what_arrived_witness :
  observes demo_turn (TurnAssembler_new demo_limits) = (Ok tt, demo_done) ∧
  turn_text (take_turn false demo_done) = [79; 107]%N ∧
  StronglySorted N.lt (atc_index <$> turn_tool_calls (take_turn false demo_done)).
Proof.
  assert (observes demo_turn (TurnAssembler_new demo_limits) = (Ok tt, demo_done)) as Hobs by by vm_compute.
  destruct (assembled_turn_is_what_arrived _ _ _ false Hobs) as (Ht & _ & _ & _ & Hs).
  split; [exact Hobs|]. split; [exact Ht|exact Hs].
Defined.

(** Cut short, the call the provider had readied is executable and the other is not. *)
Lemma finish_classifies_witness :
  ∃ detail partial,
    finish 20 demo_cut = Err (Disconnected detail (Some partial)) ∧
    is_ready <$> turn_tool_calls partial = [true; false] ∧
    ∀ c, c ∈ turn_tool_calls partial → is_ready c = true →
      readied (atc_index c) (heard demo_opening.*2) = true.
Proof.
  assert (observes demo_opening (TurnAssembler_new demo_limits) = (Ok tt, demo_cut)) as Hobs by by vm_compute.
  pose proof (finish_classifies _ _ _ 20 Hobs) as Hfin. cbv zeta in Hfin.
  eexists _, _. split; [reflexivity|]. split; [by vm_compute|]. apply Hfin.
Defined.

Lemma completed_turn_is_final_witness :
  ta_completed demo_done = true ∧
  take_turn false (after_all [(30, TextDelta [1]); (31, ToolCallReady 7)]%N demo_done)
    = take_turn false demo_done.
Proof.
  split; [reflexivity|].
  apply (completed_turn_is_final [(30, TextDelta [1]); (31, ToolCallReady 7)]%N demo_done 40). reflexivity.
Defined.
