(* ===== verification/Scripted.v ===== *)
(** * Driving a turn, and replaying one from a script

    Models [src/crates/harkness-provider/src/assemble/driver.rs], the loop every
    provider delivers its events through, [assemble/clock.rs], and the scripted
    provider of [scripted/mod.rs] and [scripted/script.rs].  A poll of the
    cancellation token may answer anything, since another thread trips it: the
    [k]-th poll answers [cancelled k], and the driver counts its polls. *)

From Stdlib Require Import Sorted.
From stdpp Require Import base decidable list strings pretty.
From S2P Require Import Prelude Text Contract Utf8 Btree Assembler.

(** ** The clock ([clock.rs]) *)

(** [ManualTurnClock::advance] on its reading: saturating, whatever the duration. *)
Definition clock_advance (by_ nanos : N) : N :=
  saturating_add_u64 nanos (if (by_ <=? U64_MAX)%N then by_ else U64_MAX).
(** [Duration::from_millis] *)
Definition from_millis (millis : N) : N := (millis * 1000000)%N.

(** ** Capabilities ([contract/capability.rs]) *)

Record ProviderCapabilities := MkProviderCapabilities {
  context_window : option N;
  max_output_tokens : option N;
  supports_streaming : bool;
  supports_tool_calls : bool;
  supports_structured_output : bool;
  supports_token_counting : bool;
}.
Definition ProviderCapabilities_unknown : ProviderCapabilities :=
  MkProviderCapabilities None None false false false false.
Definition context_window_or (c : ProviderCapabilities) (conservative : N) : N :=
  match context_window c with Some tokens => tokens | None => conservative end.
Definition max_output_tokens_or (c : ProviderCapabilities) (conservative : N) : N :=
  match max_output_tokens c with Some tokens => tokens | None => conservative end.
Definition capabilities_is_unknown (c : ProviderCapabilities) : bool :=
  is_none (context_window c) && is_none (max_output_tokens c) && negb (supports_streaming c)
  && negb (supports_tool_calls c) && negb (supports_structured_output c)
  && negb (supports_token_counting c).

(** ** Scripts ([script.rs]) *)

Definition SCRIPT_FIXTURE_VERSION : N := 1.
Definition MIN_SCRIPT_FIXTURE_VERSION : N := 1.
Definition MAX_SCRIPT_BYTES : nat := N.to_nat (64 * 1024).
Definition MAX_SCRIPT_STEPS : nat := 128.

Record ScenarioName := MkScenarioName { ScenarioName_str : string }.

Inductive ScriptError :=
| InvalidScenarioName (value : string)
| UnknownScenario (name : string)
| FixtureTooLarge (bytes : nat)
| InvalidFixture (error : string)
| FixtureTooNew (found supported : N)
| UnsupportedFixtureVersion (found : N)
| InvalidDefinition (scenario : ScenarioName) (reason : string)
| MisfiledFixture (expected : string) (found : ScenarioName).

Definition ScenarioName_new (value : string) : result ScriptError ScenarioName :=
  if snake_case 64 value then Ok (MkScenarioName value) else Err (InvalidScenarioName value).

Inductive ScriptFailure :=
| FailEndpointUnreachable (detail : string)
| FailAuthenticationFailed (detail : string)
| FailRateLimited (retry_after_millis : option N) (detail : string)
| FailContextOverflow (detail : string)
| FailProviderTimeout (detail : string)
| FailDisconnected (detail : string)
| FailMalformedResponse (detail : string)
| FailUnsupportedCapability (capability : string)
| FailEmptyResponse
| FailCancelled.

Inductive ScriptStep :=
| Emit (event : ModelEvent)
| Arguments (index : N) (text : list N) (split_at : list nat)
| Advance (millis : N)
| Fail_ (failure : ScriptFailure).

Record Script := MkScript {
  script_version : N;
  script_id : ScenarioName;
  script_capabilities : ProviderCapabilities;
  script_steps : list ScriptStep;
}.

Definition script_invalid (s : Script) (reason : string) : ScriptError :=
  InvalidDefinition (script_id s) reason.

(** The loop over one step's offsets. *)
Fixpoint validate_offsets (s : Script) (length previous : nat) (split_at : list nat)
    : result ScriptError unit :=
  match split_at with
  | [] => Ok tt
  | offset :: rest =>
    if length <? offset then Err (script_invalid s "a split offset is past the end of its text")
    else if offset <? previous then Err (script_invalid s "split offsets must not decrease")
    else validate_offsets s length offset rest
  end.

(** The loop over the steps, from a position. *)
Fixpoint validate_steps (s : Script) (position : nat) (steps : list ScriptStep)
    : result ScriptError unit :=
  match steps with
  | [] => Ok tt
  | step :: rest =>
    match step with
    | Fail_ _ =>
      if bool_decide (position + 1 = length (script_steps s)) then Ok tt
      else Err (script_invalid s "a failure ends the stream, so it must be the last step")
    | Arguments _ text split_at => validate_offsets s (length text) 0 split_at
    | _ => Ok tt
    end ≫= λ _, validate_steps s (position + 1) rest
  end.

Definition Script_validate (s : Script) : result ScriptError unit :=
  if MAX_SCRIPT_STEPS <? length (script_steps s)
  then Err (script_invalid s "a script exceeds the 128-step bound")
  else validate_steps s 0 (script_steps s).

(** [Script::from_json], over what [serde_json] decodes of the bytes: the version
    probe and the strict body. *)
Definition Script_from_json (probe : list N → result string N)
    (decode : list N → result string Script) (bytes : list N) : result ScriptError Script :=
  if MAX_SCRIPT_BYTES <? length bytes then Err (FixtureTooLarge (length bytes))
  else match probe bytes with
  | Err error => Err (InvalidFixture error)
  | Ok v =>
    if (SCRIPT_FIXTURE_VERSION <? v)%N then Err (FixtureTooNew v SCRIPT_FIXTURE_VERSION)
    else if (v <? MIN_SCRIPT_FIXTURE_VERSION)%N then Err (UnsupportedFixtureVersion v)
    else match decode bytes with
    | Err error => Err (InvalidFixture error)
    | Ok script => Script_validate script ≫= λ _, Ok script
    end
  end.

Section driver.
Context `{Json} {S : Type} `{!ModelEventSink S} (cancelled : nat → bool).

(** [ScriptFailure::to_error] *)
Definition to_error (f : ScriptFailure) : ProviderError :=
  match f with
  | FailEndpointUnreachable detail => endpoint_unreachable detail
  | FailAuthenticationFailed detail => authentication_failed detail
  | FailRateLimited retry_after_millis detail =>
    rate_limited (from_millis <$> retry_after_millis) detail
  | FailContextOverflow detail => context_overflow detail
  | FailProviderTimeout detail => provider_timeout detail
  | FailDisconnected detail => disconnected detail
  | FailMalformedResponse detail => malformed_response detail
  | FailUnsupportedCapability capability => unsupported_capability capability
  | FailEmptyResponse => EmptyResponse
  | FailCancelled => Cancelled
  end.

(** [offset.min(bytes.len()).max(previous)] *)
Definition clip (bytes : list N) (previous offset : nat) : nat :=
  (offset `min` length bytes)%nat `max` previous.

(** The loop of [fragments], from the offset reached. *)
Fixpoint fragment_loop (bytes : list N) (previous : nat) (offsets : list nat)
    : stateM Utf8Accumulator ProviderError (list (list N)) :=
  match offsets with
  | [] => mret []
  | offset :: rest =>
    let offset := clip bytes previous offset in
    released ← push (take (offset - previous) (drop previous bytes));
    more ← fragment_loop bytes offset rest;
    mret (if bool_decide (released = []) then more else released :: more)
  end.
Definition fragments (text : list N) (split_at : list nat) : result ProviderError (list (list N)) :=
  match fragment_loop text 0 (split_at ++ [length text]) Utf8Accumulator_new with
  | (Ok frags, accumulator) => Utf8.finish accumulator ≫= λ _, Ok frags
  | (Err error, _) => Err error
  end.

(** ** [TurnDriver] *)

Record TurnDriver := MkTurnDriver {
  td_assembler : TurnAssembler;
  td_sink : S;
  td_aborted : bool;
  td_polls : nat;
}.
Definition TurnDriver_with_assembler (sink : S) (assembler : TurnAssembler) : TurnDriver :=
  MkTurnDriver assembler sink false 0.

Definition set_assembler (a : TurnAssembler) (d : TurnDriver) : TurnDriver :=
  MkTurnDriver a (td_sink d) (td_aborted d) (td_polls d).
Definition set_sink (s : S) (d : TurnDriver) : TurnDriver :=
  MkTurnDriver (td_assembler d) s (td_aborted d) (td_polls d).
Definition set_aborted (d : TurnDriver) : TurnDriver :=
  MkTurnDriver (td_assembler d) (td_sink d) true (td_polls d).

Definition check_cancelled : stateM TurnDriver ProviderError unit := λ d,
  (if cancelled (td_polls d) then Err Cancelled else Ok tt,
   MkTurnDriver (td_assembler d) (td_sink d) (td_aborted d) (td_polls d + 1)).

(** [self.sink.event(event)] *)
Definition to_sink (event : ModelEvent) : stateM TurnDriver ProviderError SinkControl := λ d,
  let '(control, sink) := sink_event event (td_sink d) in (Ok control, set_sink sink d).

Definition deliver (now : N) (event : ModelEvent) : stateM TurnDriver ProviderError SinkControl :=
  check_cancelled;;
  absorbed ← zoom td_assembler set_assembler (observe now event);
  if decide (absorbed = IgnoredAfterCompletion) then mret Continue
  else
    control ← to_sink event;
    (if decide (control = Stop) then modify set_aborted else mret tt);;
    mret control.

Definition driver_finish (now : N) (d : TurnDriver) : result ProviderError TurnOutcome :=
  if td_aborted d && negb (ta_completed (td_assembler d))
  then Ok (abort_by_sink now (td_assembler d))
  else Assembler.finish now (td_assembler d).

Definition driver_fail (error : ProviderError) (d : TurnDriver) : ProviderError :=
  match error with
  | Disconnected detail None => Disconnected detail (Some (into_partial (td_assembler d)))
  | other => other
  end.

(** ** [ScriptedProvider::stream] *)

(** What stops the replay early: an error, or the sink. *)
Inductive replayed := Ended (r : result ProviderError TurnOutcome) | Ongoing.

(** Deliver an event; a sink that stops ends the turn. *)
Definition deliver_or_finish (now : N) (event : ModelEvent) (d : TurnDriver) : replayed * TurnDriver :=
  match deliver now event d with
  | (Err error, d) => (Ended (Err error), d)
  | (Ok Stop, d) => (Ended (driver_finish now d), d)
  | (Ok Continue, d) => (Ongoing, d)
  end.

(** The inner loop, over the fragments of one step. *)
Fixpoint deliver_fragments (now index : N) (frags : list (list N)) (d : TurnDriver)
    : replayed * TurnDriver :=
  match frags with
  | [] => (Ongoing, d)
  | fragment :: rest =>
    match deliver_or_finish now (ToolCallArgumentsDelta index fragment) d with
    | (Ongoing, d) => deliver_fragments now index rest d
    | ended => ended
    end
  end.

(** One step of the script, its token poll included; a step may move the clock. *)
Definition replay_step (step : ScriptStep) (now : N) (d : TurnDriver) : replayed * N * TurnDriver :=
  match check_cancelled d with
  | (Err error, d) => (Ended (Err error), now, d)
  | (Ok _, d) =>
    match step with
    | Advance millis => (Ongoing, clock_advance (from_millis millis) now, d)
    | Emit event => let '(r, d) := deliver_or_finish now event d in (r, now, d)
    | Arguments index text split_at =>
      match fragments text split_at with
      | Err error => (Ended (Err error), now, d)
      | Ok frags => let '(r, d) := deliver_fragments now index frags d in (r, now, d)
      end
    | Fail_ failure => (Ended (Err (driver_fail (to_error failure) d)), now, d)
    end
  end.

Fixpoint replay (steps : list ScriptStep) (now : N) (d : TurnDriver)
    : result ProviderError TurnOutcome * TurnDriver :=
  match steps with
  | [] => (driver_finish now d, d)
  | step :: rest =>
    match replay_step step now d with
    | (Ended r, _, d) => (r, d)
    | (Ongoing, now, d) => replay rest now d
    end
  end.

Definition stream (script : Script) (sink : S) : result ProviderError TurnOutcome * TurnDriver :=
  let d := TurnDriver_with_assembler sink (TurnAssembler_new AssemblyLimits_default) in
  match check_cancelled d with
  | (Err error, d) => (Err error, d)
  | (Ok _, d) => replay (script_steps script) 0 d
  end.
End driver.

(** ** What reaches the sink *)

Section delivery.
Context `{Json} {S : Type} `{!ModelEventSink S} (cancelled : nat → bool).

(** The events of a script, in order. *)
Definition step_events (step : ScriptStep) : list ModelEvent :=
  match step with
  | Emit event => [event]
  | Arguments index text split_at =>
    match fragments text split_at with
    | Ok frags => ToolCallArgumentsDelta index <$> frags
    | Err _ => []
    end
  | Advance _ | Fail_ _ => []
  end.
Definition script_events (steps : list ScriptStep) : list ModelEvent := steps ≫= step_events.

(** A sink after events, and that it asked for every one to be followed. *)
Definition feed_sink (sent : list ModelEvent) (sink : S) : S :=
  foldl (λ s e, (sink_event e s).2) sink sent.
Fixpoint all_continue (sent : list ModelEvent) (sink : S) : Prop :=
  match sent with
  | [] => True
  | e :: rest => (sink_event e sink).1 = Continue ∧ all_continue rest (sink_event e sink).2
  end.

Lemma feed_sink_snoc sent e sink :
  feed_sink (sent ++ [e]) sink = (sink_event e (feed_sink sent sink)).2.
Proof. unfold feed_sink. by rewrite foldl_app. Qed.

Lemma all_continue_snoc sent e : ∀ sink,
  all_continue sent sink → (sink_event e (feed_sink sent sink)).1 = Continue →
  all_continue (sent ++ [e]) sink.
Proof.
  induction sent as [|e' sent IH]; intros sink; cbn; [done|]. intros [? Hrest] He.
  split; [done|]. by apply IH.
Qed.

Lemma heard_app a b :
  heard (a ++ b) = heard a ++ if existsb is_completion a then [] else heard b.
Proof.
  induction a as [|e a IH]; cbn; [done|]. destruct (is_completion e); cbn; [done|]. by rewrite IH.
Qed.

Lemma heard_completed es : existsb is_completion (heard es) = existsb is_completion es.
Proof. induction es as [|e es IH]; cbn; [done|]. destruct (is_completion e) eqn:He; cbn; by rewrite ?He. Qed.

(** A turn under way, every event tried so far forwarded up to the completion. *)
Record progress (sink0 : S) (tried : list ModelEvent) (d : TurnDriver) : Prop := {
  pg_sink : td_sink d = feed_sink (heard tried) sink0;
  pg_reads : reads (heard tried) (td_assembler d);
  pg_live : td_aborted d = false;
  pg_continue : all_continue (heard tried) sink0;
  pg_polls : ∀ k, k < td_polls d → cancelled k = false;
}.

(** What an outcome reports of the events the sink was sent. *)
Definition outcome_of (sink0 : S) (sent : list ModelEvent) (o : TurnOutcome) : Prop :=
  turn_text (to_turn o) = text_of sent ∧
  (stop_of sent = Some (to_stop o)
   ∨ existsb is_completion sent = false ∧ to_stop o = AbortedBySink ∧
     ∃ pre e, sent = pre ++ [e] ∧ (sink_event e (feed_sink pre sink0)).1 = Stop ∧
     ∀ c, c ∈ turn_tool_calls (to_turn o) → is_ready c = true → readied (atc_index c) sent = true).

(** A turn that ended somewhere in [tried]. *)
Definition ended (sink0 : S) (tried : list ModelEvent)
    (r : result ProviderError TurnOutcome) (d : TurnDriver) : Prop :=
  ∃ sent, sent `prefix_of` heard tried ∧ td_sink d = feed_sink sent sink0 ∧
    (sent = [] ∨ ∃ pre e, sent = pre ++ [e] ∧ all_continue pre sink0) ∧
    (∀ k, k < td_polls d → cancelled k = true → td_polls d = Datatypes.S k ∧ r = Err Cancelled) ∧
    ∀ o, r = Ok o → outcome_of sink0 sent o.

Lemma all_continue_init sent : ∀ sink, all_continue sent sink →
  sent = [] ∨ ∃ pre e, sent = pre ++ [e] ∧ all_continue pre sink.
Proof.
  induction sent as [|e sent _] using rev_ind; intros sink Hall; [by left|]. right. exists sent, e.
  split; [done|]. revert sink Hall. induction sent as [|e' sent IH]; intros sink; cbn; [done|].
  intros [? Hr]. split; [done|]. by apply IH.
Qed.

Lemma ended_more sink0 tried more r d : ended sink0 tried r d → ended sink0 (tried ++ more) r d.
Proof.
  intros (sent & Hpre & Hrest). exists sent. split; [|done].
  etrans; [exact Hpre|]. rewrite heard_app. by apply prefix_app_r.
Qed.

(** Stopping where it is, with an error. *)
Lemma progress_error sink0 tried d e d' :
  progress sink0 tried d → td_sink d' = td_sink d → td_polls d' = td_polls d →
  ended sink0 tried (Err e) d'.
Proof.
  intros [Hs Hr Hl Hc Hp] Hs' Hp'. exists (heard tried). rewrite Hs', Hp'.
  split_and!; [done|done|by apply all_continue_init| |done].
  intros k Hk Hcan. by rewrite Hp in Hcan.
Qed.

Lemma check_cancelled_spec sink0 tried d :
  progress sink0 tried d →
  match check_cancelled cancelled d with
  | (Ok _, d') => progress sink0 tried d'
      ∧ td_assembler d' = td_assembler d ∧ td_sink d' = td_sink d
  | (Err error, d') => ended sink0 tried (Err error) d'
  end.
Proof.
  intros [Hs Hr Hl Hc Hp]. unfold check_cancelled. destruct (cancelled (td_polls d)) eqn:Hcan.
  - exists (heard tried). cbn. split_and!; [done|done|by apply all_continue_init| |done].
    intros k Hk Hk'. assert (k = td_polls d ∨ k < td_polls d) as [-> |Hlt] by lia.
    + split; [lia|done].
    + by rewrite Hp in Hk'.
  - split; [|done]. split; cbn; try done. intros k Hk.
    assert (k = td_polls d ∨ k < td_polls d) as [-> |Hlt] by lia; [done|by apply Hp].
Qed.

Lemma finish_outcome sink0 sent s now o : reads sent s →
  Assembler.finish now s = Ok o → outcome_of sink0 sent o.
Proof.
  intros Hr. unfold Assembler.finish. destruct (ta_completed s) eqn:Hco; [|by case_match].
  intros [= <-]. split; cbn; [by destruct (turn_of_reads sent s false Hr)|]. left.
  rewrite (rd_stop _ _ Hr). rewrite (rd_completed _ _ Hr) in Hco.
  assert (is_Some (stop_of sent)) as [stop ->]; [|done].
  clear -Hco. induction sent as [|e sent IH] using rev_ind; [done|].
  unfold stop_of in *. rewrite foldl_app. rewrite existsb_snoc in Hco.
  destruct e; cbn in *; rewrite ?orb_false_r in Hco; eauto.
Qed.

Lemma deliver_eq now e d :
  deliver cancelled now e d =
  match check_cancelled cancelled d with
  | (Err error, d) => (Err error, d)
  | (Ok _, d) =>
    match observe now e (td_assembler d) with
    | (Err error, a) => (Err error, set_assembler a d)
    | (Ok IgnoredAfterCompletion, a) => (Ok Continue, set_assembler a d)
    | (Ok Recorded, a) =>
      let '(control, sink) := sink_event e (td_sink d) in
      let d := set_sink sink (set_assembler a d) in
      (Ok control, match control with Stop => set_aborted d | Continue => d end)
    end
  end.
Proof.
  unfold deliver, zoom, mbind, stateM_bind, to_sink, mret, stateM_ret, modify.
  destruct (check_cancelled cancelled d) as [[[]|error] d1]; [|done].
  destruct (observe now e (td_assembler d1)) as [[[]|error] a]; [|done|done].
  rewrite decide_False by done. cbn. destruct (sink_event e (td_sink d1)) as [control sink].
  destruct control; cbn; [by rewrite decide_False|by rewrite decide_True].
Qed.

Lemma deliver_or_finish_spec sink0 tried now e d :
  progress sink0 tried d →
  match deliver_or_finish cancelled now e d with
  | (Ongoing, d') => progress sink0 (tried ++ [e]) d'
  | (Ended r, d') => ended sink0 (tried ++ [e]) r d'
  end.
Proof.
  intros Hpg. unfold deliver_or_finish. rewrite deliver_eq.
  pose proof (check_cancelled_spec sink0 tried d Hpg) as Hcheck.
  destruct (check_cancelled cancelled d) as [[[]|error] d1]; [|by apply ended_more].
  destruct Hcheck as (Hpg1 & _ & _). clear d Hpg.
  pose proof Hpg1 as [Hs Hr Hl Hc Hp]. rewrite observe_eq, (rd_completed _ _ Hr), heard_completed.
  destruct (existsb is_completion tried) eqn:Hco; cbn.
  { split; cbn; rewrite ?heard_app, ?Hco, ?app_nil_r; try done.
    exact (reads_ignored _ _ (reads_counted _ now _ Hr)). }
  destruct (absorb_event e (count_event now (td_assembler d1))) as [[[]|error] a] eqn:Habs; cbn.
  2:{ apply ended_more. eapply progress_error; [exact Hpg1|done|done]. }
  assert (reads (heard tried ++ [e]) a) as Hra.
  { eapply reads_step; [by apply reads_counted| |exact Habs]. cbn.
    by rewrite (rd_completed _ _ Hr), heard_completed. }
  assert (heard (tried ++ [e]) = heard tried ++ [e]) as Hheard.
  { rewrite heard_app, Hco. cbn. by destruct (is_completion e). }
  destruct (sink_event e (td_sink d1)) as [control sink] eqn:Hsink. rewrite Hs in Hsink.
  destruct control; cbn.
  - split; cbn; rewrite ?Hheard; try done.
    + by rewrite feed_sink_snoc, Hsink.
    + apply all_continue_snoc; [done|]. by rewrite Hsink.
  - exists (heard tried ++ [e]). rewrite Hheard. cbn.
    split_and!; [done|by rewrite feed_sink_snoc, Hsink|right; eauto| |].
    + intros k Hk Hcan. by rewrite Hp in Hcan.
    + unfold driver_finish. cbn. intros o. destruct (ta_completed a) eqn:Hca; cbn.
      * by apply finish_outcome.
      * intros [= <-]. split; cbn; [by destruct (turn_of_reads _ a true Hra)|]. right.
        rewrite <-(rd_completed _ _ Hra). split; [done|]. split; [done|].
        exists (heard tried), e. split; [done|]. split; [by rewrite Hsink|].
        intros c Hin Hready. pose proof (ready_closed _ _ _ _ Hra Hin Hready eq_refl) as Hcl.
        unfold closed_whole in Hcl. by rewrite <-(rd_completed _ _ Hra), Hca, orb_false_r in Hcl.
Qed.

Lemma deliver_fragments_spec sink0 now i frags : ∀ tried d,
  progress sink0 tried d →
  match deliver_fragments cancelled now i frags d with
  | (Ongoing, d') => progress sink0 (tried ++ (ToolCallArgumentsDelta i <$> frags)) d'
  | (Ended r, d') => ended sink0 (tried ++ (ToolCallArgumentsDelta i <$> frags)) r d'
  end.
Proof.
  induction frags as [|f frags IH]; intros tried d Hpg; cbn [deliver_fragments fmap list_fmap].
  - by rewrite app_nil_r.
  - pose proof (deliver_or_finish_spec sink0 tried now (ToolCallArgumentsDelta i f) d Hpg) as Hd.
    rewrite (cons_middle _ tried), app_assoc.
    destruct (deliver_or_finish _ _ _ _) as [[r|] d']; [by apply ended_more|]. by apply IH.
Qed.

Lemma replay_step_spec sink0 tried step now d :
  progress sink0 tried d →
  match replay_step cancelled step now d with
  | (Ongoing, _, d') => progress sink0 (tried ++ step_events step) d'
  | (Ended r, _, d') => ended sink0 (tried ++ step_events step) r d'
  end.
Proof.
  intros Hpg. unfold replay_step. pose proof (check_cancelled_spec sink0 tried d Hpg) as Hcheck.
  destruct (check_cancelled cancelled d) as [[[]|error] d1]; [|by apply ended_more].
  destruct Hcheck as (Hpg1 & _ & _). destruct step as [e|i text split_at|ms|f]; cbn [step_events].
  - pose proof (deliver_or_finish_spec sink0 tried now e d1 Hpg1) as Hd.
    by destruct (deliver_or_finish _ _ _ _) as [[r|] d'].
  - destruct (fragments text split_at) as [frags|error].
    + pose proof (deliver_fragments_spec sink0 now i frags tried d1 Hpg1) as Hd.
      by destruct (deliver_fragments _ _ _ _ _) as [[r|] d'].
    + rewrite app_nil_r. by eapply progress_error.
  - by rewrite app_nil_r.
  - rewrite app_nil_r. by eapply progress_error.
Qed.

Lemma replay_spec sink0 steps : ∀ tried now d,
  progress sink0 tried d →
  let '(r, d') := replay cancelled steps now d in ended sink0 (tried ++ script_events steps) r d'.
Proof.
  induction steps as [|step steps IH]; intros tried now d Hpg; cbn [replay].
  - unfold script_events. cbn. rewrite app_nil_r. destruct Hpg as [Hs Hr Hl Hc Hp].
    exists (heard tried). split_and!; [done|done|by apply all_continue_init| |].
    + intros k Hk Hcan. by rewrite Hp in Hcan.
    + unfold driver_finish. rewrite Hl. cbn. intros o. by apply finish_outcome.
  - pose proof (replay_step_spec sink0 tried step now d Hpg) as Hstep.
    change (script_events (step :: steps)) with (step_events step ++ script_events steps).
    rewrite app_assoc. destruct (replay_step cancelled step now d) as [[[r|] now'] d']; [by apply ended_more|].
    apply (IH _ now' d' Hstep).
Qed.

(** What a sink hears of a replayed script.  It is sent a prefix of the script's
    events that ends with the turn: nothing after the completion, nothing after it
    answered [Stop], and nothing after the poll that saw the cancellation, which is
    the last poll and makes the result [Cancelled].  A successful outcome is of just
    those events: its text is theirs, and it stopped as the provider said or, when
    the sink stopped an incomplete turn, as aborted by the sink, with no call
    executable unless the provider had readied it. *)
Theorem sink_hears_the_turn script sink :
  let '(r, d) := stream cancelled script sink in
  ∃ sent, sent `prefix_of` heard (script_events (script_steps script)) ∧
    td_sink d = feed_sink sent sink ∧
    (sent = [] ∨ ∃ pre e, sent = pre ++ [e] ∧ all_continue pre sink) ∧
    (∀ k, k < td_polls d → cancelled k = true → td_polls d = Datatypes.S k ∧ r = Err Cancelled) ∧
    ∀ o, r = Ok o → outcome_of sink sent o.
Proof.
  unfold stream.
  assert (progress sink [] (TurnDriver_with_assembler sink (TurnAssembler_new AssemblyLimits_default)))
    as Hpg.
  { split; try done; [apply reads_new|]. intros k Hk. cbn in Hk. lia. }
  pose proof (check_cancelled_spec sink [] _ Hpg) as Hcheck.
  destruct (check_cancelled _ _) as [[[]|error] d1].
  - destruct Hcheck as [Hpg1 _].
    pose proof (replay_spec sink (script_steps script) [] 0 d1 Hpg1) as Hr.
    destruct (replay cancelled (script_steps script) 0 d1) as [r d]. exact Hr.
  - by apply (ended_more sink [] (script_events (script_steps script))) in Hcheck.
Qed.
End delivery.

(** ** Arguments chopped anywhere *)

Section chopping.
Context `{Json}.

(** The slices [fragments] pushes. *)
Fixpoint slices (bytes : list N) (previous : nat) (offsets : list nat) : list (list N) :=
  match offsets with
  | [] => []
  | offset :: rest =>
    let offset := clip bytes previous offset in
    take (offset - previous) (drop previous bytes) :: slices bytes offset rest
  end.

Lemma concat_slices bytes offsets : ∀ previous, previous ≤ length bytes →
  concat (slices bytes previous (offsets ++ [length bytes])) = drop previous bytes.
Proof.
  induction offsets as [|o offsets IH]; intros previous Hle; cbn [slices app concat].
  - rewrite app_nil_r. apply take_ge. unfold clip. rewrite length_drop. lia.
  - rewrite IH by (unfold clip; lia).
    replace (drop (clip bytes previous o) bytes)
      with (drop (clip bytes previous o - previous) (drop previous bytes)).
    + apply take_drop.
    + rewrite drop_drop. f_equal. unfold clip. lia.
Qed.

Lemma fragment_loop_pushes bytes offsets : ∀ previous s, holding s →
  match pushes (slices bytes previous offsets) s with
  | (Ok text, s') => ∃ frags, fragment_loop bytes previous offsets s = (Ok frags, s') ∧
      concat frags = text ∧ Forall (λ f, f ≠ [] ∧ valid f) frags
  | (Err error, s') => fragment_loop bytes previous offsets s = (Err error, s')
  end.
Proof.
  induction offsets as [|o offsets IH]; intros previous s Hs; cbn [slices pushes fragment_loop].
  - exists []. by split_and!.
  - unfold mbind, stateM_bind, mret, stateM_ret in *.
    destruct (push (take (clip bytes previous o - previous) (drop previous bytes)) s)
      as [[released|error] s1] eqn:Hpush; [|done].
    destruct (push_holding _ _ _ _ Hs Hpush) as (Hs1 & Hval & _).
    specialize (IH (clip bytes previous o) s1 Hs1).
    destruct (pushes (slices bytes (clip bytes previous o) offsets) s1)
      as [[more|error] s2]; [|by rewrite IH].
    destruct IH as (frags & -> & <- & Hall). eexists. split; [done|]. case_bool_decide; subst; [done|].
    split; [done|]. by constructor.
Qed.

Lemma fragments_whole text split_at : valid text →
  ∃ frags, fragments text split_at = Ok frags ∧ concat frags = text ∧
    Forall (λ f, f ≠ [] ∧ valid f) frags.
Proof.
  intros Hval. unfold fragments.
  assert (concat (slices text 0 (split_at ++ [length text])) = text) as Hcat
    by (rewrite concat_slices by lia; done).
  pose proof (fragment_loop_pushes text (split_at ++ [length text]) 0 Utf8Accumulator_new
    (conj eq_refl (or_introl eq_refl))) as Hloop.
  pose proof (pushes_stream (slices text 0 (split_at ++ [length text]))) as Hpush.
  cbv zeta in Hpush. rewrite Hcat in Hpush. unfold valid in Hval. rewrite Hval in Hpush.
  destruct (pushes (slices text 0 (split_at ++ [length text])) Utf8Accumulator_new) as [r s'].
  destruct Hpush as (-> & _ & Hfin). destruct Hloop as (frags & -> & Hc & Hall). rewrite Hfin.
  by exists frags.
Qed.

(** A call assembles the same however its arguments are chopped.  Chopped at any
    byte offsets, inside characters too, a text comes out as fragments that are each
    whole, non-empty text and together the text; and observing them one by one
    leaves the same calls and the same turn as observing the text at once. *)
Theorem split_call_assembles_identically limits events index call text split_at now :
  let s := after_all events (TurnAssembler_new limits) in
  ta_completed s = false →
  bt_get index (ta_calls s) = Some (Open call) →
  length (oc_raw_arguments call) + length text ≤ max_tool_call_argument_bytes limits →
  valid text →
  ∃ frags whole pieces,
    fragments text split_at = Ok frags ∧ concat frags = text ∧
    Forall (λ f, f ≠ [] ∧ valid f) frags ∧
    observes [(now, ToolCallArgumentsDelta index text)] s = (Ok tt, whole) ∧
    observes ((λ f, (now, ToolCallArgumentsDelta index f)) <$> frags) s = (Ok tt, pieces) ∧
    ta_calls pieces = ta_calls whole ∧ ∀ t, take_turn t pieces = take_turn t whole.
Proof.
  intros s Hco Hg Hlen Hval. destruct (within_after events _ (within_new limits)) as [Hw Hl].
  fold s in Hw, Hl. cbn in Hl.
  destruct (fragments_whole text split_at Hval) as (frags & Hf & Hc & Hall).
  destruct (split_arguments_assemble index (pair now <$> frags) text now s call Hco (wl_sorted _ Hw) Hg)
    as (whole & pieces & Hwh & Hpi & Hcalls & Hturn).
  - rewrite <-Hc. f_equal. clear. induction frags; cbn; congruence.
  - by rewrite Hl.
  - exists frags, whole, pieces. split_and!; try done.
    unfold fragment_events in Hpi. rewrite <-list_fmap_compose in Hpi. exact Hpi.
Qed.
End chopping.

(** ** What a validated script is *)

Lemma validate_offsets_Ok s len split_at : ∀ previous,
  validate_offsets s len previous split_at = Ok tt →
  Forall (λ o, previous ≤ o ≤ len) split_at ∧ StronglySorted le split_at.
Proof.
  induction split_at as [|o split_at IH]; intros previous; cbn [validate_offsets]; [by repeat constructor|].
  destruct (Nat.ltb_spec len o); [done|]. destruct (Nat.ltb_spec o previous); [done|].
  intros [Hall Hsorted]%IH. split; constructor; [lia| |done|].
  - eapply List.Forall_impl; [|exact Hall]. cbn. lia.
  - eapply List.Forall_impl; [|exact Hall]. cbn. lia.
Qed.

Lemma validate_steps_Ok s steps : ∀ position,
  validate_steps s position steps = Ok tt →
  ∀ i step, steps !! i = Some step →
  match step with
  | Fail_ _ => position + i + 1 = length (script_steps s)
  | Arguments _ text split_at => validate_offsets s (length text) 0 split_at = Ok tt
  | _ => True
  end.
Proof.
  induction steps as [|st steps IH]; intros position Hok i step Hi; [done|].
  cbn [validate_steps] in Hok. apply bind_Ok in Hok as ([] & Hst & Hrest).
  destruct i as [|i]; cbn in Hi.
  - injection Hi as ->. destruct step; try done. case_bool_decide; [lia|done].
  - specialize (IH _ Hrest i step Hi). destruct step; try done. lia.
Qed.

(** A script that loads is within its bounds: the fixture and the number of steps
    are capped, a failure is only ever the last step, and every split offset lies in
    its text and does not decrease.  What loads is what the strict body decodes to,
    under a version this build supports. *)
Theorem loaded_script_is_replayable probe decode bytes script :
  Script_from_json probe decode bytes = Ok script →
  length bytes ≤ MAX_SCRIPT_BYTES ∧ probe bytes = Ok SCRIPT_FIXTURE_VERSION ∧
  decode bytes = Ok script ∧ length (script_steps script) ≤ MAX_SCRIPT_STEPS ∧
  (∀ i failure, script_steps script !! i = Some (Fail_ failure) → i + 1 = length (script_steps script)) ∧
  (∀ i index text split_at, script_steps script !! i = Some (Arguments index text split_at) →
     Forall (λ o, o ≤ length text) split_at ∧ StronglySorted le split_at).
Proof.
  unfold Script_from_json. destruct (Nat.ltb_spec MAX_SCRIPT_BYTES (length bytes)); [done|].
  destruct (probe bytes) as [v|]; [|done].
  destruct (N.ltb_spec SCRIPT_FIXTURE_VERSION v); [done|].
  destruct (N.ltb_spec v MIN_SCRIPT_FIXTURE_VERSION); [done|].
  destruct (decode bytes) as [s|]; [|done]. intros Hok.
  apply bind_Ok in Hok as ([] & Hvalid & [= <-]). unfold Script_validate in Hvalid.
  destruct (Nat.ltb_spec MAX_SCRIPT_STEPS (length (script_steps s))); [done|].
  pose proof (validate_steps_Ok _ _ _ Hvalid) as Hsteps.
  split_and!; [done| |done|done| |].
  - f_equal. unfold SCRIPT_FIXTURE_VERSION, MIN_SCRIPT_FIXTURE_VERSION in *. lia.
  - intros i failure Hi. specialize (Hsteps _ _ Hi). cbn in Hsteps. lia.
  - intros i index text split_at Hi. specialize (Hsteps _ _ Hi). cbn in Hsteps.
    apply validate_offsets_Ok in Hsteps as [Hall ?]. split; [|done].
    eapply List.Forall_impl; [|exact Hall]. cbn. lia.
Qed.

(** The bound of a recorder: it keeps a prefix of what it is sent, and asks for the
    turn to stop when it is full. *)
Lemma recorder_keeps_prefix `{Json} sent : ∀ r, length (re_events r) ≤ re_capacity r →
  let r' := feed_sink sent r in
  re_capacity r' = re_capacity r ∧
  re_events r' = re_events r ++ take (re_capacity r - length (re_events r)) sent.
Proof.
  induction sent as [|e sent IH]; intros r Hle; [cbn; by rewrite take_nil, app_nil_r|].
  cbn [feed_sink foldl]. unfold sink_event, RecordedEvents_sink, is_full.
  destruct (Nat.leb_spec (re_capacity r) (length (re_events r))) as [Hfull|Hroom]; cbn [snd].
  - destruct (IH r Hle) as [Hc Hev]. unfold feed_sink, sink_event, RecordedEvents_sink, is_full in *.
    rewrite Hc, Hev. split; [done|]. by replace (re_capacity r - length (re_events r)) with 0 by lia.
  - destruct (IH (MkRecordedEvents (re_events r ++ [e]) (re_capacity r))) as [Hc Hev];
      [cbn; rewrite length_app; cbn; lia|].
    unfold feed_sink, sink_event, RecordedEvents_sink, is_full in *. cbn in *.
    rewrite Hc, Hev. split; [done|]. rewrite <-app_assoc. f_equal. rewrite length_app. cbn.
    destruct (re_capacity r - length (re_events r)) as [|k] eqn:Hk; [lia|]. cbn. do 2 f_equal. lia.
Qed.

(** ** Concrete instances *)

(** A text with a two-byte character, chopped inside it and at its end. *)
Definition demo_text : list N := [123; 0xC3; 0xA9; 125]%N.
Definition demo_open : list (N * ModelEvent) := [(1%N, ToolCallStarted 0 None (Some "fs.read"))].

Lemma split_call_assembles_identically_witness :
  ∃ frags, fragments demo_text [2; 2; 4] = Ok frags ∧ concat frags = demo_text ∧
    Forall (λ f, f ≠ [] ∧ valid f) frags.
Proof.
  destruct (split_call_assembles_identically demo_limits demo_open 0
    (MkOpenCall 0 (ProviderToolCallId_synthesized 1) Synthesized None (Some "fs.read") [])
    demo_text [2; 2; 4] 3) as (frags & _ & _ & Hf & Hc & Hall & _).
  - by vm_compute.
  - by vm_compute.
  - cbn. lia.
  - by vm_compute.
  - by exists frags.
Defined.

(** A repeated offset is accepted. *)
Definition demo_script : Script :=
  MkScript 1 (MkScenarioName "chopped") ProviderCapabilities_unknown
    [Emit (TurnStarted None); Arguments 0 demo_text [2; 2; 4]; Fail_ FailEmptyResponse].

Lemma loaded_script_is_replayable_witness :
  Script_from_json (λ _, Ok 1%N) (λ _, Ok demo_script) [] = Ok demo_script ∧
  2 + 1 = length (script_steps demo_script).
Proof.
  assert (Script_from_json (λ _, Ok 1%N) (λ _, Ok demo_script) [] = Ok demo_script) as Hok by reflexivity.
  split; [exact Hok|].
  destruct (loaded_script_is_replayable _ _ _ _ Hok) as (_ & _ & _ & _ & Hfail & _).
  by apply (Hfail 2 FailEmptyResponse).
Defined.
