(* ===== verification/Registry.v ===== *)
(** * The tools a process can execute

    Models [src/crates/harkness-runtime/src/tool/registry.rs]: the two indices of
    the registered tools, registration, resolution with and without a version, and
    the invocation that resolves once and runs.  A tool is a parameter with its
    descriptor and its execution; [semver]'s order is a parameter with the laws of
    an [Ord] instance. *)

From Stdlib Require Import Sorted.
From stdpp Require Import base decidable list sorting strings.
From S2P Require Import Prelude Tool Btree.

(** [Ord] for [semver::Version] *)
Class VersionLaws `{Platform} := {
  Version_leb_refl : ∀ a, Version_leb a a = true;
  Version_leb_trans : ∀ a b c, Version_leb a b = true → Version_leb b c = true → Version_leb a c = true;
  Version_leb_total : ∀ a b, Version_leb a b = true ∨ Version_leb b a = true;
  Version_leb_antisym : ∀ a b, Version_leb a b = true → Version_leb b a = true → a = b;
}.

#[export] Instance demo_version_laws : VersionLaws.
Proof.
  split.
  - intros [n b]. cbn. destruct (N.ltb_spec n n); [done|]. rewrite N.eqb_refl. by destruct b.
  - intros [n b] [m c] [k d]. cbn. destruct b, c, d; cbn; rewrite ?andb_false_r, ?andb_true_r, ?orb_false_r;
      rewrite ?orb_true_iff, ?N.ltb_lt, ?N.eqb_eq; lia.
  - intros [n b] [m c]. cbn. destruct b, c; cbn; rewrite ?andb_false_r, ?andb_true_r, ?orb_false_r;
      rewrite ?orb_true_iff, ?N.ltb_lt, ?N.eqb_eq; lia.
  - intros [n b] [m c]. cbn. destruct b, c; cbn; rewrite ?andb_false_r, ?andb_true_r, ?orb_false_r;
      rewrite ?orb_true_iff, ?N.ltb_lt, ?N.eqb_eq; intros; f_equal; lia.
Qed.

(** The derived orders of the two keys. *)
#[export] Instance ToolId_order : KeyOrder ToolId :=
  λ a b, negb (String.leb (ToolId_as_str b) (ToolId_as_str a)).
#[export] Instance ToolVersion_order `{Platform} : KeyOrder ToolVersion :=
  λ a b, negb (Version_leb (as_semver b) (as_semver a)).

Section registry.
Context `{Platform} {Tool : Type} (descriptor : Tool → ToolDescriptor).

Definition identity (tool : Tool) : ToolIdentity := td_identity (descriptor tool).

(** The variants of [RegistryError] raised here. *)
Inductive RegistryError :=
| DuplicateRegistration (tool : ToolIdentity)
| UnknownTool (id : string)
| UnknownToolVersion (id version : string) (available : list string).

(** [HashMap<ToolIdentity, _>], of which the registry uses [contains_key], [get],
    [len] and [insert] of an absent key. *)
Fixpoint hm_get (key : ToolIdentity) (m : list (ToolIdentity * Tool)) : option Tool :=
  match m with
  | [] => None
  | (key', tool) :: rest => if decide (key = key') then Some tool else hm_get key rest
  end.

Record ToolRegistry := MkToolRegistry {
  tools : list (ToolIdentity * Tool);
  ordered : BTreeMap ToolId (BTreeMap ToolVersion Tool);
}.
Definition ToolRegistry_new : ToolRegistry := MkToolRegistry [] [].

(** The versions under an identifier, [or_default]. *)
Definition versions_of (id : ToolId) (r : ToolRegistry) : BTreeMap ToolVersion Tool :=
  default [] (bt_get id (ordered r)).

Definition register_erased (tool : Tool) : stateM ToolRegistry RegistryError unit := λ r,
  let key := identity tool in
  if is_some (hm_get key (tools r)) then (Err (DuplicateRegistration key), r)
  else
    let entry := bt_insert (ti_version key) tool (versions_of (ti_id key) r) in
    (Ok tt, MkToolRegistry ((key, tool) :: tools r) (bt_insert (ti_id key) entry (ordered r))).

(** The last entry that is stable, or the last. *)
Definition latest (id : ToolId) (r : ToolRegistry) : option (ToolVersion * Tool) :=
  match bt_get id (ordered r) with
  | None => None
  | Some by_version =>
    match find (λ e, negb (is_prerelease e.1)) (reverse by_version) with
    | Some entry => Some entry
    | None => last by_version
    end
  end.

Definition get (id : ToolId) (version : option ToolVersion) (r : ToolRegistry) : option Tool :=
  match version with
  | Some version => hm_get (MkToolIdentity id version) (tools r)
  | None => snd <$> latest id r
  end.

Definition resolve (id : ToolId) (version : option ToolVersion) (r : ToolRegistry)
    : result RegistryError Tool :=
  match bt_get id (ordered r) with
  | None => Err (UnknownTool (ToolId_as_str id))
  | Some by_version =>
    match version with
    | None => from_option_err (UnknownTool (ToolId_as_str id)) (snd <$> latest id r)
    | Some version =>
      from_option_err
        (UnknownToolVersion (ToolId_as_str id) (Version_to_string (as_semver version))
           ((λ v, Version_to_string (as_semver v)) <$> bt_keys by_version))
        (hm_get (MkToolIdentity id version) (tools r))
    end
  end.

Definition latest_version (id : ToolId) (r : ToolRegistry) : option ToolVersion :=
  fst <$> latest id r.
Definition versions (id : ToolId) (r : ToolRegistry) : list ToolVersion :=
  bt_keys (versions_of id r).
Definition descriptors (r : ToolRegistry) : list ToolDescriptor :=
  bt_values (ordered r) ≫= λ by_version, descriptor <$> bt_values by_version.
Definition ids (r : ToolRegistry) : list ToolId := bt_keys (ordered r).
Definition registry_len (r : ToolRegistry) : nat := length (tools r).

(** ** Invocation *)

Section invoke.
Context {Input Output Context ToolError : Type}
  (execute_json : Tool → Input → stateM Context ToolError Output).

Record ToolOutcome := MkToolOutcome { outcome_tool : ToolIdentity; outcome_output : Output }.
Inductive InvocationError :=
| Resolution (error : RegistryError)
| InvocationTool (tool : ToolIdentity) (error : ToolError).

Definition invoke (r : ToolRegistry) (id : ToolId) (version : option ToolVersion) (input : Input)
    : stateM Context InvocationError ToolOutcome := λ context,
  match resolve id version r with
  | Err error => (Err (Resolution error), context)
  | Ok tool =>
    match execute_json tool input context with
    | (Ok output, context) => (Ok (MkToolOutcome (identity tool) output), context)
    | (Err error, context) => (Err (InvocationTool (identity tool) error), context)
    end
  end.

Definition invoke_resolved (tool : Tool) (input : Input) : stateM Context ToolError ToolOutcome :=
  output ← execute_json tool input;
  mret (MkToolOutcome (identity tool) output).
End invoke.

(** Registering a list of tools, refused ones skipped. *)
Definition register_all (ts : list Tool) (r : ToolRegistry) : ToolRegistry :=
  foldl (λ r t, after (register_erased t) r) r ts.
End registry.

(** ** What registration maintains *)

#[global] Arguments bt_get : simpl never.
#[global] Arguments bt_insert : simpl never.

#[export] Instance ToolId_order_laws : KeyOrderLaws ToolId.
Proof.
  apply (key_order_of_leb (λ a b, String.leb (ToolId_as_str a) (ToolId_as_str b))).
  - intros [a]. apply Is_true_true, (reflexivity (R := String.le)).
  - intros [a] [b] [c]. rewrite <-!Is_true_true. apply (transitivity (R := String.le)).
  - intros [a] [b]. apply String.leb_total.
  - intros [a] [b] Hab Hba. f_equal. by apply String.leb_antisym.
Qed.

#[export] Instance ToolVersion_order_laws `{VersionLaws} : KeyOrderLaws ToolVersion.
Proof.
  apply (key_order_of_leb (λ a b, Version_leb (as_semver a) (as_semver b))).
  - intros [a]. apply Version_leb_refl.
  - intros [a] [b] [c]. apply Version_leb_trans.
  - intros [a] [b]. apply Version_leb_total.
  - intros [a] [b] Hab Hba. f_equal. by apply Version_leb_antisym.
Qed.

Section laws.
Context `{VersionLaws} {Tool : Type} (descriptor : Tool → ToolDescriptor).
Abbreviation identity := (identity descriptor).

(** The first tool of a list to claim an identity. *)
Definition claimant (ts : list Tool) (id : ToolId) (v : ToolVersion) : option Tool :=
  find (λ t, bool_decide (identity t = MkToolIdentity id v)) ts.

Lemma find_snoc {A} (f : A → bool) l x :
  find f (l ++ [x]) = match find f l with Some y => Some y | None => if f x then Some x else None end.
Proof. induction l as [|y l IH]; cbn; [done|]. destruct (f y); [done|exact IH]. Qed.

Record registered (ts : list Tool) (r : ToolRegistry) : Prop := {
  rg_sorted : bt_sorted (ordered r);
  rg_inner : ∀ id bv, bt_get id (ordered r) = Some bv → bt_sorted bv ∧ bv ≠ [];
  rg_tools : ∀ id v, hm_get (MkToolIdentity id v) (tools r) = claimant ts id v;
  rg_ordered : ∀ id v, bt_get v (versions_of id r) = claimant ts id v;
}.

Lemma versions_sorted ts r id : registered ts r → bt_sorted (versions_of id r).
Proof.
  intros Hr. unfold versions_of. destruct (bt_get id (ordered r)) as [bv|] eqn:Hg; [|constructor].
  by apply (rg_inner _ _ Hr) in Hg as [? _].
Qed.

Lemma bt_insert_ne {V} k (v : V) m : bt_insert (K := ToolVersion) k v m ≠ [].
Proof.
  unfold bt_insert. destruct m as [|[k' v'] m]; [done|]. by repeat case_match.
Qed.

Lemma registered_step ts r t :
  registered ts r → registered (ts ++ [t]) (after (register_erased descriptor t) r).
Proof.
  intros Hr. destruct Hr as [Hs Hi Ht Ho]. unfold after, register_erased.
  destruct (identity t) as [tid tv] eqn:Hid. rewrite Ht.
  assert (∀ id v, claimant (ts ++ [t]) id v =
    match claimant ts id v with
    | Some y => Some y
    | None => if decide (id = tid ∧ v = tv) then Some t else None end) as Hsnoc.
  { intros id v. unfold claimant. rewrite find_snoc. destruct (find _ ts); [done|].
    rewrite Hid. case_bool_decide; case_decide; naive_solver. }
  destruct (claimant ts tid tv) as [winner|] eqn:Hwin; cbn [is_some snd].
  - assert (∀ id v, claimant (ts ++ [t]) id v = claimant ts id v) as Hsame.
    { intros id v. rewrite Hsnoc. destruct (claimant ts id v) eqn:Hc; [done|].
      rewrite decide_False; [done|]. intros [-> ->]. congruence. }
    split; try done; intros; rewrite Hsame; [by rewrite Ht|by rewrite Ho].
  - assert (bt_sorted (versions_of tid r)) as Hv.
    { unfold versions_of. destruct (bt_get tid (ordered r)) as [bv|] eqn:Hg; [|constructor].
      by apply Hi in Hg as [? _]. }
    split; cbn [ordered tools ti_id ti_version].
    + by apply bt_sorted_insert.
    + intros id bv. destruct (decide (id = tid)) as [->|Hne].
      * rewrite bt_get_insert. intros [= <-]. split; [by apply bt_sorted_insert|apply bt_insert_ne].
      * rewrite bt_get_insert_ne by done. apply Hi.
    + intros id v. rewrite Hsnoc. cbn [hm_get]. case_decide as Hk.
      * injection Hk as -> ->. rewrite Hwin. by rewrite decide_True.
      * rewrite Ht. destruct (claimant ts id v); [done|]. rewrite decide_False; [done|].
        intros [-> ->]. done.
    + intros id v. rewrite Hsnoc. unfold versions_of at 1. cbn [ordered].
      destruct (decide (id = tid)) as [->|Hne].
      * rewrite bt_get_insert. simpl. destruct (decide (v = tv)) as [->|Hnv].
        -- rewrite bt_get_insert, Hwin. by rewrite decide_True.
        -- rewrite bt_get_insert_ne by done. rewrite Ho. destruct (claimant ts tid v); [done|].
           by rewrite decide_False by naive_solver.
      * rewrite bt_get_insert_ne by done. fold (versions_of id r). rewrite Ho.
        destruct (claimant ts id v); [done|]. by rewrite decide_False by naive_solver.
Qed.

Lemma registered_all ts : registered ts (register_all descriptor ts ToolRegistry_new).
Proof.
  unfold register_all. induction ts as [|t ts IH] using rev_ind.
  - split; cbn; [constructor|done|done|done].
  - rewrite foldl_app. by apply registered_step.
Qed.

Lemma claimant_Some ts id v t : claimant ts id v = Some t →
  t ∈ ts ∧ identity t = MkToolIdentity id v.
Proof. intros [Hin Hid]%find_Some_elem. split; [done|]. by apply bool_decide_eq_true in Hid. Qed.

Lemma claimant_is_Some ts id v t : t ∈ ts → identity t = MkToolIdentity id v →
  ∃ t', claimant ts id v = Some t'.
Proof. intros Hin Hid. eapply find_is_Some; [exact Hin|]. by apply bool_decide_eq_true. Qed.

Lemma ordered_none ts r id : registered ts r →
  bt_get id (ordered r) = None ↔ ∀ t, t ∈ ts → ti_id (identity t) ≠ id.
Proof.
  intros Hr. split.
  - intros Hn t Hin Hid. destruct (claimant_is_Some ts id (ti_version (identity t)) t Hin) as [t' Ht'].
    { rewrite <-Hid. by destruct (identity t). }
    rewrite <-(rg_ordered _ _ Hr) in Ht'. unfold versions_of in Ht'. by rewrite Hn in Ht'.
  - intros Hnone. destruct (bt_get id (ordered r)) as [bv|] eqn:Hg; [|done]. exfalso.
    destruct (rg_inner _ _ Hr _ _ Hg) as [Hsorted Hne]. destruct bv as [|[v t] bv]; [done|].
    assert (bt_get v (versions_of id r) = Some t) as Ht.
    { unfold versions_of. rewrite Hg. apply bt_get_elem; [done|by left]. }
    rewrite (rg_ordered _ _ Hr) in Ht. apply claimant_Some in Ht as [Hin Hid].
    apply (Hnone t Hin). by rewrite Hid.
Qed.

Lemma pinned_version ts id v :
  let r := register_all descriptor ts ToolRegistry_new in
  get id (Some v) r = find (λ t, bool_decide (identity t = MkToolIdentity id v)) ts ∧
  ∀ t, register_erased descriptor t r =
    match get (ti_id (identity t)) (Some (ti_version (identity t))) r with
    | Some _ => (Err (DuplicateRegistration (identity t)), r)
    | None => (Ok tt, register_all descriptor (ts ++ [t]) ToolRegistry_new)
    end.
Proof.
  intros r. pose proof (registered_all ts) as Hr. fold r in Hr. split; [apply Hr|]. intros t.
  assert (after (register_erased descriptor t) r = register_all descriptor (ts ++ [t]) ToolRegistry_new) as Hafter
    by (unfold r, register_all; by rewrite foldl_app).
  unfold after, register_erased, get in *. cbn in *.
  destruct (identity t) as [tid tv]. cbn in *.
  by destruct (hm_get (MkToolIdentity tid tv) (tools r)); cbn in *; rewrite ?Hafter.
Qed.

(** A pinned version means one thing for ever.  A tool asked for by identifier and
    version is the first one registered with that identity, whatever is registered
    after it; and registering an identity again is refused, which leaves the registry
    as it was. *)
Theorem pinned_version_is_immutable ts id v :
  let r := register_all descriptor ts ToolRegistry_new in
  get id (Some v) r = find (λ t, bool_decide (identity t = MkToolIdentity id v)) ts ∧
  ∀ t, register_erased descriptor t r =
    match get (ti_id (identity t)) (Some (ti_version (identity t))) r with
    | Some _ => (Err (DuplicateRegistration (identity t)), r)
    | None => (Ok tt, register_all descriptor (ts ++ [t]) ToolRegistry_new)
    end.
Proof. apply pinned_version. Qed.

(** *** The version an unversioned request gets *)

Lemma version_le_of_sorted (m : BTreeMap ToolVersion Tool) e : bt_sorted (m ++ [e]) →
  ∀ e', e' ∈ m ++ [e] → Version_leb (as_semver e'.1) (as_semver e.1) = true.
Proof.
  intros Hm e' [Hin|Hin%list_elem_of_singleton]%elem_of_app; [|subst; apply Version_leb_refl].
  apply StronglySorted_app in Hm as (Hall & _ & _). specialize (Hall e' e Hin ltac:(by left)).
  unfold key_before, key_lt, ToolVersion_order in Hall. apply negb_true_iff in Hall.
  by destruct (Version_leb_total (as_semver e'.1) (as_semver e.1)); [|congruence].
Qed.

Lemma find_reverse_last (f : ToolVersion * Tool → bool) m : bt_sorted m →
  match find f (reverse m) with
  | Some e => e ∈ m ∧ f e = true ∧
      ∀ e', e' ∈ m → f e' = true → Version_leb (as_semver e'.1) (as_semver e.1) = true
  | None => ∀ e, e ∈ m → f e = false
  end.
Proof.
  induction m as [|e m IH] using rev_ind; intros Hm; [cbn; by intros e ?%not_elem_of_nil|].
  rewrite reverse_snoc. cbn [find].
  assert (bt_sorted m) as Hm' by by apply StronglySorted_app_1_l in Hm.
  destruct (f e) eqn:Hfe.
  - split; [apply elem_of_app; right; by left|]. split; [done|].
    intros e' Hin _. by eapply version_le_of_sorted.
  - specialize (IH Hm'). destruct (find f (reverse m)) as [e0|].
    + destruct IH as (Hin & Hf0 & Hmax). split; [apply elem_of_app; by left|]. split; [done|].
      intros e' [Hin'| ->%list_elem_of_singleton]%elem_of_app Hf'; [by apply Hmax|congruence].
    + intros e' [Hin'| ->%list_elem_of_singleton]%elem_of_app; [by apply IH|done].
Qed.

Lemma last_is_highest (m : BTreeMap ToolVersion Tool) : bt_sorted m →
  match last m with
  | Some e => e ∈ m ∧ ∀ e', e' ∈ m → Version_leb (as_semver e'.1) (as_semver e.1) = true
  | None => m = []
  end.
Proof.
  intros Hm. destruct m as [|e m _] using rev_ind; [done|]. rewrite last_snoc.
  split; [apply elem_of_app; right; by left|]. by apply version_le_of_sorted.
Qed.

Lemma version_entry ts r id v t : registered ts r →
  (v, t) ∈ versions_of id r ↔ claimant ts id v = Some t.
Proof.
  intros Hr. rewrite <-(rg_ordered _ _ Hr). symmetry. apply bt_get_elem. by eapply versions_sorted.
Qed.

Definition stable (t : Tool) : Prop := is_prerelease (ti_version (identity t)) = false.
Definition version_le (a b : Tool) : Prop :=
  Version_leb (as_semver (ti_version (identity a))) (as_semver (ti_version (identity b))) = true.

Lemma unversioned_stable ts id :
  match get id None (register_all descriptor ts ToolRegistry_new) with
  | Some t => t ∈ ts ∧ ti_id (identity t) = id ∧
      let rivals t' := t' ∈ ts ∧ ti_id (identity t') = id in
      (stable t ∧ ∀ t', rivals t' → stable t' → version_le t' t)
      ∨ (∀ t', rivals t' → ¬ stable t') ∧ ∀ t', rivals t' → version_le t' t
  | None => ∀ t, t ∈ ts → ti_id (identity t) ≠ id
  end.
Proof.
  pose proof (registered_all ts) as Hr. set (r := register_all descriptor ts ToolRegistry_new) in *.
  unfold get, latest. destruct (bt_get id (ordered r)) as [bv|] eqn:Hg; [|cbn; by apply (ordered_none ts r)].
  destruct (rg_inner _ _ Hr _ _ Hg) as [Hsorted Hne].
  assert (versions_of id r = bv) as Hbv by (unfold versions_of; by rewrite Hg).
  assert (∀ e, e ∈ bv → e.2 ∈ ts ∧ identity e.2 = MkToolIdentity id e.1) as Hentry.
  { intros [v t] Hin. rewrite <-Hbv in Hin. apply (version_entry ts r id v t Hr) in Hin.
    by apply claimant_Some in Hin. }
  assert (∀ t', t' ∈ ts → ti_id (identity t') = id →
    ∃ t'', (ti_version (identity t'), t'') ∈ bv) as Hrival.
  { intros t' Hin Hid. destruct (claimant_is_Some ts id (ti_version (identity t')) t' Hin) as [t'' Ht''].
    - rewrite <-Hid. by destruct (identity t').
    - exists t''. rewrite <-Hbv. by apply (version_entry ts r). }
  pose proof (find_reverse_last (λ e, negb (is_prerelease e.1)) bv Hsorted) as Hfind.
  destruct (find _ (reverse bv)) as [[v t]|]; cbn.
  - destruct Hfind as (Hin & Hst & Hmax). destruct (Hentry _ Hin) as [Hts Hid]. cbn in *.
    split; [done|]. split; [by rewrite Hid|]. left. unfold stable, version_le. rewrite Hid. cbn.
    split; [by apply negb_true_iff|]. intros t' [Hin' Hid'] Hst'.
    destruct (Hrival t' Hin' Hid') as [t'' Hin'']. apply (Hmax _ Hin''). cbn. by rewrite Hst'.
  - pose proof (last_is_highest bv Hsorted) as Hlast. destruct (last bv) as [[v t]|]; [|done]. cbn.
    destruct Hlast as [Hin Hmax]. destruct (Hentry _ Hin) as [Hts Hid]. cbn in *.
    split; [done|]. split; [by rewrite Hid|]. right. split.
    + intros t' [Hin' Hid'] Hst'. destruct (Hrival t' Hin' Hid') as [t'' Hin''].
      apply Hfind in Hin''. cbn in Hin''. unfold stable in Hst'. by rewrite Hst' in Hin''.
    + intros t' [Hin' Hid']. destruct (Hrival t' Hin' Hid') as [t'' Hin''].
      unfold version_le. rewrite Hid. apply (Hmax _ Hin'').
Qed.

(** A request without a version gets the highest stable version of the tool, and a
    pre-release, the highest, only when nothing stable is registered; so publishing
    a pre-release never changes what such a request runs.  It gets nothing only when
    nothing is registered under the identifier. *)
Theorem unversioned_request_prefers_stable ts id :
  match get id None (register_all descriptor ts ToolRegistry_new) with
  | Some t => t ∈ ts ∧ ti_id (identity t) = id ∧
      let rivals t' := t' ∈ ts ∧ ti_id (identity t') = id in
      (stable t ∧ ∀ t', rivals t' → stable t' → version_le t' t)
      ∨ (∀ t', rivals t' → ¬ stable t') ∧ ∀ t', rivals t' → version_le t' t
  | None => ∀ t, t ∈ ts → ti_id (identity t) ≠ id
  end.
Proof. apply unversioned_stable. Qed.

Lemma get_none_iff ts id : get id None (register_all descriptor ts ToolRegistry_new) = None →
  bt_get id (ordered (register_all descriptor ts ToolRegistry_new)) = None.
Proof.
  unfold get, latest. pose proof (registered_all ts) as Hr.
  set (r := register_all descriptor ts ToolRegistry_new) in *.
  destruct (bt_get id (ordered r)) as [bv|] eqn:Hg; [|done].
  destruct (rg_inner _ _ Hr _ _ Hg) as [Hsorted Hne]. pose proof (last_is_highest bv Hsorted) as Hlast.
  destruct (find _ (reverse bv)); [done|]. destruct (last bv); [done|]. by rewrite Hlast in Hne.
Qed.

Lemma resolve_spec ts id version :
  let r := register_all descriptor ts ToolRegistry_new in
  match resolve id version r with
  | Ok t => get id version r = Some t
  | Err (UnknownTool name) =>
    get id version r = None ∧ name = ToolId_as_str id ∧ ∀ t, t ∈ ts → ti_id (identity t) ≠ id
  | Err (UnknownToolVersion name missing available) =>
    get id version r = None ∧ name = ToolId_as_str id ∧
    ∃ v vs, version = Some v ∧ missing = Version_to_string (as_semver v) ∧
      available = (λ v, Version_to_string (as_semver v)) <$> vs ∧ vs ≠ [] ∧
      StronglySorted (λ a b, key_lt a b = true) vs ∧
      ∀ v', v' ∈ vs ↔ ∃ t, t ∈ ts ∧ identity t = MkToolIdentity id v'
  | Err (DuplicateRegistration _) => False
  end.
Proof.
  intros r. pose proof (registered_all ts) as Hr. fold r in Hr. unfold resolve.
  destruct (bt_get id (ordered r)) as [bv|] eqn:Hg.
  2:{ pose proof (proj1 (ordered_none ts r id Hr) Hg) as Hnone. split_and!; [|done|exact Hnone].
      unfold get, latest. destruct version as [v|]; [|by rewrite Hg].
      rewrite (rg_tools _ _ Hr). destruct (claimant ts id v) as [t|] eqn:Hc; [|done].
      apply claimant_Some in Hc as [Hin Hid]. destruct (Hnone t Hin). by rewrite Hid. }
  destruct version as [v|].
  - unfold get. destruct (hm_get (MkToolIdentity id v) (tools r)) as [t|] eqn:Ht; cbn; [done|].
    destruct (rg_inner _ _ Hr _ _ Hg) as [Hsorted Hne].
    split; [done|]. split; [done|]. exists v, (bt_keys bv). split_and!; try done.
    + by destruct bv.
    + clear -Hsorted. induction Hsorted as [|[k t] m Hm IH Hf]; cbn; constructor; [exact IH|].
      apply list.Forall_fmap. exact Hf.
    + intros v'. unfold bt_keys. rewrite list_elem_of_fmap.
      assert (versions_of id r = bv) as Hbv by (unfold versions_of; by rewrite Hg). split.
      * intros ([v0 t] & -> & Hin). rewrite <-Hbv in Hin. apply (version_entry ts r id v0 t Hr) in Hin.
        apply claimant_Some in Hin. eauto.
      * intros (t & Hin & Hid). destruct (claimant_is_Some ts id v' t Hin Hid) as [t' Ht'].
        apply (version_entry ts r id v' t' Hr) in Ht'. rewrite Hbv in Ht'. by exists (v', t').
  - destruct (get id None r) as [t|] eqn:Ht; unfold get in *.
    + rewrite Ht. done.
    + rewrite Ht. cbn. split_and!; [done|done|]. apply (ordered_none ts r id Hr). by apply get_none_iff.
Qed.

(** Resolution answers what lookup answers, and explains what it does not find:
    an identifier nothing is registered under is unknown, and a version that is
    missing is reported with the versions there are, in ascending order. *)
Theorem resolve_explains ts id version :
  let r := register_all descriptor ts ToolRegistry_new in
  match resolve id version r with
  | Ok t => get id version r = Some t
  | Err (UnknownTool name) =>
    get id version r = None ∧ name = ToolId_as_str id ∧ ∀ t, t ∈ ts → ti_id (identity t) ≠ id
  | Err (UnknownToolVersion name missing available) =>
    get id version r = None ∧ name = ToolId_as_str id ∧
    ∃ v vs, version = Some v ∧ missing = Version_to_string (as_semver v) ∧
      available = (λ v, Version_to_string (as_semver v)) <$> vs ∧ vs ≠ [] ∧
      StronglySorted (λ a b, key_lt a b = true) vs ∧
      ∀ v', v' ∈ vs ↔ ∃ t, t ∈ ts ∧ identity t = MkToolIdentity id v'
  | Err (DuplicateRegistration _) => False
  end.
Proof. apply resolve_spec. Qed.

(** Enumeration does not depend on the order of registration: tools with distinct
    identities, registered in any order, leave the same ordered index, so the same
    descriptors, identifiers, versions and unversioned requests. *)
Theorem enumeration_ignores_registration_order ts ts' :
  ts ≡ₚ ts' → NoDup (identity <$> ts) →
  let r := register_all descriptor ts ToolRegistry_new in
  let r' := register_all descriptor ts' ToolRegistry_new in
  ordered r = ordered r' ∧ descriptors descriptor r = descriptors descriptor r' ∧ ids r = ids r' ∧
  (∀ id, versions id r = versions id r') ∧ ∀ id version, get id version r = get id version r'.
Proof.
  intros Hperm Hnd r r'. pose proof (registered_all ts) as Hr. pose proof (registered_all ts') as Hr'.
  fold r in Hr. fold r' in Hr'.
  assert (∀ id v, claimant ts id v = claimant ts' id v) as Hc.
  { intros id v. destruct (claimant ts id v) as [t|] eqn:Hc.
    - apply claimant_Some in Hc as [Hin Hid].
      destruct (claimant_is_Some ts' id v t) as [t' Hc']; [by rewrite <-Hperm|done|]. rewrite Hc'.
      apply claimant_Some in Hc' as [Hin' Hid']. f_equal. rewrite <-Hperm in Hin'.
      apply list_elem_of_lookup in Hin as [i Hi]. apply list_elem_of_lookup in Hin' as [j Hj].
      assert (i = j) as <-; [|congruence].
      eapply (NoDup_lookup (identity <$> ts)); [exact Hnd| |];
        rewrite list_lookup_fmap; [by rewrite Hi|rewrite Hj; cbn; by rewrite Hid, Hid'].
    - destruct (claimant ts' id v) as [t|] eqn:Hc'; [|done].
      apply claimant_Some in Hc' as [Hin Hid]. rewrite <-Hperm in Hin.
      destruct (claimant_is_Some ts id v t Hin Hid) as [t' Ht']. congruence. }
  assert (∀ id, versions_of id r = versions_of id r') as Hv.
  { intros id. apply bt_ext; [by eapply versions_sorted|by eapply versions_sorted|].
    intros v. by rewrite (rg_ordered _ _ Hr), (rg_ordered _ _ Hr'), Hc. }
  assert (ordered r = ordered r') as Ho.
  { apply bt_ext; [apply Hr|apply Hr'|]. intros id. specialize (Hv id). unfold versions_of in Hv.
    destruct (bt_get id (ordered r)) as [bv|] eqn:Hg, (bt_get id (ordered r')) as [bv'|] eqn:Hg'; cbn in Hv.
    - by subst.
    - subst. by destruct (rg_inner _ _ Hr _ _ Hg) as [_ []].
    - subst. by destruct (rg_inner _ _ Hr' _ _ Hg') as [_ []].
    - done. }
  split; [done|]. unfold descriptors, ids, versions, get, latest, versions_of. rewrite Ho. split_and!; try done.
  intros id [v|]; [|done]. by rewrite (rg_tools _ _ Hr), (rg_tools _ _ Hr'), Hc.
Qed.

(** An invocation runs exactly the tool it resolved, once, and says which: on
    success and on failure the reported identity is that tool's, a failed resolution
    runs nothing, and an invocation of the resolved tool does the same. *)
Theorem invocation_reports_what_ran {Input Output Context ToolError}
    (execute_json : Tool → Input → stateM Context ToolError Output) ts id version input context :
  let r := register_all descriptor ts ToolRegistry_new in
  match resolve id version r with
  | Err error =>
    invoke descriptor execute_json r id version input context = (Err (Resolution error), context)
  | Ok t =>
    t ∈ ts ∧ ti_id (identity t) = id ∧ (∀ v, version = Some v → ti_version (identity t) = v) ∧
    let '(ran, after) := execute_json t input context in
    invoke descriptor execute_json r id version input context =
      (match ran with
       | Ok output => Ok (MkToolOutcome (identity t) output)
       | Err error => Err (InvocationTool (identity t) error)
       end, after) ∧
    (invoke_resolved descriptor execute_json t input context).2 = after
  end.
Proof.
  intros r. pose proof (resolve_spec ts id version) as Hres. cbv zeta in Hres. fold r in Hres.
  unfold invoke. destruct (resolve id version r) as [t|error]; [|done].
  assert (t ∈ ts ∧ ti_id (identity t) = id ∧ ∀ v, version = Some v → ti_version (identity t) = v)
    as (Hin & Hid & Hv).
  { destruct version as [v|].
    - pose proof (pinned_version ts id v) as [Hp _]. fold r in Hp. rewrite Hp in Hres.
      apply claimant_Some in Hres as [Hin Hid]. rewrite Hid. split_and!; [done|done|by intros ? [= ->]].
    - pose proof (unversioned_stable ts id) as Hu. fold r in Hu. rewrite Hres in Hu.
      destruct Hu as (? & ? & _). done. }
  split_and!; [done..|]. unfold invoke_resolved, mbind, stateM_bind, mret, stateM_ret.
  by destruct (execute_json t input context) as [[]].
Qed.
End laws.

(** ** A concrete registry *)

Definition demo_version (n : N) (pre : bool) : ToolVersion := MkToolVersion ((n, pre) : Version).
Definition demo_registered (id : string) (n : N) (pre : bool) : ToolDescriptor :=
  MkToolDescriptor (MkToolIdentity (MkToolId id) (demo_version n pre)) "" "" Observe [] []
    (ToolTimeout_for_risk Observe) false (demo_value "{}") (demo_value "{}").

(** Two stable versions and a later pre-release; descriptors stand for the tools. *)
Definition demo_tools : list ToolDescriptor :=
  [demo_registered "fs.read" 2 true; demo_registered "fs.read" 1 false;
   demo_registered "fs.list" 1 false].
Definition demo_read : ToolId := MkToolId "fs.read".

Lemma pinned_version_is_immutable_witness :
  register_erased id (demo_registered "fs.read" 1 false) (register_all id demo_tools ToolRegistry_new)
  = (Err (DuplicateRegistration (MkToolIdentity demo_read (demo_version 1 false))),
     register_all id demo_tools ToolRegistry_new).
Proof.
  destruct (pinned_version_is_immutable id demo_tools demo_read (demo_version 1 false)) as [_ Hreg].
  exact (Hreg (demo_registered "fs.read" 1 false)).
Defined.

(** The pre-release is higher, and the stable version is what is run. *)
Lemma unversioned_request_prefers_stable_witness :
  get demo_read None (register_all id demo_tools ToolRegistry_new)
    = Some (demo_registered "fs.read" 1 false) ∧
  stable id (demo_registered "fs.read" 1 false).
Proof.
  pose proof (unversioned_request_prefers_stable id demo_tools demo_read) as Hu.
  assert (get demo_read None (register_all id demo_tools ToolRegistry_new)
    = Some (demo_registered "fs.read" 1 false)) as Hget by by vm_compute.
  split; [exact Hget|]. rewrite Hget in Hu. destruct Hu as (_ & _ & [[Hs _]|[Hno _]]); [exact Hs|].
  destruct (Hno (demo_registered "fs.read" 1 false)); [|reflexivity].
  split; [|reflexivity]. right. by left.
Defined.

Lemma resolve_explains_witness :
  resolve demo_read (Some (demo_version 3 false)) (register_all id demo_tools ToolRegistry_new)
    = Err (UnknownToolVersion "fs.read" "3" ["1"; "2"]) ∧
  get demo_read (Some (demo_version 3 false)) (register_all id demo_tools ToolRegistry_new) = None.
Proof.
  pose proof (resolve_explains id demo_tools demo_read (Some (demo_version 3 false))) as Hres.
  cbv zeta in Hres.
  assert (resolve demo_read (Some (demo_version 3 false)) (register_all id demo_tools ToolRegistry_new)
    = Err (UnknownToolVersion "fs.read" "3" ["1"; "2"])) as Hr by by vm_compute.
  split; [exact Hr|]. rewrite Hr in Hres. apply Hres.
Defined.

Lemma enumeration_ignores_registration_order_witness :
  descriptors id (register_all id demo_tools ToolRegistry_new)
  = descriptors id (register_all id (reverse demo_tools) ToolRegistry_new).
Proof.
  destruct (enumeration_ignores_registration_order id demo_tools (reverse demo_tools)) as (_ & Hd & _).
  - by rewrite reverse_Permutation.
  - apply (bool_decide_unpack _). by vm_compute.
  - exact Hd.
Defined.

Lemma invocation_reports_what_ran_witness :
  invoke id (λ (t : ToolDescriptor) (input : nat), (mret input : stateM unit string nat))
    (register_all id demo_tools ToolRegistry_new) demo_read None 7 tt
  = (Ok (MkToolOutcome (MkToolIdentity demo_read (demo_version 1 false)) 7), tt).
Proof.
  pose proof (invocation_reports_what_ran id
    (λ (t : ToolDescriptor) (input : nat), (mret input : stateM unit string nat))
    demo_tools demo_read None 7 tt) as Hinv. cbv zeta in Hinv.
  assert (resolve demo_read None (register_all id demo_tools ToolRegistry_new)
    = Ok (demo_registered "fs.read" 1 false)) as Hr by by vm_compute.
  rewrite Hr in Hinv. destruct Hinv as (_ & _ & _ & Hrun). exact (proj1 Hrun).
Defined.
