(* ===== verification/Subject.v ===== *)
(** * External subjects: the identity a trust grant is bound to

    Models [src/crates/harkness-runtime/src/integration/subject.rs]: the kinds of
    subject, where their configuration comes from, and the identity basis with the
    grammar its builders enforce.  Serde's derived readers pass every decoded
    field through the builders again; the fields they read are the record
    [BasisFields], and the JSON text is serde's.

    A [PathBuf] is the byte string of a Unix path, compared by [Path]'s
    components. *)

From Stdlib Require Import Ascii ZifyN ZifyBool.
From stdpp Require Import base decidable list gmap sets strings.
From S2P Require Import Prelude Digest Text Contract.

(** ** Paths ([std::path], Unix)

    [Path::components] drops repeated separators and every [.] but a leading one;
    [Path]'s equality compares what is left. *)

Definition SLASH : N := 47.

Fixpoint split_slash (bytes : list N) : list (list N) :=
  match bytes with
  | [] => [[]]
  | b :: rest =>
    if (b =? SLASH)%N then [] :: split_slash rest
    else match split_slash rest with
         | segment :: segments => (b :: segment) :: segments
         | [] => [[b]]
         end
  end.

Definition has_root (path : string) : bool :=
  match utf8_bytes path with b :: _ => (b =? SLASH)%N | [] => false end.

Definition components (path : string) : bool * list (list N) :=
  let segments := split_slash (utf8_bytes path) in
  (has_root path,
   match segments with
   | first :: rest =>
     (if bool_decide (first = [46%N]) then [first] else filter (λ s, s ≠ [] ∧ s ≠ [46%N]) [first])
     ++ filter (λ s, s ≠ [] ∧ s ≠ [46%N]) rest
   | [] => []
   end).

Definition path_eqb (a b : string) : bool := bool_decide (components a = components b).

(** ** Errors ([integration/error.rs]) and the enumerations they mention *)

Inductive SubjectKind :=
| AgentExecutable | McpServer | McpToolSchema | Recipe | ForgeAccount | ForgeRepository
| Workspace.

(** [TrustState] of [integration/state.rs], a different type from the workspace
    trust of [trust.rs] *)
Inductive TrustState := Untrusted | Trusted | Revoked | Invalidated.

Inductive IntegrationDomainError :=
| InvalidTrustTransition (from to : TrustState)
| SchemaVersionTooOld (record : string) (found minimum : N)
| SchemaVersionTooNew (record : string) (found maximum : N)
| MalformedDigest (value reason : string)
| InvalidIdentity (field reason : string)
| MissingIdentityEvidence (subject_kind : SubjectKind) (required : string)
| InvalidRecord (record reason : string)
| InvalidTimestamp (record field reason : string).

Definition IntegrationDomainError_KINDS : list string :=
  ["invalid_trust_transition"; "integration_schema_version_too_old";
   "integration_schema_version_too_new"; "malformed_digest"; "invalid_identity";
   "missing_identity_evidence"; "invalid_integration_record";
   "invalid_integration_timestamp"].
Definition IntegrationDomainError_kind (e : IntegrationDomainError) : string :=
  match e with
  | InvalidTrustTransition _ _ => "invalid_trust_transition"
  | SchemaVersionTooOld _ _ _ => "integration_schema_version_too_old"
  | SchemaVersionTooNew _ _ _ => "integration_schema_version_too_new"
  | MalformedDigest _ _ => "malformed_digest"
  | InvalidIdentity _ _ => "invalid_identity"
  | MissingIdentityEvidence _ _ => "missing_identity_evidence"
  | InvalidRecord _ _ => "invalid_integration_record"
  | InvalidTimestamp _ _ _ => "invalid_integration_timestamp"
  end.

(** ** Enumerations *)

#[export] Instance SubjectKind_eq_dec : EqDecision SubjectKind.
Proof. solve_decision. Defined.
#[export] Instance SubjectKind_spelled : Spelled SubjectKind := {
  spelled_ALL := [AgentExecutable; McpServer; McpToolSchema; Recipe; ForgeAccount;
                  ForgeRepository; Workspace];
  as_str k :=
    match k with
    | AgentExecutable => "agent_executable"
    | McpServer => "mcp_server"
    | McpToolSchema => "mcp_tool_schema"
    | Recipe => "recipe"
    | ForgeAccount => "forge_account"
    | ForgeRepository => "forge_repository"
    | Workspace => "workspace"
    end;
}.
#[export] Instance SubjectKind_spelled_laws : SpelledLaws SubjectKind.
Proof. split; [intros []; set_solver|by intros [] []]. Qed.

Inductive ConfigurationSource := Builtin | FromUser | FromRepository | Imported.
#[export] Instance ConfigurationSource_eq_dec : EqDecision ConfigurationSource.
Proof. solve_decision. Defined.
#[export] Instance ConfigurationSource_spelled : Spelled ConfigurationSource := {
  spelled_ALL := [Builtin; FromUser; FromRepository; Imported];
  as_str s :=
    match s with
    | Builtin => "builtin"
    | FromUser => "user"
    | FromRepository => "repository"
    | Imported => "imported"
    end;
}.
#[export] Instance ConfigurationSource_spelled_laws : SpelledLaws ConfigurationSource.
Proof. split; [intros []; set_solver|by intros [] []]. Qed.

(** ** The identity grammar *)

Definition MAX_IDENTITY_FIELD_LENGTH : nat := 512.
Definition MAX_EXECUTABLE_PATH_LENGTH : N := 4096.
Definition MAX_CAPABILITIES : nat := 64.

Definition validate_text (field value : string) : result IntegrationDomainError unit :=
  let bytes := utf8_bytes value in
  if bool_decide (bytes = []) then Err (InvalidIdentity field "it cannot be empty")
  else if MAX_IDENTITY_FIELD_LENGTH <? length bytes
  then Err (InvalidIdentity field "it is longer than the maximum identity field length")
  else if padded bytes
  then Err (InvalidIdentity field "it cannot begin or end with whitespace")
  else if any_control bytes
  then Err (InvalidIdentity field "it cannot carry a control character")
  else Ok tt.

Definition is_ascii_alphabetic (b : N) : bool :=
  ((65 <=? b) && (b <=? 90) || (97 <=? b) && (b <=? 122))%N.

(** [Path::to_str] answers only for UTF-8. *)
Definition is_rooted_anywhere (path : string) : bool :=
  if has_root path then true
  else match from_utf8 (utf8_bytes path) with
       | Err _ => false
       | Ok bytes =>
         match bytes with
         | 92 :: 92 :: _ => true
         | drive :: 58 :: (47 | 92) :: _ => is_ascii_alphabetic drive
         | _ => false
         end%N
       end.

(** ** Executables *)

Record ExecutableIdentity := MkExecutableIdentity {
  ex_path : string;
  ex_sha256 : Sha256Hash;
}.

Definition ExecutableIdentity_new (path : string) (sha256 : Sha256Hash)
    : result IntegrationDomainError ExecutableIdentity :=
  if bool_decide (path = "") then Err (InvalidIdentity "executable.path" "it cannot be empty")
  else if negb (is_rooted_anywhere path)
  then Err (InvalidIdentity "executable.path" "it must start from a filesystem root")
  else if (MAX_EXECUTABLE_PATH_LENGTH <? N.of_nat (length (utf8_bytes path)))%N
  then Err (InvalidIdentity "executable.path"
              "it is longer than the maximum executable path length")
  else Ok (MkExecutableIdentity path sha256).

(** ** Endpoints *)

Record EndpointIdentity := MkEndpointIdentity {
  ep_host : string;
  ep_resource : option string;
}.

(** [str::to_ascii_lowercase] *)
Definition lower_byte (c : ascii) : ascii :=
  let b := N_of_ascii c in if ((65 <=? b) && (b <=? 90))%N then ascii_of_N (b + 32) else c.
Fixpoint to_ascii_lowercase (s : string) : string :=
  match s with
  | EmptyString => EmptyString
  | String c s => String (lower_byte c) (to_ascii_lowercase s)
  end.

Definition EndpointIdentity_new (host : string) (resource : option string)
    : result IntegrationDomainError EndpointIdentity :=
  _ ← validate_text "endpoint.host" host;
  _ ← match resource with
      | Some resource => validate_text "endpoint.resource" resource
      | None => Ok tt
      end;
  Ok (MkEndpointIdentity (to_ascii_lowercase host) resource).

(** ** The identity basis *)

Record IdentityBasis := MkIdentityBasis {
  display_name : string;
  subject_version : option string;
  protocol_version : option string;
  executable : option ExecutableIdentity;
  endpoint : option EndpointIdentity;
  schema_fingerprint : option Sha256Hash;
  content_hash : option Sha256Hash;
  capabilities : gset string;
  configuration_source : ConfigurationSource;
}.

Definition IdentityBasis_new (name : string) (source : ConfigurationSource)
    : result IntegrationDomainError IdentityBasis :=
  _ ← validate_text "display_name" name;
  Ok (MkIdentityBasis name None None None None None None ∅ source).

Definition versioned (version : string) (b : IdentityBasis) : result IntegrationDomainError IdentityBasis :=
  _ ← validate_text "subject_version" version;
  Ok (MkIdentityBasis (display_name b) (Some version) (protocol_version b) (executable b)
        (endpoint b) (schema_fingerprint b) (content_hash b) (capabilities b)
        (configuration_source b)).
Definition speaking (protocol : string) (b : IdentityBasis) : result IntegrationDomainError IdentityBasis :=
  _ ← validate_text "protocol_version" protocol;
  Ok (MkIdentityBasis (display_name b) (subject_version b) (Some protocol) (executable b)
        (endpoint b) (schema_fingerprint b) (content_hash b) (capabilities b)
        (configuration_source b)).
Definition launched_from (e : ExecutableIdentity) (b : IdentityBasis) : IdentityBasis :=
  MkIdentityBasis (display_name b) (subject_version b) (protocol_version b) (Some e)
    (endpoint b) (schema_fingerprint b) (content_hash b) (capabilities b)
    (configuration_source b).
Definition reached_at (e : EndpointIdentity) (b : IdentityBasis) : IdentityBasis :=
  MkIdentityBasis (display_name b) (subject_version b) (protocol_version b) (executable b)
    (Some e) (schema_fingerprint b) (content_hash b) (capabilities b) (configuration_source b).
Definition fingerprinted (h : Sha256Hash) (b : IdentityBasis) : IdentityBasis :=
  MkIdentityBasis (display_name b) (subject_version b) (protocol_version b) (executable b)
    (endpoint b) (Some h) (content_hash b) (capabilities b) (configuration_source b).
Definition hashing (h : Sha256Hash) (b : IdentityBasis) : IdentityBasis :=
  MkIdentityBasis (display_name b) (subject_version b) (protocol_version b) (executable b)
    (endpoint b) (schema_fingerprint b) (Some h) (capabilities b) (configuration_source b).

(** The loop of [declaring], which [deserialize_bounded_capabilities] repeats: the
    bound is tested after each insertion. *)
Fixpoint declare (names : list string) (declared : gset string)
    : result IntegrationDomainError (gset string) :=
  match names with
  | [] => Ok declared
  | capability :: names =>
    _ ← validate_text "capabilities" capability;
    let declared := {[capability]} ∪ declared in
    if MAX_CAPABILITIES <? size declared
    then Err (InvalidIdentity "capabilities"
                "more capabilities are declared than an identity may carry")
    else declare names declared
  end.

Definition declaring (names : list string) (b : IdentityBasis)
    : result IntegrationDomainError IdentityBasis :=
  declared ← declare names ∅;
  Ok (MkIdentityBasis (display_name b) (subject_version b) (protocol_version b) (executable b)
        (endpoint b) (schema_fingerprint b) (content_hash b) declared (configuration_source b)).

Definition declares_capability (b : IdentityBasis) (capability : string) : bool :=
  bool_decide (capability ∈ capabilities b).

(** ** Reading a stored basis back

    [BasisFields] is the [Strict] shape of the three [Deserialize] impls, its
    digests already parsed. *)

Record BasisFields := MkBasisFields {
  bf_display_name : string;
  bf_subject_version : option string;
  bf_protocol_version : option string;
  bf_executable : option (string * Sha256Hash);
  bf_endpoint : option (string * option string);
  bf_schema_fingerprint : option Sha256Hash;
  bf_content_hash : option Sha256Hash;
  bf_capabilities : list string;
  bf_configuration_source : ConfigurationSource;
}.

(** [if let Some(x) = field { basis = builder(basis, x)? }] *)
Definition attach {A} (field : option A) (builder : A → IdentityBasis → result IntegrationDomainError IdentityBasis)
    (b : IdentityBasis) : result IntegrationDomainError IdentityBasis :=
  match field with Some x => builder x b | None => Ok b end.

(** [Option<T>::deserialize] *)
Definition read_option {A B} (read : A → result IntegrationDomainError B) (field : option A)
    : result IntegrationDomainError (option B) :=
  match field with Some x => Some <$> read x | None => Ok None end.

Definition IdentityBasis_deserialize (f : BasisFields) : result IntegrationDomainError IdentityBasis :=
  executable ← read_option (λ e, ExecutableIdentity_new e.1 e.2) (bf_executable f);
  endpoint ← read_option (λ e, EndpointIdentity_new e.1 e.2) (bf_endpoint f);
  bounded ← declare (bf_capabilities f) ∅;
  basis ← IdentityBasis_new (bf_display_name f) (bf_configuration_source f);
  basis ← attach (bf_subject_version f) versioned basis;
  basis ← attach (bf_protocol_version f) speaking basis;
  basis ← attach executable (λ e b, Ok (launched_from e b)) basis;
  basis ← attach endpoint (λ e b, Ok (reached_at e b)) basis;
  basis ← attach (bf_schema_fingerprint f) (λ h b, Ok (fingerprinted h b)) basis;
  basis ← attach (bf_content_hash f) (λ h b, Ok (hashing h b)) basis;
  declaring (elements bounded) basis.

(** Serde's derived [Serialize]: every field as it is, the set in some order. *)
Definition IdentityBasis_serialize (b : IdentityBasis) : BasisFields :=
  MkBasisFields (display_name b) (subject_version b) (protocol_version b)
    ((λ e, (ex_path e, ex_sha256 e)) <$> executable b)
    ((λ e, (ep_host e, ep_resource e)) <$> endpoint b)
    (schema_fingerprint b) (content_hash b) (elements (capabilities b))
    (configuration_source b).

(** ** Well-formed identities

    What every builder establishes and nothing else changes. *)

Definition text_ok (value : string) : Prop := ∀ field, validate_text field value = Ok tt.

Record executable_wf (e : ExecutableIdentity) : Prop := {
  exw_rooted : is_rooted_anywhere (ex_path e) = true;
  exw_nonempty : ex_path e ≠ "";
  exw_bounded : (N.of_nat (length (utf8_bytes (ex_path e))) ≤ MAX_EXECUTABLE_PATH_LENGTH)%N;
}.

Record endpoint_wf (e : EndpointIdentity) : Prop := {
  epw_host : text_ok (ep_host e);
  epw_lowered : to_ascii_lowercase (ep_host e) = ep_host e;
  epw_resource : ∀ r, ep_resource e = Some r → text_ok r;
}.

Record basis_wf (b : IdentityBasis) : Prop := {
  bw_name : text_ok (display_name b);
  bw_version : ∀ v, subject_version b = Some v → text_ok v;
  bw_protocol : ∀ v, protocol_version b = Some v → text_ok v;
  bw_executable : ∀ e, executable b = Some e → executable_wf e;
  bw_endpoint : ∀ e, endpoint b = Some e → endpoint_wf e;
  bw_capabilities : set_Forall text_ok (capabilities b);
  bw_bounded : size (capabilities b) ≤ MAX_CAPABILITIES;
}.

Lemma validate_text_ok field value u : validate_text field value = Ok u ↔ text_ok value.
Proof.
  destruct u. unfold text_ok, validate_text. split; intros H; [intros f|specialize (H field)];
    by repeat case_match.
Qed.

Lemma ExecutableIdentity_new_Ok path h e :
  ExecutableIdentity_new path h = Ok e ↔ e = MkExecutableIdentity path h ∧ executable_wf e.
Proof.
  unfold ExecutableIdentity_new. case_bool_decide as Hempty.
  { split; [done|]. intros [-> []]. done. }
  destruct (is_rooted_anywhere path) eqn:Hroot; cbn [negb].
  2: { split; [done|]. intros [-> [Hr _ _]]. cbn in Hr. congruence. }
  destruct (N.ltb_spec MAX_EXECUTABLE_PATH_LENGTH (N.of_nat (length (utf8_bytes path)))) as [Hlen|Hlen].
  { split; [done|]. intros [-> [_ _ Hb]]. cbn [ex_path] in Hb. lia. }
  split; [intros ?; simplify_eq; by repeat split|by intros [-> _]].
Qed.

(** Lowercasing leaves lowered text alone, and keeps the grammar. *)
Lemma lower_byte_idemp c : lower_byte (lower_byte c) = lower_byte c.
Proof. destruct c as [[] [] [] [] [] [] [] []]; reflexivity. Qed.

Lemma to_ascii_lowercase_idemp s : to_ascii_lowercase (to_ascii_lowercase s) = to_ascii_lowercase s.
Proof. induction s as [|c s IH]; cbn; [done|]. by rewrite lower_byte_idemp, IH. Qed.

(** An ASCII letter is neither white space nor a control character, so lowering a
    text keeps the grammar. *)
Definition upper (b : N) : bool := ((65 <=? b) && (b <=? 90))%N.
Definition lower (b : N) : N := if upper b then (b + 32)%N else b.
Definition is_letter (b : N) : bool := is_ascii_alphabetic b.

Lemma utf8_bytes_lowered s : utf8_bytes (to_ascii_lowercase s) = lower <$> utf8_bytes s.
Proof.
  unfold utf8_bytes. induction s as [|c s IH]; [done|]. cbn. f_equal; [|exact IH].
  destruct c as [[] [] [] [] [] [] [] []]; reflexivity.
Qed.

Lemma lower_letter b : is_letter (lower b) = is_letter b.
Proof. unfold is_letter, is_ascii_alphabetic, lower, upper. destruct ((65 <=? b) && (b <=? 90))%N eqn:?; lia. Qed.

Lemma lower_other b : is_letter b = false → lower b = b.
Proof. unfold is_letter, is_ascii_alphabetic, lower, upper. intros H.
  destruct ((65 <=? b) && (b <=? 90))%N eqn:?; lia. Qed.

Lemma blank_no_letter n l :
  length l ≤ n → is_blank_bytes l = true → Forall (λ b, is_letter b = false) l.
Proof.
  revert l. induction n as [|n IH]; intros l Hn; [destruct l; [constructor|cbn in Hn; lia]|].
  destruct l as [|b t]; [constructor|]. cbn [is_blank_bytes].
  destruct ((9 <=? b) && (b <=? 13) || (b =? 32))%N eqn:Hb.
  { intros H. constructor; [|by apply IH; [cbn in Hn; lia|]].
    unfold is_letter, is_ascii_alphabetic. lia. }
  destruct t as [|c t1]; [done|].
  destruct ((b =? 0xC2) && ((c =? 0x85) || (c =? 0xA0)))%N eqn:Hc.
  { intros H. constructor; [|constructor; [|by apply IH; [cbn in Hn; lia|]]];
      unfold is_letter, is_ascii_alphabetic; lia. }
  destruct t1 as [|d t2]; [done|]. intros [Hd H]%andb_true_iff.
  constructor; [|constructor; [|constructor; [|by apply IH; [cbn in Hn; lia|]]]];
    unfold is_letter, is_ascii_alphabetic; lia.
Qed.

Lemma blank_lowered l : is_blank_bytes (lower <$> l) = is_blank_bytes l.
Proof.
  assert (∀ l, Forall (λ b, is_letter b = false) l → lower <$> l = l) as Hsame.
  { intros l'. induction 1 as [|b l' Hb _ IH]; cbn; [done|]. by rewrite IH, lower_other. }
  destruct (is_blank_bytes l) eqn:Hl.
  - rewrite Hsame; [done|]. by apply (blank_no_letter (length l)).
  - apply not_true_iff_false. intros H. rewrite Hsame in H; [congruence|].
    apply (blank_no_letter (length (lower <$> l))) in H; [|done].
    rewrite list.Forall_fmap in H. eapply List.Forall_impl; [|exact H].
    cbn. intros b. by rewrite lower_letter.
Qed.

Lemma padded_lowered l : padded (lower <$> l) = padded l.
Proof.
  unfold padded. rewrite length_fmap.
  cbn [existsb]. by rewrite <- !fmap_take, <- !fmap_drop, !blank_lowered.
Qed.

Lemma any_control_lowered l : any_control (lower <$> l) = any_control l.
Proof.
  induction l as [|b l IH]; [done|]. cbn [any_control fmap list_fmap]. f_equal; [|exact IH].
  assert (∀ c, ((0x80 <=? lower c) && (lower c <=? 0x9F))%N = ((0x80 <=? c) && (c <=? 0x9F))%N)
    as Hr by (intros c; unfold lower, upper; destruct ((65 <=? c) && (c <=? 90))%N eqn:?; lia).
  assert (((lower b <? 32) || (lower b =? 127)) = ((b <? 32) || (b =? 127)))%N as ->
    by (unfold lower, upper; destruct ((65 <=? b) && (b <=? 90))%N eqn:?; lia).
  assert ((lower b =? 0xC2) = (b =? 0xC2))%N as -> by (unfold lower, upper; destruct ((65 <=? b) && (b <=? 90))%N eqn:?; lia).
  by destruct l as [|c l]; cbn; rewrite ?Hr.
Qed.

Lemma lowered_text_ok s : text_ok s → text_ok (to_ascii_lowercase s).
Proof.
  unfold text_ok, validate_text. intros H field. specialize (H field).
  rewrite utf8_bytes_lowered, length_fmap, padded_lowered, any_control_lowered.
  destruct (utf8_bytes s); [done|]. rewrite !bool_decide_false in * by done. done.
Qed.

Lemma EndpointIdentity_new_Ok host resource e :
  EndpointIdentity_new host resource = Ok e →
  endpoint_wf e ∧ e = MkEndpointIdentity (to_ascii_lowercase host) resource.
Proof.
  unfold EndpointIdentity_new. intros ([] & Hh & H)%bind_Ok. apply bind_Ok in H as ([] & Hr & H).
  cbn in H. simplify_eq. apply validate_text_ok in Hh. split; [split; cbn|done].
  - by apply lowered_text_ok.
  - apply to_ascii_lowercase_idemp.
  - intros r ->. by apply validate_text_ok in Hr.
Qed.

Lemma EndpointIdentity_new_wf e :
  endpoint_wf e → EndpointIdentity_new (ep_host e) (ep_resource e) = Ok e.
Proof.
  intros [Hh Hl Hr]. destruct e as [host resource]; cbn in *.
  unfold EndpointIdentity_new. rewrite (Hh _), Hl. cbn.
  destruct resource as [r|]; cbn; [|done]. by rewrite (Hr r eq_refl _).
Qed.

(** The loop collects the names exactly when each is text and the set fits: the
    bound tested at every step is the bound on the whole set. *)
Lemma declare_Ok names declared all :
  size declared ≤ MAX_CAPABILITIES →
  declare names declared = Ok all ↔
  all = list_to_set names ∪ declared ∧ Forall text_ok names ∧ size all ≤ MAX_CAPABILITIES.
Proof.
  revert declared. induction names as [|name names IH]; intros declared Hsize; cbn [declare].
  { split; [intros ?; simplify_eq|intros (-> & _ & _)]; [|f_equal; set_solver].
    split; [set_solver|]. by split. }
  split.
  - intros ([] & Hname & H)%bind_Ok. apply validate_text_ok in Hname.
    destruct (Nat.ltb_spec MAX_CAPABILITIES (size ({[name]} ∪ declared))) as [|Hle]; [done|].
    apply IH in H as (-> & Hnames & Hall); [|done]. split; [set_solver|]. split; [by constructor|done].
  - intros (-> & [Hname Hnames]%list.Forall_cons & Hall). rewrite (Hname _). cbn [mbind result_bind].
    assert (size ({[name]} ∪ declared) ≤ MAX_CAPABILITIES) as Hle.
    { etrans; [|exact Hall]. apply subseteq_size. set_solver. }
    destruct (Nat.ltb_spec MAX_CAPABILITIES (size ({[name]} ∪ declared))) as [|_]; [lia|].
    apply IH; [done|]. split; [set_solver|]. split; [done|]. exact Hall.
Qed.

Lemma declaring_Ok names b b' :
  declaring names b = Ok b' ↔
  Forall text_ok names ∧ size (list_to_set names : gset string) ≤ MAX_CAPABILITIES
  ∧ b' = MkIdentityBasis (display_name b) (subject_version b) (protocol_version b)
           (executable b) (endpoint b) (schema_fingerprint b) (content_hash b)
           (list_to_set names) (configuration_source b).
Proof.
  unfold declaring. rewrite bind_Ok. setoid_rewrite declare_Ok; [|by rewrite size_empty; lia].
  split.
  - intros (all & (-> & Hn & Hs) & H). rewrite union_empty_r_L in *. by simplify_eq/=.
  - intros (Hn & Hs & ->). exists (list_to_set names). by rewrite union_empty_r_L.
Qed.

Lemma elements_text_ok (caps : gset string) : set_Forall text_ok caps → Forall text_ok (elements caps).
Proof. intros H. apply list.Forall_forall. intros x Hx. apply H. set_solver. Qed.

(** The bases a caller can hold: a fresh one and whatever the builders make of it. *)
Inductive built : IdentityBasis → Prop :=
| built_new name source b : IdentityBasis_new name source = Ok b → built b
| built_versioned v b b' : built b → versioned v b = Ok b' → built b'
| built_speaking p b b' : built b → speaking p b = Ok b' → built b'
| built_launched path h e b :
    built b → ExecutableIdentity_new path h = Ok e → built (launched_from e b)
| built_reached host resource e b :
    built b → EndpointIdentity_new host resource = Ok e → built (reached_at e b)
| built_fingerprinted h b : built b → built (fingerprinted h b)
| built_hashing h b : built b → built (hashing h b)
| built_declaring names b b' : built b → declaring names b = Ok b' → built b'.

Lemma basis_new_Ok name source b :
  IdentityBasis_new name source = Ok b ↔
  text_ok name ∧ b = MkIdentityBasis name None None None None None None ∅ source.
Proof.
  unfold IdentityBasis_new. rewrite bind_Ok. setoid_rewrite validate_text_ok. cbn.
  split; [intros (_ & ? & ?)|intros (? & ->); exists tt]; by simplify_eq.
Qed.

Lemma built_wf b : built b → basis_wf b.
Proof.
  induction 1 as [name source b [Hn ->]%basis_new_Ok
    |v b b' _ [] ([] & Hv%validate_text_ok & H)%bind_Ok
    |v b b' _ [] ([] & Hv%validate_text_ok & H)%bind_Ok
    |path h e b _ [] [-> He]%ExecutableIdentity_new_Ok
    |host resource e b _ [] [He _]%EndpointIdentity_new_Ok
    |h b _ []|h b _ []|names b b' _ [] (Hn & Hs & ->)%declaring_Ok]; cbn in *; simplify_eq.
  all: split; cbn; try done; try naive_solver.
  - rewrite size_empty. unfold MAX_CAPABILITIES. lia.
  - intros x Hx. rewrite list.Forall_forall in Hn. apply Hn. set_solver.
Qed.

Lemma attach_spec {A} (P : IdentityBasis → Prop) (field : option A) builder b b' :
  P b → (∀ x c, field = Some x → builder x b = Ok c → P c) → attach field builder b = Ok b' → P b'.
Proof. destruct field; cbn; naive_solver. Qed.

Lemma read_option_Ok {A B} (read : A → result IntegrationDomainError B) field o :
  read_option read field = Ok o → ∀ y, o = Some y → ∃ x, field = Some x ∧ read x = Ok y.
Proof.
  destruct field as [x|]; cbn; [|intros; by simplify_eq].
  destruct (read x) eqn:Hx; cbn; intros; simplify_eq. eauto.
Qed.

(** What a stored row decodes to went through the builders. *)
Lemma deserialized_built f b : IdentityBasis_deserialize f = Ok b → built b.
Proof.
  unfold IdentityBasis_deserialize.
  intros (ex & Hex & (ep & Hep & (all & Hall & (b0 & H0 & (b1 & H1 & (b2 & H2 & (b3 & H3
    & (b4 & H4 & (b5 & H5 & (b6 & H6 & H7)%bind_Ok)%bind_Ok)%bind_Ok)%bind_Ok)%bind_Ok)
    %bind_Ok)%bind_Ok)%bind_Ok)%bind_Ok)%bind_Ok.
  apply built_new in H0.
  eapply (attach_spec built) in H1; [|done|eauto using built].
  eapply (attach_spec built) in H2; [|done|eauto using built].
  eapply (attach_spec built) in H3; [|done|].
  2: { intros e c He ?. simplify_eq. eapply read_option_Ok in Hex as ([] & _ & ?); [|done].
       by eapply built_launched. }
  eapply (attach_spec built) in H4; [|done|].
  2: { intros e c He ?. simplify_eq. eapply read_option_Ok in Hep as ([] & _ & ?); [|done].
       by eapply built_reached. }
  eapply (attach_spec built) in H5; [|done|intros; simplify_eq; eauto using built].
  eapply (attach_spec built) in H6; [|done|intros; simplify_eq; eauto using built].
  by eapply built_declaring.
Qed.

Lemma read_option_id {A B} (read : A → result IntegrationDomainError B) (write : B → A) o :
  (∀ y, o = Some y → read (write y) = Ok y) → read_option read (write <$> o) = Ok o.
Proof. intros H. destruct o as [y|]; cbn; [|done]. by rewrite (H y eq_refl). Qed.

Lemma basis_wf_reads_back b :
  basis_wf b → IdentityBasis_deserialize (IdentityBasis_serialize b) = Ok b.
Proof.
  intros [Hn Hv Hp Hex Hep Hc Hs]. unfold IdentityBasis_deserialize. cbn.
  rewrite (read_option_id _ (λ e, (ex_path e, ex_sha256 e)) (executable b)).
  2: { intros e He. apply ExecutableIdentity_new_Ok. destruct e. eauto. }
  rewrite (read_option_id _ (λ e, (ep_host e, ep_resource e)) (endpoint b))
    by (intros e He; apply EndpointIdentity_new_wf; eauto).
  cbn [mbind result_bind].
  assert (declare (elements (capabilities b)) ∅ = Ok (capabilities b)) as Hd.
  { apply declare_Ok; [rewrite size_empty; unfold MAX_CAPABILITIES; lia|].
    rewrite list_to_set_elements_L, union_empty_r_L.
    split; [done|]. split; [by apply elements_text_ok|done]. }
  rewrite Hd. cbn [mbind result_bind].
  rewrite (proj2 (basis_new_Ok _ _ _) (conj Hn eq_refl)). cbn [mbind result_bind].
  destruct b as [name [v|] [p|] [ex|] [ep|] [fp|] [ch|] caps src]; cbn in *;
    unfold versioned, speaking, declaring;
    rewrite ?(Hv _ eq_refl), ?(Hp _ eq_refl); cbn; by rewrite Hd.
Qed.

(** The bases a caller can build are exactly the ones that survive storage:
    a basis made by the constructor and the builders reads back from its own stored
    fields unchanged, every text re-validated, the host already lowercase, the
    capability bound respected; and whatever reads back was made by the builders. *)
Theorem identity_basis_round_trip b :
  built b ↔ IdentityBasis_deserialize (IdentityBasis_serialize b) = Ok b.
Proof.
  split; [|apply deserialized_built]. intros. by apply basis_wf_reads_back, built_wf.
Qed.
