(* ===== verification/TrustRecord.v ===== *)
(** * Trust grants about external subjects

    Models [src/crates/harkness-runtime/src/integration/state.rs], [record.rs] and
    [wire.rs]: the trust state machine, how far a grant reaches, the ordered reasons
    a grant stops applying, the check of a record against an observation, the four
    methods that change a record, and its durable form.  Semantic-version
    compatibility is the [semver] crate's, a parameter. *)

From stdpp Require Import base decidable list gmap sets strings relations.
From S2P Require Import Prelude Digest Text Subject.

(** ** States ([state.rs]) *)

#[export] Instance TrustState_eq_dec : EqDecision TrustState.
Proof. solve_decision. Defined.
#[export] Instance TrustState_spelled : Spelled TrustState := {
  spelled_ALL := [Untrusted; Trusted; Revoked; Invalidated];
  as_str s :=
    match s with
    | Untrusted => "untrusted"
    | Trusted => "trusted"
    | Revoked => "revoked"
    | Invalidated => "invalidated"
    end;
}.
#[export] Instance TrustState_spelled_laws : SpelledLaws TrustState.
Proof. split; [intros []; set_solver|by intros [] []]. Qed.

Definition TRUST_TRANSITIONS : list (TrustState * TrustState) :=
  [(Untrusted, Trusted); (Trusted, Revoked); (Trusted, Invalidated);
   (Invalidated, Trusted); (Invalidated, Revoked)].

Definition TrustState_is_terminal (s : TrustState) : bool :=
  match s with Revoked => true | _ => false end.
Definition TrustState_can_become (s to : TrustState) : bool :=
  bool_decide ((s, to) ∈ TRUST_TRANSITIONS).
Definition requires_invalidation_reason (s : TrustState) : bool :=
  match s with Invalidated => true | _ => false end.

(** ** Reach *)

Inductive TrustScopeKind := GlobalKind | WorkspaceKind.
#[export] Instance TrustScopeKind_eq_dec : EqDecision TrustScopeKind.
Proof. solve_decision. Defined.
#[export] Instance TrustScopeKind_spelled : Spelled TrustScopeKind := {
  spelled_ALL := [GlobalKind; WorkspaceKind];
  as_str k := match k with GlobalKind => "global" | WorkspaceKind => "workspace" end;
}.
#[export] Instance TrustScopeKind_spelled_laws : SpelledLaws TrustScopeKind.
Proof. split; [intros []; set_solver|by intros [] []]. Qed.

Inductive TrustScope := Global | InWorkspace (workspace : string).

Definition TrustScope_kind (s : TrustScope) : TrustScopeKind :=
  match s with Global => GlobalKind | InWorkspace _ => WorkspaceKind end.
Definition TrustScope_root (s : TrustScope) : option string :=
  match s with Global => None | InWorkspace workspace => Some workspace end.

(** ** Why a grant stops applying *)

Inductive InvalidationReason :=
| WorkspacePathChanged | ExecutableHashChanged | EndpointHostChanged
| RepositoryRemoteChanged | ToolSchemaFingerprintChanged | RecipeContentHashChanged
| CapabilityExpansion | IncompatibleVersionChange.
#[export] Instance InvalidationReason_eq_dec : EqDecision InvalidationReason.
Proof. solve_decision. Defined.

Definition PRECEDENCE : list InvalidationReason :=
  [WorkspacePathChanged; ExecutableHashChanged; EndpointHostChanged;
   RepositoryRemoteChanged; ToolSchemaFingerprintChanged; RecipeContentHashChanged;
   CapabilityExpansion; IncompatibleVersionChange].

#[export] Instance InvalidationReason_spelled : Spelled InvalidationReason := {
  spelled_ALL := PRECEDENCE;
  as_str r :=
    match r with
    | WorkspacePathChanged => "workspace_path_changed"
    | ExecutableHashChanged => "executable_hash_changed"
    | EndpointHostChanged => "endpoint_host_changed"
    | RepositoryRemoteChanged => "repository_remote_changed"
    | ToolSchemaFingerprintChanged => "tool_schema_fingerprint_changed"
    | RecipeContentHashChanged => "recipe_content_hash_changed"
    | CapabilityExpansion => "capability_expansion"
    | IncompatibleVersionChange => "incompatible_version_change"
    end;
}.
#[export] Instance InvalidationReason_spelled_laws : SpelledLaws InvalidationReason.
Proof. split; [intros []; set_solver|by intros [] []]. Qed.

Inductive TrustCheck := Valid | NotTrusted | Invalidate (reason : InvalidationReason).

Definition TrustCheck_is_valid (c : TrustCheck) : bool :=
  match c with Valid => true | _ => false end.
Definition TrustCheck_reason (c : TrustCheck) : option InvalidationReason :=
  match c with Invalidate reason => Some reason | _ => None end.

(** ** The seven comparisons ([record.rs])

    [caret_matches trusted observed] is
    [VersionReq::parse(&format!("^{trusted}")).is_ok_and(|req| req.matches(&observed))]. *)
Class Semver `{Platform} := { caret_matches : Version → Version → bool }.

Section record.
Context `{Semver}.

Definition executable_hash_changed (trusted observed : IdentityBasis) : bool :=
  negb (bool_decide (ex_sha256 <$> executable trusted = ex_sha256 <$> executable observed)).
Definition endpoint_host_changed (trusted observed : IdentityBasis) : bool :=
  negb (bool_decide (ep_host <$> endpoint trusted = ep_host <$> endpoint observed)).
Definition endpoint_resource_changed (trusted observed : IdentityBasis) : bool :=
  negb (bool_decide (endpoint trusted ≫= ep_resource = endpoint observed ≫= ep_resource)).
Definition schema_fingerprint_changed (trusted observed : IdentityBasis) : bool :=
  negb (bool_decide (schema_fingerprint trusted = schema_fingerprint observed)).
Definition content_hash_changed (trusted observed : IdentityBasis) : bool :=
  negb (bool_decide (content_hash trusted = content_hash observed)).

Definition authority_surface_widened (trusted observed : IdentityBasis) : bool :=
  negb (bool_decide (configuration_source trusted = configuration_source observed))
  || existsb (λ capability, negb (declares_capability trusted capability))
       (elements (capabilities observed)).

Definition versions_are_compatible (trusted observed : string) : bool :=
  if bool_decide (trusted = observed) then true
  else match Version_parse trusted, Version_parse observed with
       | Ok trusted, Ok observed => caret_matches trusted observed
       | _, _ => false
       end.

Definition version_is_incompatible (trusted observed : IdentityBasis) : bool :=
  if negb (bool_decide (protocol_version trusted = protocol_version observed)) then true
  else match subject_version trusted, subject_version observed with
       | None, None => false
       | Some trusted, Some observed => negb (versions_are_compatible trusted observed)
       | _, _ => true
       end.

Definition IDENTITY_CHECKS : list (InvalidationReason * (IdentityBasis → IdentityBasis → bool)) :=
  [(ExecutableHashChanged, executable_hash_changed);
   (EndpointHostChanged, endpoint_host_changed);
   (RepositoryRemoteChanged, endpoint_resource_changed);
   (ToolSchemaFingerprintChanged, schema_fingerprint_changed);
   (RecipeContentHashChanged, content_hash_changed);
   (CapabilityExpansion, authority_surface_widened);
   (IncompatibleVersionChange, version_is_incompatible)].

(** ** Records *)

Record ObservedIdentity := MkObservedIdentity {
  ob_basis : IdentityBasis;
  ob_workspace : option string;
}.

Record TrustRecord := MkTrustRecord {
  subject_kind : SubjectKind;
  identity_basis : IdentityBasis;
  scope : TrustScope;
  state : TrustState;
  invalidation_reason : option InvalidationReason;
  granted_at : OffsetDateTime;
}.

Definition RECORD : string := "trust_record".

Definition validate_utc (field : string) (timestamp : OffsetDateTime)
    : result IntegrationDomainError unit :=
  ensure (is_utc timestamp) (InvalidTimestamp RECORD field "must use the UTC offset").

Definition validate_scope (s : TrustScope) : result IntegrationDomainError unit :=
  match TrustScope_root s with
  | None => Ok tt
  | Some root =>
    if bool_decide (root = "")
    then Err (InvalidRecord RECORD "a workspace scope cannot name an empty root")
    else if negb (is_rooted_anywhere root)
    then Err (InvalidRecord RECORD "a workspace scope must start from a filesystem root")
    else Ok tt
  end.

Definition names_resource (b : IdentityBasis) : bool :=
  is_some_and (λ e, is_some (ep_resource e)) (endpoint b).

Definition require_evidence (kind : SubjectKind) (basis : IdentityBasis) (s : TrustScope)
    : result IntegrationDomainError unit :=
  let '(present, required) :=
    match kind with
    | AgentExecutable =>
      (is_some (executable basis), "an executable path and content digest")
    | McpServer =>
      (is_some (executable basis) || is_some (endpoint basis), "an executable or an endpoint")
    | McpToolSchema => (is_some (schema_fingerprint basis), "a tool schema fingerprint")
    | Recipe => (is_some (content_hash basis), "a recipe content hash")
    | ForgeAccount => (names_resource basis, "an endpoint naming the account on its host")
    | ForgeRepository => (names_resource basis, "an endpoint naming the repository on its host")
    | Workspace => (is_some (TrustScope_root s), "a workspace-scoped grant")
    end in
  if present then Ok tt else Err (MissingIdentityEvidence kind required).

Definition grant (kind : SubjectKind) (basis : IdentityBasis) (s : TrustScope)
    (at_ : OffsetDateTime) : result IntegrationDomainError TrustRecord :=
  _ ← validate_utc "granted_at" at_;
  _ ← validate_scope s;
  _ ← require_evidence kind basis s;
  Ok (MkTrustRecord kind basis s Trusted None at_).

Definition from_parts (kind : SubjectKind) (basis : IdentityBasis) (s : TrustScope)
    (st : TrustState) (reason : option InvalidationReason) (at_ : OffsetDateTime)
    : result IntegrationDomainError TrustRecord :=
  _ ← validate_utc "granted_at" at_;
  _ ← validate_scope s;
  _ ← require_evidence kind basis s;
  if bool_decide (st = Untrusted)
  then Err (InvalidRecord RECORD "an untrusted subject is the absence of a record, not a record")
  else if negb (Bool.eqb (requires_invalidation_reason st) (is_some reason))
  then Err (InvalidRecord RECORD
    "an invalidation reason is required by invalidated and permitted nowhere else")
  else Ok (MkTrustRecord kind basis s st reason at_).

(** The loop over [IDENTITY_CHECKS], first difference first. *)
Fixpoint first_difference
    (checks : list (InvalidationReason * (IdentityBasis → IdentityBasis → bool)))
    (trusted observed : IdentityBasis) : TrustCheck :=
  match checks with
  | [] => Valid
  | (reason, differs) :: checks =>
    if differs trusted observed then Invalidate reason
    else first_difference checks trusted observed
  end.

Definition same_workspace (root : string) (observed : ObservedIdentity) : bool :=
  is_some_and (λ workspace, path_eqb workspace root) (ob_workspace observed).

Definition check (self : TrustRecord) (observed : ObservedIdentity) : TrustCheck :=
  if negb (bool_decide (state self = Trusted)) then NotTrusted
  else if is_some_and (λ root, negb (same_workspace root observed)) (TrustScope_root (scope self))
  then Invalidate WorkspacePathChanged
  else first_difference IDENTITY_CHECKS (identity_basis self) (ob_basis observed).

(** *** Methods on [&mut self] *)

Definition set_state (to : TrustState) (r : TrustRecord) : TrustRecord :=
  MkTrustRecord (subject_kind r) (identity_basis r) (scope r) to (invalidation_reason r)
    (granted_at r).
Definition set_reason (reason : option InvalidationReason) (r : TrustRecord) : TrustRecord :=
  MkTrustRecord (subject_kind r) (identity_basis r) (scope r) (state r) reason (granted_at r).
Definition set_basis (basis : IdentityBasis) (at_ : OffsetDateTime) (r : TrustRecord)
    : TrustRecord :=
  MkTrustRecord (subject_kind r) basis (scope r) (state r) (invalidation_reason r) at_.

Definition transition (to : TrustState) : stateM TrustRecord IntegrationDomainError unit :=
  self ← get;
  if TrustState_can_become (state self) to then modify (set_state to)
  else lift (Err (InvalidTrustTransition (state self) to)).

Definition revoke : stateM TrustRecord IntegrationDomainError unit :=
  _ ← transition Revoked;
  modify (set_reason None).

Definition invalidate (reason : InvalidationReason)
    : stateM TrustRecord IntegrationDomainError unit :=
  _ ← transition Invalidated;
  modify (set_reason (Some reason)).

Definition regrant (basis : IdentityBasis) (at_ : OffsetDateTime)
    : stateM TrustRecord IntegrationDomainError unit :=
  _ ← lift (validate_utc "granted_at" at_);
  self ← get;
  _ ← lift (require_evidence (subject_kind self) basis (scope self));
  _ ← transition Trusted;
  modify (λ r, set_reason None (set_basis basis at_ r)).

(** ** The durable form ([wire.rs]) *)

Definition INTEGRATION_RECORD_SCHEMA_VERSION : N := 1.
Definition MINIMUM_INTEGRATION_RECORD_SCHEMA_VERSION : N := 1.

Record TrustRecordWire := MkTrustRecordWire {
  trw_schema_version : N;
  trw_subject_kind : SubjectKind;
  trw_identity : IdentityBasis;
  trw_scope : TrustScopeKind;
  trw_workspace : option string;
  trw_state : TrustState;
  trw_invalidation_reason : option InvalidationReason;
  trw_granted_at : OffsetDateTime;
}.

Definition TrustRecordWire_from (r : TrustRecord) : TrustRecordWire :=
  MkTrustRecordWire INTEGRATION_RECORD_SCHEMA_VERSION (subject_kind r) (identity_basis r)
    (TrustScope_kind (scope r)) (TrustScope_root (scope r)) (state r)
    (invalidation_reason r) (granted_at r).

Definition validate_schema_version (record : string) (found : N)
    : result IntegrationDomainError unit :=
  if (found <? MINIMUM_INTEGRATION_RECORD_SCHEMA_VERSION)%N
  then Err (SchemaVersionTooOld record found MINIMUM_INTEGRATION_RECORD_SCHEMA_VERSION)
  else if (INTEGRATION_RECORD_SCHEMA_VERSION <? found)%N
  then Err (SchemaVersionTooNew record found INTEGRATION_RECORD_SCHEMA_VERSION)
  else Ok tt.

Definition wire_scope (kind : TrustScopeKind) (workspace : option string)
    : result IntegrationDomainError TrustScope :=
  match kind, workspace with
  | GlobalKind, None => Ok Global
  | WorkspaceKind, Some workspace => Ok (InWorkspace workspace)
  | GlobalKind, Some _ => Err (InvalidRecord RECORD "a global grant cannot name a workspace")
  | WorkspaceKind, None =>
    Err (InvalidRecord RECORD "a workspace-scoped grant requires the workspace it is confined to")
  end.

Definition TrustRecord_try_from (w : TrustRecordWire) : result IntegrationDomainError TrustRecord :=
  _ ← validate_schema_version RECORD (trw_schema_version w);
  s ← wire_scope (trw_scope w) (trw_workspace w);
  from_parts (trw_subject_kind w) (trw_identity w) s (trw_state w)
    (trw_invalidation_reason w) (trw_granted_at w).
End record.

(** ** What the check decides *)

Section check.
Context `{Semver}.

(** One trigger each, read off the reason's own description. *)
Definition drifted (reason : InvalidationReason) (r : TrustRecord) (o : ObservedIdentity) : Prop :=
  let trusted := identity_basis r in
  let observed := ob_basis o in
  match reason with
  | WorkspacePathChanged =>
    ∃ root, TrustScope_root (scope r) = Some root ∧ same_workspace root o = false
  | ExecutableHashChanged => ex_sha256 <$> executable trusted ≠ ex_sha256 <$> executable observed
  | EndpointHostChanged => ep_host <$> endpoint trusted ≠ ep_host <$> endpoint observed
  | RepositoryRemoteChanged => endpoint trusted ≫= ep_resource ≠ endpoint observed ≫= ep_resource
  | ToolSchemaFingerprintChanged => schema_fingerprint trusted ≠ schema_fingerprint observed
  | RecipeContentHashChanged => content_hash trusted ≠ content_hash observed
  | CapabilityExpansion =>
    configuration_source trusted ≠ configuration_source observed
    ∨ ¬ capabilities observed ⊆ capabilities trusted
  | IncompatibleVersionChange => version_is_incompatible trusted observed = true
  end.

Lemma existsb_elements (f : string → bool) (X : gset string) :
  existsb f (elements X) = true ↔ ∃ x, x ∈ X ∧ f x = true.
Proof.
  rewrite existsb_exists. split; intros (x & Hx & Hf); exists x; split; try done.
  - by apply elem_of_elements, list_elem_of_In.
  - by apply list_elem_of_In, elem_of_elements.
Qed.

Lemma authority_surface_widened_true trusted observed :
  authority_surface_widened trusted observed = true ↔
  configuration_source trusted ≠ configuration_source observed
  ∨ ¬ capabilities observed ⊆ capabilities trusted.
Proof.
  unfold authority_surface_widened, declares_capability.
  rewrite orb_true_iff, negb_true_iff, bool_decide_eq_false, existsb_elements.
  setoid_rewrite negb_true_iff. setoid_rewrite bool_decide_eq_false.
  apply or_iff_compat_l. split.
  - intros (x & Hx & Hn) Hsub. set_solver.
  - intros Hsub. destruct (decide (set_Exists (λ x, x ∉ capabilities trusted) (capabilities observed)))
      as [(x & Hx & Hn)|Hall]; [by exists x|].
    exfalso. apply Hsub. intros x Hx. destruct (decide (x ∈ capabilities trusted)); [done|].
    exfalso. apply Hall. by exists x.
Qed.

(** The table's comparisons are the triggers. *)
Lemma identity_checks_drift r o :
  Forall (λ c, c.2 (identity_basis r) (ob_basis o) = true ↔ drifted c.1 r o) IDENTITY_CHECKS.
Proof.
  unfold IDENTITY_CHECKS.
  repeat apply Forall_cons_2; try apply Forall_nil_2; cbn [fst snd drifted];
    try apply authority_surface_widened_true;
    unfold executable_hash_changed, endpoint_host_changed, endpoint_resource_changed,
      schema_fingerprint_changed, content_hash_changed;
    rewrite ?negb_true_iff, ?bool_decide_eq_false; reflexivity.
Qed.

Definition drift_scan (r : TrustRecord) (o : ObservedIdentity)
    (checks : list (InvalidationReason * (IdentityBasis → IdentityBasis → bool))) : Prop :=
  Forall (λ c, c.2 (identity_basis r) (ob_basis o) = true ↔ drifted c.1 r o) checks.

Lemma first_difference_spec r o checks :
  drift_scan r o checks →
  match first_difference checks (identity_basis r) (ob_basis o) with
  | Valid => Forall (λ reason, ¬ drifted reason r o) checks.*1
  | NotTrusted => False
  | Invalidate reason => ∃ before later, checks.*1 = before ++ reason :: later
      ∧ Forall (λ reason, ¬ drifted reason r o) before ∧ drifted reason r o
  end.
Proof.
  unfold drift_scan. induction 1 as [|[reason differs] checks Hd _ IH]; cbn; [constructor|].
  cbn in Hd. destruct (differs _ _).
  - exists [], checks.*1. split; [done|]. split; [constructor|by apply Hd].
  - assert (¬ drifted reason r o) by (intros Hx; apply Hd in Hx; done).
    destruct (first_difference _ _ _) as [| |reason']; [by constructor|done|].
    destruct IH as (before & later & -> & Hb & Hr).
    exists (reason :: before), later. split; [done|]. split; [by constructor|done].
Qed.

Lemma reach_drift r o :
  is_some_and (λ root, negb (same_workspace root o)) (TrustScope_root (scope r)) = true ↔
  drifted WorkspacePathChanged r o.
Proof.
  cbn. destruct (TrustScope_root (scope r)) as [root|]; cbn; [|naive_solver].
  rewrite negb_true_iff. naive_solver.
Qed.

Lemma check_spec r o :
  match check r o with
  | Valid => state r = Trusted ∧ ∀ reason, ¬ drifted reason r o
  | NotTrusted => state r ≠ Trusted
  | Invalidate reason => state r = Trusted ∧ ∃ before later, PRECEDENCE = before ++ reason :: later
      ∧ Forall (λ reason, ¬ drifted reason r o) before ∧ drifted reason r o
  end.
Proof.
  unfold check. case_bool_decide as Hs; cbn [negb]; [|done].
  pose proof (reach_drift r o) as Hreach.
  destruct (is_some_and _ _).
  { split; [done|]. exists [], (tail PRECEDENCE). split; [done|]. split; [constructor|].
    by apply Hreach. }
  assert (¬ drifted WorkspacePathChanged r o) as Hw by (intros ?%Hreach; done).
  pose proof (first_difference_spec r o IDENTITY_CHECKS (identity_checks_drift r o)) as Hscan.
  destruct (first_difference _ _ _) as [| |reason]; [|done|].
  - split; [done|]. rewrite list.Forall_forall in Hscan. intros [] Hd; [done|..].
    all: eapply Hscan; [|exact Hd]; cbn; set_solver.
  - split; [done|]. destruct Hscan as (before & later & Hp & Hb & Hr).
    exists (WorkspacePathChanged :: before), later. cbn [app]. rewrite <- Hp.
    split; [done|]. split; [by constructor|done].
Qed.

(** A reason has one place in the order. *)
Lemma precedence_place reason before later before' later' :
  PRECEDENCE = before ++ reason :: later → PRECEDENCE = before' ++ reason :: later' →
  before = before'.
Proof.
  assert (NoDup PRECEDENCE) as Hnd by (apply (bool_decide_unpack _); by vm_compute).
  intros Hp Hp'. rewrite Hp in Hnd, Hp'. clear Hp.
  revert before' Hp'. induction before as [|x before IH]; intros [|y before'] Heq; [done|..];
    cbn in *; simplify_eq.
  - exfalso. inversion Hnd as [|? ? Hn _]; subst. apply Hn. set_solver.
  - exfalso. inversion Hnd as [|? ? Hn _]; subst. apply Hn. set_solver.
  - inversion Hnd; subst. f_equal. by apply IH.
Qed.

(** The check of a grant against an observation reports exactly what changed: it
    answers [Invalidate reason] if and only if the grant is in force, that trigger
    fired, and no trigger earlier in the documented precedence did; it answers
    [Valid] if and only if the grant is in force and no trigger fired at all; any
    other grant is [NotTrusted] whatever was observed. *)
Theorem check_reports_first_drift (r : TrustRecord) (o : ObservedIdentity) :
  (∀ reason, check r o = Invalidate reason ↔
     state r = Trusted ∧ drifted reason r o
     ∧ ∀ before later, PRECEDENCE = before ++ reason :: later →
         Forall (λ earlier, ¬ drifted earlier r o) before)
  ∧ (check r o = Valid ↔ state r = Trusted ∧ ∀ reason, ¬ drifted reason r o)
  ∧ (check r o = NotTrusted ↔ state r ≠ Trusted).
Proof.
  pose proof (check_spec r o) as Hspec.
  split; [|split].
  - intros reason. split.
    + intros Hc. rewrite Hc in Hspec. destruct Hspec as (Hs & before & later & Hp & Hb & Hd).
      split; [done|]. split; [done|]. intros before' later' Hp'.
      by rewrite <- (precedence_place _ _ _ _ _ Hp Hp').
    + intros (Hs & Hd & Hearlier). destruct (check r o) as [| |reason']; [naive_solver|done|].
      destruct Hspec as (_ & before & later & Hp & Hb & Hd').
      assert (reason ∈ PRECEDENCE) as (b & l & Hpl)%list_elem_of_split
        by (destruct reason; set_solver).
      specialize (Hearlier b l Hpl). f_equal.
      assert (reason' ∈ before ++ reason' :: later) as Hin' by set_solver.
      rewrite <- Hp, Hpl in Hin'. assert (reason ∈ b ++ reason :: l) as Hin by set_solver.
      rewrite <- Hpl, Hp in Hin. rewrite list.Forall_forall in Hb, Hearlier.
      apply elem_of_app in Hin as [Hin|[->|Hin]%elem_of_cons]; [naive_solver|done|].
      apply elem_of_app in Hin' as [Hin'|[->|Hin']%elem_of_cons]; [naive_solver|done|].
      exfalso. apply list_elem_of_split in Hin as (u & v & ->).
      apply list_elem_of_split in Hin' as (u' & v' & ->).
      assert (before ++ reason' :: u = b) as <-.
      { eapply (precedence_place reason); [|exact Hpl]. rewrite Hp, <- app_assoc. done. }
      apply (Hearlier reason'); [set_solver|done].
  - destruct (check r o); naive_solver.
  - destruct (check r o); naive_solver.
Qed.
End check.

(** ** The life of a record *)

Section life.
Context `{Semver}.

Inductive TrustOp :=
| Revoke | InvalidateOp (reason : InvalidationReason)
| Regrant (basis : IdentityBasis) (at_ : OffsetDateTime).

Definition run_op (op : TrustOp) : stateM TrustRecord IntegrationDomainError unit :=
  match op with
  | Revoke => revoke
  | InvalidateOp reason => invalidate reason
  | Regrant basis at_ => regrant basis at_
  end.

(** The records that can exist: granted, read back from a row, or left behind by a
    method, whether it succeeded or was refused. *)
Inductive live : TrustRecord → Prop :=
| live_grant kind basis s at_ r : grant kind basis s at_ = Ok r → live r
| live_stored w r : TrustRecord_try_from w = Ok r → live r
| live_op op r : live r → live (after (run_op op) r).

Record record_wf (r : TrustRecord) : Prop := {
  rw_granted_utc : is_utc (granted_at r) = true;
  rw_scope : validate_scope (scope r) = Ok tt;
  rw_evidence : require_evidence (subject_kind r) (identity_basis r) (scope r) = Ok tt;
  rw_never_untrusted : state r ≠ Untrusted;
  rw_reason : is_some (invalidation_reason r) = requires_invalidation_reason (state r);
}.

(** What each method changes, and when. *)
Definition op_effect (op : TrustOp) (r : TrustRecord) : result IntegrationDomainError TrustRecord :=
  match op with
  | Revoke =>
    if bool_decide (state r = Trusted ∨ state r = Invalidated)
    then Ok (MkTrustRecord (subject_kind r) (identity_basis r) (scope r) Revoked None (granted_at r))
    else Err (InvalidTrustTransition (state r) Revoked)
  | InvalidateOp reason =>
    if bool_decide (state r = Trusted)
    then Ok (MkTrustRecord (subject_kind r) (identity_basis r) (scope r) Invalidated (Some reason)
               (granted_at r))
    else Err (InvalidTrustTransition (state r) Invalidated)
  | Regrant basis at_ =>
    _ ← validate_utc "granted_at" at_;
    _ ← require_evidence (subject_kind r) basis (scope r);
    if bool_decide (state r = Untrusted ∨ state r = Invalidated)
    then Ok (MkTrustRecord (subject_kind r) basis (scope r) Trusted None at_)
    else Err (InvalidTrustTransition (state r) Trusted)
  end.

Lemma run_op_effect op r :
  run_op op r = match op_effect op r with Ok r' => (Ok tt, r') | Err e => (Err e, r) end.
Proof.
  destruct op as [|reason|basis at_]; cbn.
  - unfold revoke, transition. destruct r as [k b s [] o at_]; reflexivity.
  - unfold invalidate, transition. destruct r as [k b s [] o at_]; reflexivity.
  - unfold regrant, transition, lift, get, mbind, stateM_bind, result_bind.
    destruct (validate_utc _ _) as [[]|]; [|done].
    destruct (require_evidence _ _ _) as [[]|]; [|done].
    destruct r as [k b' s [] o at']; reflexivity.
Qed.

(** The methods on a grant follow the state machine to the letter: a revocation
    succeeds from exactly [Trusted] and [Invalidated] and clears the reason, an
    invalidation from exactly [Trusted] and records the reason, a re-grant from
    [Invalidated] (or the [Untrusted] no record is in) and only with a UTC time and the
    evidence the subject kind is known by, rebasing the identity; a refused method
    returns the error and leaves the record untouched; and nothing moves a revoked
    record. *)
Theorem trust_methods_exact (op : TrustOp) (r : TrustRecord) :
  run_op op r = match op_effect op r with Ok r' => (Ok tt, r') | Err e => (Err e, r) end
  ∧ (state r = Revoked → after (run_op op) r = r).
Proof.
  split; [apply run_op_effect|]. intros Hs. unfold after. rewrite run_op_effect.
  destruct op as [|reason|basis at_]; cbn; rewrite Hs; [done|done|].
  destruct (validate_utc _ _); cbn; [|done]. by destruct (require_evidence _ _ _).
Qed.

Lemma from_parts_Ok kind basis s st reason at_ r :
  from_parts kind basis s st reason at_ = Ok r ↔
  r = MkTrustRecord kind basis s st reason at_ ∧ record_wf r.
Proof.
  unfold from_parts, validate_utc, ensure.
  destruct (is_utc at_) eqn:Hutc; cbn [mbind result_bind].
  2: { split; [done|]. intros [-> []]. cbn in *. congruence. }
  destruct (validate_scope s) as [[]|] eqn:Hscope; cbn [mbind result_bind].
  2: { split; [done|]. intros [-> []]. cbn in *. congruence. }
  destruct (require_evidence kind basis s) as [[]|] eqn:Hev; cbn [mbind result_bind].
  2: { split; [done|]. intros [-> []]. cbn in *. congruence. }
  case_bool_decide as Hst.
  { split; [done|]. intros [-> []]. done. }
  destruct (Bool.eqb_spec (requires_invalidation_reason st) (is_some reason)) as [Heq|Hne]; cbn [negb].
  - split; [intros ?; simplify_eq|by intros [-> _]]. split; [done|]. by split.
  - split; [done|]. intros [-> []]. cbn in *. congruence.
Qed.

Lemma grant_from_parts kind basis s at_ :
  grant kind basis s at_ = from_parts kind basis s Trusted None at_.
Proof. reflexivity. Qed.

Lemma record_wf_op op r : record_wf r → record_wf (after (run_op op) r).
Proof.
  intros [Hu Hsc He Hn Hr]. unfold after. rewrite run_op_effect.
  destruct op as [|reason|basis at_]; cbn.
  - case_bool_decide; by split.
  - case_bool_decide; by split.
  - unfold validate_utc, ensure. destruct (is_utc at_) eqn:Hutc; cbn; [|by split].
    destruct (require_evidence _ basis _) as [[]|] eqn:Hev; cbn; [|by split].
    case_bool_decide; by split.
Qed.

Lemma wire_scope_Ok s : wire_scope (TrustScope_kind s) (TrustScope_root s) = Ok s.
Proof. by destruct s. Qed.
Lemma wire_scope_inv kind workspace s :
  wire_scope kind workspace = Ok s → kind = TrustScope_kind s ∧ workspace = TrustScope_root s.
Proof. destruct kind, workspace; cbn; intros; by simplify_eq. Qed.

Lemma schema_version_Ok record found u :
  validate_schema_version record found = Ok u ↔ found = INTEGRATION_RECORD_SCHEMA_VERSION.
Proof.
  unfold validate_schema_version, MINIMUM_INTEGRATION_RECORD_SCHEMA_VERSION,
    INTEGRATION_RECORD_SCHEMA_VERSION. destruct u.
  destruct (N.ltb_spec found 1), (N.ltb_spec 1 found); split; intros; try done; lia.
Qed.

Lemma try_from_Ok w r : TrustRecord_try_from w = Ok r ↔ w = TrustRecordWire_from r ∧ record_wf r.
Proof.
  unfold TrustRecord_try_from. split.
  - intros ([] & Hv%schema_version_Ok & (s & [Hk Hw]%wire_scope_inv & [-> Hwf]%from_parts_Ok)
      %bind_Ok)%bind_Ok.
    split; [|done]. destruct w; cbn in *. by subst.
  - intros [-> Hwf]. cbn. rewrite wire_scope_Ok. cbn. apply from_parts_Ok. by destruct r.
Qed.

Lemma live_wf r : live r → record_wf r.
Proof.
  induction 1 as [kind basis s at_ r Hg|w r [_ Hr]%try_from_Ok|op r _ IH].
  - rewrite grant_from_parts in Hg. by apply from_parts_Ok in Hg as [_ ?].
  - done.
  - by apply record_wf_op.
Qed.

(** Trust records and stored rows correspond one to one: every record that can
    exist, through grants, reads, invalidations, re-grants and revocations, successful
    or refused, is written to a row that reads back as the same record, and a row that
    is accepted is the row its record would be written to. In particular no record is
    [Untrusted], a reason is present exactly on an invalidated one, its time is in UTC
    and the evidence its subject kind is known by is there. *)
Theorem trust_record_round_trip :
  (∀ r, live r ↔ TrustRecord_try_from (TrustRecordWire_from r) = Ok r)
  ∧ (∀ w r, TrustRecord_try_from w = Ok r → w = TrustRecordWire_from r)
  ∧ (∀ r, live r → record_wf r).
Proof.
  split; [|split].
  - intros r. split; [intros Hl%live_wf; by apply try_from_Ok|apply live_stored].
  - by intros w r [-> _]%try_from_Ok.
  - exact live_wf.
Qed.

Lemma resource_kept kind required (a b : option EndpointIdentity) :
  a ≫= ep_resource = b ≫= ep_resource →
  (if is_some_and (λ e, is_some (ep_resource e)) a
   then Ok tt else Err (MissingIdentityEvidence kind required)) = Ok tt →
  (if is_some_and (λ e, is_some (ep_resource e)) b
   then Ok tt else Err (MissingIdentityEvidence kind required)) = Ok tt.
Proof. destruct a as [[? []]|], b as [[? []]|]; done. Qed.

(** The evidence of a kind is part of what is compared. *)
Lemma undrifted_evidence r o :
  record_wf r → (∀ reason, ¬ drifted reason r o) →
  require_evidence (subject_kind r) (ob_basis o) (scope r) = Ok tt.
Proof.
  intros [_ _ He _ _] Hd.
  pose proof (Hd ExecutableHashChanged) as Hex. pose proof (Hd RepositoryRemoteChanged) as Hre.
  pose proof (Hd EndpointHostChanged) as Hho.
  pose proof (Hd ToolSchemaFingerprintChanged) as Hfp. pose proof (Hd RecipeContentHashChanged) as Hch.
  cbn in Hex, Hre, Hho, Hfp, Hch. apply dec_stable in Hex, Hre, Hho, Hfp, Hch.
  unfold require_evidence, names_resource in *. revert He.
  destruct (subject_kind r); cbn.
  - destruct (executable (identity_basis r)), (executable (ob_basis o)); done.
  - destruct (executable (identity_basis r)), (executable (ob_basis o)),
      (endpoint (identity_basis r)), (endpoint (ob_basis o)); done.
  - rewrite <- Hfp. done.
  - rewrite <- Hch. done.
  - by apply resource_kept.
  - by apply resource_kept.
  - done.
Qed.

(** A grant is never valid by absence. For any record that can exist, if the
    observation lacks the evidence its subject kind is recognized by (no executable
    for an agent, neither executable nor endpoint for a server, no schema fingerprint,
    no recipe digest, no named forge resource), the check does not answer [Valid]. *)
Theorem missing_evidence_never_valid (r : TrustRecord) (o : ObservedIdentity) :
  live r →
  require_evidence (subject_kind r) (ob_basis o) (scope r) ≠ Ok tt →
  TrustCheck_is_valid (check r o) = false.
Proof.
  intros Hl%live_wf Hmissing. pose proof (check_spec r o) as Hspec.
  destruct (check r o); [|done..]. destruct Hspec as [_ Hd].
  exfalso. by apply Hmissing, undrifted_evidence.
Qed.
End life.

(** ** Concrete grants *)

#[export] Instance demo_semver : Semver := { caret_matches v w := N.eqb v.1 w.1 }.

Definition demo_digest : Sha256Hash := MkSha256Hash (replicate 32 7%N).
Definition demo_recipe : IdentityBasis :=
  MkIdentityBasis "release" None None None None None (Some demo_digest) ∅ FromRepository.
Definition demo_edited : IdentityBasis :=
  MkIdentityBasis "release" None None None None None None ∅ FromRepository.
Definition demo_granted : TrustRecord :=
  MkTrustRecord Recipe demo_recipe (InWorkspace "/work/repo") Trusted None (demo_at 5).

Lemma missing_evidence_never_valid_witness :
  live demo_granted
  ∧ check demo_granted (MkObservedIdentity demo_recipe (Some "/work//repo/")) = Valid
  ∧ TrustCheck_is_valid (check demo_granted (MkObservedIdentity demo_edited (Some "/work/repo")))
    = false.
Proof.
  assert (live demo_granted) as Hl.
  { apply (live_grant Recipe demo_recipe (InWorkspace "/work/repo") (demo_at 5)). reflexivity. }
  split; [exact Hl|]. split; [reflexivity|].
  apply (missing_evidence_never_valid demo_granted); [exact Hl|]. cbn. discriminate.
Defined.
