(* ===== verification/AgentState.v ===== *)
(** * What was observed about an external agent

    Models [src/crates/harkness-runtime/src/agent_registry/state.rs]: the record of a
    handshake and of a health check, the bounds their texts are clamped to, the
    observations of one agent and how a check moves them, the validation before a
    write, and the stored form.  The advertised capabilities are the shapes of
    [src/crates/harkness-acp/src/capabilities.rs].  The JSON text of a column is
    [serde_json]'s; its length, which decides whether the column is written, is a
    parameter. *)

From stdpp Require Import base decidable list gmap sets strings.
From S2P Require Import Prelude Digest Text Subject TrustRecord.

(** A Rust [String] read as bytes. *)
Abbreviation text := (list N).

(** ** Bounded text *)

Definition CLAMP_MARKER : text := ELLIPSIS ++ utf8_bytes " (truncated)".

Definition clamp (t : text) (maximum : nat) : text :=
  if length t <=? maximum then t
  else take (floor_loop t (maximum - length CLAMP_MARKER)) t ++ CLAMP_MARKER.

(** ** Errors ([agent_registry/error.rs], [store/error.rs])

    A failure of the ACP conversation is kept as its discriminant and the protocol
    version it names, if it names one; file errors without their system cause. *)

Definition MAX_INLINE_PAYLOAD_BYTES : N := 64 * 1024.

Inductive StoreError :=
| ColumnEncoding (record field : string)
| PayloadTooLarge (record field : string) (bytes : N)
| Query
| NotFound
| AlreadyExists.

Record AgentId := MkAgentId { AgentId_str : string }.
#[export] Instance AgentId_eq_dec : EqDecision AgentId.
Proof. solve_decision. Defined.
#[export] Instance AgentId_countable : Countable AgentId.
Proof. refine (inj_countable' AgentId_str MkAgentId _). by intros []. Defined.

Inductive AgentRegistryError :=
| InvalidRegistration (field reason : string)
| UnknownAgent (id : AgentId)
| AgentAlreadyRegistered (id : AgentId)
| TooManyAgents (limit : nat)
| AgentDisabled (id : AgentId)
| AgentNotTrusted (id : AgentId) (state : TrustState) (reason : option InvalidationReason)
| GrantOutOfScope (id : AgentId) (granted_for observed_in : option string)
| ExecutableHashMismatch (id : AgentId) (trusted observed : Sha256Hash)
| ExecutableNotFound (id : AgentId) (path : string)
| InvalidExecutable (id : AgentId) (path reason : string)
| AgentAuthenticationRequired (id : AgentId)
| IncompatibleAgent (id : AgentId) (advertised : N)
| InitializeTimeout (id : AgentId)
| ConfigurationRead
| ConfigurationWrite
| MalformedConfiguration
| ConfigurationVersionTooOld (found minimum : N)
| ConfigurationVersionTooNew (found maximum : N)
| Store (e : StoreError)
| Integration (e : IntegrationDomainError)
| Acp (id : AgentId) (kind : string) (agent_selected : option N).

Definition AgentRegistryError_KINDS : list string :=
  ["invalid_agent_registration"; "unknown_agent"; "agent_already_registered";
   "too_many_registered_agents"; "agent_disabled"; "agent_not_trusted";
   "agent_grant_out_of_scope"; "executable_hash_mismatch"; "executable_not_found";
   "invalid_executable"; "agent_authentication_required"; "agent_incompatible";
   "initialize_timeout"; "agents_file_read_failed"; "agents_file_write_failed";
   "agents_file_malformed"; "agents_file_version_too_old"; "agents_file_version_too_new"].

Definition StoreError_kind (e : StoreError) : string :=
  match e with
  | ColumnEncoding _ _ => "column_encoding"
  | PayloadTooLarge _ _ _ => "payload_too_large"
  | Query => "query_failed"
  | NotFound => "not_found"
  | AlreadyExists => "already_exists"
  end.

Definition AgentRegistryError_kind (e : AgentRegistryError) : string :=
  match e with
  | InvalidRegistration _ _ => "invalid_agent_registration"
  | UnknownAgent _ => "unknown_agent"
  | AgentAlreadyRegistered _ => "agent_already_registered"
  | TooManyAgents _ => "too_many_registered_agents"
  | AgentDisabled _ => "agent_disabled"
  | AgentNotTrusted _ _ _ => "agent_not_trusted"
  | GrantOutOfScope _ _ _ => "agent_grant_out_of_scope"
  | ExecutableHashMismatch _ _ _ => "executable_hash_mismatch"
  | ExecutableNotFound _ _ => "executable_not_found"
  | InvalidExecutable _ _ _ => "invalid_executable"
  | AgentAuthenticationRequired _ => "agent_authentication_required"
  | IncompatibleAgent _ _ => "agent_incompatible"
  | InitializeTimeout _ => "initialize_timeout"
  | ConfigurationRead => "agents_file_read_failed"
  | ConfigurationWrite => "agents_file_write_failed"
  | MalformedConfiguration => "agents_file_malformed"
  | ConfigurationVersionTooOld _ _ => "agents_file_version_too_old"
  | ConfigurationVersionTooNew _ _ => "agents_file_version_too_new"
  | Store e => StoreError_kind e
  | Integration e => IntegrationDomainError_kind e
  | Acp _ kind _ => kind
  end.

Definition AGENT_OBSERVATION_SCHEMA_VERSION : N := 1.
Definition MAX_AGENT_AUTH_METHODS : nat := 16.
Definition MAX_AUTH_METHOD_TEXT_LENGTH : nat := 256.
Definition MAX_AUTH_METHOD_DESCRIPTION_LENGTH : nat := 1024.
Definition MAX_HEALTH_DETAIL_LENGTH : nat := 4096.
Definition MAX_AGENT_REPORTED_TEXT_LENGTH : nat := 512.

(** ** Enumerations *)

Inductive AuthStatus :=
| AuthUnknown | AuthNotRequired | AuthRequired | Authenticated | AuthFailed.
#[export] Instance AuthStatus_eq_dec : EqDecision AuthStatus.
Proof. solve_decision. Defined.
#[export] Instance AuthStatus_spelled : Spelled AuthStatus := {
  spelled_ALL := [AuthUnknown; AuthNotRequired; AuthRequired; Authenticated; AuthFailed];
  as_str s :=
    match s with
    | AuthUnknown => "unknown"
    | AuthNotRequired => "not_required"
    | AuthRequired => "required"
    | Authenticated => "authenticated"
    | AuthFailed => "failed"
    end;
}.
#[export] Instance AuthStatus_spelled_laws : SpelledLaws AuthStatus.
Proof. split; [intros []; set_solver|by intros [] []]. Qed.

Inductive CompatibilityStatus :=
| CompatibilityUnknown | Compatible | UnsupportedProtocolVersion (advertised : N).
#[export] Instance CompatibilityStatus_eq_dec : EqDecision CompatibilityStatus.
Proof. solve_decision. Defined.

Definition CompatibilityStatus_as_str (c : CompatibilityStatus) : string :=
  match c with
  | CompatibilityUnknown => "unknown"
  | Compatible => "compatible"
  | UnsupportedProtocolVersion _ => "unsupported_protocol_version"
  end.
Definition CompatibilityStatus_advertised (c : CompatibilityStatus) : option N :=
  match c with UnsupportedProtocolVersion advertised => Some advertised | _ => None end.
Definition CompatibilityStatus_from_stored (tag : string) (advertised : option N)
    : option CompatibilityStatus :=
  match advertised with
  | None =>
    if bool_decide (tag = "unknown") then Some CompatibilityUnknown
    else if bool_decide (tag = "compatible") then Some Compatible
    else None
  | Some advertised =>
    if bool_decide (tag = "unsupported_protocol_version")
    then Some (UnsupportedProtocolVersion advertised) else None
  end.

Inductive HealthStatus := Healthy | AuthenticationRequired | Incompatible | HealthFailed.
#[export] Instance HealthStatus_eq_dec : EqDecision HealthStatus.
Proof. solve_decision. Defined.
#[export] Instance HealthStatus_spelled : Spelled HealthStatus := {
  spelled_ALL := [Healthy; AuthenticationRequired; Incompatible; HealthFailed];
  as_str s :=
    match s with
    | Healthy => "healthy"
    | AuthenticationRequired => "authentication_required"
    | Incompatible => "incompatible"
    | HealthFailed => "failed"
    end;
}.
#[export] Instance HealthStatus_spelled_laws : SpelledLaws HealthStatus.
Proof. split; [intros []; set_solver|by intros [] []]. Qed.
Definition HealthStatus_is_usable (s : HealthStatus) : bool :=
  match s with Healthy => true | _ => false end.

Inductive AgentTeardown := AlreadyExited | ClosedStdin | Signalled | Killed.
#[export] Instance AgentTeardown_eq_dec : EqDecision AgentTeardown.
Proof. solve_decision. Defined.
#[export] Instance AgentTeardown_spelled : Spelled AgentTeardown := {
  spelled_ALL := [AlreadyExited; ClosedStdin; Signalled; Killed];
  as_str s :=
    match s with
    | AlreadyExited => "already_exited"
    | ClosedStdin => "closed_stdin"
    | Signalled => "signalled"
    | Killed => "killed"
    end;
}.
#[export] Instance AgentTeardown_spelled_laws : SpelledLaws AgentTeardown.
Proof. split; [intros []; set_solver|by intros [] []]. Qed.
Definition was_forced (t : AgentTeardown) : bool :=
  match t with Signalled | Killed => true | _ => false end.

(** ** What an agent advertises ([harkness-acp]'s [capabilities.rs]) *)

Record AuthMethod := MkAuthMethod {
  am_id : text;
  am_name : text;
  am_description : option text;
}.
Record PromptCapabilities := MkPromptCapabilities {
  pc_image : bool; pc_audio : bool; pc_embedded_context : bool;
}.
Record McpCapabilities := MkMcpCapabilities { mc_http : bool; mc_sse : bool }.
Record SessionCapabilities := MkSessionCapabilities {
  sc_list : bool; sc_delete : bool; sc_additional_directories : bool;
  sc_resume : bool; sc_close : bool;
}.
Record AcpAgentCapabilities := MkAcpAgentCapabilities {
  ac_load_session : bool;
  ac_prompt : PromptCapabilities;
  ac_mcp : McpCapabilities;
  ac_session : SessionCapabilities;
  ac_auth_logout : bool;
  ac_auth_methods : list AuthMethod;
}.
Record AgentDescription := MkAgentDescription {
  ad_name : text; ad_title : option text; ad_version : text;
}.

(** ** The snapshot that is recorded *)

Record AgentCapabilitySnapshot := MkAgentCapabilitySnapshot {
  load_session : bool;
  prompt_image : bool;
  prompt_audio : bool;
  prompt_embedded_context : bool;
  mcp_http : bool;
  mcp_sse : bool;
  session_list : bool;
  session_delete : bool;
  session_additional_directories : bool;
  session_resume : bool;
  session_close : bool;
  auth_logout : bool;
  auth_methods : list AuthMethod;
  auth_methods_truncated : bool;
}.

Definition requires_authentication (s : AgentCapabilitySnapshot) : bool :=
  negb (bool_decide (length (auth_methods s) = 0)) || auth_methods_truncated s.

(** One [AgentAuthMethod] of the snapshot. *)
Definition snapshot_method (m : AuthMethod) : AuthMethod :=
  MkAuthMethod (clamp (am_id m) MAX_AUTH_METHOD_TEXT_LENGTH)
    (clamp (am_name m) MAX_AUTH_METHOD_TEXT_LENGTH)
    ((λ d, clamp d MAX_AUTH_METHOD_DESCRIPTION_LENGTH) <$> am_description m).

Definition AgentCapabilitySnapshot_from (c : AcpAgentCapabilities) : AgentCapabilitySnapshot :=
  MkAgentCapabilitySnapshot (ac_load_session c)
    (pc_image (ac_prompt c)) (pc_audio (ac_prompt c)) (pc_embedded_context (ac_prompt c))
    (mc_http (ac_mcp c)) (mc_sse (ac_mcp c))
    (sc_list (ac_session c)) (sc_delete (ac_session c))
    (sc_additional_directories (ac_session c)) (sc_resume (ac_session c))
    (sc_close (ac_session c)) (ac_auth_logout c)
    (snapshot_method <$> take MAX_AGENT_AUTH_METHODS (ac_auth_methods c))
    (MAX_AGENT_AUTH_METHODS <? length (ac_auth_methods c)).

Section state.
Context `{Platform}.

Record InitializeRecord := MkInitializeRecord {
  ir_agent_name : option text;
  ir_agent_version : option text;
  ir_protocol_version : N;
  ir_capabilities : AgentCapabilitySnapshot;
  ir_recorded_at : OffsetDateTime;
}.

Definition InitializeRecord_new (info : option AgentDescription) (protocol_version : N)
    (capabilities : AgentCapabilitySnapshot) (recorded_at : OffsetDateTime) : InitializeRecord :=
  MkInitializeRecord
    ((λ i, clamp (ad_name i) MAX_AGENT_REPORTED_TEXT_LENGTH) <$> info)
    ((λ i, clamp (ad_version i) MAX_AGENT_REPORTED_TEXT_LENGTH) <$> info)
    protocol_version capabilities (to_utc recorded_at).

(** [initialize_record], of the outcome [initialize] returned *)
Definition initialize_record (info : option AgentDescription) (protocol_version : N)
    (capabilities : AcpAgentCapabilities) (at_ : OffsetDateTime) : InitializeRecord :=
  InitializeRecord_new info protocol_version (AgentCapabilitySnapshot_from capabilities) at_.

(** A [Duration] is its nanoseconds. *)
Record HealthRecord := MkHealthRecord {
  hr_status : HealthStatus;
  hr_failure_kind : option text;
  hr_detail : option text;
  hr_teardown : option AgentTeardown;
  hr_elapsed : N;
  hr_checked_at : OffsetDateTime;
}.

Definition HealthRecord_succeeded (status : HealthStatus) (elapsed : N)
    (checked_at : OffsetDateTime) : HealthRecord :=
  MkHealthRecord status None None None elapsed (to_utc checked_at).
Definition HealthRecord_failed (status : HealthStatus) (kind detail : text) (elapsed : N)
    (checked_at : OffsetDateTime) : HealthRecord :=
  MkHealthRecord status (Some kind) (Some (clamp detail MAX_HEALTH_DETAIL_LENGTH)) None elapsed
    (to_utc checked_at).
Definition torn_down (teardown : AgentTeardown) (r : HealthRecord) : HealthRecord :=
  MkHealthRecord (hr_status r) (hr_failure_kind r) (hr_detail r) (Some teardown) (hr_elapsed r)
    (hr_checked_at r).

(** ** The observations of one agent *)

Record AgentObservations := MkAgentObservations {
  auth_status : AuthStatus;
  compatibility : CompatibilityStatus;
  last_initialize : option InitializeRecord;
  last_health : option HealthRecord;
  updated_at : OffsetDateTime;
}.

Definition unobserved (at_ : OffsetDateTime) : AgentObservations :=
  MkAgentObservations AuthUnknown CompatibilityUnknown None None (to_utc at_).

Definition AgentObservations_from_parts (auth : AuthStatus) (compat : CompatibilityStatus)
    (initialize : option InitializeRecord) (health : option HealthRecord)
    (at_ : OffsetDateTime) : AgentObservations :=
  MkAgentObservations auth compat initialize health (to_utc at_).

Definition record_initialize (record : InitializeRecord) (at_ : OffsetDateTime)
    (o : AgentObservations) : AgentObservations :=
  MkAgentObservations
    (if requires_authentication (ir_capabilities record)
     then match auth_status o with Authenticated => Authenticated | _ => AuthRequired end
     else AuthNotRequired)
    Compatible (Some record) (last_health o) (to_utc at_).
Definition record_compatibility (c : CompatibilityStatus) (at_ : OffsetDateTime)
    (o : AgentObservations) : AgentObservations :=
  MkAgentObservations (auth_status o) c (last_initialize o) (last_health o) (to_utc at_).
Definition record_authentication (status : AuthStatus) (at_ : OffsetDateTime)
    (o : AgentObservations) : AgentObservations :=
  MkAgentObservations status (compatibility o) (last_initialize o) (last_health o) (to_utc at_).
Definition record_health (health : HealthRecord) (at_ : OffsetDateTime)
    (o : AgentObservations) : AgentObservations :=
  MkAgentObservations (auth_status o) (compatibility o) (last_initialize o) (Some health)
    (to_utc at_).

(** ** Bounds, on the write and on the load *)

Definition too_long (maximum : nat) (t : text) : bool := maximum <? length t.

Fixpoint validate_methods (methods : list AuthMethod) : result AgentRegistryError unit :=
  match methods with
  | [] => Ok tt
  | m :: methods =>
    if too_long MAX_AUTH_METHOD_TEXT_LENGTH (am_id m)
       || too_long MAX_AUTH_METHOD_TEXT_LENGTH (am_name m)
    then Err (InvalidRegistration "last_initialize_json"
                "a stored authentication method identifier or name is too long")
    else if is_some_and (too_long MAX_AUTH_METHOD_DESCRIPTION_LENGTH) (am_description m)
    then Err (InvalidRegistration "last_initialize_json"
                "a stored authentication method description is too long")
    else validate_methods methods
  end.

Definition validate_capabilities (s : AgentCapabilitySnapshot) : result AgentRegistryError unit :=
  if MAX_AGENT_AUTH_METHODS <? length (auth_methods s)
  then Err (InvalidRegistration "last_initialize_json"
              "more authentication methods are stored than a snapshot may carry")
  else validate_methods (auth_methods s).

Definition validate_length (field : string) (value : option text) (maximum : nat)
    (reason : string) : result AgentRegistryError unit :=
  if is_some_and (too_long maximum) value then Err (InvalidRegistration field reason)
  else Ok tt.

Definition validate_initialize (r : InitializeRecord) : result AgentRegistryError unit :=
  _ ← validate_capabilities (ir_capabilities r);
  _ ← validate_length "last_initialize_json" (ir_agent_name r) MAX_AGENT_REPORTED_TEXT_LENGTH
        "the agent name is longer than one this build writes";
  validate_length "last_initialize_json" (ir_agent_version r) MAX_AGENT_REPORTED_TEXT_LENGTH
    "the agent version is longer than one this build writes".

Definition validate_health (r : HealthRecord) : result AgentRegistryError unit :=
  _ ← validate_length "last_health_json" (hr_detail r) MAX_HEALTH_DETAIL_LENGTH
        "the health detail is longer than one this build writes";
  validate_length "last_health_json" (hr_failure_kind r) MAX_AGENT_REPORTED_TEXT_LENGTH
    "the failure kind is longer than any this build declares".

Definition AgentObservations_validate (o : AgentObservations) : result AgentRegistryError unit :=
  _ ← match last_initialize o with Some r => validate_initialize r | None => Ok tt end;
  match last_health o with Some r => validate_health r | None => Ok tt end.

(** ** Stored form *)

Record InitializeRecordWire := MkInitializeRecordWire {
  iw_schema_version : N;
  iw_agent_name : option text;
  iw_agent_version : option text;
  iw_protocol_version : N;
  iw_capabilities : AgentCapabilitySnapshot;
  iw_recorded_at : OffsetDateTime;
}.
Record HealthRecordWire := MkHealthRecordWire {
  hw_schema_version : N;
  hw_status : string;
  hw_failure_kind : option text;
  hw_detail : option text;
  hw_teardown : option string;
  hw_elapsed_ms : N;
  hw_checked_at : OffsetDateTime;
}.

Definition NANOS_PER_MILLI : N := 1000000.

Definition validate_observation_version (found : N) : result AgentRegistryError unit :=
  if ((found =? 0) || (AGENT_OBSERVATION_SCHEMA_VERSION <? found))%N
  then Err (InvalidRegistration "agent_runtime_state"
              "the stored observation schema version is not one this build can read")
  else Ok tt.

Definition encode_initialize (r : InitializeRecord) : InitializeRecordWire :=
  MkInitializeRecordWire AGENT_OBSERVATION_SCHEMA_VERSION (ir_agent_name r) (ir_agent_version r)
    (ir_protocol_version r) (ir_capabilities r) (ir_recorded_at r).

Definition decode_initialize (w : InitializeRecordWire) : result AgentRegistryError InitializeRecord :=
  _ ← validate_observation_version (iw_schema_version w);
  _ ← validate_capabilities (iw_capabilities w);
  _ ← validate_length "last_initialize_json" (iw_agent_name w) MAX_AGENT_REPORTED_TEXT_LENGTH
        "the stored agent name is longer than one this build writes";
  _ ← validate_length "last_initialize_json" (iw_agent_version w) MAX_AGENT_REPORTED_TEXT_LENGTH
        "the stored agent version is longer than one this build writes";
  Ok (MkInitializeRecord (iw_agent_name w) (iw_agent_version w) (iw_protocol_version w)
        (iw_capabilities w) (to_utc (iw_recorded_at w))).

(** [u64::try_from(elapsed.as_millis()).unwrap_or(u64::MAX)] *)
Definition elapsed_millis (elapsed : N) : N := N.min (elapsed / NANOS_PER_MILLI) U64_MAX.

Definition encode_health (r : HealthRecord) : HealthRecordWire :=
  MkHealthRecordWire AGENT_OBSERVATION_SCHEMA_VERSION (as_str (hr_status r)) (hr_failure_kind r)
    (hr_detail r) (as_str <$> hr_teardown r) (elapsed_millis (hr_elapsed r)) (hr_checked_at r).

Definition decode_teardown (stored : option string) : result AgentRegistryError (option AgentTeardown) :=
  match stored with
  | None => Ok None
  | Some spelling =>
    Some <$> from_option_err (InvalidRegistration "last_health_json"
               "the stored teardown rung is not one this build defines") (from_spelling spelling)
  end.

Definition decode_health (w : HealthRecordWire) : result AgentRegistryError HealthRecord :=
  _ ← validate_observation_version (hw_schema_version w);
  _ ← validate_length "last_health_json" (hw_detail w) MAX_HEALTH_DETAIL_LENGTH
        "the stored health detail is longer than one this build writes";
  _ ← validate_length "last_health_json" (hw_failure_kind w) MAX_AGENT_REPORTED_TEXT_LENGTH
        "the stored failure kind is longer than any this build declares";
  status ← from_option_err (InvalidRegistration "last_health_json"
             "the stored health status is not one this build defines") (from_spelling (hw_status w));
  teardown ← decode_teardown (hw_teardown w);
  Ok (MkHealthRecord status (hw_failure_kind w) (hw_detail w) teardown
        (hw_elapsed_ms w * NANOS_PER_MILLI) (to_utc (hw_checked_at w))).
End state.

(** ** The row of one agent ([store/agent_registry.rs])

    [column_len] is the length of the JSON text [serde_json] gives a column; the row's
    schema version and the text of a timestamp are the store's. *)

Definition within_inline_limit (record field : string) (bytes : N) : result StoreError unit :=
  if (MAX_INLINE_PAYLOAD_BYTES <? bytes)%N then Err (PayloadTooLarge record field bytes) else Ok tt.

Definition AGENT_RECORD : string := "agent_runtime_state".

Section row.
Context `{Platform}.

Class AgentCodec := {
  initialize_len : InitializeRecordWire → N;
  health_len : HealthRecordWire → N;
}.

Record AgentRow := MkAgentRow {
  row_auth_status : string;
  row_compatibility : string;
  row_advertised : option N;
  row_last_initialize : option InitializeRecordWire;
  row_last_health : option HealthRecordWire;
  row_updated_at : OffsetDateTime;
}.

(** [Option::transpose] of an encoded column *)
Definition encode_column {A B} (field : string) (encode : A → B) (len : B → N) (value : option A)
    : result StoreError (option B) :=
  match value with
  | None => Ok None
  | Some a => _ ← within_inline_limit AGENT_RECORD field (len (encode a)); Ok (Some (encode a))
  end.

Definition put_row `{!AgentCodec} (o : AgentObservations) : result StoreError AgentRow :=
  _ ← match AgentObservations_validate o with
      | Ok _ => Ok tt
      | Err _ => Err (ColumnEncoding AGENT_RECORD "agent_runtime_state")
      end;
  initialize ← encode_column "last_initialize_json" encode_initialize initialize_len
                 (last_initialize o);
  health ← encode_column "last_health_json" encode_health health_len (last_health o);
  Ok (MkAgentRow (as_str (auth_status o)) (CompatibilityStatus_as_str (compatibility o))
        (CompatibilityStatus_advertised (compatibility o)) initialize health (updated_at o)).

Definition decode_column {A B} (field : string) (decode : B → result AgentRegistryError A)
    (stored : option B) : result StoreError (option A) :=
  match stored with
  | None => Ok None
  | Some b =>
    match decode b with
    | Ok a => Ok (Some a)
    | Err _ => Err (ColumnEncoding AGENT_RECORD field)
    end
  end.

Definition load_row (row : AgentRow) : result StoreError AgentObservations :=
  auth ← from_option_err (ColumnEncoding AGENT_RECORD "auth_status")
           (from_spelling (row_auth_status row));
  compat ← from_option_err (ColumnEncoding AGENT_RECORD "compatibility")
             (CompatibilityStatus_from_stored (row_compatibility row) (row_advertised row));
  initialize ← decode_column "last_initialize_json" decode_initialize (row_last_initialize row);
  health ← decode_column "last_health_json" decode_health (row_last_health row);
  Ok (AgentObservations_from_parts auth compat initialize health (row_updated_at row)).
End row.

(** ** Clamping keeps its promise *)

Lemma length_CLAMP_MARKER : length CLAMP_MARKER = 15.
Proof. reflexivity. Qed.

Lemma valid_CLAMP_MARKER : valid CLAMP_MARKER.
Proof. reflexivity. Qed.

Lemma clamp_length t maximum :
  length CLAMP_MARKER ≤ maximum → length (clamp t maximum) ≤ maximum.
Proof.
  intros Hm. unfold clamp. destruct (Nat.leb_spec (length t) maximum); [done|].
  rewrite length_app, length_take.
  destruct (floor_loop_spec t (maximum - length CLAMP_MARKER)) as [Hle _]. lia.
Qed.

(** The clamp of an agent's text means the same on both sides of a column: for
    any bound that fits the marker, the clamped text fits the bound, marker included;
    a text that fits is kept whole; a longer one keeps a prefix and says it was cut;
    clamping again changes nothing, so a clamped value is never refused when it is read
    back; and well-formed UTF-8 stays well-formed. *)
Theorem agent_clamp_is_stable t maximum :
  length CLAMP_MARKER ≤ maximum →
  length (clamp t maximum) ≤ maximum
  ∧ clamp (clamp t maximum) maximum = clamp t maximum
  ∧ (length t ≤ maximum → clamp t maximum = t)
  ∧ (maximum < length t → ∃ kept, kept `prefix_of` t ∧ clamp t maximum = kept ++ CLAMP_MARKER)
  ∧ (valid t → valid (clamp t maximum)).
Proof.
  intros Hm. pose proof (clamp_length t maximum Hm) as Hlen.
  split; [done|]. split.
  { unfold clamp at 1. by rewrite (proj2 (Nat.leb_le _ _) Hlen). }
  unfold clamp. destruct (Nat.leb_spec (length t) maximum) as [Hfit|Hlong].
  { split; [done|]. split; [lia|done]. }
  split; [lia|]. split.
  { intros _. eexists. split; [|reflexivity]. apply prefix_take. }
  intros Hv. apply valid_app; [|apply valid_CLAMP_MARKER].
  destruct (floor_loop_spec t (maximum - length CLAMP_MARKER)) as [Hle Hb].
  apply valid_take; [done|lia|done].
Qed.

Lemma agent_clamp_is_stable_witness :
  length (clamp (replicate 40 97%N) 20) ≤ 20
  ∧ clamp (replicate 40 97%N) 20 = replicate 5 97%N ++ CLAMP_MARKER.
Proof.
  destruct (agent_clamp_is_stable (replicate 40 97%N) 20) as [Hlen _];
    [rewrite length_CLAMP_MARKER; lia|].
  split; [exact Hlen|reflexivity].
Defined.

(** ** What is written reads back *)

Section stored.
Context `{Platform}.

(** What the stored form keeps: instants in UTC, an elapsed time in whole
    milliseconds. *)
Definition stored_initialize (r : InitializeRecord) : InitializeRecord :=
  MkInitializeRecord (ir_agent_name r) (ir_agent_version r) (ir_protocol_version r)
    (ir_capabilities r) (to_utc (ir_recorded_at r)).
Definition stored_health (r : HealthRecord) : HealthRecord :=
  MkHealthRecord (hr_status r) (hr_failure_kind r) (hr_detail r) (hr_teardown r)
    (elapsed_millis (hr_elapsed r) * NANOS_PER_MILLI) (to_utc (hr_checked_at r)).
Definition stored_observations (o : AgentObservations) : AgentObservations :=
  MkAgentObservations (auth_status o) (compatibility o) (stored_initialize <$> last_initialize o)
    (stored_health <$> last_health o) (to_utc (updated_at o)).

Lemma validate_length_Ok field value maximum reason u :
  validate_length field value maximum reason = Ok u ↔ is_some_and (too_long maximum) value = false.
Proof. unfold validate_length. destruct u, (is_some_and _ _); naive_solver. Qed.

Lemma bind_unit_Ok {A} (m : result AgentRegistryError unit) (f : unit → result AgentRegistryError A) a :
  m ≫= f = Ok a ↔ m = Ok tt ∧ f tt = Ok a.
Proof. destruct m as [[]|]; cbn; naive_solver. Qed.

Lemma decode_encode_initialize r r' :
  decode_initialize (encode_initialize r) = Ok r' ↔
  validate_initialize r = Ok tt ∧ r' = stored_initialize r.
Proof.
  unfold decode_initialize, validate_initialize. cbn [encode_initialize iw_schema_version
    iw_capabilities iw_agent_name iw_agent_version iw_protocol_version iw_recorded_at].
  rewrite !bind_unit_Ok, !validate_length_Ok. cbn. split.
  - intros (_ & ? & ? & ? & ?). by simplify_eq.
  - intros ((? & ? & ?) & ->). done.
Qed.

Lemma decode_teardown_spelled o : decode_teardown (as_str <$> o) = Ok o.
Proof. destruct o as [t|]; [|done]. unfold decode_teardown. cbn [fmap option_fmap option_map]. by rewrite from_spelling_as_str. Qed.

Lemma decode_encode_health r r' :
  decode_health (encode_health r) = Ok r' ↔ validate_health r = Ok tt ∧ r' = stored_health r.
Proof.
  unfold decode_health, validate_health. cbn [encode_health hw_schema_version hw_detail
    hw_failure_kind hw_status hw_teardown hw_elapsed_ms hw_checked_at].
  rewrite from_spelling_as_str, decode_teardown_spelled, !bind_unit_Ok, !validate_length_Ok.
  cbn. split.
  - intros (_ & ? & ? & ?). by simplify_eq.
  - intros ((? & ?) & ->). done.
Qed.

Lemma compatibility_stored c :
  CompatibilityStatus_from_stored (CompatibilityStatus_as_str c) (CompatibilityStatus_advertised c)
  = Some c.
Proof. by destruct c. Qed.

Lemma AgentObservations_validate_Ok o :
  AgentObservations_validate o = Ok tt ↔
  (∀ r, last_initialize o = Some r → validate_initialize r = Ok tt)
  ∧ (∀ r, last_health o = Some r → validate_health r = Ok tt).
Proof.
  unfold AgentObservations_validate. rewrite bind_unit_Ok.
  destruct (last_initialize o), (last_health o); naive_solver.
Qed.

Lemma encode_column_decode {A B} field (encode : A → B) len decode (stored : A → A)
    (value : option A) column :
  (∀ a, value = Some a → decode (encode a) = Ok (stored a)) →
  encode_column field encode len value = Ok column →
  decode_column field decode column = Ok (stored <$> value).
Proof.
  intros Hd. destruct value as [a|]; cbn.
  - destruct (within_inline_limit _ _ _) as [[]|]; cbn; [|done]. intros [= <-]. cbn.
    by rewrite (Hd a eq_refl).
  - by intros [= <-].
Qed.

Lemma encode_column_Err {A B} field (encode : A → B) len (value : option A) e :
  encode_column field encode len value = Err e →
  ∃ a, value = Some a ∧ e = PayloadTooLarge AGENT_RECORD field (len (encode a))
       ∧ (MAX_INLINE_PAYLOAD_BYTES < len (encode a))%N.
Proof.
  destruct value as [a|]; cbn; [|done]. unfold within_inline_limit.
  destruct (N.ltb_spec MAX_INLINE_PAYLOAD_BYTES (len (encode a))); cbn; [|done].
  intros [= <-]. eauto.
Qed.

(** The bound on the write is the bound on the load: a row of observations that
    is written loads back as what was observed, instants in UTC and the elapsed time in
    whole milliseconds; and a refusal to write has one of two causes, an encoded column
    past the inline limit, or a text no load would accept, in which case the encoded
    column indeed does not decode. *)
Theorem agent_row_round_trip `{!AgentCodec} (o : AgentObservations) :
  match put_row o with
  | Ok row => load_row row = Ok (stored_observations o)
  | Err (PayloadTooLarge _ _ bytes) => (MAX_INLINE_PAYLOAD_BYTES < bytes)%N
  | Err (ColumnEncoding _ _) =>
    (∃ r, last_initialize o = Some r ∧ is_ok (decode_initialize (encode_initialize r)) = false)
    ∨ (∃ r, last_health o = Some r ∧ is_ok (decode_health (encode_health r)) = false)
  | Err _ => False
  end.
Proof.
  unfold put_row. destruct (AgentObservations_validate o) as [[]|e] eqn:Hv; cbn [mbind result_bind].
  - apply AgentObservations_validate_Ok in Hv as [Hi Hh].
    destruct (encode_column _ encode_initialize _ _) as [ci|e] eqn:Hci; cbn [mbind result_bind].
    2: { apply encode_column_Err in Hci as (a & _ & -> & Hlt). done. }
    destruct (encode_column _ encode_health _ _) as [ch|e] eqn:Hch; cbn [mbind result_bind].
    2: { apply encode_column_Err in Hch as (a & _ & -> & Hlt). done. }
    eapply (encode_column_decode _ _ _ decode_initialize stored_initialize) in Hci.
    2: { intros r Hr. apply decode_encode_initialize. auto. }
    eapply (encode_column_decode _ _ _ decode_health stored_health) in Hch.
    2: { intros r Hr. apply decode_encode_health. auto. }
    unfold load_row. cbn [row_auth_status row_compatibility row_advertised row_last_initialize
      row_last_health row_updated_at].
    rewrite from_spelling_as_str, compatibility_stored. cbn [from_option_err mbind result_bind].
    rewrite Hci. cbn [mbind result_bind]. rewrite Hch. done.
  - assert (¬ ((∀ r, last_initialize o = Some r → validate_initialize r = Ok tt)
               ∧ (∀ r, last_health o = Some r → validate_health r = Ok tt))) as Hn.
    { rewrite <- AgentObservations_validate_Ok, Hv. done. }
    destruct (last_initialize o) as [i|] eqn:Hio.
    + destruct (validate_initialize i) as [[]|] eqn:Hvi.
      * right. destruct (last_health o) as [h|]; [|exfalso; apply Hn; naive_solver].
        exists h. split; [done|]. destruct (decode_health _) as [h'|] eqn:Hd; [|done].
        apply decode_encode_health in Hd as [Hvh _]. exfalso. apply Hn. naive_solver.
      * left. exists i. split; [done|]. destruct (decode_initialize _) as [i'|] eqn:Hd; [|done].
        apply decode_encode_initialize in Hd as [? _]. congruence.
    + right. destruct (last_health o) as [h|]; [|exfalso; apply Hn; naive_solver].
      exists h. split; [done|]. destruct (decode_health _) as [h'|] eqn:Hd; [|done].
      apply decode_encode_health in Hd as [Hvh _]. exfalso. apply Hn. naive_solver.
Qed.
End stored.

(** ** What checks can make of the observations *)

Section observed.
Context `{Platform}.

Inductive ObservationOp :=
| OpInitialize (info : option AgentDescription) (protocol_version : N)
    (capabilities : AcpAgentCapabilities)
| OpCompatibility (c : CompatibilityStatus)
| OpAuthentication (status : AuthStatus)
| OpSucceeded (status : HealthStatus) (elapsed : N) (teardown : option AgentTeardown)
| OpFailed (status : HealthStatus) (kind detail : text) (elapsed : N)
    (teardown : option AgentTeardown).

(** [match probe.teardown { Some(t) => record.torn_down(t), None => record }] *)
Definition with_teardown (teardown : option AgentTeardown) (r : HealthRecord) : HealthRecord :=
  match teardown with Some t => torn_down t r | None => r end.

Definition run_observation (op : ObservationOp) (at_ : OffsetDateTime) (o : AgentObservations)
    : AgentObservations :=
  match op with
  | OpInitialize info protocol_version capabilities =>
    record_initialize (initialize_record info protocol_version capabilities at_) at_ o
  | OpCompatibility c => record_compatibility c at_ o
  | OpAuthentication status => record_authentication status at_ o
  | OpSucceeded status elapsed teardown =>
    record_health (with_teardown teardown (HealthRecord_succeeded status elapsed at_)) at_ o
  | OpFailed status kind detail elapsed teardown =>
    record_health (with_teardown teardown (HealthRecord_failed status kind detail elapsed at_)) at_ o
  end.

Fixpoint run_observations (ops : list (ObservationOp * OffsetDateTime)) (o : AgentObservations)
    : AgentObservations :=
  match ops with
  | [] => o
  | (op, at_) :: ops => run_observations ops (run_observation op at_ o)
  end.

(** A failure's kind is one of the runtime's own discriminants. *)
Definition kind_fits (op : ObservationOp) : Prop :=
  match op with
  | OpFailed _ kind _ _ _ => length kind ≤ MAX_AGENT_REPORTED_TEXT_LENGTH
  | _ => True
  end.
Definition speaks_of_authentication (op : ObservationOp) : bool :=
  match op with OpAuthentication _ => true | _ => false end.

Lemma clamp_not_too_long t maximum :
  length CLAMP_MARKER ≤ maximum → too_long maximum (clamp t maximum) = false.
Proof. intros ?%(clamp_length t). by apply Nat.ltb_ge. Qed.

Lemma snapshot_methods_valid methods : validate_methods (snapshot_method <$> methods) = Ok tt.
Proof.
  induction methods as [|m methods IH]; [done|].
  cbn [fmap list_fmap validate_methods snapshot_method am_id am_name am_description].
  rewrite !clamp_not_too_long
    by (rewrite length_CLAMP_MARKER; unfold MAX_AUTH_METHOD_TEXT_LENGTH; lia).
  cbn [orb]. destruct (am_description m) as [d|]; cbn [fmap option_fmap option_map is_some_and];
    [|done].
  by rewrite clamp_not_too_long
    by (rewrite length_CLAMP_MARKER; unfold MAX_AUTH_METHOD_DESCRIPTION_LENGTH; lia).
Qed.

Lemma initialize_record_valid info version capabilities at_ :
  validate_initialize (initialize_record info version capabilities at_) = Ok tt.
Proof.
  unfold validate_initialize, validate_capabilities.
  cbn [initialize_record InitializeRecord_new ir_capabilities AgentCapabilitySnapshot_from
    auth_methods ir_agent_name ir_agent_version].
  rewrite length_fmap, length_take. unfold initialize_record, InitializeRecord_new.
  cbn [ir_capabilities AgentCapabilitySnapshot_from auth_methods ir_agent_name ir_agent_version].
  destruct (Nat.ltb_spec MAX_AGENT_AUTH_METHODS
    (MAX_AGENT_AUTH_METHODS `min` length (ac_auth_methods capabilities))); [lia|].
  rewrite snapshot_methods_valid. cbn [mbind result_bind].
  assert (length CLAMP_MARKER ≤ MAX_AGENT_REPORTED_TEXT_LENGTH) as Hm
    by (rewrite length_CLAMP_MARKER; unfold MAX_AGENT_REPORTED_TEXT_LENGTH; lia).
  destruct info as [i|]; [|done].
  cbn [fmap option_fmap option_map]. unfold validate_length. cbn [is_some_and].
  by rewrite !clamp_not_too_long.
Qed.

Lemma health_op_valid teardown r : validate_health (with_teardown teardown r) = validate_health r.
Proof. by destruct teardown. Qed.

Lemma failed_valid status kind detail elapsed at_ :
  length kind ≤ MAX_AGENT_REPORTED_TEXT_LENGTH →
  validate_health (HealthRecord_failed status kind detail elapsed at_) = Ok tt.
Proof.
  intros Hk. unfold validate_health, validate_length.
  cbn [HealthRecord_failed hr_detail hr_failure_kind is_some_and].
  rewrite clamp_not_too_long
    by (rewrite length_CLAMP_MARKER; unfold MAX_HEALTH_DETAIL_LENGTH; lia).
  cbn [mbind result_bind]. unfold too_long. by rewrite (proj2 (Nat.ltb_ge _ _) Hk).
Qed.

Lemma run_observation_valid op at_ o :
  kind_fits op → AgentObservations_validate o = Ok tt →
  AgentObservations_validate (run_observation op at_ o) = Ok tt.
Proof.
  rewrite !AgentObservations_validate_Ok. intros Hk [Hi Hh].
  destruct op; cbn [run_observation record_initialize record_compatibility record_authentication
    record_health last_initialize last_health]; split; try done; intros r [= <-].
  - apply initialize_record_valid.
  - by rewrite health_op_valid.
  - rewrite health_op_valid. by apply failed_valid.
Qed.

(** Whatever an agent says about itself, the observations of it stay recordable as
    far as their own bounds go: after any sequence of handshakes, version refusals,
    sign-ins and health checks, on any advertised texts, the observations pass the
    validation every load repeats. And a sign-in status is a person's word only: without
    a recorded sign-in, no handshake and no check ever leaves the agent [Authenticated]
    or [Failed], and a completed sign-in survives every later handshake that still
    advertises a method. *)
Theorem observations_stay_valid (ops : list (ObservationOp * OffsetDateTime)) (at_ : OffsetDateTime) :
  Forall (λ p, kind_fits p.1) ops →
  let o := run_observations ops (unobserved at_) in
  AgentObservations_validate o = Ok tt
  ∧ (Forall (λ p, speaks_of_authentication p.1 = false) ops →
       auth_status o ≠ Authenticated ∧ auth_status o ≠ AuthFailed)
  ∧ (∀ info version capabilities later, auth_status o = Authenticated →
       ac_auth_methods capabilities ≠ [] →
       auth_status (run_observation (OpInitialize info version capabilities) later o)
       = Authenticated).
Proof.
  intros Hk o.
  assert (∀ ops o, Forall (λ p, kind_fits p.1) ops → AgentObservations_validate o = Ok tt →
    AgentObservations_validate (run_observations ops o) = Ok tt) as Hval.
  { clear. induction ops as [|[op at_] ops IH]; intros o Hk Hv; [done|].
    apply list.Forall_cons in Hk as [Hop Hk]. cbn. apply IH; [done|]. by apply run_observation_valid. }
  assert (∀ ops o, Forall (λ p, speaks_of_authentication p.1 = false) ops →
    auth_status o ≠ Authenticated ∧ auth_status o ≠ AuthFailed →
    auth_status (run_observations ops o) ≠ Authenticated
    ∧ auth_status (run_observations ops o) ≠ AuthFailed) as Hauth.
  { clear. induction ops as [|[op at_] ops IH]; intros o Hs Ho; [done|].
    apply list.Forall_cons in Hs as [Hop Hs]. cbn. apply IH; [done|].
    destruct op; cbn in *; try done. destruct (requires_authentication _); [|done].
    destruct (auth_status o); naive_solver. }
  split; [by apply Hval|]. split; [intros Hs; by apply Hauth|].
  intros info version capabilities later Ho Hm.
  cbn [run_observation record_initialize auth_status]. rewrite Ho.
  assert (requires_authentication (ir_capabilities
    (initialize_record info version capabilities later)) = true) as ->; [|done].
  unfold requires_authentication. cbn [initialize_record InitializeRecord_new ir_capabilities
    AgentCapabilitySnapshot_from auth_methods].
  rewrite length_fmap, length_take. destruct (ac_auth_methods capabilities); [done|]. done.
Qed.
End observed.

(** ** The bound that does not hold together

    JSON writes a control character as an escape of six bytes ([RFC 8259], section 7);
    [escaped_len] is what a string costs at least. *)

Definition escaped_byte (b : N) : N :=
  (if (b <? 32)
   then if bool_decide (b ∈ [8; 9; 10; 12; 13]) then 2 else 6
   else if (b =? 34) || (b =? 92) then 2 else 1)%N.
Definition sum_N (l : list N) : N := foldr N.add 0%N l.
Definition escaped_len (t : text) : N := sum_N (escaped_byte <$> t).
Definition method_len (m : AuthMethod) : N :=
  (escaped_len (am_id m) + escaped_len (am_name m)
   + match am_description m with Some d => escaped_len d | None => 0 end)%N.

Section verbose.
Context `{Platform, !AgentCodec}.

(** A JSON text is at least as long as the strings in it. *)
Class EscapesStrings : Prop := {
  initialize_len_methods : ∀ w,
    (sum_N (method_len <$> auth_methods (iw_capabilities w)) ≤ initialize_len w)%N;
}.

Definition control_text (n : nat) : text := replicate n 1%N.
Definition verbose_method : AuthMethod :=
  MkAuthMethod (control_text MAX_AUTH_METHOD_TEXT_LENGTH) (control_text MAX_AUTH_METHOD_TEXT_LENGTH)
    (Some (control_text MAX_AUTH_METHOD_DESCRIPTION_LENGTH)).
Definition verbose_agent : AcpAgentCapabilities :=
  MkAcpAgentCapabilities false (MkPromptCapabilities false false false)
    (MkMcpCapabilities false false) (MkSessionCapabilities false false false false false) false
    (replicate MAX_AGENT_AUTH_METHODS verbose_method).

Lemma verbose_methods_len :
  sum_N (method_len <$> (snapshot_method <$> take MAX_AGENT_AUTH_METHODS (ac_auth_methods verbose_agent)))
  = 147456%N.
Proof. reflexivity. Qed.

(** A peer can make its own health record unwritable. An agent that advertises
    sixteen authentication methods, each text within its bound but made of control
    characters, is clamped to a snapshot that passes the validation, and whose JSON is
    147456 bytes and more of escapes: the row is refused as too large, so the check that
    saw the agent leaves no record, although the bounds were chosen for that not to
    happen. *)
Theorem verbose_agent_unrecordable `{!EscapesStrings} (info : option AgentDescription)
    (version : N) (at_ : OffsetDateTime) (o : AgentObservations) :
  AgentObservations_validate o = Ok tt →
  let o' := run_observation (OpInitialize info version verbose_agent) at_ o in
  AgentObservations_validate o' = Ok tt
  ∧ ∃ bytes, put_row o' = Err (PayloadTooLarge AGENT_RECORD "last_initialize_json" bytes)
      ∧ (147456 ≤ bytes)%N.
Proof.
  intros Hv o'. assert (AgentObservations_validate o' = Ok tt) as Hv'.
  { by apply run_observation_valid. }
  split; [done|]. unfold put_row. rewrite Hv'. cbn [mbind result_bind].
  set (r := initialize_record info version verbose_agent at_).
  assert (last_initialize o' = Some r) as -> by done. cbn [encode_column].
  assert (147456 ≤ initialize_len (encode_initialize r))%N as Hlen.
  { pose proof (initialize_len_methods (encode_initialize r)) as Hl.
    assert (auth_methods (iw_capabilities (encode_initialize r))
      = snapshot_method <$> take MAX_AGENT_AUTH_METHODS (ac_auth_methods verbose_agent)) as Heq
      by reflexivity.
    by rewrite Heq, verbose_methods_len in Hl. }
  unfold within_inline_limit, MAX_INLINE_PAYLOAD_BYTES.
  destruct (N.ltb_spec (64 * 1024) (initialize_len (encode_initialize r))) as [_|]; [|lia].
  eexists. split; [reflexivity|done].
Qed.
End verbose.

(** ** Concrete observations *)

Definition demo_codec_len (w : InitializeRecordWire) : N :=
  (512 + sum_N (method_len <$> auth_methods (iw_capabilities w)))%N.
#[export] Instance demo_agent_codec : AgentCodec := {
  initialize_len := demo_codec_len;
  health_len _ := 256%N;
}.
#[export] Instance demo_escapes : EscapesStrings.
Proof. split. intros w. cbn [initialize_len demo_agent_codec]. unfold demo_codec_len. lia. Qed.

Lemma verbose_agent_unrecordable_witness :
  ∃ bytes,
    put_row (run_observation (OpInitialize None 1 verbose_agent) (demo_at 7) (unobserved (demo_at 1)))
    = Err (PayloadTooLarge AGENT_RECORD "last_initialize_json" bytes).
Proof.
  destruct (verbose_agent_unrecordable None 1 (demo_at 7) (unobserved (demo_at 1)))
    as [_ (bytes & Hput & _)]; [reflexivity|].
  exists bytes. exact Hput.
Defined.

Definition demo_signs_in : AcpAgentCapabilities :=
  MkAcpAgentCapabilities true (MkPromptCapabilities false false false)
    (MkMcpCapabilities false false) (MkSessionCapabilities false false false false false) false
    [MkAuthMethod [111; 97; 117; 116; 104]%N [79; 65; 117; 116; 104]%N None].
Definition demo_history : list (ObservationOp * OffsetDateTime) :=
  [(OpInitialize None 1 demo_signs_in, demo_at 2);
   (OpFailed HealthFailed [120]%N [121]%N 5 (Some Killed), demo_at 3)].

Lemma observations_stay_valid_witness :
  let o := run_observations demo_history (unobserved (demo_at 1)) in
  AgentObservations_validate o = Ok tt ∧ auth_status o = AuthRequired ∧ auth_status o ≠ Authenticated.
Proof.
  destruct (observations_stay_valid demo_history (demo_at 1)) as (Hv & Ha & _).
  { repeat constructor; cbn; lia. }
  split; [exact Hv|]. split; [reflexivity|]. apply Ha. repeat constructor.
Defined.
