(* ===== verification/Agents.v ===== *)
(** * Registered external agents

    Models [src/crates/harkness-runtime/src/agent_registry/id.rs], [config.rs] and
    [suggestion.rs]: the identifier of a registration, the registration and its
    builders, the registry [agents.json] holds and its decoded form, and what a
    repository's own registry becomes.  The file itself, its lock and its JSON text
    are the filesystem's and serde's. *)

From stdpp Require Import base decidable list gmap sets strings.
From S2P Require Import Prelude Digest Text Contract Subject TrustRecord AgentState.

(** ** Identifiers ([id.rs]) *)

Definition MAX_AGENT_ID_LENGTH : nat := 64.

Definition is_alphanumeric (b : N) : bool :=
  ((97 <=? b) && (b <=? 122) || (48 <=? b) && (b <=? 57))%N.
Definition agent_id_byte (b : N) : bool :=
  is_alphanumeric b || (b =? 45)%N || (b =? 95)%N || (b =? 46)%N.
Definition invalid_registration {A} (field reason : string) : result AgentRegistryError A :=
  Err (InvalidRegistration field reason).

Definition AgentId_new (id : string) : result AgentRegistryError AgentId :=
  let bytes := utf8_bytes id in
  if bool_decide (bytes = []) then invalid_registration "id" "it cannot be empty"
  else if MAX_AGENT_ID_LENGTH <? length bytes
  then invalid_registration "id" "it is longer than the maximum agent identifier length"
  else if negb (forallb agent_id_byte bytes)
  then invalid_registration "id" "it must be lowercase ASCII letters, digits, '-', '_' or '.'"
  else if negb (is_some_and is_alphanumeric (head bytes)
                && is_some_and is_alphanumeric (last bytes))
  then invalid_registration "id" "it must begin and end with a lowercase letter or a digit"
  else Ok (MkAgentId id).

(** ** Registrations ([config.rs]) *)

Definition AGENTS_SCHEMA_VERSION : N := 1.
Definition MINIMUM_AGENTS_SCHEMA_VERSION : N := 1.
Definition MAX_REGISTERED_AGENTS : nat := 256.
Definition MAX_AGENTS_FILE_BYTES : N := 4 * 1024 * 1024.
Definition MAX_AGENT_ARGUMENTS : nat := 64.
Definition MAX_AGENT_ARGUMENT_LENGTH : N := 4096.
Definition MAX_ENV_ALLOWLIST_ENTRIES : nat := 64.
Definition MAX_ENVIRONMENT_NAME_LENGTH : nat := 128.

Inductive AgentSource := SourceUser | Discovered | Development.
#[export] Instance AgentSource_eq_dec : EqDecision AgentSource.
Proof. solve_decision. Defined.

Record AgentRegistration := MkAgentRegistration {
  ag_id : AgentId;
  ag_display_name : string;
  ag_command : string;
  ag_args : list string;
  ag_env_allowlist : list string;
  ag_enabled : bool;
  ag_source : AgentSource;
}.

Definition DISPLAY_NAME_GRAMMAR : string :=
  "it must be 1 to 512 bytes with no surrounding whitespace and no control characters".

Definition AgentRegistration_new (id : AgentId) (name command : string) (source : AgentSource)
    : result AgentRegistryError AgentRegistration :=
  if negb (is_ok (IdentityBasis_new name FromUser))
  then invalid_registration "display_name" DISPLAY_NAME_GRAMMAR
  else if bool_decide (command = "") then invalid_registration "command" "it cannot be empty"
  else if negb (is_rooted_anywhere command)
  then invalid_registration "command"
         "it must be an absolute path, so no PATH search can decide which program runs"
  else if (MAX_EXECUTABLE_PATH_LENGTH <? N.of_nat (length (utf8_bytes command)))%N
  then invalid_registration "command" "it is longer than the maximum executable path length"
  else Ok (MkAgentRegistration id name command [] [] false source).

(** The loop of [with_args]. *)
Fixpoint collect_args (args collected : list string) : result AgentRegistryError (list string) :=
  match args with
  | [] => Ok collected
  | argument :: args =>
    if length collected =? MAX_AGENT_ARGUMENTS
    then invalid_registration "args" "more arguments are declared than a registration may carry"
    else if bool_decide (argument = "")
    then invalid_registration "args" "an argument cannot be empty"
    else if (MAX_AGENT_ARGUMENT_LENGTH <? N.of_nat (length (utf8_bytes argument)))%N
    then invalid_registration "args" "an argument is longer than the maximum argument length"
    else if bool_decide (0%N ∈ utf8_bytes argument)
    then invalid_registration "args" "an argument contains a NUL byte, which no process can carry"
    else collect_args args (collected ++ [argument])
  end.

Definition with_args (args : list string) (r : AgentRegistration)
    : result AgentRegistryError AgentRegistration :=
  collected ← collect_args args [];
  Ok (MkAgentRegistration (ag_id r) (ag_display_name r) (ag_command r) collected
        (ag_env_allowlist r) (ag_enabled r) (ag_source r)).

Definition is_ascii_alphanumeric (b : N) : bool :=
  is_ascii_alphabetic b || ((48 <=? b) && (b <=? 57))%N.

Definition validate_environment_name (name : string) : result AgentRegistryError unit :=
  let bytes := utf8_bytes name in
  let valid :=
    is_some_and (λ b, (b =? 95)%N || is_ascii_alphabetic b) (head bytes)
    && forallb (λ b, (b =? 95)%N || is_ascii_alphanumeric b) (tail bytes) in
  if bool_decide (bytes = [])
  then invalid_registration "env_allowlist" "a variable name cannot be empty"
  else if MAX_ENVIRONMENT_NAME_LENGTH <? length bytes
  then invalid_registration "env_allowlist"
         "a variable name is longer than the maximum environment name length"
  else if negb valid
  then invalid_registration "env_allowlist" "a variable name must match [A-Za-z_][A-Za-z0-9_]*"
  else Ok tt.

(** The loop of [with_env_allowlist]; the set it keeps beside the list holds the
    names collected. *)
Fixpoint collect_env (names collected : list string) : result AgentRegistryError (list string) :=
  match names with
  | [] => Ok collected
  | name :: names =>
    if length collected =? MAX_ENV_ALLOWLIST_ENTRIES
    then invalid_registration "env_allowlist"
           "more variables are admitted than a registration may carry"
    else
      _ ← validate_environment_name name;
      if bool_decide (name ∈ collected)
      then invalid_registration "env_allowlist" "a variable is admitted twice"
      else collect_env names (collected ++ [name])
  end.

Definition with_env_allowlist (names : list string) (r : AgentRegistration)
    : result AgentRegistryError AgentRegistration :=
  collected ← collect_env names [];
  Ok (MkAgentRegistration (ag_id r) (ag_display_name r) (ag_command r) (ag_args r) collected
        (ag_enabled r) (ag_source r)).

Definition set_enabled_flag (enabled : bool) (r : AgentRegistration) : AgentRegistration :=
  MkAgentRegistration (ag_id r) (ag_display_name r) (ag_command r) (ag_args r)
    (ag_env_allowlist r) enabled (ag_source r).

Definition AgentRegistration_from_parts (id : AgentId) (name command : string)
    (args env_allowlist : list string) (enabled : bool) (source : AgentSource)
    : result AgentRegistryError AgentRegistration :=
  r ← AgentRegistration_new id name command source;
  r ← with_args args r;
  r ← with_env_allowlist env_allowlist r;
  Ok (set_enabled_flag enabled r).

(** Every field but [enabled]; the command compared as a [Path]. *)
Definition describes_same_configuration (a b : AgentRegistration) : bool :=
  bool_decide (ag_id a = ag_id b) && bool_decide (ag_display_name a = ag_display_name b)
  && path_eqb (ag_command a) (ag_command b) && bool_decide (ag_args a = ag_args b)
  && bool_decide (ag_env_allowlist a = ag_env_allowlist b)
  && bool_decide (ag_source a = ag_source b).
(** The derived [PartialEq]. *)
Definition AgentRegistration_eqb (a b : AgentRegistration) : bool :=
  describes_same_configuration a b && Bool.eqb (ag_enabled a) (ag_enabled b).

(** ** The registry *)

Record AgentRegistryFile := MkAgentRegistryFile { agents : list AgentRegistration }.

Definition registry_get (id : AgentId) (f : AgentRegistryFile) : option AgentRegistration :=
  find (λ a, bool_decide (ag_id a = id)) (agents f).

(** [*slot = value] through [get_mut] *)
Fixpoint replace_first (id : AgentId) (value : AgentRegistration) (l : list AgentRegistration)
    : list AgentRegistration :=
  match l with
  | [] => []
  | a :: l => if bool_decide (ag_id a = id) then value :: l else a :: replace_first id value l
  end.
Definition registry_set (id : AgentId) (value : AgentRegistration) (f : AgentRegistryFile)
    : AgentRegistryFile :=
  MkAgentRegistryFile (replace_first id value (agents f)).

Definition registry_insert (r : AgentRegistration) (f : AgentRegistryFile)
    : result AgentRegistryError AgentRegistryFile :=
  if MAX_REGISTERED_AGENTS <=? length (agents f) then Err (TooManyAgents MAX_REGISTERED_AGENTS)
  else Ok (MkAgentRegistryFile (agents f ++ [r])).

Fixpoint remove_first (id : AgentId) (l : list AgentRegistration) : list AgentRegistration :=
  match l with
  | [] => []
  | a :: l => if bool_decide (ag_id a = id) then l else a :: remove_first id l
  end.
Definition registry_remove (id : AgentId) (f : AgentRegistryFile)
    : option AgentRegistration * AgentRegistryFile :=
  (registry_get id f, MkAgentRegistryFile (remove_first id (agents f))).

(** ** The decoded file *)

Record AgentRegistrationWire := MkAgentRegistrationWire {
  aw_id : AgentId;
  aw_display_name : string;
  aw_command : string;
  aw_args : list string;
  aw_env_allowlist : list string;
  aw_enabled : bool;
  aw_source : AgentSource;
}.
Record AgentRegistryFileWire := MkAgentRegistryFileWire {
  fw_schema_version : N;
  fw_agents : list AgentRegistrationWire;
}.

(** [seen] holds the identifiers met so far. *)
Fixpoint read_entries (entries : list AgentRegistrationWire) (seen : list AgentId)
    : result AgentRegistryError (list AgentRegistration) :=
  match entries with
  | [] => Ok []
  | e :: entries =>
    if bool_decide (aw_id e ∈ seen)
    then invalid_registration "id" "two registrations share one identifier"
    else
      r ← AgentRegistration_from_parts (aw_id e) (aw_display_name e) (aw_command e) (aw_args e)
            (aw_env_allowlist e) (aw_enabled e) (aw_source e);
      rest ← read_entries entries (aw_id e :: seen);
      Ok (r :: rest)
  end.

(** [read_registry] from the version probe on. *)
Definition read_registry (w : AgentRegistryFileWire) : result AgentRegistryError AgentRegistryFile :=
  if (fw_schema_version w <? MINIMUM_AGENTS_SCHEMA_VERSION)%N
  then Err (ConfigurationVersionTooOld (fw_schema_version w) MINIMUM_AGENTS_SCHEMA_VERSION)
  else if (AGENTS_SCHEMA_VERSION <? fw_schema_version w)%N
  then Err (ConfigurationVersionTooNew (fw_schema_version w) AGENTS_SCHEMA_VERSION)
  else if MAX_REGISTERED_AGENTS <? length (fw_agents w)
  then Err (TooManyAgents MAX_REGISTERED_AGENTS)
  else MkAgentRegistryFile <$> read_entries (fw_agents w) [].

Definition encode_registration (r : AgentRegistration) : AgentRegistrationWire :=
  MkAgentRegistrationWire (ag_id r) (ag_display_name r) (ag_command r) (ag_args r)
    (ag_env_allowlist r) (ag_enabled r) (ag_source r).
Definition encode_registry (f : AgentRegistryFile) : AgentRegistryFileWire :=
  MkAgentRegistryFileWire AGENTS_SCHEMA_VERSION (encode_registration <$> agents f).

(** ** Repository suggestions ([suggestion.rs]) *)

Record AgentSuggestion := MkAgentSuggestion {
  sg_registration : AgentRegistration;
  sg_origin : string;
  sg_requested_enable : bool;
}.

Fixpoint normalize_suggestions (origin : string) (entries : list AgentRegistration)
    : result AgentRegistryError (list AgentSuggestion) :=
  match entries with
  | [] => Ok []
  | registration :: entries =>
    normalized ← AgentRegistration_new (ag_id registration) (ag_display_name registration)
                   (ag_command registration) Discovered;
    normalized ← with_args (ag_args registration) normalized;
    normalized ← with_env_allowlist (ag_env_allowlist registration) normalized;
    rest ← normalize_suggestions origin entries;
    Ok (MkAgentSuggestion normalized origin (ag_enabled registration) :: rest)
  end.

Definition repository_suggestions (origin : string) (w : AgentRegistryFileWire)
    : result AgentRegistryError (list AgentSuggestion) :=
  file ← read_registry w;
  normalize_suggestions origin (agents file).

(** ** Well-formed registrations *)

Definition argument_ok (a : string) : Prop :=
  a ≠ "" ∧ (N.of_nat (length (utf8_bytes a)) ≤ MAX_AGENT_ARGUMENT_LENGTH)%N ∧ 0%N ∉ utf8_bytes a.
Definition environment_ok (name : string) : Prop := validate_environment_name name = Ok tt.

Record registration_wf (r : AgentRegistration) : Prop := {
  agw_name : text_ok (ag_display_name r);
  agw_command : ag_command r ≠ "" ∧ is_rooted_anywhere (ag_command r) = true
    ∧ (N.of_nat (length (utf8_bytes (ag_command r))) ≤ MAX_EXECUTABLE_PATH_LENGTH)%N;
  agw_args : length (ag_args r) ≤ MAX_AGENT_ARGUMENTS ∧ Forall argument_ok (ag_args r);
  agw_env : length (ag_env_allowlist r) ≤ MAX_ENV_ALLOWLIST_ENTRIES
    ∧ Forall environment_ok (ag_env_allowlist r) ∧ NoDup (ag_env_allowlist r);
}.

Record file_wf (f : AgentRegistryFile) : Prop := {
  fwf_ids : NoDup (ag_id <$> agents f);
  fwf_count : length (agents f) ≤ MAX_REGISTERED_AGENTS;
  fwf_entries : Forall registration_wf (agents f);
}.

Lemma AgentRegistration_new_Ok id name command source r :
  AgentRegistration_new id name command source = Ok r ↔
  r = MkAgentRegistration id name command [] [] false source
  ∧ text_ok name ∧ command ≠ "" ∧ is_rooted_anywhere command = true
  ∧ (N.of_nat (length (utf8_bytes command)) ≤ MAX_EXECUTABLE_PATH_LENGTH)%N.
Proof.
  unfold AgentRegistration_new, invalid_registration.
  destruct (IdentityBasis_new name FromUser) as [b|e] eqn:Hb; cbn [is_ok negb].
  2: { split; [done|]. intros (_ & Hn & _). unfold IdentityBasis_new in Hb. by rewrite (Hn _) in Hb. }
  apply basis_new_Ok in Hb as [Hn _].
  case_bool_decide; [naive_solver|].
  destruct (is_rooted_anywhere command) eqn:Hr; cbn [negb]; [|split; [done|naive_solver]].
  destruct (N.ltb_spec MAX_EXECUTABLE_PATH_LENGTH (N.of_nat (length (utf8_bytes command)))).
  - split; [done|]. intros (_ & _ & _ & _ & ?). lia.
  - split; [intros [= <-]; done|by intros (-> & _)].
Qed.

Lemma collect_args_Ok args collected all :
  length collected ≤ MAX_AGENT_ARGUMENTS →
  collect_args args collected = Ok all ↔
  all = collected ++ args ∧ length all ≤ MAX_AGENT_ARGUMENTS ∧ Forall argument_ok args.
Proof.
  revert collected. induction args as [|a args IH]; intros collected Hc; cbn [collect_args].
  { rewrite app_nil_r. split; [intros [= <-]; done|by intros (-> & _)]. }
  unfold invalid_registration. destruct (Nat.eqb_spec (length collected) MAX_AGENT_ARGUMENTS) as [He|Hne].
  { split; [done|]. intros (-> & Hl & _). rewrite length_app in Hl. cbn in Hl. lia. }
  case_bool_decide as Hempty.
  { split; [done|]. intros (_ & _ & [[] _]%list.Forall_cons). done. }
  destruct (N.ltb_spec MAX_AGENT_ARGUMENT_LENGTH (N.of_nat (length (utf8_bytes a)))) as [Hlong|Hfit].
  { split; [done|]. intros (_ & _ & [(_ & ? & _) _]%list.Forall_cons). lia. }
  case_bool_decide as Hnul.
  { split; [done|]. intros (_ & _ & [(_ & _ & ?) _]%list.Forall_cons). done. }
  rewrite IH by (rewrite length_app; cbn; lia). rewrite <- app_assoc. cbn [app].
  rewrite list.Forall_cons. unfold argument_ok at 2. naive_solver.
Qed.

Lemma collect_env_Ok names collected all :
  length collected ≤ MAX_ENV_ALLOWLIST_ENTRIES → NoDup collected →
  collect_env names collected = Ok all ↔
  all = collected ++ names ∧ length all ≤ MAX_ENV_ALLOWLIST_ENTRIES ∧ Forall environment_ok names
  ∧ NoDup all.
Proof.
  revert collected. induction names as [|n names IH]; intros collected Hc Hnd; cbn [collect_env].
  { rewrite app_nil_r. split; [intros [= <-]; done|by intros (-> & _)]. }
  unfold invalid_registration.
  destruct (Nat.eqb_spec (length collected) MAX_ENV_ALLOWLIST_ENTRIES) as [He|Hne].
  { split; [done|]. intros (-> & Hl & _). rewrite length_app in Hl. cbn in Hl. lia. }
  destruct (validate_environment_name n) as [[]|] eqn:Hn; cbn [mbind result_bind].
  2: { split; [done|]. intros (_ & _ & [Hok _]%list.Forall_cons & _).
       unfold environment_ok in Hok. congruence. }
  case_bool_decide as Hin.
  { split; [done|]. intros (-> & _ & _ & Hall). exfalso. apply NoDup_app in Hall as (_ & Hd & _).
    apply (Hd n Hin). set_solver. }
  assert (NoDup (collected ++ [n])) as Hnd'.
  { apply NoDup_app. split; [done|]. split; [set_solver|apply NoDup_singleton]. }
  rewrite IH by (rewrite ?length_app; cbn; lia || done). rewrite <- app_assoc. cbn [app].
  rewrite list.Forall_cons. unfold environment_ok at 2. naive_solver.
Qed.

Lemma registration_from_parts_Ok id name command args env enabled source r :
  AgentRegistration_from_parts id name command args env enabled source = Ok r ↔
  r = MkAgentRegistration id name command args env enabled source ∧ registration_wf r.
Proof.
  unfold AgentRegistration_from_parts, with_args, with_env_allowlist. split.
  - intros (r0 & (-> & Hn & Hc)%AgentRegistration_new_Ok & (r1 & (a & Ha & [= <-])%bind_Ok
      & (r2 & (e & He & [= <-])%bind_Ok & [= <-])%bind_Ok)%bind_Ok)%bind_Ok.
    apply collect_args_Ok in Ha as (-> & Hal & Haf); [|cbn; lia].
    apply collect_env_Ok in He as (-> & Hel & Hef & Hnd); [|cbn; lia|constructor].
    split; [done|]. by split.
  - intros [-> [Hn Hc [Hal Haf] (Hel & Hef & Hnd)]]. cbn in *.
    rewrite (proj2 (AgentRegistration_new_Ok id name command source _) (conj eq_refl (conj Hn Hc))).
    cbn [mbind result_bind ag_id ag_display_name ag_command ag_env_allowlist ag_enabled ag_source].
    rewrite (proj2 (collect_args_Ok args [] args ltac:(cbn; lia))) by done.
    cbn [mbind result_bind ag_id ag_display_name ag_command ag_args ag_enabled ag_source].
    rewrite (proj2 (collect_env_Ok env [] env ltac:(cbn; lia) ltac:(constructor))) by done.
    done.
Qed.

Lemma read_entries_Ok entries seen l :
  read_entries entries seen = Ok l ↔
  entries = encode_registration <$> l ∧ Forall registration_wf l ∧ NoDup (ag_id <$> l)
  ∧ ∀ id, id ∈ seen → id ∉ ag_id <$> l.
Proof.
  revert seen l. induction entries as [|e entries IH]; intros seen l; cbn [read_entries].
  { split.
    - intros [= <-]. split; [done|]. split; [constructor|]. split; [constructor|set_solver].
    - intros (He & _). by destruct l. }
  case_bool_decide as Hseen.
  { split; [done|]. intros (He & _ & _ & Hs). destruct l as [|r l]; [done|]. cbn in He. simplify_eq.
    exfalso. apply (Hs (ag_id r)); [done|set_solver]. }
  split.
  - intros (r & [-> Hr]%registration_from_parts_Ok & (rest & (-> & Hwf & Hnd & Hs)%IH & [= <-])%bind_Ok)%bind_Ok.
    split; [by destruct e|]. split; [by constructor|]. cbn. split.
    + constructor; [|done]. apply Hs. set_solver.
    + intros id Hid [->|Hin]%elem_of_cons; [done|]. apply (Hs id); [set_solver|done].
  - intros (He & Hwf & Hnd & Hs). destruct l as [|r l]; [done|]. cbn in He. simplify_eq.
    apply list.Forall_cons in Hwf as [Hr Hwf]. cbn in Hnd. apply NoDup_cons in Hnd as [Hn Hnd].
    cbn [encode_registration aw_id aw_display_name aw_command aw_args aw_env_allowlist aw_enabled
      aw_source].
    rewrite (proj2 (registration_from_parts_Ok _ _ _ _ _ _ _ r)) by (split; [by destruct r|done]).
    cbn [mbind result_bind]. rewrite (proj2 (IH (ag_id r :: seen) l)); [done|].
    split; [done|]. split; [done|]. split; [done|].
    intros id [->|Hid]%elem_of_cons; [done|]. specialize (Hs id Hid). set_solver.
Qed.

Lemma read_registry_Ok w f : read_registry w = Ok f ↔ w = encode_registry f ∧ file_wf f.
Proof.
  unfold read_registry, MINIMUM_AGENTS_SCHEMA_VERSION, AGENTS_SCHEMA_VERSION. split.
  - destruct (N.ltb_spec (fw_schema_version w) 1), (N.ltb_spec 1 (fw_schema_version w)); try done.
    destruct (Nat.ltb_spec MAX_REGISTERED_AGENTS (length (fw_agents w))); [done|].
    destruct (read_entries (fw_agents w) []) as [l|] eqn:Hl; cbn; [|done]. intros [= <-].
    apply read_entries_Ok in Hl as (He & Hwf & Hnd & _). split.
    + destruct w as [v a]. cbn in *. unfold encode_registry. cbn. rewrite He.
      f_equal. unfold AGENTS_SCHEMA_VERSION. lia.
    + split; cbn; [done| |done]. rewrite He, length_fmap in *. lia.
  - intros [-> [Hnd Hc Hwf]]. cbn [encode_registry fw_schema_version fw_agents].
    rewrite length_fmap. cbn [N.ltb AGENTS_SCHEMA_VERSION].
    destruct (Nat.ltb_spec MAX_REGISTERED_AGENTS (length (agents f))); [lia|].
    unfold AGENTS_SCHEMA_VERSION. cbn.
    rewrite (proj2 (read_entries_Ok (encode_registration <$> agents f) [] (agents f))).
    + by destruct f.
    + split; [done|]. split; [done|]. split; [done|set_solver].
Qed.

(** ** What the operations keep *)

(** The registrations a caller can hold. *)
Inductive built_registration : AgentRegistration → Prop :=
| built_fresh id name command source r :
    AgentRegistration_new id name command source = Ok r → built_registration r
| built_args args r r' : built_registration r → with_args args r = Ok r' → built_registration r'
| built_env names r r' :
    built_registration r → with_env_allowlist names r = Ok r' → built_registration r'
| built_switched enabled r : built_registration r → built_registration (set_enabled_flag enabled r).

Lemma built_registration_wf r : built_registration r → registration_wf r.
Proof.
  induction 1 as [id name command source r (-> & Hn & Hc)%AgentRegistration_new_Ok
    |args r r' _ [] (a & Ha & [= <-])%bind_Ok|names r r' _ [] (e & He & [= <-])%bind_Ok
    |enabled r _ []].
  - split; cbn; [done|done|..].
    + split; [lia|constructor].
    + split; [lia|]. split; constructor.
  - apply collect_args_Ok in Ha as (-> & ? & ?); [|cbn; lia]. by split.
  - apply collect_env_Ok in He as (-> & ? & ? & ?); [|cbn; lia|constructor]. by split.
  - by split.
Qed.

(** The registries a process can hold: an absent file, a file it read, and what the
    mutations of the service make of one. *)
Inductive held : AgentRegistryFile → Prop :=
| held_absent : held (MkAgentRegistryFile [])
| held_read w f : read_registry w = Ok f → held f
| held_insert r f f' :
    held f → built_registration r → registry_get (ag_id r) f = None →
    registry_insert r f = Ok f' → held f'
| held_set r f : held f → built_registration r → held (registry_set (ag_id r) r f)
| held_switch enabled r f :
    held f → registry_get (ag_id r) f = Some r →
    held (registry_set (ag_id r) (set_enabled_flag enabled r) f)
| held_remove id f : held f → held (registry_remove id f).2.

Lemma registry_get_None id f : registry_get id f = None ↔ id ∉ ag_id <$> agents f.
Proof.
  unfold registry_get. induction (agents f) as [|a l IH]; cbn; [split; [set_solver|done]|].
  case_bool_decide as Ha.
  - split; [done|]. intros Hn. exfalso. apply Hn. set_solver.
  - rewrite IH. set_solver.
Qed.

Lemma registry_get_Some id f r : registry_get id f = Some r → r ∈ agents f ∧ ag_id r = id.
Proof. intros [Hin Hb%bool_decide_eq_true]%find_Some_elem. done. Qed.

Lemma replace_first_ids r l : ag_id <$> replace_first (ag_id r) r l = ag_id <$> l.
Proof.
  induction l as [|a l IH]; cbn; [done|]. case_bool_decide as Ha; cbn; [by rewrite Ha|by rewrite IH].
Qed.

Lemma replace_first_Forall (P : AgentRegistration → Prop) id r l :
  P r → Forall P l → Forall P (replace_first id r l).
Proof.
  intros Hr. induction 1 as [|a l Ha Hl IH]; cbn; [constructor|]. case_bool_decide; by constructor.
Qed.

Lemma remove_first_sublist id l : remove_first id l `sublist_of` l.
Proof.
  induction l as [|a l IH]; cbn; [done|]. case_bool_decide; [by apply sublist_cons|by apply sublist_skip].
Qed.

Lemma file_wf_set r f : registration_wf r → file_wf f → file_wf (registry_set (ag_id r) r f).
Proof.
  intros Hr [Hnd Hc Hwf]. split; cbn.
  - by rewrite replace_first_ids.
  - by rewrite <- (length_fmap ag_id), replace_first_ids, length_fmap.
  - by apply replace_first_Forall.
Qed.

Lemma file_wf_remove id f : file_wf f → file_wf (registry_remove id f).2.
Proof.
  intros [Hnd Hc Hwf]. pose proof (remove_first_sublist id (agents f)) as Hsub. split; cbn.
  - eapply sublist_NoDup; [exact Hnd|]. by apply fmap_sublist.
  - etrans; [by apply sublist_length|done].
  - apply list.Forall_forall. intros x Hx. rewrite list.Forall_forall in Hwf. apply Hwf.
    eapply elem_of_submseteq; [exact Hx|by apply sublist_submseteq].
Qed.

Lemma held_wf f : held f → file_wf f.
Proof.
  induction 1 as [|w f [_ ?]%read_registry_Ok|r f f' _ IH Hb%built_registration_wf Hg Hi
    |r f _ IH Hb%built_registration_wf|enabled r f _ IH Hg|id f _ IH].
  - split; cbn; [constructor|unfold MAX_REGISTERED_AGENTS; lia|constructor].
  - done.
  - unfold registry_insert in Hi. destruct (Nat.leb_spec MAX_REGISTERED_AGENTS (length (agents f)));
      [done|]. injection Hi as <-. destruct IH as [Hnd Hc Hwf]. apply registry_get_None in Hg.
    split; cbn.
    + rewrite fmap_app. apply NoDup_app. split; [done|]. split; [|apply NoDup_singleton]. set_solver.
    + rewrite length_app. cbn. lia.
    + apply Forall_app. split; [done|]. by constructor.
  - by apply file_wf_set.
  - apply (file_wf_set (set_enabled_flag enabled r)); [|done].
    apply registry_get_Some in Hg as [Hin _]. destruct IH as [_ _ Hwf].
    rewrite list.Forall_forall in Hwf. destruct (Hwf r Hin). by split.
  - by apply file_wf_remove.
Qed.

(** What a process may write to [agents.json] is what it can read back: every
    registry it can hold, starting from an absent or a decoded file and changed by
    registrations, updates, switches and removals, reads back from its own encoding
    unchanged, identifiers unique, every bound and grammar re-validated; and a file that
    is accepted is, entry for entry, the encoding of the registry it decodes to. *)
Theorem agents_file_round_trip :
  (∀ f, held f ↔ read_registry (encode_registry f) = Ok f)
  ∧ (∀ w f, read_registry w = Ok f → w = encode_registry f).
Proof.
  split.
  - intros f. split; [intros Hf; apply read_registry_Ok; split; [done|by apply held_wf]|].
    apply held_read.
  - by intros w f [-> _]%read_registry_Ok.
Qed.

Lemma normalize_suggestions_Ok origin l :
  Forall registration_wf l →
  normalize_suggestions origin l
  = Ok ((λ r, MkAgentSuggestion
                (MkAgentRegistration (ag_id r) (ag_display_name r) (ag_command r) (ag_args r)
                   (ag_env_allowlist r) false Discovered) origin (ag_enabled r)) <$> l).
Proof.
  induction 1 as [|r l [Hn Hc [Hal Haf] (Hel & Hef & Hnd)] _ IH]; cbn [normalize_suggestions fmap list_fmap];
    [done|].
  rewrite (proj2 (AgentRegistration_new_Ok (ag_id r) (ag_display_name r) (ag_command r) Discovered _)
             (conj eq_refl (conj Hn Hc))).
  cbn [mbind result_bind]. unfold with_args.
  rewrite (proj2 (collect_args_Ok (ag_args r) [] (ag_args r) ltac:(cbn; lia))) by done.
  cbn [mbind result_bind]. unfold with_env_allowlist.
  rewrite (proj2 (collect_env_Ok (ag_env_allowlist r) [] (ag_env_allowlist r) ltac:(cbn; lia)
             ltac:(constructor))) by done.
  cbn [mbind result_bind]. rewrite IH. done.
Qed.

(** A repository can suggest agents and enable none: for every registry file a
    checked-out repository ships, either the file is refused with the reader's own
    error, or there is one suggestion per entry, in order, with the entry's identifier,
    command, arguments and environment, its source rewritten to [Discovered] and its
    registration disabled, whatever the file said; what it said is kept only as the
    note that it asked. *)
Theorem repository_suggests_disabled origin (w : AgentRegistryFileWire) :
  match read_registry w with
  | Err e => repository_suggestions origin w = Err e
  | Ok f =>
    ∃ l, repository_suggestions origin w = Ok l
      ∧ Forall2 (λ r s,
          ag_enabled (sg_registration s) = false
          ∧ ag_source (sg_registration s) = Discovered
          ∧ sg_requested_enable s = ag_enabled r
          ∧ registration_wf (sg_registration s)
          ∧ (ag_id (sg_registration s), ag_command (sg_registration s), ag_args (sg_registration s),
             ag_env_allowlist (sg_registration s))
            = (ag_id r, ag_command r, ag_args r, ag_env_allowlist r)) (agents f) l
  end.
Proof.
  unfold repository_suggestions. destruct (read_registry w) as [f|e] eqn:Hr; cbn; [|done].
  apply read_registry_Ok in Hr as [_ [_ _ Hwf]]. eexists. split; [by apply normalize_suggestions_Ok|].
  apply Forall2_fmap_r. apply Forall_Forall2_diag. eapply List.Forall_impl; [|exact Hwf].
  cbn. intros r []. repeat split; naive_solver.
Qed.
