(* ===== verification/AgentService.v ===== *)
(** * The agent registry service

    Models [src/crates/harkness-runtime/src/agent_registry/service.rs] over its two
    stores: [agents.json], as the registry it decodes to, and the rows of [runtime.db]
    for trust grants and observations ([store/trust_record.rs],
    [store/agent_registry.rs], [Store::forget_agent]).

    Every access to a store may fail: [io_fails] says which of the accesses made so far
    do, and the theorems hold for every such pattern, so they cover an operation that
    stops half way.  An operation that reads before it takes the lock is split there,
    its second half taking what the first one read as an argument, so that any other
    operation may run in between.

    The executables on disk, the clock, fresh row identifiers, the environment and the
    conversation with a launched agent are arguments. *)

From stdpp Require Import base decidable list gmap sets strings.
From S2P Require Import Prelude Digest Text Subject TrustRecord AgentState Agents.

(** ** The world *)

(** What [verify_executable] can find at a path. *)
Inductive DiskEntry :=
| NoEntry | NotRegular | NotExecutable | Unreadable | Program (digest : Sha256Hash).

Class Faults := io_fails : nat → bool.

Section service.
Context `{Semver, !AgentCodec, Faults}.

Record StoredTrustRecord := MkStoredTrustRecord {
  st_id : Uuid;
  st_subject_kind : SubjectKind;
  st_subject_ref : string;
  st_record : TrustRecord;
  st_recorded_at : OffsetDateTime;
}.

Inductive AgentEvent :=
| ExternalAgentTrustInvalidated (id : AgentId) (reason : InvalidationReason)
    (trusted : option Sha256Hash) (observed : Sha256Hash) (detected_at : string)
| ExternalAgentHealthChecked (id : AgentId) (status : HealthStatus).

Record World := MkWorld {
  w_file : AgentRegistryFile;
  w_trust : list StoredTrustRecord;
  w_rows : gmap string AgentRow;
  w_events : list (Uuid * AgentEvent);
  w_io : nat;
}.

Definition tick (w : World) : World :=
  MkWorld (w_file w) (w_trust w) (w_rows w) (w_events w) (S (w_io w)).
Definition set_file (f : AgentRegistryFile) (w : World) : World :=
  MkWorld f (w_trust w) (w_rows w) (w_events w) (w_io w).
Definition set_trust (rows : list StoredTrustRecord) (w : World) : World :=
  MkWorld (w_file w) rows (w_rows w) (w_events w) (w_io w).
Definition set_rows (rows : gmap string AgentRow) (w : World) : World :=
  MkWorld (w_file w) (w_trust w) rows (w_events w) (w_io w).
Definition add_event (run : Uuid) (e : AgentEvent) (w : World) : World :=
  MkWorld (w_file w) (w_trust w) (w_rows w) (w_events w ++ [(run, e)]) (w_io w).

Abbreviation serviceM A := (stateM World AgentRegistryError A).

(** One access: it fails and changes nothing, or it happens. *)
Definition attempt {A} (e : AgentRegistryError) (act : World → A * World) : serviceM A := λ w,
  if io_fails (w_io w) then (Err e, tick w)
  else let '(a, w') := act (tick w) in (Ok a, w').

Definition fail {A} (e : AgentRegistryError) : serviceM A := lift (Err e).

(** *** [agents.json] *)

Definition lock_exclusive : serviceM unit := attempt ConfigurationWrite (λ w, (tt, w)).
Definition read_registry_file : serviceM AgentRegistryFile :=
  attempt ConfigurationRead (λ w, (w_file w, w)).

(** The length of the text [encode_registry] gives, which is serde's. *)
Class RegistryCodec := registry_len : AgentRegistryFile → N.
Context `{RegistryCodec}.

(** The replacement is atomic; the directory is synced after it. *)
Definition persist_registry (f : AgentRegistryFile) : serviceM unit :=
  if (MAX_AGENTS_FILE_BYTES <? registry_len f)%N
  then fail (InvalidRegistration "agents" "the registry is larger than the maximum agents.json size")
  else
    _ ← attempt ConfigurationWrite (λ w, (tt, set_file f w));
    attempt ConfigurationWrite (λ w, (tt, w)).

Definition registration (id : AgentId) : serviceM AgentRegistration :=
  file ← read_registry_file;
  match registry_get id file with
  | Some r => mret r
  | None => fail (UnknownAgent id)
  end.

(** *** Rows about one agent *)

Definition TRUST_RECORD : string := "integration_trust_record".

(** The length of [record_json], the text serde gives a grant. *)
Class TrustCodec := trust_len : TrustRecord → N.
Context `{TrustCodec}.

Definition store_result {A} (r : result StoreError A) : serviceM A :=
  match r with Ok a => mret a | Err e => fail (Store e) end.

Definition about (id : AgentId) (row : StoredTrustRecord) : bool :=
  bool_decide (st_subject_kind row = AgentExecutable)
  && bool_decide (st_subject_ref row = AgentId_str id).

(** [ORDER BY recorded_at DESC, rowid DESC LIMIT 1], over rows in insertion order *)
Definition later_row (best : option StoredTrustRecord) (row : StoredTrustRecord)
    : option StoredTrustRecord :=
  match best with
  | Some b => if ts_leb (st_recorded_at b) (st_recorded_at row) then Some row else best
  | None => Some row
  end.
Definition latest_row (id : AgentId) (rows : list StoredTrustRecord) : option StoredTrustRecord :=
  fold_left (λ best row, if about id row then later_row best row else best) rows None.

Definition latest_trust_record (id : AgentId) : serviceM (option StoredTrustRecord) :=
  attempt (Store Query) (λ w, (latest_row id (w_trust w), w)).

(** [id TEXT NOT NULL PRIMARY KEY] *)
Definition insert_trust_record (row : StoredTrustRecord) : serviceM unit :=
  _ ← store_result (within_inline_limit TRUST_RECORD "subject_ref" (N.of_nat (String.length (st_subject_ref row))));
  _ ← store_result (within_inline_limit TRUST_RECORD "record_json" (trust_len (st_record row)));
  inserted ← attempt (Store Query) (λ w,
    if existsb (λ stored, bool_decide (st_id stored = st_id row)) (w_trust w) then (false, w)
    else (true, set_trust (w_trust w ++ [row]) w));
  if inserted : bool then mret tt else fail (Store AlreadyExists).

Definition update_row (id : Uuid) (record : TrustRecord) (row : StoredTrustRecord)
    : StoredTrustRecord :=
  if bool_decide (st_id row = id)
  then MkStoredTrustRecord (st_id row) (st_subject_kind row) (st_subject_ref row) record
         (st_recorded_at row)
  else row.
Definition update_trust_record (id : Uuid) (record : TrustRecord) : serviceM unit :=
  _ ← store_result (within_inline_limit TRUST_RECORD "record_json" (trust_len record));
  updated ← attempt (Store Query) (λ w,
    (existsb (λ row, bool_decide (st_id row = id)) (w_trust w),
     set_trust (update_row id record <$> w_trust w) w));
  if updated : bool then mret tt else fail (Store NotFound).

Definition agent_observations (id : AgentId) : serviceM (option AgentObservations) :=
  stored ← attempt (Store Query) (λ w, (w_rows w !! AgentId_str id, w));
  match stored with
  | None => mret None
  | Some row =>
    o ← store_result (load_row row);
    mret (Some o)
  end.
Definition put_agent_observations (id : AgentId) (o : AgentObservations) : serviceM unit :=
  row ← store_result (put_row o);
  attempt (Store Query) (λ w, (tt, set_rows (<[AgentId_str id := row]> (w_rows w)) w)).

(** One transaction. *)
Definition forget_agent (id : AgentId) : serviceM unit :=
  attempt (Store Query) (λ w,
    (tt, set_trust (filter (λ row, about id row = false) (w_trust w))
           (set_rows (delete (AgentId_str id) (w_rows w)) w))).

Definition append_event (run : Uuid) (e : AgentEvent) : serviceM unit :=
  attempt (Store Query) (λ w, (tt, add_event run e w)).

(** ** Trust as it is reported ([state.rs]) *)

Record AgentTrust := MkAgentTrust {
  at_state : TrustState;
  at_reason : option InvalidationReason;
  at_executable_sha256 : option Sha256Hash;
  at_granted_at : option OffsetDateTime;
}.
Definition AgentTrust_untrusted : AgentTrust := MkAgentTrust Untrusted None None None.
Definition AgentTrust_from_record (r : TrustRecord) : AgentTrust :=
  MkAgentTrust (state r) (invalidation_reason r) (ex_sha256 <$> executable (identity_basis r))
    (Some (granted_at r)).
Definition AgentTrust_is_trusted (t : AgentTrust) : bool := bool_decide (at_state t = Trusted).

Definition not_trusted (id : AgentId) (t : AgentTrust) : AgentRegistryError :=
  AgentNotTrusted id (at_state t) (at_reason t).

Definition trust_state (id : AgentId) : serviceM AgentTrust :=
  stored ← latest_trust_record id;
  mret (match stored with
        | Some row => AgentTrust_from_record (st_record row)
        | None => AgentTrust_untrusted
        end).

(** ** Registration *)

Record RegistrationOutcome := MkRegistrationOutcome {
  ro_registration : AgentRegistration;
  ro_changed : bool;
}.

Definition register_agent (r : AgentRegistration) : serviceM RegistrationOutcome :=
  _ ← lock_exclusive;
  file ← read_registry_file;
  match registry_get (ag_id r) file with
  | Some existing =>
    if describes_same_configuration existing r then mret (MkRegistrationOutcome existing false)
    else fail (AgentAlreadyRegistered (ag_id r))
  | None =>
    let r := set_enabled_flag false r in
    file ← lift (registry_insert r file);
    _ ← persist_registry file;
    mret (MkRegistrationOutcome r true)
  end.

Definition update_agent (r : AgentRegistration) : serviceM RegistrationOutcome :=
  _ ← lock_exclusive;
  file ← read_registry_file;
  match registry_get (ag_id r) file with
  | None => fail (UnknownAgent (ag_id r))
  | Some existing =>
    if describes_same_configuration existing r then mret (MkRegistrationOutcome existing false)
    else
      let r := set_enabled_flag false r in
      _ ← persist_registry (registry_set (ag_id r) r file);
      mret (MkRegistrationOutcome r true)
  end.

Definition set_enabled_locked (id : AgentId) (enabled : bool) : serviceM RegistrationOutcome :=
  file ← read_registry_file;
  match registry_get id file with
  | None => fail (UnknownAgent id)
  | Some r =>
    if Bool.eqb (ag_enabled r) enabled then mret (MkRegistrationOutcome r false)
    else
      let r := set_enabled_flag enabled r in
      _ ← persist_registry (registry_set id r file);
      mret (MkRegistrationOutcome r true)
  end.

Definition set_enabled (id : AgentId) (enabled : bool) : serviceM RegistrationOutcome :=
  _ ← lock_exclusive;
  _ ← (if enabled
       then trust ← trust_state id;
            if AgentTrust_is_trusted trust then mret tt else fail (not_trusted id trust)
       else mret tt);
  set_enabled_locked id enabled.

Definition remove_agent (id : AgentId) : serviceM (option AgentRegistration) :=
  _ ← lock_exclusive;
  file ← read_registry_file;
  match registry_get id file with
  | None => mret None
  | Some _ =>
    _ ← forget_agent id;
    let '(removed, file) := registry_remove id file in
    _ ← persist_registry file;
    mret removed
  end.

(** ** Granting trust *)

Definition verify_executable (disk : string → DiskEntry) (r : AgentRegistration)
    : result AgentRegistryError Sha256Hash :=
  match disk (ag_command r) with
  | NoEntry => Err (ExecutableNotFound (ag_id r) (ag_command r))
  | NotRegular => Err (InvalidExecutable (ag_id r) (ag_command r) "it is not a regular file")
  | NotExecutable => Err (InvalidExecutable (ag_id r) (ag_command r) "it is not executable")
  | Unreadable => Err (InvalidExecutable (ag_id r) (ag_command r) "it cannot be read")
  | Program digest => Ok digest
  end.

Definition from_integration {A} (r : result IntegrationDomainError A) : serviceM A :=
  match r with Ok a => mret a | Err e => fail (Integration e) end.

Definition agent_basis (r : AgentRegistration) (digest : Sha256Hash) : serviceM IdentityBasis :=
  executable ← from_integration (ExecutableIdentity_new (ag_command r) digest);
  basis ← from_integration (IdentityBasis_new (ag_display_name r) FromUser);
  mret (launched_from executable basis).

Record TrustAgent := MkTrustAgent {
  ta_id : AgentId;
  ta_scope : TrustScope;
  ta_enable : bool;
  ta_at : OffsetDateTime;
}.
Record TrustOutcome := MkTrustOutcome {
  to_registration : AgentRegistration;
  to_trust : AgentTrust;
}.

(** [stored.record().scope() == &options.scope] *)
Definition scope_eqb (a b : TrustScope) : bool :=
  match a, b with
  | Global, Global => true
  | InWorkspace a, InWorkspace b => path_eqb a b
  | _, _ => false
  end.

(** Before the lock: which registration was hashed, and what it hashed to. *)
Definition trust_hash (options : TrustAgent) (disk : string → DiskEntry)
    : serviceM (AgentRegistration * Sha256Hash) :=
  unlocked ← registration (ta_id options);
  digest ← lift (verify_executable disk unlocked);
  mret (unlocked, digest).

(** A method of [TrustRecord] run on a copy of a stored record. *)
Definition moved (m : stateM TrustRecord IntegrationDomainError unit) (record : TrustRecord)
    : serviceM TrustRecord :=
  match m record with
  | (Ok _, record) => mret record
  | (Err e, _) => fail (Integration e)
  end.

(** Under the lock. *)
Definition trust_commit (options : TrustAgent) (unlocked : AgentRegistration)
    (digest : Sha256Hash) (disk : string → DiskEntry) (new_id : Uuid) (now : OffsetDateTime)
    : serviceM TrustOutcome :=
  _ ← lock_exclusive;
  registration ← registration (ta_id options);
  digest ← (if AgentRegistration_eqb registration unlocked then mret digest
            else lift (verify_executable disk registration));
  basis ← agent_basis registration digest;
  latest ← latest_trust_record (ta_id options);
  record ←
    match latest with
    | Some stored =>
      if bool_decide (state (st_record stored) = Invalidated)
         && scope_eqb (scope (st_record stored)) (ta_scope options)
      then
        record ← moved (regrant basis (ta_at options)) (st_record stored);
        _ ← update_trust_record (st_id stored) record;
        mret record
      else
        record ← from_integration (grant AgentExecutable basis (ta_scope options) (ta_at options));
        _ ← insert_trust_record
              (MkStoredTrustRecord new_id AgentExecutable (AgentId_str (ta_id options)) record now);
        mret record
    | None =>
      record ← from_integration (grant AgentExecutable basis (ta_scope options) (ta_at options));
      _ ← insert_trust_record
            (MkStoredTrustRecord new_id AgentExecutable (AgentId_str (ta_id options)) record now);
      mret record
    end;
  if ta_enable options
  then
    outcome ← set_enabled_locked (ta_id options) true;
    mret (MkTrustOutcome (ro_registration outcome) (AgentTrust_from_record record))
  else mret (MkTrustOutcome registration (AgentTrust_from_record record)).

Definition revoke_trust (id : AgentId) : serviceM TrustOutcome :=
  _ ← lock_exclusive;
  _ ← registration id;
  stored ← latest_trust_record id;
  trust ←
    match stored with
    | Some row =>
      if bool_decide (state (st_record row) = Revoked)
      then mret (AgentTrust_from_record (st_record row))
      else
        record ← moved revoke (st_record row);
        _ ← update_trust_record (st_id row) record;
        mret (AgentTrust_from_record record)
    | None => mret AgentTrust_untrusted
    end;
  outcome ← set_enabled_locked id false;
  mret (MkTrustOutcome (ro_registration outcome) trust).

Definition observations_or_new (id : AgentId) (at_ : OffsetDateTime) : serviceM AgentObservations :=
  stored ← agent_observations id;
  mret (match stored with Some o => o | None => unobserved at_ end).

Definition record_sign_in (id : AgentId) (status : AuthStatus) (now : OffsetDateTime)
    : serviceM (AgentTrust * AgentObservations) :=
  _ ← lock_exclusive;
  _ ← registration id;
  o ← observations_or_new id now;
  let o := record_authentication status now o in
  _ ← put_agent_observations id o;
  trust ← trust_state id;
  mret (trust, o).

(** ** Launching *)

Record LaunchContext := MkLaunchContext {
  lc_workspace : option string;
  lc_run : option Uuid;
}.
Inductive DriftDetection := AtHealthCheck | AtLaunch.
Definition DriftDetection_as_str (d : DriftDetection) : string :=
  match d with AtHealthCheck => "health_check" | AtLaunch => "launch" end.

(** What [admit_agent] decides before it changes anything. *)
Inductive Admission :=
| Cleared (r : AgentRegistration) (digest : Sha256Hash)
| Drifted (stored : StoredTrustRecord) (reason : InvalidationReason) (digest : Sha256Hash).

Definition admit_check (id : AgentId) (context : LaunchContext) (disk : string → DiskEntry)
    : serviceM Admission :=
  registration ← registration id;
  if negb (ag_enabled registration) then fail (AgentDisabled id)
  else
    latest ← latest_trust_record id;
    match latest with
    | None => fail (not_trusted id AgentTrust_untrusted)
    | Some stored =>
      if negb (bool_decide (state (st_record stored) = Trusted))
      then fail (not_trusted id (AgentTrust_from_record (st_record stored)))
      else
        digest ← lift (verify_executable disk registration);
        basis ← agent_basis registration digest;
        match check (st_record stored) (MkObservedIdentity basis (lc_workspace context)) with
        | Valid => mret (Cleared registration digest)
        | NotTrusted => fail (not_trusted id (AgentTrust_from_record (st_record stored)))
        | Invalidate WorkspacePathChanged =>
          fail (GrantOutOfScope id (TrustScope_root (scope (st_record stored))) (lc_workspace context))
        | Invalidate reason => mret (Drifted stored reason digest)
        end
    end.

(** The refusal [invalidate] answers with, or the failure that kept it from deciding:
    [admit_agent] reports either. *)
Definition invalidate_agent (id : AgentId) (stored : StoredTrustRecord)
    (reason : InvalidationReason) (observed : Sha256Hash) (context : LaunchContext)
    (detected_at : DriftDetection) : serviceM AgentRegistryError :=
  _ ← lock_exclusive;
  current ← latest_trust_record id;
  match current with
  | None => mret (not_trusted id AgentTrust_untrusted)
  | Some current =>
    if bool_decide (st_id current = st_id stored) && bool_decide (state (st_record current) = Trusted)
    then
      let trusted := ex_sha256 <$> executable (identity_basis (st_record current)) in
      record ← moved (invalidate reason) (st_record current);
      _ ← update_trust_record (st_id current) record;
      _ ← match lc_run context with
          | Some run =>
            append_event run (ExternalAgentTrustInvalidated id reason trusted observed
                                (DriftDetection_as_str detected_at))
          | None => mret tt
          end;
      _ ← set_enabled_locked id false;
      mret (match reason, trusted with
            | ExecutableHashChanged, Some trusted => ExecutableHashMismatch id trusted observed
            | _, _ => AgentNotTrusted id Invalidated (Some reason)
            end)
    else mret (not_trusted id (AgentTrust_from_record (st_record current)))
  end.

Definition admit_agent (id : AgentId) (context : LaunchContext) (disk : string → DiskEntry)
    (detected_at : DriftDetection) : serviceM (AgentRegistration * Sha256Hash) :=
  admission ← admit_check id context disk;
  match admission with
  | Cleared r digest => mret (r, digest)
  | Drifted stored reason digest =>
    e ← invalidate_agent id stored reason digest context detected_at;
    fail e
  end.

Record AgentLaunch := MkAgentLaunch {
  al_id : AgentId;
  al_command : string;
  al_args : list string;
  al_env : list (string * string);
  al_executable_sha256 : Sha256Hash;
}.

(** [filter_map(|name| std::env::var(name).ok().map(|value| (name, value)))] *)
Definition launch (env : string → option string) (r : AgentRegistration) (digest : Sha256Hash)
    : AgentLaunch :=
  MkAgentLaunch (ag_id r) (ag_command r) (ag_args r)
    (omap (λ name, (λ value, (name, value)) <$> env name) (ag_env_allowlist r)) digest.

Definition prepare_launch (id : AgentId) (context : LaunchContext) (disk : string → DiskEntry)
    (env : string → option string) : serviceM AgentLaunch :=
  admitted ← admit_agent id context disk AtLaunch;
  observed ← agent_observations id;
  let auth := match observed with Some o => auth_status o | None => AuthUnknown end in
  if bool_decide (auth = AuthRequired) || bool_decide (auth = AuthFailed)
  then fail (AgentAuthenticationRequired id)
  else match compatibility <$> observed with
       | Some (UnsupportedProtocolVersion advertised) => fail (IncompatibleAgent id advertised)
       | _ => mret (launch env admitted.1 admitted.2)
       end.

(** ** Health checks *)

Record InitializeOutcome := MkInitializeOutcome {
  io_agent_info : option AgentDescription;
  io_protocol_version : N;
  io_capabilities : AcpAgentCapabilities;
}.
Record ProbeOutcome := MkProbeOutcome {
  pr_initialize : option InitializeOutcome;
  pr_teardown : option AgentTeardown;
  pr_failure : option AgentRegistryError;
}.
Record HealthOutcome := MkHealthOutcome {
  ho_id : AgentId;
  ho_record : HealthRecord;
  ho_initialize : option InitializeRecord;
}.

(** The [Display] text of an error. *)
Class ErrorText := error_text : AgentRegistryError → text.
Context `{ErrorText}.

(** What a probe makes of the observations: the status, the record and the handshake. *)
Definition assess (probe : ProbeOutcome) (elapsed : N) (at_ : OffsetDateTime)
    (o : AgentObservations)
    : AgentObservations * HealthStatus * HealthRecord * option InitializeRecord :=
  match pr_initialize probe, pr_failure probe with
  | Some outcome, _ =>
    let record := initialize_record (io_agent_info outcome) (io_protocol_version outcome)
                    (io_capabilities outcome) at_ in
    let status := if requires_authentication (ir_capabilities record)
                  then AuthenticationRequired else Healthy in
    (record_initialize record at_ o, status, HealthRecord_succeeded status elapsed at_, Some record)
  | None, Some failure =>
    let '(o, status) :=
      match failure with
      | Acp _ _ (Some agent_selected) =>
        (record_compatibility (UnsupportedProtocolVersion agent_selected) at_ o, Incompatible)
      | _ => (o, HealthFailed)
      end in
    (o, status,
     HealthRecord_failed status (utf8_bytes (AgentRegistryError_kind failure)) (error_text failure)
       elapsed at_, None)
  | None, None =>
    (o, HealthFailed,
     HealthRecord_failed HealthFailed (utf8_bytes "invalid_agent_registration")
       (utf8_bytes "the health check produced neither an outcome nor a failure") elapsed at_, None)
  end.

(** The event's own result is kept aside: it is reported only when the check itself
    has nothing to say. *)
Definition file_event (run : option Uuid) (e : AgentEvent)
    : serviceM (option AgentRegistryError) := λ w,
  match run with
  | None => (Ok None, w)
  | Some run =>
    match append_event run e w with
    | (Ok _, w') => (Ok None, w')
    | (Err e, w') => (Ok (Some e), w')
    end
  end.

Definition record_check (id : AgentId) (context : LaunchContext) (probe : ProbeOutcome)
    (elapsed : N) (now : OffsetDateTime) : serviceM HealthOutcome :=
  _ ← lock_exclusive;
  _ ← registration id;
  o ← observations_or_new id now;
  let '(o, status, record, initialize) := assess probe elapsed now o in
  let record := with_teardown (pr_teardown probe) record in
  let o := record_health record now o in
  _ ← put_agent_observations id o;
  filed ← file_event (lc_run context) (ExternalAgentHealthChecked id status);
  match pr_failure probe with
  | Some failure => fail failure
  | None =>
    match filed with
    | Some e => fail e
    | None => mret (MkHealthOutcome id record initialize)
    end
  end.

(** [admit_agent], with the failures the check reports about the agent kept apart. *)
Definition scratch_directory (working_dir : option string) : serviceM unit :=
  match working_dir with
  | Some _ => mret tt
  | None => attempt ConfigurationWrite (λ w, (tt, w))
  end.
Definition health_check (id : AgentId) (context : LaunchContext) (working_dir : option string)
    (disk : string → DiskEntry) (env : string → option string)
    (probe : AgentLaunch → ProbeOutcome) (elapsed : N) (now : OffsetDateTime)
    : serviceM HealthOutcome := λ w,
  match admit_agent id context disk AtHealthCheck w with
  | (Ok (r, digest), w) =>
    (_ ← scratch_directory working_dir;
     record_check id context (probe (launch env r digest)) elapsed now) w
  | (Err e, w) =>
    match e with
    | ExecutableNotFound _ _ | InvalidExecutable _ _ _ =>
      record_check id context (MkProbeOutcome None None (Some e)) elapsed now w
    | _ => (Err e, w)
    end
  end.

(** ** What a store answers after a change *)

Lemma registry_get_set id id' r f :
  ag_id r = id → registry_get id f ≠ None →
  registry_get id' (registry_set id r f) = if bool_decide (id' = id) then Some r else registry_get id' f.
Proof.
  intros Hr. unfold registry_get, registry_set. cbn [agents].
  induction (agents f) as [|a l IH]; cbn; [done|].
  intros Hget. destruct (decide (ag_id a = id)) as [Ha|Ha].
  - rewrite (bool_decide_true (ag_id a = id)) by done. cbn. rewrite Hr.
    destruct (decide (id' = id)) as [->|Hne].
    + by rewrite !bool_decide_true.
    + rewrite !(bool_decide_false (id = id')), (bool_decide_false (id' = id)) by congruence.
      by rewrite (bool_decide_false (ag_id a = id')) by congruence.
  - rewrite (bool_decide_false (ag_id a = id)) in * by done. cbn.
    destruct (decide (ag_id a = id')) as [Ha'|Ha'].
    + rewrite (bool_decide_true (ag_id a = id')), (bool_decide_false (id' = id)) by congruence. done.
    + rewrite !(bool_decide_false (ag_id a = id')) by done. by apply IH.
Qed.

Lemma registry_get_insert id r f f' :
  registry_get (ag_id r) f = None → registry_insert r f = Ok f' →
  registry_get id f' = if bool_decide (id = ag_id r) then Some r else registry_get id f.
Proof.
  unfold registry_insert, registry_get. destruct (_ <=? _); [done|]. intros Hn [= <-]. cbn [agents].
  induction (agents f) as [|a l IH]; cbn in *; [repeat case_bool_decide; congruence|].
  destruct (decide (ag_id a = ag_id r)) as [Ha|Ha]; [by rewrite bool_decide_true in Hn|].
  rewrite bool_decide_false in Hn by done. specialize (IH Hn).
  destruct (decide (ag_id a = id)) as [Hid|Hid].
  - rewrite (bool_decide_true (ag_id a = id)), (bool_decide_false (id = ag_id r)) by congruence. done.
  - by rewrite !(bool_decide_false (ag_id a = id)).
Qed.

Lemma registry_get_removed id id' f :
  id' ≠ id → registry_get id' (registry_remove id f).2 = registry_get id' f.
Proof.
  intros Hne. unfold registry_get, registry_remove. cbn.
  induction (agents f) as [|a l IH]; cbn; [done|].
  case_bool_decide as Ha; cbn.
  - by rewrite bool_decide_false by congruence.
  - by case_bool_decide.
Qed.

Definition latest_from (id : AgentId) (best : option StoredTrustRecord)
    (rows : list StoredTrustRecord) : option StoredTrustRecord :=
  fold_left (λ best row, if about id row then later_row best row else best) rows best.

Lemma about_update id uid record row : about id (update_row uid record row) = about id row.
Proof. unfold update_row. by case_bool_decide. Qed.

Lemma later_row_update uid record best row :
  later_row (update_row uid record <$> best) (update_row uid record row)
  = update_row uid record <$> later_row best row.
Proof.
  assert (∀ r, st_recorded_at (update_row uid record r) = st_recorded_at r) as Hat
    by (intros r; unfold update_row; by case_bool_decide).
  destruct best as [b|]; cbn; [|done]. rewrite !Hat. by case_match.
Qed.

Lemma latest_update_from id uid record rows best :
  latest_from id (update_row uid record <$> best) (update_row uid record <$> rows)
  = update_row uid record <$> latest_from id best rows.
Proof.
  revert best. induction rows as [|row rows IH]; intros best; [done|].
  cbn. rewrite about_update. fold (latest_from id).
  destruct (about id row); [|apply IH]. rewrite later_row_update. apply IH.
Qed.

Lemma latest_update id uid record rows :
  latest_row id (update_row uid record <$> rows) = update_row uid record <$> latest_row id rows.
Proof. exact (latest_update_from id uid record rows None). Qed.

Lemma about_other id id' row : id' ≠ id → about id' row = true → about id row = false.
Proof.
  unfold about. intros Hne [_ Hr%bool_decide_eq_true]%andb_true_iff.
  apply andb_false_iff. right. apply bool_decide_eq_false. destruct id, id'. cbn in *. congruence.
Qed.

Lemma latest_forget_same id rows : latest_row id (filter (λ row, about id row = false) rows) = None.
Proof.
  unfold latest_row. assert (∀ best, fold_left (λ best row, if about id row then later_row best row
    else best) (filter (λ row, about id row = false) rows) best = best) as Hfold; [|apply Hfold].
  induction rows as [|row rows IH]; intros best; [done|].
  rewrite filter_cons. case_decide as Hr; [|apply IH]. cbn. rewrite Hr. apply IH.
Qed.

Lemma latest_forget_other id id' rows :
  id' ≠ id → latest_row id' (filter (λ row, about id row = false) rows) = latest_row id' rows.
Proof.
  intros Hne. unfold latest_row. generalize (@None StoredTrustRecord).
  induction rows as [|row rows IH]; intros best; [done|].
  rewrite filter_cons. case_decide as Hr; cbn; [apply IH|].
  destruct (about id' row) eqn:Ha; [|apply IH].
  exfalso. apply Hr. by apply (about_other id id').
Qed.

Lemma latest_insert_other id row rows :
  about id row = false → latest_row id (rows ++ [row]) = latest_row id rows.
Proof. intros Ha. unfold latest_row. rewrite fold_left_app. cbn. by rewrite Ha. Qed.

Lemma latest_about id rows row : latest_row id rows = Some row → about id row = true ∧ row ∈ rows.
Proof.
  unfold latest_row.
  assert (∀ best, (∀ b, best = Some b → about id b = true ∧ b ∈ rows) →
    fold_left (λ best row, if about id row then later_row best row else best) rows best = Some row →
    about id row = true ∧ row ∈ rows) as Hone; [|apply Hone; done].
  assert (∀ l best, l ⊆ rows → (∀ b, best = Some b → about id b = true ∧ b ∈ rows) →
    fold_left (λ best row, if about id row then later_row best row else best) l best = Some row →
    about id row = true ∧ row ∈ rows) as Hall; [|intros best; by apply Hall].
  induction l as [|a l IH]; intros best Hl Hb; cbn; [apply Hb|].
  apply IH; [set_solver|]. intros b. destruct (about id a) eqn:Ha; [|apply Hb].
  unfold later_row. destruct best as [b0|].
  - case_match; [intros [= <-]; split; [done|set_solver]|apply Hb].
  - intros [= <-]. split; [done|set_solver].
Qed.

(** ** Reasoning about a run

    [wp m Q w]: whatever the accesses of [m] started in [w] come to, its result and the
    world it leaves satisfy [Q]. *)

Definition wp {A} (m : serviceM A) (Q : result AgentRegistryError A → World → Prop) (w : World)
    : Prop := Q (m w).1 (m w).2.

Lemma wp_bind {A B} (m : serviceM A) (f : A → serviceM B) Q w :
  wp m (λ r w', match r with Ok a => wp (f a) Q w' | Err e => Q (Err e) w' end) w →
  wp (m ≫= f) Q w.
Proof. unfold wp, mbind, stateM_bind. destruct (m w) as [[a|e] w']; done. Qed.

Lemma wp_attempt {A} e (act : World → A * World) (Q : result AgentRegistryError A → World → Prop) w :
  (io_fails (w_io w) = true → Q (Err e) (tick w)) →
  (io_fails (w_io w) = false → Q (Ok (act (tick w)).1) (act (tick w)).2) →
  wp (attempt e act) Q w.
Proof.
  unfold wp, attempt. destruct (io_fails (w_io w)); [by auto|]. destruct (act (tick w)). by auto.
Qed.

Lemma wp_weaken {A} (m : serviceM A) (P Q : result AgentRegistryError A → World → Prop) w :
  (∀ r w', P r w' → Q r w') → wp m P w → wp m Q w.
Proof. unfold wp. auto. Qed.

(** One access and what follows it. *)
Lemma wp_then {A B} e (act : World → A * World) (f : A → serviceM B) Q w :
  (io_fails (w_io w) = true → Q (Err e) (tick w)) →
  (io_fails (w_io w) = false → wp (f (act (tick w)).1) Q (act (tick w)).2) →
  wp (attempt e act ≫= f) Q w.
Proof. intros He Ho. apply wp_bind, wp_attempt; done. Qed.

Lemma wp_lift {A B} (r : result AgentRegistryError A) (f : A → serviceM B) Q w :
  (∀ e, r = Err e → Q (Err e) w) → (∀ a, r = Ok a → wp (f a) Q w) → wp (lift r ≫= f) Q w.
Proof. intros He Ho. apply wp_bind. unfold wp at 1, lift. destruct r; cbn; auto. Qed.

Lemma wp_bind_assoc {A B C} (m : serviceM A) (f : A → serviceM B) (g : B → serviceM C) Q w :
  wp (m ≫= λ a, f a ≫= g) Q w → wp ((m ≫= f) ≫= g) Q w.
Proof. unfold wp, mbind, stateM_bind. destruct (m w) as [[a|e] w']; done. Qed.

(** *** What counts as standing

    An agent stands when it is registered, enabled, and its latest grant is in force:
    the gates of a launch that the service itself controls. *)
Definition standing (w : World) (id : AgentId) : option (AgentRegistration * StoredTrustRecord) :=
  match registry_get id (w_file w), latest_row id (w_trust w) with
  | Some r, Some row =>
    if ag_enabled r && bool_decide (state (st_record row) = Trusted) then Some (r, row) else None
  | _, _ => None
  end.

(** Rows have the identifiers a primary key gives them. *)
Definition keyed (w : World) : Prop := NoDup (st_id <$> w_trust w).

Lemma keyed_inj w row row' :
  keyed w → row ∈ w_trust w → row' ∈ w_trust w → st_id row = st_id row' → row = row'.
Proof.
  unfold keyed. induction (w_trust w) as [|a l IH]; [by intros _ ?%not_elem_of_nil|].
  rewrite fmap_cons, NoDup_cons, !elem_of_cons. intros [Ha Hl] [->|Hr] [->|Hr'] Hid.
  - done.
  - destruct Ha. apply list_elem_of_fmap. eauto.
  - destruct Ha. apply list_elem_of_fmap. eauto.
  - by apply IH.
Qed.

(** What an operation may widen: the agents it is a grant to. *)
Section widening.
Variable G : AgentId → Prop.

(** No agent outside [G] stands in [w'] that did not stand, as it does, in [w]. *)
Definition narrows (w w' : World) : Prop :=
  keyed w → keyed w' ∧ ∀ id x, ¬ G id → standing w' id = Some x → standing w id = Some x.

Lemma narrows_refl w : narrows w w.
Proof. done. Qed.
Lemma narrows_trans w1 w2 w3 : narrows w1 w2 → narrows w2 w3 → narrows w1 w3.
Proof.
  intros H12 H23 Hk. destruct (H12 Hk) as [Hk2 H12']. destruct (H23 Hk2) as [Hk3 H23'].
  split; [done|]. intros id x Hg Hx. by apply H12', H23'.
Qed.

Lemma narrows_same w w' : w_file w' = w_file w → w_trust w' = w_trust w → narrows w w'.
Proof. intros Hf Ht Hk. unfold keyed, standing. by rewrite Hf, Ht. Qed.

(** Writing one registration matters to that agent only, and not even to it when the
    registration is disabled. *)
Lemma narrows_set w id r :
  registry_get id (w_file w) ≠ None → ag_id r = id → ag_enabled r = false ∨ G id →
  narrows w (set_file (registry_set id r (w_file w)) w).
Proof.
  intros Hget Hr Hoff Hk. split; [done|]. intros id' x Hg. unfold standing.
  cbn [w_file w_trust set_file set_trust set_rows].
  rewrite (registry_get_set id id' r) by done. case_bool_decide as Hid; [|done].
  destruct Hoff as [Hoff|]; [|by subst]. rewrite Hoff. cbn. by case_match.
Qed.

Lemma narrows_insert_disabled w r f :
  registry_get (ag_id r) (w_file w) = None → ag_enabled r = false →
  registry_insert r (w_file w) = Ok f → narrows w (set_file f w).
Proof.
  intros Hn Hoff Hi Hk. split; [done|]. intros id x Hg. unfold standing.
  cbn [w_file w_trust set_file set_trust set_rows].
  rewrite (registry_get_insert id r _ f Hn Hi). case_bool_decide; [|done].
  rewrite Hoff. cbn. by case_match.
Qed.

Lemma keyed_update w uid record :
  keyed w → keyed (set_trust (update_row uid record <$> w_trust w) w).
Proof.
  unfold keyed. cbn. rewrite <- list_fmap_compose.
  replace (st_id ∘ update_row uid record <$> w_trust w) with (st_id <$> w_trust w); [done|].
  apply list_fmap_ext. intros _ row _. cbn. unfold update_row. by case_bool_decide.
Qed.

(** Rewriting a row matters to the agent it is about only, and not even to it when what
    is written is not in force. *)
Lemma narrows_update w uid record :
  state record ≠ Trusted
  ∨ (∃ row id, row ∈ w_trust w ∧ st_id row = uid ∧ about id row = true ∧ G id) →
  narrows w (set_trust (update_row uid record <$> w_trust w) w).
Proof.
  intros Hs Hk. split; [by apply keyed_update|]. intros id x Hg. unfold standing.
  cbn [w_file w_trust set_file set_trust set_rows]. rewrite latest_update.
  destruct (registry_get id (w_file w)) as [r|]; [|done].
  destruct (latest_row id (w_trust w)) as [row|] eqn:Hrow; cbn; [|done].
  unfold update_row. destruct (decide (st_id row = uid)) as [Hid|Hid].
  - destruct Hs as [Hs|(row' & id' & Hin & Hid' & Ha & Hg')].
    + rewrite (bool_decide_true (st_id row = uid)) by done. cbn [st_record].
      rewrite (bool_decide_false (state record = Trusted)) by done. by rewrite andb_false_r.
    + exfalso. apply latest_about in Hrow as [Ha2 Hin2].
      assert (row = row') as -> by (apply (keyed_inj w); congruence).
      destruct (decide (id = id')) as [->|Hne]; [done|].
      pose proof (about_other id id' row' (not_eq_sym Hne) Ha). congruence.
  - by rewrite (bool_decide_false (st_id row = uid)).
Qed.

Lemma narrows_insert_row w row id :
  st_subject_ref row = AgentId_str id → G id → st_id row ∉ (st_id <$> w_trust w) →
  narrows w (set_trust (w_trust w ++ [row]) w).
Proof.
  intros Hr Hg Hnew Hk. split.
  - unfold keyed. cbn. rewrite fmap_app. apply NoDup_app. split; [exact Hk|]. split.
    + intros y Hy Hin%list_elem_of_singleton. by subst.
    + apply NoDup_singleton.
  - intros id' x Hg'. unfold standing. cbn [w_file w_trust set_file set_trust set_rows].
    rewrite latest_insert_other; [done|]. unfold about. rewrite Hr. apply andb_false_iff. right.
    apply bool_decide_eq_false. destruct id, id'. cbn. intros ->. done.
Qed.

Lemma narrows_forget w id :
  narrows w (set_trust (filter (λ row, about id row = false) (w_trust w))
               (set_rows (delete (AgentId_str id) (w_rows w)) w)).
Proof.
  intros Hk. split.
  { unfold keyed in *. cbn. eapply sublist_NoDup; [exact Hk|].
    apply fmap_sublist, sublist_filter. }
  intros id' x Hg. unfold standing. cbn [w_file w_trust set_file set_trust set_rows].
  destruct (decide (id' = id)) as [->|Hne].
  - rewrite latest_forget_same. by case_match.
  - by rewrite latest_forget_other.
Qed.

(** After its grants are gone an agent does not stand, whatever the file says. *)
Lemma narrows_remove w id f :
  (∀ id', id' ≠ id → registry_get id' f = registry_get id' (w_file w)) →
  latest_row id (w_trust w) = None → narrows w (set_file f w).
Proof.
  intros Hf Hn Hk. split; [done|]. intros id' x Hg. unfold standing.
  cbn [w_file w_trust set_file set_trust set_rows]. destruct (decide (id' = id)) as [->|Hne].
  - rewrite Hn. by case_match.
  - by rewrite Hf.
Qed.

Definition stores (w : World) := (w_file w, w_trust w, w_rows w, w_events w).

Lemma narrows_stores w w1 w2 : stores w1 = stores w → narrows w1 w2 → narrows w w2.
Proof. intros [= Hf Ht _ _]. by apply narrows_trans, narrows_same. Qed.
Lemma narrows_nothing w w' : stores w' = stores w → narrows w w'.
Proof. intros [= Hf Ht _ _]. by apply narrows_same. Qed.

(** A run that ends by narrowing, started from what a few reads left of [w]. *)
Definition narrowing {A} (m : serviceM A) : Prop := ∀ w, wp m (λ _ w', narrows w w') w.

Lemma narrowing_from {A} (m : serviceM A) w w1 :
  narrowing m → stores w1 = stores w → wp m (λ _ w', narrows w w') w1.
Proof. intros Hm Hs. eapply wp_weaken; [|apply Hm]. cbn. intros _ w'. by apply narrows_stores. Qed.

Lemma narrowing_bind {A B} (m : serviceM A) (f : A → serviceM B) :
  narrowing m → (∀ a, narrowing (f a)) → narrowing (m ≫= f).
Proof.
  intros Hm Hf w. apply wp_bind. eapply wp_weaken; [|apply Hm]. cbn. intros [a|e] w' Hw; [|done].
  eapply wp_weaken; [|apply Hf]. cbn. intros _ w''. by apply narrows_trans.
Qed.

Lemma narrowing_pure {A} (m : serviceM A) : (∀ w, stores (m w).2 = stores w) → narrowing m.
Proof. intros Hm w. unfold wp. specialize (Hm w). injection Hm as Hf Ht _ _. by apply narrows_same. Qed.

Lemma narrowing_ret {A} (a : A) : narrowing (mret a).
Proof. by apply narrowing_pure. Qed.
Lemma narrowing_fail {A} e : narrowing (fail e : serviceM A).
Proof. by apply narrowing_pure. Qed.
Lemma narrowing_lift {A} (r : result AgentRegistryError A) : narrowing (lift r).
Proof. by apply narrowing_pure. Qed.
Lemma narrowing_attempt {A} e (act : World → A * World) :
  (∀ w, narrows w (act (tick w)).2) → narrowing (attempt e act).
Proof. intros Hact w. apply wp_attempt; intros _; [by apply narrows_same|apply Hact]. Qed.
Lemma narrowing_read {A} e (act : World → A * World) :
  (∀ w, stores (act w).2 = stores w) → narrowing (attempt e act).
Proof.
  intros Hact. apply narrowing_attempt. intros w. specialize (Hact (tick w)).
  injection Hact as Hf Ht _ _. by apply narrows_same.
Qed.

Lemma narrowing_lock : narrowing lock_exclusive.
Proof. by apply narrowing_read. Qed.
Lemma narrowing_latest id : narrowing (latest_trust_record id).
Proof. by apply narrowing_read. Qed.
Lemma narrowing_append run e : narrowing (append_event run e).
Proof. apply narrowing_attempt. intros w. by apply narrows_same. Qed.
Lemma narrowing_registration id : narrowing (registration id).
Proof.
  apply narrowing_bind; [by apply narrowing_read|]. intros file.
  destruct (registry_get id file); [apply narrowing_ret|apply narrowing_fail].
Qed.
Lemma narrowing_store {A} (r : result StoreError A) : narrowing (store_result r).
Proof. destruct r; [apply narrowing_ret|apply narrowing_fail]. Qed.
Lemma narrowing_observations id : narrowing (agent_observations id).
Proof.
  apply narrowing_bind; [by apply narrowing_read|]. intros [row|]; [|apply narrowing_ret].
  apply narrowing_bind; [apply narrowing_store|intros o; apply narrowing_ret].
Qed.
Lemma narrowing_put id o : narrowing (put_agent_observations id o).
Proof.
  apply narrowing_bind; [apply narrowing_store|intros row].
  apply narrowing_attempt. intros w. by apply narrows_same.
Qed.
Lemma narrowing_update uid record :
  state record ≠ Trusted → narrowing (update_trust_record uid record).
Proof.
  intros Hs. apply narrowing_bind; [apply narrowing_store|intros _]. apply narrowing_bind.
  - apply narrowing_attempt. intros w. exact (narrows_update (tick w) uid record (or_introl Hs)).
  - intros []; [apply narrowing_ret|apply narrowing_fail].
Qed.
Lemma narrowing_from_integration {A} (r : result IntegrationDomainError A) :
  narrowing (from_integration r).
Proof. destruct r; [apply narrowing_ret|apply narrowing_fail]. Qed.
Lemma narrowing_basis r digest : narrowing (agent_basis r digest).
Proof.
  apply narrowing_bind; [apply narrowing_from_integration|intros e].
  apply narrowing_bind; [apply narrowing_from_integration|intros b]. apply narrowing_ret.
Qed.
Lemma narrowing_trust_state id : narrowing (trust_state id).
Proof. apply narrowing_bind; [apply narrowing_latest|intros o; apply narrowing_ret]. Qed.

(** Replacing the file: refused, or it happened, whether or not the sync after it did. *)
Lemma persist_spec f w :
  wp (persist_registry f)
    (λ r w', stores w' = stores w ∧ is_ok r = false ∨ stores w' = stores (set_file f w)) w.
Proof.
  unfold persist_registry. destruct (_ <? _)%N; [by left|].
  apply wp_then; intros _; [by left|]. apply wp_attempt; intros _; by right.
Qed.

(** A read of the file under the lock, and a replacement of what was read. *)
Lemma narrowing_replace {A} (f : AgentRegistryFile → serviceM A) :
  (∀ w w1, stores w1 = stores w → wp (f (w_file w)) (λ _ w', narrows w w') w1) →
  narrowing (file ← read_registry_file; f file).
Proof.
  intros Hf w. apply wp_then; intros _; [by apply narrows_same|]. cbn. apply (Hf (tick w)). done.
Qed.

Lemma wp_persist_narrows {A} f (k : unit → serviceM A) w w1 :
  stores w1 = stores w → narrows w (set_file f w) → (∀ u, narrowing (k u)) →
  wp (persist_registry f ≫= k) (λ _ w', narrows w w') w1.
Proof.
  intros Hs Hn Hk. apply wp_bind. eapply wp_weaken; [|apply persist_spec]. cbn.
  assert (∀ w', stores w' = stores w1 ∨ stores w' = stores (set_file f w1) → narrows w w') as Hdone.
  { intros w' [Hw|Hw].
    - rewrite Hs in Hw. injection Hw as Hf Ht _ _. by apply narrows_same.
    - eapply narrows_trans; [exact Hn|]. injection Hw as Hf Ht _ _. injection Hs as _ Ht1 _ _.
      apply narrows_same; cbn; congruence. }
  intros r w' Hw. assert (narrows w w') as Hww'.
  { apply Hdone. destruct Hw as [[Hw _]|Hw]; [by left|by right]. }
  destruct r as [u|e]; [|done].
  eapply wp_weaken; [|apply Hk]. cbn. intros _ w''. by apply narrows_trans.
Qed.

Lemma narrowing_register r : narrowing (register_agent r).
Proof.
  apply narrowing_bind; [apply narrowing_lock|intros _]. apply narrowing_replace. intros w w1 Hs.
  destruct (registry_get (ag_id r) (w_file w)) as [existing|] eqn:Hget.
  { destruct (describes_same_configuration _ _);
      (apply narrowing_from; [apply narrowing_ret || apply narrowing_fail|done]). }
  cbn zeta. apply wp_lift.
  - intros e _. injection Hs as Hf Ht _ _. by apply narrows_same.
  - intros file Hi. apply wp_persist_narrows; [done| |intros _; apply narrowing_ret].
    by eapply (narrows_insert_disabled w (set_enabled_flag false r)).
Qed.

Lemma narrowing_update_agent r : narrowing (update_agent r).
Proof.
  apply narrowing_bind; [apply narrowing_lock|intros _]. apply narrowing_replace. intros w w1 Hs.
  destruct (registry_get (ag_id r) (w_file w)) as [existing|] eqn:Hget.
  2: { apply narrowing_from; [apply narrowing_fail|done]. }
  destruct (describes_same_configuration _ _);
    [apply narrowing_from; [apply narrowing_ret|done]|].
  cbn zeta. apply wp_persist_narrows; [done| |intros _; apply narrowing_ret].
  apply narrows_set; [|done|by left].
  change (registry_get (ag_id r) (w_file w) ≠ None). congruence.
Qed.

Lemma registry_get_id id f r : registry_get id f = Some r → ag_id r = id.
Proof. by intros [_ ?]%registry_get_Some. Qed.

Lemma narrowing_switch id enabled :
  enabled = false ∨ G id → narrowing (set_enabled_locked id enabled).
Proof.
  intros Hon. apply narrowing_replace. intros w w1 Hs.
  destruct (registry_get id (w_file w)) as [r|] eqn:Hget.
  2: { apply narrowing_from; [apply narrowing_fail|done]. }
  destruct (Bool.eqb _ _); [apply narrowing_from; [apply narrowing_ret|done]|].
  cbn zeta. apply wp_persist_narrows; [done| |intros _; apply narrowing_ret].
  apply narrows_set; [congruence|exact (registry_get_id _ _ _ Hget)|exact Hon].
Qed.

Lemma narrowing_remove id : narrowing (remove_agent id).
Proof.
  apply narrowing_bind; [apply narrowing_lock|intros _]. apply narrowing_replace. intros w w1 Hs.
  destruct (registry_get id (w_file w)) as [r|] eqn:Hget.
  2: { apply narrowing_from; [apply narrowing_ret|done]. }
  apply wp_then; intros _; [injection Hs as Hf Ht _ _; by apply narrows_same|]. cbn [fst snd].
  set (w2 := set_trust _ _).
  assert (narrows w w2) as Hw2.
  { eapply narrows_stores; [exact Hs|]. apply (narrows_forget (tick w1)). }
  unfold registry_remove. cbn zeta.
  apply (wp_weaken _ (λ _ w', narrows w2 w'));
    [intros r' w' Hw'; exact (narrows_trans w w2 w' Hw2 Hw')|].
  apply wp_persist_narrows; [done| |intros _; apply narrowing_ret].
  apply (narrows_remove w2 id).
  - intros id' Hne. injection Hs as Hf _ _ _. cbn [w2 w_file set_trust set_rows tick]. rewrite Hf.
    by apply (registry_get_removed id id').
  - apply latest_forget_same.
Qed.

Lemma moved_spec m record record' w :
  moved m record w = (Ok record', w) ↔ m record = (Ok tt, record').
Proof.
  unfold moved. destruct (m record) as [[[]|e] r]; cbn; [|naive_solver].
  unfold mret, stateM_ret. naive_solver.
Qed.

Lemma run_op_Ok op record record' :
  run_op op record = (Ok tt, record') ↔ op_effect op record = Ok record'.
Proof. rewrite run_op_effect. destruct (op_effect op record); naive_solver. Qed.

Lemma revoked_not_trusted record record' : revoke record = (Ok tt, record') → state record' = Revoked.
Proof.
  intros Hr%(run_op_Ok Revoke). cbn in Hr. by case_bool_decide; simplify_eq.
Qed.
Lemma invalidated_not_trusted reason record record' :
  invalidate reason record = (Ok tt, record') →
  state record' = Invalidated ∧ invalidation_reason record' = Some reason.
Proof.
  intros Hr%(run_op_Ok (InvalidateOp reason)). cbn in Hr. by case_bool_decide; simplify_eq.
Qed.

(** Storing what a method made of a record, when it cannot end up in force. *)
Lemma narrowing_moved_update {A} m record uid (k : TrustRecord → serviceM A) :
  (∀ record', m record = (Ok tt, record') → state record' ≠ Trusted) →
  (∀ record', m record = (Ok tt, record') → narrowing (k record')) →
  narrowing (record' ← moved m record; _ ← update_trust_record uid record'; k record').
Proof.
  intros Hm Hk w. unfold moved. destruct (m record) as [[[]|e] record'] eqn:Hrun.
  2: { by apply narrows_same. }
  change (wp (_ ← update_trust_record uid record'; k record') (λ _ w', narrows w w') w).
  apply narrowing_bind; [apply narrowing_update; by apply Hm|]. intros _. by apply Hk.
Qed.

Lemma narrowing_revoke id : narrowing (revoke_trust id).
Proof.
  apply narrowing_bind; [apply narrowing_lock|intros _].
  apply narrowing_bind; [apply narrowing_registration|intros _].
  apply narrowing_bind; [apply narrowing_latest|intros stored].
  apply narrowing_bind.
  2: { intros trust. apply narrowing_bind; [apply narrowing_switch; by left|]. intros o. apply narrowing_ret. }
  destruct stored as [row|]; [|apply narrowing_ret].
  case_bool_decide; [apply narrowing_ret|].
  apply narrowing_moved_update; [|intros; apply narrowing_ret].
  intros record' Hr%revoked_not_trusted. by rewrite Hr.
Qed.

Lemma narrowing_sign_in id status now : narrowing (record_sign_in id status now).
Proof.
  apply narrowing_bind; [apply narrowing_lock|intros _].
  apply narrowing_bind; [apply narrowing_registration|intros _].
  apply narrowing_bind.
  { apply narrowing_bind; [apply narrowing_observations|intros o; apply narrowing_ret]. }
  intros o. cbn zeta. apply narrowing_bind; [apply narrowing_put|intros _].
  apply narrowing_bind; [apply narrowing_trust_state|intros t; apply narrowing_ret].
Qed.

Lemma narrowing_admit_check id context disk : narrowing (admit_check id context disk).
Proof.
  apply narrowing_bind; [apply narrowing_registration|intros r].
  destruct (negb (ag_enabled r)); [apply narrowing_fail|].
  apply narrowing_bind; [apply narrowing_latest|intros [stored|]; [|apply narrowing_fail]].
  destruct (negb _); [apply narrowing_fail|].
  apply narrowing_bind; [apply narrowing_lift|intros digest].
  apply narrowing_bind; [apply narrowing_basis|intros basis].
  destruct (check _ _) as [| |[]]; (apply narrowing_ret || apply narrowing_fail).
Qed.

Lemma narrowing_invalidate id stored reason observed context detected :
  narrowing (invalidate_agent id stored reason observed context detected).
Proof.
  apply narrowing_bind; [apply narrowing_lock|intros _].
  apply narrowing_bind; [apply narrowing_latest|intros [current|]; [|apply narrowing_ret]].
  destruct (_ && _); [|apply narrowing_ret]. cbn zeta.
  apply narrowing_moved_update.
  - intros record' [Hr _]%invalidated_not_trusted. by rewrite Hr.
  - intros record' _. apply narrowing_bind.
    { destruct (lc_run context); [apply narrowing_append|apply narrowing_ret]. }
    intros _. apply narrowing_bind; [apply narrowing_switch; by left|]. intros _. apply narrowing_ret.
Qed.

Lemma narrowing_admit id context disk detected : narrowing (admit_agent id context disk detected).
Proof.
  apply narrowing_bind; [apply narrowing_admit_check|intros [r digest|stored reason digest]].
  - apply narrowing_ret.
  - apply narrowing_bind; [apply narrowing_invalidate|intros e; apply narrowing_fail].
Qed.

Lemma narrowing_launch id context disk env : narrowing (prepare_launch id context disk env).
Proof.
  apply narrowing_bind; [apply narrowing_admit|intros admitted].
  apply narrowing_bind; [apply narrowing_observations|intros o]. cbn zeta.
  destruct (_ || _); [apply narrowing_fail|].
  destruct (compatibility <$> o) as [[]|]; (apply narrowing_ret || apply narrowing_fail).
Qed.

Lemma narrowing_trust_hash options disk : narrowing (trust_hash options disk).
Proof.
  apply narrowing_bind; [apply narrowing_registration|intros r].
  apply narrowing_bind; [apply narrowing_lift|intros d; apply narrowing_ret].
Qed.

Lemma narrowing_file_event run e : narrowing (file_event run e).
Proof.
  intros w. unfold wp, file_event. destruct run as [run|]; [|by apply narrows_refl].
  pose proof (narrowing_append run e w) as Hn. unfold wp in Hn.
  by destruct (append_event run e w) as [[]].
Qed.

Lemma narrowing_record_check id context probe elapsed now :
  narrowing (record_check id context probe elapsed now).
Proof.
  apply narrowing_bind; [apply narrowing_lock|intros _].
  apply narrowing_bind; [apply narrowing_registration|intros _].
  apply narrowing_bind.
  { apply narrowing_bind; [apply narrowing_observations|intros o; apply narrowing_ret]. }
  intros o. destruct (assess probe elapsed now o) as [[[o' status] record] initialize]. cbn zeta.
  apply narrowing_bind; [apply narrowing_put|intros _].
  apply narrowing_bind; [apply narrowing_file_event|intros filed].
  destruct (pr_failure probe); [apply narrowing_fail|].
  destruct filed; [apply narrowing_fail|apply narrowing_ret].
Qed.

Lemma narrowing_health_check id context dir disk env probe elapsed now :
  narrowing (health_check id context dir disk env probe elapsed now).
Proof.
  intros w. unfold wp, health_check.
  pose proof (narrowing_admit id context disk AtHealthCheck w) as Ha. unfold wp in Ha.
  destruct (admit_agent id context disk AtHealthCheck w) as [[[r digest]|e] w1]; cbn in Ha.
  - assert (narrowing (_ ← scratch_directory dir;
      record_check id context (probe (launch env r digest)) elapsed now)) as Hr.
    { apply narrowing_bind; [|intros _; apply narrowing_record_check].
      destruct dir; [apply narrowing_ret|by apply narrowing_read]. }
    eapply narrows_trans; [exact Ha|]. apply Hr.
  - destruct e; try exact Ha; (eapply narrows_trans; [exact Ha|]; apply narrowing_record_check).
Qed.

(** *** Grants *)

Lemma narrowing_set_enabled id enabled :
  enabled = false ∨ G id → narrowing (set_enabled id enabled).
Proof.
  intros Hon. apply narrowing_bind; [apply narrowing_lock|intros _].
  apply narrowing_bind; [|intros _; by apply narrowing_switch].
  destruct enabled; [|apply narrowing_ret].
  apply narrowing_bind; [apply narrowing_trust_state|intros trust].
  destruct (AgentTrust_is_trusted trust); [apply narrowing_ret|apply narrowing_fail].
Qed.

Lemma narrowing_insert row id :
  st_subject_ref row = AgentId_str id → G id → narrowing (insert_trust_record row).
Proof.
  intros Hr Hg. do 2 (apply narrowing_bind; [apply narrowing_store|intros _]).
  apply narrowing_bind; [|intros []; [apply narrowing_ret|apply narrowing_fail]].
  apply narrowing_attempt. intros w. cbn [w_trust tick].
  destruct (existsb _ (w_trust w)) eqn:Hex; cbn [snd]; [by apply narrows_same|].
  apply (narrows_insert_row (tick w) row id Hr Hg). cbn [w_trust tick].
  intros (stored & Hid & Hin)%list_elem_of_fmap. apply not_true_iff_false in Hex. apply Hex.
  apply existsb_exists. exists stored. split; [by apply list_elem_of_In|].
  by apply bool_decide_eq_true.
Qed.

Lemma wp_update_narrows uid record w w1 :
  stores w1 = stores w → narrows w (set_trust (update_row uid record <$> w_trust w) w) →
  wp (update_trust_record uid record) (λ _ w', narrows w w') w1.
Proof.
  intros Hs Hn. injection Hs as Hf Ht _ _. apply wp_bind.
  assert (narrows w w1) as Hw1 by (by apply narrows_same).
  unfold store_result. destruct (within_inline_limit _ _ _); [|done].
  apply wp_then; intros _; [by apply narrows_same|].
  apply (wp_weaken _ (λ _ w', stores w' = stores (set_trust (update_row uid record <$> w_trust w1) w1))).
  - intros r w' [= Hf' Ht' _ _]. eapply narrows_trans; [exact Hn|].
    apply narrows_same; cbn; congruence.
  - by destruct (existsb _ _).
Qed.

Lemma narrowing_commit options unlocked digest disk new_id now :
  G (ta_id options) → narrowing (trust_commit options unlocked digest disk new_id now).
Proof.
  intros Hg. apply narrowing_bind; [apply narrowing_lock|intros _].
  apply narrowing_bind; [apply narrowing_registration|intros r].
  apply narrowing_bind.
  { destruct (AgentRegistration_eqb r unlocked); [apply narrowing_ret|apply narrowing_lift]. }
  intros digest'. apply narrowing_bind; [apply narrowing_basis|intros basis]. intros w.
  apply wp_then; intros _; [by apply narrows_same|]. cbn [fst snd]. apply wp_bind.
  assert (∀ r' w', narrows w w' → wp (if ta_enable options then
      outcome ← set_enabled_locked (ta_id options) true;
      mret (MkTrustOutcome (ro_registration outcome) (AgentTrust_from_record r'))
    else mret (MkTrustOutcome r (AgentTrust_from_record r'))) (λ _ w', narrows w w') w') as Hend.
  { intros r' w' Hw. eapply wp_weaken; [intros ? ? Hw'; exact (narrows_trans _ _ _ Hw Hw')|].
    destruct (ta_enable options); [|apply narrowing_ret].
    apply narrowing_bind; [apply narrowing_switch; by right|intros o; apply narrowing_ret]. }
  apply (wp_weaken _ (λ _ w', narrows w w')); [intros [r'|e] w' Hw; [by apply Hend|exact Hw]|].
  assert (wp (record ← from_integration (grant AgentExecutable basis (ta_scope options) (ta_at options));
      _ ← insert_trust_record
            (MkStoredTrustRecord new_id AgentExecutable (AgentId_str (ta_id options)) record now);
      mret record) (λ _ w', narrows w w') (tick w)) as Hnew.
  { apply narrowing_from; [|done]. apply narrowing_bind; [apply narrowing_from_integration|].
    intros record. apply narrowing_bind; [by eapply narrowing_insert|intros _; apply narrowing_ret]. }
  destruct (latest_row _ _) as [stored|] eqn:Hl; [|exact Hnew].
  destruct (_ && _); [|exact Hnew].
  unfold moved. destruct (regrant basis (ta_at options) (st_record stored)) as [[[]|e] record'] eqn:Hr.
  2: { by apply narrows_same. }
  apply wp_bind. change (wp (mret record') ?Q ?w) with (Q (Ok record') w). cbn beta iota.
  apply wp_bind. eapply wp_weaken; [|apply (wp_update_narrows _ _ w)].
  - intros [u|e] w' Hw; exact Hw.
  - done.
  - apply narrows_update. right. apply latest_about in Hl as [Ha Hin]. eauto 6.
Qed.
End widening.

(** ** The operations of the service, each on its own or split at its lock *)

Inductive ServiceOp :=
| OpRegister (r : AgentRegistration)
| OpUpdate (r : AgentRegistration)
| OpSetEnabled (id : AgentId) (enabled : bool)
| OpRemove (id : AgentId)
| OpTrustHash (options : TrustAgent) (disk : string → DiskEntry)
| OpTrustCommit (options : TrustAgent) (unlocked : AgentRegistration) (digest : Sha256Hash)
    (disk : string → DiskEntry) (new_id : Uuid) (now : OffsetDateTime)
| OpRevoke (id : AgentId)
| OpSignIn (id : AgentId) (status : AuthStatus) (now : OffsetDateTime)
| OpAdmitCheck (id : AgentId) (context : LaunchContext) (disk : string → DiskEntry)
| OpInvalidate (id : AgentId) (stored : StoredTrustRecord) (reason : InvalidationReason)
    (observed : Sha256Hash) (context : LaunchContext) (detected_at : DriftDetection)
| OpPrepareLaunch (id : AgentId) (context : LaunchContext) (disk : string → DiskEntry)
    (env : string → option string)
| OpRecordCheck (id : AgentId) (context : LaunchContext) (probe : ProbeOutcome) (elapsed : N)
    (now : OffsetDateTime)
| OpHealthCheck (id : AgentId) (context : LaunchContext) (working_dir : option string)
    (disk : string → DiskEntry) (env : string → option string)
    (probe : AgentLaunch → ProbeOutcome) (elapsed : N) (now : OffsetDateTime).

Definition run_service (op : ServiceOp) (w : World) : World :=
  match op with
  | OpRegister r => after (register_agent r) w
  | OpUpdate r => after (update_agent r) w
  | OpSetEnabled id enabled => after (set_enabled id enabled) w
  | OpRemove id => after (remove_agent id) w
  | OpTrustHash options disk => after (trust_hash options disk) w
  | OpTrustCommit options unlocked digest disk new_id now =>
    after (trust_commit options unlocked digest disk new_id now) w
  | OpRevoke id => after (revoke_trust id) w
  | OpSignIn id status now => after (record_sign_in id status now) w
  | OpAdmitCheck id context disk => after (admit_check id context disk) w
  | OpInvalidate id stored reason observed context detected_at =>
    after (invalidate_agent id stored reason observed context detected_at) w
  | OpPrepareLaunch id context disk env => after (prepare_launch id context disk env) w
  | OpRecordCheck id context probe elapsed now =>
    after (record_check id context probe elapsed now) w
  | OpHealthCheck id context dir disk env probe elapsed now =>
    after (health_check id context dir disk env probe elapsed now) w
  end.

(** The two ways a user puts an agent in force. *)
Definition grants (op : ServiceOp) (id : AgentId) : Prop :=
  match op with
  | OpSetEnabled id' true => id = id'
  | OpTrustCommit options _ _ _ _ _ => id = ta_id options
  | _ => False
  end.

Lemma run_service_narrows op w : narrows (grants op) w (run_service op w).
Proof.
  destruct op; cbn [run_service].
  - apply narrowing_register.
  - apply narrowing_update_agent.
  - apply narrowing_set_enabled. destruct enabled; [by right|by left].
  - apply narrowing_remove.
  - apply narrowing_trust_hash.
  - by apply narrowing_commit.
  - apply narrowing_revoke.
  - apply narrowing_sign_in.
  - apply narrowing_admit_check.
  - apply narrowing_invalidate.
  - apply narrowing_launch.
  - apply narrowing_record_check.
  - apply narrowing_health_check.
Qed.

Definition run_services (ops : list ServiceOp) (w : World) : World :=
  fold_left (λ w op, run_service op w) ops w.
End service.
