(* ===== verification/AgentLaunch.v ===== *)
(** * What an agent launch rests on

    The gates of [prepare_launch] and what a drifted executable does to the stores
    ([admit_agent] and [invalidate] of
    [src/crates/harkness-runtime/src/agent_registry/service.rs]), proved of the
    definitions of [AgentService]. *)

From stdpp Require Import base decidable list gmap sets strings.
From S2P Require Import Prelude Digest Text Subject TrustRecord AgentState Agents AgentService.

Section launch.
Context `{Semver, !AgentCodec, Faults, !RegistryCodec, !TrustCodec}.

Abbreviation serviceM A := (stateM World AgentRegistryError A).

(** ** Runs that only read *)

Lemma stores_inv w w' :
  stores w' = stores w →
  w_file w' = w_file w ∧ w_trust w' = w_trust w ∧ w_rows w' = w_rows w ∧ w_events w' = w_events w.
Proof. by intros [= -> -> -> ->]. Qed.

(** One read of the stores: what it answered, or a failure. *)
Lemma wp_registration {B} id (f : AgentRegistration → serviceM B) (Q : result AgentRegistryError B → World → Prop) w :
  (∀ e w', stores w' = stores w → Q (Err e) w') →
  (∀ r, registry_get id (w_file w) = Some r → wp (f r) Q (tick w)) →
  wp (registration id ≫= f) Q w.
Proof.
  intros He Hr. apply wp_bind. apply wp_then; intros _; [by apply He|]. cbn [fst snd].
  destruct (registry_get id (w_file (tick w))) as [r|] eqn:Hg; [by apply Hr|by apply He].
Qed.

Lemma wp_latest {B} id (f : option StoredTrustRecord → serviceM B) (Q : result AgentRegistryError B → World → Prop) w :
  (∀ e w', stores w' = stores w → Q (Err e) w') →
  wp (f (latest_row id (w_trust w))) Q (tick w) →
  wp (latest_trust_record id ≫= f) Q w.
Proof. intros He Hf. apply wp_then; intros _; [by apply He|exact Hf]. Qed.

Lemma agent_basis_run r digest w :
  (agent_basis r digest w).2 = w
  ∧ ∀ basis, (agent_basis r digest w).1 = Ok basis →
      executable basis = Some (MkExecutableIdentity (ag_command r) digest).
Proof.
  unfold agent_basis, mbind, stateM_bind, from_integration.
  destruct (ExecutableIdentity_new (ag_command r) digest) as [e|] eqn:He; [|done]. cbn.
  assert (e = MkExecutableIdentity (ag_command r) digest) as ->.
  { unfold ExecutableIdentity_new in He. repeat case_match; by simplify_eq. }
  destruct (IdentityBasis_new _ _); cbn; [|done]. split; [done|]. by intros ? [= <-].
Qed.

Lemma wp_basis {B} r digest (f : IdentityBasis → serviceM B) (Q : result AgentRegistryError B → World → Prop) w :
  (∀ e w', stores w' = stores w → Q (Err e) w') →
  (∀ basis, (agent_basis r digest w).1 = Ok basis → wp (f basis) Q w) →
  wp (agent_basis r digest ≫= f) Q w.
Proof.
  intros He Hf. apply wp_bind. unfold wp at 1.
  destruct (agent_basis_run r digest w) as [Hw _].
  destruct ((agent_basis r digest w).1) as [b|e] eqn:Hb; rewrite Hw; [by apply Hf|by apply He].
Qed.

(** ** The gates *)

(** What [admit_check] found open: a registered, enabled agent whose latest grant is in
    force, was given for the digest the executable has now, and reaches the workspace. *)
Record admissible (w : World) (id : AgentId) (context : LaunchContext)
    (disk : string → DiskEntry) (r : AgentRegistration) (digest : Sha256Hash) : Prop := {
  ad_registered : registry_get id (w_file w) = Some r;
  ad_enabled : ag_enabled r = true;
  ad_disk : disk (ag_command r) = Program digest;
  ad_granted : ∃ row, latest_row id (w_trust w) = Some row
    ∧ state (st_record row) = Trusted
    ∧ ex_sha256 <$> executable (identity_basis (st_record row)) = Some digest
    ∧ ∀ root, TrustScope_root (scope (st_record row)) = Some root →
        ∃ workspace, lc_workspace context = Some workspace ∧ path_eqb workspace root = true;
}.

(** What it found when the grant no longer describes the agent. *)
Record drifting (w : World) (id : AgentId) (context : LaunchContext)
    (disk : string → DiskEntry) (stored : StoredTrustRecord) (reason : InvalidationReason)
    (digest : Sha256Hash) : Prop := {
  dr_latest : latest_row id (w_trust w) = Some stored;
  dr_trusted : state (st_record stored) = Trusted;
  dr_reason : reason ≠ WorkspacePathChanged;
  dr_registered : ∃ r, registry_get id (w_file w) = Some r ∧ ag_enabled r = true
    ∧ disk (ag_command r) = Program digest;
}.

Lemma admit_check_spec id context disk w :
  wp (admit_check id context disk) (λ r w', stores w' = stores w
    ∧ match r with
      | Ok (Cleared r digest) => admissible w id context disk r digest
      | Ok (Drifted stored reason digest) => drifting w id context disk stored reason digest
      | Err _ => True
      end) w.
Proof.
  apply wp_registration; [done|intros r Hr].
  destruct (ag_enabled r) eqn:Hon; cbn [negb]; [|done].
  apply wp_latest; [done|]. cbn [w_trust tick].
  destruct (latest_row id (w_trust w)) as [row|] eqn:Hrow; [|done].
  destruct (decide (state (st_record row) = Trusted)) as [Ht|Ht];
    [rewrite bool_decide_true by done|by rewrite bool_decide_false].
  cbn [negb]. apply wp_lift; [done|intros digest Hd].
  assert (disk (ag_command r) = Program digest) as Hdisk.
  { unfold verify_executable in Hd. by destruct (disk _); simplify_eq. }
  apply wp_basis; [done|intros basis Hb].
  pose proof (proj2 (agent_basis_run r digest (tick (tick w))) basis Hb) as Hex.
  pose proof (check_spec (st_record row) (MkObservedIdentity basis (lc_workspace context))) as Hc.
  destruct (check _ _) as [| |reason].
  - split; [done|]. destruct Hc as [_ Hd']. split; [done..|]. exists row. split; [done|].
    split; [done|]. split.
    + specialize (Hd' ExecutableHashChanged). cbn in Hd'. apply dec_stable in Hd'.
      by rewrite Hd', Hex.
    + intros root Hroot. specialize (Hd' WorkspacePathChanged). cbn in Hd'.
      destruct (same_workspace root (MkObservedIdentity basis (lc_workspace context))) eqn:Hs.
      * unfold same_workspace in Hs. cbn in Hs. destruct (lc_workspace context) as [ws|]; [eauto|done].
      * exfalso. apply Hd'. eauto.
  - done.
  - assert (reason ≠ WorkspacePathChanged → drifting w id context disk row reason digest) as Hdr
      by (split; [done..|eauto]).
    destruct reason; (split; [done|]); first [exact I|by apply Hdr].
Qed.

Definition signed_in (w : World) (id : AgentId) : Prop :=
  ∀ row o, w_rows w !! AgentId_str id = Some row → load_row row = Ok o →
    auth_status o ≠ AuthRequired ∧ auth_status o ≠ AuthFailed
    ∧ ∀ advertised, compatibility o ≠ UnsupportedProtocolVersion advertised.

Lemma wp_observations {B} id (f : option AgentObservations → serviceM B)
    (Q : result AgentRegistryError B → World → Prop) w :
  (∀ e w', stores w' = stores w → Q (Err e) w') →
  (w_rows w !! AgentId_str id = None → wp (f None) Q (tick w)) →
  (∀ row o, w_rows w !! AgentId_str id = Some row → load_row row = Ok o → wp (f (Some o)) Q (tick w)) →
  wp (agent_observations id ≫= f) Q w.
Proof.
  intros He Hn Hs. apply wp_bind. apply wp_then; intros _; [by apply He|]. cbn [fst snd].
  change (w_rows (tick w)) with (w_rows w).
  destruct (w_rows w !! AgentId_str id) as [row|]; [|by apply Hn].
  apply wp_bind. unfold store_result. destruct (load_row row) as [o|e] eqn:Hl; [by apply (Hs row)|by apply He].
Qed.

(** C3. Nothing launches past a shut gate. Whenever [prepare_launch] returns a launch,
    the agent is registered and enabled, its latest grant is in force, was given for
    exactly the digest the registered command has on disk and reaches the requested
    workspace, and what was last observed of it neither asks for a sign-in nor rules
    its protocol out; and what is launched is the registration's own command, arguments
    and allowlisted environment, with the stores left as they were. *)
Theorem launch_passes_every_gate (id : AgentId) (context : LaunchContext)
    (disk : string → DiskEntry) (env : string → option string) (w w' : World) (l : AgentLaunch) :
  prepare_launch id context disk env w = (Ok l, w') →
  ∃ r digest, admissible w id context disk r digest ∧ signed_in w id
    ∧ l = launch env r digest ∧ stores w' = stores w.
Proof.
  intros Hl. assert (wp (prepare_launch id context disk env) (λ r w', ∀ l, r = Ok l →
    ∃ r digest, admissible w id context disk r digest ∧ signed_in w id
      ∧ l = launch env r digest ∧ stores w' = stores w) w) as Hwp.
  2: { unfold wp in Hwp. rewrite Hl in Hwp. by apply Hwp. }
  clear Hl. apply wp_bind. unfold admit_agent. apply wp_bind.
  eapply wp_weaken; [|apply admit_check_spec]. cbn beta.
  intros [[r digest|stored reason digest]|e] w1 [Hs Hr]; [|apply wp_bind|done].
  2: { unfold wp. by destruct (invalidate_agent _ _ _ _ _ _ _) as [[]]. }
  change (wp (mret (r, digest)) ?Q ?w) with (Q (Ok (r, digest)) w). cbn beta iota.
  pose proof (stores_inv _ _ Hs) as (_ & _ & Hrows & _).
  apply wp_observations; [done|intros Hn|intros row o Ho Hload].
  - cbn. intros l' [= <-]. exists r, digest. split; [done|]. split; [|done].
    intros row o. by rewrite <- Hrows, Hn.
  - cbn zeta. destruct (bool_decide (auth_status o = AuthRequired)) eqn:Hq; [done|].
    destruct (bool_decide (auth_status o = AuthFailed)) eqn:Hf; [done|]. cbn [orb].
    apply bool_decide_eq_false in Hq, Hf.
    assert ((∀ a, compatibility o ≠ UnsupportedProtocolVersion a) → signed_in w id) as Hsign.
    { intros Hc row' o'. rewrite <- Hrows, Ho. intros [= <-]. rewrite Hload. by intros [= <-]. }
    cbn. destruct (compatibility o) eqn:Hc; [| |done].
    all: intros l' [= <-]; exists r, digest; split; [done|]; split; [|done]; by apply Hsign.
Qed.

(** ** A swapped executable *)

(** The row a withdrawal leaves, and the registration it leaves. *)
Definition withdrawn (reason : InvalidationReason) (stored : StoredTrustRecord) : StoredTrustRecord :=
  let r := st_record stored in
  MkStoredTrustRecord (st_id stored) (st_subject_kind stored) (st_subject_ref stored)
    (MkTrustRecord (subject_kind r) (identity_basis r) (scope r) Invalidated (Some reason)
       (granted_at r))
    (st_recorded_at stored).

(** An enabled agent in force whose executable is no longer the one it was trusted as. *)
Record swapped (w : World) (id : AgentId) (context : LaunchContext)
    (disk : string → DiskEntry) (r : AgentRegistration) (stored : StoredTrustRecord)
    (trusted found : Sha256Hash) : Prop := {
  sw_file : file_wf (w_file w);
  sw_registered : registry_get id (w_file w) = Some r;
  sw_enabled : ag_enabled r = true;
  sw_disk : disk (ag_command r) = Program found;
  sw_latest : latest_row id (w_trust w) = Some stored;
  sw_trusted : state (st_record stored) = Trusted;
  sw_basis : ex_sha256 <$> executable (identity_basis (st_record stored)) = Some trusted;
  sw_changed : trusted ≠ found;
  sw_reach : ∀ root, TrustScope_root (scope (st_record stored)) = Some root →
    ∃ workspace, lc_workspace context = Some workspace ∧ path_eqb workspace root = true;
}.

Lemma agent_basis_wf r digest w :
  registration_wf r → ∃ basis, agent_basis r digest w = (Ok basis, w)
    ∧ executable basis = Some (MkExecutableIdentity (ag_command r) digest).
Proof.
  intros [Hn (Hne & Hroot & Hlen) _ _]. unfold agent_basis, ExecutableIdentity_new.
  rewrite bool_decide_false, Hroot by done. cbn [negb].
  destruct (N.ltb_spec MAX_EXECUTABLE_PATH_LENGTH
    (N.of_nat (length (utf8_bytes (ag_command r))))) as [|_]; [lia|].
  unfold IdentityBasis_new. rewrite (Hn "display_name"). cbn. eauto.
Qed.

Lemma swapped_check w id context disk r stored trusted found basis :
  swapped w id context disk r stored trusted found →
  executable basis = Some (MkExecutableIdentity (ag_command r) found) →
  check (st_record stored) (MkObservedIdentity basis (lc_workspace context))
    = Invalidate ExecutableHashChanged.
Proof.
  intros Hsw Hex. destruct Hsw as [_ _ _ _ _ Ht Hb Hne Hreach].
  unfold check. rewrite bool_decide_true by done. cbn [negb].
  replace (is_some_and _ _) with false.
  - unfold first_difference, IDENTITY_CHECKS, executable_hash_changed.
    cbn [ob_basis]. rewrite Hb, Hex. cbn. rewrite bool_decide_false; [done|]. congruence.
  - destruct (TrustScope_root (scope (st_record stored))) as [root|] eqn:Hr; [|done].
    destruct (Hreach root eq_refl) as (ws & Hws & Heq). cbn.
    unfold same_workspace. cbn. rewrite Hws. cbn. by rewrite Heq.
Qed.

(** Accesses that all succeed, on texts that fit. *)
Record unhindered (w : World) (r : AgentRegistration) (stored : StoredTrustRecord)
    (reason : InvalidationReason) : Prop := {
  un_io : ∀ n, io_fails n = false;
  un_row : (trust_len (st_record (withdrawn reason stored)) ≤ MAX_INLINE_PAYLOAD_BYTES)%N;
  un_file : (registry_len (registry_set (ag_id r) (set_enabled_flag false r) (w_file w))
    ≤ MAX_AGENTS_FILE_BYTES)%N;
}.

(** What [admit_agent] leaves behind on a drift: nothing yet, or the grant withdrawn; and the
    whole withdrawal when nothing hinders it. *)
Definition stopped (w : World) (id : AgentId) (context : LaunchContext)
    (detected_at : DriftDetection) (r : AgentRegistration) (stored : StoredTrustRecord)
    (trusted found : Sha256Hash) (e : AgentRegistryError) (w' : World) : Prop :=
  (stores w' = stores w
   ∨ latest_row id (w_trust w') = Some (withdrawn ExecutableHashChanged stored))
  ∧ (unhindered w r stored ExecutableHashChanged →
      e = ExecutableHashMismatch id trusted found
      ∧ latest_row id (w_trust w') = Some (withdrawn ExecutableHashChanged stored)
      ∧ registry_get id (w_file w') = Some (set_enabled_flag false r)
      ∧ w_events w' = w_events w ++
          match lc_run context with
          | Some run => [(run, ExternalAgentTrustInvalidated id ExecutableHashChanged (Some trusted)
                                 found (DriftDetection_as_str detected_at))]
          | None => []
          end).

Lemma hindered w r stored reason n : io_fails n = true → ¬ unhindered w r stored reason.
Proof. intros Hn Hu. rewrite (un_io _ _ _ _ Hu) in Hn. done. Qed.

(** Switching an enabled agent off, as the last step of a withdrawal. *)
Lemma disable_spec id w w2 r stored reason :
  registry_get id (w_file w) = Some r → ag_enabled r = true → w_file w2 = w_file w →
  wp (set_enabled_locked id false) (λ res w', w_trust w' = w_trust w2 ∧ w_events w' = w_events w2
    ∧ match res with
      | Ok _ => registry_get id (w_file w') = Some (set_enabled_flag false r)
      | Err _ => ¬ unhindered w r stored reason
      end) w2.
Proof.
  intros Hg Hon Hf. pose proof (registry_get_id _ _ _ Hg) as Hid.
  apply wp_then; intros Hio; [split; [done|]; split; [done|]; by eapply hindered|]. cbn [fst snd].
  change (w_file (tick w2)) with (w_file w2). rewrite Hf, Hg, Hon. cbn [Bool.eqb].
  apply wp_bind. unfold persist_registry.
  destruct (N.ltb_spec MAX_AGENTS_FILE_BYTES
    (registry_len (registry_set id (set_enabled_flag false r) (w_file w)))) as [Hbig|_].
  { split; [done|]. split; [done|]. intros Hu. pose proof (un_file _ _ _ _ Hu) as Hfit.
    rewrite Hid in Hfit. lia. }
  apply wp_then; intros Hio2; [split; [done|]; split; [done|]; by eapply hindered|].
  apply wp_attempt; intros Hio3; (split; [done|]; split; [done|]); [by eapply hindered|].
  refine (eq_trans (registry_get_set id id (set_enabled_flag false r) (w_file w) _ _) _);
    [done|congruence|by rewrite bool_decide_true].
Qed.

Section withdrawal.
Context {w : World} {id : AgentId} {context : LaunchContext} {disk : string → DiskEntry}.
Context {r : AgentRegistration} {stored : StoredTrustRecord} {trusted found : Sha256Hash}.
Hypothesis Hswapped : swapped w id context disk r stored trusted found.
Variable detected_at : DriftDetection.

Definition refused (res : result AgentRegistryError AgentRegistryError) (w' : World) : Prop :=
  stopped w id context detected_at r stored trusted found
    match res with Ok e | Err e => e end w'.

Lemma refused_early res w' :
  stores w' = stores w → ¬ unhindered w r stored ExecutableHashChanged → refused res w'.
Proof. intros Hs Hu. split; [by left|done]. Qed.
Lemma refused_late res w' :
  latest_row id (w_trust w') = Some (withdrawn ExecutableHashChanged stored) →
  ¬ unhindered w r stored ExecutableHashChanged → refused res w'.
Proof. intros Hs Hu. split; [by right|done]. Qed.

Lemma invalidate_record :
  invalidate ExecutableHashChanged (st_record stored)
  = (Ok tt, st_record (withdrawn ExecutableHashChanged stored)).
Proof.
  apply (run_op_Ok (InvalidateOp ExecutableHashChanged)). cbn.
  by rewrite (sw_trusted _ _ _ _ _ _ _ _ Hswapped).
Qed.

Lemma latest_withdrawn :
  latest_row id (update_row (st_id stored) (st_record (withdrawn ExecutableHashChanged stored))
    <$> w_trust w) = Some (withdrawn ExecutableHashChanged stored).
Proof.
  rewrite latest_update, (sw_latest _ _ _ _ _ _ _ _ Hswapped). cbn.
  unfold update_row. by rewrite bool_decide_true.
Qed.

(** The withdrawal of the row, from whatever the reads left of [w]. *)
Lemma update_withdraws w1 (k : unit → serviceM AgentRegistryError) :
  stores w1 = stores w →
  (∀ w2, w_file w2 = w_file w → w_events w2 = w_events w →
     latest_row id (w_trust w2) = Some (withdrawn ExecutableHashChanged stored) →
     wp (k tt) refused w2) →
  wp (update_trust_record (st_id stored) (st_record (withdrawn ExecutableHashChanged stored)) ≫= k)
    refused w1.
Proof.
  intros Hs Hk. apply stores_inv in Hs as (Hf & Ht & Hr & He). apply wp_bind, wp_bind.
  unfold store_result, within_inline_limit.
  destruct (N.ltb_spec MAX_INLINE_PAYLOAD_BYTES
    (trust_len (st_record (withdrawn ExecutableHashChanged stored)))) as [Hbig|_].
  { apply refused_early; [unfold stores; cbn; congruence|]. intros Hu.
    pose proof (un_row _ _ _ _ Hu). lia. }
  change (wp (mret ?a) ?Q ?w) with (Q (Ok a) w). cbn beta iota.
  apply wp_then; intros Hio;
    [apply refused_early; [unfold stores; cbn; congruence|by eapply hindered]|].
  cbn [fst snd]. change (w_trust (tick w1)) with (w_trust w1). rewrite Ht.
  replace (existsb _ (w_trust w)) with true.
  - apply Hk; cbn; [done..|]. apply latest_withdrawn.
  - symmetry. apply existsb_exists. exists stored. split; [|by apply bool_decide_eq_true].
    apply list_elem_of_In.
    exact (proj2 (latest_about _ _ _ (sw_latest _ _ _ _ _ _ _ _ Hswapped))).
Qed.

Lemma invalidate_agent_spec w1 :
  stores w1 = stores w →
  wp (invalidate_agent id stored ExecutableHashChanged found context detected_at) refused w1.
Proof.
  intros Hs. pose proof (stores_inv _ _ Hs) as (Hf & Ht & Hr & He).
  apply wp_then; intros Hio; [apply refused_early; [done|by eapply hindered]|].
  apply wp_then; intros Hio2; [apply refused_early; [done|by eapply hindered]|].
  cbn [fst snd]. change (w_trust (tick (tick w1))) with (w_trust w1).
  rewrite Ht, (sw_latest _ _ _ _ _ _ _ _ Hswapped), !bool_decide_true;
    [|exact (sw_trusted _ _ _ _ _ _ _ _ Hswapped)|done].
  cbn [andb]. unfold moved. rewrite invalidate_record.
  rewrite (sw_basis _ _ _ _ _ _ _ _ Hswapped).
  apply wp_bind. change (wp (mret ?a) ?Q ?w) with (Q (Ok a) w). cbn beta iota.
  apply update_withdraws; [done|]. intros w2 Hf2 He2 Hl2.
  assert (∀ w3, w_file w3 = w_file w → latest_row id (w_trust w3) =
      Some (withdrawn ExecutableHashChanged stored) → w_events w3 = w_events w ++
        match lc_run context with
        | Some run => [(run, ExternalAgentTrustInvalidated id ExecutableHashChanged (Some trusted)
                               found (DriftDetection_as_str detected_at))]
        | None => []
        end →
    wp (_ ← set_enabled_locked id false; mret (ExecutableHashMismatch id trusted found)) refused w3)
    as Hoff.
  { intros w3 Hf3 Hl3 He3. apply wp_bind. eapply wp_weaken;
      [|apply (disable_spec id w w3 r stored ExecutableHashChanged); [apply Hswapped|apply Hswapped|done]].
    intros [o|e] w' (Ht' & He' & Hres).
    - change (refused (Ok (ExecutableHashMismatch id trusted found)) w'). unfold refused, stopped.
      rewrite Ht', He', He3. split; [by right|done].
    - apply refused_late; [rewrite Ht'; exact Hl3|exact Hres]. }
  destruct (lc_run context) as [run|].
  - apply wp_then; intros Hio3; [apply refused_late; [done|by eapply hindered]|].
    apply Hoff; [done..|]. exact (f_equal (.++ _) He2).
  - apply wp_bind. change (wp (mret ?a) ?Q ?w) with (Q (Ok a) w). cbn beta iota.
    apply Hoff; [done..|]. exact (eq_trans He2 (eq_sym (app_nil_r _))).
Qed.
End withdrawal.

(** A swapped executable is stopped, and stays stopped. For an enabled agent in
    force whose executable no longer has the digest it was trusted at, and for every
    pattern of failing accesses, [admit_agent] refuses and leaves either the stores as they
    were or the grant [Invalidated] for [ExecutableHashChanged], which is persisted
    before anything else and so can never be left standing by a later failure; when
    nothing fails the refusal is exactly the mismatch, the registration is off, and the
    run's log holds the invalidation with both digests. *)
Theorem swapped_executable_stops (w w' : World) (id : AgentId) (context : LaunchContext)
    (disk : string → DiskEntry) (r : AgentRegistration) (stored : StoredTrustRecord)
    (trusted found : Sha256Hash) (detected_at : DriftDetection)
    (res : result AgentRegistryError (AgentRegistration * Sha256Hash)) :
  swapped w id context disk r stored trusted found →
  admit_agent id context disk detected_at w = (res, w') →
  ∃ e, res = Err e ∧ stopped w id context detected_at r stored trusted found e w'.
Proof.
  intros Hsw Hrun. assert (wp (admit_agent id context disk detected_at) (λ res w', ∃ e, res = Err e
    ∧ stopped w id context detected_at r stored trusted found e w') w) as Hwp.
  2: { unfold wp in Hwp. by rewrite Hrun in Hwp. }
  clear Hrun. pose proof Hsw as [Hwf Hg Hon Hdisk Hl Ht _ _ _].
  assert (∀ e w', stores w' = stores w → ¬ unhindered w r stored ExecutableHashChanged →
    ∃ e', Err (A := AgentRegistration * Sha256Hash) e = Err e' ∧ stopped w id context detected_at r stored trusted found e' w') as Hearly.
  { intros e w0 Hs Hu. exists e. split; [done|]. split; [by left|done]. }
  apply wp_bind. unfold admit_check, registration.
  apply wp_bind_assoc. apply wp_then; intros Hio; [apply Hearly; [done|by eapply hindered]|].
  cbn [fst snd]. change (w_file (tick w)) with (w_file w). rewrite Hg.
  apply wp_bind. change (wp (mret ?a) ?Q ?w) with (Q (Ok a) w). cbn beta iota. rewrite Hon. cbn [negb].
  apply wp_then; intros Hio2; [apply Hearly; [done|by eapply hindered]|].
  cbn [fst snd]. change (w_trust (tick (tick w))) with (w_trust w). rewrite Hl.
  rewrite bool_decide_true by done. cbn [negb].
  unfold verify_executable. rewrite Hdisk. apply wp_lift; [done|intros digest [= <-]].
  assert (registration_wf r) as Hr.
  { destruct (registry_get_Some _ _ _ Hg) as [Hin _]. destruct Hwf as [_ _ Hall].
    rewrite list.Forall_forall in Hall. by apply Hall. }
  destruct (agent_basis_wf r found (tick (tick w)) Hr) as (basis & Hb & Hex).
  apply wp_bind. unfold wp at 1. rewrite Hb. cbn [fst snd].
  rewrite (swapped_check _ _ _ _ _ _ _ _ basis Hsw Hex). cbn.
  apply wp_bind. eapply wp_weaken; [|by apply (invalidate_agent_spec Hsw detected_at)].
  intros [e|e] w0 Hst; exists e; split; done.
Qed.
(** ** Removal *)

Lemma registry_get_remove_same id f :
  NoDup (ag_id <$> agents f) → registry_get id (registry_remove id f).2 = None.
Proof.
  unfold registry_get, registry_remove. cbn.
  induction (agents f) as [|a l IH]; cbn; [done|]. rewrite NoDup_cons. intros [Ha Hl].
  case_bool_decide as Hid; cbn.
  - apply eq_None_ne_Some. intros r [Hin Hr%bool_decide_eq_true]%find_Some_elem.
    apply Ha. rewrite Hid, <- Hr. by apply list_elem_of_fmap_2.
  - by rewrite bool_decide_false; [apply IH|].
Qed.

Definition forgotten (w : World) (id : AgentId) : Prop :=
  registry_get id (w_file w) = None ∧ latest_row id (w_trust w) = None
  ∧ w_rows w !! AgentId_str id = None.
Definition untouched (w w' : World) (id : AgentId) : Prop :=
  registry_get id (w_file w') = registry_get id (w_file w)
  ∧ latest_row id (w_trust w') = latest_row id (w_trust w)
  ∧ w_rows w' !! AgentId_str id = w_rows w !! AgentId_str id.

(** A removed identifier inherits nothing. When [remove_agent] answers with the
    registration it removed, the file no longer holds the identifier and neither store
    holds a grant or an observation of it, so an agent registered under it later starts
    unregistered, untrusted and unobserved; every other agent keeps its registration,
    its latest grant and its observations. *)
Theorem removal_forgets (id : AgentId) (w w' : World) (removed : AgentRegistration) :
  file_wf (w_file w) →
  remove_agent id w = (Ok (Some removed), w') →
  registry_get id (w_file w) = Some removed
  ∧ forgotten w' id ∧ ∀ other, other ≠ id → untouched w w' other.
Proof.
  intros Hwf Hrun. assert (wp (remove_agent id) (λ res w', ∀ removed, res = Ok (Some removed) →
    registry_get id (w_file w) = Some removed
    ∧ forgotten w' id ∧ ∀ other, other ≠ id → untouched w w' other) w) as Hwp.
  2: { unfold wp in Hwp. rewrite Hrun in Hwp. by apply Hwp. }
  clear Hrun. apply wp_then; intros _; [done|]. apply wp_then; intros _; [done|]. cbn [fst snd].
  change (w_file (tick (tick w))) with (w_file w).
  destruct (registry_get id (w_file w)) as [r|] eqn:Hg; [|done].
  apply wp_then; intros _; [done|]. cbn [fst snd].
  unfold registry_remove at 1. cbn zeta. unfold persist_registry.
  destruct (_ <? _)%N; [done|].
  apply wp_bind_assoc. apply wp_then; intros _; [done|]. apply wp_then; intros _; [done|].
  cbn [fst snd]. intros removed' [= Hremoved]. split; [congruence|]. split.
  - split; [|split].
    + apply registry_get_remove_same. apply Hwf.
    + apply latest_forget_same.
    + apply lookup_delete_eq.
  - intros other Hne. split; [|split].
    + by apply registry_get_removed.
    + by apply latest_forget_other.
    + apply lookup_delete_ne. destruct id, other. cbn. congruence.
Qed.
(** ** Who may put an agent in force *)

(** C4. Only a grant puts an agent in force. Over any sequence of service operations,
    complete or cut short by a failing access, split at their locks and in any order, an
    agent none of them trusts or enables is registered, enabled and covered by a grant
    in force at the end only if it was at the start, by the same registration and the
    same row; and the rows keep distinct identifiers. *)
Theorem only_grants_put_in_force `{!ErrorText} (ops : list ServiceOp) (w : World) :
  keyed w →
  keyed (run_services ops w)
  ∧ ∀ id x, Forall (λ op, ¬ grants op id) ops →
      standing (run_services ops w) id = Some x → standing w id = Some x.
Proof.
  revert w. induction ops as [|op ops IH]; intros w Hk; cbn; [done|].
  destruct (run_service_narrows op w Hk) as [Hk' Hw]. destruct (IH _ Hk') as [Hk'' Hops].
  split; [exact Hk''|]. intros id x [Hop Hrest]%list.Forall_cons Hx. apply Hw; [done|]. by apply Hops.
Qed.
End launch.

(** ** Concrete agents *)

#[export] Instance demo_faults : Faults := λ _, false.
#[export] Instance demo_registry_codec : RegistryCodec := λ f, N.of_nat (length (agents f)).
#[export] Instance demo_trust_codec : TrustCodec := λ _, 400%N.
#[export] Instance demo_error_text : ErrorText := λ e, utf8_bytes (AgentRegistryError_kind e).

Definition demo_editor : AgentId := MkAgentId "editor".
Definition demo_other : AgentId := MkAgentId "reviewer".
Definition demo_trusted : Sha256Hash := MkSha256Hash (replicate 32 1%N).
Definition demo_found : Sha256Hash := MkSha256Hash (replicate 32 2%N).
Definition demo_registration (id : AgentId) (enabled : bool) : AgentRegistration :=
  MkAgentRegistration id "Editor" "/opt/agent" ["--stdio"] ["HOME"; "TERM"] enabled SourceUser.
Definition demo_row : StoredTrustRecord :=
  MkStoredTrustRecord (demo_uuid 4) AgentExecutable "editor"
    (MkTrustRecord AgentExecutable
       (launched_from (MkExecutableIdentity "/opt/agent" demo_trusted)
          (MkIdentityBasis "Editor" None None None None None None ∅ FromUser))
       (InWorkspace "/work/repo") Trusted None (demo_at 5))
    (demo_at 5).
Definition demo_world : World :=
  MkWorld (MkAgentRegistryFile [demo_registration demo_editor true; demo_registration demo_other false])
    [demo_row] ∅ [] 0.
Definition demo_disk (digest : Sha256Hash) (path : string) : DiskEntry :=
  if bool_decide (path = "/opt/agent") then Program digest else NoEntry.
Definition demo_context : LaunchContext := MkLaunchContext (Some "/work/repo") (Some (demo_uuid 9)).
Definition demo_env (name : string) : option string :=
  if bool_decide (name = "HOME") then Some "/home/u" else None.

Lemma launch_passes_every_gate_witness :
  let l := MkAgentLaunch demo_editor "/opt/agent" ["--stdio"] [("HOME", "/home/u")] demo_trusted in
  (prepare_launch demo_editor demo_context (demo_disk demo_trusted) demo_env demo_world).1 = Ok l
  ∧ ∃ r digest, admissible demo_world demo_editor demo_context (demo_disk demo_trusted) r digest
      ∧ signed_in demo_world demo_editor ∧ l = launch demo_env r digest
      ∧ stores (after (prepare_launch demo_editor demo_context (demo_disk demo_trusted) demo_env)
                  demo_world) = stores demo_world.
Proof.
  intros l. split; [reflexivity|].
  apply (launch_passes_every_gate demo_editor demo_context (demo_disk demo_trusted) demo_env
    demo_world).
  reflexivity.
Defined.

Lemma demo_swapped :
  swapped demo_world demo_editor demo_context (demo_disk demo_found)
    (demo_registration demo_editor true) demo_row demo_trusted demo_found.
Proof.
  split; try reflexivity; try discriminate.
  - split; [|apply Nat.leb_le; reflexivity|].
    + apply (bool_decide_unpack _). reflexivity.
    + assert (∀ id enabled, registration_wf (demo_registration id enabled)) as Hwf.
      { intros id enabled. split; cbn.
        - intros field. reflexivity.
        - split; [done|]. split; [reflexivity|]. done.
        - split; [apply Nat.leb_le; reflexivity|]. repeat constructor; try done. apply (bool_decide_unpack _). reflexivity.
        - split; [apply Nat.leb_le; reflexivity|]. split; [repeat constructor|apply (bool_decide_unpack _); reflexivity]. }
      apply Forall_cons_2; [apply Hwf|]. apply Forall_cons_2; [apply Hwf|]. constructor.
  - intros root [= <-]. exists "/work/repo". split; reflexivity.
Qed.

Lemma swapped_executable_stops_witness :
  let run := admit_agent demo_editor demo_context (demo_disk demo_found) AtLaunch demo_world in
  run.1 = Err (ExecutableHashMismatch demo_editor demo_trusted demo_found)
  ∧ registry_get demo_editor (w_file run.2) = Some (demo_registration demo_editor false)
  ∧ latest_row demo_editor (w_trust run.2) = Some (withdrawn ExecutableHashChanged demo_row)
  ∧ length (w_events run.2) = 1.
Proof.
  intros run.
  destruct (swapped_executable_stops demo_world run.2 demo_editor demo_context (demo_disk demo_found)
    (demo_registration demo_editor true) demo_row demo_trusted demo_found AtLaunch run.1
    demo_swapped (surjective_pairing run)) as (e & He & _ & Hall).
  destruct Hall as (Hmismatch & Hrow & Hoff & Hevents).
  { split; [reflexivity|cbn; discriminate|cbn; discriminate]. }
  rewrite He, Hmismatch, Hrow, Hoff, Hevents. repeat split.
Defined.

Definition demo_ops : list ServiceOp :=
  [OpRevoke demo_editor; OpSetEnabled demo_other false; OpSetEnabled demo_editor true;
   OpPrepareLaunch demo_editor demo_context (demo_disk demo_trusted) demo_env;
   OpRemove demo_editor].

Lemma only_grants_put_in_force_witness :
  standing demo_world demo_editor = Some (demo_registration demo_editor true, demo_row)
  ∧ keyed (run_services demo_ops demo_world)
  ∧ ∀ x, standing (run_services demo_ops demo_world) demo_other = Some x →
      standing demo_world demo_other = Some x.
Proof.
  split; [reflexivity|].
  destruct (only_grants_put_in_force demo_ops demo_world) as [Hk Hw].
  { apply (bool_decide_unpack _). reflexivity. }
  split; [exact Hk|]. intros x. apply Hw. repeat constructor; cbn; discriminate || tauto.
Defined.

(** ** A registry at its size limit

    [persist_registry] refuses what is longer than [MAX_AGENTS_FILE_BYTES], and the text
    of a disabled registration is one byte longer than that of an enabled one. *)
Section full.
Context `{Semver, !AgentCodec, Faults, !RegistryCodec, !TrustCodec}.

(** [false] is one byte longer than [true]. *)
Definition off_is_longer : Prop := ∀ f id r,
  registry_get id f = Some r → ag_enabled r = true →
  registry_len (registry_set id (set_enabled_flag false r) f) = (registry_len f + 1)%N.

Lemma full_registry_cannot_disable id r w :
  off_is_longer → (∀ n, io_fails n = false) →
  registry_get id (w_file w) = Some r → ag_enabled r = true →
  registry_len (w_file w) = MAX_AGENTS_FILE_BYTES →
  is_ok (set_enabled id false w).1 = false ∧ stores (set_enabled id false w).2 = stores w.
Proof.
  intros Hlong Hio Hg Hon Hfull.
  unfold set_enabled, set_enabled_locked, lock_exclusive, read_registry_file, persist_registry,
    attempt, mbind, stateM_bind, mret, stateM_ret.
  rewrite !Hio. cbn [tick w_file w_io]. rewrite Hg, Hon. cbn [Bool.eqb].
  rewrite (Hlong _ _ _ Hg Hon), Hfull. done.
Qed.
End full.

Lemma removal_forgets_witness :
  let run := remove_agent demo_editor demo_world in
  run.1 = Ok (Some (demo_registration demo_editor true))
  ∧ forgotten run.2 demo_editor ∧ untouched demo_world run.2 demo_other.
Proof.
  intros run. split; [reflexivity|].
  destruct (removal_forgets demo_editor demo_world run.2 (demo_registration demo_editor true))
    as (_ & Hf & Hu); [exact (sw_file _ _ _ _ _ _ _ _ demo_swapped)|reflexivity|].
  split; [exact Hf|]. apply Hu. discriminate.
Defined.

(** ** A stale drift report

    [invalidate] re-reads the row under the lock so that a grant made meanwhile is not
    undone, and recognizes the grant it is about by the row and its state; a re-grant
    keeps both. *)

Definition demo_regrant : TrustAgent :=
  MkTrustAgent demo_editor (InWorkspace "/work/repo") true (demo_at 8).
(** One launch finds the swap and withdraws; the user trusts what is there now. *)
Definition demo_withdrawn : World :=
  after (admit_agent demo_editor demo_context (demo_disk demo_found) AtLaunch) demo_world.
Definition demo_regranted : World :=
  after (trust_commit demo_regrant (demo_registration demo_editor false) demo_found
           (demo_disk demo_found) (demo_uuid 5) (demo_at 8)) demo_withdrawn.
(** The second half of a launch that had found the same swap before that. *)
Definition demo_stale :=
  invalidate_agent demo_editor demo_row ExecutableHashChanged demo_found demo_context AtLaunch
    demo_regranted.

(** A stale drift report undoes a newer grant. Two launches find an executable
    swapped; the first withdraws the grant, and the user then trusts and enables the
    agent for what is there now. The second launch, carrying what it read before, finds
    the same row in force again and withdraws it: the agent the user just put in force
    for this very digest is switched off, with a refusal that names the digest as
    differing from itself. *)
Theorem stale_drift_undoes_regrant :
  (admit_check demo_editor demo_context (demo_disk demo_found) demo_world).1
    = Ok (Drifted demo_row ExecutableHashChanged demo_found)
  ∧ (∃ r row, standing demo_regranted demo_editor = Some (r, row)
      ∧ ex_sha256 <$> executable (identity_basis (st_record row)) = Some demo_found
      ∧ granted_at (st_record row) = demo_at 8)
  ∧ is_ok (prepare_launch demo_editor demo_context (demo_disk demo_found) demo_env demo_regranted).1
    = true
  ∧ demo_stale.1 = Ok (ExecutableHashMismatch demo_editor demo_found demo_found)
  ∧ standing demo_stale.2 demo_editor = None.
Proof.
  split; [reflexivity|]. split; [eexists _, _; repeat split; reflexivity|]. repeat split; reflexivity.
Qed.
