(* ===== verification/Hunk.v ===== *)
(** * Selecting hunks and lines of a diff

    Models the data of [src/crates/harkness-git/src/diff.rs] and the selections of
    [src/crates/harkness-git/src/hunk.rs]: what a selection names, its revalidation
    against freshly computed diffs, the refusals, and the mapping of a
    whitespace-insensitive view to exact selections.  The diff itself is libgit2's:
    [compute] is a parameter, and so is what each poll of the cancellation answers. *)

From stdpp Require Import base decidable list gmap sets sorting strings.
From S2P Require Import Prelude Subject.

(** ** Diffs ([diff.rs]) *)

Inductive DiffTarget :=
| Staged | Unstaged
| Commit (revision : string) (parent : option string)
| Revisions (old_revision new_revision : string)
| RevisionAgainstWorktree (revision : string)
| BranchAgainstBase (branch base_branch : string).

Inductive WhitespaceMode := Exact | IgnoreEol | IgnoreChange | IgnoreAll.
Record Whitespace := MkWhitespace { ws_mode : WhitespaceMode; ws_ignore_blank_lines : bool }.
Definition Whitespace_EXACT : Whitespace := MkWhitespace Exact false.
Definition Whitespace_is_exact (w : Whitespace) : bool :=
  match ws_mode w with Exact => negb (ws_ignore_blank_lines w) | _ => false end.

Inductive FileChange :=
| Added | Modified | Deleted | Renamed | Copied | TypeChanged | Untracked | Unmerged.
Inductive DiffLineKind :=
| Context | Addition | Deletion | BothEofNoNewline | OldEofNoNewline | NewEofNoNewline.
#[export] Instance DiffLineKind_eq_dec : EqDecision DiffLineKind.
Proof. solve_decision. Defined.

Record IntraLineRange := MkIntraLineRange { ir_start : N; ir_end : N }.
#[export] Instance IntraLineRange_eq_dec : EqDecision IntraLineRange.
Proof. solve_decision. Defined.

(** [content] is the raw line, with its newline when it has one. *)
Record DiffLine := MkDiffLine {
  kind : DiffLineKind;
  old_line_number : option N;
  new_line_number : option N;
  content : list N;
  paired_line_index : option N;
  intra_line_ranges : option (list IntraLineRange);
}.
#[export] Instance DiffLine_eq_dec : EqDecision DiffLine.
Proof. solve_decision. Defined.

Inductive IntraLineDegradation := LineTooLong (limit : N) | PairingTooLarge (limit : N).
#[export] Instance IntraLineDegradation_eq_dec : EqDecision IntraLineDegradation.
Proof. solve_decision. Defined.

Record Hunk := MkHunk {
  old_start : N;
  old_lines : N;
  new_start : N;
  new_lines : N;
  header : list N;
  intra_line_degradation : option IntraLineDegradation;
  lines : list DiffLine;
}.
#[export] Instance Hunk_eq_dec : EqDecision Hunk.
Proof. solve_decision. Defined.

Inductive DiffOmission :=
| FileTooLarge (limit : N) | OmittedUnmerged | ContentBudgetExhausted (limit : N)
| FileBudgetExhausted (limit : N) | Unrepresentable (detail : string).

Record FileDiff := MkFileDiff {
  target : DiffTarget;
  change : FileChange;
  old_path : option string;
  new_path : option string;
  old_blob_id : string;
  new_blob_id : string;
  old_mode : N;
  new_mode : N;
  context_lines : N;
  whitespace : Whitespace;
  old_size : N;
  new_size : N;
  binary : bool;
  omission : option DiffOmission;
  hunks : list Hunk;
}.

(** [FileDiff::exact]: the record, if it describes the bytes on both sides. *)
Definition exact (file : FileDiff) : option FileDiff :=
  if Whitespace_is_exact (whitespace file) then Some file else None.

(** [Option<PathBuf>] equality *)
Definition option_path_eqb (a b : option string) : bool :=
  match a, b with
  | Some a, Some b => path_eqb a b
  | None, None => true
  | _, _ => false
  end.

Definition display_path (preferred fallback : option string) : string :=
  match preferred with
  | Some p => p
  | None => match fallback with Some p => p | None => "" end
  end.

(** ** Errors *)

(** The refusals of staging; [RaisedElsewhere] stands for the variants that only code
    behind a parameter raises. *)
Inductive GitError :=
| Cancelled
| StaleHunkSelection (path : string)
| WhitespaceInsensitiveSelection (path : string) (w : Whitespace)
| HiddenWhitespaceChanges (path : string)
| BinaryHunkSelection (path : string)
| RenameOnlyHunkSelection (from to : string)
| MetadataOnlyHunkSelection (path : string) (old new : N)
| UnsupportedHunkChange (path : string) (c : FileChange)
| UnmergedDiscard (path : string)
| UntrackedDiscardRequiresDelete (path : string)
| OverlappingHunkSelection (path : string)
| HunkNotFound (path : string) (range : N * N * N * N)
| LineNotFound (path : string) (old new : option N)
| UnrepresentableLineSelection (path : string)
| FilteredHunkSelection (path driver : string)
| HunkApplication (paths : list string) (source : string)
| RaisedElsewhere (detail : string).

(** ** Selections ([hunk.rs]) *)

Inductive Direction := Forward | Reverse.
Inductive ApplyTarget := ToIndex | ToWorktree.
Inductive MutationMode := Stage | Unstage | Discard.
Definition diff_target (m : MutationMode) : DiffTarget :=
  match m with Stage | Discard => Unstaged | Unstage => Staged end.
Definition direction (m : MutationMode) : Direction :=
  match m with Stage => Forward | Unstage | Discard => Reverse end.
Definition apply_target (m : MutationMode) : ApplyTarget :=
  match m with Stage | Unstage => ToIndex | Discard => ToWorktree end.

Record HunkSelection := MkHunkSelection {
  hs_old_path : option string;
  hs_new_path : option string;
  hs_old_blob_id : string;
  hs_new_blob_id : string;
  hs_context_lines : N;
  hs_whitespace : Whitespace;
  hs_range : N * N * N * N;
}.
Record LineSelection := MkLineSelection {
  ls_hunk : HunkSelection;
  ls_old_line_number : option N;
  ls_new_line_number : option N;
}.

Definition hunk_range (h : Hunk) : N * N * N * N :=
  (old_start h, old_lines h, new_start h, new_lines h).

(** Built from a record that is known exact. *)
Definition HunkSelection_new (file : FileDiff) (h : Hunk) : HunkSelection :=
  MkHunkSelection (old_path file) (new_path file) (old_blob_id file) (new_blob_id file)
    (context_lines file) (whitespace file) (hunk_range h).
Definition LineSelection_new (file : FileDiff) (h : Hunk) (line : DiffLine) : LineSelection :=
  MkLineSelection (HunkSelection_new file h) (old_line_number line) (new_line_number line).

Record LineCoordinates := MkLineCoordinates { lc_old : option N; lc_new : option N }.
#[export] Instance LineCoordinates_eq_dec : EqDecision LineCoordinates.
Proof. solve_decision. Defined.
Definition line_coordinates (line : DiffLine) : LineCoordinates :=
  MkLineCoordinates (old_line_number line) (new_line_number line).

Definition is_changed (k : DiffLineKind) : bool :=
  match k with Addition | Deletion => true | _ => false end.
Definition line_coordinates_match (s : LineSelection) (line : DiffLine) : bool :=
  is_changed (kind line)
  && bool_decide (ls_old_line_number s = old_line_number line)
  && bool_decide (ls_new_line_number s = new_line_number line).

(** The trait [Selection], with what the two preparations take of the hunk a selection
    names: the whole of it, or one of its changed lines. *)
Class Selection (S : Type) := {
  names_hunk : S → HunkSelection;
  pick : S → Hunk → result GitError (option LineCoordinates);
}.
#[export] Instance hunk_selection : Selection HunkSelection := {
  names_hunk s := s;
  pick _ _ := Ok None;
}.
#[export] Instance line_selection : Selection LineSelection := {
  names_hunk := ls_hunk;
  pick s h :=
    match find (line_coordinates_match s) (lines h) with
    | Some line => Ok (Some (line_coordinates line))
    | None =>
      Err (LineNotFound (display_path (hs_new_path (ls_hunk s)) (hs_old_path (ls_hunk s)))
             (ls_old_line_number s) (ls_new_line_number s))
    end;
}.

Definition selection_path {S} `{Selection S} (s : S) : string :=
  display_path (hs_new_path (names_hunk s)) (hs_old_path (names_hunk s)).

Definition refuse_whitespace_insensitive {S} `{Selection S} (selections : list S)
    : result GitError unit :=
  match find (λ s, negb (Whitespace_is_exact (hs_whitespace (names_hunk s)))) selections with
  | Some s => Err (WhitespaceInsensitiveSelection (selection_path s) (hs_whitespace (names_hunk s)))
  | None => Ok tt
  end.

(** ** Revalidation *)

(** [None] selects the whole hunk. *)
Record PreparedHunk := MkPreparedHunk {
  ph_hunk : Hunk;
  ph_selected_lines : option (list LineCoordinates);
}.
Record PreparedFile := MkPreparedFile { pf_file : FileDiff; pf_hunks : list PreparedHunk }.
Definition PreparedFile_path (f : PreparedFile) : string :=
  display_path (new_path (pf_file f)) (old_path (pf_file f)).

Definition refuse_unsupported (file : FileDiff) (at_ : ApplyTarget) : result GitError unit :=
  let path := display_path (new_path file) (old_path file) in
  match at_, change file with
  | ToWorktree, Unmerged => Err (UnmergedDiscard path)
  | ToWorktree, Untracked => Err (UntrackedDiscardRequiresDelete path)
  | _, (Copied | TypeChanged | Unmerged) as c => Err (UnsupportedHunkChange path c)
  | _, c =>
    if binary file then Err (BinaryHunkSelection path)
    else match hunks file with
         | _ :: _ => Ok tt
         | [] =>
           match c with
           | Renamed => Err (RenameOnlyHunkSelection (display_path (old_path file) None)
                               (display_path (new_path file) None))
           | _ => Err (MetadataOnlyHunkSelection path (old_mode file) (new_mode file))
           end
         end
  end.

Definition names_file (s : HunkSelection) (file : FileDiff) : bool :=
  option_path_eqb (old_path file) (hs_old_path s) && option_path_eqb (new_path file) (hs_new_path s).
Definition coordinates_match (s : HunkSelection) (h : Hunk) : bool :=
  bool_decide (hs_range s = hunk_range h).

(** The fresh file and hunk a selection names. *)
Definition locate (current : list (N * list FileDiff)) (at_ : ApplyTarget) (s : HunkSelection)
    : result GitError (FileDiff * Hunk) :=
  let path := display_path (hs_new_path s) (hs_old_path s) in
  match find (λ c, (c.1 =? hs_context_lines s)%N) current with
  | None => Err (StaleHunkSelection path)
  | Some (_, files) =>
    match find (names_file s) files with
    | None => Err (StaleHunkSelection path)
    | Some file =>
      if negb (bool_decide (old_blob_id file = hs_old_blob_id s))
         || negb (bool_decide (new_blob_id file = hs_new_blob_id s))
      then Err (StaleHunkSelection path)
      else
        _ ← refuse_unsupported file at_;
        match find (coordinates_match s) (hunks file) with
        | Some h => Ok (file, h)
        | None => Err (HunkNotFound path (hs_range s))
        end
    end
  end.

Definition same_file (a b : FileDiff) : bool :=
  option_path_eqb (old_path a) (old_path b) && option_path_eqb (new_path a) (new_path b)
  && bool_decide (old_blob_id a = old_blob_id b) && bool_decide (new_blob_id a = new_blob_id b).

(** A whole hunk is kept as it is when it is there already; a line is merged into the
    hunk it belongs to. *)
Definition merge_line (c : option LineCoordinates) (p : PreparedHunk) : PreparedHunk :=
  match c with
  | None => p
  | Some c =>
    let selected := default [] (ph_selected_lines p) in
    MkPreparedHunk (ph_hunk p)
      (Some (if bool_decide (c ∈ selected) then selected else selected ++ [c]))
  end.
Fixpoint merge_hunk (h : Hunk) (c : option LineCoordinates) (l : list PreparedHunk)
    : list PreparedHunk :=
  match l with
  | [] => [MkPreparedHunk h ((λ c, [c]) <$> c)]
  | p :: l => if bool_decide (ph_hunk p = h) then merge_line c p :: l else p :: merge_hunk h c l
  end.
Fixpoint merge_file (file : FileDiff) (h : Hunk) (c : option LineCoordinates)
    (prepared : list PreparedFile) : list PreparedFile :=
  match prepared with
  | [] => [MkPreparedFile file [MkPreparedHunk h ((λ c, [c]) <$> c)]]
  | f :: prepared =>
    if same_file (pf_file f) file
    then MkPreparedFile (pf_file f) (merge_hunk h c (pf_hunks f)) :: prepared
    else f :: merge_file file h c prepared
  end.

(** A side of a patch that has no lines is an insertion point, taken as one line. *)
Definition ranges_intersect (start lines other_start other_lines : N) : bool :=
  ((start <? saturating_add_u32 other_start (N.max other_lines 1))
   && (other_start <? saturating_add_u32 start (N.max lines 1)))%N.
Definition hunks_collide (a b : Hunk) : bool :=
  ranges_intersect (old_start a) (old_lines a) (old_start b) (old_lines b)
  || ranges_intersect (new_start a) (new_lines a) (new_start b) (new_lines b).
Fixpoint any_collide (l : list PreparedHunk) : bool :=
  match l with
  | [] => false
  | p :: l => existsb (λ q, hunks_collide (ph_hunk p) (ph_hunk q)) l || any_collide l
  end.
Definition refuse_overlaps (prepared : list PreparedFile) : result GitError unit :=
  match find (λ f, any_collide (pf_hunks f)) prepared with
  | Some f => Err (OverlappingHunkSelection (PreparedFile_path f))
  | None => Ok tt
  end.

(** [sort_unstable] and [dedup] *)
Fixpoint dedup (l : list N) : list N :=
  match l with
  | a :: ((b :: _) as rest) => if (a =? b)%N then dedup rest else a :: dedup rest
  | l => l
  end.

Section prepare.
(** [diff::compute] at a number of context lines, unbounded and over the batch's paths;
    and what the polls of the cancellation answer, in order. *)
Context (compute : N → result GitError (list FileDiff)) (is_cancelled : nat → bool).

Fixpoint recompute (contexts : list N) (poll : nat) : result GitError (list (N * list FileDiff)) :=
  match contexts with
  | [] => Ok []
  | context :: contexts =>
    if is_cancelled poll then Err Cancelled
    else
      files ← compute context;
      rest ← recompute contexts (S poll);
      Ok ((context, files) :: rest)
  end.

Fixpoint prepare_each {S} `{Selection S} (current : list (N * list FileDiff)) (at_ : ApplyTarget)
    (selections : list S) (poll : nat) (prepared : list PreparedFile)
    : result GitError (list PreparedFile) :=
  match selections with
  | [] => Ok prepared
  | s :: selections =>
    if is_cancelled poll then Err Cancelled
    else
      found ← locate current at_ (names_hunk s);
      c ← pick s found.2;
      prepare_each current at_ selections (1 + poll) (merge_file found.1 found.2 c prepared)
  end.

(** [prepare] of hunk selections, [prepare_lines] of line selections *)
Definition prepare {S} `{Selection S} (selections : list S) (at_ : ApplyTarget)
    : result GitError (list PreparedFile) :=
  let contexts := dedup (merge_sort N.le ((λ s, hs_context_lines (names_hunk s)) <$> selections)) in
  current ← recompute contexts 0;
  prepared ← prepare_each current at_ selections (length contexts) [];
  _ ← refuse_overlaps prepared;
  Ok prepared.
End prepare.

(** ** Whitespace-insensitive views *)

Definition ChangedLine : Type := DiffLineKind * option N * option N * list N.
Definition changed_lines (h : Hunk) : list ChangedLine :=
  (λ l, (kind l, old_line_number l, new_line_number l, content l))
    <$> filter (λ l, is_changed (kind l) = true) (lines h).

Definition overlaps (left right : Hunk) : bool :=
  let side start lines :=
    let start := N.max start 1 in (start, saturating_add_u32 start (N.max lines 1)) in
  let intersects (first second : N * N) := ((first.1 <? second.2) && (second.1 <? first.2))%N in
  intersects (side (old_start left) (old_lines left)) (side (old_start right) (old_lines right))
  || intersects (side (new_start left) (new_lines left)) (side (new_start right) (new_lines right)).

(** Equality of the two hash sets, and that neither lost an element. *)
Definition same_lines (wanted found : list ChangedLine) : bool :=
  bool_decide (NoDup wanted) && bool_decide (NoDup found)
  && forallb (λ l, bool_decide (l ∈ found)) wanted && forallb (λ l, bool_decide (l ∈ wanted)) found.

Definition remap_to_exact (view : FileDiff) (view_hunk : Hunk) (exact : FileDiff)
    : result GitError (list HunkSelection) :=
  let path := display_path (new_path view) (old_path view) in
  if negb (bool_decide (old_blob_id view = old_blob_id exact))
     || negb (bool_decide (new_blob_id view = new_blob_id exact))
  then Err (StaleHunkSelection path)
  else
    let candidates := filter (λ h, overlaps view_hunk h = true) (hunks exact) in
    if negb (same_lines (changed_lines view_hunk) (candidates ≫= changed_lines))
    then Err (HiddenWhitespaceChanges path)
    else Ok (HunkSelection_new exact <$> candidates).

(** ** What is prepared is what was selected *)

Section prepared.
Context (compute : N → result GitError (list FileDiff)) (is_cancelled : nat → bool).
Context {S : Type} `{Selection S}.

(** A hunk [s] names, in a record of the diff just computed at its own context and
    between the same two blobs. *)
Record fresh (at_ : ApplyTarget) (s : S) (file : FileDiff) (h : Hunk) : Prop := {
  fr_computed : ∃ files, compute (hs_context_lines (names_hunk s)) = Ok files ∧ file ∈ files;
  fr_paths : names_file (names_hunk s) file = true;
  fr_blobs : old_blob_id file = hs_old_blob_id (names_hunk s)
    ∧ new_blob_id file = hs_new_blob_id (names_hunk s);
  fr_supported : refuse_unsupported file at_ = Ok tt;
  fr_hunk : h ∈ hunks file ∧ hunk_range h = hs_range (names_hunk s);
}.

Definition computed (current : list (N * list FileDiff)) : Prop :=
  ∀ context files, (context, files) ∈ current → compute context = Ok files.

Lemma recompute_computed contexts poll current :
  recompute compute is_cancelled contexts poll = Ok current → computed current.
Proof.
  revert poll current. induction contexts as [|context contexts IH]; intros poll current; cbn.
  - intros [= <-] c files Hin. by apply not_elem_of_nil in Hin.
  - destruct (is_cancelled poll); [done|].
    intros (files & Hf & (rest & Hr & [= <-])%bind_Ok)%bind_Ok c files' [[= -> ->]|Hin]%elem_of_cons;
      [done|by eapply IH].
Qed.

Lemma locate_fresh current at_ s file h :
  computed current → locate current at_ (names_hunk s) = Ok (file, h) → fresh at_ s file h.
Proof.
  intros Hc. unfold locate.
  destruct (find _ current) as [[context files]|] eqn:Hf; [|done].
  apply find_Some_elem in Hf as [Hin Heq%N.eqb_eq]. cbn in Heq. subst context.
  destruct (find _ files) as [file'|] eqn:Hfile; [|done].
  apply find_Some_elem in Hfile as [Hfin Hnames].
  destruct (bool_decide_reflect (old_blob_id file' = hs_old_blob_id (names_hunk s))); [|done].
  destruct (bool_decide_reflect (new_blob_id file' = hs_new_blob_id (names_hunk s))); [|done].
  cbn [negb orb]. intros ([] & Hu & Hh)%bind_Ok.
  destruct (find _ (hunks file')) as [h'|] eqn:Hh'; [|done]. simplify_eq.
  apply find_Some_elem in Hh' as [Hhin Hr%bool_decide_eq_true].
  split; [|done|done|done|done]. exists files. split; [by apply Hc|done].
Qed.

Definition entry (prepared : list PreparedFile) (f : PreparedFile) (p : PreparedHunk) : Prop :=
  f ∈ prepared ∧ p ∈ pf_hunks f.
Definition carries (p : PreparedHunk) (c : option LineCoordinates) : Prop :=
  match c with
  | None => True
  | Some c => ∃ selected, ph_selected_lines p = Some selected ∧ c ∈ selected
  end.

Lemma option_path_eqb_refl a : option_path_eqb a a = true.
Proof. destruct a; [|done]. by apply bool_decide_eq_true. Qed.
Lemma same_file_refl file : same_file file file = true.
Proof. unfold same_file. by rewrite !option_path_eqb_refl, !bool_decide_true. Qed.

Lemma merge_line_hunk c p : ph_hunk (merge_line c p) = ph_hunk p.
Proof. by destruct c. Qed.
Lemma merge_line_carries c p : carries (merge_line c p) c.
Proof.
  destruct c as [c|]; [|done]. cbn. eexists. split; [done|]. case_bool_decide; [done|set_solver].
Qed.
Lemma merge_line_keeps c p c' : carries p c' → carries (merge_line c p) c'.
Proof.
  destruct c as [c|]; [|done]. destruct c' as [c'|]; [|done]. cbn. intros (selected & -> & Hin). cbn.
  eexists. split; [done|]. case_bool_decide; [done|set_solver].
Qed.
(** What a merged hunk carries, it carried or was given. *)
Lemma merge_line_source c p selected c' :
  ph_selected_lines (merge_line c p) = Some selected → c' ∈ selected →
  c = Some c' ∨ carries p (Some c').
Proof.
  destruct c as [c|]; cbn; [|eauto].
  intros [= <-]. case_bool_decide; rewrite ?elem_of_app, ?list_elem_of_singleton; cbn;
    destruct (ph_selected_lines p) as [l|]; cbn; [eauto|set_solver| |set_solver].
  intros [?| ->]; eauto.
Qed.

Lemma merge_hunk_elem h c l p' :
  p' ∈ merge_hunk h c l →
  p' ∈ l ∨ (ph_hunk p' = h ∧
    (p' = MkPreparedHunk h ((λ c, [c]) <$> c) ∨ ∃ p, p ∈ l ∧ ph_hunk p = h ∧ p' = merge_line c p)).
Proof.
  induction l as [|p l IH]; cbn.
  - rewrite list_elem_of_singleton. intros ->. by right; split; [|left].
  - case_bool_decide as Hh; rewrite !elem_of_cons.
    + intros [->|Hin]; [|by left; right]. right. rewrite merge_line_hunk. split; [done|]. right.
      exists p. split; [by apply elem_of_cons; left|done].
    + intros [->|Hin]; [by left; left|]. destruct (IH Hin) as [?|(Hp & Hor)]; [by left; right|].
      right. split; [done|]. destruct Hor as [->|(q & Hq & Hqh & ->)]; [by left|].
      right. exists q. split; [by apply elem_of_cons; right|done].
Qed.

Lemma merge_hunk_kept h c l p :
  p ∈ l → ∃ p', p' ∈ merge_hunk h c l ∧ ph_hunk p' = ph_hunk p ∧ (∀ c', carries p c' → carries p' c').
Proof.
  induction l as [|q l IH]; [by intros ?%not_elem_of_nil|]. cbn. case_bool_decide as Hh;
    rewrite elem_of_cons; intros [->|Hin].
  - exists (merge_line c q). rewrite merge_line_hunk. split; [set_solver|]. split; [done|].
    intros c'. apply merge_line_keeps.
  - exists p. split; [set_solver|]. done.
  - exists q. split; [set_solver|]. done.
  - destruct (IH Hin) as (p' & ? & ? & ?). exists p'. split; [set_solver|]. done.
Qed.

Lemma merge_hunk_new h c l : ∃ p, p ∈ merge_hunk h c l ∧ ph_hunk p = h ∧ carries p c.
Proof.
  induction l as [|q l IH]; cbn.
  - eexists. split; [by apply list_elem_of_singleton|]. split; [done|].
    destruct c; [|done]. cbn. eexists. split; [done|set_solver].
  - case_bool_decide as Hh.
    + exists (merge_line c q). rewrite merge_line_hunk. split; [set_solver|]. split; [done|].
      apply merge_line_carries.
    + destruct IH as (p & ? & ? & ?). exists p. split; [set_solver|]. done.
Qed.

Lemma merge_hunk_nodup h c l : NoDup (ph_hunk <$> l) → NoDup (ph_hunk <$> merge_hunk h c l).
Proof.
  assert (∀ x, x ∈ ph_hunk <$> merge_hunk h c l → x ∈ ph_hunk <$> l ∨ x = h) as Hsub.
  { intros x (p & -> & Hp)%list_elem_of_fmap. apply merge_hunk_elem in Hp as [Hp|[Hp _]].
    - left. by apply list_elem_of_fmap_2.
    - by right. }
  induction l as [|q l IH]; cbn; [intros _; apply NoDup_singleton|].
  rewrite NoDup_cons. intros [Hq Hl]. case_bool_decide as Hh; cbn.
  - rewrite merge_line_hunk. by apply NoDup_cons.
  - apply NoDup_cons. split.
    + intros (p & Hp & Hin)%list_elem_of_fmap. apply merge_hunk_elem in Hin as [Hin|[Hin _]].
      * apply Hq. rewrite Hp. by apply list_elem_of_fmap_2.
      * congruence.
    + apply IH; [|done]. intros x (p & -> & Hp)%list_elem_of_fmap.
      apply merge_hunk_elem in Hp as [Hp|[Hp _]]; [left; by apply list_elem_of_fmap_2|by right].
Qed.

Lemma merge_file_elem file h c prepared f' p' :
  entry (merge_file file h c prepared) f' p' →
  (∃ f, entry prepared f p' ∧ pf_file f = pf_file f')
  ∨ (same_file (pf_file f') file = true ∧ ph_hunk p' = h ∧
     (p' = MkPreparedHunk h ((λ c, [c]) <$> c)
      ∨ ∃ f p, entry prepared f p ∧ pf_file f = pf_file f' ∧ ph_hunk p = h ∧ p' = merge_line c p)).
Proof.
  unfold entry. induction prepared as [|f prepared IH]; cbn.
  - intros [->%list_elem_of_singleton ->%list_elem_of_singleton]. cbn. right.
    split; [apply same_file_refl|]. split; [done|by left].
  - destruct (same_file (pf_file f) file) eqn:Hs; intros [[->|Hf]%elem_of_cons Hp].
    + cbn in *. apply merge_hunk_elem in Hp as [Hp|(Hh & Hor)].
      * left. exists f. split; [|done]. split; [by apply elem_of_cons; left|done].
      * right. split; [done|]. split; [done|]. destruct Hor as [->|(p & Hp & Hph & ->)]; [by left|].
        right. exists f, p. split; [|done]. split; [by apply elem_of_cons; left|done].
    + left. exists f'. split; [|done]. split; [by apply elem_of_cons; right|done].
    + left. exists f. split; [|done]. split; [by apply elem_of_cons; left|done].
    + destruct (IH (conj Hf Hp)) as [(f0 & [Hf0 Hp0] & He)|(Hs' & Hh & Hor)].
      * left. exists f0. split; [|done]. split; [by apply elem_of_cons; right|done].
      * right. split; [done|]. split; [done|].
        destruct Hor as [->|(f0 & p & [Hf0 Hp0] & He & Hph & ->)]; [by left|].
        right. exists f0, p. split; [|done]. split; [by apply elem_of_cons; right|done].
Qed.

Lemma merge_file_kept file h c prepared f p :
  entry prepared f p →
  ∃ f' p', entry (merge_file file h c prepared) f' p' ∧ pf_file f' = pf_file f
    ∧ ph_hunk p' = ph_hunk p ∧ (∀ c', carries p c' → carries p' c').
Proof.
  unfold entry. induction prepared as [|g prepared IH]; cbn; [by intros [?%not_elem_of_nil _]|].
  destruct (same_file (pf_file g) file); intros [[->|Hf]%elem_of_cons Hp].
  - destruct (merge_hunk_kept h c (pf_hunks g) p Hp) as (p' & Hin & Hh & Hc).
    eexists _, p'. split; [split; [by apply elem_of_cons; left|exact Hin]|]. done.
  - exists f, p. split; [split; [by apply elem_of_cons; right|done]|]. done.
  - exists g, p. split; [split; [by apply elem_of_cons; left|done]|]. done.
  - destruct (IH (conj Hf Hp)) as (f' & p' & [Hf' Hp'] & Hrest). exists f', p'.
    split; [split; [by apply elem_of_cons; right|done]|]. done.
Qed.

Lemma merge_file_new file h c prepared :
  ∃ f p, entry (merge_file file h c prepared) f p ∧ same_file (pf_file f) file = true
    ∧ ph_hunk p = h ∧ carries p c.
Proof.
  unfold entry. induction prepared as [|g prepared IH]; cbn.
  - exists (MkPreparedFile file [MkPreparedHunk h ((λ c, [c]) <$> c)]),
      (MkPreparedHunk h ((λ c, [c]) <$> c)).
    split; [split; by apply list_elem_of_singleton|].
    split; [apply same_file_refl|]. split; [done|].
    destruct c; [|done]. cbn. eexists. split; [done|]. by apply list_elem_of_singleton.
  - destruct (same_file (pf_file g) file) eqn:Hs.
    + destruct (merge_hunk_new h c (pf_hunks g)) as (p & Hp & Hh & Hc).
      eexists _, p. split; [split; [by apply elem_of_cons; left|exact Hp]|]. done.
    + destruct IH as (f & p & [Hf Hp] & Hrest). exists f, p.
      split; [split; [by apply elem_of_cons; right|done]|]. done.
Qed.

Lemma merge_file_nodup file h c prepared :
  (∀ f, f ∈ prepared → NoDup (ph_hunk <$> pf_hunks f)) →
  ∀ f, f ∈ merge_file file h c prepared → NoDup (ph_hunk <$> pf_hunks f).
Proof.
  induction prepared as [|g prepared IH]; cbn; intros Hall f.
  - intros ->%list_elem_of_singleton. apply NoDup_singleton.
  - destruct (same_file (pf_file g) file); intros [->|Hf]%elem_of_cons.
    + apply merge_hunk_nodup, Hall. by apply elem_of_cons; left.
    + apply Hall. by apply elem_of_cons; right.
    + apply Hall. by apply elem_of_cons; left.
    + apply IH; [|done]. intros f' Hf'. apply Hall. by apply elem_of_cons; right.
Qed.

(** What a prepared file is the record of: the two paths, part by part, and the two blobs. *)
Definition identity (file : FileDiff) :=
  (components <$> old_path file, components <$> new_path file, old_blob_id file, new_blob_id file).
Lemma option_path_eqb_spec a b : option_path_eqb a b = true ↔ components <$> a = components <$> b.
Proof.
  destruct a as [a|], b as [b|]; cbn [fmap option_fmap option_map option_path_eqb]; [|done..].
  unfold path_eqb. rewrite bool_decide_eq_true. split; congruence.
Qed.
Lemma same_file_identity a b : same_file a b = true ↔ identity a = identity b.
Proof.
  unfold same_file, identity. rewrite !andb_true_iff, !option_path_eqb_spec, !bool_decide_eq_true.
  split; [by intros [[[-> ->] ->] ->]|by intros [= -> -> -> ->]].
Qed.
Abbreviation identities prepared := ((λ f, identity (pf_file f)) <$> prepared).
Lemma merge_file_identity file h c prepared x :
  x ∈ identities (merge_file file h c prepared) → x ∈ identities prepared ∨ x = identity file.
Proof.
  induction prepared as [|f prepared IH]; cbn [merge_file].
  - intros ->%list_elem_of_singleton. by right.
  - destruct (same_file (pf_file f) file); [by left|]. cbn.
    intros [->|[|]%IH]%elem_of_cons; [left; by left|left; by right|by right].
Qed.
Lemma merge_file_identities file h c prepared :
  NoDup (identities prepared) → NoDup (identities (merge_file file h c prepared)).
Proof.
  induction prepared as [|f prepared IH]; cbn [merge_file]; [intros _; apply NoDup_singleton|].
  destruct (same_file (pf_file f) file) eqn:Hs; [done|]. cbn. rewrite !NoDup_cons.
  intros [Hf Hnd]. split; [|by apply IH].
  intros [?|He]%merge_file_identity; [done|]. apply same_file_identity in He. congruence.
Qed.
Definition once (p : PreparedHunk) : Prop := NoDup (default [] (ph_selected_lines p)).
Lemma merge_line_once c p : once p → once (merge_line c p).
Proof.
  unfold once. destruct c as [c|]; [|done]. cbn. intros Hnd. case_bool_decide as Hc; [done|].
  apply NoDup_app. split; [done|]. split; [|apply NoDup_singleton].
  by intros x Hx ->%list_elem_of_singleton.
Qed.

(** [s] is what [p], in the file of [f], was selected by. *)
Definition selected_by (at_ : ApplyTarget) (s : S) (c : option LineCoordinates) (f : PreparedFile)
    (p : PreparedHunk) : Prop :=
  (∃ file, fresh at_ s file (ph_hunk p) ∧ same_file (pf_file f) file = true)
  ∧ pick s (ph_hunk p) = Ok c.

(** Every selection is there, and nothing else is: every hunk, every line of a hunk, and
    every hunk taken whole is there because of a selection. A file has one entry, a hunk
    one place in it, and a line one place in the hunk. *)
Record represents (at_ : ApplyTarget) (selections : list S) (prepared : list PreparedFile) : Prop := {
  rp_complete : ∀ s, s ∈ selections →
    ∃ f p c, entry prepared f p ∧ selected_by at_ s c f p ∧ carries p c;
  rp_hunks : ∀ f p, entry prepared f p → ∃ s c, s ∈ selections ∧ selected_by at_ s c f p;
  rp_lines : ∀ f p c, entry prepared f p → carries p (Some c) →
    ∃ s, s ∈ selections ∧ selected_by at_ s (Some c) f p;
  rp_whole : ∀ f p, entry prepared f p → ph_selected_lines p = None →
    ∃ s, s ∈ selections ∧ selected_by at_ s None f p;
  rp_distinct : ∀ f, f ∈ prepared → NoDup (ph_hunk <$> pf_hunks f);
  rp_file_once : NoDup (identities prepared);
  rp_line_once : ∀ f p, entry prepared f p → once p;
}.

Lemma selected_by_same at_ s c f p f' p' :
  pf_file f' = pf_file f → ph_hunk p' = ph_hunk p → selected_by at_ s c f p →
  selected_by at_ s c f' p'.
Proof. unfold selected_by. by intros -> ->. Qed.

Lemma represents_step at_ selections prepared s file h c :
  represents at_ selections prepared → fresh at_ s file h → pick s h = Ok c →
  represents at_ (selections ++ [s]) (merge_file file h c prepared).
Proof.
  intros [Hcomp Hh Hl Hw Hd Hi Ho] Hf Hp.
  assert (∀ f p, same_file (pf_file f) file = true → ph_hunk p = h → selected_by at_ s c f p) as Hs.
  { intros f p Hsame <-. split; [by exists file|done]. }
  assert (s ∈ selections ++ [s]) as Hin by (apply elem_of_app; right; by apply list_elem_of_singleton).
  assert (∀ s', s' ∈ selections → s' ∈ selections ++ [s]) as Hmore
    by (intros s' ?; apply elem_of_app; by left).
  split.
  - intros s' [Hs'| ->%list_elem_of_singleton]%elem_of_app.
    + destruct (Hcomp s' Hs') as (f & p & c' & He & Hsel & Hc).
      destruct (merge_file_kept file h c prepared f p He) as (f' & p' & He' & Hff & Hpp & Hcc).
      exists f', p', c'. split; [done|]. split; [by eapply selected_by_same|by apply Hcc].
    + destruct (merge_file_new file h c prepared) as (f & p & He & Hsame & Hph & Hc).
      exists f, p, c. split; [done|]. split; [by apply Hs|done].
  - intros f' p' [(f & He & Hff)|(Hsame & Hph & _)]%merge_file_elem; [|eauto].
    destruct (Hh f p' He) as (s' & c' & Hs' & Hsel). exists s', c'. split; [by apply Hmore|].
    by eapply selected_by_same.
  - intros f' p' c' Hent Hc. apply merge_file_elem in Hent as
      [(f & He & Hff)|(Hsame & Hph & [->|(f & p & He & Hff & Hph' & ->)])].
    + destruct (Hl f p' c' He Hc) as (s' & Hs' & Hsel). exists s'. split; [by apply Hmore|].
      by eapply selected_by_same.
    + destruct c as [c|]; cbn in Hc; [|by destruct Hc as (? & ? & _)].
      destruct Hc as (? & [= <-] & ->%list_elem_of_singleton). exists s. split; [done|]. by apply Hs.
    + destruct Hc as (sel & Hsel & Hc'). destruct (merge_line_source c p sel c' Hsel Hc') as [->|Hold].
      * exists s. split; [done|]. by apply Hs.
      * destruct (Hl f p c' He Hold) as (s' & Hs' & Hby). exists s'. split; [by apply Hmore|].
        eapply selected_by_same; [|apply merge_line_hunk|exact Hby]. done.
  - intros f' p' Hent Hnone. apply merge_file_elem in Hent as
      [(f & He & Hff)|(Hsame & Hph & [->|(f & p & He & Hff & Hph' & ->)])].
    + destruct (Hw f p' He Hnone) as (s' & Hs' & Hsel). exists s'. split; [by apply Hmore|].
      by eapply selected_by_same.
    + destruct c; [done|]. exists s. split; [done|]. by apply Hs.
    + destruct c as [c|]; [done|]. destruct (Hw f p He Hnone) as (s' & Hs' & Hby).
      exists s'. split; [by apply Hmore|]. by eapply selected_by_same.
  - by apply merge_file_nodup.
  - by apply merge_file_identities.
  - intros f' p' Hent. apply merge_file_elem in Hent as
      [(f & He & Hff)|(Hsame & Hph & [->|(f & p & He & Hff & Hph' & ->)])].
    + by eapply Ho.
    + destruct c; [apply NoDup_singleton|apply NoDup_nil_2].
    + by eapply merge_line_once, Ho.
Qed.

Lemma prepare_each_represents current at_ selections poll prepared done result_ :
  computed current → represents at_ done prepared →
  prepare_each is_cancelled current at_ selections poll prepared = Ok result_ →
  represents at_ (done ++ selections) result_.
Proof.
  intros Hcur. revert poll prepared done. induction selections as [|s selections IH];
    intros poll prepared done Hr; cbn [prepare_each].
  - intros [= <-]. by rewrite app_nil_r.
  - destruct (is_cancelled poll); [done|].
    intros ([file h] & Hloc & (c & Hc & Hrest)%bind_Ok)%bind_Ok. cbn [fst snd] in *.
    replace (done ++ s :: selections) with ((done ++ [s]) ++ selections) by (by rewrite <- app_assoc).
    eapply IH; [|exact Hrest]. apply represents_step; [done|by eapply locate_fresh|done].
Qed.

Lemma ranges_intersect_comm a n b m : ranges_intersect a n b m = ranges_intersect b m a n.
Proof. unfold ranges_intersect. apply andb_comm. Qed.
Lemma hunks_collide_comm a b : hunks_collide a b = hunks_collide b a.
Proof. unfold hunks_collide. by rewrite ranges_intersect_comm, (ranges_intersect_comm (new_start a)). Qed.

Lemma any_collide_false l i j p q :
  any_collide l = false → l !! i = Some p → l !! j = Some q → i ≠ j →
  hunks_collide (ph_hunk p) (ph_hunk q) = false.
Proof.
  revert i j. induction l as [|r l IH]; intros i j; [by rewrite lookup_nil|]. cbn [any_collide].
  intros [Hr Hl]%orb_false_iff.
  assert (∀ k q, l !! k = Some q → hunks_collide (ph_hunk r) (ph_hunk q) = false) as Hone.
  { intros k q' Hk. apply not_true_iff_false. intros Hx. apply not_true_iff_false in Hr. apply Hr.
    apply existsb_exists. exists q'. split; [|done]. by apply list_elem_of_In, (list_elem_of_lookup_2 _ k). }
  destruct i as [|i], j as [|j]; cbn; intros Hi Hj Hne; simplify_eq.
  - by eapply Hone.
  - rewrite hunks_collide_comm. by eapply Hone.
  - apply (IH i j); [done..|congruence].
Qed.

Lemma prepare_represents selections at_ prepared :
  prepare compute is_cancelled selections at_ = Ok prepared →
  represents at_ selections prepared ∧ refuse_overlaps prepared = Ok tt.
Proof.
  unfold prepare. cbn zeta.
  intros (current & Hcur%recompute_computed & (all & Hall & ([] & Ho & [= <-])%bind_Ok)%bind_Ok)%bind_Ok.
  split; [|done].
  apply (prepare_each_represents _ _ _ _ [] [] _ Hcur) in Hall; [exact Hall|].
  assert (∀ f p, entry [] f p → False) as Hno by (by intros f p [?%not_elem_of_nil _]).
  split.
  - intros s Hs. by apply not_elem_of_nil in Hs.
  - intros f p He. by destruct (Hno f p He).
  - intros f p c He. by destruct (Hno f p He).
  - intros f p He. by destruct (Hno f p He).
  - intros f Hf. by apply not_elem_of_nil in Hf.
  - apply NoDup_nil_2.
  - intros f p He. by destruct (Hno f p He).
Qed.

Lemma NoDup_fmap_inj {A B} (key : A → B) l x y :
  NoDup (key <$> l) → x ∈ l → y ∈ l → key x = key y → x = y.
Proof.
  intros Hl [i Hi]%list_elem_of_lookup [j Hj]%list_elem_of_lookup Hk.
  assert (i = j) as -> by (eapply NoDup_lookup; [exact Hl|rewrite list_lookup_fmap, Hi; done|];
    rewrite list_lookup_fmap, Hj, Hk; done). congruence.
Qed.

(** The line numbers a side of a hunk takes; a side without lines is taken as the line it
    starts at. *)
Definition takes (start lines n : N) : Prop := (start ≤ n < start + N.max lines 1)%N.
Lemma takes_intersect a b i j n :
  (n < U32_MAX)%N → takes a b n → takes i j n → ranges_intersect a b i j = true.
Proof. unfold takes, ranges_intersect, saturating_add_u32. lia. Qed.

(** C29. What is prepared for a patch is exactly what was selected. Whenever the
    preparation of a batch succeeds, every selection named a hunk (and a changed line)
    of the diff computed afresh, between the very blobs the selection was taken from,
    in a file whose change a patch can express; the prepared hunks and lines are those
    and no others, each once: one entry for a pair of paths and blobs, one place in it
    for a hunk, one place in the hunk for a line. And two different hunks of one file
    have no line number below the widest in common, on the old side or on the new; a
    side without lines has the number it starts at. *)
Theorem prepared_is_selected (selections : list S) (at_ : ApplyTarget) (prepared : list PreparedFile) :
  prepare compute is_cancelled selections at_ = Ok prepared →
  represents at_ selections prepared
  ∧ ∀ f g p q n, entry prepared f p → entry prepared g q →
      identity (pf_file f) = identity (pf_file g) → ph_hunk p ≠ ph_hunk q → (n < U32_MAX)%N →
      ¬ (takes (old_start (ph_hunk p)) (old_lines (ph_hunk p)) n
         ∧ takes (old_start (ph_hunk q)) (old_lines (ph_hunk q)) n)
      ∧ ¬ (takes (new_start (ph_hunk p)) (new_lines (ph_hunk p)) n
           ∧ takes (new_start (ph_hunk q)) (new_lines (ph_hunk q)) n).
Proof.
  intros [Hr Ho]%prepare_represents. split; [exact Hr|].
  intros f g p q n [Hf [i Hi]%list_elem_of_lookup] [Hg [j Hj]%list_elem_of_lookup] Hid Hne Hn.
  assert (f = g) as <- by (by eapply (NoDup_fmap_inj (λ f, identity (pf_file f))); [apply Hr|..]).
  assert (hunks_collide (ph_hunk p) (ph_hunk q) = false) as [Hold Hnew]%orb_false_iff.
  { unfold refuse_overlaps in Ho. destruct (find _ prepared) eqn:Hfind; [done|].
    eapply (any_collide_false (pf_hunks f)); [|exact Hi|exact Hj|congruence].
    apply (find_none _ _ Hfind f). by apply list_elem_of_In. }
  split; intros [H1 H2]; by rewrite (takes_intersect _ _ _ _ n Hn H1 H2) in *.
Qed.
End prepared.

(** ** What a remapped selection names *)

Lemma same_lines_spec wanted found :
  same_lines wanted found = true ↔ NoDup wanted ∧ wanted ≡ₚ found.
Proof.
  unfold same_lines. rewrite !andb_true_iff, !bool_decide_eq_true, !forallb_forall. split.
  - intros [[[Hw Hf] Hwf] Hfw]. split; [done|]. apply NoDup_Permutation; [done|done|].
    intros x. split; intros Hx%list_elem_of_In.
    + by apply Hwf, bool_decide_eq_true in Hx.
    + by apply Hfw, bool_decide_eq_true in Hx.
  - intros [Hw Hp]. split; [split; [split; [done|by rewrite <- Hp]|]|];
      intros x Hx%list_elem_of_In; apply bool_decide_eq_true; [by rewrite <- Hp|by rewrite Hp].
Qed.

(** A hunk of a whitespace-insensitive view becomes exact selections only when
    nothing was hidden: the mapping succeeds if and only if both records are between the
    same blobs and the changed lines of the view's hunk are, each once, exactly the
    changed lines of the exact hunks it overlaps; what it returns then names those
    hunks. And in a record whose hunks do not overlap, a hunk maps to itself. *)
Theorem remap_hides_nothing (view : FileDiff) (view_hunk : Hunk) (exact : FileDiff) :
  let candidates := filter (λ h, overlaps view_hunk h = true) (hunks exact) in
  (∀ selections, remap_to_exact view view_hunk exact = Ok selections ↔
     old_blob_id view = old_blob_id exact ∧ new_blob_id view = new_blob_id exact
     ∧ NoDup (changed_lines view_hunk) ∧ changed_lines view_hunk ≡ₚ candidates ≫= changed_lines
     ∧ selections = HunkSelection_new exact <$> candidates)
  ∧ (∀ h before later, hunks exact = before ++ h :: later →
      overlaps h h = true → NoDup (changed_lines h) →
      Forall (λ other, overlaps h other = false) (before ++ later) →
      remap_to_exact exact h exact = Ok [HunkSelection_new exact h]).
Proof.
  intros candidates. split.
  - intros selections. unfold remap_to_exact. fold candidates.
    destruct (bool_decide_reflect (old_blob_id view = old_blob_id exact)); [|naive_solver].
    destruct (bool_decide_reflect (new_blob_id view = new_blob_id exact)); [|naive_solver].
    cbn [negb orb]. destruct (same_lines _ _) eqn:Hs; cbn [negb].
    + apply same_lines_spec in Hs. naive_solver.
    + apply not_true_iff_false in Hs. rewrite same_lines_spec in Hs. naive_solver.
  - clear candidates. intros h before later Hh Hself Hnd [Hb Hl]%Forall_app.
    assert (filter (λ other, overlaps h other = true) (hunks exact) = [h]) as Hc.
    { rewrite Hh, filter_app, filter_cons_True by done.
      assert (∀ l, Forall (λ other, overlaps h other = false) l →
        filter (λ other, overlaps h other = true) l = []) as Hnone.
      { intros l. induction 1 as [|a l Ha _ IH]; [done|]. rewrite filter_cons_False; congruence. }
      by rewrite !Hnone. }
    unfold remap_to_exact. rewrite !bool_decide_true by done. cbn [negb orb]. rewrite Hc. cbn.
    rewrite app_nil_r. assert (same_lines (changed_lines h) (changed_lines h) = true) as ->
      by (by apply same_lines_spec). done.
Qed.

(** ** A concrete diff: [one/two/last] against [one/TWO/LAST] *)

Definition demo_line (k : DiffLineKind) (old new : option N) (s : string) : DiffLine :=
  MkDiffLine k old new (utf8_bytes s ++ [10%N]) None None.
Definition demo_hunk : Hunk :=
  MkHunk 1 3 1 3 [] None
    [demo_line Context (Some 1%N) (Some 1%N) "one";
     demo_line Deletion (Some 2%N) None "two"; demo_line Deletion (Some 3%N) None "last";
     demo_line Addition None (Some 2%N) "TWO"; demo_line Addition None (Some 3%N) "LAST"].
Definition demo_file : FileDiff :=
  MkFileDiff Unstaged Modified (Some "f") (Some "f") "a" "b" 33188 33188 3 Whitespace_EXACT 13 13
    false None [demo_hunk].
Definition demo_compute (context : N) : result GitError (list FileDiff) :=
  if (context =? 3)%N then Ok [demo_file] else Ok [].
Definition demo_pick (k : DiffLineKind) (old new : option N) (s : string) : LineSelection :=
  LineSelection_new demo_file demo_hunk (demo_line k old new s).
Definition demo_selections : list LineSelection :=
  [demo_pick Deletion (Some 2%N) None "two"; demo_pick Addition None (Some 2%N) "TWO";
   demo_pick Deletion (Some 2%N) None "two"].
Definition demo_prepared : list PreparedFile :=
  [MkPreparedFile demo_file [MkPreparedHunk demo_hunk
     (Some [MkLineCoordinates (Some 2%N) None; MkLineCoordinates None (Some 2%N)])]].

Lemma prepared_is_selected_witness :
  prepare demo_compute (λ _, false) demo_selections ToIndex = Ok demo_prepared
  ∧ represents demo_compute ToIndex demo_selections demo_prepared.
Proof.
  assert (prepare demo_compute (λ _, false) demo_selections ToIndex = Ok demo_prepared) as Hok
    by reflexivity.
  split; [exact Hok|].
  by destruct (prepared_is_selected demo_compute (λ _, false) demo_selections ToIndex demo_prepared Hok)
    as [Hr _].
Defined.
