(* ===== verification/Render.v ===== *)
(** * Rendering selected lines as a patch

    Models the second half of [src/crates/harkness-git/src/hunk.rs], from [render_patch]
    on: what each changed line of a prepared hunk becomes, the order it is emitted in,
    the selections no patch can express, and the bytes of the patch.  A [usize] length
    and the [i64] drift between two line counts do not overflow; the [u32] counts
    saturate as the code's do. *)

From Stdlib Require Import ZArith.
From stdpp Require Import base decidable list sorting strings pretty.
From S2P Require Import Prelude Subject Hunk.

(** ** Line groups *)

Definition is_eof_marker (k : DiffLineKind) : bool :=
  match k with BothEofNoNewline | OldEofNoNewline | NewEofNoNewline => true | _ => false end.

Definition reversed_kind (k : DiffLineKind) (d : Direction) : DiffLineKind :=
  match d, k with
  | Reverse, Addition => Deletion
  | Reverse, Deletion => Addition
  | Reverse, OldEofNoNewline => NewEofNoNewline
  | Reverse, NewEofNoNewline => OldEofNoNewline
  | _, k => k
  end.

(** A line and the end-of-file markers after it; a slice that is never empty. *)
Record LineGroup := MkLineGroup { lg_first : DiffLine; lg_markers : list DiffLine }.
Definition lg_kind (g : LineGroup) : DiffLineKind := kind (lg_first g).

Record RenderLineGroup := MkRenderLineGroup {
  rg_original_kind : DiffLineKind;
  rg_kind : DiffLineKind;
  rg_first : DiffLine;
  rg_markers : list DiffLine;
}.
Definition rendered_as (k : DiffLineKind) (g : LineGroup) : RenderLineGroup :=
  MkRenderLineGroup (lg_kind g) k (lg_first g) (lg_markers g).
Definition unchanged (g : LineGroup) : RenderLineGroup := rendered_as (lg_kind g) g.

(** The two loops of [line_groups], the inner one extending [g]. *)
Fixpoint groups_from (g : LineGroup) (l : list DiffLine) : list LineGroup :=
  match l with
  | [] => [g]
  | line :: l =>
    if is_eof_marker (kind line)
    then groups_from (MkLineGroup (lg_first g) (lg_markers g ++ [line])) l
    else g :: groups_from (MkLineGroup line []) l
  end.
Definition line_groups (l : list DiffLine) : list LineGroup :=
  match l with [] => [] | line :: l => groups_from (MkLineGroup line []) l end.

(** ** What each changed line becomes *)

Definition resolve_kind (d : Direction) (k : DiffLineKind) (selected : bool) : option DiffLineKind :=
  match d, k, selected with
  | _, Addition, true => Some Addition
  | _, Deletion, true => Some Deletion
  | Forward, Addition, false | Reverse, Deletion, false => None
  | Forward, Deletion, false | Reverse, Addition, false => Some Context
  | _, k, _ => Some k
  end.

Definition is_selected (selected : list LineCoordinates) (g : LineGroup) : bool :=
  bool_decide (line_coordinates (lg_first g) ∈ selected).
Definition resolve_group (selected : list LineCoordinates) (d : Direction) (g : LineGroup)
    : option RenderLineGroup :=
  (λ k, rendered_as k g) <$> resolve_kind d (lg_kind g) (is_selected selected g).

(** [deletions.get(index)], [additions.get(index)], for each index of the longer one *)
Fixpoint pairwise (deletions additions : list LineGroup) : list LineGroup :=
  match deletions, additions with
  | [], additions => additions
  | deletions, [] => deletions
  | d :: deletions, a :: additions => d :: a :: pairwise deletions additions
  end.

Definition push_selected_change_run (run : list LineGroup) (selected : list LineCoordinates)
    (d : Direction) : list RenderLineGroup :=
  omap (resolve_group selected d)
    (pairwise (filter (λ g, lg_kind g = Deletion) run) (filter (λ g, lg_kind g = Addition) run)).

Fixpoint resolve_runs (selected : list LineCoordinates) (d : Direction)
    (groups changed_run : list LineGroup) : list RenderLineGroup :=
  match groups with
  | [] => push_selected_change_run changed_run selected d
  | g :: groups =>
    if bool_decide (lg_kind g = Context)
    then push_selected_change_run changed_run selected d
           ++ unchanged g :: resolve_runs selected d groups []
    else resolve_runs selected d groups (changed_run ++ [g])
  end.

Definition resolve_render_groups (h : Hunk) (selected : option (list LineCoordinates))
    (d : Direction) : list RenderLineGroup :=
  match selected with
  | None => unchanged <$> line_groups (lines h)
  | Some selected => resolve_runs selected d (line_groups (lines h)) []
  end.

(** [partition] *)
Definition drain_reversed_run (run : list RenderLineGroup) : list RenderLineGroup :=
  filter (λ g, rg_kind g = Addition) run ++ filter (λ g, rg_kind g ≠ Addition) run.

Fixpoint order_runs (groups run : list RenderLineGroup) : list RenderLineGroup :=
  match groups with
  | [] => drain_reversed_run run
  | g :: groups =>
    if bool_decide (rg_kind g = Context)
    then drain_reversed_run run ++ g :: order_runs groups []
    else order_runs groups (run ++ [g])
  end.

Definition ordered_render_groups (h : Hunk) (selected : option (list LineCoordinates))
    (d : Direction) : list RenderLineGroup :=
  let resolved := resolve_render_groups h selected d in
  match d with Forward => resolved | Reverse => order_runs resolved [] end.

(** ** Plans *)

Record RenderedHunk := MkRenderedHunk {
  source_start : N;
  source_lines : N;
  result_lines : N;
  groups : list RenderLineGroup;
}.

Definition count_group (d : Direction) (counts : N * N) (g : RenderLineGroup) : N * N :=
  match reversed_kind (rg_kind g) d with
  | Context => (saturating_add_u32 counts.1 1, saturating_add_u32 counts.2 1)
  | Addition => (counts.1, saturating_add_u32 counts.2 1)
  | Deletion => (saturating_add_u32 counts.1 1, counts.2)
  | _ => counts
  end.

Definition plan_hunk (d : Direction) (p : PreparedHunk) : RenderedHunk :=
  let gs := ordered_render_groups (ph_hunk p) (ph_selected_lines p) d in
  let counts := fold_left (count_group d) gs (0, 0)%N in
  MkRenderedHunk
    match d with Forward => old_start (ph_hunk p) | Reverse => new_start (ph_hunk p) end
    counts.1 counts.2 gs.

(** *** Selections no patch can express *)

Definition emitted_marker_kind (g : RenderLineGroup) (marker : DiffLine) : DiffLineKind :=
  if bool_decide (rg_kind g = Context) && negb (bool_decide (rg_original_kind g = Context))
     && is_eof_marker (kind marker)
  then BothEofNoNewline
  else kind marker.
(** [emitted_line_kind] of every line of a group, in order *)
Definition emitted_kinds (g : RenderLineGroup) : list (DiffLineKind * DiffLine) :=
  (rg_kind g, rg_first g) :: ((λ m, (emitted_marker_kind g m, m)) <$> rg_markers g).

Definition occupied_sides (d : Direction) (g : RenderLineGroup) : bool * bool :=
  match reversed_kind (rg_kind g) d with
  | Context => (true, true)
  | Addition => (false, true)
  | Deletion => (true, false)
  | _ => (false, false)
  end.
(** The sides a marker ends. *)
Definition ended_sides (k : DiffLineKind) : bool * bool :=
  match k with
  | OldEofNoNewline => (true, false)
  | NewEofNoNewline => (false, true)
  | _ => (true, true)
  end.
Definition strands (d : Direction) (g : RenderLineGroup) (later : list RenderLineGroup) : bool :=
  existsb (λ line,
    let k := reversed_kind line.1 d in
    is_eof_marker k
    && existsb (λ g', ((ended_sides k).1 && (occupied_sides d g').1)
                      || ((ended_sides k).2 && (occupied_sides d g').2)) later)
    (emitted_kinds g).
Fixpoint any_stranded (d : Direction) (gs : list RenderLineGroup) : bool :=
  match gs with [] => false | g :: gs => strands d g gs || any_stranded d gs end.
Definition refuse_stranded_eof_markers (f : PreparedFile) (rendered : list RenderedHunk)
    (d : Direction) : result GitError unit :=
  if any_stranded d (rendered ≫= groups) then Err (UnrepresentableLineSelection (PreparedFile_path f))
  else Ok tt.

(** ** Bytes *)

Definition bytes_of (s : string) : list N := utf8_bytes s.
Definition NEWLINE : N := 10.

(** [{n:o}] and [{n:03o}] *)
Fixpoint octal_digits (fuel : nat) (n : N) : list N :=
  match fuel with
  | O => []
  | S fuel => (if (n <? 8)%N then [] else octal_digits fuel (n / 8)%N) ++ [(48 + n mod 8)%N]
  end.
Definition octal (n : N) : list N := octal_digits (S (N.to_nat (N.log2 n))) n.
Definition octal3 (n : N) : list N :=
  [48 + (n / 64) mod 8; 48 + (n / 8) mod 8; 48 + n mod 8]%N.

Definition BACKSLASH : N := 92.
Definition QUOTE : N := 34.
Definition quoted_byte (b : N) : list N :=
  (if b =? BACKSLASH then [BACKSLASH; BACKSLASH]
   else if b =? QUOTE then [BACKSLASH; QUOTE]
   else if b =? 10 then [BACKSLASH; 110]
   else if b =? 13 then [BACKSLASH; 114]
   else if b =? 9 then [BACKSLASH; 116]
   else if (32 <=? b) && (b <=? 126) then [b]
   else BACKSLASH :: octal3 b)%N.
Definition push_quoted_path (prefix path : list N) : list N :=
  QUOTE :: ((prefix ++ path) ≫= quoted_byte) ++ [QUOTE].

Definition push_line_as (d : Direction) (line : DiffLineKind * DiffLine) : list N :=
  match reversed_kind line.1 d with
  | Context => [32%N]
  | Addition => [43%N]
  | Deletion => [45%N]
  | _ => []
  end ++ content line.2.
Definition push_render_group (d : Direction) (g : RenderLineGroup) : list N :=
  emitted_kinds g ≫= push_line_as d.

Definition result_start (source result start : N) (drift : Z) : N :=
  if (result =? 0)%N then 0
  else N.min (Z.to_N (Z.max (Z.of_N start + drift) 1)) U32_MAX.
Definition render_hunk (d : Direction) (h : RenderedHunk) (drift : Z) : list N * Z :=
  let start := result_start (source_lines h) (result_lines h) (source_start h) drift in
  (bytes_of "@@ -" ++ bytes_of (pretty (source_start h)) ++ bytes_of ","
     ++ bytes_of (pretty (source_lines h)) ++ bytes_of " +" ++ bytes_of (pretty start)
     ++ bytes_of "," ++ bytes_of (pretty (result_lines h)) ++ bytes_of " @@" ++ [NEWLINE]
     ++ (groups h ≫= push_render_group d),
   (drift + Z.of_N (result_lines h) - Z.of_N (source_lines h))%Z).
Fixpoint render_hunks (d : Direction) (hs : list RenderedHunk) (drift : Z) : list N :=
  match hs with
  | [] => []
  | h :: hs => let '(bytes, drift) := render_hunk d h drift in bytes ++ render_hunks d hs drift
  end.

Definition sum_lines (l : list N) : N := foldr N.add 0%N l.

(** One end of the comparison: path, blob and mode. *)
Record Endpoint := MkEndpoint { ep_path : option string; ep_id : string; ep_mode : N }.
Definition endpoints (file : FileDiff) (rendered : list RenderedHunk) (d : Direction)
    : Endpoint * Endpoint :=
  let old := MkEndpoint (old_path file) (old_blob_id file) (old_mode file) in
  let new := MkEndpoint (new_path file) (new_blob_id file) (new_mode file) in
  let '(source, result) := match d with Forward => (old, new) | Reverse => (new, old) end in
  (source,
   match ep_path result with
   | None => if (0 <? sum_lines (result_lines <$> rendered))%N then source else result
   | Some _ => result
   end).

Definition path_or_null (prefix : string) (path : option string) : list N :=
  match path with
  | Some p => push_quoted_path (bytes_of prefix) (bytes_of p)
  | None => bytes_of "/dev/null"
  end.

Definition mode_header (s r : Endpoint) : list N :=
  match ep_path s, ep_path r with
  | None, Some _ =>
    if (ep_mode r =? 0)%N then [] else bytes_of "new file mode " ++ octal (ep_mode r) ++ [NEWLINE]
  | Some _, None =>
    if (ep_mode s =? 0)%N then [] else bytes_of "deleted file mode " ++ octal (ep_mode s) ++ [NEWLINE]
  | Some _, Some _ =>
    if (ep_mode s =? ep_mode r)%N then []
    else bytes_of "old mode " ++ octal (ep_mode s) ++ [NEWLINE]
           ++ bytes_of "new mode " ++ octal (ep_mode r) ++ [NEWLINE]
  | None, None => []
  end.
Definition rename_header (s r : Endpoint) : list N :=
  match ep_path s, ep_path r with
  | Some old, Some new =>
    if path_eqb old new then []
    else bytes_of "similarity index 100%" ++ [NEWLINE] ++ bytes_of "rename from "
           ++ push_quoted_path [] (bytes_of old) ++ [NEWLINE] ++ bytes_of "rename to "
           ++ push_quoted_path [] (bytes_of new) ++ [NEWLINE]
  | _, _ => []
  end.

Definition render_file (file : FileDiff) (rendered : list RenderedHunk) (d : Direction) : list N :=
  let '(s, r) := endpoints file rendered d in
  bytes_of "diff --git " ++ push_quoted_path (bytes_of "a/") (bytes_of (display_path (ep_path s) (ep_path r)))
    ++ bytes_of " " ++ push_quoted_path (bytes_of "b/") (bytes_of (display_path (ep_path r) (ep_path s)))
    ++ [NEWLINE] ++ mode_header s r ++ rename_header s r
    ++ bytes_of "index " ++ bytes_of (ep_id s) ++ bytes_of ".." ++ bytes_of (ep_id r)
    ++ (if negb (ep_mode s =? 0)%N && (ep_mode s =? ep_mode r)%N
        then bytes_of " " ++ octal (ep_mode s) else [])
    ++ [NEWLINE] ++ bytes_of "--- " ++ path_or_null "a/" (ep_path s) ++ [NEWLINE]
    ++ bytes_of "+++ " ++ path_or_null "b/" (ep_path r) ++ [NEWLINE]
    ++ render_hunks d rendered 0.

(** [sort_by_key], which is stable *)
Definition hunk_key (d : Direction) (p : PreparedHunk) : N * N :=
  match d with
  | Forward => (old_start (ph_hunk p), new_start (ph_hunk p))
  | Reverse => (new_start (ph_hunk p), old_start (ph_hunk p))
  end.
Definition key_leb (a b : N * N) : bool := ((a.1 <? b.1) || ((a.1 =? b.1) && (a.2 <=? b.2)))%N.
Fixpoint insert_by (d : Direction) (p : PreparedHunk) (l : list PreparedHunk) : list PreparedHunk :=
  match l with
  | [] => [p]
  | q :: l => if key_leb (hunk_key d p) (hunk_key d q) then p :: q :: l else q :: insert_by d p l
  end.
Definition sort_hunks (d : Direction) (l : list PreparedHunk) : list PreparedHunk :=
  foldr (insert_by d) [] l.

Fixpoint render_patch (files : list PreparedFile) (d : Direction) : result GitError (list N) :=
  match files with
  | [] => Ok []
  | f :: files =>
    let rendered := plan_hunk d <$> sort_hunks d (pf_hunks f) in
    _ ← refuse_stranded_eof_markers f rendered d;
    rest ← render_patch files d;
    Ok (render_file (pf_file f) rendered d ++ rest)
  end.
