(* ===== verification/Patch.v ===== *)
(** * What a rendered patch does

    The specification of line staging: the two sides of what is rendered, the files a
    diff is between, and the application of a patch to one of them, with the theorems
    that the rendering of [Render] meets it. *)

From Stdlib Require Import ZArith ZifyN ZifyBool.
From stdpp Require Import base decidable list sorting strings.
From S2P Require Import Prelude Subject Hunk Render.

(** ** The sides of a hunk *)

Definition on_old (k : DiffLineKind) : bool :=
  match k with Context | Deletion => true | _ => false end.
Definition on_new (k : DiffLineKind) : bool :=
  match k with Context | Addition => true | _ => false end.
Definition on_source (d : Direction) (k : DiffLineKind) : bool :=
  match d with Forward => on_old k | Reverse => on_new k end.
Definition on_result (d : Direction) (k : DiffLineKind) : bool :=
  match d with Forward => on_new k | Reverse => on_old k end.

(** The lines of a hunk with a given kind, and those a rendering emits. *)
Definition texts (P : DiffLine → bool) (l : list DiffLine) : list (list N) :=
  content <$> filter (λ line, P line = true) l.
Definition hunk_source (d : Direction) (h : Hunk) : list (list N) :=
  texts (on_source d ∘ kind) (lines h).
Definition hunk_result (d : Direction) (h : Hunk) : list (list N) :=
  texts (on_result d ∘ kind) (lines h).

Definition emitted (P : RenderLineGroup → bool) (gs : list RenderLineGroup) : list (list N) :=
  content ∘ rg_first <$> filter (λ g, P g = true) gs.
Definition source_image (d : Direction) (gs : list RenderLineGroup) : list (list N) :=
  emitted (on_source d ∘ rg_kind) gs.
Definition result_image (d : Direction) (gs : list RenderLineGroup) : list (list N) :=
  emitted (on_result d ∘ rg_kind) gs.

(** A hunk does not begin with a marker. *)
Definition hunk_wf (h : Hunk) : Prop :=
  match lines h with [] => True | line :: _ => is_eof_marker (kind line) = false end.

(** The kind of a changed line that leaves the source, and of one that enters the result. *)
Definition leaving (d : Direction) : DiffLineKind :=
  match d with Forward => Deletion | Reverse => Addition end.
Definition entering (d : Direction) : DiffLineKind :=
  match d with Forward => Addition | Reverse => Deletion end.
Definition chosen (selected : option (list LineCoordinates)) (line : DiffLine) : bool :=
  match selected with None => true | Some l => bool_decide (line_coordinates line ∈ l) end.

(** ** Filters *)

Lemma emitted_app P gs gs' : emitted P (gs ++ gs') = emitted P gs ++ emitted P gs'.
Proof. unfold emitted. by rewrite filter_app, fmap_app. Qed.
Lemma emitted_nil P : emitted P [] = [].
Proof. done. Qed.
Lemma emitted_cons P g gs :
  emitted P (g :: gs) = (if P g then [content (rg_first g)] else []) ++ emitted P gs.
Proof. unfold emitted. rewrite filter_cons. by destruct (P g). Qed.
Lemma texts_cons P line l :
  texts P (line :: l) = (if P line then [content line] else []) ++ texts P l.
Proof. unfold texts. rewrite filter_cons. by destruct (P line). Qed.
Lemma texts_app P l l' : texts P (l ++ l') = texts P l ++ texts P l'.
Proof. unfold texts. by rewrite filter_app, fmap_app. Qed.

(** Line groups, seen through their first lines. *)
Definition group_texts (P : DiffLine → bool) (gs : list LineGroup) : list (list N) :=
  texts P (lg_first <$> gs).

Lemma group_texts_app P gs gs' : group_texts P (gs ++ gs') = group_texts P gs ++ group_texts P gs'.
Proof. unfold group_texts. by rewrite fmap_app, texts_app. Qed.

Lemma firsts_groups_from g l :
  lg_first <$> groups_from g l = lg_first g :: filter (λ line, is_eof_marker (kind line) = false) l.
Proof.
  revert g. induction l as [|line l IH]; intros g; [done|]. cbn [groups_from].
  rewrite filter_cons. destruct (is_eof_marker (kind line)) eqn:Hm.
  - by rewrite decide_False, IH.
  - by rewrite decide_True, fmap_cons, IH.
Qed.

(** A predicate that no marker has sees the same texts in the lines and in the groups. *)
Lemma group_texts_lines P h :
  hunk_wf h → (∀ line, is_eof_marker (kind line) = true → P line = false) →
  group_texts P (line_groups (lines h)) = texts P (lines h).
Proof.
  intros Hwf HP. unfold group_texts, hunk_wf in *. destruct (lines h) as [|line l]; [done|].
  unfold line_groups. rewrite firsts_groups_from. cbn [lg_first].
  rewrite !texts_cons. f_equal. clear Hwf line. induction l as [|line l IH]; [done|].
  rewrite filter_cons, texts_cons. destruct (is_eof_marker (kind line)) eqn:Hm.
  - rewrite decide_False by done. by rewrite HP, IH.
  - rewrite decide_True by done. by rewrite texts_cons, IH.
Qed.

Lemma marker_on_source d line : is_eof_marker (kind line) = true → on_source d (kind line) = false.
Proof. by destruct d, (kind line). Qed.
Lemma marker_on_result d line : is_eof_marker (kind line) = true → on_result d (kind line) = false.
Proof. by destruct d, (kind line). Qed.

(** Every group of a well-formed hunk is a line. *)
Definition line_like (g : LineGroup) : Prop := is_eof_marker (lg_kind g) = false.
Definition changed_like (g : LineGroup) : Prop := lg_kind g = Addition ∨ lg_kind g = Deletion.

Lemma groups_line_like h : hunk_wf h → Forall line_like (line_groups (lines h)).
Proof.
  unfold hunk_wf. destruct (lines h) as [|line l]; [constructor|]. intros Hwf. unfold line_groups.
  assert (line_like (MkLineGroup line [])) as Hg by exact Hwf. revert Hg.
  generalize (MkLineGroup line []). clear. induction l as [|line l IH]; intros g Hg; cbn.
  - by constructor.
  - destruct (is_eof_marker (kind line)) eqn:Hm; [by apply IH|]. constructor; [done|by apply IH].
Qed.

(** ** One run of changed lines *)

Lemma pairwise_nil_r l : pairwise l [] = l.
Proof. by destruct l. Qed.
Lemma filter_none {A} (P : A → Prop) `{∀ x, Decision (P x)} l : Forall (λ x, ¬ P x) l → filter P l = [].
Proof. induction 1; [done|]. by rewrite filter_cons_False. Qed.
Lemma filter_all {A} (P : A → Prop) `{∀ x, Decision (P x)} l : Forall P l → filter P l = l.
Proof. induction 1 as [|x l Hx _ IH]; [done|]. by rewrite filter_cons_True, IH. Qed.

(** Pairing keeps the order of each kind. *)
Lemma filter_pairwise (P : LineGroup → Prop) `{∀ g, Decision (P g)} ds adds :
  Forall P ds → Forall (λ g, ¬ P g) adds → filter P (pairwise ds adds) = ds.
Proof.
  intros Hd. revert adds. induction Hd as [|d ds Hd Hds IH]; intros adds Ha; cbn.
  - by apply filter_none.
  - destruct Ha as [|a adds Ha Hadds]; [by apply filter_all; constructor|].
    rewrite filter_cons_True, filter_cons_False, IH by done. done.
Qed.
Lemma filter_pairwise_r (P : LineGroup → Prop) `{∀ g, Decision (P g)} ds adds :
  Forall (λ g, ¬ P g) ds → Forall P adds → filter P (pairwise ds adds) = adds.
Proof.
  intros Hd. revert adds. induction Hd as [|d ds Hd Hds IH]; intros adds Ha; cbn.
  - by apply filter_all.
  - destruct Ha as [|a adds Ha Hadds]; [by apply filter_none; constructor|].
    rewrite filter_cons_False, filter_cons_True, IH by done. done.
Qed.

Definition one_sided (P : DiffLine → bool) : Prop :=
  (∀ line, kind line = Addition → P line = false) ∨ (∀ line, kind line = Deletion → P line = false).

Lemma texts_filter P (R : LineGroup → Prop) `{∀ g, Decision (R g)} l :
  (∀ g, g ∈ l → ¬ R g → P (lg_first g) = false) → group_texts P (filter R l) = group_texts P l.
Proof.
  unfold group_texts. induction l as [|g l IH]; intros HP; [done|].
  assert (texts P (lg_first <$> filter R l) = texts P (lg_first <$> l)) as Hl
    by (apply IH; intros g' Hg'; apply HP; by right).
  rewrite filter_cons, fmap_cons, texts_cons. case_decide as HR.
  - by rewrite fmap_cons, texts_cons, Hl.
  - by rewrite Hl, HP; [|left|].
Qed.

Lemma pairwise_texts P run :
  one_sided P → Forall changed_like run →
  group_texts P (pairwise (filter (λ g, lg_kind g = Deletion) run)
                   (filter (λ g, lg_kind g = Addition) run)) = group_texts P run.
Proof.
  intros HP Hrun.
  assert (Forall (λ g, lg_kind g = Deletion) (filter (λ g, lg_kind g = Deletion) run)) as Hds
    by (apply list.Forall_forall; intros g [? _]%list_elem_of_filter; done).
  assert (Forall (λ g, lg_kind g = Addition) (filter (λ g, lg_kind g = Addition) run)) as Has
    by (apply list.Forall_forall; intros g [? _]%list_elem_of_filter; done).
  set (ds := filter (λ g, lg_kind g = Deletion) run) in *.
  set (adds := filter (λ g, lg_kind g = Addition) run) in *.
  assert (∀ g, g ∈ pairwise ds adds → changed_like g) as Hall.
  { clear -Hds Has. clearbody ds adds. revert adds Has. induction ds as [|d ds IH]; intros adds Has g; cbn.
    - intros Hg. left. rewrite list.Forall_forall in Has. by apply Has.
    - apply list.Forall_cons in Hds as [Hd Hds]. destruct adds as [|a adds].
      + intros [->|Hg]%elem_of_cons; [by right|]. right. rewrite list.Forall_forall in Hds. by apply Hds.
      + apply list.Forall_cons in Has as [Ha Has].
        intros [->|[->|Hg]%elem_of_cons]%elem_of_cons; [by right|by left|by apply (IH Hds adds Has)]. }
  rewrite list.Forall_forall in Hrun. destruct HP as [HP|HP].
  - rewrite <- (texts_filter P (λ g, lg_kind g = Deletion) (pairwise ds adds)).
    2: { intros g Hg Hne. apply HP. by destruct (Hall g Hg). }
    rewrite filter_pairwise; [|done|].
    2: { eapply List.Forall_impl; [|exact Has]. cbn. intros g -> ?. done. }
    unfold ds. apply texts_filter. intros g Hg Hne. apply HP. by destruct (Hrun g Hg).
  - rewrite <- (texts_filter P (λ g, lg_kind g = Addition) (pairwise ds adds)).
    2: { intros g Hg Hne. apply HP. by destruct (Hall g Hg). }
    rewrite filter_pairwise_r; [|eapply List.Forall_impl; [|exact Hds]; cbn; intros g -> ?; done|done].
    unfold adds. apply texts_filter. intros g Hg Hne. apply HP. by destruct (Hrun g Hg).
Qed.

(** ** What a selection makes of the lines

    [seen d q selected line]: the line survives, and [q] holds of the kind it had and the
    kind it is rendered as. *)
Definition seen (d : Direction) (q : DiffLineKind → DiffLineKind → bool)
    (selected : option (list LineCoordinates)) (line : DiffLine) : bool :=
  match resolve_kind d (kind line) (chosen selected line) with
  | Some k => q (kind line) k
  | None => false
  end.
Definition seen_group (q : DiffLineKind → DiffLineKind → bool) (g : RenderLineGroup) : bool :=
  q (rg_original_kind g) (rg_kind g).

Section views.
Context (d : Direction) (q : DiffLineKind → DiffLineKind → bool).

Lemma emitted_resolved selected l :
  emitted (seen_group q) (omap (resolve_group selected d) l) = group_texts (seen d q (Some selected)) l.
Proof.
  unfold group_texts. induction l as [|g l IH]; [done|].
  rewrite fmap_cons, texts_cons, <- IH. cbn [omap list_omap].
  unfold resolve_group at 1, seen. fold (lg_kind g). cbn [chosen]. fold (is_selected selected g).
  destruct (resolve_kind d (lg_kind g) (is_selected selected g)); [|done].
  cbn [fmap option_fmap option_map]. by rewrite emitted_cons.
Qed.

Lemma emitted_unchanged l :
  emitted (seen_group q) (unchanged <$> l) = group_texts (seen d q None) l.
Proof.
  unfold group_texts. induction l as [|g l IH]; [done|].
  rewrite !fmap_cons, emitted_cons, texts_cons, IH. unfold seen_group, seen. cbn.
  fold (lg_kind g). by destruct d, (lg_kind g).
Qed.

Lemma emitted_resolve_runs selected groups run :
  one_sided (seen d q (Some selected)) → Forall changed_like run → Forall line_like groups →
  emitted (seen_group q) (resolve_runs selected d groups run)
  = group_texts (seen d q (Some selected)) (run ++ groups).
Proof.
  intros Hq. assert (∀ run, Forall changed_like run →
    emitted (seen_group q) (push_selected_change_run run selected d)
    = group_texts (seen d q (Some selected)) run) as Hpush.
  { intros run' Hr. unfold push_selected_change_run. rewrite emitted_resolved. by apply pairwise_texts. }
  revert run. induction groups as [|g groups IH]; intros run Hrun Hg; cbn [resolve_runs].
  - rewrite app_nil_r. by apply Hpush.
  - apply list.Forall_cons in Hg as [Hg Hgs]. case_bool_decide as Hc.
    + rewrite emitted_app, emitted_cons, IH, Hpush by (done || constructor).
      rewrite !group_texts_app. f_equal. unfold group_texts.
      rewrite (fmap_cons lg_first g groups), texts_cons. cbn [fmap list_fmap]. f_equal.
      unfold seen_group, seen, lg_kind in *. cbn. unfold lg_kind. rewrite Hc.
      by destruct d, (bool_decide _).
    + rewrite IH; [by rewrite <- app_assoc| |done].
      apply Forall_app. split; [done|]. constructor; [|constructor].
      unfold line_like, changed_like in *. destruct (lg_kind g); try done; auto.
Qed.

(** Draining a run moves additions before deletions and keeps each in order. *)
Lemma emitted_drain run :
  (∀ g, rg_kind g = Addition → seen_group q g = false)
  ∨ (∀ g, rg_kind g ≠ Addition → rg_kind g ≠ Context → seen_group q g = false) →
  Forall (λ g, rg_kind g ≠ Context) run →
  emitted (seen_group q) (drain_reversed_run run) = emitted (seen_group q) run.
Proof.
  intros Hq Hrun. unfold drain_reversed_run. rewrite emitted_app.
  assert (∀ (R : RenderLineGroup → Prop) `{∀ g, Decision (R g)} l,
    (∀ g, g ∈ l → ¬ R g → seen_group q g = false) →
    emitted (seen_group q) (filter R l) = emitted (seen_group q) l) as Hkeep.
  { intros R HR l. induction l as [|g l IH]; intros HP; [done|]. rewrite filter_cons, emitted_cons.
    assert (emitted (seen_group q) (filter R l) = emitted (seen_group q) l) as Hl
      by (apply IH; intros g' Hg'; apply HP; by right).
    case_decide; [by rewrite emitted_cons, Hl|]. by rewrite Hl, HP; [|left|]. }
  assert (∀ (R : RenderLineGroup → Prop) `{∀ g, Decision (R g)} l,
    (∀ g, g ∈ l → R g → seen_group q g = false) → emitted (seen_group q) (filter R l) = []) as Hdrop.
  { intros R HR l. induction l as [|g l IH]; intros HP; [done|]. rewrite filter_cons.
    assert (emitted (seen_group q) (filter R l) = []) as Hl
      by (apply IH; intros g' Hg'; apply HP; by right).
    case_decide; [|done]. rewrite emitted_cons, Hl, HP; [done|by left|done]. }
  rewrite list.Forall_forall in Hrun. destruct Hq as [Hq|Hq].
  - rewrite (Hdrop (λ g, rg_kind g = Addition)) by auto. cbn [app].
    apply Hkeep. intros g Hg Hne. apply Hq. by destruct (decide (rg_kind g = Addition)).
  - rewrite (Hdrop (λ g, rg_kind g ≠ Addition)) by auto. rewrite app_nil_r.
    apply Hkeep. intros g Hg Hne. by apply Hq; [|apply Hrun].
Qed.

Lemma emitted_order_runs gs run :
  (∀ g, rg_kind g = Addition → seen_group q g = false)
  ∨ (∀ g, rg_kind g ≠ Addition → rg_kind g ≠ Context → seen_group q g = false) →
  Forall (λ g, rg_kind g ≠ Context) run →
  emitted (seen_group q) (order_runs gs run) = emitted (seen_group q) (run ++ gs).
Proof.
  intros Hq. revert run. induction gs as [|g gs IH]; intros run Hrun; cbn [order_runs].
  - rewrite app_nil_r. by apply emitted_drain.
  - case_bool_decide as Hc.
    + rewrite emitted_app, emitted_cons, IH, emitted_drain by (done || constructor).
      by rewrite !emitted_app, emitted_cons.
    + rewrite IH; [by rewrite <- app_assoc|]. apply Forall_app. split; [done|by constructor].
Qed.
End views.

(** ** The rendering of a hunk *)

Lemma texts_ext P Q l : (∀ line, P line = Q line) → texts P l = texts Q l.
Proof. intros HPQ. induction l as [|line l IH]; [done|]. by rewrite !texts_cons, HPQ, IH. Qed.
Lemma emitted_ext P Q gs : (∀ g, P g = Q g) → emitted P gs = emitted Q gs.
Proof. intros HPQ. induction gs as [|g gs IH]; [done|]. by rewrite !emitted_cons, HPQ, IH. Qed.

(** What may be asked of the lines of a rendering: at most one kind of changed line. *)
Record askable (d : Direction) (q : DiffLineKind → DiffLineKind → bool) : Prop := {
  ask_markers : ∀ k k', is_eof_marker k = true → q k k' = false;
  ask_lines : ∀ selected, one_sided (seen d q selected);
  ask_groups : d = Reverse →
    (∀ k, q k Addition = false) ∨ (∀ k k', k' ≠ Addition → k' ≠ Context → q k k' = false);
}.

Lemma rendered_texts d q h selected :
  hunk_wf h → askable d q →
  emitted (seen_group q) (ordered_render_groups h selected d) = texts (seen d q selected) (lines h).
Proof.
  intros Hwf [Hm Hl Hg].
  assert (emitted (seen_group q) (resolve_render_groups h selected d)
    = texts (seen d q selected) (lines h)) as Hr.
  { rewrite <- group_texts_lines; [|done|].
    2: { intros line Hk. unfold seen. destruct (resolve_kind _ _ _); [by apply Hm|done]. }
    destruct selected as [selected|]; cbn [resolve_render_groups].
    - rewrite emitted_resolve_runs; [done|apply Hl|constructor|by apply groups_line_like].
    - apply emitted_unchanged. }
  unfold ordered_render_groups. destruct d; [exact Hr|].
  rewrite emitted_order_runs; [exact Hr| |constructor].
  destruct (Hg eq_refl) as [Hq|Hq]; [left|right]; intros g; unfold seen_group; [intros ->; apply Hq|].
  apply Hq.
Qed.

(** The three questions: a line of the source, a line kept from it, a line new in the
    result. *)
Definition ask_source (d : Direction) (k k' : DiffLineKind) : bool :=
  negb (is_eof_marker k) && on_source d k'.
Definition ask_kept (d : Direction) (k k' : DiffLineKind) : bool :=
  negb (is_eof_marker k) && negb (bool_decide (k = entering d)) && on_result d k'.
Definition ask_new (d : Direction) (k k' : DiffLineKind) : bool :=
  bool_decide (k = entering d) && on_result d k'.

Lemma ask_source_askable d : askable d (ask_source d).
Proof.
  split.
  - intros k k' Hk. unfold ask_source. by rewrite Hk.
  - intros selected. destruct d; [left|right]; intros line; unfold seen, ask_source; intros ->; cbn;
      by destruct (chosen selected line).
  - intros ->. right. intros k k' ??. unfold ask_source. apply andb_false_intro2. by destruct k'.
Qed.
Lemma ask_kept_askable d : askable d (ask_kept d).
Proof.
  split.
  - intros k k' Hk. unfold ask_kept. by rewrite Hk.
  - intros selected. destruct d; [left|right]; intros line; unfold seen, ask_kept; intros ->; cbn;
      by destruct (chosen selected line).
  - intros ->. left. intros k. unfold ask_kept. apply andb_false_r.
Qed.
Lemma ask_new_askable d : askable d (ask_new d).
Proof.
  split.
  - intros k k' Hk. unfold ask_new. rewrite bool_decide_false; [done|]. by destruct d, k.
  - intros selected. destruct d; [right|left]; intros line; unfold seen, ask_new; intros ->; cbn;
      by destruct (chosen selected line).
  - intros ->. left. intros k. unfold ask_new. apply andb_false_r.
Qed.

(** Rendered groups are lines. *)
Definition lines_only (gs : list RenderLineGroup) : Prop :=
  Forall (λ g, is_eof_marker (rg_original_kind g) = false) gs.

Lemma Forall_pairwise (P : LineGroup → Prop) ds adds :
  Forall P ds → Forall P adds → Forall P (pairwise ds adds).
Proof.
  intros Hd. revert adds. induction Hd as [|d ds Hd Hds IH]; intros adds Ha; cbn; [done|].
  destruct Ha as [|a adds Ha Hadds]; constructor; auto.
Qed.
Lemma resolve_runs_lines selected d groups run :
  Forall line_like groups → lines_only (resolve_runs selected d groups run).
Proof.
  assert (∀ run, lines_only (push_selected_change_run run selected d)) as Hpush.
  { intros run'. unfold lines_only, push_selected_change_run. apply list.Forall_forall.
    intros g (g0 & Hg0 & Hr)%list_elem_of_omap.
    assert (Forall line_like (pairwise (filter (λ g, lg_kind g = Deletion) run')
      (filter (λ g, lg_kind g = Addition) run'))) as Hall.
    { apply Forall_pairwise; apply list.Forall_forall; intros x [Hx _]%list_elem_of_filter;
        unfold line_like; by rewrite Hx. }
    rewrite list.Forall_forall in Hall. specialize (Hall g0 Hg0). unfold resolve_group in Hr.
    destruct (resolve_kind _ _ _); [|done]. by injection Hr as <-. }
  revert run. induction groups as [|g groups IH]; intros run; cbn [resolve_runs]; [done|].
  intros [Hg Hgs]%list.Forall_cons. case_bool_decide.
  - apply Forall_app. split; [apply Hpush|]. constructor; [exact Hg|by apply IH].
  - by apply IH.
Qed.
Lemma order_runs_lines gs run :
  lines_only run → lines_only gs → lines_only (order_runs gs run).
Proof.
  assert (∀ run, lines_only run → lines_only (drain_reversed_run run)) as Hdrain.
  { intros run' Hr. unfold lines_only, drain_reversed_run in *. rewrite list.Forall_forall in *.
    intros g [[_ Hg]%list_elem_of_filter|[_ Hg]%list_elem_of_filter]%elem_of_app; auto. }
  revert run. induction gs as [|g gs IH]; intros run Hr; cbn [order_runs]; [intros _; by apply Hdrain|].
  intros [Hg Hgs]%list.Forall_cons. case_bool_decide.
  - apply Forall_app. split; [by apply Hdrain|]. constructor; [done|]. apply IH; [constructor|done].
  - apply IH; [|done]. apply Forall_app. split; [done|by constructor].
Qed.
Lemma rendered_lines_only d h selected : hunk_wf h → lines_only (ordered_render_groups h selected d).
Proof.
  intros Hwf. pose proof (groups_line_like h Hwf) as Hl.
  assert (lines_only (resolve_render_groups h selected d)) as Hr.
  { destruct selected; cbn [resolve_render_groups]; [by apply resolve_runs_lines|].
    unfold lines_only. apply list.Forall_forall. intros g (g0 & -> & Hg0)%list_elem_of_fmap.
    rewrite list.Forall_forall in Hl. by apply Hl. }
  destruct d; [exact Hr|]. apply order_runs_lines; [constructor|exact Hr].
Qed.

Lemma emitted_lines_only P Q gs :
  lines_only gs → (∀ g, is_eof_marker (rg_original_kind g) = false → P g = Q g) → emitted P gs = emitted Q gs.
Proof.
  intros Hl HPQ. induction Hl as [|g gs Hg _ IH]; [done|]. by rewrite !emitted_cons, HPQ, IH.
Qed.

Lemma source_kept d h selected :
  hunk_wf h → source_image d (ordered_render_groups h selected d) = hunk_source d h.
Proof.
  intros Hwf. unfold source_image, hunk_source.
  rewrite (emitted_lines_only _ (seen_group (ask_source d))).
  - rewrite rendered_texts by (done || apply ask_source_askable). apply texts_ext. intros line.
    unfold seen, ask_source. cbn.
    destruct d, (kind line), (chosen selected line); reflexivity.
  - by apply rendered_lines_only.
  - intros g Hg. unfold seen_group, ask_source. by rewrite Hg.
Qed.

(** The result, in the two parts it interleaves. *)
Definition kept (d : Direction) (gs : list RenderLineGroup) : list (list N) :=
  emitted (λ g, on_result d (rg_kind g) && negb (bool_decide (rg_original_kind g = entering d))) gs.
Definition added (d : Direction) (gs : list RenderLineGroup) : list (list N) :=
  emitted (λ g, on_result d (rg_kind g) && bool_decide (rg_original_kind g = entering d)) gs.

Lemma result_kept d h selected :
  hunk_wf h →
  kept d (ordered_render_groups h selected d)
  = texts (λ line, on_source d (kind line)
                   && negb (bool_decide (kind line = leaving d) && chosen selected line)) (lines h).
Proof.
  intros Hwf. unfold kept. rewrite (emitted_lines_only _ (seen_group (ask_kept d))).
  - rewrite rendered_texts by (done || apply ask_kept_askable). apply texts_ext. intros line.
    unfold seen, ask_kept. destruct d, (kind line), (chosen selected line); reflexivity.
  - by apply rendered_lines_only.
  - intros g Hg. unfold seen_group, ask_kept. rewrite Hg. cbn. apply andb_comm.
Qed.
Lemma result_added d h selected :
  hunk_wf h →
  added d (ordered_render_groups h selected d)
  = texts (λ line, bool_decide (kind line = entering d) && chosen selected line) (lines h).
Proof.
  intros Hwf. unfold added. rewrite (emitted_ext _ (seen_group (ask_new d))).
  - rewrite rendered_texts by (done || apply ask_new_askable). apply texts_ext. intros line.
    unfold seen, ask_new. destruct d, (kind line), (chosen selected line); reflexivity.
  - intros g. unfold seen_group, ask_new. apply andb_comm.
Qed.

(** When every changed line is chosen nothing but the result side is left. *)
Definition ask_result (d : Direction) (k k' : DiffLineKind) : bool :=
  negb (is_eof_marker k) && on_result d k' && negb (bool_decide (k = leaving d)).
Lemma ask_result_askable d : askable d (ask_result d).
Proof.
  split.
  - intros k k' Hk. unfold ask_result. by rewrite Hk.
  - intros selected. destruct d; [right|left]; intros line; unfold seen, ask_result; intros ->; cbn;
      destruct (chosen selected line); try reflexivity; by rewrite ?andb_false_r.
  - intros ->. left. intros k. unfold ask_result. cbn. by rewrite andb_false_r.
Qed.

(** No group of a fully chosen hunk is converted. *)
Lemma resolved_unconverted d h selected g :
  (∀ line, line ∈ lines h → chosen selected line = true) →
  g ∈ ordered_render_groups h selected d → rg_kind g = rg_original_kind g.
Proof.
  intros Hall.
  assert (∀ g0, g0 ∈ line_groups (lines h) → lg_first g0 ∈ lines h) as Hfirst.
  { destruct (lines h) as [|line l] eqn:Hl; [by intros g0 ?%not_elem_of_nil|]. intros g0 Hg0.
    apply (list_elem_of_fmap_2 lg_first) in Hg0. unfold line_groups in Hg0.
    rewrite firsts_groups_from in Hg0. apply elem_of_cons in Hg0 as [->|[_ ?]%list_elem_of_filter];
      [by left|by right]. }
  assert (∀ g0 g, g0 ∈ line_groups (lines h) → ∀ sel, selected = Some sel →
    resolve_group sel d g0 = Some g → rg_kind g = rg_original_kind g) as Hone.
  { intros g0 g' Hg0 sel -> Hr. unfold resolve_group in Hr.
    specialize (Hall _ (Hfirst g0 Hg0)). cbn [chosen] in Hall. unfold is_selected in Hr. rewrite Hall in Hr.
    destruct (resolve_kind d (lg_kind g0) true) as [k|] eqn:Hk; [|done]. injection Hr as <-. cbn.
    destruct d, (lg_kind g0); cbn in Hk; congruence. }
  assert (∀ g, g ∈ resolve_render_groups h selected d → rg_kind g = rg_original_kind g) as Hres.
  { destruct selected as [sel|]; cbn [resolve_render_groups].
    2: { intros g' (g0 & -> & _)%list_elem_of_fmap. done. }
    assert (∀ gs run g, (∀ g0, g0 ∈ run ++ gs → g0 ∈ line_groups (lines h)) →
      g ∈ resolve_runs sel d gs run → rg_kind g = rg_original_kind g) as Hruns.
    { assert (∀ run g, (∀ g0, g0 ∈ run → g0 ∈ line_groups (lines h)) →
        g ∈ push_selected_change_run run sel d → rg_kind g = rg_original_kind g) as Hpush.
      { intros run g' Hrun (g0 & Hg0 & Hr)%list_elem_of_omap.
        eapply (Hone g0 g'); [|reflexivity|exact Hr]. apply Hrun.
        assert (Forall (λ x, x ∈ run) (pairwise (filter (λ g, lg_kind g = Deletion) run)
          (filter (λ g, lg_kind g = Addition) run))) as Hsub.
        { apply Forall_pairwise; apply list.Forall_forall; by intros x [_ ?]%list_elem_of_filter. }
        rewrite list.Forall_forall in Hsub. by apply Hsub. }
      induction gs as [|g0 gs IH]; intros run g' Hin; cbn [resolve_runs].
      - apply Hpush. intros g1 ?. apply Hin. rewrite app_nil_r. done.
      - case_bool_decide.
        + intros [Hg|[->|Hg]%elem_of_cons]%elem_of_app; [|done|].
          * eapply Hpush; [|exact Hg]. intros g1 ?. apply Hin. apply elem_of_app. by left.
          * eapply IH; [|exact Hg]. intros g1 ?. apply Hin. apply elem_of_app. right. by right.
        + apply IH. intros g1. rewrite <- app_assoc. apply Hin. }
    intros g'. apply Hruns. done. }
  unfold ordered_render_groups. destruct d; [apply Hres|].
  assert (∀ gs run g, g ∈ order_runs gs run → g ∈ run ++ gs) as Horder.
  { assert (∀ run g, g ∈ drain_reversed_run run → g ∈ run) as Hdrain
      by (by intros run g' [[_ ?]%list_elem_of_filter|[_ ?]%list_elem_of_filter]%elem_of_app).
    induction gs as [|g0 gs IH]; intros run g'; cbn [order_runs].
    - rewrite app_nil_r. apply Hdrain.
    - case_bool_decide.
      + intros [Hg%Hdrain|[->|Hg%IH]%elem_of_cons]%elem_of_app; apply elem_of_app; [by left|right..];
          [by left|by right].
      + intros Hg%IH. by rewrite <- app_assoc in Hg. }
  intros Hg%Horder. by apply Hres.
Qed.

Lemma result_whole d h selected :
  hunk_wf h → (∀ line, line ∈ lines h → chosen selected line = true) →
  result_image d (ordered_render_groups h selected d) = hunk_result d h.
Proof.
  intros Hwf Hall. pose proof (rendered_lines_only d h selected Hwf) as Hlines.
  pose proof (resolved_unconverted d h selected) as Hun.
  assert (result_image d (ordered_render_groups h selected d)
    = emitted (seen_group (ask_result d)) (ordered_render_groups h selected d)) as ->.
  { unfold result_image. revert Hlines Hun. generalize (ordered_render_groups h selected d).
    induction 1 as [|g gs Hg _ IH]; intros Hun; [done|]. rewrite !emitted_cons, IH.
    - unfold seen_group, ask_result. cbn. rewrite Hg, (Hun g Hall) by (by left). cbn.
      destruct d, (rg_original_kind g); reflexivity.
    - intros g' _ Hg'. apply Hun; [done|by right]. }
  rewrite rendered_texts by (done || apply ask_result_askable). unfold hunk_result.
  clear -Hall. induction (lines h) as [|line l IH]; [done|]. rewrite !texts_cons.
  rewrite IH by (intros; apply Hall; by right). f_equal.
  unfold seen, ask_result, compose. rewrite Hall by (by left). destruct d, (kind line); reflexivity.
Qed.

(** A context line separates what is before it from what is after it. *)
Definition with_lines (h : Hunk) (l : list DiffLine) : Hunk :=
  MkHunk (old_start h) (old_lines h) (new_start h) (new_lines h) (header h)
    (intra_line_degradation h) l.

Lemma groups_from_app g l line l' :
  is_eof_marker (kind line) = false →
  groups_from g (l ++ line :: l') = groups_from g l ++ groups_from (MkLineGroup line []) l'.
Proof.
  intros Hm. revert g. induction l as [|x l IH]; intros g; cbn; [by rewrite Hm|].
  destruct (is_eof_marker (kind x)); rewrite IH; done.
Qed.
Lemma line_groups_app l line l' :
  is_eof_marker (kind line) = false →
  line_groups (l ++ line :: l') = line_groups l ++ line_groups (line :: l').
Proof. intros Hm. destruct l as [|x l]; [done|]. by apply groups_from_app. Qed.
Lemma line_groups_cons line l :
  match l with [] => True | x :: _ => is_eof_marker (kind x) = false end →
  line_groups (line :: l) = MkLineGroup line [] :: line_groups l.
Proof. destruct l as [|x l]; [done|]. cbn. by intros ->. Qed.

Lemma resolve_runs_app selected d gs g gs' run :
  lg_kind g = Context →
  resolve_runs selected d (gs ++ g :: gs') run
  = resolve_runs selected d gs run ++ unchanged g :: resolve_runs selected d gs' [].
Proof.
  intros Hg. revert run. induction gs as [|x gs IH]; intros run; cbn.
  - by rewrite bool_decide_true.
  - case_bool_decide; rewrite IH; [by rewrite <- app_assoc|done].
Qed.
Lemma order_runs_app gs g gs' run :
  rg_kind g = Context → order_runs (gs ++ g :: gs') run = order_runs gs run ++ g :: order_runs gs' [].
Proof.
  intros Hg. revert run. induction gs as [|x gs IH]; intros run; cbn.
  - by rewrite bool_decide_true.
  - case_bool_decide; rewrite IH; [by rewrite <- app_assoc|done].
Qed.

Lemma rendering_splits d h l line l' selected :
  kind line = Context → hunk_wf (with_lines h l') →
  ordered_render_groups (with_lines h (l ++ line :: l')) selected d
  = ordered_render_groups (with_lines h l) selected d
    ++ unchanged (MkLineGroup line []) :: ordered_render_groups (with_lines h l') selected d.
Proof.
  intros Hc Hwf. unfold ordered_render_groups.
  assert (resolve_render_groups (with_lines h (l ++ line :: l')) selected d
    = resolve_render_groups (with_lines h l) selected d
      ++ unchanged (MkLineGroup line []) :: resolve_render_groups (with_lines h l') selected d) as Hr.
  { unfold resolve_render_groups. cbn [lines with_lines].
    rewrite line_groups_app by (by rewrite Hc). rewrite line_groups_cons by exact Hwf.
    destruct selected; [by apply resolve_runs_app|by rewrite fmap_app]. }
  rewrite Hr. destruct d; [done|]. by apply order_runs_app.
Qed.

Lemma result_parts d gs : added d gs = [] → result_image d gs = kept d gs.
Proof.
  unfold added, kept, result_image. induction gs as [|g gs IH]; [done|].
  rewrite !emitted_cons. cbn. destruct (on_result d (rg_kind g)), (bool_decide _); cbn; [done|..];
    intros Hn; by rewrite IH.
Qed.

(** What staging, unstaging or discarding chosen lines of a hunk renders. For every
    hunk, every choice of its lines and both directions: the patch's source side is the
    hunk's, line for line, so it applies where the hunk was read; its result side
    interleaves exactly the source lines that were not chosen to leave with the lines
    chosen to enter, each in the file's order, and nothing crosses a context line; a
    choice of every line gives the hunk's other side, and a choice of none changes
    nothing. *)
Theorem rendering_is_what_was_chosen (d : Direction) (h : Hunk) (selected : option (list LineCoordinates)) :
  hunk_wf h →
  let gs := ordered_render_groups h selected d in
  source_image d gs = hunk_source d h
  ∧ kept d gs = texts (λ line, on_source d (kind line)
      && negb (bool_decide (kind line = leaving d) && chosen selected line)) (lines h)
  ∧ added d gs = texts (λ line, bool_decide (kind line = entering d) && chosen selected line) (lines h)
  ∧ (∀ l line l', lines h = l ++ line :: l' → kind line = Context → hunk_wf (with_lines h l') →
      result_image d gs = result_image d (ordered_render_groups (with_lines h l) selected d)
        ++ content line :: result_image d (ordered_render_groups (with_lines h l') selected d))
  ∧ ((∀ line, line ∈ lines h → chosen selected line = true) → result_image d gs = hunk_result d h)
  ∧ ((∀ line, line ∈ lines h → chosen selected line = false) → result_image d gs = hunk_source d h).
Proof.
  intros Hwf gs. split; [by apply source_kept|]. split; [by apply result_kept|].
  split; [by apply result_added|]. split; [|split; [by apply result_whole|]].
  - intros l line l' Hl Hc Hwf'. unfold gs.
    assert (h = with_lines h (l ++ line :: l')) as Hh by (rewrite <- Hl; by destruct h).
    rewrite Hh at 1. rewrite rendering_splits by done. unfold result_image.
    rewrite emitted_app, emitted_cons. unfold compose, unchanged, rendered_as, lg_kind. cbn [rg_kind rg_first lg_first].
    rewrite Hc. by destruct d.
  - intros Hnone. unfold gs. rewrite result_parts.
    + rewrite result_kept by done. unfold hunk_source. clear -Hnone.
      induction (lines h) as [|line l IH]; [done|]. rewrite !texts_cons.
      rewrite IH by (intros; apply Hnone; by right). cbn.
      by rewrite Hnone, andb_false_r, andb_true_r by (by left).
    + rewrite result_added by done. clear -Hnone.
      induction (lines h) as [|line l IH]; [done|]. rewrite texts_cons.
      rewrite IH by (intros; apply Hnone; by right). by rewrite Hnone, andb_false_r by (by left).
Qed.

(** Of [two/last] against [TWO/LAST] only [two] against [TWO] is staged. *)
Definition demo_selected : option (list LineCoordinates) :=
  Some [MkLineCoordinates (Some 2%N) None; MkLineCoordinates None (Some 2%N)].
Lemma rendering_is_what_was_chosen_witness :
  let gs := ordered_render_groups demo_hunk demo_selected Forward in
  source_image Forward gs = hunk_source Forward demo_hunk
  ∧ result_image Forward gs
    = (λ s, utf8_bytes s ++ [10%N]) <$> ["one"; "TWO"; "last"]%string.
Proof.
  split; [|reflexivity].
  exact (proj1 (rendering_is_what_was_chosen Forward demo_hunk demo_selected eq_refl)).
Defined.
