(* ===== verification/Apply.v ===== *)
(** * Applying a rendered patch

    What a diff says of two files, what a patch does to one, and the theorem that joins
    them: the patch [Render] renders for a batch of selections applies to the file it was
    read from and leaves that file with the chosen changes made.  Also the end-of-file
    refusal and the quoting of paths. *)

From Stdlib Require Import ZArith ZifyN ZifyBool Sorted.
From stdpp Require Import base decidable list sorting strings.
From S2P Require Import Prelude Subject Hunk Render Patch.

Abbreviation file_lines := (list (list N)).

(** ** A diff of two files *)

(** A side that has no lines sits at the line before it. *)
Definition anchor (before : nat) (side : file_lines) : N :=
  match side with [] => N.of_nat before | _ => N.of_nat before + 1 end.
Definition start_of (d : Direction) (h : Hunk) : N :=
  match d with Forward => old_start h | Reverse => new_start h end.
Definition has_context (h : Hunk) : Prop := ∃ line, line ∈ lines h ∧ kind line = Context.

(** [describes d i source result hs]: the hunks [hs] are what differs between the two
    files from line [i] of the source on.  A hunk has a line of context, or there is one
    hunk and it is the whole of both files. *)
Inductive describes (d : Direction) : nat → file_lines → file_lines → list Hunk → Prop :=
| describes_rest i rest : describes d i rest rest []
| describes_whole h :
    hunk_wf h → start_of d h = anchor 0 (hunk_source d h) →
    describes d 0 (hunk_source d h) (hunk_result d h) [h]
| describes_hunk i gap h source result hs :
    hunk_wf h → has_context h → start_of d h = anchor (i + length gap) (hunk_source d h) →
    describes d (i + length gap + length (hunk_source d h)) source result hs →
    describes d i (gap ++ hunk_source d h ++ source) (gap ++ hunk_result d h ++ result) (h :: hs).

(** What is chosen of each hunk: nothing, or the whole, or some of its lines. *)
Abbreviation choice := (option (option (list LineCoordinates))).
(** A line is in the image when it is context, enters and was chosen, or leaves and was not.
    The image is of the file's own lines; it does not mention the renderer. *)
Definition in_image (d : Direction) (selected : option (list LineCoordinates)) (line : DiffLine) : bool :=
  if bool_decide (kind line = Context) then true
  else if bool_decide (kind line = entering d) then chosen selected line
  else bool_decide (kind line = leaving d) && negb (chosen selected line).
(** A run of changed lines is taken pair by pair: the first deletion, the first addition, the
    second deletion, and so on. *)
Fixpoint paired {A} (deletions additions : list A) : list A :=
  match deletions, additions with
  | [], additions => additions
  | deletions, [] => deletions
  | deletion :: deletions, addition :: additions => deletion :: addition :: paired deletions additions
  end.
Fixpoint image_of (keep : DiffLine → bool) (l deletions additions : list DiffLine) : file_lines :=
  match l with
  | [] => texts keep (paired deletions additions)
  | line :: l =>
    match kind line with
    | Context => texts keep (paired deletions additions) ++ content line :: image_of keep l [] []
    | Deletion => image_of keep l (deletions ++ [line]) additions
    | Addition => image_of keep l deletions (additions ++ [line])
    | _ => image_of keep l deletions additions
    end
  end.
Definition chosen_image (d : Direction) (h : Hunk) (c : choice) : file_lines :=
  match c with
  | None => hunk_source d h
  | Some selected => image_of (in_image d selected) (lines h) [] []
  end.

(** [merged d i source merged hs]: the source with the chosen changes made. *)
Inductive merged (d : Direction) : nat → file_lines → file_lines → list (Hunk * choice) → Prop :=
| merged_rest i rest : merged d i rest rest []
| merged_whole h c :
    hunk_wf h → start_of d h = anchor 0 (hunk_source d h) →
    merged d 0 (hunk_source d h) (chosen_image d h c) [(h, c)]
| merged_hunk i gap h c source result hs :
    hunk_wf h → has_context h → start_of d h = anchor (i + length gap) (hunk_source d h) →
    merged d (i + length gap + length (hunk_source d h)) source result hs →
    merged d i (gap ++ hunk_source d h ++ source) (gap ++ chosen_image d h c ++ result) ((h, c) :: hs).

(** ** A patch and its application *)

(** One hunk of a patch: where its result starts, and its two sides. *)
Record PatchHunk := MkPatchHunk { pt_start : N; pt_source : file_lines; pt_result : file_lines }.
Fixpoint patch_hunks (d : Direction) (rendered : list RenderedHunk) (drift : Z) : list PatchHunk :=
  match rendered with
  | [] => []
  | h :: rendered =>
    MkPatchHunk (result_start (source_lines h) (result_lines h) (source_start h) drift)
      (source_image d (groups h)) (result_image d (groups h))
    :: patch_hunks d rendered (render_hunk d h drift).2
  end.

(** The image is walked from what the earlier hunks have made of it; a hunk replaces its
    source side, which must be there, at the line its result starts. *)
Definition apply_hunk (image : file_lines) (p : PatchHunk) : option file_lines :=
  let at_ := N.to_nat (N.pred (pt_start p)) in
  if bool_decide (take (length (pt_source p)) (drop at_ image) = pt_source p)
  then Some (take at_ image ++ pt_result p ++ drop (at_ + length (pt_source p)) image)
  else None.
Fixpoint apply_patch (image : file_lines) (ps : list PatchHunk) : option file_lines :=
  match ps with
  | [] => Some image
  | p :: ps => image ← apply_hunk image p; apply_patch image ps
  end.

(** ** Counts *)

Lemma count_groups d gs a b :
  (a ≤ U32_MAX)%N → (b ≤ U32_MAX)%N →
  fold_left (count_group d) gs (a, b)
  = (N.min (a + N.of_nat (length (source_image d gs))) U32_MAX,
     N.min (b + N.of_nat (length (result_image d gs))) U32_MAX).
Proof.
  revert a b. induction gs as [|g gs IH]; intros a b Ha Hb.
  - cbn [fold_left source_image result_image]. unfold source_image, result_image, emitted. cbn. f_equal; lia.
  - cbn [fold_left]. unfold source_image, result_image in *. rewrite !emitted_cons, !length_app.
    assert (∃ x y, count_group d (a, b) g = (N.min (a + N.of_nat x) U32_MAX, N.min (b + N.of_nat y) U32_MAX)
      ∧ x = length (if (on_source d ∘ rg_kind) g then [content (rg_first g)] else [])
      ∧ y = length (if (on_result d ∘ rg_kind) g then [content (rg_first g)] else []))
      as (x & y & -> & <- & <-).
    { eexists _, _. split; [|split; reflexivity]. unfold count_group, compose, saturating_add_u32.
      destruct d, (rg_kind g); cbn; f_equal; lia. }
    rewrite IH by lia. f_equal; lia.
Qed.

Lemma plan_counts d p :
  source_lines (plan_hunk d p) = N.min (N.of_nat (length (source_image d (groups (plan_hunk d p))))) U32_MAX
  ∧ result_lines (plan_hunk d p) = N.min (N.of_nat (length (result_image d (groups (plan_hunk d p))))) U32_MAX.
Proof.
  unfold plan_hunk. cbn [source_lines result_lines groups].
  rewrite count_groups by (unfold U32_MAX; lia). split; cbn; f_equal; lia.
Qed.

(** What is rendered of a hunk is no longer than the hunk, and has its context. *)
Lemma texts_length P l : length (texts P l) ≤ length l.
Proof.
  unfold texts. rewrite length_fmap. apply length_filter.
Qed.
Lemma emitted_elem P g gs : g ∈ gs → P g = true → emitted P gs ≠ [].
Proof.
  intros Hg HP He. assert (content (rg_first g) ∈ emitted P gs) as Hin.
  { unfold emitted. apply (list_elem_of_fmap_2 (content ∘ rg_first)). by apply list_elem_of_filter. }
  rewrite He in Hin. by apply not_elem_of_nil in Hin.
Qed.

Lemma texts_nonempty P line l : line ∈ l → P line = true → texts P l ≠ [].
Proof.
  intros Hl HP He. assert (content line ∈ texts P l) as Hin.
  { unfold texts. apply list_elem_of_fmap_2. by apply list_elem_of_filter. }
  rewrite He in Hin. by apply not_elem_of_nil in Hin.
Qed.
Lemma context_source d h : has_context h → hunk_source d h ≠ [].
Proof. intros (line & Hl & Hk). eapply texts_nonempty; [exact Hl|]. cbn. rewrite Hk. by destruct d. Qed.

Lemma emitted_kept_added d gs x :
  x ∈ kept d gs ∨ x ∈ added d gs → x ∈ result_image d gs.
Proof.
  unfold kept, added, result_image, emitted.
  intros [(g & -> & [Hq Hg]%list_elem_of_filter)%list_elem_of_fmap
         |(g & -> & [Hq Hg]%list_elem_of_filter)%list_elem_of_fmap];
    apply (list_elem_of_fmap_2 (content ∘ rg_first)), list_elem_of_filter; (split; [|done]);
    by apply andb_true_iff in Hq as [? _].
Qed.
Lemma context_result d h selected :
  hunk_wf h → has_context h → result_image d (ordered_render_groups h selected d) ≠ [].
Proof.
  intros Hwf (line & Hl & Hk) He.
  assert (content line ∈ result_image d (ordered_render_groups h selected d)) as Hin.
  { apply emitted_kept_added. left. rewrite result_kept by done. unfold texts.
    apply list_elem_of_fmap_2, list_elem_of_filter. split; [|done]. rewrite Hk. by destruct d. }
  rewrite He in Hin. by apply not_elem_of_nil in Hin.
Qed.

(** ** The image of a choice is what is rendered *)

Lemma texts_none P l : (∀ line, line ∈ l → P line = false) → texts P l = [].
Proof.
  induction l as [|line l IH]; intros HP; [done|]. rewrite texts_cons, HP by (by left). apply IH. intros x Hx. apply HP. by right.
Qed.
Lemma texts_paired P ds adds :
  (∀ line, line ∈ ds → P line = false) ∨ (∀ line, line ∈ adds → P line = false) →
  texts P (paired ds adds) = texts P ds ++ texts P adds.
Proof.
  revert adds. induction ds as [|x ds IH]; intros adds Hn; [done|]. destruct adds as [|a adds]; cbn [paired].
  - by rewrite app_nil_r.
  - rewrite !texts_cons, IH by (destruct Hn as [Hn|Hn]; [left|right]; intros l Hl; apply Hn; by right).
    destruct Hn as [Hn|Hn].
    + rewrite (Hn x) by by left. rewrite (texts_none P ds) by (intros l Hl; apply Hn; by right). done.
    + rewrite (Hn a) by by left. rewrite (texts_none P adds) by (intros l Hl; apply Hn; by right).
      by rewrite !app_nil_r, !app_nil_l.
Qed.

(** Of a hunk chosen whole, the result side. *)
Lemma in_image_whole d line : in_image d None line = on_result d (kind line).
Proof. unfold in_image. by destruct d, (kind line). Qed.
Lemma image_of_whole d l ds adds :
  Forall (λ line, kind line = Deletion) ds → Forall (λ line, kind line = Addition) adds →
  image_of (in_image d None) l ds adds
  = texts (on_result d ∘ kind) ds ++ texts (on_result d ∘ kind) adds ++ texts (on_result d ∘ kind) l.
Proof.
  assert (∀ l, texts (in_image d None) l = texts (on_result d ∘ kind) l) as Ht
    by (intros l'; apply texts_ext; intros line; apply in_image_whole).
  assert (∀ ds adds, Forall (λ line, kind line = Deletion) ds → Forall (λ line, kind line = Addition) adds →
    texts (in_image d None) (paired ds adds) = texts (on_result d ∘ kind) ds ++ texts (on_result d ∘ kind) adds) as Hp.
  { intros ds' adds' Hd Ha. rewrite Ht. apply texts_paired. rewrite list.Forall_forall in Hd, Ha.
    destruct d; [left|right]; intros line Hl; cbn; [by rewrite (Hd line)|by rewrite (Ha line)]. }
  assert (∀ x P, texts P [x] = if P x then [content x] else []) as H1 by (intros x P; rewrite texts_cons; apply app_nil_r).
  revert ds adds. induction l as [|line l IH]; intros ds adds Hd Ha; cbn [image_of].
  - rewrite Hp by done. cbn [texts]. by rewrite app_nil_r.
  - rewrite texts_cons. unfold compose at 3. destruct (kind line) eqn:Hk.
    + rewrite Hp, IH by (done || constructor). destruct d; cbn; by rewrite <- app_assoc.
    + rewrite IH; [|done|by apply Forall_app; split; [|constructor; [|constructor]]].
      rewrite texts_app, H1. unfold compose at 3. rewrite Hk. by rewrite <- !app_assoc.
    + rewrite IH; [|by apply Forall_app; split; [|constructor; [|constructor]]|done].
      rewrite texts_app, H1. unfold compose at 2. rewrite Hk. rewrite <- !app_assoc. f_equal.
      destruct d; [done|]. rewrite (texts_none _ adds); [done|].
      rewrite list.Forall_forall in Ha. intros line' Hl. cbn. by rewrite (Ha line').
    + rewrite IH by done. by destruct d.
    + rewrite IH by done. by destruct d.
    + rewrite IH by done. by destruct d.
Qed.

Lemma firsts_pairwise ds adds : lg_first <$> pairwise ds adds = paired (lg_first <$> ds) (lg_first <$> adds).
Proof.
  revert adds. induction ds as [|x ds IH]; intros [|a adds]; [done..|]. cbn. by rewrite IH.
Qed.
Definition ask_image (d : Direction) (k k' : DiffLineKind) : bool := negb (is_eof_marker k) && on_result d k'.
Lemma seen_in_image d selected line :
  seen d (ask_image d) (Some selected) line = in_image d (Some selected) line.
Proof. unfold seen, ask_image, in_image. by destruct d, (kind line), (chosen (Some selected) line). Qed.
Lemma image_of_groups d selected groups run :
  Forall changed_like run → Forall line_like groups →
  emitted (seen_group (ask_image d)) (resolve_runs selected d groups run)
  = image_of (in_image d (Some selected)) (lg_first <$> groups)
      (lg_first <$> filter (λ g, lg_kind g = Deletion) run) (lg_first <$> filter (λ g, lg_kind g = Addition) run).
Proof.
  assert (∀ run, emitted (seen_group (ask_image d)) (push_selected_change_run run selected d)
    = texts (in_image d (Some selected)) (paired (lg_first <$> filter (λ g, lg_kind g = Deletion) run)
        (lg_first <$> filter (λ g, lg_kind g = Addition) run))) as Hpush.
  { intros run'. unfold push_selected_change_run. rewrite emitted_resolved. unfold group_texts. rewrite firsts_pairwise.
    apply texts_ext. apply seen_in_image. }
  revert run. induction groups as [|g groups IH]; intros run Hrun Hg; cbn [resolve_runs fmap list_fmap image_of].
  - apply Hpush.
  - apply list.Forall_cons in Hg as [Hg Hgs]. unfold lg_kind in IH |- *. case_bool_decide as Hc.
    + rewrite Hc, emitted_app, emitted_cons, Hpush, IH by (done || constructor). f_equal.
      unfold seen_group, ask_image. cbn. unfold lg_kind. rewrite Hc. by destruct d.
    + rewrite IH; [|apply Forall_app; split; [done|]; constructor; [|constructor]|done].
      * rewrite !filter_app, !fmap_app. unfold line_like, lg_kind in Hg. 
        destruct (kind (lg_first g)) eqn:Hk; try done;
          rewrite !filter_cons, !filter_nil; unfold lg_kind; rewrite Hk; cbn; by rewrite ?app_nil_r.
      * unfold line_like, changed_like, lg_kind in *. destruct (kind (lg_first g)); try done; auto.
Qed.
Lemma image_of_lines keep l ds adds :
  image_of keep (filter (λ line, is_eof_marker (kind line) = false) l) ds adds = image_of keep l ds adds.
Proof.
  revert ds adds. induction l as [|line l IH]; intros ds adds; [done|]. rewrite filter_cons.
  destruct (kind line) eqn:Hk; cbn [is_eof_marker]; rewrite ?decide_True, ?decide_False by done; cbn [image_of];
    rewrite ?Hk; by rewrite ?IH.
Qed.
Lemma chosen_image_rendered d h selected :
  hunk_wf h → chosen_image d h (Some selected) = result_image d (ordered_render_groups h selected d).
Proof.
  intros Hwf. cbn [chosen_image]. destruct selected as [selected|].
  2: { rewrite result_whole by done. rewrite image_of_whole by constructor. done. }
  pose proof (rendered_lines_only d h (Some selected) Hwf) as Hlines.
  assert (result_image d (ordered_render_groups h (Some selected) d)
    = emitted (seen_group (ask_image d)) (resolve_runs selected d (line_groups (lines h)) [])) as ->.
  { transitivity (emitted (seen_group (ask_image d)) (ordered_render_groups h (Some selected) d)).
    - unfold result_image. apply emitted_lines_only; [done|]. intros g Hg. unfold seen_group, ask_image. by rewrite Hg.
    - destruct d; [done|]. cbn [ordered_render_groups resolve_render_groups].
      rewrite emitted_order_runs; [done| |constructor]. left. intros g Hg. unfold seen_group, ask_image. rewrite Hg.
      apply andb_false_r. }
  rewrite image_of_groups by (constructor || by apply groups_line_like). cbn [filter list_filter fmap list_fmap].
  unfold hunk_wf in Hwf. destruct (lines h) as [|line l]; [done|]. unfold line_groups. rewrite firsts_groups_from.
  cbn [lg_first]. rewrite <- (image_of_lines _ (line :: l)), filter_cons_True by done. done.
Qed.

(** ** The patch applies *)

Definition prepared_of (c : Hunk * choice) : option PreparedHunk :=
  (λ selected, MkPreparedHunk c.1 selected) <$> c.2.
Definition in_u32 (n : nat) : Prop := (N.of_nat n < U32_MAX)%N.

Lemma anchor_nonempty n side : side ≠ [] → anchor n side = (N.of_nat n + 1)%N.
Proof. by destruct side. Qed.

Lemma apply_at pre gap src result rest start :
  N.to_nat (N.pred start) = length pre + length gap →
  apply_hunk (pre ++ gap ++ src ++ rest) (MkPatchHunk start src result)
  = Some (pre ++ gap ++ result ++ rest).
Proof.
  intros Hat. unfold apply_hunk. cbn [pt_start pt_source pt_result]. rewrite Hat.
  rewrite <- (length_app pre gap), !(app_assoc pre gap).
  assert (drop (length (pre ++ gap)) ((pre ++ gap) ++ src ++ rest) = src ++ rest) as Hd
    by apply drop_app_length.
  rewrite <- drop_drop, Hd, bool_decide_true by apply take_app_length.
  by rewrite take_app_length, drop_app_length, <- !app_assoc.
Qed.

Lemma plan_start d p : source_start (plan_hunk d p) = start_of d (ph_hunk p).
Proof. by destruct d. Qed.
Lemma plan_source d h selected :
  hunk_wf h → source_image d (groups (plan_hunk d (MkPreparedHunk h selected))) = hunk_source d h.
Proof. apply source_kept. Qed.

Lemma apply_merged d i src exp picks :
  merged d i src exp picks → ∀ pre drift,
  (i = 0 → pre = []) → drift = (Z.of_nat (length pre) - Z.of_nat i)%Z →
  in_u32 (i + length src) → in_u32 (length pre + length exp) →
  apply_patch (pre ++ src) (patch_hunks d (plan_hunk d <$> omap prepared_of picks) drift)
  = Some (pre ++ exp).
Proof.
  induction 1 as [i rest|h c Hwf Hstart|i gap h c src exp hs Hwf Hctx Hstart _ IH];
    intros pre drift Hpre Hdrift Hsrc Hexp; [done|..].
  - rewrite (Hpre eq_refl) in *. cbn [app length] in *. destruct c as [selected|]; [|done].
    cbn [omap list_omap prepared_of fmap option_fmap option_map list_fmap patch_hunks apply_patch snd fst].
    rewrite plan_source by done.
    pose proof (plan_counts d (MkPreparedHunk h selected)) as [Hs Hr]. rewrite plan_source in Hs by done.
    change (groups (plan_hunk d (MkPreparedHunk h selected))) with (ordered_render_groups h selected d) in *.
    rewrite <- chosen_image_rendered in * by done.
    rewrite (apply_at [] [] (hunk_source d h) (chosen_image d h (Some selected)) []
      ) || (rewrite <- (app_nil_r (hunk_source d h)) at 1;
            rewrite (apply_at [] [] (hunk_source d h) (chosen_image d h (Some selected)) [])).
    + cbn. by rewrite app_nil_r.
    + rewrite Hr, plan_start. cbn [ph_hunk]. rewrite Hstart. unfold result_start, in_u32, U32_MAX in *.
      cbn [length] in *. subst drift. destruct (hunk_source d h); cbn [anchor length];
        destruct (N.eqb_spec (N.min (N.of_nat (length (chosen_image d h (Some selected)))) (2 ^ 32 - 1)) 0); lia.
  - assert (length (hunk_source d h) ≠ 0) as Hsrc0
      by (intros ?%nil_length_inv; by apply (context_source d h)).
    rewrite !length_app in *. destruct c as [selected|].
    + cbn [omap list_omap prepared_of fmap option_fmap option_map list_fmap patch_hunks apply_patch snd fst].
      rewrite plan_source by done.
      pose proof (plan_counts d (MkPreparedHunk h selected)) as [Hs Hr]. rewrite plan_source in Hs by done.
      change (groups (plan_hunk d (MkPreparedHunk h selected))) with (ordered_render_groups h selected d) in *.
      rewrite <- chosen_image_rendered in * by done.
      assert (chosen_image d h (Some selected) ≠ []) as Hne
        by (rewrite chosen_image_rendered by done; by apply context_result).
      assert (length (chosen_image d h (Some selected)) ≠ 0) as Hlen
        by (by intros ?%nil_length_inv).
      rewrite plan_start. cbn [ph_hunk]. rewrite Hstart, anchor_nonempty by by apply context_source.
      unfold in_u32, U32_MAX in *.
      rewrite apply_at.
      * cbn [mbind option_bind]. rewrite !(app_assoc pre), (app_assoc (pre ++ gap)), IH;
          rewrite ?length_app; [by rewrite <- !app_assoc|lia| |unfold in_u32, U32_MAX in *; lia..].
        cbn [render_hunk snd]. rewrite Hs, Hr. lia.
      * rewrite Hr. unfold result_start, U32_MAX.
        destruct (N.eqb_spec (N.min (N.of_nat (length (chosen_image d h (Some selected)))) (2 ^ 32 - 1)) 0); lia.
    + cbn [omap list_omap prepared_of fmap option_fmap option_map snd chosen_image] in *.
      rewrite !(app_assoc pre), !(app_assoc (pre ++ gap)), IH; rewrite ?length_app;
        [done|lia|lia|unfold in_u32 in *; lia|unfold in_u32 in *; lia].
Qed.

(** ** The order of the hunks *)

Lemma insert_by_perm d p l : insert_by d p l ≡ₚ p :: l.
Proof.
  induction l as [|q l IH]; cbn [insert_by]; [done|].
  destruct (key_leb _ _); [done|]. by rewrite IH, Permutation_swap.
Qed.
Lemma sort_hunks_perm d l : sort_hunks d l ≡ₚ l.
Proof. induction l as [|p l IH]; [done|]. cbn. rewrite insert_by_perm. by constructor. Qed.

Definition key_le (d : Direction) (p q : PreparedHunk) : Prop :=
  key_leb (hunk_key d p) (hunk_key d q) = true.
Lemma key_leb_spec a b : key_leb a b = true ↔ (a.1 < b.1 ∨ a.1 = b.1 ∧ a.2 <= b.2)%N.
Proof. unfold key_leb. lia. Qed.
#[export] Instance key_le_trans d : Transitive (key_le d).
Proof. intros p q r. unfold key_le. rewrite !key_leb_spec. lia. Qed.

Lemma insert_by_sorted d p l : Sorted (key_le d) l → Sorted (key_le d) (insert_by d p l).
Proof.
  induction 1 as [|q l Hl IH Hq]; cbn [insert_by]; [by repeat constructor|].
  destruct (key_leb _ _) eqn:Hpq; [by repeat constructor|].
  assert (key_le d q p) as Hqp.
  { unfold key_le in *. apply not_true_iff_false in Hpq. rewrite key_leb_spec in *. lia. }
  constructor; [done|]. destruct l as [|r l]; cbn [insert_by] in *; [by constructor|].
  destruct (key_leb (hunk_key d p) (hunk_key d r)); constructor; [done|]. by inversion Hq.
Qed.
Lemma sort_hunks_sorted d l : StronglySorted (key_le d) (sort_hunks d l).
Proof.
  apply Sorted_StronglySorted; [apply _|]. induction l as [|p l IH]; [constructor|]. by apply insert_by_sorted.
Qed.

Lemma StronglySorted_at {A} (R : relation A) l i j x y :
  StronglySorted R l → l !! i = Some x → l !! j = Some y → i < j → R x y.
Proof.
  intros Hl. revert i j. induction Hl as [|z l Hl IH Hz]; intros i j Hi Hj Hij; [done|].
  destruct i as [|i], j as [|j]; cbn in *; simplify_eq; try lia.
  - rewrite list.Forall_forall in Hz. apply Hz. by eapply list_elem_of_lookup_2.
  - apply (IH i j); [done..|lia].
Qed.

Definition start_lt (d : Direction) (p q : PreparedHunk) : Prop :=
  (start_of d (ph_hunk p) < start_of d (ph_hunk q))%N.
Lemma start_lt_key d p q : start_lt d p q → key_le d p q ∧ ¬ key_le d q p.
Proof. unfold start_lt, key_le. rewrite !key_leb_spec. destruct d; cbn; lia. Qed.

(** Whatever order the hunks were prepared in, they are rendered in the file's. *)
Lemma sort_hunks_unique d batch l :
  StronglySorted (start_lt d) l → batch ≡ₚ l → sort_hunks d batch = l.
Proof.
  intros Hl Hp. symmetry. apply (StronglySorted_unique_strong (key_le d)).
  - intros p q Hpin Hqin Hpq Hqp. rewrite sort_hunks_perm, Hp in Hqin.
    apply list_elem_of_lookup in Hpin as [i Hi], Hqin as [j Hj].
    destruct (Nat.lt_trichotomy i j) as [Hij|[->|Hij]]; [|congruence|];
      exfalso.
    + by destruct (start_lt_key d p q (StronglySorted_at _ _ _ _ _ _ Hl Hi Hj Hij)).
    + by destruct (start_lt_key d q p (StronglySorted_at _ _ _ _ _ _ Hl Hj Hi Hij)).
  - clear Hp. induction Hl as [|p l Hl IH Hf]; constructor; [done|].
    eapply List.Forall_impl; [|exact Hf]. intros q. by intros []%start_lt_key.
  - apply sort_hunks_sorted.
  - by rewrite sort_hunks_perm.
Qed.

Lemma merged_starts d i src exp picks :
  merged d i src exp picks →
  StronglySorted (start_lt d) (omap prepared_of picks)
  ∧ (0 < i → Forall (λ p, N.of_nat i < start_of d (ph_hunk p))%N (omap prepared_of picks)).
Proof.
  induction 1 as [i rest|h c Hwf Hstart|i gap h c src exp hs Hwf Hctx Hstart _ [IHs IHf]].
  - split; [constructor|]. constructor.
  - split; [|lia]. destruct c; cbn; repeat constructor.
  - assert (length (hunk_source d h) ≠ 0) as Hsrc0
      by (intros ?%nil_length_inv; by apply (context_source d h)).
    rewrite anchor_nonempty in Hstart by by apply context_source.
    specialize (IHf ltac:(lia)).
    destruct c as [c|]; cbn [omap list_omap prepared_of fmap option_fmap option_map fst snd].
    + split; [|intros _]; constructor; [done|..].
      * eapply List.Forall_impl; [|exact IHf]. intros q. unfold start_lt. cbn [ph_hunk]. rewrite Hstart. lia.
      * cbn [ph_hunk]. rewrite Hstart. lia.
      * eapply List.Forall_impl; [|exact IHf]. cbn. intros q. lia.
    + split; [done|]. intros _. eapply List.Forall_impl; [|exact IHf]. cbn. intros q. lia.
Qed.

(** A choice of each hunk of a diff has an image, which is the whole change when all of
    it is chosen and the source when none is. *)
Lemma describes_merged d i src res picks :
  describes d i src res picks.*1 →
  ∃ exp, merged d i src exp picks
    ∧ (Forall (λ c, c.2 = Some None) picks → exp = res)
    ∧ (Forall (λ c, c.2 = None) picks → exp = src).
Proof.
  intros Hd. remember picks.*1 as hs eqn:Hhs. revert picks Hhs.
  induction Hd as [i rest|h Hwf Hstart|i gap h src res hs Hwf Hctx Hstart Hd IH]; intros picks Hhs.
  - apply symmetry, fmap_nil_inv in Hhs as ->. exists rest. split; [constructor|done].
  - destruct picks as [|[h' c] [|? ?]]; try done. cbn in Hhs. injection Hhs as <-.
    exists (chosen_image d h c). split; [by constructor|].
    split; intros [Hc _]%list.Forall_cons; cbn in Hc; subst c; [|done].
    rewrite chosen_image_rendered by done. by apply result_whole.
  - destruct picks as [|[h' c] picks]; [done|]. cbn in Hhs. injection Hhs as -> ->.
    destruct (IH picks eq_refl) as (exp & Hm & Hall & Hnone).
    exists (gap ++ chosen_image d h' c ++ exp). split; [by constructor|].
    split; intros [Hc Hr]%list.Forall_cons; cbn in Hc; subst c.
    + rewrite Hall, chosen_image_rendered by done. by rewrite result_whole.
    + by rewrite Hnone.
Qed.

(** C27. The patch rendered for a batch applies, and makes the chosen changes and no
    others. Let the hunks be what differs between two files, and any part of each be
    chosen: nothing, the whole, or some of its changed lines. Then the patch rendered
    for the prepared hunks, in whatever order they were prepared, applies to the source
    file at the line numbers it states, each hunk finding its source side there after
    the ones before it. What it leaves is the source with each hunk replaced by its
    context, the entering lines that were chosen and the leaving lines that were not,
    in the order the two sides are paired in; it is the other file when everything is
    chosen and the source when nothing is. The files are shorter than the widest line
    count. *)
Theorem rendered_patch_applies d src res picks batch :
  describes d 0 src res picks.*1 → batch ≡ₚ omap prepared_of picks →
  ∃ exp, merged d 0 src exp picks
    ∧ (Forall (λ c, c.2 = Some None) picks → exp = res)
    ∧ (Forall (λ c, c.2 = None) picks → exp = src)
    ∧ (in_u32 (length src) → in_u32 (length exp) →
       apply_patch src (patch_hunks d (plan_hunk d <$> sort_hunks d batch) 0) = Some exp).
Proof.
  intros Hd Hb. destruct (describes_merged d 0 src res picks Hd) as (exp & Hm & Hall & Hnone).
  exists exp. split; [done|]. split; [done|]. split; [done|]. intros Hs He.
  rewrite (sort_hunks_unique d batch (omap prepared_of picks)); [|by eapply merged_starts|done].
  by apply (apply_merged d 0 src exp picks Hm [] 0%Z).
Qed.

(** A file of [zero/one/two/last], of which the hunk of the last three lines is chosen in
    part. *)
Definition demo_offset_hunk : Hunk := MkHunk 2 3 2 3 [] None (lines demo_hunk).
Definition demo_bytes (l : list string) : file_lines := (λ s, utf8_bytes s ++ [10%N]) <$> l.
Definition demo_source : file_lines := demo_bytes ["zero"; "one"; "two"; "last"; "end"].
Definition demo_merged : file_lines := demo_bytes ["zero"; "one"; "TWO"; "last"; "end"].
Definition demo_picks : list (Hunk * choice) := [(demo_offset_hunk, Some demo_selected)].
Lemma rendered_patch_applies_witness :
  describes Forward 0 demo_source (demo_bytes ["zero"; "one"; "TWO"; "LAST"; "end"]) demo_picks.*1
  ∧ (∃ exp, merged Forward 0 demo_source exp demo_picks)
  ∧ apply_patch demo_source
      (patch_hunks Forward (plan_hunk Forward <$> sort_hunks Forward (omap prepared_of demo_picks)) 0)
    = Some demo_merged.
Proof.
  assert (describes Forward 0 demo_source (demo_bytes ["zero"; "one"; "TWO"; "LAST"; "end"])
            demo_picks.*1) as Hd.
  { apply (describes_hunk Forward 0 (demo_bytes ["zero"]) demo_offset_hunk
      (demo_bytes ["end"]) (demo_bytes ["end"]) []).
    - reflexivity.
    - eexists. split; [by left|reflexivity].
    - reflexivity.
    - constructor. }
  split; [exact Hd|].
  destruct (rendered_patch_applies Forward _ _ demo_picks (omap prepared_of demo_picks) Hd (reflexivity _))
    as (exp & Hm & _).
  split; [by exists exp|reflexivity].
Defined.
