(* ===== verification/ReadBack.v ===== *)
(** * Reading a rendered patch back

    A reader of what [Render] writes, as Git reads it: the C-style quoting of paths, and
    the body of a hunk with its end-of-file notices; and the round trips. *)

From Stdlib Require Import ZArith ZifyN ZifyBool.
From stdpp Require Import base decidable list strings.
From S2P Require Import Prelude Subject Hunk Render Patch.

(** ** Quoted paths *)

Definition octal_value (a b c : N) : N := ((a - 48) * 64 + (b - 48) * 8 + (c - 48))%N.
Definition is_octal (b : N) : bool := ((48 <=? b) && (b <=? 55))%N.

(** What is between two double quotes, and what follows them. *)
Fixpoint unquote_rest (l : list N) : option (list N * list N) :=
  match l with
  | [] => None
  | b :: l =>
    if (b =? QUOTE)%N then Some ([], l)
    else if (b =? BACKSLASH)%N then
      match l with
      | [] => None
      | e :: l =>
        let literal b := '(text, rest) ← unquote_rest l; Some (b :: text, rest) in
        if ((e =? BACKSLASH) || (e =? QUOTE))%N then literal e
        else if (e =? 110)%N then literal 10%N
        else if (e =? 114)%N then literal 13%N
        else if (e =? 116)%N then literal 9%N
        else
          match l with
          | e2 :: e3 :: l =>
            if is_octal e && is_octal e2 && is_octal e3
            then '(text, rest) ← unquote_rest l; Some (octal_value e e2 e3 :: text, rest)
            else None
          | _ => None
          end
      end
    else '(text, rest) ← unquote_rest l; Some (b :: text, rest)
  end.
Definition unquote (l : list N) : option (list N * list N) :=
  match l with
  | b :: l => if (b =? QUOTE)%N then unquote_rest l else None
  | [] => None
  end.

Lemma octal3_value b :
  (b < 256)%N →
  octal_value (48 + (b / 64) mod 8) (48 + (b / 8) mod 8) (48 + b mod 8) = b
  ∧ is_octal (48 + (b / 64) mod 8) = true
  ∧ is_octal (48 + (b / 8) mod 8) = true ∧ is_octal (48 + b mod 8) = true.
Proof. intros Hb. unfold octal_value, is_octal. lia. Qed.

Lemma is_octal_plain b : is_octal b = true →
  (b =? BACKSLASH)%N = false ∧ (b =? QUOTE)%N = false ∧ (b =? 110)%N = false
  ∧ (b =? 114)%N = false ∧ (b =? 116)%N = false.
Proof. unfold is_octal, BACKSLASH, QUOTE. lia. Qed.

Lemma unquote_byte b l :
  (b < 256)%N →
  unquote_rest (quoted_byte b ++ l) = '(text, rest) ← unquote_rest l; Some (b :: text, rest).
Proof.
  intros Hb. unfold quoted_byte.
  destruct (N.eqb_spec b BACKSLASH) as [->|H1]; [reflexivity|].
  destruct (N.eqb_spec b QUOTE) as [->|H2]; [reflexivity|].
  destruct (N.eqb_spec b 10) as [->|H3]; [reflexivity|].
  destruct (N.eqb_spec b 13) as [->|H4]; [reflexivity|].
  destruct (N.eqb_spec b 9) as [->|H5]; [reflexivity|].
  apply N.eqb_neq in H1, H2.
  destruct ((32 <=? b)%N && (b <=? 126)%N).
  - cbn [app unquote_rest]. by rewrite H1, H2.
  - destruct (octal3_value b Hb) as (Hv & Ha & Hc & Hd). unfold octal3.
    revert Hv Ha Hc Hd. generalize (48 + (b / 64) mod 8)%N (48 + (b / 8) mod 8)%N (48 + b mod 8)%N.
    intros x y z Hv Hx Hy Hz. cbn [app unquote_rest].
    destruct (is_octal_plain x Hx) as (-> & -> & -> & -> & ->). cbn [orb].
    change (BACKSLASH =? QUOTE)%N with false. change (BACKSLASH =? BACKSLASH)%N with true.
    cbn beta iota. by rewrite Hx, Hy, Hz, Hv.
Qed.

(** C31. Every path survives its quoting. Whatever bytes a prefix and a path are made of,
    quotes, backslashes, newlines and bytes of no text at all included, a reader of
    C-style quoting takes them back from the patch exactly, and stops where the quoted
    path ends whatever comes after it. *)
Theorem quoted_path_round_trip (prefix path rest : list N) :
  Forall (λ b, b < 256)%N prefix → Forall (λ b, b < 256)%N path →
  unquote (push_quoted_path prefix path ++ rest) = Some (prefix ++ path, rest).
Proof.
  intros Hp Hq. unfold push_quoted_path. cbn [app unquote]. rewrite N.eqb_refl.
  assert (Forall (λ b, b < 256)%N (prefix ++ path)) as Hall by by apply Forall_app.
  clear Hp Hq. induction Hall as [|b l Hb _ IH]; [reflexivity|].
  cbn [mbind list_bind]. rewrite <- !app_assoc. rewrite unquote_byte by done.
  rewrite <- app_assoc in IH. by rewrite IH.
Qed.

Lemma quoted_path_round_trip_witness :
  unquote (push_quoted_path [97; 47] [34; 10; 255; 92; 9] ++ [32])%N
  = Some ([97; 47; 34; 10; 255; 92; 9], [32])%N.
Proof. apply (quoted_path_round_trip [97; 47] [34; 10; 255; 92; 9] [32])%N; repeat constructor. Defined.

(** ** The body of a hunk *)

(** Lines with their newlines; the last may have none. *)
Fixpoint split_lines (l : list N) : list (list N) :=
  match l with
  | [] => []
  | b :: l =>
    if (b =? NEWLINE)%N then [NEWLINE] :: split_lines l
    else match split_lines l with
         | [] => [[b]]
         | line :: rest => (b :: line) :: rest
         end
  end.

Inductive Sign := Kept | Removed | Inserted.
Definition sign_of (b : N) : option Sign :=
  if (b =? 32)%N then Some Kept else if (b =? 45)%N then Some Removed
  else if (b =? 43)%N then Some Inserted else None.
Definition is_notice (line : list N) : bool :=
  match line with b :: _ => (b =? BACKSLASH)%N | [] => false end.

(** A line of a body, less its newline when the notice is below it. *)
Fixpoint read_body (ls : list (list N)) : option (list (Sign * list N)) :=
  match ls with
  | [] => Some []
  | (b :: text) :: ls =>
    match sign_of b with
    | None => None
    | Some s =>
      match ls with
      | next :: rest =>
        if is_notice next
        then (body ← read_body rest; Some ((s, removelast text) :: body))
        else (body ← read_body ls; Some ((s, text) :: body))
      | [] => Some [(s, text)]
      end
    end
  | [] :: _ => None
  end.

Definition sign_on_source (s : Sign) : bool := match s with Inserted => false | _ => true end.
Definition sign_on_result (s : Sign) : bool := match s with Removed => false | _ => true end.
Definition body_side (P : Sign → bool) (body : list (Sign * list N)) : list (list N) :=
  snd <$> filter (λ line, P line.1 = true) body.

(** What libgit2 gives as the text of a marker. *)
Definition NOTICE : list N := NEWLINE :: bytes_of "\ No newline at end of file" ++ [NEWLINE].

(** A line of a diff is one line: it ends with its newline, or it has none and a marker
    follows it. *)
Definition well_marked (first : DiffLine) (markers : list DiffLine) : Prop :=
  (∃ text, content first = (text ++ [NEWLINE]) ∧ (NEWLINE ∉ text) ∧ markers = [])
  ∨ ((NEWLINE ∉ content first) ∧ ∃ m, markers = [m] ∧ is_eof_marker (kind m) = true
     ∧ content m = NOTICE).
Definition hunk_well_marked (h : Hunk) : Prop :=
  Forall (λ g, well_marked (lg_first g) (lg_markers g)) (line_groups (lines h)).

(** *** Where a rendered group comes from *)

Definition comes_from (gs : list LineGroup) (g : RenderLineGroup) : Prop :=
  ∃ g0, g0 ∈ gs ∧ rg_first g = lg_first g0 ∧ rg_markers g = lg_markers g0
    ∧ rg_original_kind g = lg_kind g0 ∧ (rg_kind g = lg_kind g0 ∨ rg_kind g = Context).

Lemma comes_from_mono gs gs' g : (∀ x, x ∈ gs → x ∈ gs') → comes_from gs g → comes_from gs' g.
Proof. intros Hgs (g0 & Hg & Hrest). exists g0. split; [by apply Hgs|done]. Qed.

Lemma pairwise_elem ds adds g : g ∈ pairwise ds adds → g ∈ ds ∨ g ∈ adds.
Proof.
  revert adds. induction ds as [|d ds IH]; intros adds; cbn; [by right|].
  destruct adds as [|a adds]; [by left|].
  intros [->|[->|[Hg|Hg]%IH]%elem_of_cons]%elem_of_cons; [left|right|left|right]; by constructor.
Qed.
Lemma pushed_from selected d run g : g ∈ push_selected_change_run run selected d → comes_from run g.
Proof.
  intros (g0 & Hg0 & Hr)%list_elem_of_omap. unfold resolve_group in Hr.
  destruct (resolve_kind _ _ _) as [k|] eqn:Hk; [|done]. cbn in Hr. injection Hr as <-.
  exists g0. split; [|split; [done|split; [done|split; [done|]]]].
  - by apply pairwise_elem in Hg0 as [[_ ?]%list_elem_of_filter|[_ ?]%list_elem_of_filter].
  - cbn. destruct d, (lg_kind g0), (is_selected selected g0); inversion Hk; subst; auto.
Qed.
Lemma resolved_from selected d groups run g :
  g ∈ resolve_runs selected d groups run → comes_from (run ++ groups) g.
Proof.
  revert run. induction groups as [|g0 groups IH]; intros run; cbn [resolve_runs].
  - rewrite app_nil_r. apply pushed_from.
  - case_bool_decide.
    + intros [Hg%pushed_from|[->|Hg%IH]%elem_of_cons]%elem_of_app.
      * eapply comes_from_mono; [|exact Hg]. intros x ?. apply elem_of_app. by left.
      * exists g0. split; [apply elem_of_app; right; by left|]. split_and!; auto.
      * eapply comes_from_mono; [|exact Hg]. intros x ?. apply elem_of_app. right. by right.
    + intros Hg%IH. by rewrite <- app_assoc in Hg.
Qed.
Lemma order_runs_elem gs run g : g ∈ order_runs gs run → g ∈ run ++ gs.
Proof.
  assert (∀ run, g ∈ drain_reversed_run run → g ∈ run) as Hdrain.
  { intros run'. unfold drain_reversed_run.
    by intros [[_ ?]%list_elem_of_filter|[_ ?]%list_elem_of_filter]%elem_of_app. }
  revert run. induction gs as [|g0 gs IH]; intros run; cbn [order_runs].
  - rewrite app_nil_r. apply Hdrain.
  - case_bool_decide.
    + intros [?%Hdrain|[->|Hg%IH]%elem_of_cons]%elem_of_app; apply elem_of_app; [by left|right; by left|].
      right. by right.
    + intros Hg%IH. by rewrite <- app_assoc in Hg.
Qed.
Lemma ordered_from h selected d g :
  g ∈ ordered_render_groups h selected d → comes_from (line_groups (lines h)) g.
Proof.
  assert (∀ g, g ∈ resolve_render_groups h selected d → comes_from (line_groups (lines h)) g) as Hr.
  { intros g'. destruct selected; cbn [resolve_render_groups]; [apply (resolved_from _ _ _ [])|].
    intros (g0 & -> & Hg0)%list_elem_of_fmap. exists g0. split_and!; auto. }
  destruct d; [apply Hr|]. cbn [ordered_render_groups]. intros Hg%order_runs_elem. by apply Hr.
Qed.

(** *** The bytes of a group *)

Lemma split_lines_line text rest :
  NEWLINE ∉ text → split_lines (text ++ NEWLINE :: rest) = (text ++ [NEWLINE]) :: split_lines rest.
Proof.
  induction text as [|b text IH]; intros Hn; cbn [app split_lines].
  - by rewrite N.eqb_refl.
  - apply not_elem_of_cons in Hn as [Hb Hn]. assert ((b =? NEWLINE)%N = false) as -> by (by apply N.eqb_neq).
    by rewrite IH.
Qed.

Definition sign_byte (k : DiffLineKind) : N :=
  match k with Addition => 43%N | Deletion => 45%N | _ => 32%N end.
Definition sign (k : DiffLineKind) : Sign :=
  match k with Addition => Inserted | Deletion => Removed | _ => Kept end.
Definition read_group (d : Direction) (g : RenderLineGroup) : Sign * list N :=
  (sign (reversed_kind (rg_kind g) d), content (rg_first g)).

Lemma sign_of_byte k : sign_of (sign_byte k) = Some (sign k).
Proof. by destruct k. Qed.
Lemma sign_byte_plain k : sign_byte k ≠ NEWLINE ∧ (sign_byte k =? BACKSLASH)%N = false.
Proof. by destruct k. Qed.

Lemma pushed_first d k first :
  is_eof_marker k = false →
  push_line_as d (k, first) = sign_byte (reversed_kind k d) :: content first.
Proof. by destruct d, k. Qed.
Lemma pushed_marker d g m :
  is_eof_marker (kind m) = true → push_line_as d (emitted_marker_kind g m, m) = content m.
Proof.
  intros Hm. unfold push_line_as, emitted_marker_kind. cbn [fst snd].
  destruct (_ && _ && _); [by destruct d|]. by destruct d, (kind m).
Qed.

(** No line of a body is a notice by itself. *)
Definition starts_signed (bytes : list N) : Prop :=
  match split_lines bytes with [] => True | line :: _ => is_notice line = false end.

Lemma read_body_line k text ls :
  match ls with [] => True | next :: _ => is_notice next = false end →
  read_body ((sign_byte k :: text) :: ls) = (body ← read_body ls; Some ((sign k, text) :: body)).
Proof. intros Hls. cbn [read_body]. rewrite sign_of_byte. destruct ls; [done|]. by rewrite Hls. Qed.
Lemma read_body_noticed k text next ls :
  is_notice next = true →
  read_body ((sign_byte k :: text ++ [NEWLINE]) :: next :: ls)
  = (body ← read_body ls; Some ((sign k, text) :: body)).
Proof. intros Hn. cbn [read_body]. by rewrite sign_of_byte, Hn, removelast_last. Qed.

Definition readable (g : RenderLineGroup) : Prop :=
  is_eof_marker (rg_kind g) = false ∧ well_marked (rg_first g) (rg_markers g).

Lemma pushed_lines d g bytes :
  readable g →
  (∃ text, content (rg_first g) = text ++ [NEWLINE]
     ∧ split_lines (push_render_group d g ++ bytes)
       = (sign_byte (reversed_kind (rg_kind g) d) :: text ++ [NEWLINE]) :: split_lines bytes)
  ∨ (∃ next, is_notice next = true
     ∧ split_lines (push_render_group d g ++ bytes)
       = (sign_byte (reversed_kind (rg_kind g) d) :: content (rg_first g) ++ [NEWLINE])
           :: next :: split_lines bytes).
Proof.
  intros [Hk Hw]. unfold push_render_group, emitted_kinds. cbn [mbind list_bind].
  rewrite pushed_first by done. set (b := sign_byte _).
  assert (NEWLINE ≠ b) as Hb by (intros Heq; by destruct (sign_byte_plain (reversed_kind (rg_kind g) d))).
  assert (∀ text rest, NEWLINE ∉ text →
    split_lines (b :: text ++ NEWLINE :: rest) = (b :: text ++ [NEWLINE]) :: split_lines rest) as Hsplit
    by (intros text rest Ht; apply (split_lines_line (b :: text)); by apply not_elem_of_cons).
  destruct Hw as [(text & Hc & Hn & Hm)|(Hn & m & Hm & Hmk & Hmc)].
  - left. exists text. split; [done|]. rewrite Hm, Hc. cbn [fmap list_fmap mbind list_bind].
    rewrite app_nil_r. cbn [app]. rewrite <- app_assoc. by apply Hsplit.
  - right. exists (bytes_of "\ No newline at end of file" ++ [NEWLINE]). split; [reflexivity|].
    rewrite Hm. cbn [fmap list_fmap mbind list_bind].
    rewrite app_nil_r, pushed_marker, Hmc by done. unfold NOTICE. cbn [app].
    rewrite <- app_assoc. cbn [app]. by rewrite Hsplit.
Qed.

Lemma read_groups d gs :
  Forall readable gs →
  starts_signed (gs ≫= push_render_group d)
  ∧ read_body (split_lines (gs ≫= push_render_group d)) = Some (read_group d <$> gs).
Proof.
  induction 1 as [|g gs Hg _ [IHs IH]]; [done|]. cbn [mbind list_bind]. rewrite fmap_cons.
  unfold starts_signed in *.
  pose proof (sign_byte_plain (reversed_kind (rg_kind g) d)) as [_ Hplain].
  destruct (pushed_lines d g (gs ≫= push_render_group d) Hg)
    as [(text & Hc & ->)|(next & Hn & ->)]; (split; [exact Hplain|]).
  - rewrite read_body_line by done. change (mbind (push_render_group d) gs) with (gs ≫= push_render_group d).
    rewrite IH. cbn. unfold read_group. by rewrite Hc.
  - rewrite read_body_noticed by done. change (mbind (push_render_group d) gs) with (gs ≫= push_render_group d).
    by rewrite IH.
Qed.

Lemma read_side d (P : Sign → bool) (Q : DiffLineKind → bool) gs :
  Forall readable gs →
  (∀ k, is_eof_marker k = false → P (sign (reversed_kind k d)) = Q k) →
  body_side P (read_group d <$> gs) = emitted (Q ∘ rg_kind) gs.
Proof.
  intros Hgs HPQ. induction Hgs as [|g gs [Hk _] _ IH]; [done|].
  rewrite fmap_cons, emitted_cons, <- IH. unfold body_side. rewrite filter_cons.
  unfold compose. rewrite <- HPQ by done. cbn [fst read_group].
  destruct (P _) eqn:HP; [by rewrite decide_True|by rewrite decide_False].
Qed.

(** The bytes of a rendered hunk say what was rendered. For a hunk whose lines are
    well marked, any choice of its lines and both directions, reading the body of the
    patch as Git reads it, an unterminated line at a notice included, succeeds; its
    source lines are exactly the hunk's, byte for byte, and its result lines exactly
    the rendering's. *)
Theorem rendered_body_reads_back (d : Direction) (h : Hunk) (selected : option (list LineCoordinates)) :
  hunk_wf h → hunk_well_marked h →
  let gs := ordered_render_groups h selected d in
  ∃ body, read_body (split_lines (gs ≫= push_render_group d)) = Some body
    ∧ body_side sign_on_source body = hunk_source d h
    ∧ body_side sign_on_result body = result_image d gs.
Proof.
  intros Hwf Hm gs. assert (Forall readable gs) as Hgs.
  { apply list.Forall_forall. intros g (g0 & Hg0 & Hf & Hmk & _ & Hk)%ordered_from.
    pose proof (groups_line_like h Hwf) as Hl. unfold hunk_well_marked in Hm.
    rewrite list.Forall_forall in Hm, Hl. split; [destruct Hk as [->| ->]; [by apply Hl|done]|]. rewrite Hf, Hmk. by apply Hm. }
  exists (read_group d <$> gs). split; [by apply read_groups|]. split.
  - rewrite <- (source_kept d h selected) by done. apply read_side; [done|]. by intros []; destruct d.
  - apply read_side; [done|]. by intros []; destruct d.
Qed.

(** The last line of one file has no newline. *)
Definition demo_unterminated : Hunk :=
  MkHunk 1 2 1 2 [] None
    [demo_line Context (Some 1%N) (Some 1%N) "one";
     MkDiffLine Deletion (Some 2%N) None (utf8_bytes "two") None None;
     MkDiffLine OldEofNoNewline None None NOTICE None None;
     demo_line Addition None (Some 2%N) "two"].
Lemma rendered_body_reads_back_witness :
  hunk_well_marked demo_unterminated
  ∧ ∃ body, read_body (split_lines (ordered_render_groups demo_unterminated None Reverse
              ≫= push_render_group Reverse)) = Some body
      ∧ body_side sign_on_result body = [utf8_bytes "one" ++ [NEWLINE]; utf8_bytes "two"].
Proof.
  assert (hunk_well_marked demo_unterminated) as Hm.
  { apply list.Forall_cons_2; [|apply list.Forall_cons_2; [|apply list.Forall_cons_2; [|constructor]]]; cbn [lg_first lg_markers].
    - left. exists (utf8_bytes "one"). split; [reflexivity|]. split; [|reflexivity].
      by apply (bool_decide_unpack _).
    - right. split; [by apply (bool_decide_unpack _)|]. by eexists.
    - left. exists (utf8_bytes "two"). split; [reflexivity|]. split; [|reflexivity].
      by apply (bool_decide_unpack _). }
  split; [exact Hm|].
  destruct (rendered_body_reads_back Reverse demo_unterminated None eq_refl Hm) as (body & Hb & _ & Hr).
  exists body. split; [exact Hb|]. rewrite Hr. reflexivity.
Defined.

(** ** Selections no patch can express *)

(** The marker a line may have: it ends the sides the line is on. *)
Definition marker_of (k : DiffLineKind) : DiffLineKind :=
  match k with Addition => NewEofNoNewline | Deletion => OldEofNoNewline | _ => BothEofNoNewline end.
Definition fitting (k : DiffLineKind) (markers : list DiffLine) : Prop :=
  is_eof_marker k = false ∧ (markers = [] ∨ ∃ m, markers = [m] ∧ kind m = marker_of k).
Definition hunk_fitting (h : Hunk) : Prop :=
  Forall (λ g, fitting (lg_kind g) (lg_markers g)) (line_groups (lines h)).

(** A line without its newline is the last on every side it is on. *)
Definition ends_its_sides (d : Direction) (g : RenderLineGroup) (later : list RenderLineGroup) : Prop :=
  (on_source d (rg_kind g) = true → source_image d later = [])
  ∧ (on_result d (rg_kind g) = true → result_image d later = []).

Lemma emitted_nil_iff P gs : emitted P gs = [] ↔ existsb P gs = false.
Proof.
  induction gs as [|g gs IH]; [done|]. rewrite emitted_cons. cbn [existsb]. by destruct (P g).
Qed.
Lemma occupied_sides_spec d g :
  occupied_sides d g = (on_source d (rg_kind g), on_result d (rg_kind g)).
Proof. unfold occupied_sides. by destruct d, (rg_kind g). Qed.
Lemma existsb_or {A} (P Q : A → bool) l : existsb (λ x, P x || Q x) l = existsb P l || existsb Q l.
Proof. induction l as [|x l IH]; [done|]. cbn. rewrite IH. by destruct (P x), (Q x), (existsb P l). Qed.
Lemma existsb_and {A} (b : bool) (P : A → bool) l : existsb (λ x, b && P x) l = b && existsb P l.
Proof. destruct b; [done|]. by induction l. Qed.
Lemma existsb_ext {A} (P Q : A → bool) l : (∀ x, P x = Q x) → existsb P l = existsb Q l.
Proof. intros HPQ. induction l as [|x l IH]; [done|]. cbn. by rewrite IH, HPQ. Qed.

Definition group_fitting (g : RenderLineGroup) : Prop :=
  fitting (rg_original_kind g) (rg_markers g)
  ∧ (rg_kind g = rg_original_kind g ∨ rg_kind g = Context).

(** The marker that is emitted ends the sides the line is rendered on. *)
Lemma emitted_marker_fits g m :
  (rg_kind g = rg_original_kind g ∨ rg_kind g = Context) → is_eof_marker (rg_original_kind g) = false →
  kind m = marker_of (rg_original_kind g) → emitted_marker_kind g m = marker_of (rg_kind g).
Proof.
  unfold emitted_marker_kind. intros [->| ->] Hk ->; by destruct (rg_original_kind g).
Qed.
Lemma ended_by_marker d k :
  is_eof_marker k = false →
  is_eof_marker (reversed_kind (marker_of k) d) = true
  ∧ ended_sides (reversed_kind (marker_of k) d) = (on_source d k, on_result d k).
Proof. by destruct d, k. Qed.

Lemma strands_spec d g later :
  group_fitting g →
  strands d g later = false ↔ (rg_markers g ≠ [] → ends_its_sides d g later).
Proof.
  intros [[Hk Hm] Hr]. unfold strands, emitted_kinds, ends_its_sides, source_image, result_image.
  rewrite !emitted_nil_iff. cbn [existsb fst].
  assert (is_eof_marker (rg_kind g) = false) as Hkg by (by destruct Hr as [->| ->]).
  assert (is_eof_marker (reversed_kind (rg_kind g) d) = false) as -> by (by destruct d, (rg_kind g)).
  cbn [andb orb]. destruct Hm as [->|(m & -> & Hkm)]; [by split|].
  cbn [fmap list_fmap existsb fst]. rewrite orb_false_r, emitted_marker_fits by done.
  destruct (ended_by_marker d (rg_kind g) Hkg) as [-> ->]. cbn [andb fst snd].
  rewrite (existsb_ext _ (λ g', on_source d (rg_kind g) && on_source d (rg_kind g')
      || on_result d (rg_kind g) && on_result d (rg_kind g')))
    by (intros g'; by rewrite occupied_sides_spec).
  rewrite existsb_or, !existsb_and, orb_false_iff. unfold compose.
  destruct (on_source d (rg_kind g)), (on_result d (rg_kind g)); cbn; naive_solver.
Qed.

Lemma any_stranded_spec d gs :
  Forall group_fitting gs →
  any_stranded d gs = false
  ↔ ∀ before g later, gs = before ++ g :: later → rg_markers g ≠ [] → ends_its_sides d g later.
Proof.
  induction 1 as [|g gs Hg _ IH]; cbn [any_stranded].
  - split; [|done]. by intros _ [|? ?].
  - rewrite orb_false_iff, strands_spec, IH by done. split.
    + intros [Hh Ht] [|g' before] g0 later; cbn; intros [= <- Heq]; [by rewrite <- Heq|by eapply Ht].
    + intros Hall. split; [by apply (Hall [])|]. intros before g0 later ->. by apply (Hall (g :: before)).
Qed.

(** A batch is refused exactly when no patch can say it. For prepared hunks whose
    markers end the sides of the lines they follow, the rendering of a file is refused
    if and only if somewhere in it, across its hunks, a line that has no newline would
    be followed on a side it is on; so what is rendered never says that a file ends
    where it goes on, and what could be said is never refused. *)
Theorem refused_iff_unrepresentable (d : Direction) (f : PreparedFile) (batch : list PreparedHunk) :
  Forall (λ p, hunk_fitting (ph_hunk p)) batch →
  let rendered := plan_hunk d <$> batch in
  refuse_stranded_eof_markers f rendered d = Ok tt
  ↔ ∀ before g later, rendered ≫= groups = before ++ g :: later →
      rg_markers g ≠ [] → ends_its_sides d g later.
Proof.
  intros Hfit rendered. rewrite <- any_stranded_spec.
  - unfold refuse_stranded_eof_markers. by destruct (any_stranded d _).
  - apply list.Forall_forall. intros g (r & Hg & (p & -> & Hp)%list_elem_of_fmap)%list_elem_of_bind.
    apply ordered_from in Hg as (g0 & Hg0 & _ & Hm & Ho & Hk).
    rewrite list.Forall_forall in Hfit. specialize (Hfit p Hp). unfold hunk_fitting in Hfit.
    rewrite list.Forall_forall in Hfit. split; [|by rewrite Ho]. rewrite Ho, Hm. by apply Hfit.
Qed.

(** Taking the addition of a last line without its newline and keeping the line it
    replaces would put an unterminated line before another. *)
Definition demo_stranding : PreparedHunk :=
  MkPreparedHunk demo_unterminated (Some [MkLineCoordinates None (Some 2%N)]).
Lemma refused_iff_unrepresentable_witness :
  Forall (λ p, hunk_fitting (ph_hunk p)) [demo_stranding]
  ∧ ¬ (∀ before g later, (plan_hunk Forward <$> [demo_stranding]) ≫= groups = before ++ g :: later →
      rg_markers g ≠ [] → ends_its_sides Forward g later).
Proof.
  assert (Forall (λ p, hunk_fitting (ph_hunk p)) [demo_stranding]) as Hf.
  { apply list.Forall_singleton. apply list.Forall_cons_2; [|apply list.Forall_cons_2;
      [|apply list.Forall_cons_2; [|constructor]]]; (split; [reflexivity|]);
      [by left|right; by eexists|by left]. }
  split; [exact Hf|]. intros Hall.
  apply (refused_iff_unrepresentable Forward (MkPreparedFile demo_file []) [demo_stranding] Hf) in Hall.
  discriminate Hall.
Defined.
