(* ===== verification/Stage.v ===== *)
(** * Staging, unstaging and discarding a selection

    Models the entry points of [src/crates/harkness-git/src/hunk.rs]: a batch of
    selections is refused, revalidated, rendered and applied as a whole, under the
    repository lock.  The repository is abstract: its checks, its attributes, its diff
    and the two passes of its patch engine are parameters, of which only one changes it. *)

From Stdlib Require Import ZArith.
From stdpp Require Import base decidable list sorting strings.
From S2P Require Import Prelude Subject Hunk Render.

(** ** The paths of a batch *)

(** [Ord] of [Path]: by components, a root, [.] and [..] before names. *)
Definition component_rank (c : list N) : nat :=
  if bool_decide (c = [46%N]) then 1 else if bool_decide (c = [46%N; 46%N]) then 2 else 3.
Fixpoint bytes_leb (a b : list N) : bool :=
  match a, b with
  | [], _ => true
  | _, [] => false
  | x :: a, y :: b => (x <? y)%N || (x =? y)%N && bytes_leb a b
  end.
Definition component_ltb (a b : list N) : bool :=
  (component_rank a <? component_rank b)
  || ((component_rank a =? component_rank b) && bytes_leb a b && negb (bool_decide (a = b))).
Fixpoint components_leb (a b : list (list N)) : bool :=
  match a, b with
  | [], _ => true
  | _, [] => false
  | x :: a, y :: b => component_ltb x y || bool_decide (x = y) && components_leb a b
  end.
(** A rooted path has the root as its first component. *)
Definition path_leb (a b : string) : bool :=
  match components a, components b with
  | (true, x), (true, y) | (false, x), (false, y) => components_leb x y
  | (true, _), (false, []) => false
  | (true, _), (false, _ :: _) => true
  | (false, []), (true, _) => true
  | (false, _ :: _), (true, _) => false
  end.

Fixpoint dedup_paths (l : list string) : list string :=
  match l with
  | a :: ((b :: _) as rest) => if path_eqb a b then dedup_paths rest else a :: dedup_paths rest
  | l => l
  end.
Definition sides {S} `{Selection S} (s : S) : list string :=
  option_list (hs_old_path (names_hunk s)) ++ option_list (hs_new_path (names_hunk s)).
Definition selection_paths {S} `{Selection S} (selections : list S) : list string :=
  dedup_paths (merge_sort (λ a b, path_leb a b) (selections ≫= sides)).

(** ** What the repository answers *)

(** [git2::AttrValue] *)
Inductive AttrValue := AttrString (driver : string) | AttrBytes (driver : list N) | AttrTrue | AttrFalse | Unspecified.

(** [commit::StatusRefreshOutcome] *)
Inductive StatusRefreshOutcome (Status : Type) :=
| Skipped
| Refreshed (status : Status)
| RefreshFailed (e : GitError).
Arguments Skipped {Status}. Arguments Refreshed {Status}. Arguments RefreshFailed {Status}.

(** [HunkStageOutcome] and [LineStageOutcome], whose [lines] a hunk batch does not report *)
Record StageOutcome (Status : Type) := MkStageOutcome {
  so_lines : nat;
  so_hunks : nat;
  so_status : StatusRefreshOutcome Status;
}.
Arguments MkStageOutcome {Status}. Arguments so_lines {Status}.
Arguments so_hunks {Status}. Arguments so_status {Status}.

Section stage.
(** The repository under one lock, and what it answers in the state it is in:
    [commit::validate_paths], [commit::open] with [worktree::refuse_locked], the [filter]
    attribute, the diff, the check pass and the real pass of the patch engine, and
    [status::detailed]. *)
Context {Repo Status : Type}.
Context (validate_paths : Repo → list string → result GitError unit).
Context (open_unlocked : Repo → result GitError unit).
Context (filter_attr : Repo → string → result GitError AttrValue).
Context (compute : Repo → list string → DiffTarget → N → result GitError (list FileDiff)).
Context (check_patch : Repo → ApplyTarget → list N → result string unit).
Context (run_patch : Repo → ApplyTarget → list N → result GitError unit * Repo).
Context (detailed_status : Repo → result GitError Status).
Context (from_utf8_lossy : list N → string).

(** A poll of the cancellation during revalidation, and the one before the refresh. *)
Context (is_cancelled : nat → bool) (cancelled_at_refresh : bool).

Fixpoint refuse_filtered_paths (r : Repo) (paths : list string) : result GitError unit :=
  match paths with
  | [] => Ok tt
  | path :: paths =>
    value ← filter_attr r path;
    match value with
    | AttrString driver => Err (FilteredHunkSelection path driver)
    | AttrBytes driver => Err (FilteredHunkSelection path (from_utf8_lossy driver))
    | AttrTrue => Err (FilteredHunkSelection path "unnamed")
    | AttrFalse | Unspecified => refuse_filtered_paths r paths
    end
  end.

Definition refresh_status (r : Repo) (enabled : bool) : StatusRefreshOutcome Status :=
  if negb enabled then Skipped
  else if cancelled_at_refresh then RefreshFailed Cancelled
  else match detailed_status r with
       | Ok status => Refreshed status
       | Err e => RefreshFailed e
       end.

Definition failure (paths : list string) (source : string) : GitError := HunkApplication paths source.

Definition run_pass (m : MutationMode) (patch : list N) : stateM Repo GitError unit :=
  λ r, run_patch r (apply_target m) patch.

(** [apply]: rendered, checked, then applied. The parse of the patch is in the passes. *)
Definition apply (prepared : list PreparedFile) (paths : list string) (m : MutationMode)
    : stateM Repo GitError unit :=
  patch ← lift (render_patch prepared (direction m));
  r ← get;
  _ ← lift (match check_patch r (apply_target m) patch with
            | Ok _ => Ok tt
            | Err source => Err (failure paths source)
            end);
  run_pass m patch.

Definition count_lines (prepared : list PreparedFile) : nat :=
  sum_list ((λ p, match ph_selected_lines p with Some l => length l | None => 0 end)
              <$> (prepared ≫= pf_hunks)).
Definition count_hunks (prepared : list PreparedFile) : nat :=
  sum_list (length ∘ pf_hunks <$> prepared).

(** [mutate] and [mutate_lines] *)
Definition mutate {S} `{Selection S} (selections : list S) (m : MutationMode) (refresh : bool)
    : stateM Repo GitError (StageOutcome Status) :=
  let paths := selection_paths selections in
  r ← get;
  _ ← lift (validate_paths r paths);
  _ ← lift (open_unlocked r);
  counts ← match selections with
           | [] => mret (0, 0)
           | _ :: _ =>
             _ ← lift (refuse_filtered_paths r paths);
             prepared ← lift (prepare (compute r paths (diff_target m)) is_cancelled
                                selections (apply_target m));
             _ ← apply prepared paths m;
             mret (count_lines prepared, count_hunks prepared)
           end;
  r ← get;
  mret (MkStageOutcome counts.1 counts.2 (refresh_status r refresh)).

(** The entry points of [lib.rs]: [stage_hunks], [unstage_hunks], [discard_hunks] and
    their line counterparts, from before the lock is taken. *)
Definition run_selection {S} `{Selection S} (acquire_lock : result GitError unit)
    (selections : list S) (m : MutationMode) (refresh : bool)
    : stateM Repo GitError (StageOutcome Status) :=
  _ ← lift (refuse_whitespace_insensitive selections);
  _ ← lift acquire_lock;
  mutate selections m refresh.
End stage.

(** ** All or nothing *)

Lemma whitespace_exact {S} `{Selection S} (selections : list S) :
  refuse_whitespace_insensitive selections = Ok tt →
  Forall (λ s, Whitespace_is_exact (hs_whitespace (names_hunk s)) = true) selections.
Proof.
  unfold refuse_whitespace_insensitive. destruct (find _ _) eqn:Hf; [done|]. intros _.
  apply list.Forall_forall. intros s Hs%list_elem_of_In. by apply (find_none _ _ Hf), negb_false_iff in Hs.
Qed.

Section all_or_nothing.
Context {Repo Status : Type}.
Context (validate_paths : Repo → list string → result GitError unit).
Context (open_unlocked : Repo → result GitError unit).
Context (filter_attr : Repo → string → result GitError AttrValue).
Context (compute : Repo → list string → DiffTarget → N → result GitError (list FileDiff)).
Context (check_patch : Repo → ApplyTarget → list N → result string unit).
Context (run_patch : Repo → ApplyTarget → list N → result GitError unit * Repo).
Context (detailed_status : Repo → result GitError Status).
Context (from_utf8_lossy : list N → string).
Context (is_cancelled : nat → bool) (cancelled_at_refresh : bool).
Abbreviation run := (run_selection validate_paths open_unlocked filter_attr compute check_patch
  run_patch detailed_status from_utf8_lossy is_cancelled cancelled_at_refresh).

(** The patch engine builds every file before it writes one. *)
Definition engine_atomic : Prop := ∀ m patch, Atomic (run_pass run_patch m patch).

Definition unfiltered (r : Repo) (path : string) : Prop :=
  filter_attr r path = Ok AttrFalse ∨ filter_attr r path = Ok Unspecified.
Lemma refuse_filtered_spec r paths :
  refuse_filtered_paths filter_attr from_utf8_lossy r paths = Ok tt ↔ Forall (unfiltered r) paths.
Proof.
  induction paths as [|path paths IH]; cbn [refuse_filtered_paths]; [done|].
  rewrite list.Forall_cons, <- IH. unfold unfiltered.
  destruct (filter_attr r path) as [[]|]; cbn; naive_solver.
Qed.

#[local] Instance apply_atomic prepared paths m :
  engine_atomic → Atomic (apply check_patch run_patch prepared paths m).
Proof. intros He. unfold apply. repeat (apply atomic_bind_reads; [apply _|intros ?]). apply He. Qed.
#[local] Instance mutate_atomic {S} `{Selection S} (selections : list S) m refresh :
  engine_atomic →
  Atomic (mutate validate_paths open_unlocked filter_attr compute check_patch run_patch
            detailed_status from_utf8_lossy is_cancelled cancelled_at_refresh selections m refresh).
Proof.
  intros He. pose proof (λ p l, apply_atomic p l m He).
  assert (Total (get : stateM Repo GitError Repo)) by (by intros s).
  unfold mutate. destruct selections; apply _.
Qed.

Lemma apply_landed prepared paths m r u r' :
  apply check_patch run_patch prepared paths m r = (Ok u, r') →
  ∃ patch, render_patch prepared (direction m) = Ok patch ∧ check_patch r (apply_target m) patch = Ok tt
    ∧ run_patch r (apply_target m) patch = (Ok tt, r').
Proof.
  unfold apply. intros Ha. stateM_inv Ha. subst. unfold run_pass in *. destruct u.
  destruct (check_patch r (apply_target m) _) as [[]|] eqn:Hc; [|done]. eauto.
Qed.

(** What a completed batch has done to the repository. *)
Record landed {S} `{Selection S} (selections : list S) (m : MutationMode) (r r' : Repo)
    (out : StageOutcome Status) (prepared : list PreparedFile) (patch : list N) : Prop := {
  ld_represents : represents (compute r (selection_paths selections) (diff_target m)) (apply_target m)
                    selections prepared;
  ld_unfiltered : Forall (unfiltered r) (selection_paths selections);
  ld_patch : render_patch prepared (direction m) = Ok patch;
  ld_checked : check_patch r (apply_target m) patch = Ok tt;
  ld_applied : run_patch r (apply_target m) patch = (Ok tt, r');
  ld_lines : so_lines out = count_lines prepared;
  ld_hunks : so_hunks out = count_hunks prepared;
}.

(** C28. A batch lands whole or not at all. When the patch engine is atomic, a batch of
    selections that is refused anywhere, from the view it was taken from to the last
    pass of the engine, leaves the repository as it was. One that completes was taken
    from exact diffs, and unless it was empty exactly one patch was applied: the one
    rendered for what was prepared, from the diff of the repository as it was under the
    lock, for paths no external filter rewrites, and only after the engine accepted it
    in a pass that writes nothing. A status that could not be refreshed is reported
    beside what landed and never turns it into a failure. *)
Theorem batch_lands_whole {S} `{Selection S} lock (selections : list S) m refresh r :
  engine_atomic →
  match run lock selections m refresh r with
  | (Err _, r') => r' = r
  | (Ok out, r') =>
    lock = Ok tt
    ∧ Forall (λ s, Whitespace_is_exact (hs_whitespace (names_hunk s)) = true) selections
    ∧ so_status out = refresh_status detailed_status cancelled_at_refresh r' refresh
    ∧ (selections = [] ∧ r' = r ∧ so_hunks out = 0
       ∨ ∃ prepared patch, landed selections m r r' out prepared patch)
  end.
Proof.
  intros He. destruct (run lock selections m refresh r) as [[out|e] r'] eqn:Hrun.
  - unfold run_selection in Hrun. stateM_inv Hrun. unfold mutate in *.
    destruct lock as [[]|]; [|done]. split; [done|].
    match goal with Hw : refuse_whitespace_insensitive _ = Ok ?u |- _ => destruct u end.
    split; [by apply whitespace_exact|].
    destruct selections as [|s selections]; repeat
      match goal with Hm : mbind _ _ _ = _ |- _ => stateM_inv Hm end; subst; (split; [done|]).
    + by left.
    + right. exists x5. apply apply_landed in H6 as (patch & Hp & Hc & Hr). exists patch.
      match goal with Hf : refuse_filtered_paths _ _ _ _ = Ok ?u |- _ => destruct u end.
      apply prepare_represents in H5 as [Hrep _]. apply refuse_filtered_spec in H4.
      by constructor.
  - pose proof (mutate_atomic selections m refresh He). revert Hrun. unfold run_selection. apply atomic.
Qed.
End all_or_nothing.

(** A repository that is the log of the patches applied to it, and whose engine refuses
    an empty one. *)
Definition demo_run_patch (r : list (ApplyTarget * list N)) (t : ApplyTarget) (patch : list N)
    : result GitError unit * list (ApplyTarget * list N) := (Ok tt, r ++ [(t, patch)]).
Definition demo_check_patch (r : list (ApplyTarget * list N)) (t : ApplyTarget) (patch : list N)
    : result string unit := match patch with [] => Err "empty"%string | _ => Ok tt end.
Definition demo_stage (lock : result GitError unit) :=
  run_selection (Status := unit) (λ _ _, Ok tt) (λ _, Ok tt) (λ _ _, Ok Unspecified)
    (λ _ _ _, demo_compute) demo_check_patch demo_run_patch (λ _, Err Cancelled) (λ _, ""%string)
    (λ _, false) false lock demo_selections Stage true [].
Lemma batch_lands_whole_witness :
  engine_atomic demo_run_patch
  ∧ ∃ out r', demo_stage (Ok tt) = (Ok out, r') ∧ length r' = 1 ∧ so_lines out = 2 ∧ so_hunks out = 1
      ∧ so_status out = RefreshFailed Cancelled.
Proof.
  assert (engine_atomic demo_run_patch) as He by (intros m patch s e s' [=]).
  split; [exact He|].
  pose proof (batch_lands_whole (λ _ _, Ok tt) (λ _, Ok tt) (λ _ _, Ok Unspecified)
    (λ _ _ _, demo_compute) demo_check_patch demo_run_patch (λ _, Err Cancelled) (λ _, ""%string)
    (λ _, false) false (Status := unit) (Ok tt) demo_selections Stage true [] He) as Hb.
  fold (demo_stage (Ok tt)) in Hb.
  destruct (demo_stage (Ok tt)) as [[out|e] r'] eqn:Hrun; [|discriminate Hrun].
  exists out, r'. split; [reflexivity|].
  destruct Hb as (_ & _ & Hs & _). injection Hrun as Ho Hr. subst out r'.
  split; [reflexivity|]. split; [reflexivity|]. split; [reflexivity|exact Hs].
Defined.
