(* ===== verification/RunStore.v ===== *)
(** * The run store

    Models [src/crates/harkness-runtime/src/store/mod.rs], [store/repository.rs] and
    [store/event.rs]: the tables of tasks, runs, steps, tool calls, events and artifacts,
    their keys, the transactions that change them, and the events recorded with a change.

    A transaction runs on a copy of the tables that replaces them when it commits.  Every
    access may fail: [io_fails] says which of the accesses made so far do.  A statement
    that fails rolls its transaction back, as a failed commit does, so one answer stands
    for both.  The redactor, serde's texts, fresh identifiers and the canonical hash are
    parameters.  The operations on leases and approvals are in [StoreClaims]; the contents
    of artifacts are not here. *)

From Stdlib Require Import ZArith.
From stdpp Require Import base decidable countable list gmap sets strings.
From S2P Require Import Prelude Digest Tool External Trust Policy Approval Lifecycle Domain Wire.

Definition MAX_INLINE_PAYLOAD_BYTES : N := 64 * 1024.
Definition MAX_EVENT_PAGE_LIMIT : N := 1000.
Definition I64_MAX : N := 2 ^ 63 - 1.

(** ** Events ([event.rs]) *)

Inductive EventKind :=
| RunStateChanged | RunInterrupted | RunRetried | StepStarted | StepFinished
| ToolCallStateChanged | PolicyDecisionMade | ToolProgress | ApprovalRequested | ApprovalDecided
| ApprovalIdentityDrift | ArtifactCreated | AgentObservation | AgentAction | AgentCheckpoint
| SnapshotCaptured | ContextCacheRecreated | ContextIndexCommitted | ContextIndexEvicted
| ExternalAgentHealthChecked | ExternalAgentTrustInvalidated | Diagnostic
| Unrecognized (spelling : string).

Definition EventKind_as_str (k : EventKind) : string :=
  match k with
  | RunStateChanged => "run_state_changed"
  | RunInterrupted => "run_interrupted"
  | RunRetried => "run_retried"
  | StepStarted => "step_started"
  | StepFinished => "step_finished"
  | ToolCallStateChanged => "tool_call_state_changed"
  | PolicyDecisionMade => "policy_decision"
  | ToolProgress => "tool_progress"
  | ApprovalRequested => "approval_requested"
  | ApprovalDecided => "approval_decided"
  | ApprovalIdentityDrift => "approval_identity_drift"
  | ArtifactCreated => "artifact_created"
  | AgentObservation => "agent_observation"
  | AgentAction => "agent_action"
  | AgentCheckpoint => "agent_checkpoint"
  | SnapshotCaptured => "snapshot_captured"
  | ContextCacheRecreated => "context_cache_recreated"
  | ContextIndexCommitted => "context_index_committed"
  | ContextIndexEvicted => "context_index_evicted"
  | ExternalAgentHealthChecked => "external_agent_health_checked"
  | ExternalAgentTrustInvalidated => "external_agent_trust_invalidated"
  | Diagnostic => "diagnostic"
  | Unrecognized spelling => spelling
  end.

(** Every kind this build defines. *)
Definition EventKind_KINDS : list EventKind :=
  [RunStateChanged; RunInterrupted; RunRetried; StepStarted; StepFinished; ToolCallStateChanged;
   PolicyDecisionMade; ToolProgress; ApprovalRequested; ApprovalDecided; ApprovalIdentityDrift;
   ArtifactCreated; AgentObservation; AgentAction; AgentCheckpoint; SnapshotCaptured;
   ContextCacheRecreated; ContextIndexCommitted; ContextIndexEvicted; ExternalAgentHealthChecked;
   ExternalAgentTrustInvalidated; Diagnostic].
Definition EventKind_parse (spelling : string) : EventKind :=
  match find (λ k, String.eqb (EventKind_as_str k) spelling) EventKind_KINDS with
  | Some k => k
  | None => Unrecognized spelling
  end.

(** Which reads and writes fail, and which identifier the one at a position draws. *)
Class Faults := io_fails : nat → bool.
Class Fresh `{Platform} := fresh_uuid : nat → Uuid.

Section run_store.
Context `{Platform}.

#[export] Instance TaskId_countable : Countable TaskId.
Proof. by refine (inj_countable' TaskId_uuid MkTaskId _); intros []. Defined.
#[export] Instance RunId_countable : Countable RunId.
Proof. by refine (inj_countable' RunId_uuid MkRunId _); intros []. Defined.
#[export] Instance StepId_countable : Countable StepId.
Proof. by refine (inj_countable' StepId_uuid MkStepId _); intros []. Defined.
Record ArtifactId := MkArtifactId { ArtifactId_uuid : Uuid }.
Record LeaseId := MkLeaseId { LeaseId_uuid : Uuid }.
#[export] Instance LeaseId_eq_dec : EqDecision LeaseId.
Proof. solve_decision. Defined.
#[export] Instance LeaseId_countable : Countable LeaseId.
Proof. by refine (inj_countable' LeaseId_uuid MkLeaseId _); intros []. Defined.
#[export] Instance ArtifactId_eq_dec : EqDecision ArtifactId.
Proof. solve_decision. Defined.
#[export] Instance ArtifactId_countable : Countable ArtifactId.
Proof. by refine (inj_countable' ArtifactId_uuid MkArtifactId _); intros []. Defined.

(** [serde_json], the redactor, and [canonical_input_hash]. *)
Class StoreParams := {
  json_null : Value;
  json_string : string → Value;
  json_number : N → Value;
  json_object : list (string * Value) → Value;
  encoded_len : Value → N;
  approvals_len : list Approval → N;
  decision_len : PolicyDecision → N;
  capabilities_len : list Capability → N;
  (** [Display] of an identifier, and the stored spelling of an instant. *)
  uuid_text : Uuid → string;
  instant_text : OffsetDateTime → string;
  path_text : CanonicalPath → string;
  identity_value : IntegrationIdentity → Value;
  redact_text : string → string;
  redact_payload : Value → Value;
  (** The reference that stands in for a payload kept in an artifact. *)
  overflow_payload : ArtifactId → Value → Value;
  input_hash : Value → result string InputHash;
}.

Record RunEvent := MkRunEvent {
  ev_kind : EventKind;
  ev_at : OffsetDateTime;
  ev_step : option StepId;
  ev_call : option ToolCallId;
  ev_artifact : option ArtifactId;
  ev_payload : Value;
}.
Definition RunEvent_new `{!StoreParams} (k : EventKind) (at_ : OffsetDateTime) : RunEvent :=
  MkRunEvent k (to_utc at_) None None None json_null.
Definition for_step (step : StepId) (e : RunEvent) : RunEvent :=
  MkRunEvent (ev_kind e) (ev_at e) (Some step) (ev_call e) (ev_artifact e) (ev_payload e).
Definition for_tool_call (call : ToolCallId) (e : RunEvent) : RunEvent :=
  MkRunEvent (ev_kind e) (ev_at e) (ev_step e) (Some call) (ev_artifact e) (ev_payload e).
Definition for_artifact (a : ArtifactId) (e : RunEvent) : RunEvent :=
  MkRunEvent (ev_kind e) (ev_at e) (ev_step e) (ev_call e) (Some a) (ev_payload e).
Definition with_payload (payload : Value) (e : RunEvent) : RunEvent :=
  MkRunEvent (ev_kind e) (ev_at e) (ev_step e) (ev_call e) (ev_artifact e) payload.

Record StoredEvent := MkStoredEvent { se_run : RunId; se_seq : N; se_event : RunEvent }.

Inductive EventOrder := Oldest | Newest.
Record EventPage := MkEventPage {
  page_limit : N;
  page_order : EventOrder;
  page_from : option N;
}.
Record EventListing := MkEventListing { listed : list StoredEvent; next_cursor : option N }.

(** ** Errors ([error.rs]) *)

Inductive StoreError :=
| NotFound (record : string)
| AlreadyExists (record : string)
| MissingParent (record parent : string)
| DuplicateStepOrdinal (run : RunId) (ordinal : N)
| PayloadTooLarge (record field : string) (bytes : N)
| ColumnEncoding (record field : string)
| ArtifactIo
| InvalidTransition (e : RunDomainError)
| InvalidRecord (record : string) (e : RunDomainError)
| ApprovalBindingMismatch (call : ToolCallId) (reason : string)
| CanonicalInput (reason : string)
| InvalidPageLimit (limit : N)
| ApprovalRefused (e : ApprovalError)
| QueryFailed.

(** ** Tables *)

(** A row of [artifacts], as the keys see it. *)
Record ArtifactRow := MkArtifactRow {
  ar_run : RunId;
  ar_step : option StepId;
  ar_call : option ToolCallId;
}.
(** A process's claim on the runs it drives ([lease.rs]). *)
Record LeaseRecord := MkLeaseRecord {
  le_id : LeaseId;
  le_pid : N;
  le_acquired_at : OffsetDateTime;
  le_renewed_at : OffsetDateTime;
  le_released_at : option OffsetDateTime;
}.
(** The columns [owner_pid] and [lease_id] of a run are apart from its record. *)
Record Tables := MkTables {
  tb_tasks : gmap TaskId Task;
  tb_runs : gmap RunId Run;
  tb_steps : gmap StepId Step;
  tb_calls : gmap ToolCallId ToolCall;
  tb_events : list StoredEvent;
  tb_artifacts : gmap ArtifactId ArtifactRow;
  tb_pids : gmap RunId N;
  tb_claims : gmap RunId LeaseId;
  tb_leases : gmap LeaseId LeaseRecord;
  tb_approvals : gmap ApprovalId ApprovalRequest;
}.
(** The files are those of artifacts; a transaction does not roll them back. *)
Record RunStore := MkRunStore { rs_tables : Tables; rs_files : gset ArtifactId; rs_io : nat }.
Definition RunStore_empty : RunStore := MkRunStore (MkTables ∅ ∅ ∅ ∅ [] ∅ ∅ ∅ ∅ ∅) ∅ 0.

Definition set_tasks m (t : Tables) : Tables :=
  MkTables m (tb_runs t) (tb_steps t) (tb_calls t) (tb_events t)
    (tb_artifacts t) (tb_pids t) (tb_claims t) (tb_leases t) (tb_approvals t).
Definition set_runs m (t : Tables) : Tables :=
  MkTables (tb_tasks t) m (tb_steps t) (tb_calls t) (tb_events t)
    (tb_artifacts t) (tb_pids t) (tb_claims t) (tb_leases t) (tb_approvals t).
Definition set_steps m (t : Tables) : Tables :=
  MkTables (tb_tasks t) (tb_runs t) m (tb_calls t) (tb_events t)
    (tb_artifacts t) (tb_pids t) (tb_claims t) (tb_leases t) (tb_approvals t).
Definition set_calls m (t : Tables) : Tables :=
  MkTables (tb_tasks t) (tb_runs t) (tb_steps t) m (tb_events t)
    (tb_artifacts t) (tb_pids t) (tb_claims t) (tb_leases t) (tb_approvals t).
Definition set_events l (t : Tables) : Tables :=
  MkTables (tb_tasks t) (tb_runs t) (tb_steps t) (tb_calls t) l
    (tb_artifacts t) (tb_pids t) (tb_claims t) (tb_leases t) (tb_approvals t).
Definition set_artifacts m (t : Tables) : Tables :=
  MkTables (tb_tasks t) (tb_runs t) (tb_steps t) (tb_calls t) (tb_events t)
    m (tb_pids t) (tb_claims t) (tb_leases t) (tb_approvals t).
Definition set_pids m (t : Tables) : Tables :=
  MkTables (tb_tasks t) (tb_runs t) (tb_steps t) (tb_calls t) (tb_events t)
    (tb_artifacts t) m (tb_claims t) (tb_leases t) (tb_approvals t).
Definition set_claims m (t : Tables) : Tables :=
  MkTables (tb_tasks t) (tb_runs t) (tb_steps t) (tb_calls t) (tb_events t)
    (tb_artifacts t) (tb_pids t) m (tb_leases t) (tb_approvals t).
Definition set_leases m (t : Tables) : Tables :=
  MkTables (tb_tasks t) (tb_runs t) (tb_steps t) (tb_calls t) (tb_events t)
    (tb_artifacts t) (tb_pids t) (tb_claims t) m (tb_approvals t).
Definition set_approvals m (t : Tables) : Tables :=
  MkTables (tb_tasks t) (tb_runs t) (tb_steps t) (tb_calls t) (tb_events t)
    (tb_artifacts t) (tb_pids t) (tb_claims t) (tb_leases t) m.

Abbreviation txM A := (stateM Tables StoreError A).
Abbreviation storeM A := (stateM RunStore StoreError A).

(** ** Columns ([column.rs]) *)

Section columns.
Context `{!StoreParams}.

Definition within_inline_limit (record field : string) (bytes : N) : result StoreError unit :=
  if (MAX_INLINE_PAYLOAD_BYTES <? bytes)%N then Err (PayloadTooLarge record field bytes) else Ok tt.
Definition encode_text (record field value : string) : result StoreError unit :=
  within_inline_limit record field (N.of_nat (String.length value)).
Definition encode_payload (record field : string) (payload : Value) : result StoreError unit :=
  within_inline_limit record field (encoded_len payload).
Definition encode_optional_payload (record field : string) (payload : option Value)
    : result StoreError unit :=
  match payload with None => Ok tt | Some payload => encode_payload record field payload end.
Definition encode_approvals (record : string) (l : list Approval) : result StoreError unit :=
  within_inline_limit record "approvals" (approvals_len l).
Definition encode_failure (record : string) (f : option Failure) : result StoreError unit :=
  match f with
  | None => Ok tt
  | Some f =>
    _ ← encode_text record "failure_kind" (failure_kind f);
    encode_text record "failure_message" (failure_message f)
  end.
Definition encode_revision (record : string) (revision : N) : result StoreError unit :=
  if (I64_MAX <? revision)%N then Err (ColumnEncoding record "revision") else Ok tt.
Definition encode_policy_decision (d : option PolicyDecision) : result StoreError unit :=
  match d with
  | None => Ok tt
  | Some d => within_inline_limit "tool_call" "policy_decision_json" (decision_len d)
  end.

(** ** Records as rows ([repository.rs])

    A row is written by columns: an update names the columns a lifecycle change may
    touch and leaves the others as they are stored.  It is read through the domain's own
    decoder. *)

Class Row (R Id : Type) `{Countable Id} := {
  row_name : string;
  row_id : R → Id;
  row_run : R → RunId;
  row_table : Tables → gmap Id R;
  set_row_table : gmap Id R → Tables → Tables;
  row_decode : R → result RunDomainError R;
  (** What encoding the columns of an update refuses. *)
  row_columns : R → result StoreError unit;
  (** The stored row with the columns of an update taken from the record. *)
  row_update : R → R → R;
}.

Definition merge_lifecycle {S} `{LifecycleState S} (stored l : Lifecycle S) : Lifecycle S :=
  MkLifecycle (lc_state l) (lc_created_at stored) (lc_updated_at l) (lc_started_at l)
    (lc_finished_at l) (lc_revision l).

#[export] Instance run_row : Row Run RunId := {
  row_name := "run";
  row_id := run_id;
  row_run := run_id;
  row_table := tb_runs;
  set_row_table := set_runs;
  row_decode r := Run_try_from (Run_to_wire r);
  row_columns r :=
    _ ← encode_failure "run" (run_failure r);
    _ ← encode_revision "run" (lc_revision (run_lifecycle r));
    encode_approvals "run" (run_approvals r);
  row_update stored r :=
    MkRun (run_id stored) (run_task_id stored) (merge_lifecycle (run_lifecycle stored) (run_lifecycle r))
      (run_failure r) (run_approvals r) (run_retry_of stored) (run_workspace_may_be_modified stored);
}.
#[export] Instance step_row : Row Step StepId := {
  row_name := "step";
  row_id := step_id;
  row_run := step_run_id;
  row_table := tb_steps;
  set_row_table := set_steps;
  row_decode s := Step_try_from (Step_to_wire s);
  row_columns s :=
    _ ← encode_failure "step" (step_failure s);
    _ ← encode_revision "step" (lc_revision (step_lifecycle s));
    encode_approvals "step" (step_approvals s);
  row_update stored s :=
    MkStep (step_id stored) (step_run_id stored) (step_ordinal stored) (step_title stored)
      (merge_lifecycle (step_lifecycle stored) (step_lifecycle s)) (step_failure s) (step_approvals s);
}.
#[export] Instance call_row : Row ToolCall ToolCallId := {
  row_name := "tool_call";
  row_id := call_id;
  row_run := call_run_id;
  row_table := tb_calls;
  set_row_table := set_calls;
  row_decode c := ToolCall_try_from (ToolCall_to_wire c);
  row_columns c :=
    _ ← encode_failure "tool_call" (call_failure c);
    _ ← encode_policy_decision (call_policy_decision c);
    _ ← encode_revision "tool_call" (lc_revision (call_lifecycle c));
    _ ← encode_optional_payload "tool_call" "output" (call_output c);
    encode_approvals "tool_call" (call_approvals c);
  row_update stored c :=
    MkToolCall (call_id stored) (call_run_id stored) (call_step_id stored) (call_tool_id stored)
      (call_tool_version stored) (call_input stored)
      (merge_lifecycle (call_lifecycle stored) (call_lifecycle c))
      (call_failure c) (call_output c) (call_approvals c) (call_policy_decision c);
}.

Section row.
Context {R Id} `{Row R Id}.

(** [load_run], [load_step], [load_tool_call] on a connection *)
Definition load_row (id : Id) : txM R := λ t,
  match row_table t !! id with
  | None => (Err (NotFound row_name), t)
  | Some r => (map_err (InvalidRecord row_name) (row_decode r), t)
  end.
(** [update_run], [update_step], [update_tool_call] *)
Definition update_row (r : R) : txM unit :=
  _ ← lift (row_columns r);
  t ← get;
  match row_table t !! row_id r with
  | None => lift (Err (NotFound row_name))
  | Some stored =>
    modify (set_row_table (<[row_id r := row_update stored r]> (row_table t)))
  end.
(** A method of the domain on a loaded record. *)
Definition change_record (change : stateM R RunDomainError unit) (r : R) : txM R :=
  match change r with
  | (Ok _, r) => mret r
  | (Err e, _) => lift (Err (InvalidTransition e))
  end.
End row.

(** The one statement that writes a recorded request. *)
Definition pin_tool_call_version (c : ToolCall) : txM unit :=
  _ ← lift (encode_text "tool_call" "tool_version" (call_tool_version c));
  t ← get;
  match tb_calls t !! call_id c with
  | None => lift (Err (NotFound "tool_call"))
  | Some stored =>
    modify (set_calls (<[call_id c := call_set_tool_version (call_tool_version c) stored]> (tb_calls t)))
  end.

Definition is_present {V} (o : option V) : bool := match o with Some _ => true | None => false end.
Definition insert_unique (record : string) (taken : bool) : txM unit :=
  if taken then lift (Err (AlreadyExists record)) else mret tt.

Definition insert_task_row (task : Task) : txM unit :=
  _ ← lift (encode_text "task" "title" (task_title task));
  _ ← lift (encode_text "task" "workspace_root" (task_workspace_root task));
  t ← get;
  _ ← insert_unique "task" (is_present (tb_tasks t !! task_id task));
  modify (set_tasks (<[task_id task := task]> (tb_tasks t))).

(** Which of a run's two parents is absent. *)
Definition missing_run_parent (run : Run) (t : Tables) : string :=
  match run_retry_of run with
  | None => "task"
  | Some original =>
    if is_present (tb_tasks t !! run_task_id run) && negb (is_present (tb_runs t !! original))
    then "run" else "task"
  end.
Definition claim_run (run : RunId) (owner : option LeaseId) (claims : gmap RunId LeaseId) : gmap RunId LeaseId :=
  match owner with Some lease => <[run := lease]> claims | None => claims end.
Definition insert_run_row (run : Run) (owner : option LeaseId) : txM unit :=
  _ ← lift (row_columns run);
  t ← get;
  _ ← insert_unique "run" (is_present (tb_runs t !! run_id run));
  _ ← lift (ensure
        (is_present (tb_tasks t !! run_task_id run)
         && match run_retry_of run with
            | None => true
            | Some original => is_present (tb_runs t !! original) || bool_decide (original = run_id run)
            end)
        (MissingParent "run" (missing_run_parent run t)));
  modify (λ t, set_claims (claim_run (run_id run) owner (tb_claims t)) (set_runs (<[run_id run := run]> (tb_runs t)) t)).

(** [lease::ensure]: the row of the claim, on the first run it takes. *)
Definition ensure_lease (lease : LeaseRecord) : txM unit :=
  t ← get;
  if is_present (tb_leases t !! le_id lease) then mret tt
  else modify (set_leases (<[le_id lease := lease]> (tb_leases t))).
Definition insert_owned_run (run : Run) (owner : option LeaseRecord) : txM unit :=
  _ ← match owner with Some lease => ensure_lease lease | None => mret tt end;
  insert_run_row run (le_id <$> owner).

(** [UNIQUE (run_id, ordinal)] *)
Definition ordinal_taken (step : Step) (t : Tables) : bool :=
  existsb (λ s, bool_decide (step_run_id s = step_run_id step)
                && bool_decide (step_ordinal s = step_ordinal step))
    (snd <$> map_to_list (tb_steps t)).
Definition insert_step_row (step : Step) : txM unit :=
  _ ← lift (encode_failure "step" (step_failure step));
  _ ← lift (encode_text "step" "title" (step_title step));
  _ ← lift (encode_revision "step" (lc_revision (step_lifecycle step)));
  _ ← lift (encode_approvals "step" (step_approvals step));
  t ← get;
  _ ← insert_unique "step" (is_present (tb_steps t !! step_id step));
  _ ← lift (ensure (negb (ordinal_taken step t))
        (DuplicateStepOrdinal (step_run_id step) (step_ordinal step)));
  _ ← lift (ensure (is_present (tb_runs t !! step_run_id step)) (MissingParent "step" "run"));
  modify (set_steps (<[step_id step := step]> (tb_steps t))).

(** A key that names a row of a run's, composite with the run. *)
Definition step_of_run (run : RunId) (step : StepId) (t : Tables) : bool :=
  match tb_steps t !! step with Some s => bool_decide (step_run_id s = run) | None => false end.
Definition call_of_run (run : RunId) (call : ToolCallId) (t : Tables) : bool :=
  match tb_calls t !! call with Some c => bool_decide (call_run_id c = run) | None => false end.
Definition artifact_of_run (run : RunId) (a : ArtifactId) (t : Tables) : bool :=
  match tb_artifacts t !! a with Some r => bool_decide (ar_run r = run) | None => false end.
Definition optional_of {A} (p : A → bool) (o : option A) : bool :=
  match o with Some a => p a | None => true end.

Definition insert_tool_call_row (c : ToolCall) : txM unit :=
  _ ← lift (encode_failure "tool_call" (call_failure c));
  _ ← lift (encode_policy_decision (call_policy_decision c));
  _ ← lift (encode_text "tool_call" "tool_id" (call_tool_id c));
  _ ← lift (encode_text "tool_call" "tool_version" (call_tool_version c));
  _ ← lift (encode_payload "tool_call" "input" (call_input c));
  _ ← lift (encode_optional_payload "tool_call" "output" (call_output c));
  _ ← lift (encode_revision "tool_call" (lc_revision (call_lifecycle c)));
  _ ← lift (encode_approvals "tool_call" (call_approvals c));
  t ← get;
  _ ← insert_unique "tool_call" (is_present (tb_calls t !! call_id c));
  _ ← lift (ensure
        (is_present (tb_runs t !! call_run_id c) && step_of_run (call_run_id c) (call_step_id c) t)
        (MissingParent "tool_call" "step"));
  modify (set_calls (<[call_id c := c]> (tb_calls t))).

(** ** Appending events *)

Definition latest_sequence (run : RunId) (t : Tables) : N :=
  fold_right N.max 0%N (se_seq <$> filter (λ e, se_run e = run) (tb_events t)).

Definition append_event_row (run : RunId) (e : RunEvent) : txM N :=
  _ ← lift (encode_payload "run_event" "payload" (ev_payload e));
  t ← get;
  let seq := (latest_sequence run t + 1)%N in
  _ ← lift (ensure (seq <=? I64_MAX)%N (ColumnEncoding "run_event" "seq"));
  _ ← lift (encode_text "run_event" "kind" (EventKind_as_str (ev_kind e)));
  _ ← lift (ensure
        (is_present (tb_runs t !! run)
         && optional_of (λ s, step_of_run run s t) (ev_step e)
         && optional_of (λ c, call_of_run run c t) (ev_call e)
         && optional_of (λ a, artifact_of_run run a t) (ev_artifact e))
        (MissingParent "run_event" "run, or a step, tool call, or artifact of that run,"));
  _ ← modify (set_events (tb_events t ++ [MkStoredEvent run seq e]));
  mret seq.

Definition insert_artifact_row (id : ArtifactId) (row : ArtifactRow) : txM unit :=
  t ← get;
  _ ← insert_unique "artifact" (is_present (tb_artifacts t !! id));
  _ ← lift (ensure
        (is_present (tb_runs t !! ar_run row)
         && optional_of (λ s, step_of_run (ar_run row) s t) (ar_step row)
         && optional_of (λ c, call_of_run (ar_run row) c t) (ar_call row))
        (MissingParent "artifact" "run, or a step or tool call of that run,"));
  modify (set_artifacts (<[id := row]> (tb_artifacts t))).

(** An event with everything slow already done to it. *)
Record PreparedEvent := MkPreparedEvent {
  pe_event : RunEvent;
  pe_sealed : option (ArtifactId * ArtifactRow);
}.
Definition PreparedEvent_append (run : RunId) (p : PreparedEvent) : txM N :=
  _ ← match pe_sealed p with
      | Some (id, row) => insert_artifact_row id row
      | None => mret tt
      end;
  append_event_row run (pe_event p).

(** ** Transactions ([mod.rs]) *)

Context `{Faults, !Fresh}.

Definition tick (s : RunStore) : RunStore := MkRunStore (rs_tables s) (rs_files s) (S (rs_io s)).
(** One access: it fails, or it goes on. *)
Definition attempt (e : StoreError) : storeM unit := λ s,
  if io_fails (rs_io s) then (Err e, tick s) else (Ok tt, tick s).

(** The change on a copy, and the commit. *)
Definition commit_change {A} (change : txM A) : storeM A := λ s,
  match change (rs_tables s) with
  | (Err e, _) => (Err e, s)
  | (Ok a, t) =>
    match attempt QueryFailed s with
    | (Err e, s) => (Err e, s)
    | (Ok _, s) => (Ok a, MkRunStore t (rs_files s) (rs_io s))
    end
  end.
Definition in_write_transaction {A} (change : txM A) : storeM A :=
  _ ← attempt QueryFailed;
  commit_change change.
Definition read_tables {A} (read : txM A) : storeM A := λ s, ((read (rs_tables s)).1, s).
Definition with_reader {A} (read : txM A) : storeM A :=
  _ ← attempt QueryFailed;
  read_tables read.

(** *** Preparing an event *)

Definition require_run (run : RunId) : storeM unit :=
  with_reader (
    t ← get;
    lift (ensure (is_present (tb_runs t !! run)) (MissingParent "artifact" "run"))).
(** A sink under a fresh identifier, the payload written through it, and sealed. *)
Definition seal_payload : storeM ArtifactId :=
  s ← get;
  let id := MkArtifactId (fresh_uuid (rs_io s)) in
  _ ← attempt ArtifactIo;
  _ ← modify (λ s, MkRunStore (rs_tables s) ({[id]} ∪ rs_files s) (rs_io s));
  mret id.

Definition prepare_event (run : RunId) (e : RunEvent) : storeM PreparedEvent :=
  let redacted := redact_payload (ev_payload e) in
  if (encoded_len redacted <=? MAX_INLINE_PAYLOAD_BYTES)%N
  then mret (MkPreparedEvent (with_payload redacted e) None)
  else
    _ ← require_run run;
    id ← seal_payload;
    let marked := with_payload (overflow_payload id redacted) e in
    mret (MkPreparedEvent
            match ev_artifact e with Some _ => marked | None => for_artifact id marked end
            (Some (id, MkArtifactRow run (ev_step e) (ev_call e)))).

(** Best effort: a file that cannot be removed stays. *)
Definition discard_spill (p : PreparedEvent) (s : RunStore) : RunStore :=
  match pe_sealed p with
  | None => s
  | Some (id, _) =>
    if io_fails (rs_io s) then tick s
    else MkRunStore (rs_tables s) (rs_files s ∖ {[id]}) (S (rs_io s))
  end.
Definition on_error {A} (undo : RunStore → RunStore) (m : storeM A) : storeM A := λ s,
  match m s with
  | (Ok a, s) => (Ok a, s)
  | (Err e, s) => (Err e, undo s)
  end.
Definition commit_event {A} (p : PreparedEvent) (change : PreparedEvent → txM A) : storeM A :=
  on_error (discard_spill p) (in_write_transaction (change p)).

(** *** Changing a record *)

Section change.
Context {R Id} `{Row R Id}.

Definition load (id : Id) : storeM R := with_reader (load_row id).

(** The record loaded and moved by a method of the domain. *)
Definition loaded_and_moved (id : Id) (change : stateM R RunDomainError unit) : txM R :=
  r ← load_row id;
  change_record change r.

(** [mutate_run], [mutate_step], [mutate_tool_call] *)
Definition mutate (id : Id) (change : stateM R RunDomainError unit) : storeM R :=
  in_write_transaction (
    r ← loaded_and_moved id change;
    _ ← update_row r;
    mret r).

(** [change_run_with_event], [change_step_with_event], [change_tool_call_with_event] and
    [begin_tool_call]: the run whose log it is is known or read first, [log_of] is the one
    the event is appended to, and [pin] is what a dispatch also writes. *)
Definition change_with_event (run_of : storeM RunId) (e : RunEvent)
    (change : txM R) (pin : R → txM unit) (log_of : RunId → R → RunId) : storeM (R * N) :=
  run ← run_of;
  prepared ← prepare_event run e;
  commit_event prepared (λ prepared,
    r ← change;
    _ ← update_row r;
    _ ← pin r;
    seq ← PreparedEvent_append (log_of run r) prepared;
    mret (r, seq)).

End change.

Definition change_run_with_event (id : RunId) (e : RunEvent) (change : stateM Run RunDomainError unit)
    : storeM (Run * N) :=
  change_with_event (mret id) e (loaded_and_moved id change) (λ _, mret tt) (λ run _, run).
Definition change_step_with_event (id : StepId) (e : RunEvent) (change : stateM Step RunDomainError unit)
    : storeM (Step * N) :=
  change_with_event (step ← load id; mret (step_run_id step)) e (loaded_and_moved id change) (λ _, mret tt) (λ run _, run).
Definition change_tool_call_with_event (id : ToolCallId) (e : RunEvent)
    (change : stateM ToolCall RunDomainError unit) : storeM (ToolCall * N) :=
  change_with_event (call ← load id; mret (call_run_id call)) e (loaded_and_moved id change) (λ _, mret tt)
    (λ _ call, call_run_id call).
Definition begin_tool_call (id : ToolCallId) (e : RunEvent) (start : txM ToolCall)
    : storeM (ToolCall * N) :=
  change_with_event (call ← load id; mret (call_run_id call)) e start pin_tool_call_version
    (λ _ call, call_run_id call).

Definition redact_failure (f : Failure) : Failure :=
  with_redacted_message f (redact_text (failure_message f)).
Definition redact_output (output : Value) : Value := redact_payload output.

(** ** The operations of [Store] *)

Definition insert_task (task : Task) : storeM unit :=
  in_write_transaction (insert_task_row (Task_with_redacted_title task (redact_text (task_title task)))).
Definition insert_run (run : Run) : storeM unit := in_write_transaction (insert_run_row run None).
Definition insert_run_with_event (run : Run) (owner : option LeaseRecord) (e : RunEvent) : storeM N :=
  prepared ← prepare_event (run_id run) e;
  commit_event prepared (λ prepared,
    _ ← insert_owned_run run owner;
    PreparedEvent_append (run_id run) prepared).
Definition insert_retry_with_events (run : Run) (owner : option LeaseRecord) (e : RunEvent) (original : RunId) (retried : RunEvent)
    : storeM N :=
  prepared ← prepare_event (run_id run) e;
  announced ← on_error (discard_spill prepared) (prepare_event original retried);
  on_error (discard_spill announced ∘ discard_spill prepared) (in_write_transaction (
    _ ← insert_owned_run run owner;
    seq ← PreparedEvent_append (run_id run) prepared;
    _ ← PreparedEvent_append original announced;
    mret seq)).
Definition insert_step (step : Step) : storeM unit := in_write_transaction (insert_step_row step).
Definition insert_tool_call (call : ToolCall) : storeM unit := in_write_transaction (insert_tool_call_row call).

Definition append_event (run : RunId) (e : RunEvent) : storeM N :=
  prepared ← prepare_event run e;
  commit_event prepared (PreparedEvent_append run).

(** Every payload is prepared before the one transaction. *)
Fixpoint prepare_events (run : RunId) (es : list RunEvent) (done : list PreparedEvent)
    : storeM (list PreparedEvent) :=
  match es with
  | [] => mret done
  | e :: es =>
    prepared ← on_error (λ s, foldl (λ s p, discard_spill p s) s done) (prepare_event run e);
    prepare_events run es (done ++ [prepared])
  end.
Fixpoint append_all (run : RunId) (ps : list PreparedEvent) : txM (list N) :=
  match ps with
  | [] => mret []
  | p :: ps =>
    seq ← PreparedEvent_append run p;
    seqs ← append_all run ps;
    mret (seq :: seqs)
  end.
Definition append_events (run : RunId) (es : list RunEvent) : storeM (list N) :=
  prepared ← prepare_events run es [];
  match prepared with
  | [] => mret []
  | _ => on_error (λ s, foldl (λ s p, discard_spill p s) s prepared)
           (in_write_transaction (append_all run prepared))
  end.

Definition transition_run (id : RunId) (to : ExecutionState) (at_ : OffsetDateTime) : storeM Run :=
  mutate id (Run_transition to at_).
Definition fail_run (id : RunId) (f : Failure) (at_ : OffsetDateTime) : storeM Run :=
  mutate id (Run_fail (redact_failure f) at_).
Definition approve_run (id : RunId) (by_ : string) (at_ : OffsetDateTime) : storeM Run :=
  mutate id (Run_approve by_ at_).
Definition reject_run_approval (id : RunId) (by_ : string) (f : Failure) (at_ : OffsetDateTime) : storeM Run :=
  mutate id (Run_reject_approval by_ (redact_failure f) at_).
Definition transition_run_with_event id to at_ (e : RunEvent) : storeM (Run * N) :=
  change_run_with_event id e (Run_transition to at_).
Definition fail_run_with_event id f at_ (e : RunEvent) : storeM (Run * N) :=
  change_run_with_event id e (Run_fail (redact_failure f) at_).
Definition approve_run_with_event id by_ at_ (e : RunEvent) : storeM (Run * N) :=
  change_run_with_event id e (Run_approve by_ at_).
Definition resume_run_after_denial_with_event id by_ at_ (e : RunEvent) : storeM (Run * N) :=
  change_run_with_event id e (Run_resume_after_denial by_ at_).

Definition transition_step (id : StepId) (to : ExecutionState) (at_ : OffsetDateTime) : storeM Step :=
  mutate id (Step_transition to at_).
Definition fail_step (id : StepId) (f : Failure) (at_ : OffsetDateTime) : storeM Step :=
  mutate id (Step_fail (redact_failure f) at_).
Definition approve_step (id : StepId) (by_ : string) (at_ : OffsetDateTime) : storeM Step :=
  mutate id (Step_approve by_ at_).
Definition reject_step_approval (id : StepId) (by_ : string) (f : Failure) (at_ : OffsetDateTime) : storeM Step :=
  mutate id (Step_reject_approval by_ (redact_failure f) at_).
Definition transition_step_with_event id to at_ (e : RunEvent) : storeM (Step * N) :=
  change_step_with_event id e (Step_transition to at_).
Definition fail_step_with_event id f at_ (e : RunEvent) : storeM (Step * N) :=
  change_step_with_event id e (Step_fail (redact_failure f) at_).

Definition transition_tool_call (id : ToolCallId) (to : ToolCallState) (at_ : OffsetDateTime) : storeM ToolCall :=
  mutate id (ToolCall_transition to at_).
Definition succeed_tool_call (id : ToolCallId) (output : Value) (at_ : OffsetDateTime) : storeM ToolCall :=
  mutate id (ToolCall_succeed (redact_output output) at_).
Definition fail_tool_call (id : ToolCallId) (f : Failure) (at_ : OffsetDateTime) : storeM ToolCall :=
  mutate id (ToolCall_fail (redact_failure f) at_).
Definition apply_tool_call_policy_decision (id : ToolCallId) (d : PolicyDecision) (at_ : OffsetDateTime)
    : storeM ToolCall :=
  mutate id (ToolCall_apply_policy_decision d at_).
Definition approve_tool_call (id : ToolCallId) (by_ : string) (at_ : OffsetDateTime) : storeM ToolCall :=
  mutate id (ToolCall_approve by_ at_).
Definition reject_tool_call_approval (id : ToolCallId) (by_ : string) (f : Failure) (at_ : OffsetDateTime)
    : storeM ToolCall :=
  mutate id (ToolCall_reject_approval by_ (redact_failure f) at_).

Definition apply_tool_call_policy_decision_with_event id d at_ (e : RunEvent) : storeM (ToolCall * N) :=
  change_tool_call_with_event id e (ToolCall_apply_policy_decision d at_).
Definition reject_tool_call_approval_with_event id by_ f at_ (e : RunEvent) : storeM (ToolCall * N) :=
  change_tool_call_with_event id e (ToolCall_reject_approval by_ (redact_failure f) at_).
Definition transition_tool_call_with_event id to at_ (e : RunEvent) : storeM (ToolCall * N) :=
  change_tool_call_with_event id e (ToolCall_transition to at_).
Definition succeed_tool_call_with_event id output at_ (e : RunEvent) : storeM (ToolCall * N) :=
  change_tool_call_with_event id e (ToolCall_succeed (redact_output output) at_).
Definition fail_tool_call_with_event id f at_ (e : RunEvent) : storeM (ToolCall * N) :=
  change_tool_call_with_event id e (ToolCall_fail (redact_failure f) at_).

Definition dispatch_tool_call_with_event (id : ToolCallId) (version : string) (at_ : OffsetDateTime)
    (e : RunEvent) : storeM (ToolCall * N) :=
  begin_tool_call id e (loaded_and_moved id (ToolCall_dispatch version at_)).

Definition hash_of (input : Value) : result StoreError InputHash := map_err CanonicalInput (input_hash input).

(** What an approval authorized, checked against the row it is about to start. *)
Definition check_binding (id : ToolCallId) (tool : ToolIdentity) (hash : InputHash) (c : ToolCall)
    : result StoreError unit :=
  if negb (bool_decide (call_tool_id c = ToolId_as_str (ti_id tool)))
     || (negb (bool_decide (call_tool_version c = ""))
         && negb (bool_decide (call_tool_version c = Version_to_string (as_semver (ti_version tool)))))
  then Err (ApprovalBindingMismatch id "tool identity changed")
  else
    actual ← hash_of (call_input c);
    if bool_decide (actual = hash) then Ok tt
    else Err (ApprovalBindingMismatch id "input changed").

Definition dispatch_bound_approved_tool_call_with_event (id : ToolCallId) (by_ : string)
    (tool : ToolIdentity) (hash : InputHash) (at_ : OffsetDateTime) (e : RunEvent)
    : storeM (ToolCall * N) :=
  begin_tool_call id e (
    c ← load_row id;
    _ ← lift (check_binding id tool hash c);
    change_record (ToolCall_dispatch_approved by_ (Version_to_string (as_semver (ti_version tool))) at_) c).

Definition dispatch_approved_tool_call_with_event (id : ToolCallId) (by_ version : string)
    (at_ : OffsetDateTime) (e : RunEvent) : storeM (ToolCall * N) :=
  call ← load id;
  tool ← lift (map_err (λ _, ColumnEncoding "tool_call" "tool_id")
                 (ToolIdentity_parse (call_tool_id call) version));
  hash ← lift (hash_of (call_input call));
  dispatch_bound_approved_tool_call_with_event id by_ tool hash at_ e.

(** ** Reading the log *)

Definition log_of_run (run : RunId) (t : Tables) : list StoredEvent :=
  filter (λ e, se_run e = run) (tb_events t).
Definition take_events (n : N) (l : list StoredEvent) : list StoredEvent := take (N.to_nat n) l.

(** [ORDER BY seq]: rows are appended in the order of their sequence.  The limit is an
    [i64] to the query. *)
Definition require_page_limit (limit : N) : result StoreError unit :=
  ensure (negb (limit =? 0) && (limit <=? MAX_EVENT_PAGE_LIMIT))%N (InvalidPageLimit limit).
Definition events_read (run : RunId) (after_ : option N) (limit : N) : txM (list StoredEvent) :=
  _ ← lift (require_page_limit limit);
  t ← get;
  mret (take_events limit
    (filter (λ e, N.min (default 0 after_) I64_MAX < se_seq e)%N (log_of_run run t))).
Definition events (run : RunId) (after_ : option N) (limit : N) : storeM (list StoredEvent) :=
  with_reader (events_read run after_ limit).

(** The rows a page may hold, from its boundary or from the end its order names. *)
Definition page_rows (page : EventPage) (log : list StoredEvent) : list StoredEvent :=
  match page_order page with
  | Oldest => filter (λ e, N.min (default 0 (page_from page)) I64_MAX < se_seq e)%N log
  | Newest => reverse (filter (λ e, se_seq e < N.min (default I64_MAX (page_from page)) I64_MAX)%N log)
  end.
Definition event_page_read (run : RunId) (page : EventPage) : txM EventListing :=
  _ ← lift (require_page_limit (page_limit page));
  t ← get;
  let probed := take_events (page_limit page + 1) (page_rows page (log_of_run run t)) in
  let kept := take_events (page_limit page) probed in
  mret (MkEventListing kept
    (if (page_limit page <? N.of_nat (length probed))%N then se_seq <$> last kept else None)).
Definition event_page (run : RunId) (page : EventPage) : storeM EventListing :=
  with_reader (event_page_read run page).
End columns.
End run_store.
