(* ===== verification/StoreClaims.v ===== *)
(** * Leases, approvals and listings of the run store

    Models [src/crates/harkness-runtime/src/store/lease.rs], [store/approval.rs], and the
    listings of [store/repository.rs] and [store/mod.rs]: the claim a process holds on the
    runs it drives, the questions a run has asked with what became of them, and the rows of
    a run.  A listing is ordered by the stored spellings of an instant and an identifier,
    which order as the values do. *)

From Stdlib Require Import ZArith.
From stdpp Require Import base decidable countable list gmap sets sorting strings.
From S2P Require Import Prelude Digest Tool External Trust Policy Approval Matcher Lifecycle Domain Wire RunStore.

Section claims.
Context `{Platform, !StoreParams, Faults, !Fresh}.
Abbreviation txM A := (stateM Tables StoreError A).
Abbreviation storeM A := (stateM RunStore StoreError A).

(** ** Listings *)

(** [ORDER BY instant, id] *)
Definition key_before (a b : OffsetDateTime * Uuid) : bool :=
  ts_ltb a.1 b.1 || ts_eqb a.1 b.1 && negb (Uuid_ltb b.2 a.2).
Definition listed_before {A} (key : A → OffsetDateTime * Uuid) (a b : A) : Prop :=
  key_before (key a) (key b) = true.
#[export] Instance listed_before_dec {A} (key : A → OffsetDateTime * Uuid) : RelDecision (listed_before key).
Proof. intros a b. unfold listed_before. apply _. Defined.
Definition order_by {A} (key : A → OffsetDateTime * Uuid) : list A → list A := merge_sort (listed_before key).

Definition rows_of {Id V} `{Countable Id} (m : gmap Id V) : list V := snd <$> map_to_list m.
(** Every row of a listing is decoded, and the first that cannot be fails it. *)
Fixpoint decode_all {A B} (decode : A → result StoreError B) (l : list A) : result StoreError (list B) :=
  match l with
  | [] => Ok []
  | a :: l =>
    b ← decode a;
    bs ← decode_all decode l;
    Ok (b :: bs)
  end.

Definition ordinal_before (a b : Step) : Prop := (step_ordinal a <= step_ordinal b)%N.
#[export] Instance ordinal_before_dec : RelDecision ordinal_before.
Proof. intros a b. unfold ordinal_before. apply _. Defined.

Definition decode_row {R Id} `{Countable Id, !Row R Id} (r : R) : result StoreError R :=
  map_err (InvalidRecord row_name) (row_decode r).
Definition run_steps_rows (run : RunId) : txM (list Step) := λ t,
  (decode_all decode_row
     (merge_sort ordinal_before (filter (λ s, step_run_id s = run) (rows_of (tb_steps t)))), t).
Definition run_calls_rows (run : RunId) : txM (list ToolCall) := λ t,
  (decode_all decode_row
     (order_by (λ c, (lc_created_at (call_lifecycle c), ToolCallId_uuid (call_id c)))
        (filter (λ c, call_run_id c = run) (rows_of (tb_calls t)))), t).
Definition load_run_steps (run : RunId) : storeM (list Step) := with_reader (run_steps_rows run).
Definition load_run_tool_calls (run : RunId) : storeM (list ToolCall) := with_reader (run_calls_rows run).

Definition run_order (r : Run) : OffsetDateTime * Uuid := (lc_created_at (run_lifecycle r), RunId_uuid (run_id r)).
(** The candidates of recovery: a state and a claim, and no record is loaded. *)
Definition unfinished_rows : txM (list (RunId * option LeaseId)) := λ t,
  (Ok ((λ r, (run_id r, tb_claims t !! run_id r)) <$>
     order_by run_order
       (filter (λ r, is_terminal (lc_state (run_lifecycle r)) = false) (rows_of (tb_runs t)))), t).
Definition unfinished_runs : storeM (list (RunId * option LeaseId)) := with_reader unfinished_rows.
Definition retries_rows (run : RunId) : txM (list RunId) := λ t,
  (Ok (run_id <$> order_by run_order
     (filter (λ r, run_retry_of r = Some run) (rows_of (tb_runs t)))), t).
Definition retries_of (run : RunId) : storeM (list RunId) := with_reader (retries_rows run).

(** ** The process that drives a run *)

Definition set_owner_row (run : RunId) (pid : option N) : txM unit :=
  t ← get;
  _ ← lift (ensure (is_present (tb_runs t !! run)) (NotFound "run"));
  modify (λ t, set_pids match pid with Some pid => <[run := pid]> (tb_pids t) | None => delete run (tb_pids t) end t).
Definition set_run_owner (run : RunId) (pid : option N) : storeM unit :=
  in_write_transaction (set_owner_row run pid).
Definition run_owner (run : RunId) : storeM (option N) :=
  with_reader (
    t ← get;
    _ ← lift (ensure (is_present (tb_runs t !! run)) (NotFound "run"));
    mret (tb_pids t !! run)).

(** ** Leases ([lease.rs]) *)

Definition LeaseRecord_acquired (id : LeaseId) (pid : N) (at_ : OffsetDateTime) : LeaseRecord :=
  MkLeaseRecord id pid (to_utc at_) (to_utc at_) None.
Definition is_released (l : LeaseRecord) : bool := is_present (le_released_at l).
Definition renewed (at_ : OffsetDateTime) (l : LeaseRecord) : LeaseRecord :=
  MkLeaseRecord (le_id l) (le_pid l) (le_acquired_at l) (to_utc at_) (le_released_at l).
Definition released (at_ : OffsetDateTime) (l : LeaseRecord) : LeaseRecord :=
  MkLeaseRecord (le_id l) (le_pid l) (le_acquired_at l) (le_renewed_at l) (Some (to_utc at_)).

(** [UPDATE ... WHERE id = :id AND released_at IS NULL], with the rows it moved. *)
Definition update_live_lease (id : LeaseId) (change : LeaseRecord → LeaseRecord) : txM nat :=
  t ← get;
  match tb_leases t !! id with
  | Some l =>
    if is_released l then mret 0
    else
      _ ← modify (set_leases (<[id := change l]> (tb_leases t)));
      mret 1
  | None => mret 0
  end.
Definition renew_row (id : LeaseId) (at_ : OffsetDateTime) : txM nat := update_live_lease id (renewed at_).
Definition release_row (id : LeaseId) (at_ : OffsetDateTime) : txM unit :=
  _ ← update_live_lease id (released at_);
  mret tt.
Definition renew_lease (id : LeaseId) (at_ : OffsetDateTime) : storeM bool :=
  moved ← in_write_transaction (renew_row id at_);
  mret (0 <? moved).
Definition release_lease (id : LeaseId) (at_ : OffsetDateTime) : storeM unit :=
  in_write_transaction (release_row id at_).
Definition lease_row (id : LeaseId) : txM (option LeaseRecord) := λ t, (Ok (tb_leases t !! id), t).
Definition lease (id : LeaseId) : storeM (option LeaseRecord) := with_reader (lease_row id).
Definition live_leases : storeM (list LeaseRecord) :=
  with_reader (λ t, (Ok (order_by (λ l, (le_acquired_at l, LeaseId_uuid (le_id l)))
    (filter (λ l, is_released l = false) (rows_of (tb_leases t)))), t)).

(** ** Approvals ([approval.rs]) *)

Definition redact_request (r : ApprovalRequest) : ApprovalRequest :=
  MkApprovalRequest (ar_id r) (summarized_as (redact_text (pa_input_summary (ar_pending r))) (ar_pending r))
    (ar_effective_scope r) (ar_state r) (ar_resolved_at r) (ar_decision r).
Definition redact_decision (d : ApprovalDecision) : ApprovalDecision :=
  MkApprovalDecision (ad_approval_id d) (ad_verdict d) (ad_scope d) (ad_decided_at d) (ad_decided_via d)
    (redact_text <$> ad_reason d).

Definition json_text (o : option string) : Value :=
  match o with Some s => json_string s | None => json_null end.
Definition ToolIdentity_text (tool : ToolIdentity) : string :=
  ToolId_as_str (ti_id tool) +:+ "@" +:+ Version_to_string (as_semver (ti_version tool)).

(** The question's event carries its summary and binding facts, and never the input. *)
Definition requested_event (r : ApprovalRequest) : RunEvent :=
  let p := ar_pending r in
  with_payload (json_object (
      [("approval_id", json_string (uuid_text (ApprovalId_uuid (ar_id r))));
       ("tool", json_string (ToolIdentity_text (pa_tool p)));
       ("risk", json_string (as_str (pa_risk p)));
       ("requested_scope", json_string (as_str (pa_requested_scope p)));
       ("effective_scope", json_string (as_str (ar_effective_scope r)));
       ("summary", json_string (pa_input_summary p));
       ("expires_at", json_text (instant_text <$> pa_expires_at p))] ++
      if IntegrationIdentity_is_empty (pa_integration_identity p) then []
      else [("integration_identity", identity_value (pa_integration_identity p))]))
    (for_tool_call (pa_tool_call_id p) (RunEvent_new ApprovalRequested (pa_created_at p))).
Definition decided_event (r : ApprovalRequest) (d : ApprovalDecision) : RunEvent :=
  let state := match ad_verdict d with VerdictGranted => Granted | VerdictDenied => ApDenied end in
  with_payload (json_object
      [("approval_id", json_string (uuid_text (ApprovalId_uuid (ar_id r))));
       ("state", json_string (as_str state));
       ("verdict", json_string (as_str (ad_verdict d)));
       ("scope", json_text (as_str <$> ad_scope d));
       ("decided_via", json_string (as_str (ad_decided_via d)));
       ("reason", json_text (ad_reason d))])
    (for_tool_call (pa_tool_call_id (ar_pending r)) (RunEvent_new ApprovalDecided (ad_decided_at d))).
Definition unanswered_event (r : ApprovalRequest) (to : ApprovalState) (at_ : OffsetDateTime) : RunEvent :=
  with_payload (json_object
      [("approval_id", json_string (uuid_text (ApprovalId_uuid (ar_id r))));
       ("state", json_string (as_str to))])
    (for_tool_call (pa_tool_call_id (ar_pending r)) (RunEvent_new ApprovalDecided at_)).

Definition encode_reason (r : ApprovalRequest) : result StoreError unit :=
  match ar_decision r ≫= ad_reason with
  | Some reason => encode_text "approval" "decision_reason" reason
  | None => Ok tt
  end.
Definition insert_approval (r : ApprovalRequest) : txM unit :=
  let p := ar_pending r in
  _ ← lift (encode_text "approval" "tool_id" (ToolId_as_str (ti_id (pa_tool p))));
  _ ← lift (encode_text "approval" "tool_version" (Version_to_string (as_semver (ti_version (pa_tool p)))));
  _ ← lift (within_inline_limit "approval" "capabilities_json" (capabilities_len (pa_capabilities p)));
  _ ← lift (encode_text "approval" "input_summary" (pa_input_summary p));
  _ ← lift (encode_text "approval" "canonical_root" (path_text (wb_canonical_root (pa_workspace p))));
  _ ← lift (encode_reason r);
  t ← get;
  _ ← insert_unique "approval" (is_present (tb_approvals t !! ar_id r));
  _ ← lift (ensure
        (is_present (tb_runs t !! pa_run_id p) && call_of_run (pa_run_id p) (pa_tool_call_id p) t)
        (MissingParent "approval" "tool call of that run"));
  modify (set_approvals (<[ar_id r := r]> (tb_approvals t))).

(** A resolution never names a binding column, but narrows the effective scope. *)
Definition update_resolution (r : ApprovalRequest) : txM unit :=
  _ ← lift (encode_reason r);
  t ← get;
  match tb_approvals t !! ar_id r with
  | None => lift (Err (NotFound "approval"))
  | Some stored =>
    modify (set_approvals (<[ar_id r :=
      MkApprovalRequest (ar_id stored) (ar_pending stored) (ar_effective_scope r) (ar_state r)
        (ar_resolved_at r) (ar_decision r)]> (tb_approvals t)))
  end.

(** The decision is rebuilt from its columns, and was made when the row was resolved. *)
Definition decode_decision (r : ApprovalRequest) : result StoreError (option ApprovalDecision) :=
  match ar_decision r with
  | None => Ok None
  | Some d =>
    match ar_resolved_at r with
    | None => Err (ColumnEncoding "approval" "resolved_at")
    | Some decided_at =>
      _ ← ensure (bool_decide (bool_decide (ad_verdict d = VerdictGranted) = is_present (ad_scope d)))
            (ColumnEncoding "approval" "decision_scope");
      Ok (Some (MkApprovalDecision (ar_id r) (ad_verdict d) (ad_scope d) decided_at (ad_decided_via d) (ad_reason d)))
    end
  end.
Definition decode_approval (r : ApprovalRequest) : result StoreError ApprovalRequest :=
  decision ← decode_decision r;
  map_err ApprovalRefused
    (ApprovalRequest_from_stored (ar_id r) (ar_pending r) (ar_effective_scope r) (ar_state r)
       (ar_resolved_at r) decision).
Definition load_approval (id : ApprovalId) : txM ApprovalRequest := λ t,
  match tb_approvals t !! id with
  | None => (Err (NotFound "approval"), t)
  | Some r => (decode_approval r, t)
  end.
Definition approval (id : ApprovalId) : storeM ApprovalRequest := with_reader (load_approval id).

Definition approval_order (r : ApprovalRequest) : OffsetDateTime * Uuid :=
  (pa_created_at (ar_pending r), ApprovalId_uuid (ar_id r)).
Definition run_approvals_rows (run : RunId) : txM (list ApprovalRequest) := λ t,
  (decode_all decode_approval
     (order_by approval_order (filter (λ r, pa_run_id (ar_pending r) = run) (rows_of (tb_approvals t)))), t).
Definition pending_approvals_rows : txM (list ApprovalRequest) := λ t,
  (decode_all decode_approval
     (order_by approval_order (filter (λ r, ar_state r = ApPending) (rows_of (tb_approvals t)))), t).
(** [ORDER BY resolved_at, id]: a granted row has one. *)
Definition grant_order (r : ApprovalRequest) : OffsetDateTime * Uuid :=
  (default (pa_created_at (ar_pending r)) (ar_resolved_at r), ApprovalId_uuid (ar_id r)).
Definition granted_rows (run : RunId) : txM (list ApprovalRequest) := λ t,
  (decode_all decode_approval
     (order_by grant_order
        (filter (λ r, pa_run_id (ar_pending r) = run ∧ ar_state r = Granted) (rows_of (tb_approvals t)))), t).
Definition run_grants_rows (run : RunId) : txM (list ApprovalGrant) :=
  granted ← granted_rows run;
  mret (omap grant_of granted).
Definition run_approvals (run : RunId) : storeM (list ApprovalRequest) := with_reader (run_approvals_rows run).
Definition pending_approvals : storeM (list ApprovalRequest) := with_reader pending_approvals_rows.
Definition run_grants (run : RunId) : storeM (list ApprovalGrant) := with_reader (run_grants_rows run).

Definition open_approval (r : ApprovalRequest) : storeM (ApprovalRequest * N) :=
  if ApprovalState_is_terminal (ar_state r)
  then lift (Err (ApprovalRefused (AlreadyResolved (ar_id r) (ar_state r))))
  else
    let r := redact_request r in
    let run := pa_run_id (ar_pending r) in
    prepared ← prepare_event run (requested_event r);
    seq ← commit_event prepared (λ prepared,
      _ ← insert_approval r;
      PreparedEvent_append run prepared);
    mret (r, seq).

(** A method of the domain on a loaded request. *)
Definition change_request (change : stateM ApprovalRequest ApprovalError unit) (r : ApprovalRequest)
    : txM ApprovalRequest :=
  match change r with
  | (Ok _, r) => mret r
  | (Err e, _) => lift (Err (ApprovalRefused e))
  end.
Definition change_approval (id : ApprovalId) (describe : ApprovalRequest → RunEvent)
    (change : stateM ApprovalRequest ApprovalError unit) : storeM (ApprovalRequest * N) :=
  current ← approval id;
  prepared ← prepare_event (pa_run_id (ar_pending current)) (describe current);
  commit_event prepared (λ prepared,
    loaded ← load_approval id;
    request ← change_request change loaded;
    _ ← update_resolution request;
    seq ← PreparedEvent_append (pa_run_id (ar_pending request)) prepared;
    mret (request, seq)).
Definition decide_approval (id : ApprovalId) (d : ApprovalDecision) : storeM (ApprovalRequest * N) :=
  let d := redact_decision d in
  change_approval id (λ r, decided_event r d) (ApprovalRequest_decide d).
Definition resolve_approval (id : ApprovalId) (to : ApprovalState) (at_ : OffsetDateTime)
    : storeM (ApprovalRequest * N) :=
  change_approval id (λ r, unanswered_event r to at_) (ApprovalRequest_resolve to at_).
End claims.
