(* ===== verification/StoreLaws.v ===== *)
(** * What the run store keeps

    The invariant of the tables and of the artifact files, preserved by every operation
    of [RunStore] whatever fails under it; a rejected operation leaves the tables as they
    were; and a change of a record and the event that says so become true together. *)

From Stdlib Require Import ZArith ZifyN ZifyBool.
From stdpp Require Import base decidable countable list gmap sets relations strings.
From S2P Require Import Prelude Digest Tool External Trust Policy Approval Lifecycle Domain Records Wire RunStore StoreClaims.

(** ** Rows *)

Section rows.
Context `{PlatformLaws, !StoreParams}.

Lemma Lifecycle_from_wire_same {S} `{LifecycleState S} record (l l' : Lifecycle S) :
  Lifecycle_from_wire record (lc_state l) (lc_created_at l) (lc_updated_at l) (lc_started_at l)
    (lc_finished_at l) (lc_revision l) = Ok l' → l' = l.
Proof. intros [-> _]%Lifecycle_from_wire_sound. by destruct l. Qed.

(** What is read is what is stored. *)
Class RowReads (R Id : Type) `{Countable Id, !Row R Id} : Prop :=
  row_reads : ∀ r r', row_decode r = Ok r' → r' = r.
#[export] Instance run_reads : RowReads Run RunId.
Proof.
  intros r r' Hr. unfold row_decode, run_row, Run_try_from in Hr.
  apply bind_Ok in Hr as (? & _ & (l & Hl%Lifecycle_from_wire_same & Hr)%bind_Ok).
  repeat (apply bind_Ok in Hr as (? & _ & Hr)). injection Hr as <-. subst l. by destruct r.
Qed.
#[export] Instance step_reads : RowReads Step StepId.
Proof.
  intros r r' Hr. unfold row_decode, step_row, Step_try_from in Hr.
  apply bind_Ok in Hr as (? & _ & (l & Hl%Lifecycle_from_wire_same & Hr)%bind_Ok).
  repeat (apply bind_Ok in Hr as (? & _ & Hr)). injection Hr as <-. subst l. by destruct r.
Qed.
#[export] Instance call_reads : RowReads ToolCall ToolCallId.
Proof.
  intros r r' Hr. unfold row_decode, call_row, ToolCall_try_from in Hr.
  apply bind_Ok in Hr as (? & _ & (l & Hl%Lifecycle_from_wire_same & Hr)%bind_Ok).
  repeat (apply bind_Ok in Hr as (? & _ & Hr)). injection Hr as <-. subst l. by destruct r.
Qed.

Lemma moved_merges {S} `{LifecycleLaws S} (l : Lifecycle S) to l' :
  moved l to l' → merge_lifecycle l l' = l'.
Proof.
  intros (_ & _ & _ & _ & Hcr & _)%moved_inv. unfold merge_lifecycle. rewrite <- Hcr. by destruct l'.
Qed.

Lemma merge_self {S} `{LifecycleState S} (l : Lifecycle S) : merge_lifecycle l l = l.
Proof. by destruct l. Qed.

(** An update by columns writes the whole of what a method of the domain changed. *)
Lemma run_step_updates r r' : run_step r r' → row_update r r' = r'.
Proof.
  intros Hs. inversion Hs as [? ? ? ? Hm|? ? ? ? Hm|? ? ? ? Hm|? ? ? ? ? Hm|? ? ? ? Hm]; subst; clear Hs;
    unfold Run_transition, Run_fail, Run_approve, Run_reject_approval, Run_resume_after_denial in Hm;
    method_inv Hm; cbn; by erewrite moved_merges.
Qed.
Lemma step_step_updates r r' : step_step r r' → row_update r r' = r'.
Proof.
  intros Hs. inversion Hs as [? ? ? ? Hm|? ? ? ? Hm|? ? ? ? Hm|? ? ? ? ? Hm]; subst; clear Hs;
    unfold Step_transition, Step_fail, Step_approve, Step_reject_approval in Hm;
    method_inv Hm; cbn; by erewrite moved_merges.
Qed.
Lemma call_step_updates c c' :
  call_step c c' → call_set_tool_version (call_tool_version c') (row_update c c') = c'.
Proof.
  intros Hs. call_step_inv Hs; cbn; (rewrite merge_self || erewrite moved_merges by done); done.
Qed.
Lemma call_step_keeps_row c c' :
  call_step c c' → call_tool_version c' = call_tool_version c → row_update c c' = c'.
Proof.
  intros Hs Hv. rewrite <- (call_step_updates c c' Hs) at 2. rewrite Hv. by destruct c.
Qed.
End rows.

(** What is still so of the tables a change leaves alone. *)
Ltac unchanged := cbn; first [done | by left | by eauto].

(** ** The invariant of the tables *)

Section tables.
Context `{PlatformLaws, !StoreParams}.
Abbreviation txM A := (stateM Tables StoreError A).

(** What a row refers to is stored, and of the same run. *)
Record owned (t : Tables) (run : RunId) (step : option StepId) (call : option ToolCallId)
    (artifact : option ArtifactId) : Prop := {
  ow_run : is_Some (tb_runs t !! run);
  ow_step : ∀ id, step = Some id → ∃ s, tb_steps t !! id = Some s ∧ step_run_id s = run;
  ow_call : ∀ id, call = Some id → ∃ c, tb_calls t !! id = Some c ∧ call_run_id c = run;
  ow_artifact : ∀ id, artifact = Some id → ∃ a, tb_artifacts t !! id = Some a ∧ ar_run a = run;
}.

(** A stored question, whose answer was made when the row was resolved. *)
Record stored_request (a : ApprovalRequest) : Prop := {
  sq_wf : request_wf a;
  sq_answer : ∀ d, ar_decision a = Some d →
    well_formed_answer d ∧ ar_resolved_at a = Some (ad_decided_at d);
}.
Definition asked_of_its_call (t : Tables) (a : ApprovalRequest) : Prop :=
  ∃ c, tb_calls t !! pa_tool_call_id (ar_pending a) = Some c ∧ call_run_id c = pa_run_id (ar_pending a).
Definition claims_held (t : Tables) : Prop := ∀ run l,
  tb_claims t !! run = Some l → is_Some (tb_runs t !! run) ∧ is_Some (tb_leases t !! l).
Definition leases_keyed (t : Tables) : Prop := ∀ id l, tb_leases t !! id = Some l → le_id l = id.

Record tables_wf (t : Tables) : Prop := {
  wf_runs : ∀ id r, tb_runs t !! id = Some r →
    run_id r = id ∧ run_wf r ∧ is_Some (tb_tasks t !! run_task_id r)
    ∧ ∀ o, run_retry_of r = Some o → is_Some (tb_runs t !! o);
  wf_steps : ∀ id s, tb_steps t !! id = Some s →
    step_id s = id ∧ exec_wf (step_view s) ∧ is_Some (tb_runs t !! step_run_id s);
  wf_ordinals : ∀ id id' s s', tb_steps t !! id = Some s → tb_steps t !! id' = Some s' →
    step_run_id s = step_run_id s' → step_ordinal s = step_ordinal s' → id = id';
  wf_calls : ∀ id c, tb_calls t !! id = Some c →
    call_id c = id ∧ call_wf c
    ∧ ∃ s, tb_steps t !! call_step_id c = Some s ∧ step_run_id s = call_run_id c;
  wf_artifacts : ∀ id a, tb_artifacts t !! id = Some a →
    owned t (ar_run a) (ar_step a) (ar_call a) None;
  wf_events : ∀ e, e ∈ tb_events t →
    owned t (se_run e) (ev_step (se_event e)) (ev_call (se_event e)) (ev_artifact (se_event e));
  wf_log : ∀ run, se_seq <$> log_of_run run t = N.of_nat <$> seq 1 (length (log_of_run run t));
  wf_claims : claims_held t;
  wf_leases : leases_keyed t;
  wf_approvals : ∀ id a, tb_approvals t !! id = Some a →
    ar_id a = id ∧ stored_request a ∧ asked_of_its_call t a;
}.

(** What may become of a claim: it is renewed while it is not over, and given up once. *)
Inductive lease_step : LeaseRecord → LeaseRecord → Prop :=
| lease_renewed at_ l : is_released l = false → lease_step l (renewed at_ l)
| lease_released at_ l : is_released l = false → lease_step l (released at_ l).

(** No row vanishes or changes but by the methods of its record, and no event is taken
    back. *)
Record extends (t t' : Tables) : Prop := {
  ex_tasks : ∀ id k, tb_tasks t !! id = Some k → tb_tasks t' !! id = Some k;
  ex_runs : ∀ id r, tb_runs t !! id = Some r → ∃ r', tb_runs t' !! id = Some r' ∧ rtc run_step r r';
  ex_steps : ∀ id s, tb_steps t !! id = Some s → ∃ s', tb_steps t' !! id = Some s' ∧ rtc step_step s s';
  ex_calls : ∀ id c, tb_calls t !! id = Some c → ∃ c', tb_calls t' !! id = Some c' ∧ rtc call_step c c';
  ex_artifacts : ∀ id a, tb_artifacts t !! id = Some a → tb_artifacts t' !! id = Some a;
  ex_events : tb_events t `prefix_of` tb_events t';
  ex_claims : ∀ run, is_Some (tb_runs t !! run) → tb_claims t' !! run = tb_claims t !! run;
  ex_leases : ∀ id l, tb_leases t !! id = Some l → ∃ l', tb_leases t' !! id = Some l' ∧ rtc lease_step l l';
  ex_approvals : ∀ id a, tb_approvals t !! id = Some a →
    ∃ a', tb_approvals t' !! id = Some a' ∧ rtc approval_step a a';
}.

Lemma rows_stay_trans {K V} `{Countable K} (R : relation V) (m1 m2 m3 : gmap K V) :
  (∀ k v, m1 !! k = Some v → ∃ v', m2 !! k = Some v' ∧ rtc R v v') →
  (∀ k v, m2 !! k = Some v → ∃ v', m3 !! k = Some v' ∧ rtc R v v') →
  ∀ k v, m1 !! k = Some v → ∃ v', m3 !! k = Some v' ∧ rtc R v v'.
Proof.
  intros H12 H23 k v Hv. destruct (H12 k v Hv) as (v' & Hv' & ?).
  destruct (H23 k v' Hv') as (v'' & ? & ?). exists v''. split; [done|by etrans].
Qed.
#[export] Instance extends_preorder : PreOrder extends.
Proof.
  split.
  - intros t. split; try done; intros id r Hr; by exists r.
  - intros t1 t2 t3 H12 H23. split.
    + intros id k Hk. by apply (ex_tasks _ _ H23), (ex_tasks _ _ H12).
    + eapply rows_stay_trans; [apply (ex_runs _ _ H12)|apply (ex_runs _ _ H23)].
    + eapply rows_stay_trans; [apply (ex_steps _ _ H12)|apply (ex_steps _ _ H23)].
    + eapply rows_stay_trans; [apply (ex_calls _ _ H12)|apply (ex_calls _ _ H23)].
    + intros id k Hk. by apply (ex_artifacts _ _ H23), (ex_artifacts _ _ H12).
    + etrans; [apply (ex_events _ _ H12)|apply (ex_events _ _ H23)].
    + intros run Hrun. rewrite <- (ex_claims _ _ H12 run Hrun). apply (ex_claims _ _ H23).
      destruct Hrun as [r Hr]. destruct (ex_runs _ _ H12 run r Hr) as (r' & ? & _). by exists r'.
    + eapply rows_stay_trans; [apply (ex_leases _ _ H12)|apply (ex_leases _ _ H23)].
    + eapply rows_stay_trans; [apply (ex_approvals _ _ H12)|apply (ex_approvals _ _ H23)].
Qed.

Lemma step_steps_run s s' : rtc step_step s s' → step_run_id s' = step_run_id s.
Proof. induction 1 as [|? ? ? (_ & _ & ? & _)%step_step_refines]; congruence. Qed.
Lemma call_steps_request c c' : rtc call_step c c' →
  call_id c' = call_id c ∧ call_run_id c' = call_run_id c ∧ call_step_id c' = call_step_id c
  ∧ call_tool_id c' = call_tool_id c ∧ call_input c' = call_input c.
Proof. induction 1 as [|? ? ? (? & ? & ? & ? & ? & _)%call_step_frame]; [done|]. intuition congruence. Qed.

Lemma ex_has_run t t' id : extends t t' → is_Some (tb_runs t !! id) → is_Some (tb_runs t' !! id).
Proof. intros Hex [r Hr]. destruct (ex_runs _ _ Hex id r Hr) as (r' & ? & _). by exists r'. Qed.
Lemma ex_has_task t t' id : extends t t' → is_Some (tb_tasks t !! id) → is_Some (tb_tasks t' !! id).
Proof. intros Hex [k Hk]. exists k. by apply (ex_tasks _ _ Hex). Qed.

Lemma owned_extends t t' run step call artifact :
  extends t t' → owned t run step call artifact → owned t' run step call artifact.
Proof.
  intros Hex []. split; [by eapply ex_has_run|..].
  - intros id Hid. destruct (ow_step0 id Hid) as (s & Hs & <-).
    destruct (ex_steps _ _ Hex id s Hs) as (s' & ? & ?%step_steps_run). eauto.
  - intros id Hid. destruct (ow_call0 id Hid) as (c & Hc & <-).
    destruct (ex_calls _ _ Hex id c Hc) as (c' & ? & (_ & ? & _)%call_steps_request). eauto.
  - intros id Hid. destruct (ow_artifact0 id Hid) as (a & Ha & <-).
    exists a. split; [by apply (ex_artifacts _ _ Hex)|done].
Qed.

Lemma asked_extends t t' a : extends t t' → asked_of_its_call t a → asked_of_its_call t' a.
Proof.
  intros Hex (c & Hc & Hr). destruct (ex_calls _ _ Hex _ c Hc) as (c' & Hc' & (_ & ? & _)%call_steps_request).
  exists c'. split; [done|congruence].
Qed.

Lemma tables_wf_empty : tables_wf (rs_tables RunStore_empty).
Proof.
  split; cbn; try done; try (by intros ? ? ?%lookup_empty_Some).
  by intros e ?%not_elem_of_nil.
Qed.

(** Whatever extends well-formed tables keeps what does not concern the changed rows. *)
Lemma wf_extends t t' :
  tables_wf t → extends t t' →
  (∀ id r, tb_runs t' !! id = Some r →
     run_id r = id ∧ run_wf r ∧ is_Some (tb_tasks t' !! run_task_id r)
     ∧ ∀ o, run_retry_of r = Some o → is_Some (tb_runs t' !! o)) →
  (∀ id s, tb_steps t' !! id = Some s →
     tb_steps t !! id = Some s ∨ step_id s = id ∧ exec_wf (step_view s) ∧ is_Some (tb_runs t' !! step_run_id s)) →
  (∀ id id' s s', tb_steps t' !! id = Some s → tb_steps t' !! id' = Some s' →
    step_run_id s = step_run_id s' → step_ordinal s = step_ordinal s' → id = id') →
  (∀ id c, tb_calls t' !! id = Some c →
     tb_calls t !! id = Some c ∨ call_id c = id ∧ call_wf c
       ∧ ∃ s, tb_steps t' !! call_step_id c = Some s ∧ step_run_id s = call_run_id c) →
  (∀ id a, tb_artifacts t' !! id = Some a →
     tb_artifacts t !! id = Some a ∨ owned t' (ar_run a) (ar_step a) (ar_call a) None) →
  tb_events t' = tb_events t →
  (tb_claims t' = tb_claims t ∨ claims_held t') →
  (tb_leases t' = tb_leases t ∨ leases_keyed t') →
  (∀ id a, tb_approvals t' !! id = Some a →
     tb_approvals t !! id = Some a ∨ ar_id a = id ∧ stored_request a ∧ asked_of_its_call t' a) →
  tables_wf t'.
Proof.
  intros Hwf Hex Hruns Hsteps Hord Hcalls Harts Hev Hclaims Hleases Happrovals. split; [done|..].
  - intros id s [Hs|Hs]%Hsteps; [|done]. destruct (wf_steps _ Hwf id s Hs) as (? & ? & ?).
    split_and!; [done..|]. by eapply ex_has_run.
  - done.
  - intros id c [Hc|Hc]%Hcalls; [|done]. destruct (wf_calls _ Hwf id c Hc) as (? & ? & s & Hs & ?).
    split_and!; [done..|]. destruct (ex_steps _ _ Hex _ _ Hs) as (s' & ? & ?%step_steps_run). exists s'. split; [done|congruence].
  - intros id a [Ha|Ha]%Harts; [|done]. eapply owned_extends, (wf_artifacts _ Hwf id a Ha). done.
  - rewrite Hev. intros e He. eapply owned_extends, (wf_events _ Hwf e He). done.
  - intros run. unfold log_of_run. rewrite Hev. apply (wf_log _ Hwf).
  - destruct Hclaims as [Heq|]; [|done]. intros run l. rewrite Heq.
    intros [? [r Hr]]%(wf_claims _ Hwf). split; [by eapply ex_has_run|].
    destruct (ex_leases _ _ Hex l r Hr) as (r' & ? & _). by exists r'.
  - destruct Hleases as [Heq|]; [|done]. intros id l. rewrite Heq. apply (wf_leases _ Hwf).
  - intros id a [Ha|Ha]%Happrovals; [|done]. destruct (wf_approvals _ Hwf id a Ha) as (? & ? & ?).
    split_and!; [done..|]. by eapply asked_extends.
Qed.

Definition grown (ids : list ArtifactId) (t t' : Tables) : Prop :=
  ∀ id a, tb_artifacts t' !! id = Some a → tb_artifacts t !! id = Some a ∨ id ∈ ids.
Record kept (ids : list ArtifactId) (t t' : Tables) : Prop := {
  kp_wf : tables_wf t';
  kp_extends : extends t t';
  kp_grown : grown ids t t';
}.
Lemma kept_refl ids t : tables_wf t → kept ids t t.
Proof. intros Hwf. split; [done|done|]. by left. Qed.
Lemma kept_more ids ids' t t' : (∀ id, id ∈ ids → id ∈ ids') → kept ids t t' → kept ids' t t'.
Proof. intros Hids [? ? Hg]. split; [done|done|]. intros id a Ha. destruct (Hg id a Ha); auto. Qed.
Lemma kept_trans ids t1 t2 t3 : kept ids t1 t2 → kept ids t2 t3 → kept ids t1 t3.
Proof.
  intros [] []. split; [done|by etrans|]. intros id a Ha.
  destruct (kp_grown1 id a Ha) as [Ha'|]; [by apply kp_grown0|by right].
Qed.

(** ** Changing a row *)

Lemma insert_Some {K V} `{Countable K} (m : gmap K V) k v k' v' :
  <[k := v]> m !! k' = Some v' ↔ (k = k' ∧ v' = v) ∨ (k ≠ k' ∧ m !! k' = Some v').
Proof. rewrite lookup_insert_Some. naive_solver. Qed.
Lemma is_Some_insert {K V} `{Countable K} (m : gmap K V) k v k' :
  is_Some (m !! k') → is_Some (<[k := v]> m !! k').
Proof. intros [x Hx]. destruct (decide (k = k')) as [->|]; [rewrite lookup_insert_eq|rewrite lookup_insert_ne by done]; eauto. Qed.

Lemma row_stays {K V} `{Countable K} (R : relation V) (m : gmap K V) k v :
  m !! k = Some v → ∃ v', m !! k = Some v' ∧ rtc R v v'.
Proof. intros Hv. by exists v. Qed.
Local Hint Resolve row_stays : core.
Lemma insert_kept {K V} `{Countable K} (R : relation V) (m : gmap K V) k v k' v' :
  (∀ old, m !! k = Some old → rtc R old v) →
  m !! k' = Some v' → ∃ v'', <[k := v]> m !! k' = Some v'' ∧ rtc R v' v''.
Proof.
  intros Hold Hv. destruct (decide (k = k')) as [<-|].
  - rewrite lookup_insert_eq. exists v. split; [done|]. by apply Hold.
  - rewrite lookup_insert_ne by done. by exists v'.
Qed.

Lemma set_claimed_run_kept ids t r claims :
  tables_wf t → run_wf r → is_Some (tb_tasks t !! run_task_id r) →
  (∀ o, run_retry_of r = Some o → o = run_id r ∨ is_Some (tb_runs t !! o)) →
  (∀ old, tb_runs t !! run_id r = Some old → rtc run_step old r) →
  (∀ run, is_Some (tb_runs t !! run) → claims !! run = tb_claims t !! run) →
  (∀ run l, claims !! run = Some l →
     (run = run_id r ∨ is_Some (tb_runs t !! run)) ∧ is_Some (tb_leases t !! l)) →
  kept ids t (set_claims claims (set_runs (<[run_id r := r]> (tb_runs t)) t)).
Proof.
  intros Hwf Hr Ht Ho Hold Hsame Hclaims.
  assert (extends t (set_claims claims (set_runs (<[run_id r := r]> (tb_runs t)) t))) as Hex.
  { split; try unchanged. intros id r'. cbn. by apply insert_kept. }
  split; [|done|by left]. apply (wf_extends t); [done|done|..]; try unchanged.
  - cbn. intros id r' [[<- ->]|[Hne Hr']]%insert_Some.
    + split_and!; [done..|]. intros o [->|?]%Ho; [rewrite lookup_insert_eq; eauto|by apply is_Some_insert].
    + destruct (wf_runs _ Hwf id r' Hr') as (? & ? & ? & Hret). split_and!; [done..|].
      intros o ?%Hret. by apply is_Some_insert.
  - apply (wf_ordinals _ Hwf).
  - right. intros run l Hl. destruct (Hclaims run l Hl) as [[->|Hrun] ?]; (split; [cbn|done]).
    + rewrite lookup_insert_eq. eauto.
    + by apply is_Some_insert.
Qed.
Lemma set_runs_kept ids t r :
  tables_wf t → run_wf r → is_Some (tb_tasks t !! run_task_id r) →
  (∀ o, run_retry_of r = Some o → o = run_id r ∨ is_Some (tb_runs t !! o)) →
  (∀ old, tb_runs t !! run_id r = Some old → rtc run_step old r) →
  kept ids t (set_runs (<[run_id r := r]> (tb_runs t)) t).
Proof.
  intros Hwf Hr Ht Ho Hold. apply (set_claimed_run_kept ids t r (tb_claims t)); [done..|].
  intros run l [? ?]%(wf_claims _ Hwf). auto.
Qed.

Lemma set_steps_kept ids t s :
  tables_wf t → exec_wf (step_view s) → is_Some (tb_runs t !! step_run_id s) →
  (∀ old, tb_steps t !! step_id s = Some old → rtc step_step old s) →
  (∀ id' s', tb_steps t !! id' = Some s' → step_run_id s' = step_run_id s →
     step_ordinal s' = step_ordinal s → id' = step_id s) →
  kept ids t (set_steps (<[step_id s := s]> (tb_steps t)) t).
Proof.
  intros Hwf Hs Hr Hold Hord.
  assert (extends t (set_steps (<[step_id s := s]> (tb_steps t)) t)) as Hex.
  { split; try unchanged. intros id s'. cbn. by apply insert_kept. }
  split; [|done|by left]. apply (wf_extends t); [done|done|..]; try unchanged; cbn.
  - apply (wf_runs _ Hwf).
  - intros id s' [[<- ->]|[Hne Hs']]%insert_Some; [by right|by left].
  - intros id id' s1 s2 [[<- ->]|[Hne1 Hs1]]%insert_Some [[<- ->]|[Hne2 Hs2]]%insert_Some Hrun Ho; [done|..].
    + symmetry. by apply Hord with s2.
    + by apply Hord with s1.
    + by apply (wf_ordinals _ Hwf _ _ s1 s2).
Qed.

Lemma set_calls_kept ids t c :
  tables_wf t → call_wf c →
  (∃ s, tb_steps t !! call_step_id c = Some s ∧ step_run_id s = call_run_id c) →
  (∀ old, tb_calls t !! call_id c = Some old → rtc call_step old c) →
  kept ids t (set_calls (<[call_id c := c]> (tb_calls t)) t).
Proof.
  intros Hwf Hc Hs Hold.
  assert (extends t (set_calls (<[call_id c := c]> (tb_calls t)) t)) as Hex.
  { split; try unchanged. intros id c'. cbn. by apply insert_kept. }
  split; [|done|by left]. apply (wf_extends t); [done|done|..]; try unchanged; cbn.
  - apply (wf_runs _ Hwf).
  - apply (wf_ordinals _ Hwf).
  - intros id c' [[<- ->]|[Hne Hc']]%insert_Some; [by right|by left].
Qed.

Lemma lease_steps_id l l' : rtc lease_step l l' → le_id l' = le_id l.
Proof. induction 1 as [|? ? ? [] _ ->]; done. Qed.
Lemma set_leases_kept ids t l :
  tables_wf t → (∀ old, tb_leases t !! le_id l = Some old → rtc lease_step old l) →
  kept ids t (set_leases (<[le_id l := l]> (tb_leases t)) t).
Proof.
  intros Hwf Hold.
  assert (extends t (set_leases (<[le_id l := l]> (tb_leases t)) t)) as Hex.
  { split; try unchanged. intros id l'. cbn. by apply insert_kept. }
  split; [|done|by left]. apply (wf_extends t); [done|done|..]; try unchanged.
  - apply (wf_runs _ Hwf).
  - apply (wf_ordinals _ Hwf).
  - right. intros id l'. cbn. intros [[<- ->]|[_ Hl]]%insert_Some; [done|]. by apply (wf_leases _ Hwf).
Qed.

Lemma set_approvals_kept ids t a :
  tables_wf t → stored_request a → asked_of_its_call t a →
  (∀ old, tb_approvals t !! ar_id a = Some old → rtc approval_step old a) →
  kept ids t (set_approvals (<[ar_id a := a]> (tb_approvals t)) t).
Proof.
  intros Hwf Ha Hcall Hold.
  assert (extends t (set_approvals (<[ar_id a := a]> (tb_approvals t)) t)) as Hex.
  { split; try unchanged. intros id a'. cbn. by apply insert_kept. }
  split; [|done|by left]. apply (wf_extends t); [done|done|..]; try unchanged.
  - apply (wf_runs _ Hwf).
  - apply (wf_ordinals _ Hwf).
  - intros id a'. cbn. intros [[<- ->]|[_ Ha']]%insert_Some; [by right|by left].
Qed.

(** The tables with another log, and the artifacts its events came with. *)
Definition logged (events : list StoredEvent) (artifacts : gmap ArtifactId ArtifactRow) (t : Tables) : Tables :=
  set_artifacts artifacts (set_events events t).
Lemma logged_same t : logged (tb_events t) (tb_artifacts t) t = t.
Proof. by destruct t. Qed.

(** Storing what a method of the domain made of a row is a change of the invariant. *)
Class RowLaws (R Id : Type) `{Countable Id, !Row R Id} (step : R → R → Prop) : Prop := {
  rl_reads :: RowReads R Id;
  rl_table : ∀ t m, row_table (set_row_table m t) = m;
  rl_twice : ∀ t m m', set_row_table m' (set_row_table m t) = set_row_table m' t;
  rl_events : ∀ t m, tb_events (set_row_table m t) = tb_events t;
  rl_artifacts : ∀ t m, tb_artifacts (set_row_table m t) = tb_artifacts t;
  rl_logged : ∀ t events artifacts, row_table (logged events artifacts t) = row_table t;
  rl_under_log : ∀ t m events artifacts,
    set_row_table m (logged events artifacts t) = logged events artifacts (set_row_table m t);
  rl_same : ∀ t, set_row_table (row_table t) t = t;
  rl_keyed : ∀ t id r, tables_wf t → row_table t !! id = Some r → row_id r = id;
  rl_id : ∀ r r', step r r' → row_id r' = row_id r;
  rl_run : ∀ r r', step r r' → row_run r' = row_run r;
  rl_store : ∀ ids t r r', tables_wf t → row_table t !! row_id r = Some r → step r r' →
    kept ids t (set_row_table (<[row_id r := r']> (row_table t)) t);
}.

#[export] Instance run_laws : RowLaws Run RunId run_step.
Proof.
  split; [apply _|done|done|done|done|done|done|by intros []| | | |].
  - intros t id r Hwf Hr. by apply (wf_runs _ Hwf).
  - by intros r r' (_ & Hid & _)%run_step_refines.
  - by intros r r' (_ & Hid & _)%run_step_refines.
  - intros ids t r r' Hwf Hr Hs. destruct (wf_runs _ Hwf _ _ Hr) as (_ & Hrwf & Ht & Hret).
    pose proof (run_step_refines _ _ Hs) as (_ & Hid & Htask & Hre & _). cbn in *. rewrite <- Hid.
    apply set_runs_kept; [done|by eapply run_step_wf|by rewrite Htask|..].
    + rewrite Hre. intros o ?. right. by apply Hret.
    + rewrite Hid, Hr. intros old [= <-]. by apply rtc_once.
Qed.
#[export] Instance step_laws : RowLaws Step StepId step_step.
Proof.
  split; [apply _|done|done|done|done|done|done|by intros []| | | |].
  - intros t id r Hwf Hr. by apply (wf_steps _ Hwf).
  - by intros r r' (_ & Hid & _)%step_step_refines.
  - by intros r r' (_ & _ & Hr & _)%step_step_refines.
  - intros ids t r r' Hwf Hr Hs. cbn [row_table set_row_table row_id step_row] in *.
    destruct (wf_steps _ Hwf _ _ Hr) as (_ & Hrwf & Hrun).
    pose proof (step_step_refines _ _ Hs) as (He & Hid & Hr' & Ho & _). rewrite <- Hid.
    apply set_steps_kept; [done|by eapply exec_edge_wf|by rewrite Hr'| |].
    + rewrite Hid, Hr. intros old [= <-]. by apply rtc_once.
    + intros id' s' Hs' Hrr Hoo. rewrite Hid. apply (wf_ordinals _ Hwf id' _ s' r); congruence.
Qed.
#[export] Instance call_laws : RowLaws ToolCall ToolCallId call_step.
Proof.
  split; [apply _|done|done|done|done|done|done|by intros []| | | |].
  - intros t id r Hwf Hr. by apply (wf_calls _ Hwf).
  - by intros r r' (Hid & _)%call_step_frame.
  - by intros r r' (_ & Hr & _)%call_step_frame.
  - intros ids t c c' Hwf Hc Hs. cbn [row_table set_row_table row_id call_row] in *.
    destruct (wf_calls _ Hwf _ _ Hc) as (_ & Hcwf & Hstep).
    pose proof (call_step_frame _ _ Hs) as (Hid & Hrun & Hst & _). rewrite <- Hid.
    apply set_calls_kept; [done|by eapply call_step_wf|by rewrite Hrun, Hst|].
    rewrite Hid, Hc. intros old [= <-]. by apply rtc_once.
Qed.

(** ** What each statement keeps *)

Definition tx_keeps {A} (ids : list ArtifactId) (m : txM A) : Prop :=
  ∀ t a t', tables_wf t → m t = (Ok a, t') → kept ids t t'.

Lemma tx_keeps_bind {A B} ids (m : txM A) (f : A → txM B) :
  tx_keeps ids m → (∀ a, tx_keeps ids (f a)) → tx_keeps ids (m ≫= f).
Proof.
  intros Hm Hf t b t' Hwf (a & t1 & Hm1 & Hf1)%bindM_Ok.
  pose proof (Hm t a t1 Hwf Hm1) as Hk. eapply kept_trans; [exact Hk|].
  eapply Hf; [apply Hk|exact Hf1].
Qed.
Lemma tx_keeps_ret {A} ids (a : A) : tx_keeps ids (mret a).
Proof. intros t b t' Hwf [_ ->]%ret_Ok. by apply kept_refl. Qed.
Lemma tx_keeps_lift {A} ids (r : result StoreError A) : tx_keeps ids (lift r).
Proof. intros t b t' Hwf [_ ->]%lift_Ok. by apply kept_refl. Qed.

Section rows_keep.
Context {R Id} {step : R → R → Prop} `{Countable Id, !Row R Id, !RowLaws R Id step}.

Lemma load_row_Ok (id : Id) t (r : R) t' :
  load_row id t = (Ok r, t') ↔ t' = t ∧ row_table t !! id = Some r ∧ row_decode r = Ok r.
Proof.
  unfold load_row. destruct (row_table t !! id) as [r0|] eqn:Hr.
  - split.
    + intros Hl. destruct (row_decode r0) as [r1|e] eqn:Hd; cbn in Hl; [|discriminate].
      pose proof (rl_reads _ _ Hd) as ->. by injection Hl as <- <-.
    + intros (-> & [= ->] & ->). done.
  - split; [discriminate|]. by intros (_ & ? & _).
Qed.
Lemma change_record_Ok m (r : R) t r' t' :
  change_record m r t = (Ok r', t') ↔ t' = t ∧ m r = (Ok tt, r').
Proof.
  unfold change_record. destruct (m r) as [[[]|e] r1].
  - rewrite ret_Ok. naive_solver.
  - rewrite lift_Ok. split; [intros [? _]; discriminate|intros [_ ?]; discriminate].
Qed.
Lemma loaded_and_moved_Ok id m t (r' : R) t' :
  loaded_and_moved id m t = (Ok r', t') ↔
  t' = t ∧ ∃ r, row_table t !! id = Some r ∧ row_decode r = Ok r ∧ m r = (Ok tt, r').
Proof.
  unfold loaded_and_moved. rewrite bindM_Ok. split.
  - intros (r & t1 & (-> & Hr & Hd)%load_row_Ok & (-> & Hm)%change_record_Ok). eauto.
  - intros (-> & r & Hr & Hd & Hm). exists r, t. by rewrite load_row_Ok, change_record_Ok.
Qed.
Lemma update_row_Ok (r : R) t u t' :
  update_row r t = (Ok u, t') ↔ row_columns r = Ok tt ∧ ∃ stored, row_table t !! row_id r = Some stored
    ∧ t' = set_row_table (<[row_id r := row_update stored r]> (row_table t)) t.
Proof.
  unfold update_row. rewrite bindM_Ok. split.
  - intros ([] & t1 & [Hc ->]%lift_Ok & (t2 & t3 & [-> ->]%get_Ok & Hu)%bindM_Ok).
    split; [done|]. destruct (row_table t !! row_id r) as [stored|]; [|done].
    exists stored. split; [done|]. unfold modify in Hu. naive_solver.
  - intros (Hc & stored & Hs & ->). exists tt, t. rewrite lift_Ok. split; [done|].
    rewrite bindM_Ok. exists t, t. rewrite get_Ok. split; [done|]. rewrite Hs. by destruct u.
Qed.

(** A record moved by a method of the domain, from the row it is stored in. *)
Definition moves_stored (change : txM R) : Prop :=
  ∀ t r' t', tables_wf t → change t = (Ok r', t') →
    t' = t ∧ ∃ r, row_table t !! row_id r = Some r ∧ step r r'.
Lemma loaded_moves id m :
  (∀ r r', m r = (Ok tt, r') → step r r') → moves_stored (loaded_and_moved id m).
Proof.
  intros Hm t r' t' Hwf (-> & r & Hr & _ & Hrr)%loaded_and_moved_Ok. split; [done|].
  exists r. rewrite (rl_keyed _ _ _ Hwf Hr). split; [done|by apply Hm].
Qed.

(** The columns written, and the version a dispatch pins, are all of the change. *)
Definition writes (pin : R → txM unit) : Prop := ∀ r r', step r r' →
  ∀ t u t' u' t'', row_table t !! row_id r = Some r →
    update_row r' t = (Ok u, t') → pin r' t' = (Ok u', t'') →
    t'' = set_row_table (<[row_id r := r']> (row_table t)) t.
Lemma writes_whole : (∀ r r', step r r' → row_update r r' = r') → writes (λ _, mret tt).
Proof.
  intros Hw r r' Hs t u t' u' t'' Hr (_ & stored & Hst & ->)%update_row_Ok [_ ->]%ret_Ok.
  rewrite (rl_id _ _ Hs) in *. rewrite Hr in Hst. injection Hst as <-. by rewrite Hw.
Qed.

(** The table a change leaves: the row, moved, in place of the stored one. *)
Lemma change_writes (change : txM R) pin t r' t1 u t2 u' t3 :
  moves_stored change → writes pin → tables_wf t →
  change t = (Ok r', t1) → update_row r' t1 = (Ok u, t2) → pin r' t2 = (Ok u', t3) →
  ∃ r, row_table t !! row_id r = Some r ∧ step r r'
    ∧ t3 = set_row_table (<[row_id r := r']> (row_table t)) t.
Proof.
  intros Hc Hw Hwf Hch Hu Hp. destruct (Hc t r' t1 Hwf Hch) as (-> & r & Hr & Hs).
  exists r. split_and!; [done..|]. eauto.
Qed.
Lemma mutate_keeps_tx ids (change : txM R) :
  moves_stored change → writes (λ _, mret tt) →
  tx_keeps ids (r ← change; _ ← update_row r; mret r).
Proof.
  intros Hc Hw t a t' Hwf (r' & t1 & Hch & (u & t2 & Hu & [-> ->]%ret_Ok)%bindM_Ok)%bindM_Ok.
  destruct (change_writes change (λ _, mret tt) t r' t1 u t2 tt t2) as (r & Hr & Hs & ->); try done.
  by apply rl_store.
Qed.
End rows_keep.

(** The methods of the domain that leave a recorded version alone. *)
Definition call_still (c c' : ToolCall) : Prop := call_step c c' ∧ call_tool_version c' = call_tool_version c.
#[export] Instance call_still_laws : RowLaws ToolCall ToolCallId call_still.
Proof.
  destruct call_laws. split; try done; [by intros ? ? [? _]; eauto..|].
  intros ids t r r' ? ? [? _]. eauto.
Qed.

Lemma run_writes : writes (step:=run_step) (λ _, mret tt).
Proof. apply writes_whole, run_step_updates. Qed.
Lemma step_writes : writes (step:=step_step) (λ _, mret tt).
Proof. apply writes_whole, step_step_updates. Qed.
Lemma call_writes : writes (step:=call_still) (λ _, mret tt).
Proof. apply writes_whole. intros c c' [Hs Hv]. by apply call_step_keeps_row. Qed.
Lemma dispatch_writes : writes (step:=call_step) pin_tool_call_version.
Proof.
  intros c c' Hs t u t' u' t'' Hc (_ & stored & Hst & ->)%update_row_Ok Hp.
  cbn [row_table row_id set_row_table call_row] in *.
  destruct (call_step_frame _ _ Hs) as (Hid & _). rewrite Hid in *. rewrite Hc in Hst. injection Hst as <-.
  unfold pin_tool_call_version in Hp.
  apply bindM_Ok in Hp as ([] & t1 & [_ ->]%lift_Ok & (t2 & t3 & [-> ->]%get_Ok & Hp)%bindM_Ok).
  cbn [tb_calls set_calls] in Hp. rewrite Hid, lookup_insert_eq in Hp. apply modify_Ok in Hp as ->.
  rewrite (call_step_updates c c' Hs). unfold set_calls. cbn. by rewrite insert_insert_eq.
Qed.

(** A method that writes no version, by the shape of what it did. *)
Lemma still_intro c c' (m : stateM ToolCall RunDomainError unit) :
  (m c = (Ok tt, c') → call_step c c') → (m c = (Ok tt, c') → call_tool_version c' = call_tool_version c) →
  m c = (Ok tt, c') → call_still c c'.
Proof. by split; auto. Qed.
Ltac version_still :=
  let Hm := fresh in intros Hm;
  unfold ToolCall_apply_policy_decision, ToolCall_transition, ToolCall_succeed, ToolCall_fail,
    ToolCall_approve, ToolCall_reject_approval in Hm; method_inv Hm;
  try match goal with
  | H : match pd_verdict ?d with _ => _ end _ = _ |- _ => destruct (pd_verdict d); method_inv H
  end; done.
Lemma decide_still d at_ c c' : ToolCall_apply_policy_decision d at_ c = (Ok tt, c') → call_still c c'.
Proof. apply still_intro; [apply call_does_policy|version_still]. Qed.
Lemma transition_still to at_ c c' : ToolCall_transition to at_ c = (Ok tt, c') → call_still c c'.
Proof. apply still_intro; [apply call_does_transition|version_still]. Qed.
Lemma succeed_still output at_ c c' : ToolCall_succeed output at_ c = (Ok tt, c') → call_still c c'.
Proof. apply still_intro; [apply call_does_succeed|version_still]. Qed.
Lemma fail_still f at_ c c' : ToolCall_fail f at_ c = (Ok tt, c') → call_still c c'.
Proof. apply still_intro; [apply call_does_fail|version_still]. Qed.
Lemma approve_still who at_ c c' : ToolCall_approve who at_ c = (Ok tt, c') → call_still c c'.
Proof. apply still_intro; [apply call_does_approve|version_still]. Qed.
Lemma reject_still who f at_ c c' : ToolCall_reject_approval who f at_ c = (Ok tt, c') → call_still c c'.
Proof. apply still_intro; [apply call_does_reject|version_still]. Qed.

(** *** Inserting *)

Lemma is_present_Some {V} (o : option V) : is_present o = true ↔ is_Some o.
Proof. destruct o; cbn; split; [eauto|done|done|by intros []]. Qed.
Lemma insert_unique_Ok record b t u t' : insert_unique record b t = (Ok u, t') ↔ t' = t ∧ b = false.
Proof. destruct b, u; cbn; [|rewrite ret_Ok]; naive_solver. Qed.
Lemma absent {V} (o : option V) : is_present o = false → o = None.
Proof. by destruct o. Qed.

Lemma step_of_run_spec run step t :
  step_of_run run step t = true ↔ ∃ s, tb_steps t !! step = Some s ∧ step_run_id s = run.
Proof.
  unfold step_of_run. destruct (tb_steps t !! step) as [s|]; [rewrite bool_decide_eq_true|]; naive_solver.
Qed.
Lemma call_of_run_spec run call t :
  call_of_run run call t = true ↔ ∃ c, tb_calls t !! call = Some c ∧ call_run_id c = run.
Proof.
  unfold call_of_run. destruct (tb_calls t !! call) as [c|]; [rewrite bool_decide_eq_true|]; naive_solver.
Qed.
Lemma artifact_of_run_spec run a t :
  artifact_of_run run a t = true ↔ ∃ r, tb_artifacts t !! a = Some r ∧ ar_run r = run.
Proof.
  unfold artifact_of_run. destruct (tb_artifacts t !! a) as [r|]; [rewrite bool_decide_eq_true|]; naive_solver.
Qed.
Lemma optional_of_spec {A} (p : A → bool) o : optional_of p o = true ↔ ∀ a, o = Some a → p a = true.
Proof. destruct o; cbn; naive_solver. Qed.

Lemma optional_step run o t :
  optional_of (λ s, step_of_run run s t) o = true →
  ∀ id, o = Some id → ∃ s, tb_steps t !! id = Some s ∧ step_run_id s = run.
Proof. rewrite optional_of_spec. intros Ho id Hid. by apply step_of_run_spec, Ho. Qed.
Lemma optional_call run o t :
  optional_of (λ c, call_of_run run c t) o = true →
  ∀ id, o = Some id → ∃ c, tb_calls t !! id = Some c ∧ call_run_id c = run.
Proof. rewrite optional_of_spec. intros Ho id Hid. by apply call_of_run_spec, Ho. Qed.
Lemma optional_artifact run o t :
  optional_of (λ a, artifact_of_run run a t) o = true →
  ∀ id, o = Some id → ∃ a, tb_artifacts t !! id = Some a ∧ ar_run a = run.
Proof. rewrite optional_of_spec. intros Ho id Hid. by apply artifact_of_run_spec, Ho. Qed.

Lemma ordinal_free s t id s' :
  ordinal_taken s t = false → tb_steps t !! id = Some s' → step_run_id s' = step_run_id s →
  step_ordinal s' ≠ step_ordinal s.
Proof.
  unfold ordinal_taken. intros Hf Hs Hr Ho. apply not_true_iff_false in Hf. apply Hf, existsb_exists.
  exists s'. split; [|by rewrite !bool_decide_true].
  apply list_elem_of_In, (list_elem_of_fmap_2 snd _ (id, s')). by apply elem_of_map_to_list.
Qed.

(** Unfold a successful statement to the facts it checked. *)
Ltac tx_inv H :=
  repeat first
    [ apply bindM_Ok in H as (? & ? & [-> ->]%get_Ok & H)
    | apply bindM_Ok in H as (? & ? & [? ->]%lift_Ok & H)
    | apply bindM_Ok in H as (? & ? & [-> ?]%insert_unique_Ok & H) ];
  repeat match goal with
  | H : ensure _ _ = Ok _ |- _ => apply ensure_Ok in H
  | H : is_present _ = false |- _ => apply absent in H
  | H : is_present _ = true |- _ => apply is_present_Some in H
  end; bool_hyps.

Lemma insert_task_keeps ids task : tx_keeps ids (insert_task_row task).
Proof.
  intros t u t' Hwf Hi. unfold insert_task_row in Hi. tx_inv Hi. apply modify_Ok in Hi as ->.
  assert (extends t (set_tasks (<[task_id task := task]> (tb_tasks t)) t)) as Hex.
  { split; try unchanged. intros id k Hk. cbn. rewrite lookup_insert_ne; [done|congruence]. }
  split; [|done|by left]. apply (wf_extends t); [done|done|..]; try unchanged.
  - cbn. intros id r Hr. destruct (wf_runs _ Hwf id r Hr) as (? & ? & ? & ?).
    split_and!; [done..| |done]. by apply is_Some_insert.
  - apply (wf_ordinals _ Hwf).
Qed.
Lemma claim_run_lookup run owner claims id :
  id ≠ run → claim_run run owner claims !! id = claims !! id.
Proof. intros Hne. destruct owner; cbn; [|done]. by rewrite lookup_insert_ne. Qed.
Lemma insert_run_keeps ids run owner t u t' :
  run_wf run → (∀ l, owner = Some l → is_Some (tb_leases t !! l)) → tables_wf t →
  insert_run_row run owner t = (Ok u, t') → kept ids t t'.
Proof.
  intros Hr Hl Hwf Hi. unfold insert_run_row in Hi. tx_inv Hi. apply modify_Ok in Hi as ->.
  apply set_claimed_run_kept; [done|done|by apply is_present_Some| |congruence|..].
  - intros o Ho. rewrite Ho in *.
    match goal with Hb : _ || _ = true |- _ => apply orb_true_iff in Hb as [?%is_present_Some|?%bool_decide_eq_true] end; auto.
  - intros id [r0 Hr0]. apply claim_run_lookup. congruence.
  - intros id l Hc. destruct (decide (id = run_id run)) as [->|Hne].
    + split; [by left|]. destruct owner as [l'|]; cbn in Hc.
      * rewrite lookup_insert_eq in Hc. injection Hc as <-. by apply Hl.
      * by destruct (wf_claims _ Hwf _ _ Hc) as [[? ?] _]; congruence.
    + rewrite claim_run_lookup in Hc by done. destruct (wf_claims _ Hwf _ _ Hc). auto.
Qed.
Lemma ensure_lease_keeps ids l t u t' :
  tables_wf t → ensure_lease l t = (Ok u, t') → kept ids t t' ∧ is_Some (tb_leases t' !! le_id l).
Proof.
  intros Hwf Hi. unfold ensure_lease in Hi. tx_inv Hi.
  destruct (tb_leases t !! le_id l) as [old|] eqn:Hl; cbn in Hi.
  - apply ret_Ok in Hi as [_ ->]. split; [by apply kept_refl|]. by exists old.
  - apply modify_Ok in Hi as ->. split; [apply set_leases_kept; [done|congruence]|].
    cbn. rewrite lookup_insert_eq. eauto.
Qed.
Lemma insert_owned_run_keeps ids run owner : run_wf run → tx_keeps ids (insert_owned_run run owner).
Proof.
  intros Hr t u t' Hwf (u' & t1 & He & Hi)%bindM_Ok. destruct owner as [l|]; cbn in *.
  - apply (ensure_lease_keeps ids) in He as [Hk Hl]; [|done]. eapply kept_trans; [exact Hk|].
    apply (insert_run_keeps ids run (Some (le_id l)) t1 u t' Hr); [|apply Hk|exact Hi]. by intros ? [= <-].
  - apply ret_Ok in He as [_ ->]. apply (insert_run_keeps ids run None t u t' Hr); [by intros|done|exact Hi].
Qed.
Lemma insert_unowned_run_keeps ids run : run_wf run → tx_keeps ids (insert_run_row run None).
Proof. intros Hr t u t' Hwf. by apply insert_run_keeps. Qed.
Lemma insert_step_keeps ids step : exec_wf (step_view step) → tx_keeps ids (insert_step_row step).
Proof.
  intros Hs t u t' Hwf Hi. unfold insert_step_row in Hi. tx_inv Hi. apply modify_Ok in Hi as ->.
  apply set_steps_kept; [done|done|done|congruence|].
  intros id' s' Hs' Hr Ho. exfalso. by eapply ordinal_free.
Qed.
Lemma insert_tool_call_keeps ids c : call_wf c → tx_keeps ids (insert_tool_call_row c).
Proof.
  intros Hc t u t' Hwf Hi. unfold insert_tool_call_row in Hi. tx_inv Hi. apply modify_Ok in Hi as ->.
  apply set_calls_kept; [done|done|by apply step_of_run_spec|congruence].
Qed.
Lemma insert_artifact_keeps id row : tx_keeps [id] (insert_artifact_row id row).
Proof.
  intros t u t' Hwf Hi. unfold insert_artifact_row in Hi. tx_inv Hi. apply modify_Ok in Hi as ->.
  assert (extends t (set_artifacts (<[id := row]> (tb_artifacts t)) t)) as Hex.
  { split; try unchanged. intros id' a Ha. cbn. rewrite lookup_insert_ne; [done|congruence]. }
  assert (owned (set_artifacts (<[id := row]> (tb_artifacts t)) t) (ar_run row) (ar_step row) (ar_call row) None) as Ho.
  { split; cbn; [by apply is_present_Some| | |done].
    - by apply optional_step.
    - by apply optional_call. }
  split; [|done|].
  - apply (wf_extends t); [done|done|..]; try unchanged; cbn.
    + apply (wf_runs _ Hwf).
    + apply (wf_ordinals _ Hwf).
    + intros id' a [[<- ->]|[? ?]]%insert_Some; [by right|by left].
  - intros id' a. cbn. intros [[<- ->]|[? ?]]%insert_Some; [right; by left|by left].
Qed.

(** *** The log *)

Lemma seq_max n : fold_right N.max 0%N (N.of_nat <$> seq 1 n) = N.of_nat n.
Proof.
  induction n as [|n IH]; [done|]. rewrite seq_S, fmap_app, foldr_app. cbn.
  assert (∀ l k, fold_right N.max k l = N.max (fold_right N.max 0%N l) k) as Hk.
  { intros l k. induction l as [|x l IHl]; cbn; [lia|]. rewrite IHl. lia. }
  rewrite Hk, IH. lia.
Qed.
(** The next position is one past the length of the log. *)
Lemma latest_is_length run t :
  tables_wf t → latest_sequence run t = N.of_nat (length (log_of_run run t)).
Proof. intros Hwf. unfold latest_sequence. fold (log_of_run run t). rewrite (wf_log _ Hwf). apply seq_max. Qed.

Lemma append_event_row_Ok run e t n t' :
  append_event_row run e t = (Ok n, t') →
  n = (latest_sequence run t + 1)%N ∧ t' = set_events (tb_events t ++ [MkStoredEvent run n e]) t
  ∧ owned t run (ev_step e) (ev_call e) (ev_artifact e).
Proof.
  intros Ha. unfold append_event_row in Ha. tx_inv Ha.
  apply ret_Ok in Ha as [-> ->].
  split; [done|]. split; [done|]. split.
  - by apply is_present_Some.
  - by apply optional_step.
  - by apply optional_call.
  - by apply optional_artifact.
Qed.
Lemma append_event_keeps ids run e : tx_keeps ids (append_event_row run e).
Proof.
  intros t n t' Hwf (Hn & -> & Ho)%append_event_row_Ok.
  assert (extends t (set_events (tb_events t ++ [MkStoredEvent run n e]) t)) as Hex.
  { split; try unchanged. by eexists. }
  split; [|done|by left]. split; cbn.
  - apply (wf_runs _ Hwf).
  - apply (wf_steps _ Hwf).
  - apply (wf_ordinals _ Hwf).
  - apply (wf_calls _ Hwf).
  - intros id a Ha. eapply owned_extends, (wf_artifacts _ Hwf id a Ha). done.
  - intros e' [He'| ->%list_elem_of_singleton]%elem_of_app; cbn; (eapply owned_extends; [exact Hex|]); [|done].
    by apply (wf_events _ Hwf).
  - intros run'. unfold log_of_run. cbn. rewrite filter_app, filter_cons. cbn [se_run].
    fold (log_of_run run' t). case_decide as Hr.
    + subst run'. rewrite fmap_app, length_app, (wf_log _ Hwf), seq_app, fmap_app. cbn [length]. f_equal. cbn.
      f_equal. rewrite Hn, latest_is_length by done. lia.
    + rewrite filter_nil, app_nil_r. apply (wf_log _ Hwf).
  - apply (wf_claims _ Hwf).
  - apply (wf_leases _ Hwf).
  - apply (wf_approvals _ Hwf).
Qed.

Definition sealed_ids (p : PreparedEvent) : list ArtifactId :=
  match pe_sealed p with Some (id, _) => [id] | None => [] end.
Lemma prepared_append_keeps run p : tx_keeps (sealed_ids p) (PreparedEvent_append run p).
Proof.
  unfold PreparedEvent_append, sealed_ids. apply tx_keeps_bind; [|intros; apply append_event_keeps].
  destruct (pe_sealed p) as [[id row]|]; [apply insert_artifact_keeps|apply tx_keeps_ret].
Qed.
Lemma tx_keeps_more {A} ids ids' (m : txM A) :
  (∀ id, id ∈ ids → id ∈ ids') → tx_keeps ids m → tx_keeps ids' m.
Proof.
  intros Hids Hm t a t' Hwf Hrun. eapply kept_more, Hm; done.
Qed.
End tables.

(** ** The store *)

(** A fresh identifier is drawn once. *)
Class FreshLaws `{Fresh} : Prop := fresh_inj : Inj (=) (=) fresh_uuid.

Section store.
Context `{PlatformLaws, !StoreParams, Faults, !Fresh, !FreshLaws}.
Abbreviation txM A := (stateM Tables StoreError A).
Abbreviation storeM A := (stateM RunStore StoreError A).

(** Every artifact row has its file, under an identifier drawn before now. *)
Definition drawn (s : RunStore) (id : ArtifactId) : Prop :=
  ∃ n, n < rs_io s ∧ id = MkArtifactId (fresh_uuid n).
Record store_wf (s : RunStore) : Prop := {
  sw_tables : tables_wf (rs_tables s);
  sw_files : ∀ id a, tb_artifacts (rs_tables s) !! id = Some a → id ∈ rs_files s ∧ drawn s id;
}.

(** What no operation changes when it is refused. *)
Record later (s s' : RunStore) : Prop := {
  lt_tables : rs_tables s' = rs_tables s;
  lt_io : rs_io s ≤ rs_io s';
}.
#[export] Instance later_preorder : PreOrder later.
Proof. split; [by split|]. intros s1 s2 s3 [] []. split; [congruence|lia]. Qed.

Lemma store_wf_later s s' :
  store_wf s → later s s' → (∀ id, id ∈ rs_files s → id ∈ rs_files s') → store_wf s'.
Proof.
  intros [Ht Hf] [Hl Hio] Hfiles. split; rewrite Hl; [done|]. intros id a Ha.
  destruct (Hf id a Ha) as [? (n & ? & ->)]. split; [by apply Hfiles|]. exists n. split; [lia|done].
Qed.

Definition keeps {A} (m : storeM A) : Prop := ∀ s r s',
  store_wf s → m s = (r, s') →
  store_wf s' ∧ extends (rs_tables s) (rs_tables s') ∧ rs_io s ≤ rs_io s'
  ∧ ∀ e, r = Err e → rs_tables s' = rs_tables s.

Lemma attempt_spec e s : attempt e s = ((if io_fails (rs_io s) then Err e else Ok tt), tick s).
Proof. unfold attempt. by destruct (io_fails _). Qed.

Lemma in_write_transaction_spec {A} (change : txM A) s r s' :
  in_write_transaction change s = (r, s') →
  rs_files s' = rs_files s ∧ rs_io s ≤ rs_io s' ∧
  match r with
  | Ok a => change (rs_tables s) = (Ok a, rs_tables s')
  | Err _ => rs_tables s' = rs_tables s
  end.
Proof.
  unfold in_write_transaction, mbind, stateM_bind. rewrite attempt_spec.
  destruct (io_fails (rs_io s)); [intros [= <- <-]; cbn; split_and!; [done|lia|done]|].
  unfold commit_change. cbn [rs_tables tick]. destruct (change (rs_tables s)) as [[a|e] t] eqn:Hc.
  - rewrite attempt_spec. destruct (io_fails _); intros [= <- <-]; cbn; split_and!; try done; lia.
  - intros [= <- <-]. cbn. split_and!; [done|lia|done].
Qed.
Lemma with_reader_spec {A} (read : txM A) s r s' :
  with_reader read s = (r, s') →
  s' = tick s ∧ ∀ a, r = Ok a → (read (rs_tables s)).1 = Ok a.
Proof.
  unfold with_reader, mbind, stateM_bind. rewrite attempt_spec.
  destruct (io_fails (rs_io s)); [intros [= <- <-]; done|].
  unfold read_tables. intros [= <- <-]. cbn. split; [done|]. intros a Ha. exact Ha.
Qed.
Lemma later_tick s : later s (tick s).
Proof. split; [done|cbn; lia]. Qed.

(** *** Prepared events *)

Definition pending (p : PreparedEvent) (s : RunStore) : Prop :=
  ∀ id, id ∈ sealed_ids p →
    id ∈ rs_files s ∧ drawn s id ∧ tb_artifacts (rs_tables s) !! id = None.

Lemma seal_payload_spec s r s' :
  store_wf s → seal_payload s = (r, s') →
  store_wf s' ∧ later s s' ∧ (∀ id, id ∈ rs_files s → id ∈ rs_files s')
  ∧ ∀ id, r = Ok id → id = MkArtifactId (fresh_uuid (rs_io s)) ∧ id ∈ rs_files s'
    ∧ rs_io s < rs_io s' ∧ tb_artifacts (rs_tables s') !! id = None.
Proof.
  intros Hwf. unfold seal_payload, mbind, stateM_bind, get, modify. rewrite attempt_spec.
  pose proof (later_tick s) as Hl0.
  destruct (io_fails (rs_io s)); intros [= <- <-].
  { split_and!; [|done..]. by apply (store_wf_later s). }
  set (id := MkArtifactId (fresh_uuid (rs_io s))).
  assert (later s (MkRunStore (rs_tables (tick s)) ({[id]} ∪ rs_files (tick s)) (rs_io (tick s)))) as Hl
    by (split; cbn; [done|lia]).
  split; [|split; [exact Hl|split]].
  - eapply store_wf_later; [exact Hwf|exact Hl|]. cbn. set_solver.
  - cbn. set_solver.
  - intros i [= <-]. split_and!; [done|cbn; set_solver|cbn; lia|]. apply eq_None_not_Some. intros [a Ha].
    destruct (sw_files _ Hwf _ _ Ha) as [_ (n & Hn & Heq)].
    injection Heq as Heq. apply fresh_inj in Heq. lia.
Qed.
Lemma prepare_event_spec run e s r s' :
  store_wf s → prepare_event run e s = (r, s') →
  store_wf s' ∧ later s s' ∧ (∀ id, id ∈ rs_files s → id ∈ rs_files s')
  ∧ ∀ p, r = Ok p → pending p s'
      ∧ ∀ id, id ∈ sealed_ids p → ∃ n, rs_io s ≤ n ∧ id = MkArtifactId (fresh_uuid n).
Proof.
  intros Hwf. unfold prepare_event.
  destruct (encoded_len (redact_payload (ev_payload e)) <=? MAX_INLINE_PAYLOAD_BYTES)%N.
  { intros [= <- <-]. split_and!; [done|done|done|]. intros p [= <-]. split; by intros id ?%not_elem_of_nil. }
  unfold mbind, stateM_bind. destruct (require_run run s) as [x s0] eqn:Hreq.
  apply with_reader_spec in Hreq as [-> _]. pose proof (later_tick s) as Hl0.
  assert (store_wf (tick s)) as Hwf0 by (apply (store_wf_later s); done).
  destruct x as [u|err]; [|intros [= <- <-]; by split_and!].
  pose proof (seal_payload_spec (tick s)) as Hseal.
  destruct (seal_payload (tick s)) as [[id|err] s1]; destruct (Hseal _ _ Hwf0 eq_refl) as (Hwf1 & Hl1 & Hf1 & Hid);
    intros [= <- <-]; (split; [done|split; [by etrans|split; [done|]]]); [|done].
  destruct (Hid id eq_refl) as (-> & Hin & Hio & Hnone). intros p [= <-]. unfold pending, sealed_ids. cbn.
  split; intros i ->%list_elem_of_singleton; [|exists (S (rs_io s)); split; [lia|done]].
  split; [done|]. split; [exists (S (rs_io s)); split; [exact Hio|done]|done].
Qed.

Lemma discard_spill_spec p s :
  store_wf s → (∀ id, id ∈ sealed_ids p → tb_artifacts (rs_tables s) !! id = None) →
  store_wf (discard_spill p s) ∧ later s (discard_spill p s).
Proof.
  intros Hwf Hp. unfold discard_spill, sealed_ids in *. destruct (pe_sealed p) as [[id row]|]; [|done].
  destruct (io_fails (rs_io s)).
  - split; [|apply later_tick]. apply (store_wf_later s); [done|apply later_tick|done].
  - split; [|split; cbn; [done|lia]]. destruct Hwf as [Ht Hf]. split; cbn; [done|]. intros i a Ha.
    destruct (Hf i a Ha) as [Hin (n & ? & ->)]. split; [|exists n; cbn; split; [lia|done]].
    apply elem_of_difference. split; [done|]. intros Heq%elem_of_singleton.
    rewrite (Hp id), Heq in Ha || (rewrite Heq in Ha; rewrite (Hp id) in Ha); [done|by left].
Qed.
Lemma pending_later p s s' :
  pending p s → later s s' → (∀ id, id ∈ rs_files s → id ∈ rs_files s') → pending p s'.
Proof.
  intros Hp [Ht Hio] Hf id Hid. destruct (Hp id Hid) as (? & (n & ? & ->) & ?). rewrite Ht.
  split_and!; [by apply Hf| |done]. exists n. split; [lia|done].
Qed.

(** A transaction that may insert the artifacts that are pending. *)
Lemma transaction_keeps {A} ids (change : txM A) s r s' :
  store_wf s → tx_keeps ids change → (∀ id, id ∈ ids → id ∈ rs_files s ∧ drawn s id) →
  in_write_transaction change s = (r, s') →
  store_wf s' ∧ extends (rs_tables s) (rs_tables s') ∧ rs_io s ≤ rs_io s'
  ∧ ∀ e, r = Err e → rs_tables s' = rs_tables s.
Proof.
  intros Hwf Hc Hids (Hf & Hio & Hr)%in_write_transaction_spec. destruct r as [a|e].
  - destruct (Hc _ _ _ (sw_tables _ Hwf) Hr) as [Ht Hex Hg]. split_and!; [|done..]. split; [done|].
    intros id row Hid. rewrite Hf. destruct (Hg id row Hid) as [Hold|Hnew].
    + destruct (sw_files _ Hwf id row Hold) as [? (n & ? & ->)]. split; [done|]. exists n. split; [lia|done].
    + destruct (Hids id Hnew) as [? (n & ? & ->)]. split; [done|]. exists n. split; [lia|done].
  - assert (later s s') as Hl by done. split_and!; [|by rewrite Hr|done|by intros ? [= <-]].
    apply (store_wf_later s); [done|done|by rewrite Hf].
Qed.
Lemma commit_event_keeps {A} p (change : PreparedEvent → txM A) s r s' :
  store_wf s → pending p s → tx_keeps (sealed_ids p) (change p) →
  commit_event p change s = (r, s') →
  store_wf s' ∧ extends (rs_tables s) (rs_tables s') ∧ rs_io s ≤ rs_io s'
  ∧ ∀ e, r = Err e → rs_tables s' = rs_tables s.
Proof.
  intros Hwf Hp Hc. unfold commit_event, on_error.
  destruct (in_write_transaction (change p) s) as [[a|e] s1] eqn:Hrun; intros [= <- <-].
  - eapply transaction_keeps; [done|exact Hc| |exact Hrun]. intros id Hid. by destruct (Hp id Hid) as (? & ? & _).
  - eapply transaction_keeps in Hrun as (Hwf1 & _ & Hio & He); [|done|exact Hc|].
    2: { intros id Hid. by destruct (Hp id Hid) as (? & ? & _). }
    specialize (He e eq_refl). destruct (discard_spill_spec p s1 Hwf1) as [Hwf2 [Ht2 Hio2]].
    { intros id Hid. rewrite He. by destruct (Hp id Hid) as (_ & _ & ?). }
    rewrite Ht2, He. split_and!; [done|done|lia|done].
Qed.

(** *** Operations *)

(** An operation that only reads, or fails before it writes. *)
Definition quiet {A} (m : storeM A) : Prop := ∀ s r s',
  store_wf s → m s = (r, s') → store_wf s' ∧ later s s'.
Lemma quiet_ret {A} (a : A) : quiet (mret a).
Proof. by intros s r s' Hwf [= <- <-]. Qed.
Lemma quiet_lift {A} (x : result StoreError A) : quiet (lift x).
Proof. by intros s r s' Hwf [= <- <-]. Qed.
Lemma quiet_bind {A B} (m : storeM A) (f : A → storeM B) :
  quiet m → (∀ a, quiet (f a)) → quiet (m ≫= f).
Proof.
  intros Hm Hf s r s' Hwf. unfold mbind, stateM_bind. destruct (m s) as [[a|e] s1] eqn:Hrun.
  - intros Hrest. destruct (Hm _ _ _ Hwf Hrun) as [Hwf1 Hl]. destruct (Hf a _ _ _ Hwf1 Hrest) as [? Hl'].
    split; [done|by etrans].
  - intros [= <- <-]. by apply (Hm _ _ _ Hwf Hrun).
Qed.
Lemma quiet_reader {A} (read : txM A) : quiet (with_reader read).
Proof.
  intros s r s' Hwf [-> _]%with_reader_spec.
  split; [apply (store_wf_later s); [done|apply later_tick|done]|apply later_tick].
Qed.

Lemma keeps_quiet {A} (m : storeM A) : quiet m → keeps m.
Proof. intros Hm s r s' Hwf Hrun. destruct (Hm _ _ _ Hwf Hrun) as [? [-> ?]]. split_and!; done. Qed.
Lemma keeps_bind {A B} (m : storeM A) (f : A → storeM B) :
  quiet m → (∀ a, keeps (f a)) → keeps (m ≫= f).
Proof.
  intros Hm Hf s r s' Hwf. unfold mbind, stateM_bind. destruct (m s) as [[a|e] s1] eqn:Hrun.
  - intros Hrest. destruct (Hm _ _ _ Hwf Hrun) as [Hwf1 [Ht Hio]].
    destruct (Hf a _ _ _ Hwf1 Hrest) as (? & ? & ? & ?). rewrite <- Ht. split_and!; [done..|lia|done].
  - intros [= <- <-]. destruct (Hm _ _ _ Hwf Hrun) as [? [-> ?]]. done.
Qed.
Lemma keeps_transaction {A} (change : txM A) : tx_keeps [] change → keeps (in_write_transaction change).
Proof. intros Hc s r s' Hwf. apply transaction_keeps with []; [done|done|]. by intros id ?%not_elem_of_nil. Qed.
Lemma keeps_prepared {A} run e (change : PreparedEvent → txM A) :
  (∀ p, tx_keeps (sealed_ids p) (change p)) →
  keeps (p ← prepare_event run e; commit_event p change).
Proof.
  intros Hc s r s' Hwf. unfold mbind, stateM_bind. destruct (prepare_event run e s) as [[p|err] s1] eqn:Hp.
  - intros Hrest. destruct (prepare_event_spec _ _ _ _ _ Hwf Hp) as (Hwf1 & [Ht Hio] & _ & Hpend).
    destruct (Hpend p eq_refl) as [Hpd _].
    destruct (commit_event_keeps p change s1 r s' Hwf1 Hpd (Hc p) Hrest) as (? & ? & ? & ?).
    rewrite <- Ht. split_and!; [done..|lia|done].
  - intros [= <- <-]. destruct (prepare_event_spec _ _ _ _ _ Hwf Hp) as (? & [-> ?] & _). done.
Qed.

Lemma keeps_append_event run e : keeps (append_event run e).
Proof. apply keeps_prepared. intros p. apply prepared_append_keeps. Qed.
Lemma keeps_insert_run_with_event run owner e : run_wf run → keeps (insert_run_with_event run owner e).
Proof.
  intros Hr. apply keeps_prepared. intros p. apply tx_keeps_bind; [by apply insert_owned_run_keeps|].
  intros _. apply prepared_append_keeps.
Qed.

Section change.
Context {R Id} {step : R → R → Prop} `{Countable Id, !Row R Id, !RowLaws R Id step}.

Lemma quiet_load (id : Id) : quiet (load (R:=R) id).
Proof. apply quiet_reader. Qed.
Lemma keeps_mutate (id : Id) m :
  (∀ r r' : R, m r = (Ok tt, r') → step r r') → writes (step:=step) (λ _, mret tt) → keeps (mutate id m).
Proof.
  intros Hm Hw. apply keeps_transaction, (mutate_keeps_tx (step:=step)); [|done]. by apply loaded_moves.
Qed.
Lemma keeps_change_with_event run_of e (change : txM R) pin log_of :
  quiet run_of → moves_stored (step:=step) change → writes (step:=step) pin →
  keeps (change_with_event run_of e change pin log_of).
Proof.
  intros Hrun Hc Hw. apply keeps_bind; [done|]. intros run. apply keeps_prepared. intros p t a t' Hwf.
  intros (r' & t1 & Hch & (u & t2 & Hu & (u' & t3 & Hp & Hrest)%bindM_Ok)%bindM_Ok)%bindM_Ok.
  destruct (change_writes (step:=step) change pin t r' t1 u t2 u' t3) as (r & Hr & Hs & Ht3); [done..|].
  pose proof (rl_store (sealed_ids p) t r r' Hwf Hr Hs) as Hk. rewrite <- Ht3 in Hk.
  eapply kept_trans; [exact Hk|].
  apply bindM_Ok in Hrest as (n & t4 & Happ & [_ ->]%ret_Ok).
  eapply prepared_append_keeps, Happ. apply Hk.
Qed.
End change.

(** *** Several events *)

Lemma discards_spec ps s :
  store_wf s → (∀ p id, p ∈ ps → id ∈ sealed_ids p → tb_artifacts (rs_tables s) !! id = None) →
  store_wf (foldl (λ s p, discard_spill p s) s ps) ∧ later s (foldl (λ s p, discard_spill p s) s ps).
Proof.
  revert s. induction ps as [|p ps IH]; intros s Hwf Hps; [done|]. cbn.
  destruct (discard_spill_spec p s Hwf) as [Hwf1 Hl]; [intros id; apply Hps; by left|].
  destruct (IH (discard_spill p s) Hwf1) as [? ?].
  { intros q id Hq Hid. rewrite (lt_tables _ _ Hl). eapply Hps; [by right|done]. }
  split; [done|by etrans].
Qed.
Definition all_pending (ps : list PreparedEvent) (s : RunStore) : Prop := ∀ p, p ∈ ps → pending p s.
Lemma pending_absent ps s : all_pending ps s →
  ∀ p id, p ∈ ps → id ∈ sealed_ids p → tb_artifacts (rs_tables s) !! id = None.
Proof. intros Hps p id Hp Hid. by destruct (Hps p Hp id Hid) as (_ & _ & ?). Qed.

Lemma prepare_events_spec run es : ∀ before s r s',
  store_wf s → all_pending before s → prepare_events run es before s = (r, s') →
  store_wf s' ∧ later s s' ∧ ∀ ps, r = Ok ps → all_pending ps s'.
Proof.
  induction es as [|e es IH]; intros before s r s' Hwf Hb; cbn.
  { intros [= <- <-]. split_and!; [done..|]. by intros ps [= <-]. }
  unfold mbind, stateM_bind, on_error. destruct (prepare_event run e s) as [[p|err] s1] eqn:Hp;
    destruct (prepare_event_spec _ _ _ _ _ Hwf Hp) as (Hwf1 & Hl & Hf & Hpend).
  - intros Hrest. destruct (Hpend p eq_refl) as [Hpd _]. apply IH in Hrest as (? & Hl' & ?); [| done |].
    + split_and!; [done|by etrans|done].
    + intros q [Hq| ->%list_elem_of_singleton]%elem_of_app; [|done]. eapply pending_later; [by apply Hb|done..].
  - intros [= <- <-]. destruct (discards_spec before s1) as [? Hl']; [done| |].
    + rewrite (lt_tables _ _ Hl). by apply pending_absent.
    + split_and!; [done|by etrans|done].
Qed.
Definition all_sealed (ps : list PreparedEvent) : list ArtifactId := ps ≫= sealed_ids.
Lemma append_all_keeps run ps : tx_keeps (all_sealed ps) (append_all run ps).
Proof.
  induction ps as [|p ps IH]; [apply tx_keeps_ret|]. cbn. apply tx_keeps_bind.
  - eapply tx_keeps_more, prepared_append_keeps. intros id Hid. apply elem_of_app. by left.
  - intros n. apply tx_keeps_bind; [|intros; apply tx_keeps_ret].
    eapply tx_keeps_more, IH. intros id Hid. apply elem_of_app. by right.
Qed.
(** A transaction over events that are all prepared. *)
Lemma commit_all_keeps {A} ps (change : txM A) s r s' :
  store_wf s → all_pending ps s → tx_keeps (all_sealed ps) change →
  on_error (λ s, foldl (λ s p, discard_spill p s) s ps) (in_write_transaction change) s = (r, s') →
  store_wf s' ∧ extends (rs_tables s) (rs_tables s') ∧ rs_io s ≤ rs_io s'
  ∧ ∀ e, r = Err e → rs_tables s' = rs_tables s.
Proof.
  intros Hwf Hp Hc. unfold on_error.
  assert (∀ id, id ∈ all_sealed ps → id ∈ rs_files s ∧ drawn s id) as Hids.
  { intros id (p & Hid & Hin)%list_elem_of_bind. by destruct (Hp p Hin id Hid) as (? & ? & _). }
  destruct (in_write_transaction change s) as [[a|e] s1] eqn:Hrun; intros [= <- <-].
  - by eapply transaction_keeps.
  - eapply transaction_keeps in Hrun as (Hwf1 & _ & Hio & He); [|done..].
    specialize (He e eq_refl). destruct (discards_spec ps s1 Hwf1) as [Hwf2 [Ht2 Hio2]].
    { rewrite He. by apply pending_absent. }
    rewrite Ht2, He. split_and!; [done|done|lia|done].
Qed.
Lemma keeps_append_events run es : keeps (append_events run es).
Proof.
  intros s r s' Hwf. unfold append_events, mbind, stateM_bind.
  destruct (prepare_events run es [] s) as [[ps|e] s1] eqn:Hp;
    (apply prepare_events_spec in Hp as (Hwf1 & [Ht Hio] & Hps); [|done|by intros p ?%not_elem_of_nil]).
  - specialize (Hps ps eq_refl). intros Hrest.
    assert (store_wf s' ∧ extends (rs_tables s1) (rs_tables s') ∧ rs_io s1 ≤ rs_io s'
      ∧ ∀ e, r = Err e → rs_tables s' = rs_tables s1) as (? & ? & ? & ?).
    { destruct ps as [|p ps]; [by injection Hrest as <- <-|]. eapply commit_all_keeps; [done|exact Hps|apply append_all_keeps|exact Hrest]. }
    rewrite <- Ht. split_and!; [done..|lia|done].
  - intros [= <- <-]. rewrite Ht. done.
Qed.
Lemma keeps_insert_retry run owner e original retried :
  run_wf run → keeps (insert_retry_with_events run owner e original retried).
Proof.
  intros Hr s r s' Hwf. unfold insert_retry_with_events, mbind, stateM_bind, on_error at 1.
  destruct (prepare_event (run_id run) e s) as [[p|err] s1] eqn:Hp;
    destruct (prepare_event_spec _ _ _ _ _ Hwf Hp) as (Hwf1 & Hl & Hf & Hpend).
  2: { intros [= <- <-]. destruct Hl as [-> ?]. done. }
  destruct (Hpend p eq_refl) as [Hpd _].
  destruct (prepare_event original retried s1) as [[q|err] s2] eqn:Hq;
    destruct (prepare_event_spec _ _ _ _ _ Hwf1 Hq) as (Hwf2 & Hl2 & Hf2 & Hpend2).
  - destruct (Hpend2 q eq_refl) as [Hqd _]. intros Hrest.
    assert (all_pending [p; q] s2) as Hall.
    { intros x [-> |[-> |[]%not_elem_of_nil]%elem_of_cons]%elem_of_cons; [|done]. by eapply pending_later. }
    eapply (commit_all_keeps [p; q]) in Hrest as (? & ? & ? & ?); [|done..|].
    + pose proof (transitivity Hl Hl2) as [Ht Hio]. rewrite <- Ht. split_and!; [done..|lia|done].
    + cbn. rewrite app_nil_r. apply tx_keeps_bind; [by apply insert_owned_run_keeps|]. intros _.
      apply tx_keeps_bind; [eapply tx_keeps_more, prepared_append_keeps; set_solver|]. intros n.
      apply tx_keeps_bind; [eapply tx_keeps_more, prepared_append_keeps; set_solver|]. intros _. apply tx_keeps_ret.
  - intros [= <- <-]. destruct (discard_spill_spec p s2 Hwf2) as [? Hl3].
    { intros id Hid. rewrite (lt_tables _ _ Hl2). by destruct (Hpd id Hid) as (_ & _ & ?). }
    pose proof (transitivity Hl (transitivity Hl2 Hl3)) as [-> ?]. done.
Qed.
End store.
