(* ===== verification/ClaimLaws.v ===== *)
(** * What leases and approvals keep

    The invariant of the tables is preserved by every operation of [StoreClaims], a stored
    question reads back as it was stored, and an answer is recorded together with the
    event that says so. *)

From Stdlib Require Import ZArith ZifyN ZifyBool.
From stdpp Require Import base decidable countable list gmap sets relations sorting strings.
From S2P Require Import Prelude Digest Tool External Trust Policy Approval Matcher Lifecycle Domain Records Wire RunStore StoreClaims StoreLaws.

Section rows.
Context `{PlatformLaws, !StoreParams}.
Abbreviation txM A := (stateM Tables StoreError A).

(** ** Listings *)

Lemma decode_all_Ok {A B} (decode : A → result StoreError B) l l' :
  decode_all decode l = Ok l' ↔ Forall2 (λ a b, decode a = Ok b) l l'.
Proof.
  revert l'. induction l as [|a l IH]; intros l'; cbn.
  - split; [intros [= <-]; constructor|by intros ->%Forall2_nil_inv_l].
  - split.
    + intros (b & Hb & (bs & Hbs%IH & [= <-])%bind_Ok)%bind_Ok. by constructor.
    + intros (b & bs & Hb & Hbs%IH & ->)%Forall2_cons_inv_l. apply bind_Ok. exists b. split; [done|].
      apply bind_Ok. by exists bs.
Qed.
Lemma decode_all_same {A} (decode : A → result StoreError A) l :
  (∀ a, a ∈ l → decode a = Ok a) → decode_all decode l = Ok l.
Proof. intros Hl. apply decode_all_Ok, Forall_Forall2_diag, Forall_forall, Hl. Qed.
Lemma elem_of_rows_of {Id V} `{Countable Id} (m : gmap Id V) v :
  v ∈ rows_of m ↔ ∃ id, m !! id = Some v.
Proof.
  unfold rows_of. rewrite list_elem_of_fmap. split.
  - intros ([id x] & -> & Hin%elem_of_map_to_list). eauto.
  - intros [id Hv%elem_of_map_to_list]. by exists (id, v).
Qed.
Lemma elem_of_order_by {A} key (l : list A) a : a ∈ order_by key l ↔ a ∈ l.
Proof. unfold order_by. by rewrite merge_sort_Permutation. Qed.

Lemma row_decodes_run t id r : tables_wf t → tb_runs t !! id = Some r → decode_row (Id:=RunId) r = Ok r.
Proof.
  intros Hwf Hr. destruct (wf_runs _ Hwf _ _ Hr) as (_ & Hrwf & _).
  unfold decode_row. cbn [row_decode run_row]. by rewrite (run_encodes r Hrwf).
Qed.
Lemma row_decodes_step t id r : tables_wf t → tb_steps t !! id = Some r → decode_row (Id:=StepId) r = Ok r.
Proof.
  intros Hwf Hr. destruct (wf_steps _ Hwf _ _ Hr) as (_ & Hrwf & _).
  unfold decode_row. cbn [row_decode step_row]. by rewrite (step_encodes r Hrwf).
Qed.
Lemma row_decodes_call t id r :
  tables_wf t → tb_calls t !! id = Some r → allow_respected r → decode_row (Id:=ToolCallId) r = Ok r.
Proof.
  intros Hwf Hr Ha. destruct (wf_calls _ Hwf _ _ Hr) as (_ & Hrwf & _).
  unfold decode_row. cbn [row_decode call_row]. by rewrite (call_encodes r Hrwf Ha).
Qed.

(** ** A stored question *)

Lemma decision_reads a : stored_request a → decode_decision a = Ok (ar_decision a).
Proof.
  intros [Hwf Han]. unfold decode_decision. destruct (ar_decision a) as [d|] eqn:Hd; [|done].
  destruct (Han d eq_refl) as [Hw Hat]. destruct (wf_answered _ Hwf d Hd) as (Hid & _).
  rewrite Hat. apply bind_Ok. exists tt. split.
  - apply ensure_Ok, bool_decide_eq_true. unfold well_formed_answer in Hw. rewrite <- Hw. by destruct (ad_scope d).
  - rewrite <- Hid. by destruct d.
Qed.
Lemma stored_reads a : stored_request a → decode_approval a = Ok a.
Proof.
  intros Hs. unfold decode_approval. apply bind_Ok. exists (ar_decision a). split; [by apply decision_reads|].
  pose proof (from_stored_complete a (sq_wf _ Hs)) as Hrt. unfold store_round_trip in Hrt. by rewrite Hrt.
Qed.
Lemma load_approval_Ok id t a t' :
  tables_wf t → load_approval id t = (Ok a, t') ↔ t' = t ∧ tb_approvals t !! id = Some a.
Proof.
  intros Hwf. unfold load_approval. destruct (tb_approvals t !! id) as [a0|] eqn:Ha.
  - destruct (wf_approvals _ Hwf id a0 Ha) as (_ & Hs & _). rewrite (stored_reads _ Hs). naive_solver.
  - naive_solver.
Qed.
Lemma open_is_stored id p a : open_with_id id p = Ok a → stored_request a.
Proof.
  intros Ho. pose proof (open_with_id_wf _ _ _ Ho) as (Hwf & _ & _ & Hst). split; [done|].
  intros d Hd. destruct (wf_answered _ Hwf d Hd) as (_ & Hbad & _). rewrite Hst in Hbad. by destruct (ad_verdict d).
Qed.
Lemma redacted_is_stored a : stored_request a → stored_request (redact_request a).
Proof. intros [[] ?]. split; [by split|done]. Qed.
Lemma approval_step_stored a a' :
  stored_request a → approval_step a a' →
  stored_request a' ∧ ar_id a' = ar_id a ∧ ar_pending a' = ar_pending a.
Proof.
  intros [Hwf Han] Hs. destruct (approval_step_wf a a' Hwf Hs) as (Hwf' & ? & ?). split; [|done].
  split; [done|]. inversion Hs as [d ? ? Hd Hr|to at_ ? ? Hr]; subst.
  - apply decide_inv in Hr as (_ & _ & _ & _ & ->). by intros ? [= <-].
  - apply resolve_inv in Hr as (Hp & _ & _ & _ & ->). cbn. intros d Hd.
    destruct (wf_answered _ Hwf d Hd) as (_ & Hbad & _). rewrite Hp in Hbad. by destruct (ad_verdict d).
Qed.
Lemma change_request_Ok m a t a' t' :
  change_request m a t = (Ok a', t') ↔ t' = t ∧ m a = (Ok tt, a').
Proof.
  unfold change_request. destruct (m a) as [[[]|e] a1].
  - rewrite ret_Ok. naive_solver.
  - rewrite lift_Ok. split; [intros [? _]; discriminate|intros [_ ?]; discriminate].
Qed.

(** A resolution writes the whole of what the domain changed. *)
Lemma update_resolution_Ok a t u t' stored :
  tb_approvals t !! ar_id a = Some stored → ar_pending a = ar_pending stored → ar_id a = ar_id stored →
  update_resolution a t = (Ok u, t') → t' = set_approvals (<[ar_id a := a]> (tb_approvals t)) t.
Proof.
  intros Ha Hp Hid Hu. unfold update_resolution in Hu.
  apply bindM_Ok in Hu as ([] & t1 & [_ ->]%lift_Ok & (t2 & t3 & [-> ->]%get_Ok & Hu)%bindM_Ok).
  rewrite Ha in Hu. apply modify_Ok in Hu as ->. rewrite <- Hid, <- Hp. by destruct a.
Qed.

Definition answers_request (m : stateM ApprovalRequest ApprovalError unit) : Prop :=
  ∀ a a', m a = (Ok tt, a') → approval_step a a'.
Lemma decide_answers d : well_formed_answer d → answers_request (ApprovalRequest_decide d).
Proof. intros Hd a a' Hm. by eapply step_decide. Qed.
Lemma resolve_answers to at_ : answers_request (ApprovalRequest_resolve to at_).
Proof. intros a a' Hm. by eapply step_resolve. Qed.

(** The loaded question, answered and written back. *)
Lemma answered_Ok id m t a' t' :
  tables_wf t → answers_request m →
  (loaded ← load_approval id; request ← change_request m loaded; _ ← update_resolution request; mret request) t
    = (Ok a', t') →
  ∃ a, tb_approvals t !! id = Some a ∧ m a = (Ok tt, a') ∧ approval_step a a' ∧ ar_id a' = id
    ∧ t' = set_approvals (<[id := a']> (tb_approvals t)) t.
Proof.
  intros Hwf Hm Hrun. apply bindM_Ok in Hrun as (a & t1 & (-> & Ha)%load_approval_Ok & Hrun); [|done].
  apply bindM_Ok in Hrun as (a1 & t1 & (-> & Hma)%change_request_Ok & Hrun).
  apply bindM_Ok in Hrun as (u & t2 & Hu & [-> ->]%ret_Ok).
  destruct (wf_approvals _ Hwf id a Ha) as (Hid & Hst & _). pose proof (Hm _ _ Hma) as Hs.
  destruct (approval_step_stored a a1 Hst Hs) as (_ & Hid' & Hp').
  assert (ar_id a1 = id) as Hid1 by congruence.
  apply (update_resolution_Ok _ _ _ _ a) in Hu; [|by rewrite Hid1|done|done]. rewrite Hid1 in Hu.
  exists a. done.
Qed.
Lemma answered_keeps ids id m :
  answers_request m →
  tx_keeps ids (loaded ← load_approval id; request ← change_request m loaded; _ ← update_resolution request; mret request).
Proof.
  intros Hm t a' t' Hwf Hrun. apply answered_Ok in Hrun as (a & Ha & Hma & Hs & Hid & ->); [|done..].
  destruct (wf_approvals _ Hwf id a Ha) as (Haid & Hst & Hcall).
  destruct (approval_step_stored a a' Hst Hs) as (? & _ & Hp). rewrite <- Hid.
  apply set_approvals_kept; [done|done| |].
  - unfold asked_of_its_call. by rewrite Hp.
  - rewrite Hid, Ha. intros old [= <-]. by apply rtc_once.
Qed.

Lemma insert_approval_keeps ids a : stored_request a → tx_keeps ids (insert_approval a).
Proof.
  intros Ha t u t' Hwf Hi. unfold insert_approval in Hi.
  repeat first
    [ apply bindM_Ok in Hi as (? & ? & [-> ->]%get_Ok & Hi)
    | apply bindM_Ok in Hi as (? & ? & [? ->]%lift_Ok & Hi)
    | apply bindM_Ok in Hi as (? & ? & [-> ?]%insert_unique_Ok & Hi) ].
  apply modify_Ok in Hi as ->. apply set_approvals_kept; [done|done| |].
  - match goal with He : ensure _ _ = Ok _ |- _ => apply ensure_Ok in He end. bool_hyps.
    by apply call_of_run_spec.
  - intros old Hold.
    match goal with He : is_present (tb_approvals _ !! _) = false |- _ => apply absent in He end. congruence.
Qed.

(** ** Leases *)

Lemma update_live_Ok id change t n t' :
  update_live_lease id change t = (Ok n, t') →
  (t' = t ∧ n = 0 ∨ ∃ l, tb_leases t !! id = Some l ∧ is_released l = false ∧ n = 1
     ∧ t' = set_leases (<[id := change l]> (tb_leases t)) t).
Proof.
  unfold update_live_lease. intros (? & ? & [-> ->]%get_Ok & Hu)%bindM_Ok.
  destruct (tb_leases t !! id) as [l|]; [|by apply ret_Ok in Hu as [-> ->]; left].
  destruct (is_released l) eqn:Hr; [by apply ret_Ok in Hu as [-> ->]; left|right].
  apply bindM_Ok in Hu as (? & ? & ->%modify_Ok & [-> ->]%ret_Ok). by exists l.
Qed.
Lemma update_live_keeps ids id change :
  (∀ l, is_released l = false → lease_step l (change l)) → tx_keeps ids (update_live_lease id change).
Proof.
  intros Hc t n t' Hwf [[-> _]|(l & Hl & Hr & _ & ->)]%update_live_Ok; [by apply kept_refl|].
  pose proof (wf_leases _ Hwf id l Hl) as Hid. pose proof (Hc l Hr) as Hs.
  assert (le_id (change l) = id) as Hid' by by rewrite (lease_steps_id _ _ (rtc_once _ _ Hs)).
  rewrite <- Hid'. apply set_leases_kept; [done|]. rewrite Hid', Hl. intros old [= <-]. by apply rtc_once.
Qed.
Lemma renew_row_keeps ids id at_ : tx_keeps ids (renew_row id at_).
Proof. apply update_live_keeps. by constructor. Qed.
Lemma release_row_keeps ids id at_ : tx_keeps ids (release_row id at_).
Proof.
  apply tx_keeps_bind; [apply update_live_keeps; by constructor|]. intros _. apply tx_keeps_ret.
Qed.
Lemma set_owner_keeps ids run pid : tx_keeps ids (set_owner_row run pid).
Proof.
  intros t u t' Hwf Hs. unfold set_owner_row in Hs.
  apply bindM_Ok in Hs as (? & ? & [-> ->]%get_Ok & Hs).
  apply bindM_Ok in Hs as (? & ? & [_ ->]%lift_Ok & ->%modify_Ok).
  set (t' := set_pids _ t). assert (extends t t') as Hex by (split; try unchanged; intros k v Hv; by exists v).
  split; [|done|by left]. apply (wf_extends t); [done|done|..]; try unchanged.
  - apply (wf_runs _ Hwf).
  - apply (wf_ordinals _ Hwf).
Qed.
End rows.

Section store.
Context `{PlatformLaws, !StoreParams, Faults, !Fresh, !FreshLaws}.
Abbreviation txM A := (stateM Tables StoreError A).
Abbreviation storeM A := (stateM RunStore StoreError A).

Lemma keeps_renew id at_ : keeps (renew_lease id at_).
Proof.
  intros s r s' Hwf. unfold renew_lease, mbind, stateM_bind.
  destruct (in_write_transaction (renew_row id at_) s) as [[n|e] s1] eqn:Hrun;
    pose proof (keeps_transaction (renew_row id at_) (renew_row_keeps [] id at_) _ _ _ Hwf Hrun) as Hk.
  - intros [= <- <-]. destruct Hk as (? & ? & ? & _). by split_and!.
  - intros [= <- <-]. destruct Hk as (? & ? & ? & He). split_and!; [done..|]. intros ? [= <-]. by eapply He.
Qed.
Lemma keeps_release id at_ : keeps (release_lease id at_).
Proof. apply keeps_transaction, release_row_keeps. Qed.
Lemma keeps_set_owner run pid : keeps (set_run_owner run pid).
Proof. apply keeps_transaction, set_owner_keeps. Qed.

Lemma keeps_open a : stored_request a → keeps (open_approval a).
Proof.
  intros Ha. unfold open_approval. destruct (ApprovalState_is_terminal (ar_state a)); [apply keeps_quiet, quiet_lift|].
  intros s r s' Hwf Hrun.
  assert (keeps (prepared ← prepare_event (pa_run_id (ar_pending (redact_request a))) (requested_event (redact_request a));
    commit_event prepared (λ p, _ ← insert_approval (redact_request a);
      PreparedEvent_append (pa_run_id (ar_pending (redact_request a))) p))) as Hk.
  { apply keeps_prepared. intros p. apply tx_keeps_bind.
    - by apply insert_approval_keeps, redacted_is_stored.
    - intros _. apply prepared_append_keeps. }
  set (run := pa_run_id _) in *. set (a' := redact_request a) in *.
  unfold mbind, stateM_bind in Hrun. cbv beta iota in Hrun.
  assert (∀ q q', (p ← prepare_event run (requested_event a');
    commit_event p (λ p, _ ← insert_approval a'; PreparedEvent_append run p)) s = (q, q') →
    store_wf q' ∧ extends (rs_tables s) (rs_tables q') ∧ rs_io s ≤ rs_io q'
    ∧ ∀ e, q = Err e → rs_tables q' = rs_tables s) as Hk' by (intros q q'; by apply Hk).
  unfold mbind, stateM_bind in Hk'.
  destruct (prepare_event run (requested_event a') s) as [[p|e] s1].
  - destruct (commit_event p _ s1) as [[n|e] s2]; destruct (Hk' _ _ eq_refl) as (? & ? & ? & He);
      injection Hrun as <- <-; split_and!; try done. intros ? [= <-]. by eapply He.
  - destruct (Hk' _ _ eq_refl) as (? & ? & ? & He). injection Hrun as <- <-. split_and!; try done.
    intros ? [= <-]. by eapply He.
Qed.
Lemma keeps_change_approval id describe m :
  answers_request m → keeps (change_approval id describe m).
Proof.
  intros Hm. apply keeps_bind; [apply quiet_reader|]. intros current. apply keeps_prepared. intros p t a t' Hwf Hrun.
  apply bindM_Ok in Hrun as (a0 & t1 & Hl & Hrun). apply bindM_Ok in Hrun as (a1 & t2 & Hc & Hrun).
  apply bindM_Ok in Hrun as (u & t3 & Hu & Hrun).
  assert (kept (sealed_ids p) t t3) as Hk.
  { apply (answered_keeps (sealed_ids p) id m Hm t a1 t3 Hwf).
    apply bindM_Ok. exists a0, t1. split; [done|]. apply bindM_Ok. exists a1, t2. split; [done|].
    apply bindM_Ok. exists u, t3. by rewrite ret_Ok. }
  eapply kept_trans; [exact Hk|]. apply bindM_Ok in Hrun as (n & t4 & Happ & [_ ->]%ret_Ok).
  eapply prepared_append_keeps, Happ. apply Hk.
Qed.
End store.

(** ** The log an event leaves *)

Section logs.
Context `{PlatformLaws, !StoreParams}.
Abbreviation txM A := (stateM Tables StoreError A).

Lemma append_logged run p t n t' :
  PreparedEvent_append run p t = (Ok n, t') →
  ∃ artifacts, t' = logged (tb_events t ++ [MkStoredEvent run n (pe_event p)]) artifacts t.
Proof.
  intros (u & t1 & Hi & (Hn & -> & _)%append_event_row_Ok)%bindM_Ok.
  destruct (pe_sealed p) as [[id row]|].
  - unfold insert_artifact_row in Hi. apply bindM_Ok in Hi as (? & ? & [-> ->]%get_Ok & Hi).
    apply bindM_Ok in Hi as (? & ? & [-> _]%insert_unique_Ok & Hi).
    apply bindM_Ok in Hi as (? & ? & [_ ->]%lift_Ok & ->%modify_Ok). by eexists.
  - apply ret_Ok in Hi as [_ ->]. exists (tb_artifacts t). by destruct t.
Qed.

(** One row moved by a method of the domain and written back, with an event of its own. *)
Lemma moved_and_logged {R Id} {step : R → R → Prop} `{Countable Id, !Row R Id, !RowLaws R Id step}
    (m : stateM R RunDomainError unit) run event (r : R) t n t' :
  (∀ r r', m r = (Ok tt, r') → step r r') → writes (step:=step) (λ _, mret tt) →
  tables_wf t → row_table t !! row_id r = Some r →
  (r ← change_record m r; _ ← update_row r; PreparedEvent_append run event) t = (Ok n, t') →
  ∃ r' artifacts, m r = (Ok tt, r') ∧
    t' = logged (tb_events t ++ [MkStoredEvent run n (pe_event event)]) artifacts
           (set_row_table (<[row_id r := r']> (row_table t)) t) ∧ kept (sealed_ids event) t t'.
Proof.
  intros Hm Hw Hwf Hr Hrun. apply bindM_Ok in Hrun as (r' & t1 & (-> & Hmr)%change_record_Ok & Hrun).
  apply bindM_Ok in Hrun as (u & t2 & Hu & Ha).
  pose proof (Hw r r' (Hm _ _ Hmr) t u t2 tt t2 Hr Hu eq_refl) as ->.
  pose proof (rl_store (sealed_ids event) t r r' Hwf Hr (Hm _ _ Hmr)) as Hk.
  assert (kept (sealed_ids event) t t') as Hk'.
  { eapply kept_trans; [exact Hk|]. eapply prepared_append_keeps; [apply Hk|exact Ha]. }
  apply append_logged in Ha as (artifacts & ->). exists r', artifacts.
  by rewrite (rl_events (step:=step)) in *.
Qed.
End logs.

Section recorded.
Context `{PlatformLaws, !StoreParams, Faults, !Fresh}.

(** The event as it is stored: its payload redacted, and in an artifact when that does not
    fit in the row. *)
Definition recorded_as (e e' : RunEvent) : Prop :=
  ev_kind e' = ev_kind e ∧ ev_at e' = ev_at e ∧ ev_step e' = ev_step e ∧ ev_call e' = ev_call e ∧
  (ev_payload e' = redact_payload (ev_payload e) ∧ ev_artifact e' = ev_artifact e
     ∧ (encoded_len (ev_payload e') <= MAX_INLINE_PAYLOAD_BYTES)%N
   ∨ ∃ id, ev_payload e' = overflow_payload id (redact_payload (ev_payload e))
     ∧ ev_artifact e' = Some (default id (ev_artifact e))).

Lemma prepare_records run e s p s' : prepare_event run e s = (Ok p, s') → recorded_as e (pe_event p).
Proof.
  unfold prepare_event. destruct (_ <=? _)%N eqn:Hlen.
  - intros [= <- <-]. split_and!; [done..|]. left. split_and!; [done|done|]. cbn. lia.
  - intros (u & s0 & _ & (id & s1 & _ & Hp)%bindM_Ok)%bindM_Ok. apply ret_Ok in Hp as [-> ->]. cbn. destruct (ev_artifact e) as [a|] eqn:Ha; cbn; split_and!; try done; right;
      eexists; cbn; rewrite ?Ha; eauto.
Qed.
Lemma prepare_tables run e s r s' : prepare_event run e s = (r, s') → rs_tables s' = rs_tables s.
Proof.
  unfold prepare_event. destruct (_ <=? _)%N; [by intros [= _ <-]|].
  unfold mbind, stateM_bind. destruct (require_run run s) as [x s0] eqn:Hreq.
  apply with_reader_spec in Hreq as [-> _]. destruct x as [u|err]; [|by intros [= _ <-]].
  unfold seal_payload, mbind, stateM_bind, get, modify. rewrite attempt_spec.
  by destruct (io_fails _); intros [= _ <-].
Qed.
End recorded.
