(* ===== verification/Interrupt.v ===== *)
(** * Ending an abandoned run

    Models [src/crates/harkness-runtime/src/store/recovery.rs]: one abandoned run, every
    unfinished step and call under it and its unanswered questions reach their endings in
    one transaction, with an event for each.  What is to be marked is read and described
    before the transaction opens, and read again inside it. *)

From Stdlib Require Import ZArith ZifyN ZifyBool.
From stdpp Require Import base decidable countable list gmap sets relations sorting strings.
From S2P Require Import Prelude Digest Tool External Trust Policy Approval Matcher Lifecycle Domain Records Wire RunStore StoreClaims StoreLaws ClaimLaws.

(** Why a run was found abandoned. *)
Inductive InterruptionReason := LeaseLockReleased | LeaseReleased | NoLease | LeaseExpired.
#[export] Instance InterruptionReason_eq_dec : EqDecision InterruptionReason.
Proof. solve_decision. Defined.
Definition InterruptionReason_ALL : list InterruptionReason :=
  [LeaseLockReleased; LeaseReleased; NoLease; LeaseExpired].
Definition InterruptionReason_as_str (r : InterruptionReason) : string :=
  match r with
  | LeaseLockReleased => "lease_lock_released"
  | LeaseReleased => "lease_released"
  | NoLease => "no_lease"
  | LeaseExpired => "lease_expired"
  end.
#[export] Instance InterruptionReason_spelled : Spelled InterruptionReason :=
  { spelled_ALL := InterruptionReason_ALL; as_str := InterruptionReason_as_str }.

Section interrupt.
Context `{Platform, !StoreParams, Faults, !Fresh}.
Abbreviation txM A := (stateM Tables StoreError A).
Abbreviation storeM A := (stateM RunStore StoreError A).

Record RunInterruption := MkRunInterruption {
  in_run : RunId;
  in_steps : list StepId;
  in_calls : list ToolCallId;
  in_approvals : list ApprovalRequest;
}.

(** Everything the sweep needs about one run before it takes the write lock. *)
Record Planned := MkPlanned {
  pl_run : RunId;
  pl_lease : option LeaseId;
  pl_interrupted : PreparedEvent;
  pl_run_state : PreparedEvent;
  pl_steps : list (StepId * PreparedEvent);
  pl_calls : list (ToolCallId * PreparedEvent);
  pl_approvals : list (ApprovalRequest * PreparedEvent);
}.
Definition planned_events (p : Planned) : list PreparedEvent :=
  [pl_interrupted p; pl_run_state p] ++ (snd <$> pl_steps p) ++ (snd <$> pl_calls p) ++ (snd <$> pl_approvals p).
Definition discard_spills (p : Planned) (s : RunStore) : RunStore :=
  foldl (λ s e, discard_spill e s) s (planned_events p).

Section plan.
Context (run : RunId) (lease : option LeaseId) (reason : InterruptionReason) (at_ : OffsetDateTime).

Definition interrupted_event : RunEvent :=
  with_payload (json_object
    [("reason", json_string (as_str reason));
     ("lease_id", json_text ((λ l, uuid_text (LeaseId_uuid l)) <$> lease))]) (RunEvent_new RunInterrupted at_).
Definition run_state_event (state : ExecutionState) (at_ : OffsetDateTime) : RunEvent :=
  with_payload (json_object [("state", json_string (as_str state))]) (RunEvent_new RunStateChanged at_).
Definition call_interrupted_event (c : ToolCall) : RunEvent :=
  with_payload (json_object
      [("state", json_string (as_str CallInterrupted)); ("reason", json_string (as_str reason))])
    (for_tool_call (call_id c) (for_step (call_step_id c) (RunEvent_new ToolCallStateChanged at_))).
Definition step_interrupted_event (s : Step) : RunEvent :=
  with_payload (json_object
      [("state", json_string (as_str ExecInterrupted)); ("reason", json_string (as_str reason))])
    (for_step (step_id s) (RunEvent_new StepFinished at_)).

(** A row that is not finished, with the event that will say how it ended. *)
Fixpoint describe_each {A B} (key : A → B) (describe : A → RunEvent) (l : list A)
    : storeM (list (B * PreparedEvent)) :=
  match l with
  | [] => mret []
  | a :: l =>
    event ← prepare_event run (describe a);
    rest ← describe_each key describe l;
    mret ((key a, event) :: rest)
  end.

Definition plan : storeM Planned :=
  interrupted ← prepare_event run interrupted_event;
  run_state ← prepare_event run (run_state_event ExecInterrupted at_);
  calls ← load_run_tool_calls run;
  calls ← describe_each call_id call_interrupted_event
            (filter (λ c, is_terminal (call_state c) = false) calls);
  steps ← load_run_steps run;
  steps ← describe_each step_id step_interrupted_event
            (filter (λ s, is_terminal (step_state s) = false) steps);
  requests ← run_approvals run;
  approvals ← describe_each id (λ r, unanswered_event r Superseded at_)
            (filter (λ r, ar_state r = ApPending) requests);
  mret (MkPlanned run lease interrupted run_state steps calls approvals).
End plan.

(** A row that finished meanwhile is passed over, and so is its event. *)
Fixpoint mark_rows {R Id} `{Countable Id, !Row R Id} (finished : R → bool) (interrupt : stateM R RunDomainError unit)
    (run : RunId) (l : list (Id * PreparedEvent)) : txM (list Id) :=
  match l with
  | [] => mret []
  | (id, event) :: l =>
    r ← load_row id;
    if finished r then mark_rows finished interrupt run l
    else
      r ← change_record interrupt r;
      _ ← update_row r;
      _ ← PreparedEvent_append run event;
      ids ← mark_rows finished interrupt run l;
      mret (id :: ids)
  end.
Fixpoint supersede_all (run : RunId) (at_ : OffsetDateTime) (l : list (ApprovalRequest * PreparedEvent))
    : txM (list ApprovalRequest) :=
  match l with
  | [] => mret []
  | (request, event) :: l =>
    stored ← load_approval (ar_id request);
    if negb (bool_decide (ar_state stored = ApPending)) then supersede_all run at_ l
    else
      stored ← change_request (ApprovalRequest_supersede at_) stored;
      _ ← update_resolution stored;
      _ ← PreparedEvent_append run event;
      rest ← supersede_all run at_ l;
      mret (stored :: rest)
  end.

Definition apply_interruption (p : Planned) (at_ : OffsetDateTime) : txM (option RunInterruption) :=
  run ← load_row (R:=Run) (pl_run p);
  if is_terminal (run_state run) then mret None
  else
    _ ← PreparedEvent_append (pl_run p) (pl_interrupted p);
    calls ← mark_rows (λ c, is_terminal (call_state c)) (ToolCall_transition CallInterrupted at_) (pl_run p) (pl_calls p);
    steps ← mark_rows (λ s, is_terminal (step_state s)) (Step_transition ExecInterrupted at_) (pl_run p) (pl_steps p);
    approvals ← supersede_all (pl_run p) at_ (pl_approvals p);
    run ← change_record (Run_transition ExecInterrupted at_) run;
    _ ← update_row run;
    _ ← PreparedEvent_append (pl_run p) (pl_run_state p);
    _ ← match pl_lease p with Some lease => release_row lease at_ | None => mret tt end;
    mret (Some (MkRunInterruption (pl_run p) steps calls approvals)).

(** The markings, and what was written for them when they were not made. *)
Definition commit_interruption (p : Planned) (at_ : OffsetDateTime) : storeM (option RunInterruption) := λ s,
  match in_write_transaction (apply_interruption p at_) s with
  | (Ok (Some i), s) => (Ok (Some i), s)
  | (r, s) => (r, discard_spills p s)
  end.
Definition interrupt_run (run : RunId) (lease : option LeaseId) (reason : InterruptionReason)
    (at_ : OffsetDateTime) : storeM (option RunInterruption) :=
  record ← load (R:=Run) run;
  if is_terminal (run_state record) then mret None
  else
    planned ← plan run lease reason at_;
    commit_interruption planned at_.
End interrupt.

(** ** What marking changes *)

Section marking.
Context `{PlatformLaws, !StoreParams}.
Abbreviation txM A := (stateM Tables StoreError A).

(** The rows marked are those of the list that were not finished, each moved once; every
    other row is as it was, and every event added is of the run. *)
Record marked {R Id} `{Countable Id} (finished : R → bool) (moves : R → R → Prop) (run : RunId)
    (l ids : list Id) (old new : gmap Id R) (added : list StoredEvent) : Prop := {
  mk_moved : ∀ id, id ∈ ids → ∃ r r', old !! id = Some r ∧ finished r = false ∧ moves r r' ∧ new !! id = Some r';
  mk_still : ∀ id, id ∉ ids → new !! id = old !! id;
  mk_all : ∀ id, id ∈ l → id ∉ ids → ∃ r, old !! id = Some r ∧ finished r = true;
  mk_listed : ∀ id, id ∈ ids → id ∈ l;
  mk_events : se_run <$> added = replicate (length ids) run;
}.
Lemma marked_nil {R Id} `{Countable Id} finished moves run (old : gmap Id R) :
  marked finished moves run [] [] old old [].
Proof. by split; try done; intros ? []%not_elem_of_nil. Qed.
Lemma marked_skip {R Id} `{Countable Id} finished moves run id l ids (old new : gmap Id R) added r :
  old !! id = Some r → finished r = true → marked finished moves run l ids old new added →
  marked finished moves run (id :: l) ids old new added.
Proof.
  intros Hr Hf []. split; try done.
  - intros id' [->|Hin]%elem_of_cons Hni; [by exists r|by apply mk_all0].
  - intros id' Hin. right. by apply mk_listed0.
Qed.
Lemma marked_cons {R Id} `{Countable Id} finished moves run id l ids (old new : gmap Id R) added r r' e :
  old !! id = Some r → finished r = false → (moves r r' : Prop) → finished r' = true → se_run e = run →
  marked finished moves run l ids (<[id := r']> old) new added →
  marked finished moves run (id :: l) (id :: ids) old new (e :: added).
Proof.
  intros Hr Hf Hm Hf' He [].
  assert (id ∉ ids) as Hnew.
  { intros Hin. destruct (mk_moved0 id Hin) as (x & y & Hx & Hxf & _). rewrite lookup_insert_eq in Hx. congruence. }
  split; cbn; [| | | |by rewrite mk_events0, He].
  - intros id' [->|Hin]%elem_of_cons.
    { exists r, r'. rewrite mk_still0, lookup_insert_eq by done. done. }
    destruct (mk_moved0 id' Hin) as (x & y & Hx & ?). rewrite lookup_insert_ne in Hx by congruence. by exists x, y.
  - intros id' [Hne Hni]%not_elem_of_cons. rewrite mk_still0 by done. by rewrite lookup_insert_ne.
  - intros id' [->|Hin]%elem_of_cons [Hne Hni]%not_elem_of_cons; [done|].
    destruct (mk_all0 id' Hin Hni) as (x & Hx & ?). rewrite lookup_insert_ne in Hx by done. by exists x.
  - intros id' [->|Hin]%elem_of_cons; [by left|]. right. by apply mk_listed0.
Qed.

Section rows.
Context {R Id} {step : R → R → Prop} `{Countable Id, !Row R Id, !RowLaws R Id step}.
Context (finished : R → bool) (interrupt : stateM R RunDomainError unit).
Context (Hsteps : ∀ r r', interrupt r = (Ok tt, r') → step r r')
  (Hends : ∀ r r', interrupt r = (Ok tt, r') → finished r' = true)
  (Hwrites : writes (step:=step) (λ _, mret tt)).

Lemma mark_rows_cons id event l run t ids t' :
  tables_wf t → mark_rows finished interrupt run ((id, event) :: l) t = (Ok ids, t') →
  ∃ r, row_table t !! id = Some r ∧ row_id r = id ∧
    if finished r then mark_rows finished interrupt run l t = (Ok ids, t')
    else ∃ r' n artifacts rest t1, interrupt r = (Ok tt, r') ∧ ids = id :: rest ∧
      t1 = logged (tb_events t ++ [MkStoredEvent run n (pe_event event)]) artifacts
             (set_row_table (<[id := r']> (row_table t)) t) ∧
      kept (sealed_ids event) t t1 ∧ mark_rows finished interrupt run l t1 = (Ok rest, t').
Proof.
  intros Hwf Hrun. cbn in Hrun. apply bindM_Ok in Hrun as (r & t1 & Hl & Hrun).
  apply (load_row_Ok (step:=step)) in Hl as (-> & Hr & _). exists r. pose proof (rl_keyed t id r Hwf Hr) as Hid.
  split_and!; [done..|]. destruct (finished r); [done|].
  apply bindM_Ok in Hrun as (r' & t2 & Hc & Hrun). apply bindM_Ok in Hrun as (u & t3 & Hu & Hrun).
  apply bindM_Ok in Hrun as (n & t4 & Ha & Hrun). apply bindM_Ok in Hrun as (rest & t5 & Hrest & [-> ->]%ret_Ok).
  assert ((r ← change_record interrupt r; _ ← update_row r; PreparedEvent_append run event) t = (Ok n, t4)) as Hone.
  { apply bindM_Ok. exists r', t2. split; [done|]. apply bindM_Ok. by exists u, t3. }
  apply (moved_and_logged (step:=step)) in Hone as (r1 & artifacts & Hm & Ht4 & Hk); [|done..|by rewrite Hid].
  rewrite Hid in Ht4. exists r1, n, artifacts, rest, t4. done.
Qed.

Lemma mark_rows_Ok run (l : list (Id * PreparedEvent)) : ∀ t ids t',
  tables_wf t → mark_rows finished interrupt run l t = (Ok ids, t') →
  ∃ (m : gmap Id R) added artifacts, t' = logged (tb_events t ++ added) artifacts (set_row_table m t) ∧
    marked finished (λ r r', interrupt r = (Ok tt, r')) run l.*1 ids (row_table t) m added ∧
    kept (all_sealed l.*2) t t'.
Proof.
  induction l as [|[id event] l IH]; intros t ids t' Hwf Hrun.
  { apply ret_Ok in Hrun as [-> ->]. exists (row_table t), [], (tb_artifacts t).
    rewrite app_nil_r, (rl_same (step:=step)), logged_same.
    split_and!; [done|apply marked_nil|by apply kept_refl]. }
  apply mark_rows_cons in Hrun as (r & Hr & Hid & Hrun); [|done].
  destruct (finished r) eqn:Hf.
  - destruct (IH _ _ _ Hwf Hrun) as (m & added & artifacts & Ht & Hmk & Hk). exists m, added, artifacts.
    split_and!; [done|by eapply marked_skip|by eapply kept_more, Hk; set_solver].
  - destruct Hrun as (r' & n & artifacts1 & rest & t1 & Hm & -> & -> & Hk1 & Hrun).
    apply IH in Hrun as (m & added & artifacts & -> & Hmk & Hk); [|apply Hk1].
    rewrite (rl_logged (step:=step)), (rl_table (step:=step)) in Hmk.
    exists m, (MkStoredEvent run n (pe_event event) :: added), artifacts. split_and!.
    + rewrite (rl_under_log (step:=step)), (rl_twice (step:=step)). unfold logged. cbn. by rewrite <- app_assoc.
    + eapply marked_cons; [exact Hr|done|exact Hm|by eapply Hends|done|done].
    + eapply kept_trans; [eapply kept_more, Hk1|eapply kept_more, Hk]; set_solver.
Qed.
End rows.

(** *** Questions *)

Definition superseded (at_ : OffsetDateTime) (a a' : ApprovalRequest) : Prop :=
  ApprovalRequest_supersede at_ a = (Ok tt, a').
Definition answered (a : ApprovalRequest) : bool := negb (bool_decide (ar_state a = ApPending)).

Lemma supersede_cons request event l run at_ t rest t' :
  tables_wf t → supersede_all run at_ ((request, event) :: l) t = (Ok rest, t') →
  ∃ a, tb_approvals t !! ar_id request = Some a ∧
    if answered a then supersede_all run at_ l t = (Ok rest, t')
    else ∃ a' n artifacts rest' t1, superseded at_ a a' ∧ ar_id a' = ar_id request ∧ rest = a' :: rest' ∧
      t1 = logged (tb_events t ++ [MkStoredEvent run n (pe_event event)]) artifacts
             (set_approvals (<[ar_id request := a']> (tb_approvals t)) t) ∧
      kept (sealed_ids event) t t1 ∧ supersede_all run at_ l t1 = (Ok rest', t').
Proof.
  intros Hwf Hrun. cbn in Hrun. apply bindM_Ok in Hrun as (a & t1 & Hl & Hrun).
  pose proof Hl as (-> & Ha)%load_approval_Ok; [|done]. exists a. split; [done|]. unfold answered.
  destruct (negb (bool_decide (ar_state a = ApPending))); [done|].
  apply bindM_Ok in Hrun as (a' & t2 & Hc & Hrun). apply bindM_Ok in Hrun as (u & t3 & Hu & Hrun).
  apply bindM_Ok in Hrun as (n & t4 & Happ & Hrun). apply bindM_Ok in Hrun as (rest' & t5 & Hrest & [-> ->]%ret_Ok).
  assert ((loaded ← load_approval (ar_id request); request ← change_request (ApprovalRequest_supersede at_) loaded;
    _ ← update_resolution request; mret request) t = (Ok a', t3)) as Hone.
  { apply bindM_Ok. exists a, t. split; [done|]. apply bindM_Ok. exists a', t2. split; [done|].
    apply bindM_Ok. exists u, t3. by rewrite ret_Ok. }
  assert (answers_request (ApprovalRequest_supersede at_)) as Hans by apply resolve_answers.
  pose proof (answered_keeps (sealed_ids event) (ar_id request) _ Hans t a' t3 Hwf Hone) as Hk.
  apply answered_Ok in Hone as (a0 & Ha0 & Hm & _ & Hid & Ht3); [|done..].
  assert (a0 = a) as -> by congruence.
  assert (kept (sealed_ids event) t t4) as Hk4.
  { eapply kept_trans; [exact Hk|]. eapply prepared_append_keeps; [apply Hk|exact Happ]. }
  apply append_logged in Happ as (artifacts & Ht4). subst t3.
  exists a', n, artifacts, rest', t4. done.
Qed.
Lemma superseded_ends at_ a a' : superseded at_ a a' → answered a' = true ∧ ar_state a' = Superseded.
Proof. intros (_ & _ & _ & _ & ->)%resolve_inv. done. Qed.
Lemma supersede_all_Ok run at_ l : ∀ t rest t',
  tables_wf t → supersede_all run at_ l t = (Ok rest, t') →
  ∃ m added artifacts, t' = logged (tb_events t ++ added) artifacts (set_approvals m t) ∧
    marked answered (superseded at_) run (ar_id <$> l.*1) (ar_id <$> rest) (tb_approvals t) m added ∧
    (∀ a, a ∈ rest → m !! ar_id a = Some a) ∧ kept (all_sealed l.*2) t t'.
Proof.
  induction l as [|[request event] l IH]; intros t rest t' Hwf Hrun.
  { apply ret_Ok in Hrun as [-> ->]. exists (tb_approvals t), [], (tb_artifacts t).
    rewrite app_nil_r. split_and!; [by destruct t|apply marked_nil|by intros ? []%not_elem_of_nil|by apply kept_refl]. }
  apply supersede_cons in Hrun as (a & Ha & Hrun); [|done].
  destruct (answered a) eqn:Hf.
  - destruct (IH _ _ _ Hwf Hrun) as (m & added & artifacts & Ht & Hmk & Hre & Hk). exists m, added, artifacts.
    split_and!; [done|by eapply marked_skip|done|by eapply kept_more, Hk; set_solver].
  - destruct Hrun as (a' & n & artifacts1 & rest' & t1 & Hm & Hid & -> & -> & Hk1 & Hrun).
    apply IH in Hrun as (m & added & artifacts & -> & Hmk & Hre & Hk); [|apply Hk1].
    cbn [tb_approvals logged set_artifacts set_events set_approvals] in Hmk.
    exists m, (MkStoredEvent run n (pe_event event) :: added), artifacts.
    assert (marked answered (superseded at_) run (ar_id <$> ((request, event) :: l).*1) (ar_id <$> a' :: rest')
      (tb_approvals t) m (MkStoredEvent run n (pe_event event) :: added)) as Hmk'.
    { cbn. rewrite Hid. eapply marked_cons; [exact Ha|done|exact Hm|by eapply superseded_ends|done|done]. }
    split_and!; [|exact Hmk'| |].
    + unfold logged. cbn. by rewrite <- app_assoc.
    + intros b [->|Hb]%elem_of_cons; [|by apply Hre].
      destruct (mk_moved _ _ _ _ _ _ _ _ Hmk' (ar_id a')) as (x & y & Hx & _ & Hxy & Hy); [by left|].
      rewrite Hid, Ha in Hx. injection Hx as <-. unfold superseded in *. congruence.
    + eapply kept_trans; [eapply kept_more, Hk1|eapply kept_more, Hk]; set_solver.
Qed.

(** *** The whole transaction *)

Definition call_finished (c : ToolCall) : bool := is_terminal (call_state c).
Definition step_finished (s : Step) : bool := is_terminal (step_state s).
Definition run_finished (r : Run) : bool := is_terminal (run_state r).
Definition call_interrupts (at_ : OffsetDateTime) (c c' : ToolCall) : Prop :=
  ToolCall_transition CallInterrupted at_ c = (Ok tt, c').
Definition step_interrupts (at_ : OffsetDateTime) (s s' : Step) : Prop :=
  Step_transition ExecInterrupted at_ s = (Ok tt, s').
Definition run_interrupts (at_ : OffsetDateTime) (r r' : Run) : Prop :=
  Run_transition ExecInterrupted at_ r = (Ok tt, r').
Lemma call_interrupts_ends at_ c c' : call_interrupts at_ c c' → call_state c' = CallInterrupted.
Proof.
  unfold call_interrupts, ToolCall_transition. intros Hm. method_inv Hm.
  by match goal with Hmv : moved _ _ _ |- _ => apply moved_inv in Hmv as (_ & Hto & _) end.
Qed.
Lemma step_interrupts_ends at_ s s' : step_interrupts at_ s s' → step_state s' = ExecInterrupted.
Proof.
  unfold step_interrupts, Step_transition. intros Hm. method_inv Hm.
  by match goal with Hmv : moved _ _ _ |- _ => apply moved_inv in Hmv as (_ & Hto & _) end.
Qed.
Lemma run_interrupts_ends at_ r r' : run_interrupts at_ r r' → run_state r' = ExecInterrupted.
Proof.
  unfold run_interrupts, Run_transition. intros Hm. method_inv Hm.
  by match goal with Hmv : moved _ _ _ |- _ => apply moved_inv in Hmv as (_ & Hto & _) end.
Qed.

(** The claim is given up with the last of its run. *)
Definition release_of (lease : option LeaseId) (at_ : OffsetDateTime) (leases : gmap LeaseId LeaseRecord)
    : gmap LeaseId LeaseRecord :=
  match lease ≫= λ id, leases !! id with
  | Some l => if is_released l then leases else <[le_id l := released at_ l]> leases
  | None => leases
  end.

(** What the tables become when a run is ended, and nothing else. *)
Record ended (p : Planned) (at_ : OffsetDateTime) (i : RunInterruption) (t t' : Tables) : Prop := {
  ed_run : ∃ r r', tb_runs t !! pl_run p = Some r ∧ run_finished r = false ∧ run_interrupts at_ r r' ∧
    tb_runs t' = <[pl_run p := r']> (tb_runs t);
  ed_calls : ∃ added, marked call_finished (call_interrupts at_) (pl_run p) (pl_calls p).*1 (in_calls i)
    (tb_calls t) (tb_calls t') added;
  ed_steps : ∃ added, marked step_finished (step_interrupts at_) (pl_run p) (pl_steps p).*1 (in_steps i)
    (tb_steps t) (tb_steps t') added;
  ed_approvals : ∃ added, marked answered (superseded at_) (pl_run p) (ar_id <$> (pl_approvals p).*1)
    (ar_id <$> in_approvals i) (tb_approvals t) (tb_approvals t') added;
  ed_answered : ∀ a, a ∈ in_approvals i → tb_approvals t' !! ar_id a = Some a;
  ed_events : ∃ m n between, tb_events t' =
    tb_events t ++ [MkStoredEvent (pl_run p) n (pe_event (pl_interrupted p))] ++ between
      ++ [MkStoredEvent (pl_run p) m (pe_event (pl_run_state p))] ∧
    se_run <$> between = replicate (length (in_calls i) + length (in_steps i) + length (in_approvals i)) (pl_run p);
  ed_leases : tb_leases t' = release_of (pl_lease p) at_ (tb_leases t);
  ed_tasks : tb_tasks t' = tb_tasks t;
  ed_claims : tb_claims t' = tb_claims t;
  ed_named : in_run i = pl_run p;
}.

Lemma release_row_Ok lease at_ t u t' :
  tables_wf t →
  (match lease with Some lease => release_row lease at_ | None => mret tt end) t = (Ok u, t') →
  t' = set_leases (release_of lease at_ (tb_leases t)) t.
Proof.
  intros Hwf Hr. destruct lease as [id|]; cbn; [|apply ret_Ok in Hr as [_ ->]; by destruct t].
  apply bindM_Ok in Hr as (n & t1 & Hu & [_ ->]%ret_Ok).
  unfold release_of. cbn. unfold update_live_lease in Hu.
  apply bindM_Ok in Hu as (? & ? & [-> ->]%get_Ok & Hu).
  destruct (tb_leases t !! id) as [l|] eqn:Hl.
  - rewrite (wf_leases _ Hwf id l Hl). destruct (is_released l).
    + apply ret_Ok in Hu as [_ ->]. by destruct t.
    + by apply bindM_Ok in Hu as (? & ? & ->%modify_Ok & [_ ->]%ret_Ok).
  - apply ret_Ok in Hu as [_ ->]. by destruct t.
Qed.

Definition planned_sealed (p : Planned) : list ArtifactId := all_sealed (planned_events p).
Lemma planned_kept p es t t' :
  (∀ e, e ∈ es → e ∈ planned_events p) → kept (all_sealed es) t t' → kept (planned_sealed p) t t'.
Proof.
  intros Hes. apply kept_more. intros id (e & ? & ?)%list_elem_of_bind. apply list_elem_of_bind. by eauto.
Qed.
Lemma kept_one e t t' : kept (sealed_ids e) t t' → kept (all_sealed [e]) t t'.
Proof. unfold all_sealed. cbn. by rewrite app_nil_r. Qed.
Lemma apply_None p at_ t t' : apply_interruption p at_ t = (Ok None, t') → t' = t.
Proof.
  intros (r & t1 & (-> & _)%(load_row_Ok (step:=run_step)) & Hrun)%bindM_Ok.
  destruct (is_terminal (run_state r)); [by apply ret_Ok in Hrun as [_ ->]|].
  repeat (apply bindM_Ok in Hrun as (? & ? & _ & Hrun)). apply ret_Ok in Hrun as [? _]. discriminate.
Qed.
Lemma apply_Some p at_ t i t' :
  tables_wf t → apply_interruption p at_ t = (Ok (Some i), t') →
  ended p at_ i t t' ∧ kept (planned_sealed p) t t'.
Proof.
  intros Hwf Hrun. apply bindM_Ok in Hrun as (r & t0 & (-> & Hr & _)%(load_row_Ok (step:=run_step)) & Hrun).
  destruct (is_terminal (run_state r)) eqn:Hf; [by apply ret_Ok in Hrun as [? _]|].
  apply bindM_Ok in Hrun as (n & t1 & Happ & Hrun).
  pose proof (prepared_append_keeps _ _ _ _ _ Hwf Happ) as Hk1. apply append_logged in Happ as (arts1 & Ht1).
  apply bindM_Ok in Hrun as (calls & t2 & Hmark & Hrun).
  apply (mark_rows_Ok (step:=call_still)) in Hmark as (ca & added2 & arts2 & Ht2 & Hca & Hk2);
    [|apply transition_still|by intros ? ? Hi%call_interrupts_ends; rewrite Hi|apply call_writes|apply Hk1].
  apply bindM_Ok in Hrun as (steps & t3 & Hmark & Hrun).
  apply (mark_rows_Ok (step:=step_step)) in Hmark as (st & added3 & arts3 & Ht3 & Hst & Hk3);
    [|by intros ? ? Hi; exact (step_does_transition _ _ _ _ Hi)|by intros ? ? Hi%step_interrupts_ends; rewrite Hi|apply step_writes|apply Hk2].
  apply bindM_Ok in Hrun as (requests & t4 & Hmark & Hrun).
  apply supersede_all_Ok in Hmark as (ap & added4 & arts4 & Ht4 & Hap & Hans & Hk4); [|apply Hk3].
  apply bindM_Ok in Hrun as (r' & t5 & (-> & Hm)%change_record_Ok & Hrun).
  apply bindM_Ok in Hrun as (u & t6 & Hu & Hrun).
  apply bindM_Ok in Hrun as (m & t7 & Happ & Hrun).
  apply bindM_Ok in Hrun as (u' & t8 & Hrel & [[= ->] ->]%ret_Ok).
  cbn in Hr. destruct (wf_runs _ Hwf _ _ Hr) as (Hid & _).
  assert (run_step r r') as Hs by exact (run_does_transition _ _ _ _ Hm).
  assert (tb_runs t4 = tb_runs t) as Hruns by by subst t4 t3 t2 t1.
  assert (tb_runs t4 !! run_id r = Some r) as Hr4 by by rewrite Hruns, Hid.
  pose proof (run_writes r r' Hs t4 u t6 tt t6 Hr4 Hu eq_refl) as Ht6. cbn in Ht6. rewrite Hid, Hruns in Ht6.
  pose proof (rl_store (step:=run_step) [] t4 r r' (kp_wf _ _ _ Hk4) Hr4 Hs) as Hk6.
  cbn in Hk6. rewrite Hid, Hruns, <- Ht6 in Hk6.
  pose proof (prepared_append_keeps _ _ _ _ _ (kp_wf _ _ _ Hk6) Happ) as Hk7.
  apply append_logged in Happ as (arts7 & Ht7).
  assert (kept [] t7 t8) as Hk8.
  { destruct (pl_lease p) as [l|]; [eapply release_row_keeps; [apply Hk7|exact Hrel]|].
    apply ret_Ok in Hrel as [_ ->]. apply kept_refl, Hk7. }
  apply release_row_Ok in Hrel as Ht8; [|apply Hk7].
  split.
  - subst t8 t7 t6 t4 t3 t2 t1. split; cbn in *; try done.
    + by exists r, r'.
    + by exists added2.
    + by exists added3.
    + by exists added4.
    + exists m, n, (added2 ++ added3 ++ added4). split; [by rewrite <- !app_assoc|].
      rewrite !fmap_app, (mk_events _ _ _ _ _ _ _ _ Hca), (mk_events _ _ _ _ _ _ _ _ Hst),
        (mk_events _ _ _ _ _ _ _ _ Hap), <- !replicate_add, length_fmap. f_equal. lia.
  - eapply kept_trans; [eapply planned_kept, (kept_one _ _ _ Hk1); set_solver|].
    eapply kept_trans; [eapply planned_kept, Hk2; set_solver|].
    eapply kept_trans; [eapply planned_kept, Hk3; set_solver|].
    eapply kept_trans; [eapply planned_kept, Hk4; set_solver|].
    eapply kept_trans; [eapply (planned_kept p []), Hk6; set_solver|].
    eapply kept_trans; [eapply planned_kept, (kept_one _ _ _ Hk7); set_solver|].
    eapply (planned_kept p []), Hk8; set_solver.
Qed.
End marking.

(** ** What an interruption does *)

Section interruption.
Context `{PlatformLaws, !StoreParams, Faults, !Fresh, !FreshLaws}.
Abbreviation storeM A := (stateM RunStore StoreError A).

(** A part of a plan: it leaves the tables alone, and with what was pending before it its
    events are pending. *)
Definition plans {A} (before : list PreparedEvent) (events : A → list PreparedEvent) (m : storeM A) : Prop :=
  ∀ s r s', store_wf s → all_pending before s → m s = (r, s') →
  store_wf s' ∧ later s s' ∧ ∀ a, r = Ok a → all_pending (events a) s'.
Lemma all_pending_later ps s s' :
  all_pending ps s → later s s' → (∀ id, id ∈ rs_files s → id ∈ rs_files s') → all_pending ps s'.
Proof. intros Hp Hl Hf p Hin. by eapply pending_later; [apply Hp| |]. Qed.
Lemma plans_ret {A} before (events : A → list PreparedEvent) (a : A) :
  (∀ p, p ∈ events a → p ∈ before) → plans before events (mret a).
Proof.
  intros Hsub s r s' Hwf Hp [= <- <-]. split_and!; [done..|]. intros b [= <-] p Hin. by apply Hp, Hsub.
Qed.
Lemma plans_reader {A} before (read : stateM Tables StoreError A) : plans before (λ _, before) (with_reader read).
Proof.
  intros s r s' Hwf Hp [-> _]%with_reader_spec.
  split_and!; [by apply (store_wf_later s); [|apply later_tick|]|apply later_tick|].
  intros _ _. eapply all_pending_later; [exact Hp|apply later_tick|done].
Qed.
Lemma plans_prepare before run e : plans before (λ p, p :: before) (prepare_event run e).
Proof.
  intros s r s' Hwf Hb Hrun. destruct (prepare_event_spec _ _ _ _ _ Hwf Hrun) as (? & ? & ? & Hp).
  split_and!; [done..|]. intros p -> q [->|Hq]%elem_of_cons; [by apply Hp|].
  eapply pending_later; [by apply Hb|done..].
Qed.
Lemma plans_bind {A B} before (events : A → list PreparedEvent) (events' : B → list PreparedEvent)
    (m : storeM A) (f : A → storeM B) :
  plans before events m → (∀ a, plans (events a) events' (f a)) → plans before events' (m ≫= f).
Proof.
  intros Hm Hf s r s' Hwf Hb. unfold mbind, stateM_bind. destruct (m s) as [[a|e] s1] eqn:Hrun;
    destruct (Hm _ _ _ Hwf Hb Hrun) as (Hwf1 & Hl & Hp).
  - intros Hrest. destruct (Hf a _ _ _ Hwf1 (Hp a eq_refl) Hrest) as (? & ? & ?). split_and!; [done|by etrans|done].
  - intros [= <- <-]. done.
Qed.
Lemma plans_describe {A B} before run (key : A → B) describe l :
  plans before (λ r, r.*2 ++ before) (describe_each run key describe l).
Proof.
  revert before. induction l as [|a l IH]; intros before; cbn; [by apply plans_ret|].
  eapply plans_bind; [apply plans_prepare|]. intros p. eapply plans_bind; [apply IH|]. intros rest.
  apply plans_ret. cbn. set_solver.
Qed.
Lemma plan_plans run lease reason at_ : plans [] planned_events (plan run lease reason at_).
Proof.
  eapply plans_bind; [apply plans_prepare|]. intros interrupted.
  eapply plans_bind; [apply plans_prepare|]. intros run_state.
  eapply plans_bind; [apply plans_reader|]. intros cs. eapply plans_bind; [apply plans_describe|]. intros calls.
  eapply plans_bind; [apply plans_reader|]. intros ss. eapply plans_bind; [apply plans_describe|]. intros steps.
  eapply plans_bind; [apply plans_reader|]. intros rs. eapply plans_bind; [apply plans_describe|]. intros approvals.
  apply plans_ret. unfold planned_events. cbn. set_solver.
Qed.

Lemma describe_each_fst {A B} run (key : A → B) describe l s r s' :
  describe_each run key describe l s = (Ok r, s') → r.*1 = key <$> l.
Proof.
  revert s r s'. induction l as [|a l IH]; intros s r s'; cbn; [by intros [= <- _]|].
  intros (p & s1 & _ & (rest & s2 & Hrest & [-> ->]%ret_Ok)%bindM_Ok)%bindM_Ok. cbn. by rewrite (IH _ _ _ Hrest).
Qed.

(** *** The rows of a run *)

Lemma run_calls_listed run t cs :
  tables_wf t → (run_calls_rows run t).1 = Ok cs →
  ∀ c, c ∈ cs ↔ tb_calls t !! call_id c = Some c ∧ call_run_id c = run.
Proof.
  intros Hwf Hcs%decode_all_Ok c.
  assert (cs = order_by (λ c, (lc_created_at (call_lifecycle c), ToolCallId_uuid (call_id c)))
    (filter (λ c, call_run_id c = run) (rows_of (tb_calls t)))) as ->.
  { symmetry. apply list_eq_Forall2. eapply Forall2_impl; [exact Hcs|]. cbn. intros x y Hxy.
    unfold decode_row in Hxy. destruct (row_decode x) as [z|] eqn:Hz; [|discriminate].
    injection Hxy as <-. symmetry. by apply (row_reads (R:=ToolCall) (Id:=ToolCallId)). }
  rewrite elem_of_order_by, list_elem_of_filter, elem_of_rows_of. split.
  - intros [Hr [id Hid]]. destruct (wf_calls _ Hwf id c Hid) as (-> & _). done.
  - intros [Hid Hr]. eauto.
Qed.
Lemma run_steps_listed run t ss :
  tables_wf t → (run_steps_rows run t).1 = Ok ss →
  ∀ s, s ∈ ss ↔ tb_steps t !! step_id s = Some s ∧ step_run_id s = run.
Proof.
  intros Hwf Hss%decode_all_Ok s.
  assert (ss = merge_sort ordinal_before (filter (λ s, step_run_id s = run) (rows_of (tb_steps t)))) as ->.
  { symmetry. apply list_eq_Forall2. eapply Forall2_impl; [exact Hss|]. cbn. intros x y Hxy.
    unfold decode_row in Hxy. destruct (row_decode x) as [z|] eqn:Hz; [|discriminate].
    injection Hxy as <-. symmetry. by apply (row_reads (R:=Step) (Id:=StepId)). }
  rewrite merge_sort_Permutation, list_elem_of_filter, elem_of_rows_of. split.
  - intros [Hr [id Hid]]. destruct (wf_steps _ Hwf id s Hid) as (-> & _). done.
  - intros [Hid Hr]. eauto.
Qed.
Lemma decode_approvals_same t l :
  tables_wf t → (∀ a, a ∈ l → ∃ id, tb_approvals t !! id = Some a) → decode_all decode_approval l = Ok l.
Proof.
  intros Hwf Hl. apply decode_all_same. intros a [id Ha]%Hl.
  destruct (wf_approvals _ Hwf id a Ha) as (_ & Hs & _). by apply stored_reads.
Qed.
Lemma run_approvals_listed run t :
  tables_wf t → ∃ l, (run_approvals_rows run t).1 = Ok l ∧
  ∀ a, a ∈ l ↔ tb_approvals t !! ar_id a = Some a ∧ pa_run_id (ar_pending a) = run.
Proof.
  intros Hwf. eexists. split.
  - apply (decode_approvals_same t); [done|]. intros a. rewrite elem_of_order_by, list_elem_of_filter, elem_of_rows_of.
    by intros [_ ?].
  - intros a. rewrite elem_of_order_by, list_elem_of_filter, elem_of_rows_of. split.
    + intros [Hr [id Hid]]. destruct (wf_approvals _ Hwf id a Hid) as (-> & _). done.
    + intros [Hid Hr]. eauto.
Qed.

Lemma describe_tables {A B} run (key : A → B) describe l s r s' :
  describe_each run key describe l s = (r, s') → rs_tables s' = rs_tables s.
Proof.
  revert s r s'. induction l as [|a l IH]; intros s r s'; cbn; [by intros [= _ <-]|].
  unfold mbind, stateM_bind. destruct (prepare_event run (describe a) s) as [[p|e] s1] eqn:Hp;
    apply prepare_tables in Hp; [|by intros [= _ <-]].
  destruct (describe_each run key describe l s1) as [[rest|e] s2] eqn:Hrest; apply IH in Hrest;
    intros [= _ <-]; congruence.
Qed.

Lemma plan_Ok run lease reason at_ s p s' :
  store_wf s → plan run lease reason at_ s = (Ok p, s') →
  pl_run p = run ∧ pl_lease p = lease ∧
  recorded_as (interrupted_event lease reason at_) (pe_event (pl_interrupted p)) ∧
  recorded_as (run_state_event ExecInterrupted at_) (pe_event (pl_run_state p)) ∧
  (∀ id, id ∈ (pl_calls p).*1 ↔ ∃ c, tb_calls (rs_tables s) !! id = Some c ∧ call_run_id c = run ∧ call_finished c = false) ∧
  (∀ id, id ∈ (pl_steps p).*1 ↔ ∃ x, tb_steps (rs_tables s) !! id = Some x ∧ step_run_id x = run ∧ step_finished x = false) ∧
  (∀ id, id ∈ ar_id <$> (pl_approvals p).*1 ↔
     ∃ a, tb_approvals (rs_tables s) !! id = Some a ∧ pa_run_id (ar_pending a) = run ∧ answered a = false).
Proof.
  intros [Hwf _] Hrun.
  apply bindM_Ok in Hrun as (interrupted & s1 & Hi & Hrun). pose proof (prepare_tables _ _ _ _ _ Hi) as Ht1.
  apply bindM_Ok in Hrun as (run_state & s2 & Hr & Hrun). pose proof (prepare_tables _ _ _ _ _ Hr) as Ht2.
  apply bindM_Ok in Hrun as (cs & s3 & [-> Hcs]%with_reader_spec & Hrun). specialize (Hcs cs eq_refl).
  apply bindM_Ok in Hrun as (calls & s4 & Hc & Hrun). pose proof (describe_tables _ _ _ _ _ _ _ Hc) as Ht4.
  apply bindM_Ok in Hrun as (ss & s5 & [-> Hss]%with_reader_spec & Hrun). specialize (Hss ss eq_refl).
  apply bindM_Ok in Hrun as (steps & s6 & Hs & Hrun). pose proof (describe_tables _ _ _ _ _ _ _ Hs) as Ht6.
  apply bindM_Ok in Hrun as (rs & s7 & [-> Hrs]%with_reader_spec & Hrun). specialize (Hrs rs eq_refl).
  apply bindM_Ok in Hrun as (approvals & s8 & Ha & Hrun). apply ret_Ok in Hrun as [-> _].
  cbn [rs_tables tick] in *. rewrite Ht6, Ht4, Ht2, Ht1 in Hrs. rewrite Ht4, Ht2, Ht1 in Hss. rewrite Ht2, Ht1 in Hcs.
  apply describe_each_fst in Hc, Hs, Ha. apply prepare_records in Hi, Hr. cbn. rewrite Hc, Hs, Ha.
  split_and!; [done..| | |].
  - intros id. rewrite list_elem_of_fmap. setoid_rewrite list_elem_of_filter.
    setoid_rewrite (run_calls_listed run _ _ Hwf Hcs). split.
    + intros (c & -> & Hf & Hin & Hrun). by exists c.
    + intros (c & Hin & Hrun & Hf). exists c. destruct (wf_calls _ Hwf id c Hin) as (-> & _). done.
  - intros id. rewrite list_elem_of_fmap. setoid_rewrite list_elem_of_filter.
    setoid_rewrite (run_steps_listed run _ _ Hwf Hss). split.
    + intros (c & -> & Hf & Hin & Hrun). by exists c.
    + intros (c & Hin & Hrun & Hf). exists c. destruct (wf_steps _ Hwf id c Hin) as (-> & _). done.
  - destruct (run_approvals_listed run _ Hwf) as (l & Hl & Hlisted). rewrite Hl in Hrs. injection Hrs as ->.
    intros id. rewrite list_fmap_id, list_elem_of_fmap. setoid_rewrite list_elem_of_filter. setoid_rewrite Hlisted.
    unfold answered. split.
    + intros (a & -> & Hf & Hin & Hrun). exists a. by rewrite bool_decide_eq_true_2.
    + intros (a & Hin & Hrun & Hf). exists a. destruct (wf_approvals _ Hwf id a Hin) as (-> & _).
      apply negb_false_iff, bool_decide_eq_true in Hf. done.
Qed.

(** *** The operation *)

Lemma commit_interruption_Ok p at_ s r s' :
  store_wf s → all_pending (planned_events p) s → commit_interruption p at_ s = (r, s') →
  store_wf s' ∧ extends (rs_tables s) (rs_tables s') ∧ rs_io s ≤ rs_io s' ∧
  match r with
  | Ok (Some i) => ended p at_ i (rs_tables s) (rs_tables s')
  | _ => rs_tables s' = rs_tables s
  end.
Proof.
  intros Hwf Hp. unfold commit_interruption.
  assert (∀ q s1, in_write_transaction (apply_interruption p at_) s = (q, s1) →
    store_wf s1 ∧ extends (rs_tables s) (rs_tables s1) ∧ rs_io s ≤ rs_io s1 ∧
    (q = Ok None ∨ (∃ e, q = Err e) → rs_tables s1 = rs_tables s)) as Hkeeps.
  { intros q s1 Hrun. destruct (transaction_keeps (planned_sealed p) (apply_interruption p at_) s q s1) as (? & ? & ? & He);
      [done| | |done|].
    - intros t [i|] t' Ht Ha; [by eapply apply_Some|]. apply apply_None in Ha as ->. by apply kept_refl.
    - intros id (e & Hid & Hin)%list_elem_of_bind. by destruct (Hp e Hin id Hid) as (? & ? & _).
    - split_and!; [done..|]. intros [->|[e ->]]; [|by eapply He].
      apply in_write_transaction_spec in Hrun as (_ & _ & Ha). by apply apply_None in Ha. }
  destruct (in_write_transaction (apply_interruption p at_) s) as [[[i|]|e] s1] eqn:Hrun;
    destruct (Hkeeps _ _ eq_refl) as (Hwf1 & Hex & Hio & Hsame); intros [= <- <-].
  - apply in_write_transaction_spec in Hrun as (_ & _ & Ha). split_and!; [done..|].
    by apply apply_Some in Ha as [? _]; [|apply Hwf].
  - specialize (Hsame (or_introl eq_refl)). destruct (discards_spec (planned_events p) s1 Hwf1) as [Hwf2 [Ht2 Hio2]].
    { rewrite Hsame. by apply pending_absent. }
    unfold discard_spills. rewrite Ht2, Hsame. split_and!; [done|done|lia|done].
  - assert (rs_tables s1 = rs_tables s) as Hs1 by (apply Hsame; eauto).
    destruct (discards_spec (planned_events p) s1 Hwf1) as [Hwf2 [Ht2 Hio2]].
    { rewrite Hs1. by apply pending_absent. }
    unfold discard_spills. rewrite Ht2, Hs1. split_and!; [done|done|lia|done].
Qed.

(** Either the run is ended with all that was planned from the tables as they were, or the
    tables are as they were. *)
Lemma interrupt_run_Ok run lease reason at_ s r s' :
  store_wf s → interrupt_run run lease reason at_ s = (r, s') →
  store_wf s' ∧ extends (rs_tables s) (rs_tables s') ∧ rs_io s ≤ rs_io s' ∧
  match r with
  | Ok (Some i) => ∃ p s1 s2, plan run lease reason at_ s1 = (Ok p, s2) ∧ store_wf s1 ∧
      rs_tables s1 = rs_tables s ∧ ended p at_ i (rs_tables s) (rs_tables s')
  | _ => rs_tables s' = rs_tables s
  end.
Proof.
  intros Hwf. unfold interrupt_run, mbind, stateM_bind.
  destruct (load run s) as [[record|e] s1] eqn:Hl; apply with_reader_spec in Hl as [-> _].
  2: { intros [= <- <-]. split_and!; [|done|cbn; lia|done]. by apply (store_wf_later s); [|apply later_tick|]. }
  assert (store_wf (tick s)) as Hwf1 by by apply (store_wf_later s); [|apply later_tick|].
  destruct (is_terminal (run_state record)); [intros [= <- <-]; split_and!; [done|done|cbn; lia|done]|].
  destruct (plan run lease reason at_ (tick s)) as [[p|e] s2] eqn:Hplan;
    (apply plan_plans in Hplan as Hp; [|done|by intros ? []%not_elem_of_nil]);
    destruct Hp as (Hwf2 & [Ht2 Hio2] & Hp); cbn in Ht2, Hio2.
  - intros Hrun. destruct (commit_interruption_Ok p at_ s2 r s' Hwf2 (Hp p eq_refl) Hrun) as (? & ? & ? & Hr).
    rewrite Ht2 in *. split_and!; [done|done|lia|]. destruct r as [[i|]|e]; [|done..].
    exists p, (tick s), s2. done.
  - intros [= <- <-]. rewrite Ht2. split_and!; [done|done|lia|done].
Qed.
Lemma keeps_interrupt run lease reason at_ : keeps (interrupt_run run lease reason at_).
Proof.
  intros s r s' Hwf Hrun. destruct (interrupt_run_Ok _ _ _ _ _ _ _ Hwf Hrun) as (? & ? & ? & Hr).
  split_and!; [done..|]. by intros e ->.
Qed.
End interruption.
