(* ===== verification/StoreSafety.v ===== *)
(** * What the run store promises

    Every operation of [RunStore] as one step of the store, with what such steps keep
    whatever fails under them; the change of a record and the event that says so; the
    binding an approved dispatch checks; and the pages of a run's log. *)

From Stdlib Require Import ZArith ZifyN ZifyBool Sorted.
From stdpp Require Import base decidable countable list gmap sets relations strings.
From S2P Require Import Prelude Digest Tool External Trust Policy Approval Matcher Lifecycle Domain Records Wire RunStore StoreClaims StoreLaws ClaimLaws Interrupt.

(** ** Operations *)

Section operations.
Context `{PlatformLaws, !StoreParams, Faults, !Fresh, !FreshLaws}.
Abbreviation storeM A := (stateM RunStore StoreError A).

(** An operation of the store, on records as the domain makes them. *)
Inductive operation : ∀ {A}, storeM A → Prop :=
| op_insert_task task : operation (insert_task task)
| op_insert_run run : run_wf run → operation (insert_run run)
| op_insert_run_with_event run owner e : run_wf run → operation (insert_run_with_event run owner e)
| op_insert_retry run owner e original retried :
    run_wf run → operation (insert_retry_with_events run owner e original retried)
| op_insert_step step : exec_wf (step_view step) → operation (insert_step step)
| op_insert_tool_call c : call_wf c → operation (insert_tool_call c)
| op_append_event run e : operation (append_event run e)
| op_append_events run es : operation (append_events run es)
| op_load_run (id : RunId) : operation (load (R:=Run) id)
| op_load_step (id : StepId) : operation (load (R:=Step) id)
| op_load_call (id : ToolCallId) : operation (load (R:=ToolCall) id)
| op_transition_run id to at_ : operation (transition_run id to at_)
| op_fail_run id f at_ : operation (fail_run id f at_)
| op_approve_run id who at_ : operation (approve_run id who at_)
| op_reject_run id who f at_ : operation (reject_run_approval id who f at_)
| op_transition_run_with_event id to at_ e : operation (transition_run_with_event id to at_ e)
| op_fail_run_with_event id f at_ e : operation (fail_run_with_event id f at_ e)
| op_approve_run_with_event id who at_ e : operation (approve_run_with_event id who at_ e)
| op_resume_run id who at_ e : operation (resume_run_after_denial_with_event id who at_ e)
| op_transition_step id to at_ : operation (transition_step id to at_)
| op_fail_step id f at_ : operation (fail_step id f at_)
| op_approve_step id who at_ : operation (approve_step id who at_)
| op_reject_step id who f at_ : operation (reject_step_approval id who f at_)
| op_transition_step_with_event id to at_ e : operation (transition_step_with_event id to at_ e)
| op_fail_step_with_event id f at_ e : operation (fail_step_with_event id f at_ e)
| op_transition_call id to at_ : operation (transition_tool_call id to at_)
| op_succeed_call id output at_ : operation (succeed_tool_call id output at_)
| op_fail_call id f at_ : operation (fail_tool_call id f at_)
| op_decide_call id d at_ : operation (apply_tool_call_policy_decision id d at_)
| op_approve_call id who at_ : operation (approve_tool_call id who at_)
| op_reject_call id who f at_ : operation (reject_tool_call_approval id who f at_)
| op_decide_call_with_event id d at_ e : operation (apply_tool_call_policy_decision_with_event id d at_ e)
| op_reject_call_with_event id who f at_ e : operation (reject_tool_call_approval_with_event id who f at_ e)
| op_transition_call_with_event id to at_ e : operation (transition_tool_call_with_event id to at_ e)
| op_succeed_call_with_event id output at_ e : operation (succeed_tool_call_with_event id output at_ e)
| op_fail_call_with_event id f at_ e : operation (fail_tool_call_with_event id f at_ e)
| op_dispatch_call id version at_ e : operation (dispatch_tool_call_with_event id version at_ e)
| op_dispatch_bound id who tool hash at_ e :
    operation (dispatch_bound_approved_tool_call_with_event id who tool hash at_ e)
| op_dispatch_approved id who version at_ e :
    operation (dispatch_approved_tool_call_with_event id who version at_ e)
| op_events run after_ limit : operation (events run after_ limit)
| op_event_page run page : operation (event_page run page)
| op_open_approval a : stored_request a → operation (open_approval a)
| op_decide_approval id d : well_formed_answer d → operation (decide_approval id d)
| op_resolve_approval id to at_ : operation (resolve_approval id to at_)
| op_approval id : operation (approval id)
| op_run_approvals run : operation (run_approvals run)
| op_pending_approvals : operation pending_approvals
| op_run_grants run : operation (run_grants run)
| op_set_run_owner run pid : operation (set_run_owner run pid)
| op_run_owner run : operation (run_owner run)
| op_renew_lease id at_ : operation (renew_lease id at_)
| op_release_lease id at_ : operation (release_lease id at_)
| op_lease id : operation (lease id)
| op_live_leases : operation live_leases
| op_unfinished_runs : operation unfinished_runs
| op_retries_of run : operation (retries_of run)
| op_run_steps run : operation (load_run_steps run)
| op_run_calls run : operation (load_run_tool_calls run)
| op_interrupt_run run owner reason at_ : operation (interrupt_run run owner reason at_).

Lemma quiet_run_of {R Id} `{Countable Id, !Row R Id} (id : Id) (run_of : R → RunId) :
  quiet (r ← load id; mret (run_of r)).
Proof. apply quiet_bind; [apply quiet_reader|]. intros r. apply quiet_ret. Qed.

Lemma keeps_change_run id e m :
  (∀ r r', m r = (Ok tt, r') → run_step r r') → keeps (change_run_with_event id e m).
Proof.
  intros Hm. apply (keeps_change_with_event (step:=run_step));
    [apply quiet_ret|by apply loaded_moves|apply run_writes].
Qed.
Lemma keeps_change_step id e m :
  (∀ r r', m r = (Ok tt, r') → step_step r r') → keeps (change_step_with_event id e m).
Proof.
  intros Hm. apply (keeps_change_with_event (step:=step_step));
    [apply quiet_run_of|by apply loaded_moves|apply step_writes].
Qed.
Lemma keeps_change_call id e m :
  (∀ r r', m r = (Ok tt, r') → call_still r r') → keeps (change_tool_call_with_event id e m).
Proof.
  intros Hm. apply (keeps_change_with_event (step:=call_still));
    [apply quiet_run_of|by apply loaded_moves|apply call_writes].
Qed.

(** The bound dispatch: the row it checks is the row it moves. *)
Definition bound_start (id : ToolCallId) (by_ : string) (tool : ToolIdentity) (hash : InputHash)
    (at_ : OffsetDateTime) : stateM Tables StoreError ToolCall :=
  c ← load_row id;
  _ ← lift (check_binding id tool hash c);
  change_record (ToolCall_dispatch_approved by_ (Version_to_string (as_semver (ti_version tool))) at_) c.
Lemma bound_start_Ok id by_ tool hash at_ t c' t' :
  bound_start id by_ tool hash at_ t = (Ok c', t') →
  t' = t ∧ ∃ c, tb_calls t !! id = Some c ∧ check_binding id tool hash c = Ok tt
    ∧ ToolCall_dispatch_approved by_ (Version_to_string (as_semver (ti_version tool))) at_ c = (Ok tt, c').
Proof.
  intros (c & t1 & Hl & ([] & t2 & [Hb ->]%lift_Ok & Hc)%bindM_Ok)%bindM_Ok.
  apply (load_row_Ok (step:=call_step)) in Hl as (-> & Hr & _).
  apply change_record_Ok in Hc as (-> & Hm). split; [done|]. by exists c.
Qed.
Lemma bound_start_moves id by_ tool hash at_ : moves_stored (step:=call_step) (bound_start id by_ tool hash at_).
Proof.
  intros t c' t' Hwf (-> & c & Hc & _ & Hm)%bound_start_Ok. split; [done|]. exists c. cbn.
  assert (call_id c = id) as -> by by apply (wf_calls _ Hwf). split; [done|]. by eapply call_does_dispatch_approved.
Qed.
Lemma keeps_bound id by_ tool hash at_ e :
  keeps (dispatch_bound_approved_tool_call_with_event id by_ tool hash at_ e).
Proof.
  apply (keeps_change_with_event (step:=call_step));
    [apply quiet_run_of|apply bound_start_moves|apply dispatch_writes].
Qed.

Create HintDb store.
#[local] Hint Resolve decide_still transition_still succeed_still fail_still approve_still reject_still : store.
#[local] Hint Constructors run_step step_step call_step : store.

Lemma operation_keeps {A} (m : storeM A) : operation m → keeps m.
Proof.
  intros Hop. destruct Hop;
    try (first
      [ apply (keeps_mutate (step:=run_step)); [eauto with store|apply run_writes]
      | apply (keeps_mutate (step:=step_step)); [eauto with store|apply step_writes]
      | apply (keeps_mutate (step:=call_still)); [eauto with store|apply call_writes]
      | apply keeps_change_run; eauto with store
      | apply keeps_change_step; eauto with store
      | apply keeps_change_call; eauto with store
      | apply keeps_quiet, quiet_reader ]; fail).
  - apply keeps_transaction, insert_task_keeps.
  - by apply keeps_transaction, insert_unowned_run_keeps.
  - by apply keeps_insert_run_with_event.
  - by apply keeps_insert_retry.
  - by apply keeps_transaction, insert_step_keeps.
  - by apply keeps_transaction, insert_tool_call_keeps.
  - apply keeps_append_event.
  - apply keeps_append_events.
  - apply (keeps_change_with_event (step:=call_step));
      [apply quiet_run_of|apply loaded_moves; eauto with store|apply dispatch_writes].
  - apply keeps_bound.
  - apply keeps_bind; [apply quiet_reader|]. intros c. apply keeps_bind; [apply quiet_lift|]. intros tool.
    apply keeps_bind; [apply quiet_lift|]. intros hash. apply keeps_bound.
  - by apply keeps_open.
  - by apply keeps_change_approval, decide_answers.
  - apply keeps_change_approval, resolve_answers.
  - apply keeps_set_owner.
  - apply keeps_renew.
  - apply keeps_release.
  - apply keeps_interrupt.
Qed.
End operations.

(** ** What every operation keeps *)

Section promises.
Context `{PlatformLaws, !StoreParams, Faults, !Fresh, !FreshLaws}.
Abbreviation storeM A := (stateM RunStore StoreError A).

(** One operation, whatever it answers. *)
Definition store_step (s s' : RunStore) : Prop :=
  ∃ (A : Type) (m : storeM A) (r : result StoreError A), operation m ∧ m s = (r, s').

Lemma store_step_keeps s s' :
  store_wf s → store_step s s' → store_wf s' ∧ extends (rs_tables s) (rs_tables s').
Proof.
  intros Hwf (A & m & r & Hop & Hrun). destruct (operation_keeps m Hop s r s' Hwf Hrun) as (? & ? & _). done.
Qed.
Lemma store_steps_keep s s' :
  store_wf s → rtc store_step s s' → store_wf s' ∧ extends (rs_tables s) (rs_tables s').
Proof.
  intros Hwf Hs. induction Hs as [|s s1 s2 Hfst _ IH]; [done|].
  destruct (store_step_keeps s s1 Hwf Hfst) as [Hwf1 Hex]. destruct (IH Hwf1) as [? ?]. split; [done|by etrans].
Qed.
Lemma store_wf_empty : store_wf RunStore_empty.
Proof. split; [apply tables_wf_empty|]. by intros id a Ha. Qed.

(** C23. The store is well-typed however it was reached: whatever operations ran and
    whatever failed under them, every run, step and tool call is stored under its own
    identifier and is a value its domain type allows; every row it refers to is there and
    of the same run; step ordinals are unique in a run; the events of a run are numbered
    from one without a gap; every recorded artifact has its file; every question is of a
    call of its run; and every claim on a run names a recorded lease. *)
Theorem reachable_store_is_typed s : rtc store_step RunStore_empty s → store_wf s.
Proof. intros Hs. by apply (store_steps_keep _ _ store_wf_empty Hs). Qed.

(** C22. A refused operation leaves no trace in the tables: whichever statement, commit,
    file or check failed, every row and every event is as it was, and the store is still
    well-typed. *)
Theorem refused_operation_changes_nothing {A} (m : storeM A) s e s' :
  store_wf s → operation m → m s = (Err e, s') → rs_tables s' = rs_tables s ∧ store_wf s'.
Proof. intros Hwf Hop Hrun. destruct (operation_keeps m Hop s _ s' Hwf Hrun) as (? & _ & _ & He). by eauto. Qed.

(** C25. Rows only move by the methods of their records: over any operations, a task stays
    as it was inserted, a run, step, tool call, approval or lease stays and has only taken
    steps its domain type allows, no run changes owner, and no event or artifact is ever
    removed or rewritten. *)
Theorem rows_move_by_their_lifecycles s s' :
  store_wf s → rtc store_step s s' →
  (∀ id k, tb_tasks (rs_tables s) !! id = Some k → tb_tasks (rs_tables s') !! id = Some k) ∧
  (∀ id r, tb_runs (rs_tables s) !! id = Some r →
     ∃ r', tb_runs (rs_tables s') !! id = Some r' ∧ rtc run_step r r') ∧
  (∀ id p, tb_steps (rs_tables s) !! id = Some p →
     ∃ p', tb_steps (rs_tables s') !! id = Some p' ∧ rtc step_step p p') ∧
  (∀ id c, tb_calls (rs_tables s) !! id = Some c →
     ∃ c', tb_calls (rs_tables s') !! id = Some c' ∧ rtc call_step c c') ∧
  (∀ id a, tb_artifacts (rs_tables s) !! id = Some a → tb_artifacts (rs_tables s') !! id = Some a) ∧
  tb_events (rs_tables s) `prefix_of` tb_events (rs_tables s') ∧
  (∀ run, is_Some (tb_runs (rs_tables s) !! run) →
     tb_claims (rs_tables s') !! run = tb_claims (rs_tables s) !! run) ∧
  (∀ id l, tb_leases (rs_tables s) !! id = Some l →
     ∃ l', tb_leases (rs_tables s') !! id = Some l' ∧ rtc lease_step l l') ∧
  (∀ id a, tb_approvals (rs_tables s) !! id = Some a →
     ∃ a', tb_approvals (rs_tables s') !! id = Some a' ∧ rtc approval_step a a').
Proof. intros Hwf Hs. destruct (store_steps_keep s s' Hwf Hs) as [_ []]. done. Qed.

(** ** A change and its event *)

Lemma prepared_append_Ok run p t n t' :
  tables_wf t → PreparedEvent_append run p t = (Ok n, t') →
  n = N.of_nat (S (length (log_of_run run t))) ∧ tb_tasks t' = tb_tasks t ∧ tb_runs t' = tb_runs t
  ∧ tb_steps t' = tb_steps t ∧ tb_calls t' = tb_calls t
  ∧ tb_events t' = tb_events t ++ [MkStoredEvent run n (pe_event p)].
Proof.
  intros Hwf (u & t1 & Hi & (Hn & -> & _)%append_event_row_Ok)%bindM_Ok.
  assert (tb_tasks t1 = tb_tasks t ∧ tb_runs t1 = tb_runs t ∧ tb_steps t1 = tb_steps t
    ∧ tb_calls t1 = tb_calls t ∧ tb_events t1 = tb_events t) as (? & ? & ? & ? & He).
  { destruct (pe_sealed p) as [[id row]|]; [|by apply ret_Ok in Hi as [_ ->]].
    unfold insert_artifact_row in Hi. apply bindM_Ok in Hi as (? & ? & [-> ->]%get_Ok & Hi).
    apply bindM_Ok in Hi as (? & ? & [-> _]%insert_unique_Ok & Hi).
    apply bindM_Ok in Hi as (? & ? & [_ ->]%lift_Ok & ->%modify_Ok). done. }
  assert (latest_sequence run t1 = latest_sequence run t) as Hl by (unfold latest_sequence; by rewrite He).
  cbn. rewrite Hl, latest_is_length in Hn by done. rewrite He. split_and!; try done. lia.
Qed.

Lemma commit_event_Ok {A} p (change : PreparedEvent → stateM Tables StoreError A) s a s' :
  commit_event p change s = (Ok a, s') → change p (rs_tables s) = (Ok a, rs_tables s').
Proof.
  unfold commit_event, on_error. destruct (in_write_transaction (change p) s) as [[a'|e] s1] eqn:Hrun; [|done].
  intros [= <- <-]. by apply in_write_transaction_spec in Hrun as (_ & _ & ?).
Qed.

(** What a change with its event did to the tables. *)
Lemma change_call_Ok run_of e (change : stateM Tables StoreError ToolCall) pin step
    `{!RowLaws ToolCall ToolCallId step} s c' n s' :
  store_wf s → quiet run_of → moves_stored (step:=step) change → writes (step:=step) pin →
  change_with_event run_of e change pin (λ _ call, call_run_id call) s = (Ok (c', n), s') →
  change (rs_tables s) = (Ok c', rs_tables s) ∧
  tb_calls (rs_tables s') = <[call_id c' := c']> (tb_calls (rs_tables s)) ∧
  tb_tasks (rs_tables s') = tb_tasks (rs_tables s) ∧ tb_runs (rs_tables s') = tb_runs (rs_tables s) ∧
  tb_steps (rs_tables s') = tb_steps (rs_tables s) ∧
  ∃ e', recorded_as e e' ∧
    n = N.of_nat (S (length (log_of_run (call_run_id c') (rs_tables s)))) ∧
    tb_events (rs_tables s') = tb_events (rs_tables s) ++ [MkStoredEvent (call_run_id c') n e'].
Proof.
  intros Hwf Hq Hm Hw (run & s1 & Hrun & (p & s2 & Hp & Hc%commit_event_Ok)%bindM_Ok)%bindM_Ok.
  destruct (Hq _ _ _ Hwf Hrun) as [Hwf1 [Ht1 _]].
  destruct (prepare_event_spec _ _ _ _ _ Hwf1 Hp) as (Hwf2 & [Ht2 _] & _).
  apply prepare_records in Hp. rewrite Ht2, Ht1 in Hc.
  apply bindM_Ok in Hc as (r' & t1 & Hch & (u & t2 & Hu & (u' & t3 & Hpin & Hrest)%bindM_Ok)%bindM_Ok).
  destruct (change_writes (step:=step) change pin (rs_tables s) r' t1 u t2 u' t3) as (r & Hr & Hs & Ht3);
    [done|done|apply Hwf|done..|].
  pose proof (rl_store (sealed_ids p) _ r r' (sw_tables _ Hwf) Hr Hs) as Hk. rewrite <- Ht3 in Hk.
  apply bindM_Ok in Hrest as (k & t4 & Happ & [[= -> ->] ->]%ret_Ok).
  apply prepared_append_Ok in Happ as (Hn & Hta & Hru & Hst & Hca & Hev); [|apply Hk].
  destruct (Hm _ _ _ (sw_tables _ Hwf) Hch) as [-> _].
  assert (log_of_run (call_run_id r') t3 = log_of_run (call_run_id r') (rs_tables s)) as Hlog
    by (by rewrite Ht3).
  rewrite Hlog in Hn. pose proof (rl_id _ _ Hs) as Hid. rewrite Hta, Hru, Hst, Hca, Hev, Ht3. cbn in Hid |- *. rewrite Hid.
  split_and!; [done..|]. by exists (pe_event p).
Qed.

Lemma change_tool_call_Ok id e m s c' n s' :
  store_wf s → (∀ c c', m c = (Ok tt, c') → call_still c c') →
  change_tool_call_with_event id e m s = (Ok (c', n), s') →
  ∃ c e', tb_calls (rs_tables s) !! id = Some c ∧ m c = (Ok tt, c') ∧
    tb_calls (rs_tables s') = <[id := c']> (tb_calls (rs_tables s)) ∧
    tb_tasks (rs_tables s') = tb_tasks (rs_tables s) ∧ tb_runs (rs_tables s') = tb_runs (rs_tables s) ∧
    tb_steps (rs_tables s') = tb_steps (rs_tables s) ∧ recorded_as e e' ∧
    n = N.of_nat (S (length (log_of_run (call_run_id c) (rs_tables s)))) ∧
    tb_events (rs_tables s') = tb_events (rs_tables s) ++ [MkStoredEvent (call_run_id c) n e'].
Proof.
  intros Hwf Hm Hrun. pose proof (loaded_moves (step:=call_still) id m Hm) as Hmoves.
  apply (change_call_Ok _ _ _ _ call_still) in Hrun as (Hch & Hca & ? & ? & ? & e' & ? & Hn & Hev);
    [|done|apply quiet_run_of|done|apply call_writes].
  apply (loaded_and_moved_Ok (step:=call_still)) in Hch as (_ & c & Hc & _ & Hmc).
  pose proof (Hm _ _ Hmc) as [(Hid & Hr & _)%call_step_frame _].
  assert (call_id c = id) as Hcid by by apply (wf_calls _ (sw_tables _ Hwf)).
  rewrite Hid, Hcid in Hca. rewrite Hr in Hn, Hev. exists c, e'. done.
Qed.

(** C24. A change of a tool call and the event that says so become true together: when such
    an operation answers, the stored row was moved by the domain's own method and by nothing
    else, exactly one event was appended to the log of the call's run, redacted, at the
    position after its last, and no other row of a task, run, step or call changed. *)
Theorem call_changes_with_its_event id e m s c' n s' :
  store_wf s → (∀ c c', m c = (Ok tt, c') → call_still c c') →
  change_tool_call_with_event id e m s = (Ok (c', n), s') →
  ∃ c e', tb_calls (rs_tables s) !! id = Some c ∧ m c = (Ok tt, c') ∧
    tb_calls (rs_tables s') = <[id := c']> (tb_calls (rs_tables s)) ∧
    tb_tasks (rs_tables s') = tb_tasks (rs_tables s) ∧ tb_runs (rs_tables s') = tb_runs (rs_tables s) ∧
    tb_steps (rs_tables s') = tb_steps (rs_tables s) ∧ recorded_as e e' ∧
    n = N.of_nat (S (length (log_of_run (call_run_id c) (rs_tables s)))) ∧
    tb_events (rs_tables s') = tb_events (rs_tables s) ++ [MkStoredEvent (call_run_id c) n e'].
Proof. apply change_tool_call_Ok. Qed.

(** ** Dispatch *)

Lemma check_binding_Ok id tool hash c :
  check_binding id tool hash c = Ok tt ↔
  call_tool_id c = ToolId_as_str (ti_id tool) ∧
  (call_tool_version c = "" ∨ call_tool_version c = Version_to_string (as_semver (ti_version tool))) ∧
  input_hash (call_input c) = Ok hash.
Proof.
  unfold check_binding, hash_of. destruct (decide (call_tool_id c = ToolId_as_str (ti_id tool))) as [?|?].
  2: { rewrite bool_decide_eq_false_2 by done. cbn. naive_solver. }
  rewrite bool_decide_eq_true_2 by done. cbn.
  destruct (decide (call_tool_version c = "")) as [?|?];
    [rewrite bool_decide_eq_true_2 by done; cbn|rewrite bool_decide_eq_false_2 by done; cbn;
      case_bool_decide; cbn; [|naive_solver]].
  - destruct (input_hash (call_input c)) as [h|]; cbn; [case_bool_decide|]; naive_solver.
  - destruct (input_hash (call_input c)) as [h|]; cbn; [case_bool_decide|]; naive_solver.
Qed.

Lemma dispatch_approved_Ok who version at_ c c' :
  ToolCall_dispatch_approved who version at_ c = (Ok tt, c') →
  call_state c = AwaitingApproval ∧ call_state c' = CallRunning ∧ call_tool_version c' = version
  ∧ call_approvals c' = call_approvals c ++ [Approval_approved who (call_updated_at c')].
Proof.
  unfold ToolCall_dispatch_approved. intros Hm. method_inv Hm.
  repeat match goal with Hmv : moved _ _ _ |- _ => apply moved_inv in Hmv as (? & Hto & _) end.
  by split_and!.
Qed.
Lemma dispatch_Ok version at_ c c' :
  ToolCall_dispatch version at_ c = (Ok tt, c') →
  call_state c = Pending ∧ call_state c' = CallRunning ∧ call_tool_version c' = version.
Proof.
  unfold ToolCall_dispatch. intros Hm. method_inv Hm.
  repeat match goal with Hmv : moved _ _ _ |- _ => apply moved_inv in Hmv as (? & Hto & _) end.
  by split_and!.
Qed.

(** C9. An approval starts only what it was given for: when a bound dispatch answers, the
    row it started was awaiting approval, named the approved tool, recorded no other
    version of it and held an input with the approved hash; the row now runs that exact
    version, with the answer recorded and its request untouched. *)
Theorem bound_dispatch_starts_what_was_approved id who tool hash at_ e s c' n s' :
  store_wf s →
  dispatch_bound_approved_tool_call_with_event id who tool hash at_ e s = (Ok (c', n), s') →
  ∃ c, tb_calls (rs_tables s) !! id = Some c ∧ tb_calls (rs_tables s') !! id = Some c' ∧
    call_state c = AwaitingApproval ∧ call_tool_id c = ToolId_as_str (ti_id tool) ∧
    (call_tool_version c = "" ∨ call_tool_version c = Version_to_string (as_semver (ti_version tool))) ∧
    input_hash (call_input c) = Ok hash ∧
    call_state c' = CallRunning ∧ call_tool_version c' = Version_to_string (as_semver (ti_version tool)) ∧
    call_tool_id c' = call_tool_id c ∧ call_input c' = call_input c ∧
    call_approvals c' = call_approvals c ++ [Approval_approved who (call_updated_at c')].
Proof.
  intros Hwf Hrun. apply (change_call_Ok _ _ (bound_start id who tool hash at_) _ call_step) in Hrun as (Hch & Hca & _);
    [|done|apply quiet_run_of|apply bound_start_moves|apply dispatch_writes].
  apply bound_start_Ok in Hch as (_ & c & Hc & (? & ? & ?)%check_binding_Ok & Hm).
  pose proof (dispatch_approved_Ok _ _ _ _ _ Hm) as (? & ? & ? & ?).
  apply call_does_dispatch_approved, call_step_frame in Hm as (Hid & _ & _ & ? & ? & _).
  assert (call_id c = id) as Hcid by by apply (wf_calls _ (sw_tables _ Hwf)).
  rewrite Hid, Hcid in Hca. exists c. rewrite Hca, lookup_insert_eq. done.
Qed.

(** The operations that start a call. *)
Inductive dispatch (id : ToolCallId) : storeM (ToolCall * N) → Prop :=
| dispatch_plain version at_ e : dispatch id (dispatch_tool_call_with_event id version at_ e)
| dispatch_bound who tool hash at_ e :
    dispatch id (dispatch_bound_approved_tool_call_with_event id who tool hash at_ e)
| dispatch_approved who version at_ e :
    dispatch id (dispatch_approved_tool_call_with_event id who version at_ e).

Lemma dispatch_is_operation id m : dispatch id m → operation m.
Proof.
  intros [version at_ e|who tool hash at_ e|who version at_ e].
  - exact (op_dispatch_call id version at_ e).
  - exact (op_dispatch_bound id who tool hash at_ e).
  - exact (op_dispatch_approved id who version at_ e).
Qed.

Lemma bound_dispatch_Ok id who tool hash at_ e s c' n s' :
  store_wf s → dispatch_bound_approved_tool_call_with_event id who tool hash at_ e s = (Ok (c', n), s') →
  (∃ c, tb_calls (rs_tables s) !! id = Some c ∧ (call_state c = Pending ∨ call_state c = AwaitingApproval))
  ∧ ∃ c', tb_calls (rs_tables s') !! id = Some c' ∧ call_state c' = CallRunning.
Proof.
  intros Hwf Hrun. apply (change_call_Ok _ _ (bound_start id who tool hash at_) _ call_step) in Hrun as (Hch & Hca & _);
    [|done|apply quiet_run_of|apply bound_start_moves|apply dispatch_writes].
  apply bound_start_Ok in Hch as (_ & c & Hc & _ & Hm).
  pose proof (dispatch_approved_Ok _ _ _ _ _ Hm) as (? & ? & _).
  apply call_does_dispatch_approved, call_step_frame in Hm as (Hid & _).
  assert (call_id c = id) as Hcid by by apply (wf_calls _ (sw_tables _ Hwf)).
  split; [by eauto|]. exists c'. by rewrite Hca, Hid, Hcid, lookup_insert_eq.
Qed.
Lemma dispatch_finds_and_leaves id m s a s' :
  store_wf s → dispatch id m → m s = (Ok a, s') →
  (∃ c, tb_calls (rs_tables s) !! id = Some c ∧ (call_state c = Pending ∨ call_state c = AwaitingApproval))
  ∧ ∃ c', tb_calls (rs_tables s') !! id = Some c' ∧ call_state c' = CallRunning.
Proof.
  intros Hwf [version at_ e|who tool hash at_ e|who version at_ e] Hrun; destruct a as [c' n].
  - assert (moves_stored (step:=call_step) (loaded_and_moved id (ToolCall_dispatch version at_))) as Hmv
      by (apply loaded_moves; eauto using call_step).
    apply (change_call_Ok _ _ _ _ call_step) in Hrun as (Hch & Hca & _);
      [|done|apply quiet_run_of|done|apply dispatch_writes].
    apply (loaded_and_moved_Ok (step:=call_step)) in Hch as (_ & c & Hc & _ & Hm).
    pose proof (dispatch_Ok _ _ _ _ Hm) as (? & ? & _).
    apply call_does_dispatch, call_step_frame in Hm as (Hid & _).
    assert (call_id c = id) as Hcid by by apply (wf_calls _ (sw_tables _ Hwf)).
    split; [by eauto|]. exists c'. by rewrite Hca, Hid, Hcid, lookup_insert_eq.
  - by eapply bound_dispatch_Ok.
  - unfold dispatch_approved_tool_call_with_event in Hrun. cbn in Hrun.
    apply bindM_Ok in Hrun as (c & s1 & [-> _]%with_reader_spec & Hrun).
    apply bindM_Ok in Hrun as (tool & s2 & [_ ->]%lift_Ok & Hrun).
    apply bindM_Ok in Hrun as (hash & s2 & [_ ->]%lift_Ok & Hrun).
    eapply bound_dispatch_Ok in Hrun; [exact Hrun|].
    apply (store_wf_later s); [done|apply later_tick|done].
Qed.

Definition was_started (c : ToolCall) : Prop := call_state c ≠ Pending ∧ call_state c ≠ AwaitingApproval.
Lemma started_stays c c' : was_started c → rtc call_step c c' → was_started c'.
Proof.
  intros Hc Hs. induction Hs as [|c c1 c2 Hs _ IH]; [done|]. apply IH. unfold was_started in *.
  destruct (call_step_moves _ _ Hs) as [(_ & ? & _)|[to Hm]]; [tauto|].
  apply moved_inv in Hm as (Hedge & Hto & _). unfold call_state in *. rewrite Hto.
  destruct Hc as [Hp Ha]. cbn in Hedge. unfold TOOL_CALL_TRANSITIONS in Hedge.
  repeat (apply elem_of_cons in Hedge as [[= ? ?]|Hedge]; [subst; try congruence; by split; congruence|]).
  by apply not_elem_of_nil in Hedge.
Qed.

(** C8. A tool call starts at most once: after an operation started a call, no operation
    starts it again, whatever happens to the store in between. *)
Theorem dispatched_at_most_once id m m' s a s1 s2 r s3 :
  store_wf s → dispatch id m → m s = (Ok a, s1) → rtc store_step s1 s2 →
  dispatch id m' → m' s2 = (r, s3) → ∃ e, r = Err e.
Proof.
  intros Hwf Hd Hrun Hsteps Hd' Hrun'. destruct r as [a'|e]; [|by exists e]. exfalso.
  destruct (dispatch_finds_and_leaves id m s a s1 Hwf Hd Hrun) as [_ (c1 & Hc1 & Hs1)].
  assert (store_wf s1) as Hwf1.
  { pose proof (dispatch_is_operation id m Hd) as Hop.
    by destruct (operation_keeps m Hop _ _ _ Hwf Hrun). }
  destruct (store_steps_keep s1 s2 Hwf1 Hsteps) as [Hwf2 Hex].
  destruct (ex_calls _ _ Hex id c1 Hc1) as (c2 & Hc2 & Hcc).
  assert (was_started c2) as [Hp Ha]
    by (eapply started_stays; [|done]; unfold was_started; rewrite Hs1; done).
  destruct (dispatch_finds_and_leaves id m' s2 a' s3 Hwf2 Hd' Hrun') as [(c & Hc & [?|?]) _]; congruence.
Qed.
End promises.

(** ** Answers *)

Section answers.
Context `{PlatformLaws, !StoreParams, Faults, !Fresh, !FreshLaws}.

Lemma faultless_transaction {A} (change : stateM Tables StoreError A) s :
  (∀ n, io_fails n = false) →
  in_write_transaction change s =
    match change (rs_tables s) with
    | (Ok a, t) => (Ok a, MkRunStore t (rs_files s) (S (S (rs_io s))))
    | (Err e, _) => (Err e, tick s)
    end.
Proof.
  intros Hio. unfold in_write_transaction, mbind, stateM_bind. rewrite attempt_spec, Hio.
  unfold commit_change. cbn [rs_tables tick]. destruct (change (rs_tables s)) as [[a|e] t]; [|done].
  rewrite attempt_spec, Hio. done.
Qed.

(** What a change of a run answers, on every branch, when no access fails: an unknown
    run is not found; a method the domain refuses is an invalid transition with its error; a
    record whose columns do not fit is refused with the column's error; and otherwise the
    moved run is answered and stored.  Whatever is refused leaves the tables alone. *)
Theorem run_change_answers id (m : stateM Run RunDomainError unit) s :
  (∀ n, io_fails n = false) → store_wf s → (∀ r r', m r = (Ok tt, r') → run_step r r') →
  let t := rs_tables s in
  match tb_runs t !! id with
  | None => ∃ s', mutate id m s = (Err (NotFound "run"), s') ∧ rs_tables s' = t
  | Some r =>
    match m r with
    | (Err e, _) => ∃ s', mutate id m s = (Err (InvalidTransition e), s') ∧ rs_tables s' = t
    | (Ok _, r') =>
      match row_columns (R:=Run) (Id:=RunId) r' with
      | Err e => ∃ s', mutate id m s = (Err e, s') ∧ rs_tables s' = t
      | Ok _ => ∃ s', mutate id m s = (Ok r', s') ∧ rs_tables s' = set_runs (<[id := r']> (tb_runs t)) t
      end
    end
  end.
Proof.
  intros Hio Hwf Hm. cbn zeta. unfold mutate. rewrite faultless_transaction by done.
  unfold loaded_and_moved, mbind, stateM_bind, load_row. cbn [row_table run_row].
  destruct (tb_runs (rs_tables s) !! id) as [r|] eqn:Hr; [|by exists (tick s)].
  destruct (wf_runs _ (sw_tables _ Hwf) _ _ Hr) as (Hid & Hrwf & _).
  cbn [row_decode run_row]. rewrite (run_encodes r Hrwf). cbn [map_err]. unfold change_record.
  destruct (m r) as [[[]|e] r'] eqn:Hmr; [|by exists (tick s)].
  pose proof (Hm _ _ Hmr) as Hs. pose proof (run_step_refines _ _ Hs) as (_ & Hid' & _).
  unfold update_row, mret, stateM_ret, mbind, stateM_bind, lift.
  destruct (row_columns r') as [[]|e] eqn:Hcol; [|by exists (tick s)].
  unfold get, modify. cbn [row_table row_id run_row]. rewrite Hid', Hid, Hr.
  rewrite (run_step_updates r r' Hs). eexists. split; [done|]. done.
Qed.
End answers.

(** ** Pages of the log *)

Section pages.
Context `{PlatformLaws, !StoreParams}.

Definition numbered (a : nat) (l : list StoredEvent) : Prop :=
  se_seq <$> l = N.of_nat <$> seq (S a) (length l).
Lemma numbered_cons a e l : numbered a (e :: l) → se_seq e = N.of_nat (S a) ∧ numbered (S a) l.
Proof. unfold numbered. cbn. by intros [= -> ->]. Qed.
Lemma numbered_log run t : tables_wf t → numbered 0 (log_of_run run t).
Proof. intros Hwf. apply (wf_log _ Hwf). Qed.
Lemma numbered_lookup a l i e : numbered a l → l !! i = Some e → se_seq e = N.of_nat (a + S i).
Proof.
  unfold numbered. intros Hl Hi. assert ((se_seq <$> l) !! i = Some (se_seq e)) as Hs by by rewrite list_lookup_fmap, Hi.
  rewrite Hl, list_lookup_fmap in Hs. rewrite lookup_seq_lt in Hs by by eapply lookup_lt_Some.
  injection Hs as <-. lia.
Qed.

Lemma filter_above a k l : numbered a l → filter (λ e, k < se_seq e)%N l = drop (N.to_nat k - a) l.
Proof.
  revert a. induction l as [|e l IH]; intros a Hl; [by rewrite drop_nil|].
  apply numbered_cons in Hl as [He Hl]. rewrite filter_cons, (IH (S a) Hl). case_decide as Hk.
  - assert (N.to_nat k - S a = 0) as -> by lia. assert (N.to_nat k - a = 0) as -> by lia. done.
  - assert (N.to_nat k - a = S (N.to_nat k - S a)) as -> by lia. done.
Qed.
Lemma filter_below a k l : numbered a l → filter (λ e, se_seq e < k)%N l = take (N.to_nat k - S a) l.
Proof.
  revert a. induction l as [|e l IH]; intros a Hl; [by rewrite take_nil|].
  apply numbered_cons in Hl as [He Hl]. rewrite filter_cons, (IH (S a) Hl). case_decide as Hk.
  - assert (N.to_nat k - S a = S (N.to_nat k - S (S a))) as -> by lia. done.
  - assert (N.to_nat k - S (S a) = 0) as -> by lia. assert (N.to_nat k - S a = 0) as -> by lia. by destruct l.
Qed.

Definition limit_ok (limit : N) : Prop := (0 < limit <= MAX_EVENT_PAGE_LIMIT)%N.
Lemma require_page_limit_Ok limit : limit_ok limit → require_page_limit limit = Ok tt.
Proof. intros [? ?]. apply ensure_Ok. lia. Qed.
Lemma event_page_runs run page t :
  limit_ok (page_limit page) →
  event_page_read run page t =
    (let rows := page_rows page (log_of_run run t) in
     let probed := take_events (page_limit page + 1) rows in
     let kept := take_events (page_limit page) probed in
     (Ok (MkEventListing kept
        (if (page_limit page <? N.of_nat (length probed))%N then se_seq <$> last kept else None)), t)).
Proof.
  intros Hl. unfold event_page_read, mbind, stateM_bind, lift. by rewrite (require_page_limit_Ok _ Hl).
Qed.

(** Where a page that starts at the oldest event not yet read begins. *)
Definition start_of (from : option N) : nat := N.to_nat (N.min (default 0%N from) I64_MAX).

(** A page of the oldest events past a boundary. *)
Lemma oldest_page run limit from t :
  tables_wf t → limit_ok limit →
  event_page_read run (MkEventPage limit Oldest from) t =
    (Ok (MkEventListing (take (N.to_nat limit) (drop (start_of from) (log_of_run run t)))
      (if (start_of from + N.to_nat limit <? length (log_of_run run t))
       then Some (N.of_nat (start_of from + N.to_nat limit)) else None)), t).
Proof.
  intros Hwf Hl. pose proof (numbered_log run t Hwf) as Hn. rewrite event_page_runs by done.
  cbn [page_limit page_order page_rows page_from]. cbn zeta. unfold take_events, page_rows. cbn [page_order page_from].
  set (log := log_of_run run t) in *. rewrite (filter_above 0) by done. rewrite Nat.sub_0_r. fold (start_of from).
  set (k := start_of from). rewrite take_take. destruct Hl as [Hlo Hhi].
  assert (N.to_nat limit `min` N.to_nat (limit + 1) = N.to_nat limit) as -> by lia.
  rewrite length_take, length_drop. f_equal. f_equal. f_equal.
  destruct (k + N.to_nat limit <? length log) eqn:Hlt.
  - apply Nat.ltb_lt in Hlt. rewrite (proj2 (N.ltb_lt _ _)) by lia.
    destruct (lookup_lt_is_Some_2 log (k + N.to_nat limit - 1)) as [e He]; [lia|].
    assert (last (take (N.to_nat limit) (drop k log)) = Some e) as ->.
    { rewrite last_lookup, length_take, length_drop, lookup_take_lt by lia. rewrite lookup_drop, <- He. f_equal. lia. }
    cbn. rewrite (numbered_lookup 0 log _ e Hn He). f_equal. lia.
  - apply Nat.ltb_ge in Hlt. by rewrite (proj2 (N.ltb_ge _ _)) by lia.
Qed.

(** A reader that follows the cursor, one page at each state of the store. *)
Fixpoint follow (run : RunId) (limit : N) (from : option N) (ts : list Tables) : list StoredEvent :=
  match ts with
  | [] => []
  | t :: ts =>
    match (event_page_read run (MkEventPage limit Oldest from) t).1 with
    | Err _ => []
    | Ok l => listed l ++ match next_cursor l with None => [] | Some c => follow run limit (Some c) ts end
    end
  end.

Lemma log_prefix run t t' : extends t t' → log_of_run run t `prefix_of` log_of_run run t'.
Proof. intros [_ _ _ _ _ [l Hl]]. unfold log_of_run. rewrite Hl, filter_app. by eexists. Qed.

(** Following the cursor neither repeats nor hides an event, though the log may grow
    between two requests: the pages read so far are together the events past the boundary,
    in order, up to as many as the pages hold, of the log at one of those moments; so a
    reader whose pages hold as much as the log has read all of it. *)
Theorem pages_neither_repeat_nor_hide run limit from t ts :
  limit_ok limit → tables_wf t → Forall tables_wf ts → Sorted extends (t :: ts) →
  (∀ t', t' ∈ t :: ts → (N.of_nat (length (log_of_run run t')) <= I64_MAX)%N) →
  ∃ t', t' ∈ t :: ts ∧
    follow run limit from (t :: ts)
    = take (N.to_nat limit * length (t :: ts)) (drop (start_of from) (log_of_run run t')).
Proof.
  intros Hl. revert t from. induction ts as [|t1 ts IH]; intros t from Hwf Hwfs Hsort Hlen; cbn [follow];
    rewrite oldest_page by done; cbn [fst listed next_cursor];
    (destruct (start_of from + N.to_nat limit <? length (log_of_run run t)) eqn:Hlt;
      [apply Nat.ltb_lt in Hlt|apply Nat.ltb_ge in Hlt]).
  1, 2: exists t; split; [by left|]; by rewrite app_nil_r, Nat.mul_1_r.
  2: { exists t. split; [by left|]. rewrite app_nil_r. cbn [length].
    rewrite !take_ge; [done|rewrite length_drop; lia..]. }
  apply Forall_cons in Hwfs as [Hwf1 Hwfs]. apply Sorted_inv in Hsort as [Hsort Hhd].
  apply HdRel_inv in Hhd.
  specialize (Hlen t (list_elem_of_here _ _)) as Hlen0.
  destruct (IH t1 (Some (N.of_nat (start_of from + N.to_nat limit))) Hwf1 Hwfs Hsort) as (t' & Ht' & Hf).
  { intros t' Ht'. apply Hlen. by right. }
  exists t'. split; [by right|]. cbn [follow] in Hf. rewrite Hf. clear Hf.
  assert (start_of (Some (N.of_nat (start_of from + N.to_nat limit))) = start_of from + N.to_nat limit) as ->
    by (unfold start_of at 1; cbn; lia).
  assert (extends t t') as Hex.
  { apply Sorted_StronglySorted in Hsort; [|intros ? ? ?; apply transitivity].
    apply StronglySorted_inv in Hsort as [_ Hall]. apply elem_of_cons in Ht' as [->|Ht']; [done|].
    etrans; [exact Hhd|]. by eapply list.Forall_forall in Hall. }
  destruct (log_prefix run t t' Hex) as [l Hlog].
  assert (take (N.to_nat limit) (drop (start_of from) (log_of_run run t))
    = take (N.to_nat limit) (drop (start_of from) (log_of_run run t'))) as ->.
  { rewrite Hlog, drop_app_le by lia. rewrite take_app_le; [done|]. rewrite length_drop. lia. }
  rewrite <- drop_drop. cbn [length].
  rewrite (Nat.mul_succ_r _ (S (length ts))), Nat.add_comm. by rewrite take_take_drop.
Qed.
End pages.

(** ** A concrete store *)

#[export] Instance demo_store_params : StoreParams := {
  json_null := demo_value "null";
  json_string := demo_value;
  json_number n := demo_value "0";
  json_object _ := demo_value "{}";
  encoded_len v := N.of_nat (String.length v);
  approvals_len l := N.of_nat (length l);
  decision_len _ := 2%N;
  capabilities_len l := N.of_nat (length l);
  uuid_text _ := "id";
  instant_text _ := "";
  path_text := String.concat "/";
  identity_value _ := demo_value "{}";
  redact_text s := s;
  redact_payload v := v;
  overflow_payload _ _ := demo_value "{}";
  input_hash v := Ok (MkInputHash (replicate 32 (N.of_nat (String.length v))));
}.
#[export] Instance demo_fresh : Fresh := λ n, demo_uuid (100 + N.of_nat n).
#[export] Instance demo_fresh_laws : FreshLaws.
Proof. intros m n. unfold fresh_uuid, demo_fresh, demo_uuid. cbn. lia. Qed.
(** Every access answers. *)
#[export] Instance demo_faults : Faults := λ _, false.

Definition demo_task : Task := Task_with_id (MkTaskId (demo_uuid 1)) "work" "/src" None (demo_at 0).
Definition demo_first : Run := Run_with_id (MkRunId (demo_uuid 2)) (MkTaskId (demo_uuid 1)) (demo_at 0).
Definition demo_parked : ToolCall :=
  ToolCall_with_id (MkToolCallId (demo_uuid 4)) demo_step "fs.read" "" (demo_value "{}") (demo_at 0).
Definition demo_event : RunEvent :=
  for_tool_call (MkToolCallId (demo_uuid 4)) (RunEvent_new ToolCallStateChanged (demo_at 1)).
Definition demo_id : ToolCallId := MkToolCallId (demo_uuid 4).
Definition ran {A} (m : stateM RunStore StoreError A) (s : RunStore) : RunStore := (m s).2.

Definition demo_built : RunStore :=
  ran (insert_tool_call demo_parked) (ran (insert_step demo_step)
    (ran (insert_run demo_first) (ran (insert_task demo_task) RunStore_empty))).
Definition demo_asked : RunStore :=
  ran (apply_tool_call_policy_decision_with_event demo_id (demo_decision Ask) (demo_at 1) demo_event) demo_built.
Definition demo_bound : ToolIdentity :=
  MkToolIdentity (MkToolId "fs.read") (MkToolVersion ((5%N, false) : Version)).
Definition demo_dispatch : stateM RunStore StoreError (ToolCall * N) :=
  dispatch_bound_approved_tool_call_with_event demo_id "reviewer" demo_bound
    (MkInputHash (replicate 32 2%N)) (demo_at 2) demo_event.
Definition demo_started : RunStore := ran demo_dispatch demo_asked.


Lemma ran_step {A} (m : stateM RunStore StoreError A) s : operation m → store_step s (ran m s).
Proof. intros Hop. exists A, m, (m s).1. split; [done|]. unfold ran. by destruct (m s). Qed.
Lemma demo_parked_wf : call_wf demo_parked.
Proof. apply call_wf_new. Qed.
Lemma demo_first_wf : run_wf demo_first.
Proof. split; [apply exec_wf_new|done]. Qed.
Lemma demo_built_reachable : rtc store_step RunStore_empty demo_built.
Proof.
  eapply rtc_l; [apply (ran_step _ _ (op_insert_task demo_task))|].
  eapply rtc_l; [apply (ran_step _ _ (op_insert_run demo_first demo_first_wf))|].
  eapply rtc_l; [apply (ran_step _ _ (op_insert_step demo_step (exec_wf_new _)))|].
  apply rtc_once, (ran_step _ _ (op_insert_tool_call demo_parked demo_parked_wf)).
Qed.
Lemma demo_built_wf : store_wf demo_built.
Proof. apply (store_steps_keep _ _ store_wf_empty demo_built_reachable). Qed.
Lemma demo_asks : store_step demo_built demo_asked.
Proof. apply (ran_step _ _ (op_decide_call_with_event demo_id (demo_decision Ask) (demo_at 1) demo_event)). Qed.
Lemma demo_asked_wf : store_wf demo_asked.
Proof. apply (store_step_keeps demo_built); [apply demo_built_wf|apply demo_asks]. Qed.
Lemma demo_starts : store_step demo_asked demo_started.
Proof. apply (ran_step _ _ (op_dispatch_bound demo_id "reviewer" demo_bound _ (demo_at 2) demo_event)). Qed.
Lemma demo_started_wf : store_wf demo_started.
Proof. apply (store_step_keeps demo_asked); [apply demo_asked_wf|apply demo_starts]. Qed.

Lemma reachable_store_is_typed_witness : store_wf demo_started.
Proof.
  apply reachable_store_is_typed.
  eapply rtc_r; [eapply rtc_r; [apply demo_built_reachable|apply demo_asks]|apply demo_starts].
Defined.

Definition is_err {A} (r : result StoreError A) : bool := match r with Ok _ => false | Err _ => true end.
Lemma is_err_run {A} (m : stateM RunStore StoreError A) s :
  is_err (m s).1 = true → ∃ e, m s = (Err e, ran m s).
Proof. unfold ran. destruct (m s) as [[a|e] s']; [done|]. by exists e. Qed.
Lemma is_ok_run {A} (m : stateM RunStore StoreError A) s :
  is_err (m s).1 = false → ∃ a, m s = (Ok a, ran m s).
Proof. unfold ran. destruct (m s) as [[a|e] s']; [|done]. by exists a. Qed.

(** The started call cannot be started again; the attempt changes nothing. *)
Lemma refused_operation_changes_nothing_witness :
  is_err (demo_dispatch demo_started).1 = true ∧
  rs_tables (ran demo_dispatch demo_started) = rs_tables demo_started.
Proof.
  assert (is_err (demo_dispatch demo_started).1 = true) as He by reflexivity. split; [exact He|].
  destruct (is_err_run _ _ He) as [e Hrun].
  apply (refused_operation_changes_nothing demo_dispatch demo_started e); [apply demo_started_wf| |exact Hrun].
  apply (op_dispatch_bound demo_id).
Defined.

Lemma rows_move_by_their_lifecycles_witness :
  tb_events (rs_tables demo_built) `prefix_of` tb_events (rs_tables demo_started).
Proof.
  apply (rows_move_by_their_lifecycles demo_built); [apply demo_built_wf|].
  eapply rtc_l; [apply demo_asks|]. apply rtc_once, demo_starts.
Defined.

Lemma call_changes_with_its_event_witness : ∃ c e',
  tb_calls (rs_tables demo_built) !! demo_id = Some c ∧ recorded_as demo_event e' ∧
  tb_events (rs_tables demo_asked) = tb_events (rs_tables demo_built) ++ [MkStoredEvent (call_run_id c) 1%N e'].
Proof.
  destruct (call_changes_with_its_event demo_id demo_event (ToolCall_apply_policy_decision (demo_decision Ask) (demo_at 1))
    demo_built (after (ToolCall_apply_policy_decision (demo_decision Ask) (demo_at 1)) demo_parked) 1%N demo_asked)
    as (c & e' & ? & _ & _ & _ & _ & _ & ? & _ & ?); [apply demo_built_wf|apply decide_still|reflexivity|].
  by exists c, e'.
Defined.

Lemma bound_dispatch_starts_what_was_approved_witness : ∃ c c',
  tb_calls (rs_tables demo_asked) !! demo_id = Some c ∧ tb_calls (rs_tables demo_started) !! demo_id = Some c' ∧
  call_state c = AwaitingApproval ∧ call_state c' = CallRunning.
Proof.
  assert (is_err (demo_dispatch demo_asked).1 = false) as He by reflexivity.
  destruct (is_ok_run _ _ He) as [[c' n] Hrun].
  destruct (bound_dispatch_starts_what_was_approved demo_id "reviewer" demo_bound _ (demo_at 2) demo_event
    demo_asked c' n _ demo_asked_wf Hrun) as (c & Hc & Hc' & Hp & _ & _ & _ & Hr & _).
  exists c, c'. split; [exact Hc|]. split; [exact Hc'|]. split; [exact Hp|exact Hr].
Defined.

Lemma dispatched_at_most_once_witness : ∃ e, (demo_dispatch demo_started).1 = Err e.
Proof.
  assert (is_err (demo_dispatch demo_asked).1 = false) as He by reflexivity.
  destruct (is_ok_run _ _ He) as [a Hrun].
  apply (dispatched_at_most_once demo_id demo_dispatch demo_dispatch demo_asked a demo_started demo_started
    _ (demo_dispatch demo_started).2); [apply demo_asked_wf|constructor|exact Hrun|apply rtc_refl|constructor|].
  by destruct (demo_dispatch demo_started).
Defined.

Lemma run_change_answers_witness : ∃ s',
  transition_run (MkRunId (demo_uuid 2)) ExecRunning (demo_at 1) demo_built
    = (Ok (after (Run_transition ExecRunning (demo_at 1)) demo_first), s').
Proof.
  pose proof (run_change_answers (MkRunId (demo_uuid 2)) (Run_transition ExecRunning (demo_at 1)) demo_built) as Ha.
  destruct Ha as (s' & Hs' & _); [done|apply demo_built_wf| |by exists s'].
  intros r r' Hr. exact (run_does_transition _ _ _ _ Hr).
Defined.

Lemma pages_neither_repeat_nor_hide_witness : ∃ t',
  follow (MkRunId (demo_uuid 2)) 1 None [rs_tables demo_asked; rs_tables demo_started]
  = take 2 (drop 0 (log_of_run (MkRunId (demo_uuid 2)) t')).
Proof.
  destruct (pages_neither_repeat_nor_hide (MkRunId (demo_uuid 2)) 1%N None (rs_tables demo_asked)
    [rs_tables demo_started]) as (t' & _ & Ht'); [done| | | | |exists t'; exact Ht'].
  - apply demo_asked_wf.
  - apply list.Forall_cons; split; [apply demo_started_wf|by apply list.Forall_nil].
  - constructor; [by repeat constructor|]. constructor.
    apply (store_step_keeps demo_asked); [apply demo_asked_wf|apply demo_starts].
  - intros t' [->|[->|[]%not_elem_of_nil]%elem_of_cons]%elem_of_cons; apply N.leb_le; reflexivity.
Defined.
