(* ===== verification/ToolError.v ===== *)
(** * What a tool call can fail with

    Models [src/crates/harkness-runtime/src/tool/error.rs] and the boundary errors of
    [trust.rs]: the errors of a tool, of the registry and of an invocation, their stable
    kinds, the text each is displayed as, and the bounded failure each is recorded as.

    A path is its UTF-8 text, which [Path::display] leaves as it is.  [Debug] of a string
    and of a list of paths, which escapes by Unicode tables, is a parameter. *)

From Stdlib Require Import ZArith.
From stdpp Require Import base decidable list pretty strings.
From S2P Require Import Prelude Tool Text Domain.

Definition MAX_REPORTED_VIOLATIONS : nat := 10.
Definition MAX_VIOLATION_FIELD_BYTES : nat := 512.
Definition MAX_FAILURE_MESSAGE_BYTES : nat := 16 * 1024.
Definition TRUNCATION_MARKER : string := "… (truncated)".
Definition MAX_COUNTED_VIOLATIONS : nat := 1000.

(** ** Bounded text *)

(** Cut at the last character boundary that fits. *)
Definition truncate (text : string) (maximum : nat) : string :=
  if String.length text <=? maximum then text
  else String.append (String.substring 0 (floor_loop (utf8_bytes text) maximum) text) TRUNCATION_MARKER.

(** [str::trim] *)
Definition blank_width (s : string) : nat :=
  match s with
  | EmptyString => 0
  | _ =>
    if is_blank (String.substring 0 1 s) then 1
    else if is_blank (String.substring 0 2 s) then 2
    else if is_blank (String.substring 0 3 s) then 3 else 0
  end.
Fixpoint trim_start (fuel : nat) (s : string) : string :=
  match fuel with
  | 0 => s
  | S fuel =>
    match blank_width s with
    | 0 => s
    | w => trim_start fuel (String.substring w (String.length s - w) s)
    end
  end.
Fixpoint trim_end (s : string) : string :=
  if is_blank s then ""
  else match s with EmptyString => "" | String c s => String c (trim_end s) end.
Definition trim (s : string) : string := trim_end (trim_start (String.length s) s).

(** ** Schema violations *)

Inductive SchemaDirection := Input | Output.
Definition SchemaDirection_as_str (d : SchemaDirection) : string :=
  match d with Input => "input" | Output => "output" end.

Record SchemaViolation := MkSchemaViolation {
  sv_pointer : string;
  sv_schema_pointer : string;
  sv_message : string;
}.
Definition SchemaViolation_new (pointer schema_pointer message : string) : SchemaViolation :=
  MkSchemaViolation (truncate pointer MAX_VIOLATION_FIELD_BYTES)
    (truncate schema_pointer MAX_VIOLATION_FIELD_BYTES) (truncate message MAX_VIOLATION_FIELD_BYTES).
Definition SchemaViolation_to_string (v : SchemaViolation) : string :=
  if bool_decide (sv_pointer v = "") then "the value itself: " +:+ sv_message v
  else sv_pointer v +:+ ": " +:+ sv_message v.

Definition render_violations (violations : list SchemaViolation) (omitted : nat) : string :=
  match violations with
  | [] => "no violation was reported"
  | _ =>
    let rendered :=
      String.concat "; " (SchemaViolation_to_string <$> take MAX_REPORTED_VIOLATIONS violations) in
    if bool_decide (omitted = 0) then rendered
    else if MAX_COUNTED_VIOLATIONS <=? omitted
    then rendered +:+ " (and at least " +:+ pretty omitted +:+ " more)"
    else rendered +:+ " (and " +:+ pretty omitted +:+ " more)"
  end.
Definition render_exit (code : option Z) (stderr_tail : string) : string :=
  let status :=
    match code with
    | Some code => "a child process exited with status " +:+ pretty code
    | None => "a child process was ended by a signal"
    end in
  let reported := trim stderr_tail in
  if bool_decide (reported = "") then status else status +:+ ": " +:+ reported.
Definition render_payload (payload : option string) : string :=
  match payload with Some payload => ": " +:+ payload | None => "" end.

(** ** Errors *)

Inductive BoundaryError :=
| OutsideAllowedRoots (candidate : string) (roots : list string)
| SymlinkEscapes (link target : string)
| RootUnavailable (root reason : string)
| CandidateUnavailable (candidate reason : string).
Definition BoundaryError_kind (e : BoundaryError) : string :=
  match e with
  | OutsideAllowedRoots _ _ => "outside_allowed_roots"
  | SymlinkEscapes _ _ => "symlink_escapes"
  | RootUnavailable _ _ => "root_unavailable"
  | CandidateUnavailable _ _ => "candidate_unavailable"
  end.

(** [Debug] of the standard library. *)
Class DebugFormat := {
  debug_str : string → string;
  debug_paths : list string → string;
}.
(** A duration of whole seconds. *)
Definition debug_duration (d : Duration) : string := pretty d +:+ "s".

Definition BoundaryError_to_string `{DebugFormat} (e : BoundaryError) : string :=
  match e with
  | OutsideAllowedRoots candidate roots =>
    candidate +:+ " resolves outside the allowed roots " +:+ debug_paths roots
  | SymlinkEscapes link target =>
    "symlink " +:+ link +:+ " resolves outside the allowed roots to " +:+ target
  | RootUnavailable root reason => "allowed root " +:+ root +:+ " is unavailable: " +:+ reason
  | CandidateUnavailable candidate reason => "candidate " +:+ candidate +:+ " is unavailable: " +:+ reason
  end.

Section errors.
Context `{Platform}.

Definition ToolIdentity_to_string (t : ToolIdentity) : string :=
  ToolId_as_str (ti_id t) +:+ "@" +:+ Version_to_string (as_semver (ti_version t)).

Inductive ToolError :=
| InvalidInput (tool : ToolIdentity) (violations : list SchemaViolation) (omitted : nat)
| InvalidOutput (tool : ToolIdentity) (violations : list SchemaViolation) (omitted : nat)
| ExecutionFailed (message : string)
| ProcessFailed (code : option Z) (stderr_tail : string)
| TimedOut (limit : Duration)
| Cancelled
| Denied (reason : string)
| ForbiddenPath (path reason : string)
| PathNotFound (path : string)
| OutputBudgetExhausted (limit : N)
| Boundary (e : BoundaryError)
| StalePatch (path expected actual : string)
| PatchConflict (path reason : string)
| Interrupted
| ToolPanicked (tool : ToolIdentity) (payload : option string).

Definition ToolError_KINDS : list string :=
  ["invalid_input"; "invalid_output"; "execution_failed"; "process_failed"; "timed_out"; "cancelled";
   "denied"; "forbidden_path"; "not_found"; "output_budget_exhausted"; "outside_allowed_roots";
   "symlink_escapes"; "root_unavailable"; "candidate_unavailable"; "stale_patch"; "patch_conflict";
   "interrupted"; "tool_panicked"].
Definition ToolError_kind (e : ToolError) : string :=
  match e with
  | InvalidInput _ _ _ => "invalid_input"
  | InvalidOutput _ _ _ => "invalid_output"
  | ExecutionFailed _ => "execution_failed"
  | ProcessFailed _ _ => "process_failed"
  | TimedOut _ => "timed_out"
  | Cancelled => "cancelled"
  | Denied _ => "denied"
  | ForbiddenPath _ _ => "forbidden_path"
  | PathNotFound _ => "not_found"
  | OutputBudgetExhausted _ => "output_budget_exhausted"
  | Boundary e => BoundaryError_kind e
  | StalePatch _ _ _ => "stale_patch"
  | PatchConflict _ _ => "patch_conflict"
  | Interrupted => "interrupted"
  | ToolPanicked _ _ => "tool_panicked"
  end.

Definition execution_failed (cause : string) : ToolError :=
  ExecutionFailed (truncate cause MAX_FAILURE_MESSAGE_BYTES).
Definition happened_before_execution (e : ToolError) : bool :=
  match e with InvalidInput _ _ _ => true | _ => false end.

Inductive RegistryError :=
| InvalidToolId (value reason : string)
| InvalidToolVersion (value reason : string)
| InvalidCapability (value reason : string)
| InvalidMetadata (tool : ToolIdentity) (field reason : string)
| InvalidSchema (tool : ToolIdentity) (direction : SchemaDirection) (reason : string)
| DuplicateRegistration (tool : ToolIdentity)
| UnknownTool (id : string)
| UnknownToolVersion (id version : string) (available : list string).
Definition RegistryError_KINDS : list string :=
  ["invalid_tool_id"; "invalid_tool_version"; "invalid_capability"; "invalid_metadata"; "invalid_schema";
   "duplicate_registration"; "unknown_tool"; "unknown_tool_version"].
Definition RegistryError_kind (e : RegistryError) : string :=
  match e with
  | InvalidToolId _ _ => "invalid_tool_id"
  | InvalidToolVersion _ _ => "invalid_tool_version"
  | InvalidCapability _ _ => "invalid_capability"
  | InvalidMetadata _ _ _ => "invalid_metadata"
  | InvalidSchema _ _ _ => "invalid_schema"
  | DuplicateRegistration _ => "duplicate_registration"
  | UnknownTool _ => "unknown_tool"
  | UnknownToolVersion _ _ _ => "unknown_tool_version"
  end.

Inductive InvocationError :=
| Resolution (e : RegistryError)
| InvocationTool (tool : ToolIdentity) (e : ToolError).
Definition InvocationError_kind (e : InvocationError) : string :=
  match e with Resolution e => RegistryError_kind e | InvocationTool _ e => ToolError_kind e end.
Definition InvocationError_tool (e : InvocationError) : option ToolIdentity :=
  match e with Resolution _ => None | InvocationTool tool _ => Some tool end.
Definition InvocationError_kinds : list string := RegistryError_KINDS ++ ToolError_KINDS.

Context `{DebugFormat}.

Definition ToolError_to_string (e : ToolError) : string :=
  match e with
  | InvalidInput tool violations omitted =>
    ToolIdentity_to_string tool +:+ " input does not satisfy its declared schema: "
      +:+ render_violations violations omitted
  | InvalidOutput tool violations omitted =>
    ToolIdentity_to_string tool +:+ " output does not satisfy its declared schema: "
      +:+ render_violations violations omitted
  | ExecutionFailed message => "the tool failed: " +:+ message
  | ProcessFailed code stderr_tail => render_exit code stderr_tail
  | TimedOut limit => "the tool exceeded its " +:+ debug_duration limit +:+ " time limit"
  | Cancelled => "the tool invocation was cancelled"
  | Denied reason => "the tool invocation was denied: " +:+ reason
  | ForbiddenPath path reason => path +:+ " is outside the workspace: " +:+ reason
  | PathNotFound path => path +:+ " was not found"
  | OutputBudgetExhausted limit =>
    "the tool output exceeded its " +:+ pretty limit +:+ "-byte inline budget"
  | Boundary e => BoundaryError_to_string e
  | StalePatch path expected actual =>
    "patch base for " +:+ path +:+ " is stale: expected " +:+ expected +:+ ", found " +:+ actual
  | PatchConflict path reason => "patch for " +:+ path +:+ " conflicts with the workspace: " +:+ reason
  | Interrupted => "the tool invocation was interrupted before it completed"
  | ToolPanicked tool payload => ToolIdentity_to_string tool +:+ " panicked" +:+ render_payload payload
  end.
Definition ToolError_as_failure (e : ToolError) : Failure :=
  Failure_new (ToolError_kind e) (truncate (ToolError_to_string e) MAX_FAILURE_MESSAGE_BYTES).

Definition RegistryError_to_string (e : RegistryError) : string :=
  match e with
  | InvalidToolId value reason => debug_str value +:+ " is not a valid tool id: " +:+ reason
  | InvalidToolVersion value reason => debug_str value +:+ " is not a valid tool version: " +:+ reason
  | InvalidCapability value reason => debug_str value +:+ " is not a valid capability: " +:+ reason
  | InvalidMetadata tool field reason =>
    ToolIdentity_to_string tool +:+ " cannot declare " +:+ field +:+ ": " +:+ reason
  | InvalidSchema tool direction reason =>
    "the " +:+ SchemaDirection_as_str direction +:+ " schema of " +:+ ToolIdentity_to_string tool
      +:+ " cannot be compiled: " +:+ reason
  | DuplicateRegistration tool =>
    ToolIdentity_to_string tool +:+ " is already registered; a released version is immutable"
  | UnknownTool id => "no tool is registered as " +:+ id
  | UnknownToolVersion id version available =>
    id +:+ " is registered, but not at version " +:+ version +:+ "; available: " +:+ String.concat ", " available
  end.
Definition InvocationError_as_failure (e : InvocationError) : Failure :=
  match e with
  | Resolution e =>
    Failure_new (RegistryError_kind e) (truncate (RegistryError_to_string e) MAX_FAILURE_MESSAGE_BYTES)
  | InvocationTool _ e => ToolError_as_failure e
  end.

(** ** What holds *)

Lemma invocation_kinds_distinct : NoDup InvocationError_kinds.
Proof. apply (bool_decide_unpack _). by vm_compute. Qed.
Lemma ToolError_kind_listed e : ToolError_kind e ∈ ToolError_KINDS.
Proof. destruct e as [| | | | | | | | | |[]| | | |]; apply (bool_decide_unpack _); by vm_compute. Qed.
Lemma RegistryError_kind_listed e : RegistryError_kind e ∈ RegistryError_KINDS.
Proof. destruct e; apply (bool_decide_unpack _); by vm_compute. Qed.

Lemma floor_loop_le text n : floor_loop text n ≤ n.
Proof. induction n as [|n IH]; [done|]. cbn [floor_loop]. destruct (is_char_boundary _ _); lia. Qed.
Lemma floor_loop_boundary text n :
  n < length text → floor_loop text n = 0 ∨ is_char_boundary text (floor_loop text n) = true.
Proof.
  intros Hn. induction n as [|n IH]; [by left|]. cbn [floor_loop].
  destruct (is_char_boundary text (S n)) eqn:Hb; [by right|]. apply IH. lia.
Qed.

Lemma utf8_bytes_length s : length (utf8_bytes s) = String.length s.
Proof. unfold utf8_bytes. rewrite length_fmap. induction s; cbn; congruence. Qed.
Lemma substring_bytes n s : utf8_bytes (String.substring 0 n s) = take n (utf8_bytes s).
Proof.
  unfold utf8_bytes. revert n. induction s as [|c s IH]; intros [|n]; cbn; try done. by rewrite IH.
Qed.

(** A recorded text is the text, or a prefix of it that ends at a character and the mark. *)
Lemma truncate_bounded text n :
  utf8_bytes (truncate text n) = utf8_bytes text ∧ String.length text ≤ n ∨
  ∃ k, k ≤ n ∧ n < String.length text ∧ utf8_bytes (truncate text n)
      = take k (utf8_bytes text) ++ utf8_bytes TRUNCATION_MARKER
    ∧ (k = 0 ∨ is_char_boundary (utf8_bytes text) k = true).
Proof.
  unfold truncate. destruct (String.length text <=? n) eqn:Hn; [left; split; [done|by apply Nat.leb_le]|right].
  apply Nat.leb_gt in Hn. exists (floor_loop (utf8_bytes text) n). rewrite utf8_bytes_app, substring_bytes.
  split_and!; [apply floor_loop_le|done|done|]. apply floor_loop_boundary. by rewrite utf8_bytes_length.
Qed.
Lemma truncate_length text n : String.length (truncate text n) ≤ n + String.length TRUNCATION_MARKER.
Proof.
  rewrite <- !utf8_bytes_length. destruct (truncate_bounded text n) as [[-> ?]|(k & ? & ? & -> & _)].
  - rewrite utf8_bytes_length. lia.
  - rewrite length_app, length_take. lia.
Qed.
Lemma truncate_valid text n : valid (utf8_bytes text) → valid (utf8_bytes (truncate text n)).
Proof.
  intros Hv. destruct (truncate_bounded text n) as [[-> _]|(k & Hk & Hn & -> & Hb)]; [done|].
  apply valid_app; [|by vm_compute]. destruct Hb as [->|Hb]; [by vm_compute|].
  apply valid_take; [done| |done]. rewrite utf8_bytes_length. lia.
Qed.

(** What an invocation fails with is recorded under a stable kind, one of the kinds
    its namespace publishes and no other namespace shares, with a message of at most
    sixteen KiB and the mark that it was cut. *)
Theorem recorded_failure_is_bounded e :
  failure_kind (InvocationError_as_failure e) = InvocationError_kind e ∧
  InvocationError_kind e ∈ InvocationError_kinds ∧
  String.length (failure_message (InvocationError_as_failure e))
    ≤ MAX_FAILURE_MESSAGE_BYTES + String.length TRUNCATION_MARKER.
Proof.
  destruct e as [e|tool e]; (split; [done|split; [apply elem_of_app|apply truncate_length]]).
  - left. apply RegistryError_kind_listed.
  - right. apply ToolError_kind_listed.
Qed.
End errors.
