(* ===== verification/Supervise.v ===== *)
(** * Supervising a tool's body

    Models [supervise], [reason_to_stop] and [outcome_of] of
    [src/crates/harkness-runtime/src/tool/execute.rs] and the [ExecutionControl] and
    [Deadline] of [tool/context.rs]: the executor waits on a channel while the body runs on
    a thread of its own, and the two meet only in the phase, the tokens and the channel.

    Time is in milliseconds.  One lock of the phase, one wait on the channel and one look
    at the clock and the tokens are each a step; the body's steps come between any two of
    the executor's.  Progress is in [Executor]. *)

From Stdlib Require Import ZArith ZifyN ZifyBool.
From stdpp Require Import base decidable list relations strings.
From S2P Require Import Prelude Tool Lifecycle Domain ToolError.

Definition TERMINATION_GRACE : N := 500.
Definition POLL_INTERVAL : N := 20.

(** ** Deadlines *)

(** [Instant::checked_add]: the last instant the platform represents. *)
Class InstantMax := instant_max : N.
Record Deadline := MkDeadline { deadline_limit : Duration; deadline_at : N }.
Definition starting_now `{InstantMax} (now : N) (limit : Duration) : option Deadline :=
  let at_ := (now + 1000 * limit)%N in
  if (at_ <=? instant_max)%N then Some (MkDeadline limit at_) else None.
Definition has_passed (now : N) (d : Deadline) : bool := (deadline_at d <=? now)%N.

(** ** The phase *)

Inductive ExecutionPhase := PhaseOpen | StopRequested | Irreversible.
#[export] Instance ExecutionPhase_eq_dec : EqDecision ExecutionPhase.
Proof. solve_decision. Defined.
Definition is_irreversible (p : ExecutionPhase) : bool := bool_decide (p = Irreversible).

Section supervise.
Context `{Platform}.

(** How one call ended. *)
Inductive CallOutcome :=
| OutcomeSucceeded (output : Value)
| OutcomeFailed (failure : Failure)
| OutcomeCancelled
| OutcomeInterrupted
| OutcomeTimedOut (limit : Duration).
Definition succeeded (o : CallOutcome) : bool :=
  match o with OutcomeSucceeded _ => true | _ => false end.
Definition recorded_state (o : CallOutcome) : ToolCallState :=
  match o with
  | OutcomeSucceeded _ => CallSucceeded
  | OutcomeFailed _ | OutcomeTimedOut _ => CallFailed
  | OutcomeCancelled => CallCancelled
  | OutcomeInterrupted => CallInterrupted
  end.
Definition recorded_failure_kind (o : CallOutcome) : option string :=
  match o with
  | OutcomeFailed failure => Some (failure_kind failure)
  | OutcomeTimedOut _ => Some "timed_out"
  | _ => None
  end.

Context `{DebugFormat}.

(** What the pipeline returned, as it is recorded. *)
Definition outcome_of (r : result ToolError Value) : CallOutcome :=
  match r with
  | Ok output => OutcomeSucceeded output
  | Err Cancelled => OutcomeCancelled
  | Err (TimedOut limit) => OutcomeTimedOut limit
  | Err error => OutcomeFailed (ToolError_as_failure error)
  end.

(** ** One call *)

Inductive Worker :=
| Working (entered : bool)
| Sent (r : result ToolError Value)
| Gone.
Definition Verdict : Type := CallOutcome * N.
Inductive Waiting :=
| Polling (stopping : option Verdict)
| StopChosen (verdict : CallOutcome)
| GraceOver (stopping : Verdict)
| Finished (outcome : CallOutcome).

Record Supervised := MkSupervised {
  sv_phase : ExecutionPhase;
  sv_caller : bool;
  sv_token : bool;
  sv_now : N;
  sv_deadline : option Deadline;
  sv_worker : Worker;
  (** The irreversible effects of the body so far. *)
  sv_effects : nat;
  sv_waiting : Waiting;
}.
Definition set_waiting (w : Waiting) (s : Supervised) : Supervised :=
  MkSupervised (sv_phase s) (sv_caller s) (sv_token s) (sv_now s) (sv_deadline s) (sv_worker s)
    (sv_effects s) w.
Definition set_worker (w : Worker) (s : Supervised) : Supervised :=
  MkSupervised (sv_phase s) (sv_caller s) (sv_token s) (sv_now s) (sv_deadline s) w (sv_effects s)
    (sv_waiting s).

(** [ExecutionControl::begin_irreversible] *)
Definition begin_irreversible : stateM Supervised ToolError unit := λ s,
  if bool_decide (sv_phase s = StopRequested) || sv_token s then (Err Cancelled, s)
  else
    match sv_deadline s with
    | Some d =>
      if has_passed (sv_now s) d then (Err (TimedOut (deadline_limit d)), s)
      else (Ok tt, MkSupervised Irreversible (sv_caller s) (sv_token s) (sv_now s) (sv_deadline s)
                     (sv_worker s) (sv_effects s) (sv_waiting s))
    | None =>
      (Ok tt, MkSupervised Irreversible (sv_caller s) (sv_token s) (sv_now s) (sv_deadline s)
                (sv_worker s) (sv_effects s) (sv_waiting s))
    end.
(** [ExecutionControl::request_stop] *)
Definition request_stop (s : Supervised) : Supervised :=
  MkSupervised match sv_phase s with PhaseOpen => StopRequested | phase => phase end
    (sv_caller s) true (sv_now s) (sv_deadline s) (sv_worker s) (sv_effects s) (sv_waiting s).

Definition reason_to_stop (s : Supervised) : option CallOutcome :=
  if sv_caller s || sv_token s then Some OutcomeCancelled
  else
    match sv_deadline s with
    | Some d => if has_passed (sv_now s) d then Some (OutcomeTimedOut (deadline_limit d)) else None
    | None => None
    end.

(** ** The loop of [supervise], by the answer of [recv_timeout] *)

Definition on_result (stopping : option Verdict) (r : result ToolError Value) : CallOutcome :=
  match stopping, outcome_of r with
  | Some (verdict, _), (OutcomeCancelled | OutcomeTimedOut _) => verdict
  | _, reported => reported
  end.
Definition on_disconnected (stopping : option Verdict) : CallOutcome :=
  match stopping with Some (verdict, _) => verdict | None => OutcomeInterrupted end.
(** The two checks after a wait that timed out. *)
Definition on_timeout (stopping : option Verdict) (s : Supervised) : Waiting :=
  match stopping with
  | Some (verdict, since) =>
    if (TERMINATION_GRACE <=? sv_now s - since)%N then GraceOver (verdict, since) else Polling stopping
  | None =>
    match reason_to_stop s with Some verdict => StopChosen verdict | None => Polling None end
  end.
Definition on_grace (stopping : Verdict) (s : Supervised) : Waiting :=
  if is_irreversible (sv_phase s) then Polling (Some stopping) else Finished stopping.1.
Definition on_stop (verdict : CallOutcome) (s : Supervised) : Supervised :=
  set_waiting (Polling (Some (verdict, sv_now s))) (request_stop s).

(** One step of the executor; [None] once it has returned. *)
Definition executor_step (s : Supervised) : option Supervised :=
  match sv_waiting s with
  | Polling stopping =>
    Some (set_waiting
      match sv_worker s with
      | Sent r => Finished (on_result stopping r)
      | Gone => Finished (on_disconnected stopping)
      | Working _ => on_timeout stopping s
      end s)
  | StopChosen verdict => Some (on_stop verdict s)
  | GraceOver stopping => Some (set_waiting (on_grace stopping s) s)
  | Finished _ => None
  end.

(** A body commits irreversible effects only after it entered that phase, and reports once. *)
Inductive step : Supervised → Supervised → Prop :=
| executor_moves s s' : executor_step s = Some s' → step s s'
| caller_cancels s :
    step s (MkSupervised (sv_phase s) true (sv_token s) (sv_now s) (sv_deadline s) (sv_worker s)
              (sv_effects s) (sv_waiting s))
| time_passes s d :
    step s (MkSupervised (sv_phase s) (sv_caller s) (sv_token s) (sv_now s + d) (sv_deadline s) (sv_worker s)
              (sv_effects s) (sv_waiting s))
| body_stops_itself s b : sv_worker s = Working b →
    step s (MkSupervised (sv_phase s) (sv_caller s) true (sv_now s) (sv_deadline s) (sv_worker s)
              (sv_effects s) (sv_waiting s))
| body_enters s s' b : sv_worker s = Working b → begin_irreversible s = (Ok tt, s') →
    step s (set_worker (Working true) s')
| body_commits s : sv_worker s = Working true →
    step s (MkSupervised (sv_phase s) (sv_caller s) (sv_token s) (sv_now s) (sv_deadline s) (sv_worker s)
              (S (sv_effects s)) (sv_waiting s))
| body_reports s b r : sv_worker s = Working b → step s (set_worker (Sent r) s)
| body_dies s b : sv_worker s = Working b → step s (set_worker Gone s).

(** A call as it is dispatched: cancelled already, or not. *)
Definition dispatched (cancelled : bool) (now : N) (deadline : option Deadline) : Supervised :=
  MkSupervised PhaseOpen cancelled cancelled now deadline (Working false) 0 (Polling None).

(** ** What a supervised call keeps *)

(** A verdict of the executor's own: what was asked, or the limit that has passed. *)
Definition justified (s : Supervised) (v : CallOutcome) : Prop :=
  v = OutcomeCancelled ∧ (sv_caller s || sv_token s) = true ∨
  ∃ d, sv_deadline s = Some d ∧ v = OutcomeTimedOut (deadline_limit d) ∧ has_passed (sv_now s) d = true.
Definition is_echo (o : CallOutcome) : bool :=
  match o with OutcomeCancelled | OutcomeTimedOut _ => true | _ => false end.
(** The outcome of a body that came back. *)
Definition answered (s : Supervised) (o : CallOutcome) : Prop :=
  match sv_worker s with
  | Working _ => False
  | Sent r => o = outcome_of r ∨ is_echo (outcome_of r) = true ∧ justified s o
  | Gone => o = OutcomeInterrupted ∨ justified s o
  end.
Definition stop_asked (s : Supervised) (verdict : CallOutcome) : Prop :=
  justified s verdict ∧ sv_phase s ≠ PhaseOpen.
Definition waiting_ok (s : Supervised) : Prop :=
  match sv_waiting s with
  | Polling None => True
  | Polling (Some (verdict, since)) => stop_asked s verdict
  | GraceOver (verdict, since) => stop_asked s verdict ∧ (since + TERMINATION_GRACE <= sv_now s)%N
  | StopChosen verdict => justified s verdict
  | Finished o => answered s o ∨ sv_phase s = StopRequested ∧ justified s o
  end.
Record supervised_ok (s : Supervised) : Prop := {
  so_entered : sv_worker s = Working true → sv_phase s = Irreversible;
  so_effects : 0 < sv_effects s → sv_phase s = Irreversible;
  so_waiting : waiting_ok s;
}.

Lemma dispatched_ok cancelled now deadline : supervised_ok (dispatched cancelled now deadline).
Proof. split; cbn; [done|lia|done]. Qed.

Lemma reason_justified s v : reason_to_stop s = Some v → justified s v.
Proof.
  unfold reason_to_stop, justified. destruct (sv_caller s || sv_token s); [intros [= <-]; by left|].
  destruct (sv_deadline s) as [d|]; [|done]. destruct (has_passed (sv_now s) d) eqn:Hp; [|done].
  intros [= <-]. right. by exists d.
Qed.
Lemma on_result_answers s stopping r :
  sv_worker s = Sent r → waiting_ok s → sv_waiting s = Polling stopping → answered s (on_result stopping r).
Proof.
  unfold answered, waiting_ok. intros -> Hw Heq. rewrite Heq in Hw.
  destruct stopping as [[verdict since]|]; [|by left].
  destruct Hw as [Hj _]. unfold on_result. destruct (outcome_of r); auto.
Qed.
Lemma executor_keeps s s' : supervised_ok s → executor_step s = Some s' → supervised_ok s'.
Proof.
  intros [He Hf Hw]. unfold executor_step.
  destruct (sv_waiting s) as [stopping|verdict|[verdict since]|o] eqn:Hwait; intros [= <-].
  - split; [done|done|]. unfold waiting_ok. cbn. destruct (sv_worker s) as [b|r|] eqn:Hwk.
    + unfold waiting_ok in Hw. rewrite Hwait in Hw. destruct stopping as [[verdict since]|]; cbn.
      * destruct (TERMINATION_GRACE <=? _)%N eqn:Hg; [|done]. split; [done|]. unfold TERMINATION_GRACE in *. lia.
      * destruct (reason_to_stop s) as [v|] eqn:Hr; [|done]. by apply reason_justified.
    + left. apply (on_result_answers s stopping r Hwk Hw Hwait).
    + left. unfold answered. cbn. rewrite Hwk. unfold waiting_ok in Hw. rewrite Hwait in Hw.
      destruct stopping as [[verdict since]|]; [right; apply Hw|by left].
  - unfold waiting_ok in Hw. rewrite Hwait in Hw. split; cbn.
    + intros Hph%He. by rewrite Hph.
    + intros Hph%Hf. by rewrite Hph.
    + split; [|cbn; by destruct (sv_phase s)]. destruct Hw as [[-> _]|Hw]; [left|by right].
      split; [done|cbn; apply orb_true_r].
  - unfold waiting_ok in Hw. rewrite Hwait in Hw. destruct Hw as [[Hj Hp] _]. split; [done|done|].
    unfold waiting_ok, on_grace, is_irreversible. cbn. case_bool_decide as Hirr; cbn; [done|].
    right. split; [|done]. by destruct (sv_phase s).
Qed.

(** More time, more cancelling and a body that did not return keep every verdict. *)
Lemma waiting_later s s' :
  sv_waiting s' = sv_waiting s → sv_phase s' = sv_phase s → sv_worker s' = sv_worker s →
  sv_deadline s' = sv_deadline s → (sv_now s <= sv_now s')%N →
  ((sv_caller s || sv_token s) = true → (sv_caller s' || sv_token s') = true) →
  waiting_ok s → waiting_ok s'.
Proof.
  intros Hwait Hph Hwk Hdl Hnow Htok.
  assert (∀ v, justified s v → justified s' v) as Hj.
  { intros v [[-> Hc]|(d & Hd & -> & Hp)]; [left; auto|right]. exists d. split; [congruence|]. split; [done|].
    unfold has_passed in *. lia. }
  unfold waiting_ok, answered, stop_asked. rewrite Hwait, Hph, Hwk.
  destruct (sv_waiting s) as [[[v since]|]|v|[v since]|o]; [|done|auto| |].
  - intros [? ?]. auto.
  - intros [[? ?] ?]. split; [auto|lia].
  - intros [Ha|[? ?]]; [left|right; auto]. destruct (sv_worker s); [done| |]; destruct Ha as [?|Ha]; auto.
    destruct Ha. auto.
Qed.
(** A body that returns after its call was recorded changes nothing of the record. *)
Lemma waiting_returned s b w :
  sv_worker s = Working b → waiting_ok s → waiting_ok (set_worker w s).
Proof.
  unfold waiting_ok, answered. intros ->. cbn. destruct (sv_waiting s) as [[[v since]|]|v|[v since]|o]; try done.
  intros [[]|[? ?]]. by right.
Qed.

Lemma begin_irreversible_Ok s s' :
  begin_irreversible s = (Ok tt, s') →
  sv_phase s ≠ StopRequested ∧ sv_token s = false ∧
  s' = MkSupervised Irreversible (sv_caller s) (sv_token s) (sv_now s) (sv_deadline s)
         (sv_worker s) (sv_effects s) (sv_waiting s).
Proof.
  unfold begin_irreversible. destruct (bool_decide (sv_phase s = StopRequested) || sv_token s) eqn:Hb; [done|].
  bool_hyps. destruct (sv_deadline s) as [d|] eqn:Hd; [destruct (has_passed (sv_now s) d); [done|]|];
    intros [= <-]; rewrite ?Hd; done.
Qed.

Lemma step_keeps s s' : supervised_ok s → step s s' → supervised_ok s'.
Proof.
  intros Hok Hs. destruct Hs as [s s' Hs|s|s d|s b Hwk|s s' b Hwk Hs|s Hwk|s b r Hwk|s b Hwk].
  - by eapply executor_keeps.
  - destruct Hok as [He Hf Hw]. split; [done|done|]. eapply waiting_later, Hw; try done.
  - destruct Hok as [He Hf Hw]. split; [done|done|]. eapply waiting_later, Hw; try done. cbn. lia.
  - destruct Hok as [He Hf Hw]. split; [done|done|]. eapply waiting_later, Hw; try done. cbn.
    intros _. apply orb_true_r.
  - apply begin_irreversible_Ok in Hs as (Hp & _ & ->). destruct Hok as [He Hf Hw]. split; [done|done|].
    unfold waiting_ok, stop_asked, answered in *. cbn. rewrite Hwk in Hw.
    destruct (sv_waiting s) as [[[v since]|]|v|[v since]|o]; [|done|done| |].
    + by destruct Hw.
    + destruct Hw as [[? ?] ?]. by split_and!.
    + destruct Hw as [[]|[? _]]. done.
  - destruct Hok as [He Hf Hw]. split; [done|by intros _; apply He|]. by eapply waiting_later, Hw.
  - destruct Hok as [He Hf Hw]. split; [done|done|]. by eapply waiting_returned.
  - destruct Hok as [He Hf Hw]. split; [done|done|]. by eapply waiting_returned.
Qed.
Lemma reachable_ok cancelled now deadline s :
  rtc step (dispatched cancelled now deadline) s → supervised_ok s.
Proof. apply rtc_invariant; [apply step_keeps|apply dispatched_ok]. Qed.

Lemma finished_stays s s' o :
  sv_waiting s = Finished o → step s s' → sv_waiting s' = Finished o ∧ (sv_phase s = StopRequested → sv_phase s' = StopRequested).
Proof.
  intros Hw Hs. destruct Hs as [s s' Hs|s|s d|s b Hwk|s s' b Hwk Hs|s Hwk|s b r Hwk|s b Hwk]; try done.
  - unfold executor_step in Hs. by rewrite Hw in Hs.
  - apply begin_irreversible_Ok in Hs as (? & _ & ->). done.
Qed.

(** C17. A call recorded as over while its body still runs has no effect, then or ever: the
    executor abandons a body only where it has not entered its irreversible phase, and from
    then on it cannot enter it, so no bytes are committed under a record that says the call
    was cancelled or ran out of time. *)
Theorem abandoned_call_has_no_effect cancelled now deadline s o b s' :
  rtc step (dispatched cancelled now deadline) s → sv_waiting s = Finished o → sv_worker s = Working b →
  rtc step s s' →
  b = false ∧ sv_effects s' = 0 ∧ sv_waiting s' = Finished o ∧ is_echo o = true.
Proof.
  intros Hr Hw Hwk Hs. pose proof (reachable_ok _ _ _ _ Hr) as Hok.
  assert (sv_phase s = StopRequested ∧ is_echo o = true) as [Hp Ho].
  { pose proof (so_waiting _ Hok) as Hwo. unfold waiting_ok, answered in Hwo. rewrite Hw, Hwk in Hwo.
    destruct Hwo as [[]|[Hp Hj]]. split; [done|]. by destruct Hj as [[-> _]|(d & _ & -> & _)]. }
  assert (supervised_ok s' ∧ sv_waiting s' = Finished o ∧ sv_phase s' = StopRequested) as (Hok' & Hw' & Hp').
  { eapply (rtc_invariant _ (λ x, supervised_ok x ∧ sv_waiting x = Finished o ∧ sv_phase x = StopRequested));
      [|done|exact Hs].
    intros x y (Hx & Hxw & Hxp) Hxy. destruct (finished_stays _ _ _ Hxw Hxy) as [? Hph].
    split; [by eapply step_keeps|auto]. }
  split_and!; [|destruct (sv_effects s') as [|n] eqn:Hn; [done|]|done|done].
  - destruct b; [|done]. by rewrite (so_entered _ Hok) in Hp.
  - assert (sv_phase s' = Irreversible) by (apply (so_effects _ Hok'); rewrite Hn; lia). congruence.
Qed.

(** What is recorded of a call whose executor, in the state [s], returns.  It has the answer
    of the body in hand: a success or a failure is recorded as it is, and a cancellation or a
    timeout of the body is the executor's own reason where it had asked for a stop.  It has
    none because the body is gone.  Or the grace is over and the body has not entered its
    irreversible phase and no longer can. *)
Definition rightly_recorded (s : Supervised) (o : CallOutcome) : Prop :=
  match sv_waiting s with
  | Polling stopping =>
    match sv_worker s with
    | Sent (Ok output) => o = OutcomeSucceeded output
    | Sent (Err Cancelled) => o = match stopping with Some (verdict, _) => verdict | None => OutcomeCancelled end
    | Sent (Err (TimedOut limit)) => o = match stopping with Some (verdict, _) => verdict | None => OutcomeTimedOut limit end
    | Sent (Err error) => o = OutcomeFailed (ToolError_as_failure error)
    | Gone => o = match stopping with Some (verdict, _) => verdict | None => OutcomeInterrupted end
    | Working _ => False
    end ∧ ∀ verdict since, stopping = Some (verdict, since) → justified s verdict
  | GraceOver (verdict, since) =>
    o = verdict ∧ justified s verdict ∧ sv_phase s = StopRequested ∧ (since + TERMINATION_GRACE <= sv_now s)%N
  | _ => False
  end.

(** C18. What is recorded is what the body reported.  The executor returns with an answer of
    the body in hand, or once the body is gone, or once the grace is over while the body has
    not entered its irreversible phase.  A success or a failure it has in hand is what it
    records, whether or not it had asked for a stop; a cancellation or a timeout that echoes
    its stop, from whatever phase, and the silence of a body that is gone yield to its own
    reason, which is the caller's request or the limit that has passed.  What was recorded
    stays, whatever the body still does. *)
Theorem recorded_outcome_is_the_bodys cancelled now deadline s s' o :
  rtc step (dispatched cancelled now deadline) s → executor_step s = Some s' → sv_waiting s' = Finished o →
  rightly_recorded s o ∧ ∀ s'', rtc step s' s'' → sv_waiting s'' = Finished o.
Proof.
  intros Hr Hs Hw. split.
  2: { intros s'' Hss. eapply (rtc_invariant step (λ x, sv_waiting x = Finished o)); [|exact Hw|exact Hss].
       intros x y Hx Hxy. by apply (finished_stays _ _ _ Hx Hxy). }
  pose proof (so_waiting _ (reachable_ok _ _ _ _ Hr)) as Hok. unfold rightly_recorded, waiting_ok, executor_step in *.
  destruct (sv_waiting s) as [stopping|verdict|[verdict since]|o'] eqn:Hwait; [injection Hs as <-..|discriminate Hs]; cbn in Hw.
  - split.
    + destruct (sv_worker s) as [b|[output|error]|].
      * unfold on_timeout in Hw. destruct stopping as [[v t]|]; [by destruct (_ <=? _)%N|by destruct (reason_to_stop s)].
      * injection Hw as <-. by destruct stopping as [[v t]|].
      * injection Hw as <-. by destruct stopping as [[v t]|], error.
      * injection Hw as <-. by destruct stopping as [[v t]|].
    + intros v t ->. by destruct Hok.
  - discriminate.
  - destruct Hok as [[Hj Hp] Hg]. unfold on_grace, is_irreversible in Hw. case_bool_decide as Hirr; [done|].
    injection Hw as <-. split_and!; [done|done|by destruct (sv_phase s)|done].
Qed.

(** ** A body that never answers *)

(** One pass of the loop, the wait included, and the steps that need no further wait. *)
Definition pass (d : N) (s : Supervised) : Supervised :=
  let s := MkSupervised (sv_phase s) (sv_caller s) (sv_token s) (sv_now s + d) (sv_deadline s) (sv_worker s)
             (sv_effects s) (sv_waiting s) in
  let s := default s (executor_step s) in
  match sv_waiting s with
  | StopChosen _ | GraceOver _ => default s (executor_step s)
  | _ => s
  end.
Lemma pass_steps d s : rtc step s (pass d s).
Proof.
  unfold pass. eapply rtc_l; [apply (time_passes s d)|].
  set (s1 := MkSupervised _ _ _ _ _ _ _ _).
  assert (∀ x, rtc step x (default x (executor_step x))) as Hx.
  { intros x. destruct (executor_step x) as [y|] eqn:Hy; cbn; [by apply rtc_once, executor_moves|done]. }
  etrans; [apply (Hx s1)|]. 
  generalize (default s1 (executor_step s1)) as s2. intros s2. destruct (sv_waiting s2); [apply rtc_refl|apply Hx|apply Hx|apply rtc_refl].
Qed.
Definition passes (ds : list N) (s : Supervised) : Supervised := foldl (λ s d, pass d s) s ds.
Lemma passes_steps ds s : rtc step s (passes ds s).
Proof. revert s. induction ds as [|d ds IH]; intros s; [done|]. cbn. etrans; [apply pass_steps|apply IH]. Qed.

Definition elapsed (ds : list N) : N := foldr N.add 0%N ds.

Lemma passes_finished ds s o : sv_waiting s = Finished o → sv_waiting (passes ds s) = Finished o.
Proof.
  revert s. induction ds as [|d ds IH]; intros s Hs; [done|]. cbn. apply IH. unfold pass, executor_step. cbn.
  rewrite Hs. cbn. by rewrite ?Hs.
Qed.
(** After the stop was asked for, the grace is all that is left. *)
Lemma stopping_ends ds s v since :
  sv_worker s = Working false → sv_phase s = StopRequested → sv_waiting s = Polling (Some (v, since)) →
  (since + TERMINATION_GRACE <= sv_now s + elapsed ds)%N → (since <= sv_now s)%N → ds ≠ [] →
  sv_waiting (passes ds s) = Finished v.
Proof.
  revert s. induction ds as [|d ds IH]; intros s Hwk Hp Hw Ht Hsince Hne; [done|]. cbn [passes foldl].
  assert (sv_waiting (pass d s) = Finished v ∨
    (sv_now s + d - since < TERMINATION_GRACE)%N ∧ sv_worker (pass d s) = Working false ∧
    sv_phase (pass d s) = StopRequested ∧ sv_waiting (pass d s) = Polling (Some (v, since)) ∧
    sv_now (pass d s) = (sv_now s + d)%N) as [Hd|(Hlt & ? & ? & ? & Hnow)].
  { unfold pass, executor_step. cbn. rewrite Hw, Hwk. cbn.
    destruct (TERMINATION_GRACE <=? sv_now s + d - since)%N eqn:Hg; cbn.
    - left. unfold on_grace, is_irreversible. cbn. by rewrite Hp.
    - right. rewrite ?Hwk, ?Hp. split_and!; try done. lia. }
  - by apply passes_finished.
  - cbn [elapsed foldr] in Ht. change (foldr N.add 0%N ds) with (elapsed ds) in Ht.
    destruct ds as [|d' ds]; [cbn in Ht; lia|]. apply IH; try done; rewrite Hnow; lia.
Qed.

(** A call always ends: whatever its body does, as long as it has not entered its
    irreversible phase, a call that is cancelled or whose limit has passed is over by the
    first look the executor takes once the grace has run out after the wait in which it
    noticed. *)
Theorem unanswered_call_ends d ds s :
  supervised_ok s → sv_worker s = Working false → sv_phase s ≠ Irreversible → sv_waiting s = Polling None →
  ((sv_caller s || sv_token s) = true ∨ ∃ dl, sv_deadline s = Some dl ∧ (deadline_at dl <= sv_now s + d)%N) →
  (TERMINATION_GRACE <= elapsed ds)%N →
  ∃ v, is_echo v = true ∧ sv_waiting (passes (d :: ds) s) = Finished v
    ∧ rtc step s (passes (d :: ds) s).
Proof.
  intros Hok Hwk Hp Hw Hwhy Ht.
  assert (∃ v, is_echo v = true ∧ sv_waiting (pass d s) = Polling (Some (v, sv_now s + d)%N)
    ∧ sv_worker (pass d s) = Working false ∧ sv_phase (pass d s) = StopRequested
    ∧ sv_now (pass d s) = (sv_now s + d)%N) as (v & Hv & Hw1 & Hwk1 & Hp1 & Hn1).
  { unfold pass, executor_step. cbn. rewrite Hw, Hwk. cbn. unfold reason_to_stop. cbn.
    assert (match sv_phase s with PhaseOpen => StopRequested | phase => phase end = StopRequested) as Hph
      by by destruct (sv_phase s).
    destruct (sv_caller s || sv_token s) eqn:Hc.
    - exists OutcomeCancelled. cbn. rewrite ?Hwk. by split_and!.
    - destruct Hwhy as [?|(dl & -> & Hdl)]; [done|].
      assert (has_passed (sv_now s + d) dl = true) as -> by (unfold has_passed; lia).
      exists (OutcomeTimedOut (deadline_limit dl)). cbn. rewrite ?Hwk. by split_and!. }
  exists v. split_and!; [done| |apply passes_steps]. cbn [passes foldl].
  assert (ds ≠ []) as Hne by (intros ->; cbn in Ht; unfold TERMINATION_GRACE in Ht; lia).
  apply (stopping_ends ds (pass d s) v (sv_now s + d)%N); rewrite ?Hn1; done || lia.
Qed.
End supervise.

(** ** Concrete calls *)

#[export] Instance demo_debug : DebugFormat := {
  debug_str s := s;
  debug_paths l := String.concat ", " l;
}.
#[export] Instance demo_instants : InstantMax := (2 ^ 63)%N.

(** A call given one second, whose body does not answer. *)
Definition demo_hanging : Supervised := dispatched false 0%N (starting_now 0%N 1%N).

Lemma abandoned_call_has_no_effect_witness :
  sv_waiting (passes [1000; 500]%N demo_hanging) = Finished (OutcomeTimedOut 1%N) ∧
  sv_effects (passes [20; 20]%N (passes [1000; 500]%N demo_hanging)) = 0.
Proof.
  assert (sv_waiting (passes [1000; 500]%N demo_hanging) = Finished (OutcomeTimedOut 1%N)) as Hw by reflexivity.
  split; [exact Hw|].
  apply (abandoned_call_has_no_effect false 0%N (starting_now 0%N 1%N) (passes [1000; 500]%N demo_hanging)
    (OutcomeTimedOut 1%N) false); [apply passes_steps|exact Hw|reflexivity|apply passes_steps].
Defined.

(** A body that committed as the call was cancelled, and came back after the grace. *)
Definition demo_committing : Supervised :=
  MkSupervised Irreversible true false 5%N None (Working true) 1 (Polling None).
Definition demo_answering : Supervised :=
  set_worker (Sent (Ok (demo_value "patched"))) (passes [20; 600; 600]%N demo_committing).
Lemma demo_answering_reachable : rtc step (dispatched false 5%N None) demo_answering.
Proof.
  eapply rtc_l; [eapply (body_enters _ _ false); reflexivity|].
  eapply rtc_l; [apply body_commits; reflexivity|].
  eapply rtc_l; [apply caller_cancels|].
  eapply rtc_r; [apply (passes_steps [20; 600; 600]%N)|].
  eapply (body_reports _ true). reflexivity.
Qed.
Lemma recorded_outcome_is_the_bodys_witness :
  ∃ s', executor_step demo_answering = Some s' ∧ sv_waiting s' = Finished (OutcomeSucceeded (demo_value "patched")) ∧
    ∀ s'', rtc step s' s'' → sv_waiting s'' = Finished (OutcomeSucceeded (demo_value "patched")).
Proof.
  eexists. split; [reflexivity|]. split; [reflexivity|].
  eapply (recorded_outcome_is_the_bodys false 5%N None demo_answering); [apply demo_answering_reachable|reflexivity|reflexivity].
Defined.

Lemma unanswered_call_ends_witness : ∃ v,
  sv_waiting (passes [20; 500]%N (dispatched true 0%N None)) = Finished v ∧ is_echo v = true.
Proof.
  destruct (unanswered_call_ends 20%N [500]%N (dispatched true 0%N None)) as (v & Hv & Hw & _);
    [apply dispatched_ok|reflexivity|discriminate|reflexivity|left; reflexivity|
     apply N.leb_le; reflexivity|by exists v].
Defined.
