(* ===== verification/Executor.v ===== *)
(** * The tool executor

    Models [src/crates/harkness-runtime/src/tool/execute.rs]: how a recorded call is
    resolved, bounded, started, supervised and recorded.  The store is [RunStore]; how the
    supervised body ends, with the progress reported until then, is an argument here and
    the subject of [Supervise]; whether the call's context can be built is an argument, as
    it depends on the file system. *)

From Stdlib Require Import ZArith ZifyN ZifyBool.
From stdpp Require Import base decidable countable list gmap sets relations pretty strings.
From S2P Require Import Prelude Digest Tool External Trust Policy Lifecycle Domain Records Wire Registry RunStore StoreLaws StoreSafety ToolError Supervise.

Definition OVERSIZED_RESULT_KIND : string := "payload_too_large".
Definition DEFAULT_STREAM_TAIL_BYTES : N := 64 * 1024.
Definition DEFAULT_PROGRESS_CAPACITY : N := 64.

(** The clock, by what the store has been asked so far. *)
Class Now `{Platform} := now_at : nat → OffsetDateTime.

Section executor.
Context `{Platform, !StoreParams, Faults, !Fresh, !Now, DebugFormat}.
Context {T : Type} (descriptor : T → ToolDescriptor).

(** ** Limits *)

Record ExecutionLimits := MkExecutionLimits {
  el_timeout : option ToolTimeout;
  el_stream_tail_bytes : N;
  el_progress_capacity : N;
}.
Definition ExecutionLimits_default : ExecutionLimits :=
  MkExecutionLimits None DEFAULT_STREAM_TAIL_BYTES DEFAULT_PROGRESS_CAPACITY.
Definition limits_within (limit : Duration) (l : ExecutionLimits) : ExecutionLimits :=
  MkExecutionLimits (Some (After limit)) (el_stream_tail_bytes l) (el_progress_capacity l).
Definition bounded_only_by_cancellation (l : ExecutionLimits) : ExecutionLimits :=
  MkExecutionLimits (Some OnlyByCancellation) (el_stream_tail_bytes l) (el_progress_capacity l).
Definition retaining_stream_tail (bytes : N) (l : ExecutionLimits) : ExecutionLimits :=
  MkExecutionLimits (el_timeout l) bytes (el_progress_capacity l).
Definition with_progress_capacity (events : N) (l : ExecutionLimits) : ExecutionLimits :=
  MkExecutionLimits (el_timeout l) (el_stream_tail_bytes l) events.

(** ** Errors and outcomes *)

Inductive ExecutionError :=
| ExecStore (e : StoreError)
| NotDispatchable (call : ToolCallId) (state expected : ToolCallState)
| ContextUnavailable (call : ToolCallId) (source : ToolError)
| NotCancellable (call : ToolCallId) (state : ToolCallState)
| UnboundedNotDeclared (tool : ToolIdentity) (declared : Duration).
Definition ExecutionError_kind (e : ExecutionError) : string :=
  match e with
  | ExecStore _ => "store_failed"
  | NotDispatchable _ _ _ => "not_dispatchable"
  | ContextUnavailable _ _ => "context_unavailable"
  | NotCancellable _ _ => "not_cancellable"
  | UnboundedNotDeclared _ _ => "unbounded_not_declared"
  end.

Definition timeout_for (tool : ToolIdentity) (declared : ToolTimeout) (l : ExecutionLimits)
    : result ExecutionError ToolTimeout :=
  match el_timeout l with
  | None => Ok declared
  | Some (After limit) => Ok (After limit)
  | Some OnlyByCancellation =>
    match declared with
    | OnlyByCancellation => Ok OnlyByCancellation
    | After limit => Err (UnboundedNotDeclared tool limit)
    end
  end.

Record CompletedCall := MkCompletedCall {
  cc_tool : option ToolIdentity;
  cc_record : ToolCall;
  cc_outcome : CallOutcome;
}.

(** How a call comes to be running. *)
Inductive Start :=
| StartPending
| LegacyApproved (decided_by : string)
| StartApproved (decided_by : string) (expected_tool : ToolIdentity) (expected_input_hash : InputHash).
Definition required_state (start : Start) : ToolCallState :=
  match start with
  | StartPending => Pending
  | LegacyApproved _ | StartApproved _ _ _ => AwaitingApproval
  end.

Abbreviation storeM A := (stateM RunStore StoreError A).
Abbreviation execM A := (stateM RunStore ExecutionError A).

Definition of_store {A} (m : storeM A) : execM A := λ s,
  match m s with
  | (Ok a, s) => (Ok a, s)
  | (Err e, s) => (Err (ExecStore e), s)
  end.
Definition now_utc {E} : stateM RunStore E OffsetDateTime := λ s, (Ok (to_utc (now_at (rs_io s))), s).

(** ** Recording how a call ended *)

Definition state_event (call : ToolCallId) (step : StepId) (at_ : OffsetDateTime) (state : ToolCallState)
    (detail : Value) : RunEvent :=
  with_payload
    (json_object [("state", json_string (ToolCallState_as_str state)); ("detail", detail)])
    (for_tool_call call (for_step step (RunEvent_new ToolCallStateChanged at_))).

Definition U64_LIMIT : N := 2 ^ 64 - 1.
Definition millis (limit : Duration) : N :=
  if (1000 * limit <=? U64_LIMIT)%N then (1000 * limit)%N else U64_LIMIT.

Definition persist (call : ToolCallId) (step : StepId) (outcome : CallOutcome) (at_ : OffsetDateTime)
    : storeM ToolCall :=
  let event := state_event call step at_ in
  let failed failure detail := fail_tool_call_with_event call failure at_ (event CallFailed detail) in
  recorded ←
    match outcome with
    | OutcomeSucceeded output =>
      succeed_tool_call_with_event call output at_ (event CallSucceeded json_null)
    | OutcomeFailed failure =>
      failed failure (json_object
        [("kind", json_string (failure_kind failure)); ("message", json_string (failure_message failure))])
    | OutcomeCancelled =>
      transition_tool_call_with_event call CallCancelled at_ (event CallCancelled json_null)
    | OutcomeInterrupted =>
      transition_tool_call_with_event call CallInterrupted at_ (event CallInterrupted json_null)
    | OutcomeTimedOut limit =>
      let failure := ToolError_as_failure (TimedOut limit) in
      failed failure (json_object
        [("kind", json_string (failure_kind failure)); ("timeout_ms", json_number (millis limit))])
    end;
  mret recorded.1.

Definition oversized_result (bytes : N) : CallOutcome :=
  OutcomeFailed (Failure_new OVERSIZED_RESULT_KIND
    ("the tool returned " +:+ pretty bytes +:+ " bytes, which is more than a result may hold; content that large belongs in an artifact with only a reference to it in the result")).

(** A result the store cannot hold becomes a recorded failure. *)
Definition recorded_as_outcome (call : ToolCallId) (step : StepId) (tool : option ToolIdentity)
    (outcome : CallOutcome) (at_ : OffsetDateTime) : execM CompletedCall :=
  record ← of_store (persist call step outcome at_);
  mret (MkCompletedCall tool record outcome).
Definition finish_at (call : ToolCallId) (step : StepId) (tool : option ToolIdentity) (outcome : CallOutcome)
    (at_ : OffsetDateTime) : execM CompletedCall := λ s,
  match recorded_as_outcome call step tool outcome at_ s with
  | (Err (ExecStore (PayloadTooLarge record field bytes)), s) =>
    if succeeded outcome then recorded_as_outcome call step tool (oversized_result bytes) at_ s
    else (Err (ExecStore (PayloadTooLarge record field bytes)), s)
  | answer => answer
  end.
Definition finish (call : ToolCallId) (step : StepId) (tool : option ToolIdentity) (outcome : CallOutcome)
    : execM CompletedCall :=
  at_ ← now_utc;
  finish_at call step tool outcome at_.

Definition CANCELLABLE_UNDISPATCHED : list ToolCallState := [Pending; AwaitingApproval].
Definition cancel_undispatched (call : ToolCallId) : execM CompletedCall :=
  record ← of_store (load (R:=ToolCall) call);
  _ ← lift (ensure (bool_decide (call_state record ∈ CANCELLABLE_UNDISPATCHED))
        (NotCancellable call (call_state record)));
  finish call (call_step_id record) None OutcomeCancelled.

(** ** Resolving a call *)

Definition registry_refusal (e : Registry.RegistryError) : InvocationError :=
  Resolution
    match e with
    | Registry.DuplicateRegistration tool => DuplicateRegistration tool
    | Registry.UnknownTool id => UnknownTool id
    | Registry.UnknownToolVersion id version available => UnknownToolVersion id version available
    end.
Definition identifier_refusal (e : Tool.RegistryError) : InvocationError :=
  Resolution
    match e with
    | Tool.InvalidToolId value reason => InvalidToolId value reason
    | Tool.InvalidToolVersion value reason => InvalidToolVersion value reason
    | Tool.InvalidCapability value reason => InvalidCapability value reason
    end.

(** An empty recorded version asks for the latest. *)
Definition resolve (registry : ToolRegistry (Tool:=T)) (record : ToolCall) : result InvocationError T :=
  id ← map_err identifier_refusal (ToolId_new (call_tool_id record));
  version ←
    (if bool_decide (call_tool_version record = "") then Ok None
     else map_err identifier_refusal
            (version ← ToolVersion_new (call_tool_version record); Ok (Some version)));
  map_err registry_refusal (Registry.resolve id version registry).
Definition resolve_start (registry : ToolRegistry (Tool:=T)) (start : Start) (record : ToolCall)
    : result InvocationError T :=
  match start with
  | StartPending | LegacyApproved _ => resolve registry record
  | StartApproved _ expected_tool _ =>
    map_err registry_refusal
      (Registry.resolve (ti_id expected_tool) (Some (ti_version expected_tool)) registry)
  end.

(** ** Running a call *)

Definition dispatch_event (call : ToolCallId) (step : StepId) (tool : ToolIdentity) (start : Start)
    (at_ : OffsetDateTime) : RunEvent :=
  with_payload
    (json_object
      ([("state", json_string (ToolCallState_as_str CallRunning));
        ("tool_id", json_string (ToolId_as_str (ti_id tool)));
        ("tool_version", json_string (Version_to_string (as_semver (ti_version tool))))]
       ++ match start with
          | StartPending => []
          | LegacyApproved decided_by | StartApproved decided_by _ _ =>
            [("approved_by", json_string decided_by)]
          end))
    (for_tool_call call (for_step step (RunEvent_new ToolCallStateChanged at_))).
Definition dispatch (call : ToolCallId) (start : Start) (version : string) (at_ : OffsetDateTime) (e : RunEvent)
    : storeM (ToolCall * N) :=
  match start with
  | StartPending => dispatch_tool_call_with_event call version at_ e
  | LegacyApproved decided_by => dispatch_approved_tool_call_with_event call decided_by version at_ e
  | StartApproved decided_by expected_tool expected_input_hash =>
    dispatch_bound_approved_tool_call_with_event call decided_by expected_tool expected_input_hash at_ e
  end.

(** One burst of progress, in one transaction; a refused append is dropped. *)
Definition record_progress (run : RunId) (call : ToolCallId) (step : StepId) (reported : list Value)
    : execM unit := λ s,
  match reported with
  | [] => (Ok tt, s)
  | _ =>
    let at_ := to_utc (now_at (rs_io s)) in
    let event report :=
      with_payload report (for_tool_call call (for_step step (RunEvent_new ToolProgress at_))) in
    (Ok tt, (append_events run (event <$> reported) s).2)
  end.
Fixpoint record_bursts (run : RunId) (call : ToolCallId) (step : StepId) (bursts : list (list Value))
    : execM unit :=
  match bursts with
  | [] => mret tt
  | reported :: bursts => _ ← record_progress run call step reported; record_bursts run call step bursts
  end.

Record ToolExecutor := MkToolExecutor {
  te_registry : ToolRegistry (Tool:=T);
  te_limits : ExecutionLimits;
}.

(** What the body is given and bounded by, to what its supervision came to. *)
Definition Supervision : Type := T → option Duration → Value → list (list Value) * CallOutcome.

Definition run (te : ToolExecutor) (call : ToolCallId) (start : Start) (context : result ToolError unit)
    (supervise : Supervision) : execM CompletedCall :=
  record ← of_store (load (R:=ToolCall) call);
  _ ← lift (ensure (bool_decide (call_state record = required_state start))
        (NotDispatchable call (call_state record) (required_state start)));
  let step := call_step_id record in
  match resolve_start (te_registry te) start record with
  | Err error => finish call step None (OutcomeFailed (InvocationError_as_failure error))
  | Ok tool =>
    let identity := td_identity (descriptor tool) in
    timeout ← lift (timeout_for identity (td_timeout (descriptor tool)) (te_limits te));
    at_ ← now_utc;
    dispatched ← of_store (dispatch call start (Version_to_string (as_semver (ti_version identity))) at_
      (dispatch_event call step identity start at_));
    match context with
    | Err source => finish call step (Some identity) (OutcomeFailed (ToolError_as_failure source))
    | Ok _ =>
      let ended := supervise tool (ToolTimeout_limit timeout) (call_input dispatched.1) in
      _ ← record_bursts (call_run_id dispatched.1) call step ended.1;
      finish call step (Some identity) ended.2
    end
  end.

Definition execute te call context supervise : execM CompletedCall :=
  run te call StartPending context supervise.
Definition execute_approved te call decided_by context supervise : execM CompletedCall :=
  run te call (LegacyApproved decided_by) context supervise.
Definition execute_bound_approved te call decided_by tool hash context supervise : execM CompletedCall :=
  run te call (StartApproved decided_by tool hash) context supervise.
End executor.
