(* ===== verification/ExecutorSafety.v ===== *)
(** * What the executor promises

    Every run of a call is a sequence of operations of the store; what it answers is what
    is stored; a call is run at most once; and an approved call whose tool does not resolve
    is left as it was. *)

From Stdlib Require Import ZArith ZifyN ZifyBool.
From stdpp Require Import base decidable countable list gmap sets relations strings.
From S2P Require Import Prelude Digest Tool External Trust Policy Lifecycle Domain Records Wire Registry RunStore StoreLaws ClaimLaws StoreSafety ToolError Supervise Executor.

Section promises.
Context `{PlatformLaws, !StoreParams, Faults, !Fresh, !FreshLaws, !Now, DebugFormat}.
Context {T : Type} (descriptor : T → ToolDescriptor).
Abbreviation storeM A := (stateM RunStore StoreError A).
Abbreviation execM A := (stateM RunStore ExecutionError A).

Lemma bind_run {A B} (m : execM A) (f : A → execM B) s r s' :
  (m ≫= f) s = (r, s') →
  (∃ a s1, m s = (Ok a, s1) ∧ f a s1 = (r, s')) ∨ (∃ e, r = Err e ∧ m s = (Err e, s')).
Proof.
  unfold mbind, stateM_bind. destruct (m s) as [[a|e] s1]; intros Hrun; [left; eauto|right].
  injection Hrun as <- <-. eauto.
Qed.

(** ** The operations a run is made of *)

Definition runs_operations {A} (m : execM A) : Prop := ∀ s r s', m s = (r, s') → rtc store_step s s'.

Lemma operations_store {A} (m : storeM A) : operation m → runs_operations (of_store m).
Proof.
  intros Hop s r s' Hrun. apply rtc_once. exists A, m, (m s).1. split; [done|].
  unfold of_store in Hrun. destruct (m s) as [[a|e] s1]; by injection Hrun as <- <-.
Qed.
Lemma operations_pure {A} (m : execM A) : (∀ s, (m s).2 = s) → runs_operations m.
Proof. intros Hm s r s' Hrun. specialize (Hm s). rewrite Hrun in Hm. cbn in Hm. by subst. Qed.
Lemma operations_bind {A B} (m : execM A) (f : A → execM B) :
  runs_operations m → (∀ a, runs_operations (f a)) → runs_operations (m ≫= f).
Proof.
  intros Hm Hf s r s'. unfold mbind, stateM_bind. destruct (m s) as [[a|e] s1] eqn:Hrun.
  - intros Hrest. etrans; [by eapply Hm|by eapply Hf].
  - intros [= <- <-]. by eapply Hm.
Qed.
Lemma operations_inv {A} (m : execM A) s r s' :
  runs_operations m → store_wf s → m s = (r, s') → store_wf s' ∧ extends (rs_tables s) (rs_tables s').
Proof. intros Hm Hwf Hrun. eapply store_steps_keep; [done|by eapply Hm]. Qed.

Definition persist_operation (call : ToolCallId) (step : StepId) (o : CallOutcome) (at_ : OffsetDateTime)
    : storeM (ToolCall * N) :=
  let event := state_event call step at_ in
  match o with
  | OutcomeSucceeded output => succeed_tool_call_with_event call output at_ (event CallSucceeded json_null)
  | OutcomeFailed failure =>
    fail_tool_call_with_event call failure at_ (event CallFailed (json_object
      [("kind", json_string (failure_kind failure)); ("message", json_string (failure_message failure))]))
  | OutcomeCancelled => transition_tool_call_with_event call CallCancelled at_ (event CallCancelled json_null)
  | OutcomeInterrupted => transition_tool_call_with_event call CallInterrupted at_ (event CallInterrupted json_null)
  | OutcomeTimedOut limit =>
    let failure := ToolError_as_failure (TimedOut limit) in
    fail_tool_call_with_event call failure at_ (event CallFailed (json_object
      [("kind", json_string (failure_kind failure)); ("timeout_ms", json_number (millis limit))]))
  end.
Lemma persist_eq call step o at_ :
  persist call step o at_ = (recorded ← persist_operation call step o at_; mret recorded.1).
Proof. by destruct o. Qed.
Lemma persist_is_operation call step o at_ : operation (persist_operation call step o at_).
Proof.
  destruct o; [apply op_succeed_call_with_event|apply op_fail_call_with_event|apply op_transition_call_with_event
    |apply op_transition_call_with_event|apply op_fail_call_with_event].
Qed.
Lemma persist_runs call step o at_ s r s' :
  persist call step o at_ s = (r, s') →
  ∃ r0, persist_operation call step o at_ s = (r0, s') ∧ ∀ e, r = Err e ↔ r0 = Err e.
Proof.
  rewrite persist_eq. unfold mbind, stateM_bind. destruct (persist_operation call step o at_ s) as [[[c n]|e] s1].
  - intros [= <- <-]. eexists. split; [done|]. by intros e.
  - intros [= <- <-]. eexists. split; [done|]. intros e'. split; by intros [= ->].
Qed.
Lemma operations_recorded call step tool o at_ : runs_operations (recorded_as_outcome call step tool o at_).
Proof.
  apply operations_bind; [|intros; by apply operations_pure]. intros s r s' Hrun.
  unfold of_store in Hrun. destruct (persist call step o at_ s) as [x s1] eqn:Hp.
  apply persist_runs in Hp as (r0 & Hp & _). destruct x as [c|e]; injection Hrun as <- <-;
    apply rtc_once; exists (ToolCall * N)%type, (persist_operation call step o at_), r0;
    (split; [apply persist_is_operation|exact Hp]).
Qed.
Lemma operations_finish call step tool o : runs_operations (finish call step tool o).
Proof.
  apply operations_bind; [by apply operations_pure|]. intros at_ s r s'. unfold finish_at.
  destruct (recorded_as_outcome call step tool o at_ s) as [x s1] eqn:Hrec.
  apply operations_recorded in Hrec. destruct x as [done_|e]; [by intros [= <- <-]|].
  destruct e as [e| | | |]; try by intros [= <- <-].
  destruct e; try by intros [= <- <-]. destruct (succeeded o); [|by intros [= <- <-]].
  intros Hrec2. etrans; [exact Hrec|]. by eapply operations_recorded.
Qed.
Lemma operations_progress run call step reported : runs_operations (record_progress run call step reported).
Proof.
  intros s r s'. unfold record_progress. destruct reported as [|v reported]; [by intros [= <- <-]|].
  set (es := _ <$> _). intros [= <- <-]. apply rtc_once. exists (list N), (append_events run es), (append_events run es s).1.
  split; [apply op_append_events|by destruct (append_events run es s)].
Qed.
Lemma operations_bursts run call step bursts : runs_operations (record_bursts run call step bursts).
Proof.
  induction bursts as [|b bursts IH]; [by apply operations_pure|]. cbn.
  apply operations_bind; [apply operations_progress|]. intros _. exact IH.
Qed.
Lemma operations_dispatch call start version at_ e : runs_operations (of_store (dispatch call start version at_ e)).
Proof.
  apply operations_store. destruct start; [apply op_dispatch_call|apply op_dispatch_approved|apply op_dispatch_bound].
Qed.
Lemma operations_run te call start context supervise : runs_operations (run descriptor te call start context supervise).
Proof.
  apply operations_bind; [apply operations_store, op_load_call|]. intros record.
  apply operations_bind; [by apply operations_pure|]. intros _.
  destruct (resolve_start _ _ _) as [tool|error]; [|apply operations_finish].
  apply operations_bind; [by apply operations_pure|]. intros timeout.
  apply operations_bind; [by apply operations_pure|]. intros at_.
  apply operations_bind; [apply operations_dispatch|]. intros dispatched.
  destruct context as [u|source]; [|apply operations_finish].
  apply operations_bind; [apply operations_bursts|]. intros _. apply operations_finish.
Qed.

(** ** How an outcome is recorded *)

(** What the row of a call says of how it ended. *)
Definition row_says (o : CallOutcome) (c : ToolCall) : Prop :=
  call_state c = recorded_state o ∧
  match o with
  | OutcomeSucceeded output => call_output c = Some (redact_payload output)
  | OutcomeFailed failure => call_failure c = Some (redact_failure failure)
  | OutcomeTimedOut limit => call_failure c = Some (redact_failure (ToolError_as_failure (TimedOut limit)))
  | OutcomeCancelled | OutcomeInterrupted => True
  end.
Definition persist_method (o : CallOutcome) (at_ : OffsetDateTime) : stateM ToolCall RunDomainError unit :=
  match o with
  | OutcomeSucceeded output => ToolCall_succeed (redact_output output) at_
  | OutcomeFailed failure => ToolCall_fail (redact_failure failure) at_
  | OutcomeCancelled => ToolCall_transition CallCancelled at_
  | OutcomeInterrupted => ToolCall_transition CallInterrupted at_
  | OutcomeTimedOut limit => ToolCall_fail (redact_failure (ToolError_as_failure (TimedOut limit))) at_
  end.
Lemma persist_method_still o at_ c c' : persist_method o at_ c = (Ok tt, c') → call_still c c'.
Proof. destruct o; cbn [persist_method]; [apply succeed_still|apply fail_still|apply transition_still|apply transition_still|apply fail_still]. Qed.
Lemma persist_method_Ok o at_ c c' :
  persist_method o at_ c = (Ok tt, c') → row_says o c' ∧ (call_state c, recorded_state o) ∈ TOOL_CALL_TRANSITIONS.
Proof.
  unfold row_says. destruct o; cbn [persist_method recorded_state]; unfold ToolCall_succeed, ToolCall_fail, ToolCall_transition;
    intros Hm; method_inv Hm;
    repeat match goal with Hmv : moved _ _ _ |- _ => apply moved_inv in Hmv as (? & ? & _) end; by split_and!.
Qed.

(** The event that says a call ended. *)
Definition end_event (call : ToolCallId) (step : StepId) (at_ : OffsetDateTime) (o : CallOutcome) (e : RunEvent) : Prop :=
  ∃ detail, recorded_as (state_event call step at_ (recorded_state o) detail) e.

Record ended (call : ToolCallId) (step : StepId) (o : CallOutcome) (c : ToolCall) (s : RunStore) : Prop := {
  en_stored : tb_calls (rs_tables s) !! call = Some c;
  en_says : row_says o c;
  en_event : ∃ n e at_, last (tb_events (rs_tables s)) = Some (MkStoredEvent (call_run_id c) n e)
    ∧ end_event call step at_ o e;
}.

Lemma persist_change call step o at_ : ∃ detail,
  persist_operation call step o at_
  = change_tool_call_with_event call (state_event call step at_ (recorded_state o) detail) (persist_method o at_).
Proof. destruct o; eexists; reflexivity. Qed.
Lemma persist_Ok call step o at_ s c s' :
  store_wf s → persist call step o at_ s = (Ok c, s') →
  ended call step o c s' ∧ ∃ c0, tb_calls (rs_tables s) !! call = Some c0 ∧
    (call_state c0, recorded_state o) ∈ TOOL_CALL_TRANSITIONS.
Proof.
  rewrite persist_eq. destruct (persist_change call step o at_) as [detail ->].
  intros Hwf ([c' n] & s1 & Hrun & [-> ->]%ret_Ok)%bindM_Ok. cbn [fst].
  apply change_tool_call_Ok in Hrun as (c0 & e' & Hc0 & Hm & Hca & _ & _ & _ & He & Hn & Hev);
    [|done|by apply persist_method_still].
  pose proof (persist_method_still _ _ _ _ Hm) as [(_ & Hr & _)%call_step_frame _].
  apply persist_method_Ok in Hm as [Hsays Hedge]. split; [|by exists c0]. split.
  - by rewrite Hca, lookup_insert_eq.
  - done.
  - exists n, e', at_. rewrite Hev, last_snoc, Hr. split; [done|]. by exists detail.
Qed.

(** The outcome recorded for one that was reported: itself, or the failure that a result
    larger than the store holds becomes. *)
Definition recorded_for (reported o : CallOutcome) : Prop :=
  o = reported ∨ succeeded reported = true ∧ ∃ bytes, o = oversized_result bytes.

Lemma recorded_Ok call step tool o at_ s done_ s' :
  store_wf s → recorded_as_outcome call step tool o at_ s = (Ok done_, s') →
  cc_tool done_ = tool ∧ cc_outcome done_ = o ∧ ended call step o (cc_record done_) s'.
Proof.
  intros Hwf (c & s1 & Hp & [-> ->]%ret_Ok)%bindM_Ok. split; [done|]. split; [done|].
  unfold of_store in Hp. destruct (persist call step o at_ s) as [[c1|e] s2] eqn:Hrun; [|done].
  injection Hp as <- <-. by apply persist_Ok in Hrun as [? _].
Qed.
Lemma finish_at_refused call step tool o at_ s e s1 :
  persist call step o at_ s = (Err e, s1) → succeeded o = false →
  finish_at call step tool o at_ s = (Err (ExecStore e), s1).
Proof.
  intros Hp Ho. unfold finish_at, recorded_as_outcome, of_store, mbind, stateM_bind. rewrite Hp.
  destruct e; try done. by rewrite Ho.
Qed.
Lemma finish_Ok call step tool o s done_ s' :
  store_wf s → finish call step tool o s = (Ok done_, s') →
  cc_tool done_ = tool ∧ recorded_for o (cc_outcome done_) ∧ ended call step (cc_outcome done_) (cc_record done_) s'.
Proof.
  intros Hwf (at_ & s0 & Hn & Hf)%bindM_Ok. injection Hn as _ <-. unfold finish_at in Hf.
  destruct (recorded_as_outcome call step tool o at_ s) as [[d|e] s1] eqn:Hrec.
  - injection Hf as -> ->. apply recorded_Ok in Hrec as (? & Ho & ?); [|done]. rewrite Ho.
    split; [done|]. split; [by left|done].
  - destruct e as [e| | | |]; try discriminate Hf. destruct e; try discriminate Hf.
    destruct (succeeded o) eqn:Hs; [|discriminate Hf].
    assert (store_wf s1) as Hwf1 by (eapply operations_inv; [apply operations_recorded|done|exact Hrec]).
    apply recorded_Ok in Hf as (? & Ho & ?); [|done]. rewrite Ho. split; [done|]. split; [|done].
    right. split; [done|]. by eexists.
Qed.

(** ** What a run answers *)

Lemma of_store_Ok {A} (m : storeM A) s a s' : of_store m s = (Ok a, s') ↔ m s = (Ok a, s').
Proof. unfold of_store. destruct (m s) as [[b|e] s1]; split; intros Hm; congruence. Qed.
Lemma load_call_Ok call s c s' :
  load (R:=ToolCall) call s = (Ok c, s') → tb_calls (rs_tables s) !! call = Some c ∧ s' = tick s.
Proof.
  intros [-> Hr]%with_reader_spec. specialize (Hr c eq_refl).
  destruct (load_row call (rs_tables s)) as [x t] eqn:Hl. cbn in Hr. subst x.
  by apply (load_row_Ok (step:=call_step)) in Hl as (_ & ? & _).
Qed.

(** The request of a dispatched call is the one recorded. *)
Lemma dispatch_Ok_call call start version at_ e s c n s' :
  store_wf s → dispatch call start version at_ e s = (Ok (c, n), s') →
  ∃ c0, tb_calls (rs_tables s) !! call = Some c0 ∧ call_step c0 c ∧ tb_calls (rs_tables s') !! call = Some c
    ∧ call_state c = CallRunning.
Proof.
  assert (∀ s who tool hash, store_wf s →
    dispatch_bound_approved_tool_call_with_event call who tool hash at_ e s = (Ok (c, n), s') →
    ∃ c0, tb_calls (rs_tables s) !! call = Some c0 ∧ call_step c0 c ∧ tb_calls (rs_tables s') !! call = Some c
      ∧ call_state c = CallRunning) as Hbound.
  { intros s1 who tool hash Hwf Hrun.
    apply (change_call_Ok _ _ (bound_start call who tool hash at_) _ call_step) in Hrun as (Hch & Hca & _);
      [|done|apply quiet_run_of|apply bound_start_moves|apply dispatch_writes].
    apply bound_start_Ok in Hch as (_ & c0 & Hc0 & _ & Hm).
    pose proof (dispatch_approved_Ok _ _ _ _ _ Hm) as (_ & Hst & _).
    apply call_does_dispatch_approved in Hm. pose proof (call_step_frame _ _ Hm) as (Hid & _).
    assert (call_id c0 = call) as Hcid by by apply (wf_calls _ (sw_tables _ Hwf)).
    exists c0. by rewrite Hca, Hid, Hcid, lookup_insert_eq. }
  intros Hwf. destruct start as [|who|who tool hash]; [|unfold dispatch|by apply Hbound].
  - intros Hrun. assert (moves_stored (step:=call_step) (loaded_and_moved call (ToolCall_dispatch version at_))) as Hmv
      by (apply loaded_moves; eauto using call_step).
    apply (change_call_Ok _ _ _ _ call_step) in Hrun as (Hch & Hca & _);
      [|done|apply quiet_run_of|done|apply dispatch_writes].
    apply (loaded_and_moved_Ok (step:=call_step)) in Hch as (_ & c0 & Hc0 & _ & Hm).
    pose proof (dispatch_Ok _ _ _ _ Hm) as (_ & Hst & _).
    apply call_does_dispatch in Hm. pose proof (call_step_frame _ _ Hm) as (Hid & _).
    assert (call_id c0 = call) as Hcid by by apply (wf_calls _ (sw_tables _ Hwf)).
    exists c0. by rewrite Hca, Hid, Hcid, lookup_insert_eq.
  - intros (c1 & s1 & [_ ->]%load_call_Ok & (tool & s2 & [_ ->]%lift_Ok & (hash & s3 & [_ ->]%lift_Ok & Hrun)%bindM_Ok)%bindM_Ok)%bindM_Ok.
    apply Hbound in Hrun; [exact Hrun|]. apply (store_wf_later s); [done|apply later_tick|done].
Qed.

(** What the outcome of a run comes from. *)
Definition reported_by (te : ToolExecutor) (start : Start) (context : result ToolError unit)
    (supervise : Supervision) (c : ToolCall) (tool : option ToolIdentity) (reported : CallOutcome) : Prop :=
  match resolve_start (te_registry te) start c with
  | Err error => tool = None ∧ reported = OutcomeFailed (InvocationError_as_failure error)
  | Ok t =>
    tool = Some (td_identity (descriptor t)) ∧
    match context with
    | Err source => reported = OutcomeFailed (ToolError_as_failure source)
    | Ok _ => ∃ timeout,
      timeout_for (td_identity (descriptor t)) (td_timeout (descriptor t)) (te_limits te) = Ok timeout ∧
      reported = (supervise t (ToolTimeout_limit timeout) (call_input c)).2
    end
  end.

Lemma run_Ok te call start context supervise s d s' :
  store_wf s → run descriptor te call start context supervise s = (Ok d, s') →
  ∃ c reported, tb_calls (rs_tables s) !! call = Some c ∧ call_state c = required_state start ∧
    reported_by te start context supervise c (cc_tool d) reported ∧
    recorded_for reported (cc_outcome d) ∧
    ended call (call_step_id c) (cc_outcome d) (cc_record d) s'.
Proof.
  intros Hwf (c & s1 & [Hc ->]%of_store_Ok%load_call_Ok & Hrun)%bindM_Ok.
  apply bindM_Ok in Hrun as (u & s1 & [Hst ->]%lift_Ok & Hrun). apply ensure_Ok, bool_decide_eq_true in Hst.
  assert (store_wf (tick s)) as Hwf1 by (apply (store_wf_later s); [done|apply later_tick|done]).
  exists c. unfold reported_by. destruct (resolve_start (te_registry te) start c) as [tool|error].
  2: { apply finish_Ok in Hrun as (? & ? & ?); [|done]. eexists. split_and!; done. }
  apply bindM_Ok in Hrun as (timeout & s1 & [Ht ->]%lift_Ok & Hrun).
  apply bindM_Ok in Hrun as (at_ & s1 & Hn & Hrun). injection Hn as _ <-.
  apply bindM_Ok in Hrun as ([c' n] & s2 & Hd%of_store_Ok & Hrun).
  assert (store_wf s2) as Hwf2.
  { eapply (operations_inv (of_store _)); [apply operations_dispatch|exact Hwf1|]. by apply of_store_Ok. }
  apply dispatch_Ok_call in Hd as (c0 & Hc0 & Hs & _ & _); [|done]. cbn [rs_tables tick] in Hc0.
  rewrite Hc in Hc0. injection Hc0 as <-. pose proof (call_step_frame _ _ Hs) as (_ & _ & _ & _ & Hin & _).
  destruct context as [v|source].
  - apply bindM_Ok in Hrun as (w & s3 & Hb & Hrun). cbn [fst] in *.
    assert (store_wf s3) as Hwf3 by (eapply operations_inv; [apply operations_bursts|done|exact Hb]).
    apply finish_Ok in Hrun as (? & ? & ?); [|done]. eexists. split_and!; [done..| |done|done].
    exists timeout. split; [done|]. by rewrite Hin.
  - apply finish_Ok in Hrun as (? & ? & ?); [|done]. eexists. split_and!; done.
Qed.

(** C19. A completed call is recorded before it is reported: when a run of a call answers, the
    stored row is the one it answers with, in the terminal state of its outcome and with its
    output or failure, redacted; the last event of the log says so; and the outcome is what
    resolving, building the context or supervising the body with the recorded input came to,
    or the recorded failure that a result too large to store becomes. *)
Theorem completed_call_is_recorded te call start context supervise s d s' :
  store_wf s → run descriptor te call start context supervise s = (Ok d, s') →
  ∃ c reported, tb_calls (rs_tables s) !! call = Some c ∧ call_state c = required_state start ∧
    reported_by te start context supervise c (cc_tool d) reported ∧
    recorded_for reported (cc_outcome d) ∧
    tb_calls (rs_tables s') !! call = Some (cc_record d) ∧
    ToolCallState_is_terminal (call_state (cc_record d)) = true ∧
    row_says (cc_outcome d) (cc_record d) ∧
    ∃ n e at_, last (tb_events (rs_tables s')) = Some (MkStoredEvent (call_run_id (cc_record d)) n e)
      ∧ end_event call (call_step_id c) at_ (cc_outcome d) e.
Proof.
  intros Hwf (c & reported & ? & ? & ? & ? & [Hst Hsays Hev])%run_Ok; [|done]. exists c, reported.
  split_and!; try done. destruct Hsays as [-> _]. by destruct (cc_outcome d).
Qed.

(** A call is run at most once: after a run of a call answered, every later run of it is
    refused, by any entry point, whatever tool, context and body it is given and whatever
    happened to the store in between, and a refused run changes no row and no event. *)
Theorem completed_call_is_not_run_again te call start context supervise s d s1 s2
    te' start' context' supervise' r s3 :
  store_wf s → run descriptor te call start context supervise s = (Ok d, s1) → rtc store_step s1 s2 →
  run descriptor te' call start' context' supervise' s2 = (r, s3) →
  (∃ e, r = Err e) ∧ rs_tables s3 = rs_tables s2.
Proof.
  intros Hwf Hrun Hsteps Hrun'.
  assert (store_wf s1) as Hwf1 by (eapply operations_inv; [apply operations_run|done|exact Hrun]).
  apply run_Ok in Hrun as (c & rep & _ & _ & _ & _ & [Hc1 [Hst _] _]); [|done].
  destruct (store_steps_keep s1 s2 Hwf1 Hsteps) as [_ Hex].
  destruct (ex_calls _ _ Hex call _ Hc1) as (c2 & Hc2 & Hcc).
  assert (was_started c2) as [Hp Ha].
  { eapply started_stays; [|done]. unfold was_started. rewrite Hst. by destruct (cc_outcome d). }
  unfold run in Hrun'. apply bind_run in Hrun' as [(record & s4 & Hl & Hrest)|(e & -> & Hl)].
  - rewrite of_store_Ok in Hl. apply load_call_Ok in Hl as [Hc ->]. cbn in Hc. rewrite Hc2 in Hc. injection Hc as <-.
    assert (call_state c2 ≠ required_state start') as Hne by (by destruct start').
    rewrite bool_decide_eq_false_2 in Hrest by done. injection Hrest as <- <-. split; [by eexists|done].
  - split; [by eexists|]. unfold of_store in Hl. destruct (load call s2) as [[x|x] s4] eqn:Hload; [done|].
    apply with_reader_spec in Hload as [-> _]. by injection Hl as _ <-.
Qed.

(** C26. An approved call whose tool does not resolve stays where it was: the failure cannot
    be recorded, since the domain has no way from awaiting approval to failed, so the run
    answers an error of the store and the call goes on awaiting approval. *)
Theorem approved_call_without_its_tool_is_stuck te call start context supervise s c error :
  store_wf s → tb_calls (rs_tables s) !! call = Some c → call_state c = AwaitingApproval →
  start ≠ StartPending → resolve_start (te_registry te) start c = Err error →
  ∃ e s', run descriptor te call start context supervise s = (Err (ExecStore e), s')
    ∧ rs_tables s' = rs_tables s.
Proof.
  intros Hwf Hc Hst Hstart Herr.
  destruct (run descriptor te call start context supervise s) as [r s'] eqn:Hrun.
  apply bind_run in Hrun as [(record & s1 & Hl & Hrest)|(e & -> & Hl)].
  2: { unfold of_store in Hl. destruct (load call s) as [[x|x] s1] eqn:Hload; [done|].
    apply with_reader_spec in Hload as [-> _]. injection Hl as <- <-. by exists x, (tick s). }
  rewrite of_store_Ok in Hl. apply load_call_Ok in Hl as [Hc' ->]. rewrite Hc in Hc'. injection Hc' as <-.
  assert (store_wf (tick s)) as Hwf1 by (apply (store_wf_later s); [done|apply later_tick|done]).
  rewrite bool_decide_eq_true_2 in Hrest by (by destruct start).
  apply bind_run in Hrest as [(u & s1 & [_ ->]%lift_Ok & Hrest)|(e & -> & Hl)]; [|done].
  cbn beta in Hrest. rewrite Herr in Hrest.
  apply bind_run in Hrest as [(at_ & s1 & Hn & Hrest)|(e & -> & Hn)]; [|done]. injection Hn as _ <-.
  set (o := OutcomeFailed _) in Hrest.
  destruct (persist call (call_step_id c) o at_ (tick s)) as [[c1|e] s1] eqn:Hp.
  - apply persist_Ok in Hp as (_ & c0 & Hc0 & Hedge); [|done]. cbn in Hc0. rewrite Hc in Hc0. injection Hc0 as <-.
    rewrite Hst in Hedge. cbn in Hedge. unfold TOOL_CALL_TRANSITIONS in Hedge.
    repeat (apply elem_of_cons in Hedge as [Heq|Hedge]; [discriminate Heq|]). by apply not_elem_of_nil in Hedge.
  - pose proof Hp as Hrefused. apply persist_runs in Hp as (r0 & Hp & He).
    assert (r0 = Err e) as -> by by apply He.
    destruct (operation_keeps _ (persist_is_operation _ _ _ _) _ _ _ Hwf1 Hp) as (_ & _ & _ & Htab).
    specialize (Htab e eq_refl). exists e, s1. split; [|exact Htab].
    rewrite <- Hrest. by apply finish_at_refused.
Qed.
End promises.

(** ** Concrete runs *)

#[export] Instance demo_now : Now := λ n, demo_at (Z.of_nat n).
Definition demo_descriptor : ToolDescriptor := demo_registered "fs.read" 5 false.
Definition demo_executor : ToolExecutor (T:=ToolDescriptor) :=
  MkToolExecutor (after (register_erased id demo_descriptor) ToolRegistry_new) ExecutionLimits_default.
Definition demo_unregistered : ToolExecutor (T:=ToolDescriptor) :=
  MkToolExecutor ToolRegistry_new ExecutionLimits_default.
(** A body that reports once and succeeds. *)
Definition demo_body : Supervision (T:=ToolDescriptor) := λ _ _ _,
  ([[demo_value "half"]], OutcomeSucceeded (demo_value "text")).
Definition demo_run_of (te : ToolExecutor) (start : Start) (s : RunStore) :
    result ExecutionError CompletedCall * RunStore :=
  run id te demo_id start (Ok tt) demo_body s.
Definition answers {A B} (r : result A B) : bool := match r with Ok _ => true | Err _ => false end.
Lemma answers_Ok {A B S} (x : result A B * S) : answers x.1 = true → ∃ b, x = (Ok b, x.2).
Proof. destruct x as [[b|a] s]; [by exists b|done]. Qed.

Lemma completed_call_is_recorded_witness : ∃ d,
  demo_run_of demo_executor StartPending demo_built
    = (Ok d, (demo_run_of demo_executor StartPending demo_built).2) ∧
  tb_calls (rs_tables (demo_run_of demo_executor StartPending demo_built).2) !! demo_id = Some (cc_record d) ∧
  ToolCallState_is_terminal (call_state (cc_record d)) = true.
Proof.
  assert (answers (demo_run_of demo_executor StartPending demo_built).1 = true) as Ha by reflexivity.
  destruct (answers_Ok _ Ha) as [d Hd]. exists d. split; [exact Hd|].
  destruct (completed_call_is_recorded id demo_executor demo_id StartPending (Ok tt) demo_body demo_built d _
    demo_built_wf Hd) as (c & rep & _ & _ & _ & _ & Hrow & Hend & _).
  split; [exact Hrow|exact Hend].
Defined.

Lemma completed_call_is_not_run_again_witness : ∃ e,
  (demo_run_of demo_executor StartPending (demo_run_of demo_executor StartPending demo_built).2).1 = Err e.
Proof.
  assert (answers (demo_run_of demo_executor StartPending demo_built).1 = true) as Ha by reflexivity.
  destruct (answers_Ok _ Ha) as [d Hd].
  set (s1 := (demo_run_of demo_executor StartPending demo_built).2) in *.
  destruct (completed_call_is_not_run_again id demo_executor demo_id StartPending (Ok tt) demo_body demo_built d s1 s1
    demo_executor StartPending (Ok tt) demo_body (demo_run_of demo_executor StartPending s1).1
    (demo_run_of demo_executor StartPending s1).2 demo_built_wf Hd (rtc_refl _ _)) as [He _];
    [apply surjective_pairing|exact He].
Defined.

Lemma approved_call_without_its_tool_is_stuck_witness : ∃ e s',
  demo_run_of demo_unregistered (LegacyApproved "reviewer") demo_asked = (Err (ExecStore e), s') ∧
  rs_tables s' = rs_tables demo_asked.
Proof.
  assert (∃ c, tb_calls (rs_tables demo_asked) !! demo_id = Some c ∧ call_state c = AwaitingApproval
    ∧ resolve_start (te_registry demo_unregistered) (LegacyApproved "reviewer") c
      = Err (Resolution (UnknownTool "fs.read"))) as (c & Hc & Hst & Hres).
  { eexists. split; [reflexivity|]. split; reflexivity. }
  apply (approved_call_without_its_tool_is_stuck id demo_unregistered demo_id (LegacyApproved "reviewer") (Ok tt)
    demo_body demo_asked c (Resolution (UnknownTool "fs.read")) demo_asked_wf Hc Hst); [discriminate|exact Hres].
Defined.
