(* ===== verification/Recovery.v ===== *)
(** * The startup sweep

    Models [src/crates/harkness-runtime/src/coordinator/lease.rs], [coordinator/recovery.rs]
    and [coordinator/error.rs]: a claim is a row and a lock file that the kernel lets go of
    when its holder dies; a starting coordinator asks about the claim of every unfinished
    run, once per claim, and ends the runs whose claim is provably dead.

    What the file system answers is a parameter: which opens, locks and removals fail.  The
    difference of two instants is one too, as [time] computes it. *)

From Stdlib Require Import ZArith.
From stdpp Require Import base decidable countable list gmap sets relations strings.
From S2P Require Import Prelude Digest Tool External Trust Policy Approval Matcher Gate Lifecycle Domain Records Wire RunStore StoreClaims Interrupt.

Definition LEASE_RENEW_INTERVAL : Z := 15 * 1000000000.
Definition LEASE_EXPIRY_GRACE : Z := 45 * 1000000000.

(** [OffsetDateTime] minus [OffsetDateTime], in nanoseconds. *)
Class Intervals `{Platform} := since : OffsetDateTime → OffsetDateTime → Z.

(** ** Locks ([lease.rs]) *)

Inductive Liveness := Held | Unlocked | Unknown (reason : string).
#[export] Instance Liveness_eq_dec : EqDecision Liveness.
Proof. solve_decision. Defined.
(** What [try_lock] answers. *)
Inductive TryLock := LockTaken | LockBusy | LockFailed (reason : string).
(** A lease's lock file: whether a process holds it, and when it was last written. *)
Record LockFile := MkLockFile { lf_held : bool; lf_modified : Z }.

Section recovery.
Context `{Platform, !StoreParams, Faults, !Fresh, !Intervals}.
Abbreviation Locks := (gmap LeaseId LockFile).
Abbreviation ApprovalGate := (gmap ApprovalId (option ApprovalObservation)).

Class FileSystem := {
  (** A file that cannot be created or opened, though it is absent or there; a lock that
      fails, other than by being held. *)
  open_error : LeaseId → option string;
  lock_error : LeaseId → option string;
  (** A name that cannot be unlinked, and metadata that cannot be read. *)
  unlink_fails : LeaseId → bool;
  metadata_fails : LeaseId → bool;
  read_dir_fails : bool;
}.
Context `{!FileSystem}.

Inductive RuntimeError :=
| StoreFailed (e : StoreError)
| WorkspaceIdentityRequired (task : TaskId)
| WorkspaceMismatch (task : TaskId)
| WorkspaceUnavailable (task : TaskId) (reason : string)
| WorkerSpawn (run : RunId) (reason : string)
| RunNotActive (run : RunId)
| ApprovalNotActive (approval : ApprovalId)
| LeaseUnavailable (reason : string)
| RunStillActive (run : RunId)
| RunNotRetryable (run : RunId) (state : ExecutionState).

Definition RuntimeError_kind (store_kind : StoreError → string) (e : RuntimeError) : string :=
  match e with
  | StoreFailed e => store_kind e
  | WorkspaceIdentityRequired _ => "workspace_identity_required"
  | WorkspaceMismatch _ => "workspace_mismatch"
  | WorkspaceUnavailable _ _ => "workspace_unavailable"
  | WorkerSpawn _ _ => "worker_spawn_failed"
  | RunNotActive _ => "run_not_active"
  | ApprovalNotActive _ => "approval_not_active"
  | LeaseUnavailable _ => "lease_unavailable"
  | RunStillActive _ => "run_still_active"
  | RunNotRetryable _ _ => "run_not_retryable"
  end.

Definition probe (locks : Locks) (id : LeaseId) : Liveness :=
  match locks !! id with
  | None => Unlocked
  | Some file =>
    match open_error id with
    | Some reason => Unknown reason
    | None =>
      match lock_error id with
      | Some reason => Unknown reason
      | None => if lf_held file then Held else Unlocked
      end
    end
  end.

Definition interruption_reason (lease : option LeaseRecord) (liveness : Liveness) (now : OffsetDateTime)
    : option InterruptionReason :=
  match lease with
  | None => Some NoLease
  | Some lease =>
    if is_released lease then Some LeaseReleased
    else
      match liveness with
      | Held => None
      | Unlocked => Some LeaseLockReleased
      | Unknown _ => if (LEASE_EXPIRY_GRACE <? since now (le_renewed_at lease))%Z then Some LeaseExpired else None
      end
  end.

(** Taking a fresh claim: a file nobody has opened, then its lock, before any row names it.
    A lock taken on a file that has been unlinked in between is a lock on no name. *)
Definition create_lease (id : LeaseId) (now : Z) (locks : Locks) : result RuntimeError unit * Locks :=
  match open_error id, locks !! id with
  | None, None => (Ok tt, <[id := MkLockFile false now]> locks)
  | _, _ => (Err (LeaseUnavailable "the lease file could not be created"), locks)
  end.
Definition lock_lease (id : LeaseId) (locks : Locks) : result RuntimeError unit * Locks :=
  match lock_error id, locks !! id with
  | Some reason, _ => (Err (LeaseUnavailable reason), locks)
  | None, Some (MkLockFile true _) => (Err (LeaseUnavailable "a new lease file was already locked"), locks)
  | None, _ => (Ok tt, alter (λ file, MkLockFile true (lf_modified file)) id locks)
  end.
Definition acquire (id : LeaseId) (pid : N) (at_ : OffsetDateTime) (now : Z) (locks : Locks)
    : result RuntimeError LeaseRecord * Locks :=
  match create_lease id now locks with
  | (Err e, locks) => (Err e, locks)
  | (Ok _, locks) =>
    match lock_lease id locks with
    | (Err e, locks) => (Err e, locks)
    | (Ok _, locks) => (Ok (LeaseRecord_acquired id pid at_), locks)
    end
  end.
(** Its holder letting it go, as the kernel does for one that died but for the file. *)
Definition unlock (id : LeaseId) (locks : Locks) : Locks :=
  alter (λ file, MkLockFile false (lf_modified file)) id locks.
Definition discard (id : LeaseId) (locks : Locks) : Locks :=
  if unlink_fails id then locks else delete id locks.
Definition release_lock (id : LeaseId) (locks : Locks) : Locks := discard id (unlock id locks).

(** [now.duration_since(modified).is_ok_and(|age| age < GRACE)]: an error when the file was
    written after [now]. *)
Definition young (now : Z) (id : LeaseId) (file : LockFile) : bool :=
  negb (metadata_fails id) && (lf_modified file <=? now)%Z && (now - lf_modified file <? LEASE_EXPIRY_GRACE)%Z.
Definition collect_one (now : Z) (locks : Locks) (entry : LeaseId * LockFile) : Locks :=
  let '(id, file) := entry in
  if young now id file then locks
  else
    match open_error id, lock_error id with
    | None, None => if lf_held file then locks else discard id locks
    | _, _ => locks
    end.
Definition collect_dead_files (now : Z) (locks : Locks) : Locks :=
  if read_dir_fails then locks else foldl (collect_one now) locks (map_to_list locks).

(** The lock one sweep runs under, asked for until the deadline has passed: [None] when it
    stayed busy. *)
Fixpoint acquire_recovery (attempt : nat → TryLock) (asked polls : nat) : result RuntimeError (option unit) :=
  match attempt asked with
  | LockTaken => Ok (Some tt)
  | LockFailed reason => Err (LeaseUnavailable reason)
  | LockBusy =>
    match polls with
    | O => Ok None
    | S polls => acquire_recovery attempt (S asked) polls
    end
  end.

(** ** The sweep ([recovery.rs]) *)

(** The error itself, for its kind and message. *)
Record RecoveryFailure := MkRecoveryFailure { rf_run : RunId; rf_error : StoreError }.
Record RecoveryReport := MkRecoveryReport {
  interrupted_runs : list RunId;
  expired_approvals : list ApprovalId;
  failures : list RecoveryFailure;
  was_contended : bool;
}.
Definition RecoveryReport_default : RecoveryReport := MkRecoveryReport [] [] [] false.
Definition report_is_empty (r : RecoveryReport) : bool :=
  negb (was_contended r) && bool_decide (interrupted_runs r = []) && bool_decide (length (failures r) = 0).
Definition report_failure (run : RunId) (e : StoreError) (r : RecoveryReport) : RecoveryReport :=
  MkRecoveryReport (interrupted_runs r) (expired_approvals r) (failures r ++ [MkRecoveryFailure run e]) (was_contended r).
Definition report_interruption (i : RunInterruption) (r : RecoveryReport) : RecoveryReport :=
  MkRecoveryReport (interrupted_runs r ++ [in_run i]) (expired_approvals r ++ (ar_id <$> in_approvals i))
    (failures r) (was_contended r).

Abbreviation Examined := (gmap LeaseId (option LeaseRecord * Liveness)).
(** What a sweep works on: the store, the gate of this process, the claims it asked about,
    and its report. *)
Record Sweep := MkSweep {
  sw_store : RunStore;
  sw_gate : ApprovalGate;
  sw_examined : Examined;
  sw_report : RecoveryReport;
}.
Definition sweep_fails (run : RunId) (e : StoreError) (w : Sweep) : Sweep :=
  MkSweep (sw_store w) (sw_gate w) (sw_examined w) (report_failure run e (sw_report w)).

(** The claim of a run, read and probed once however many runs name it; [None] when its
    row cannot be read, which is reported against the run. *)
Definition examine (locks : Locks) (run : RunId) (owner : option LeaseId) (w : Sweep)
    : option (option LeaseRecord * Liveness) * Sweep :=
  match owner with
  | None => (Some (None, Unlocked), w)
  | Some id =>
    match sw_examined w !! id with
    | Some known => (Some known, w)
    | None =>
      match lease id (sw_store w) with
      | (Ok record, s) =>
        let known := (record, probe locks id) in
        (Some known, MkSweep s (sw_gate w) (<[id := known]> (sw_examined w)) (sw_report w))
      | (Err e, s) => (None, sweep_fails run e (MkSweep s (sw_gate w) (sw_examined w) (sw_report w)))
      end
    end
  end.
Definition resolve_all (requests : list ApprovalRequest) (gate : ApprovalGate) : ApprovalGate :=
  foldl (λ gate r, (resolve_from r gate).1) gate requests.
Definition sweep_run (locks : Locks) (own : LeaseId) (at_ : OffsetDateTime) (w : Sweep)
    (candidate : RunId * option LeaseId) : Sweep :=
  let '(run, owner) := candidate in
  if bool_decide (owner = Some own) then w
  else
    match examine locks run owner w with
    | (None, w) => w
    | (Some (record, liveness), w) =>
      match interruption_reason record liveness at_ with
      | None => w
      | Some reason =>
        match interrupt_run run owner reason at_ (sw_store w) with
        | (Ok (Some i), s) =>
          MkSweep s (resolve_all (in_approvals i) (sw_gate w)) (sw_examined w) (report_interruption i (sw_report w))
        | (Ok None, s) => MkSweep s (sw_gate w) (sw_examined w) (sw_report w)
        | (Err e, s) => sweep_fails run e (MkSweep s (sw_gate w) (sw_examined w) (sw_report w))
        end
      end
    end.

(** A dead claim keeps neither its row nor its file. *)
Definition tidy_one (at_ : OffsetDateTime) (world : RunStore * Locks)
    (entry : LeaseId * (option LeaseRecord * Liveness)) : RunStore * Locks :=
  let '(id, (_, liveness)) := entry in
  match liveness with
  | Unlocked => ((release_lease id at_ world.1).2, discard id world.2)
  | _ => world
  end.

(** The process as a starting coordinator finds it. *)
Record Host := MkHost { ho_store : RunStore; ho_gate : ApprovalGate; ho_locks : Locks }.
Definition sweep (lock : result RuntimeError (option unit)) (own : LeaseId) (at_ : OffsetDateTime) (now : Z)
    (h : Host) : result RuntimeError RecoveryReport * Host :=
  match lock with
  | Err e => (Err e, h)
  | Ok None => (Ok (MkRecoveryReport [] [] [] true), h)
  | Ok (Some _) =>
    match unfinished_runs (ho_store h) with
    | (Err e, s) => (Err (StoreFailed e), MkHost s (ho_gate h) (ho_locks h))
    | (Ok candidates, s) =>
      let w := foldl (sweep_run (ho_locks h) own at_) (MkSweep s (ho_gate h) ∅ RecoveryReport_default) candidates in
      let '(s, locks) := foldl (tidy_one at_) (sw_store w, ho_locks h) (map_to_list (sw_examined w)) in
      (Ok (sw_report w), MkHost s (sw_gate w) (collect_dead_files now locks))
    end
  end.
End recovery.
