(* ===== verification/RecoverySafety.v ===== *)
(** * What the startup sweep promises

    The claim of every unfinished run is answered the way the rows and the locks say; work
    whose claim is not provably dead is not touched; and what is ended is ended whole, once,
    with its history kept. *)

From Stdlib Require Import ZArith ZifyN ZifyBool.
From stdpp Require Import base decidable countable list gmap sets relations sorting strings.
From S2P Require Import Prelude Digest Tool External Trust Policy Approval Matcher Gate Lifecycle Domain Records Wire RunStore StoreClaims StoreLaws ClaimLaws Interrupt StoreSafety Recovery.

(** ** One run *)

Section one_run.
Context `{PlatformLaws, !StoreParams}.

Lemma run_finished_stays r r' : run_finished r = true → rtc run_step r r' → run_state r' = run_state r.
Proof.
  intros Hf Hs. induction Hs as [|r r1 r2 Hs _ IH]; [done|].
  destruct (run_step_refines _ _ Hs) as [He _]. apply exec_edge_live in He.
  exfalso. exact (diff_true_false (eq_trans (eq_sym Hf) He)).
Qed.

(** Everything that belongs to a run is as it was. *)
Record run_untouched (run : RunId) (t t' : Tables) : Prop := {
  ut_run : tb_runs t' !! run = tb_runs t !! run;
  ut_claim : tb_claims t' !! run = tb_claims t !! run;
  ut_calls : ∀ id c, call_run_id c = run → tb_calls t !! id = Some c ↔ tb_calls t' !! id = Some c;
  ut_steps : ∀ id s, step_run_id s = run → tb_steps t !! id = Some s ↔ tb_steps t' !! id = Some s;
  ut_approvals : ∀ id a, pa_run_id (ar_pending a) = run →
    tb_approvals t !! id = Some a ↔ tb_approvals t' !! id = Some a;
  ut_log : log_of_run run t' = log_of_run run t;
}.
#[export] Instance run_untouched_preorder run : PreOrder (run_untouched run).
Proof.
  split; [by split|]. intros t1 t2 t3 [] []. split; try congruence; intros id r Hr.
  - rewrite ut_calls0 by done. by apply ut_calls1.
  - rewrite ut_steps0 by done. by apply ut_steps1.
  - rewrite ut_approvals0 by done. by apply ut_approvals1.
Qed.

Section marked.
Context {R Id} `{Countable Id} (finished : R → bool) (moves : R → R → Prop) (run : RunId).
Context (l ids : list Id) (old new : gmap Id R) (added : list StoredEvent)
  (Hm : marked finished moves run l ids old new added).

Lemma marked_complete id r :
  old !! id = Some r → (finished r = false → id ∈ l) →
  if finished r then new !! id = Some r else ∃ r', moves r r' ∧ new !! id = Some r'.
Proof.
  intros Hr Hl. destruct (decide (id ∈ ids)) as [Hin|Hni].
  - destruct (mk_moved _ _ _ _ _ _ _ _ Hm id Hin) as (x & r' & Hx & Hf & Hmv & Hn).
    assert (x = r) as -> by congruence. rewrite Hf. eauto.
  - rewrite (mk_still _ _ _ _ _ _ _ _ Hm id Hni). destruct (finished r) eqn:Hf; [done|].
    destruct (mk_all _ _ _ _ _ _ _ _ Hm id (Hl eq_refl) Hni) as (x & Hx & Hxf). congruence.
Qed.
Lemma marked_other (run_of : R → RunId) id r :
  (∀ r r', moves r r' → run_of r' = run_of r) →
  (∀ id, id ∈ l → ∃ r, old !! id = Some r ∧ run_of r = run) →
  run_of r ≠ run → old !! id = Some r ↔ new !! id = Some r.
Proof.
  intros Hmv Hl Hr. destruct (decide (id ∈ ids)) as [Hin|Hni].
  - destruct (mk_moved _ _ _ _ _ _ _ _ Hm id Hin) as (x & r' & Hx & _ & Hxr & Hn).
    destruct (Hl id (mk_listed _ _ _ _ _ _ _ _ Hm id Hin)) as (y & Hy & Hrun).
    apply Hmv in Hxr. split; intros; exfalso; apply Hr; congruence.
  - by rewrite (mk_still _ _ _ _ _ _ _ _ Hm id Hni).
Qed.
End marked.

Lemma filter_log_other run other l :
  other ≠ run → Forall (λ e, se_run e = run) l → filter (λ e, se_run e = other) l = [].
Proof.
  intros Hne Hl. induction Hl as [|e l He _ IH]; [done|]. rewrite filter_cons_False; [done|congruence].
Qed.
Lemma replicate_runs l n run : se_run <$> l = replicate n run → Forall (λ e, se_run e = run) l.
Proof.
  intros Hl. apply Forall_forall. intros e He. apply (list_elem_of_fmap_2 se_run) in He. rewrite Hl in He.
  by apply elem_of_replicate in He as [-> _].
Qed.
Lemma log_appended run t t' l :
  tb_events t' = tb_events t ++ l → log_of_run run t' = log_of_run run t ++ filter (λ e, se_run e = run) l.
Proof. intros Hl. unfold log_of_run. by rewrite Hl, filter_app. Qed.
Lemma filter_own run (l : list StoredEvent) : Forall (λ e, se_run e = run) l → filter (λ e, se_run e = run) l = l.
Proof. induction 1 as [|e l He _ IH]; [done|]. rewrite filter_cons_True by done. by rewrite IH. Qed.
End one_run.

Section interruption.
Context `{PlatformLaws, !StoreParams, Faults, !Fresh, !FreshLaws}.

Lemma call_interrupts_run at_ c c' : call_interrupts at_ c c' → call_run_id c' = call_run_id c.
Proof. intros Hi. apply call_does_transition in Hi. by destruct (call_step_frame _ _ Hi) as (_ & ? & _). Qed.
Lemma step_interrupts_run at_ s s' : step_interrupts at_ s s' → step_run_id s' = step_run_id s.
Proof. intros Hi. apply step_does_transition in Hi. by destruct (step_step_refines _ _ Hi) as (_ & _ & ? & _). Qed.
Lemma superseded_run at_ a a' : superseded at_ a a' → pa_run_id (ar_pending a') = pa_run_id (ar_pending a).
Proof. by intros (_ & _ & _ & _ & ->)%resolve_inv. Qed.

Lemma interrupt_untouched run lease reason at_ s r s' other :
  store_wf s → interrupt_run run lease reason at_ s = (r, s') → other ≠ run →
  run_untouched other (rs_tables s) (rs_tables s').
Proof.
  intros Hwf Hrun Hne. destruct (interrupt_run_Ok _ _ _ _ _ _ _ Hwf Hrun) as (_ & _ & _ & Hr).
  destruct r as [[i|]|e]; [|by rewrite Hr..]. destruct Hr as (p & s1 & s2 & Hplan & Hwf1 & Ht1 & Hed).
  destruct (plan_Ok _ _ _ _ _ _ _ Hwf1 Hplan) as (Hp & _ & _ & _ & Hcalls & Hsteps & Hasks).
  rewrite Ht1 in *. destruct Hed as [Erun Ecalls Esteps Easks _ Eev _ _ Eclaims _]. rewrite Hp in *. split.
  - destruct Erun as (r & r' & _ & _ & _ & ->). by rewrite lookup_insert_ne.
  - by rewrite Eclaims.
  - intros id c Hc. destruct Ecalls as [added Hm]. eapply (marked_other _ _ _ _ _ _ _ _ Hm call_run_id).
    + intros x y Hxy. by eapply call_interrupts_run.
    + intros id' (c' & ? & ? & _)%Hcalls. by exists c'.
    + congruence.
  - intros id c Hc. destruct Esteps as [added Hm]. eapply (marked_other _ _ _ _ _ _ _ _ Hm step_run_id).
    + intros x y Hxy. by eapply step_interrupts_run.
    + intros id' (c' & ? & ? & _)%Hsteps. by exists c'.
    + congruence.
  - intros id c Hc. destruct Easks as [added Hm].
    eapply (marked_other _ _ _ _ _ _ _ _ Hm (λ a, pa_run_id (ar_pending a))).
    + intros x y Hxy. by eapply superseded_run.
    + intros id' (c' & ? & ? & _)%Hasks. by exists c'.
    + congruence.
  - destruct Eev as (m & n & between & Hev & Hb). rewrite (log_appended _ _ _ _ Hev).
    rewrite (filter_log_other run other), app_nil_r; [done|done|].
    apply Forall_app. split; [by repeat constructor|]. apply Forall_app. split; [by eapply replicate_runs|by repeat constructor].
Qed.

Lemma interrupt_leases run lease reason at_ s r s' id :
  store_wf s → interrupt_run run lease reason at_ s = (r, s') → lease ≠ Some id →
  tb_leases (rs_tables s') !! id = tb_leases (rs_tables s) !! id.
Proof.
  intros Hwf Hrun Hne. destruct (interrupt_run_Ok _ _ _ _ _ _ _ Hwf Hrun) as (_ & _ & _ & Hr).
  destruct r as [[i|]|e]; [|by rewrite Hr..]. destruct Hr as (p & s1 & s2 & Hplan & Hwf1 & Ht1 & Hed).
  destruct (plan_Ok _ _ _ _ _ _ _ Hwf1 Hplan) as (_ & Hl & _). rewrite (ed_leases _ _ _ _ _ Hed), Hl.
  unfold release_of. destruct lease as [l|]; [|done]. cbn.
  destruct (tb_leases (rs_tables s) !! l) as [x|] eqn:Hx; [|done]. destruct (is_released x); [done|].
  rewrite (wf_leases _ (sw_tables _ Hwf) l x Hx). rewrite lookup_insert_ne; [done|congruence].
Qed.

(** An interruption that answers nothing found the run finished. *)
Lemma interrupt_None run lease reason at_ s s' :
  store_wf s → interrupt_run run lease reason at_ s = (Ok None, s') →
  ∃ r, tb_runs (rs_tables s) !! run = Some r ∧ run_finished r = true.
Proof.
  intros Hwf. unfold interrupt_run. intros (record & s1 & [-> Hl]%with_reader_spec & Hrun)%bindM_Ok.
  specialize (Hl record eq_refl). unfold load_row in Hl. cbn [row_table run_row] in Hl.
  destruct (tb_runs (rs_tables s) !! run) as [r0|] eqn:Hr0; [|done]. cbn [fst] in Hl.
  assert (r0 = record) as ->.
  { destruct (row_decode r0) as [x|] eqn:Hd; [|done]. injection Hl as <-. symmetry. by apply run_reads. }
  destruct (is_terminal (run_state record)) eqn:Hf; [by exists record|].
  apply bindM_Ok in Hrun as (p & s1 & Hplan & Hrun). exfalso.
  assert (store_wf (tick s)) as Hwf1 by by apply (store_wf_later s); [|apply later_tick|].
  pose proof (plan_Ok _ _ _ _ _ _ _ Hwf1 Hplan) as (Hp & _).
  assert (rs_tables s1 = rs_tables s) as Ht1.
  { apply plan_plans in Hplan as (_ & [Ht _] & _); [done|done|by intros ? []%not_elem_of_nil]. }
  unfold commit_interruption in Hrun. destruct (in_write_transaction (apply_interruption p at_) s1) as [[[i|]|e] s2] eqn:Htx;
    [done| |done].
  apply in_write_transaction_spec in Htx as (_ & _ & Ha). rewrite Ht1 in Ha.
  unfold apply_interruption in Ha. apply bindM_Ok in Ha as (x & t1 & Hload & Ha).
  apply (load_row_Ok (step:=run_step)) in Hload as (-> & Hx & _). cbn in Hx. rewrite Hp in Hx.
  assert (x = record) as -> by congruence. rewrite Hf in Ha.
  repeat (apply bindM_Ok in Ha as (? & ? & _ & Ha)). apply ret_Ok in Ha as [? _]. discriminate.
Qed.
End interruption.

(** ** The loop *)

Section sweep.
Context `{PlatformLaws, !StoreParams, Faults, !Fresh, !FreshLaws, !Intervals, !FileSystem}.
Abbreviation Locks := (gmap LeaseId LockFile).

(** What the rows and the locks say of a run: whether it is abandoned, and why. *)
Definition verdict (own : LeaseId) (locks : Locks) (at_ : OffsetDateTime) (t : Tables) (run : RunId)
    : option InterruptionReason :=
  match tb_claims t !! run with
  | None => Some NoLease
  | Some l => if bool_decide (l = own) then None else interruption_reason (tb_leases t !! l) (probe locks l) at_
  end.

Section loop.
Context (own : LeaseId) (locks : Locks) (at_ : OffsetDateTime) (t0 : Tables).
Abbreviation tables w := (rs_tables (sw_store w)).

Definition failed_runs (w : Sweep) : list RunId := rf_run <$> failures (sw_report w).
Record swept (w : Sweep) : Prop := {
  sv_wf : store_wf (sw_store w);
  sv_extends : extends t0 (tables w);
  sv_examined : ∀ l x, sw_examined w !! l = Some x → x = (tb_leases t0 !! l, probe locks l) ∧ l ≠ own;
  sv_leases : ∀ l, sw_examined w !! l = None → tb_leases (tables w) !! l = tb_leases t0 !! l;
  sv_held : ∀ l, l = own ∨ interruption_reason (tb_leases t0 !! l) (probe locks l) at_ = None →
    tb_leases (tables w) !! l = tb_leases t0 !! l;
  sv_spared : ∀ run, verdict own locks at_ t0 run = None → run_untouched run t0 (tables w);
  sv_claims : ∀ run, tb_claims (tables w) !! run = tb_claims t0 !! run;
  sv_reported : ∀ run, run ∈ interrupted_runs (sw_report w) → is_Some (verdict own locks at_ t0 run);
  sv_looked : was_contended (sw_report w) = false;
}.
(** What a report only gains. *)
Record later_sweep (w w' : Sweep) : Prop := {
  ls_extends : extends (tables w) (tables w');
  ls_interrupted : interrupted_runs (sw_report w) `prefix_of` interrupted_runs (sw_report w');
  ls_failures : failures (sw_report w) `prefix_of` failures (sw_report w');
}.
#[export] Instance later_sweep_preorder : PreOrder later_sweep.
Proof. split; [by split|]. intros w1 w2 w3 [] []. by split; etrans. Qed.

Lemma swept_same w w' :
  swept w → store_wf (sw_store w') → tables w' = tables w → sw_examined w' = sw_examined w →
  interrupted_runs (sw_report w') = interrupted_runs (sw_report w) →
  was_contended (sw_report w') = was_contended (sw_report w) → swept w'.
Proof. intros [] Hwf Ht He Hi Hc. split; rewrite ?Ht, ?He, ?Hi, ?Hc; done. Qed.

Lemma examine_swept run owner w o w' :
  swept w → tb_claims t0 !! run = owner → owner ≠ Some own → examine locks run owner w = (o, w') →
  swept w' ∧ later_sweep w w' ∧ tables w' = tables w ∧
  match o with
  | Some (record, liveness) => interruption_reason record liveness at_ = verdict own locks at_ t0 run ∧
      ∀ l, owner = Some l → is_Some (sw_examined w' !! l)
  | None => run ∈ failed_runs w'
  end.
Proof.
  intros Hsw Hcl Hown. unfold examine, verdict. rewrite Hcl. destruct owner as [l|]; [|by intros [= <- <-]].
  rewrite bool_decide_eq_false_2 by congruence.
  destruct (sw_examined w !! l) as [x|] eqn:Hx.
  { intros [= <- <-]. destruct (sv_examined w Hsw l x Hx) as [-> _]. split_and!; [done..|]. intros ? [= <-]. eauto. }
  destruct (lease l (sw_store w)) as [[record|e] s] eqn:Hl; apply with_reader_spec in Hl as [-> Hread];
    assert (store_wf (tick (sw_store w))) as Hwf1
      by (apply (store_wf_later (sw_store w)); [apply Hsw|apply later_tick|done]).
  - specialize (Hread record eq_refl). injection Hread as <-. intros [= <- <-]. cbn.
    rewrite (sv_leases w Hsw l Hx). split_and!; [|by split|done|done|].
    2: { intros ? [= <-]. rewrite lookup_insert_eq. eauto. }
    destruct Hsw. split; cbn; try done.
    + intros l' x. rewrite lookup_insert_Some. intros [[<- <-]|[_ Hx']]; [split; congruence|by apply sv_examined0].
    + intros l'. rewrite lookup_insert_None. intros [Hx' _]. by apply sv_leases0.
  - intros [= <- <-]. split_and!; [|split; [done|done|by eexists]|done|].
    + by apply (swept_same w).
    + unfold failed_runs. cbn. rewrite fmap_app. apply elem_of_app. right. by left.
Qed.

Lemma verdict_owner run reason :
  verdict own locks at_ t0 run = Some reason → ∀ l, tb_claims t0 !! run = Some l →
  l ≠ own ∧ is_Some (interruption_reason (tb_leases t0 !! l) (probe locks l) at_).
Proof. unfold verdict. intros Hv l Hl. rewrite Hl in Hv. case_bool_decide; [done|]. by rewrite Hv. Qed.

(** A run at its turn: it is spared, or ended and reported, or reported as a failure. *)
Definition settled (run : RunId) (w : Sweep) : Prop :=
  verdict own locks at_ t0 run = None ∨ run ∈ failed_runs w ∨
  run ∈ interrupted_runs (sw_report w) ∧ ∃ r, tb_runs (tables w) !! run = Some r ∧ run_state r = ExecInterrupted.
Lemma settled_later run w w' : settled run w → later_sweep w w' → settled run w'.
Proof.
  intros [Hv|[Hf|(Hi & r & Hr & Hst)]] [Hex Hin Hfa]; [by left|right; left|right; right].
  - unfold failed_runs in *. destruct Hfa as [k ->]. rewrite fmap_app. apply elem_of_app. by left.
  - split; [destruct Hin as [k ->]; apply elem_of_app; by left|].
    destruct (ex_runs _ _ Hex run r Hr) as (r' & Hr' & Hs). exists r'. split; [done|].
    rewrite (run_finished_stays r r'); [done| |done]. unfold run_finished. by rewrite Hst.
Qed.

Lemma interrupted_now run owner reason w i s :
  swept w → tb_claims t0 !! run = owner → verdict own locks at_ t0 run = Some reason →
  interrupt_run run owner reason at_ (sw_store w) = (Ok (Some i), s) →
  in_run i = run ∧ ∃ r, tb_runs (rs_tables s) !! run = Some r ∧ run_state r = ExecInterrupted.
Proof.
  intros Hsw Hcl Hv Hrun. destruct (interrupt_run_Ok _ _ _ _ _ _ _ (sv_wf w Hsw) Hrun) as (_ & _ & _ & p & s1 & s2 & Hplan & Hwf1 & _ & Hed).
  destruct (plan_Ok _ _ _ _ _ _ _ Hwf1 Hplan) as (Hp & _). destruct Hed as [(r & r' & _ & _ & Hi & Hruns) _ _ _ _ _ _ _ _ Hn].
  rewrite Hp in *. split; [done|]. exists r'. split; [by rewrite Hruns, lookup_insert_eq|]. by eapply run_interrupts_ends.
Qed.
Lemma interrupt_swept run owner reason w r s :
  swept w → tb_claims t0 !! run = owner → verdict own locks at_ t0 run = Some reason →
  interrupt_run run owner reason at_ (sw_store w) = (r, s) → ∀ gate report,
  (∀ x, x ∈ interrupted_runs report → x = run ∨ x ∈ interrupted_runs (sw_report w)) →
  was_contended report = false →
  (∀ l, owner = Some l → is_Some (sw_examined w !! l)) →
  swept (MkSweep s gate (sw_examined w) report) ∧ extends (tables w) (rs_tables s).
Proof.
  intros Hsw Hcl Hv Hrun gate report Hrep Hcon Hex.
  destruct (keeps_interrupt _ _ _ _ _ _ _ (sv_wf w Hsw) Hrun) as (Hwf & Hext & _ & _). split; [|done].
  destruct Hsw. split; cbn; try done.
  - by etrans.
  - intros l Hl. rewrite (interrupt_leases _ _ _ _ _ _ _ l sv_wf0 Hrun); [by apply sv_leases0|].
    intros ->. destruct (Hex l eq_refl). congruence.
  - intros l Hl. rewrite (interrupt_leases _ _ _ _ _ _ _ l sv_wf0 Hrun); [by apply sv_held0|].
    intros ->. destruct (verdict_owner run reason Hv l Hcl) as [Hne [y Hy]].
    destruct Hl as [?|Hl]; [done|]. rewrite Hy in Hl. done.
  - intros other Ho. etrans; [by apply sv_spared0|]. eapply interrupt_untouched; [done|exact Hrun|]. intros ->. congruence.
  - intros other. destruct (decide (other = run)) as [->|Hne].
    + destruct (interrupt_run_Ok _ _ _ _ _ _ _ sv_wf0 Hrun) as (_ & _ & _ & Hr).
      destruct r as [[i|]|e]; [|by rewrite Hr, sv_claims0..]. destruct Hr as (p & _ & _ & _ & _ & _ & Hed).
      by rewrite (ed_claims _ _ _ _ _ Hed), sv_claims0.
    + rewrite (ut_claim _ _ _ (interrupt_untouched _ _ _ _ _ _ _ other sv_wf0 Hrun Hne)). by apply sv_claims0.
  - intros x [->|Hx]%Hrep; [by rewrite Hv|by apply sv_reported0].
Qed.

Lemma sweep_run_swept w run owner :
  swept w → tb_claims t0 !! run = owner →
  (∃ r, tb_runs (tables w) !! run = Some r ∧ run_finished r = false) →
  let w' := sweep_run locks own at_ w (run, owner) in
  swept w' ∧ later_sweep w w' ∧ settled run w' ∧
  ∀ other, other ≠ run → tb_runs (tables w') !! other = tb_runs (tables w) !! other.
Proof.
  intros Hsw Hcl (r0 & Hr0 & Hf0). unfold sweep_run. case_bool_decide as Hown.
  { cbn. split_and!; [done..| |done]. left. unfold verdict. rewrite Hcl, Hown. by rewrite bool_decide_eq_true_2. }
  destruct (examine locks run owner w) as [o w1] eqn:Hex.
  destruct (examine_swept run owner w o w1 Hsw Hcl Hown Hex) as (Hsw1 & Hl1 & Ht1 & Ho).
  destruct o as [[record liveness]|]; [|cbn; rewrite Ht1; split_and!; [done..| |done]; by right; left].
  destruct Ho as [Ho Hknown]. rewrite Ho. destruct (verdict own locks at_ t0 run) as [reason|] eqn:Hv.
  2: { cbn. rewrite Ht1. split_and!; [done..| |done]. by left. }
  destruct (interrupt_run run owner reason at_ (sw_store w1)) as [[[i|]|e] s] eqn:Hint; cbn;
    pose proof (interrupt_swept run owner reason w1 _ s Hsw1 Hcl Hv Hint) as Hkeep;
    pose proof (λ other, interrupt_untouched _ _ _ _ _ _ _ other (sv_wf w1 Hsw1) Hint) as Hother.
  - destruct (interrupted_now run owner reason w1 i s Hsw1 Hcl Hv Hint) as (Hi & r & Hr & Hst).
    destruct (Hkeep (resolve_all (in_approvals i) (sw_gate w1)) (report_interruption i (sw_report w1)))
      as [Hsw' Hext]; [|apply (sv_looked w1 Hsw1)|exact Hknown|].
    { cbn. rewrite Hi. intros x [Hx| ->%list_elem_of_singleton]%elem_of_app; [by right|by left]. }
    split_and!; [exact Hsw'| | |].
    + etrans; [exact Hl1|]. split; cbn; [done|by eexists|done].
    + right; right. cbn. split; [apply elem_of_app; right; rewrite Hi; by left|]. by exists r.
    + intros other Hne. rewrite <- Ht1. apply (ut_run _ _ _ (Hother other Hne)).
  - exfalso. apply interrupt_None in Hint as (r & Hr & Hf); [|apply Hsw1]. rewrite Ht1 in Hr. congruence.
  - destruct (Hkeep (sw_gate w1) (sw_report w1)) as [Hsw' Hext]; [by right|apply (sv_looked w1 Hsw1)|exact Hknown|].
    unfold sweep_fails. cbn. split_and!.
    + by apply (swept_same (MkSweep s (sw_gate w1) (sw_examined w1) (sw_report w1))); [|apply Hsw'|..].
    + etrans; [exact Hl1|]. split; cbn; [done|done|by eexists].
    + right; left. unfold failed_runs. cbn. rewrite fmap_app. apply elem_of_app. right. by left.
    + intros other Hne. rewrite <- Ht1. apply (ut_run _ _ _ (Hother other Hne)).
Qed.

Lemma sweep_runs_swept candidates : ∀ w,
  swept w → NoDup candidates.*1 →
  (∀ c, c ∈ candidates → tb_claims t0 !! c.1 = c.2 ∧ ∃ r, tb_runs (tables w) !! c.1 = Some r ∧ run_finished r = false) →
  let w' := foldl (sweep_run locks own at_) w candidates in
  swept w' ∧ later_sweep w w' ∧ ∀ c, c ∈ candidates → settled c.1 w'.
Proof.
  induction candidates as [|[run owner] candidates IH]; intros w Hsw Hnd Hc; cbn.
  { split_and!; [done..|]. by intros ? ?%not_elem_of_nil. }
  cbn in Hnd. apply NoDup_cons in Hnd as [Hnew Hnd].
  destruct (Hc (run, owner)) as [Hcl Hlive]; [by left|]. cbn in Hcl, Hlive.
  destruct (sweep_run_swept w run owner Hsw Hcl Hlive) as (Hsw1 & Hl1 & Hset & Hother).
  destruct (IH (sweep_run locks own at_ w (run, owner)) Hsw1 Hnd) as (? & Hl2 & Hall).
  { intros c Hin. destruct (Hc c) as [? Hr]; [by right|]. split; [done|]. rewrite Hother; [done|].
    intros Heq. apply Hnew. rewrite <- Heq. by apply list_elem_of_fmap_2. }
  split_and!; [done|by etrans|]. intros c [->|Hin]%elem_of_cons; [by eapply settled_later|by apply Hall].
Qed.
End loop.

(** ** Before and after the loop *)

Lemma NoDup_rows t : tables_wf t → NoDup (run_id <$> rows_of (tb_runs t)).
Proof.
  intros Hwf. assert (run_id <$> rows_of (tb_runs t) = (map_to_list (tb_runs t)).*1) as ->.
  { unfold rows_of. rewrite <- list_fmap_compose. apply list_fmap_ext. intros i [id r] Hin.
    apply list_elem_of_lookup_2, elem_of_map_to_list in Hin. by destruct (wf_runs _ Hwf id r Hin). }
  apply NoDup_fst_map_to_list.
Qed.
Lemma unfinished_listed t cs :
  tables_wf t → (unfinished_rows t).1 = Ok cs →
  NoDup cs.*1 ∧ ∀ c, c ∈ cs ↔ tb_claims t !! c.1 = c.2 ∧ ∃ r, tb_runs t !! c.1 = Some r ∧ run_finished r = false.
Proof.
  intros Hwf. cbn. intros [= <-]. set (rows := order_by run_order _).
  assert (∀ r, r ∈ rows ↔ tb_runs t !! run_id r = Some r ∧ run_finished r = false) as Hrows.
  { intros r. unfold rows. rewrite elem_of_order_by, list_elem_of_filter, elem_of_rows_of. split.
    - intros [Hf [id Hr]]. by destruct (wf_runs _ Hwf id r Hr) as (-> & _).
    - intros [Hr Hf]. eauto. }
  split.
  - rewrite <- list_fmap_compose. assert (NoDup rows) as Hnd.
    { unfold rows, order_by. rewrite merge_sort_Permutation. apply NoDup_filter.
      eapply NoDup_fmap_1, NoDup_rows, Hwf. }
    apply NoDup_fmap_2_strong; [|done]. intros x y [Hx _]%Hrows [Hy _]%Hrows Heq. cbn in Heq. congruence.
  - intros [run owner]. cbn. rewrite list_elem_of_fmap. split.
    + intros (r & [= -> ->] & [Hr Hf]%Hrows). eauto.
    + intros [<- (r & Hr & Hf)]. destruct (wf_runs _ Hwf run r Hr) as (<- & _). exists r. split; [done|]. by apply Hrows.
Qed.

Lemma release_lease_tables id at_ s r s' :
  store_wf s → release_lease id at_ s = (r, s') →
  ∃ m, rs_tables s' = set_leases m (rs_tables s) ∧ ∀ l, l ≠ id → m !! l = tb_leases (rs_tables s) !! l.
Proof.
  intros Hwf Hrun. apply in_write_transaction_spec in Hrun as (_ & _ & Hr). destruct r as [u|e].
  - apply (release_row_Ok (Some id)) in Hr; [|apply Hwf]. eexists. split; [exact Hr|]. intros l Hne.
    unfold release_of. cbn. destruct (tb_leases (rs_tables s) !! id) as [x|] eqn:Hx; [|done].
    destruct (is_released x); [done|]. rewrite (wf_leases _ (sw_tables _ Hwf) id x Hx). by rewrite lookup_insert_ne.
  - exists (tb_leases (rs_tables s)). rewrite Hr. split; [by destruct (rs_tables s)|done].
Qed.

(** What tidying leaves: every record and log, and the claims that are not dead. *)
Record tidied (dead : LeaseId → Prop) (s0 : RunStore) (locks0 : Locks) (s : RunStore) (locks : Locks) : Prop := {
  td_wf : store_wf s;
  td_extends : extends (rs_tables s0) (rs_tables s);
  td_runs : ∀ run, run_untouched run (rs_tables s0) (rs_tables s);
  td_leases : ∀ l, ¬ dead l → tb_leases (rs_tables s) !! l = tb_leases (rs_tables s0) !! l;
  td_locks : ∀ l, ¬ dead l → locks !! l = locks0 !! l;
}.
Lemma tidy_tidied (dead : LeaseId → Prop) at_ s0 locks0 entries : ∀ s locks,
  (∀ l x, (l, x) ∈ entries → x.2 = Unlocked → dead l) → tidied dead s0 locks0 s locks →
  tidied dead s0 locks0 (foldl (tidy_one at_) (s, locks) entries).1 (foldl (tidy_one at_) (s, locks) entries).2.
Proof.
  induction entries as [|[id [record liveness]] entries IH]; intros s locks Hdead Ht; [done|]. cbn [foldl].
  destruct (tidy_one at_ (s, locks) (id, (record, liveness))) as [s1 locks1] eqn:Hone. apply IH.
  { intros l x Hin. apply Hdead. by right. }
  unfold tidy_one in Hone. destruct liveness as [| |reason]; [by injection Hone as <- <-| |by injection Hone as <- <-].
  assert (dead id) as Hid by (eapply Hdead; [by left|done]).
  cbn in Hone. destruct (release_lease id at_ s) as [r s2] eqn:Hrel. injection Hone as <- <-.
  destruct (keeps_release _ _ _ _ _ (td_wf _ _ _ _ _ Ht) Hrel) as (Hwf & Hext & _ & _).
  apply release_lease_tables in Hrel as (m & Hm & Hsame); [|apply Ht]. destruct Ht. split; [done|by etrans|..].
  - intros run. etrans; [apply td_runs0|]. cbn. rewrite Hm. by split.
  - intros l Hl. cbn. rewrite Hm. cbn. rewrite Hsame; [by apply td_leases0|]. by intros ->.
  - intros l Hl. unfold discard. destruct (unlink_fails id); [by apply td_locks0|].
    rewrite lookup_delete_ne; [by apply td_locks0|]. by intros ->.
Qed.

Lemma collect_keeps_held now l file entries : ∀ locks,
  (∀ f, (l, f) ∈ entries → f = file) → lf_held file = true → locks !! l = Some file →
  foldl (collect_one now) locks entries !! l = Some file.
Proof.
  induction entries as [|[id f] entries IH]; intros locks Hent Hheld Hl; [done|]. cbn [foldl]. apply IH; [|done|].
  { intros f' Hin. apply Hent. by right. }
  unfold collect_one. destruct (young now id f); [done|]. destruct (open_error id), (lock_error id); try done.
  destruct (lf_held f) eqn:Hf; [done|]. unfold discard. destruct (unlink_fails id); [done|].
  rewrite lookup_delete_ne; [done|]. intros ->. rewrite (Hent f) in Hf; [congruence|by left].
Qed.
Lemma held_file_stays now locks l file :
  locks !! l = Some file → lf_held file = true → collect_dead_files now locks !! l = Some file.
Proof.
  intros Hl Hheld. unfold collect_dead_files. destruct read_dir_fails; [done|].
  apply collect_keeps_held; [|done|done]. intros f Hin%elem_of_map_to_list. congruence.
Qed.

(** The whole sweep, when it looks. *)
Lemma sweep_Ok own at_ now h rep h' :
  store_wf (ho_store h) → sweep (Ok (Some tt)) own at_ now h = (Ok rep, h') →
  ∃ w s locks, swept own (ho_locks h) at_ (rs_tables (ho_store h)) w ∧ sw_report w = rep ∧
    tidied (λ l, ∃ x, sw_examined w !! l = Some x ∧ x.2 = Unlocked) (sw_store w) (ho_locks h) s locks ∧
    ho_store h' = s ∧ ho_locks h' = collect_dead_files now locks ∧
    ∀ run r, tb_runs (rs_tables (ho_store h)) !! run = Some r → run_finished r = false →
      settled own (ho_locks h) at_ (rs_tables (ho_store h)) run w.
Proof.
  intros Hwf. unfold sweep. destruct (unfinished_runs (ho_store h)) as [[cs|e] s0] eqn:Hun; [|done].
  apply with_reader_spec in Hun as [-> Hcs]. specialize (Hcs cs eq_refl).
  destruct (unfinished_listed _ _ (sw_tables _ Hwf) Hcs) as [Hnd Hlisted].
  set (w := foldl _ _ cs). set (entries := map_to_list (sw_examined w)).
  destruct (foldl (tidy_one at_) (sw_store w, ho_locks h) entries) as [s locks] eqn:Htidy. intros [= <- <-].
  assert (swept own (ho_locks h) at_ (rs_tables (ho_store h))
    (MkSweep (tick (ho_store h)) (ho_gate h) ∅ RecoveryReport_default)) as Hstart.
  { split; cbn; try done. - by apply (store_wf_later (ho_store h)); [|apply later_tick|]. - by intros ? ?%not_elem_of_nil. }
  destruct (sweep_runs_swept own (ho_locks h) at_ _ cs _ Hstart Hnd) as (Hsw & _ & Hset).
  { intros c Hc. by apply Hlisted. }
  fold w in Hsw, Hset. exists w, s, locks. split_and!; [done|done| |done|done|].
  - pose proof (tidy_tidied (λ l, ∃ x, sw_examined w !! l = Some x ∧ x.2 = Unlocked) at_ (sw_store w) (ho_locks h)
      entries (sw_store w) (ho_locks h)) as Ht. rewrite Htidy in Ht. apply Ht.
    + intros l x Hin%elem_of_map_to_list Hx. by exists x.
    + split; [apply Hsw|done|done|done|done].
  - intros run r Hr Hf. apply (Hset (run, tb_claims (rs_tables (ho_store h)) !! run)). apply Hlisted. cbn. eauto.
Qed.
End sweep.

(** ** What one interruption does *)

Section interruption_promises.
Context `{PlatformLaws, !StoreParams, Faults, !Fresh, !FreshLaws}.

Definition ended_whole (at_ : OffsetDateTime) (t t' : Tables) (run : RunId) : Prop :=
  (∀ id c, tb_calls t !! id = Some c → call_run_id c = run →
     if call_finished c then tb_calls t' !! id = Some c
     else ∃ c', tb_calls t' !! id = Some c' ∧ ToolCall_transition CallInterrupted at_ c = (Ok tt, c')) ∧
  (∀ id x, tb_steps t !! id = Some x → step_run_id x = run →
     if step_finished x then tb_steps t' !! id = Some x
     else ∃ x', tb_steps t' !! id = Some x' ∧ Step_transition ExecInterrupted at_ x = (Ok tt, x')) ∧
  (∀ id a, tb_approvals t !! id = Some a → pa_run_id (ar_pending a) = run →
     if answered a then tb_approvals t' !! id = Some a
     else ∃ a', tb_approvals t' !! id = Some a' ∧ ApprovalRequest_supersede at_ a = (Ok tt, a')) ∧
  ∃ r r', tb_runs t !! run = Some r ∧ run_finished r = false ∧
    Run_transition ExecInterrupted at_ r = (Ok tt, r') ∧ tb_runs t' !! run = Some r'.

(** C12. An abandoned run is ended whole: when an interruption answers, the run, every step
    and tool call of it that had not finished, and every question nobody had answered have
    taken the one transition that ends them, in one transaction, and what had finished is
    as it was. The log of the run is what it was and then the event that says why, one event
    per row ended, and the event of the run. The claim that was found dead is written off, and
    nothing of another run is touched. *)
Theorem interruption_ends_the_whole_run run lease reason at_ s i s' :
  store_wf s → interrupt_run run lease reason at_ s = (Ok (Some i), s') →
  in_run i = run ∧ ended_whole at_ (rs_tables s) (rs_tables s') run ∧
  (∃ first between last,
     log_of_run run (rs_tables s') = log_of_run run (rs_tables s) ++ first :: between ++ [last] ∧
     recorded_as (interrupted_event lease reason at_) (se_event first) ∧
     recorded_as (run_state_event ExecInterrupted at_) (se_event last) ∧
     length between = length (in_calls i) + length (in_steps i) + length (in_approvals i)) ∧
  (∀ l record, lease = Some l → tb_leases (rs_tables s) !! l = Some record →
     ∃ record', tb_leases (rs_tables s') !! l = Some record' ∧ is_released record' = true) ∧
  ∀ other, other ≠ run → run_untouched other (rs_tables s) (rs_tables s').
Proof.
  intros Hwf Hrun. destruct (interrupt_run_Ok _ _ _ _ _ _ _ Hwf Hrun) as (_ & _ & _ & p & s1 & s2 & Hplan & Hwf1 & Ht1 & Hed).
  destruct (plan_Ok _ _ _ _ _ _ _ Hwf1 Hplan) as (Hp & Hl & Hfirst & Hlast & Hcalls & Hsteps & Hasks).
  rewrite Ht1 in *. destruct Hed as [Erun Ecalls Esteps Easks _ Eev El _ _ En]. rewrite Hp in *.
  split_and!; [done| | | |].
  - split_and!.
    + intros id c Hc Hr. destruct Ecalls as [added Hm].
      pose proof (marked_complete _ _ _ _ _ _ _ _ Hm id c Hc) as Hx. destruct (call_finished c) eqn:Hf.
      * by apply Hx.
      * destruct Hx as (c' & ? & ?); [|by exists c']. intros _. apply Hcalls. by exists c.
    + intros id c Hc Hr. destruct Esteps as [added Hm].
      pose proof (marked_complete _ _ _ _ _ _ _ _ Hm id c Hc) as Hx. destruct (step_finished c) eqn:Hf.
      * by apply Hx.
      * destruct Hx as (c' & ? & ?); [|by exists c']. intros _. apply Hsteps. by exists c.
    + intros id c Hc Hr. destruct Easks as [added Hm].
      pose proof (marked_complete _ _ _ _ _ _ _ _ Hm id c Hc) as Hx. destruct (answered c) eqn:Hf.
      * by apply Hx.
      * destruct Hx as (c' & ? & ?); [|by exists c']. intros _. apply Hasks. by exists c.
    + destruct Erun as (r & r' & ? & ? & ? & ->). exists r, r'. by rewrite lookup_insert_eq.
  - destruct Eev as (m & n & between & Hev & Hb). pose proof (replicate_runs _ _ _ Hb) as Hbr.
    exists (MkStoredEvent run n (pe_event (pl_interrupted p))), between, (MkStoredEvent run m (pe_event (pl_run_state p))).
    split_and!; [|exact Hfirst|exact Hlast|].
    + rewrite (log_appended _ _ _ _ Hev). f_equal. apply filter_own.
      constructor; [done|]. apply Forall_app. split; [done|by repeat constructor].
    + apply (f_equal length) in Hb. by rewrite length_fmap, length_replicate in Hb.
  - intros l record -> Hrec. rewrite El, Hl. unfold release_of. cbn. rewrite Hrec.
    destruct (is_released record) eqn:Hrel; [by exists record|].
    rewrite (wf_leases _ (sw_tables _ Hwf) l record Hrec), lookup_insert_eq. eauto.
  - intros other Hne. by eapply interrupt_untouched.
Qed.

(** A run is interrupted at most once: after an interruption has answered, whatever the
    store is asked to do, every later interruption of the same run answers that there was
    nothing to end or fails, and changes no table. *)
Theorem interrupted_at_most_once run lease reason at_ s i s1 s2 lease' reason' at' r s3 :
  store_wf s → interrupt_run run lease reason at_ s = (Ok (Some i), s1) → rtc store_step s1 s2 →
  interrupt_run run lease' reason' at' s2 = (r, s3) →
  (r = Ok None ∨ ∃ e, r = Err e) ∧ rs_tables s3 = rs_tables s2.
Proof.
  intros Hwf Hrun Hs Hagain.
  destruct (interrupt_run_Ok _ _ _ _ _ _ _ Hwf Hrun) as (Hwf1 & _ & _ & p & s0 & s0' & Hplan & Hwf0 & _ & Hed).
  destruct (plan_Ok _ _ _ _ _ _ _ Hwf0 Hplan) as (Hp & _).
  destruct Hed as [(x & x' & _ & _ & Hi & Hruns) _ _ _ _ _ _ _ _ _]. rewrite Hp in *.
  apply run_interrupts_ends in Hi.
  destruct (store_steps_keep s1 s2 Hwf1 Hs) as [Hwf2 Hext].
  destruct (ex_runs _ _ Hext run x') as (x2 & Hx2 & Hmv); [by rewrite Hruns, lookup_insert_eq|].
  assert (run_finished x' = true) as Hf by by unfold run_finished; rewrite Hi.
  pose proof (run_finished_stays x' x2 Hf Hmv) as Hst.
  destruct (interrupt_run_Ok _ _ _ _ _ _ _ Hwf2 Hagain) as (_ & _ & _ & Hr).
  destruct r as [[j|]|e]; [exfalso|by split; [left|]|by split; [right; eexists|]].
  destruct Hr as (p' & ? & ? & Hplan' & Hwf' & Ht' & [(y & y' & Hy & Hyf & _ & _) _ _ _ _ _ _ _ _ _]).
  destruct (plan_Ok _ _ _ _ _ _ _ Hwf' Hplan') as (Hp' & _). rewrite Hp' in *.
  assert (y = x2) as -> by congruence. unfold run_finished in Hyf. rewrite Hst, Hi in Hyf. done.
Qed.
End interruption_promises.

(** ** What a sweep does *)

Section sweep_promises.
Context `{PlatformLaws, !StoreParams, Faults, !Fresh, !FreshLaws, !Intervals, !FileSystem}.
Abbreviation Locks := (gmap LeaseId LockFile).

(** A claim that is not provably dead: this coordinator's own, or one whose row nobody has
    released and whose lock is held, or cannot be asked about within the grace. *)
Definition claim_lives (own : LeaseId) (locks : Locks) (at_ : OffsetDateTime) (t : Tables) (run : RunId) : Prop :=
  ∃ l, tb_claims t !! run = Some l ∧
    (l = own ∨ ∃ record, tb_leases t !! l = Some record ∧ is_released record = false ∧
      (probe locks l = Held ∨
       (∃ reason, probe locks l = Unknown reason) ∧ (since at_ (le_renewed_at record) <= LEASE_EXPIRY_GRACE)%Z)).
Lemma verdict_None own locks at_ t run : verdict own locks at_ t run = None ↔ claim_lives own locks at_ t run.
Proof.
  unfold verdict, claim_lives, interruption_reason. split.
  - destruct (tb_claims t !! run) as [l|]; [|done]. intros Hv. exists l. split; [done|].
    case_bool_decide; [by left|right]. destruct (tb_leases t !! l) as [record|]; [|done].
    exists record. destruct (is_released record); [done|]. split_and!; [done..|].
    destruct (probe locks l) as [| |reason]; [by left|done|right]. split; [eauto|].
    destruct (_ <? _)%Z eqn:Hlt; [done|lia].
  - intros (l & -> & [->|(record & -> & -> & Hp)]); [by rewrite bool_decide_eq_true_2|].
    case_bool_decide; [done|]. destruct Hp as [->|[[reason ->] Hle]]; [done|].
    by rewrite (proj2 (Z.ltb_ge _ _) Hle).
Qed.

(** C10. A sweep spares what may be alive: whatever it answers and whatever the file system
    refuses, a run whose claim is not provably dead keeps every row, question and event it
    had, is not reported, and its claim keeps its row and, when it is held, its file. *)
Theorem sweep_spares_claimed_runs lock own at_ now h res h' run :
  store_wf (ho_store h) → sweep lock own at_ now h = (res, h') →
  claim_lives own (ho_locks h) at_ (rs_tables (ho_store h)) run →
  run_untouched run (rs_tables (ho_store h)) (rs_tables (ho_store h')) ∧
  (∀ rep, res = Ok rep → run ∉ interrupted_runs rep) ∧
  ∀ l, tb_claims (rs_tables (ho_store h)) !! run = Some l →
    tb_leases (rs_tables (ho_store h')) !! l = tb_leases (rs_tables (ho_store h)) !! l ∧
    ∀ file, ho_locks h !! l = Some file → lf_held file = true → ho_locks h' !! l = Some file.
Proof.
  intros Hwf Hrun Hv%verdict_None. destruct lock as [[u|]|e].
  2: { injection Hrun as <- <-. split_and!; [done| |done]. intros ? [= <-]. by apply not_elem_of_nil. }
  2: { by injection Hrun as <- <-. }
  destruct u, res as [rep|e].
  2: { unfold sweep in Hrun. destruct (unfinished_runs (ho_store h)) as [[cs|e'] s] eqn:Hun.
       { destruct (foldl (tidy_one at_) _ _) in Hrun. done. }
       injection Hrun as <- <-. by apply with_reader_spec in Hun as [-> _]. }
  destruct (sweep_Ok own at_ now h rep h' Hwf Hrun) as (w & s & locks & Hsw & <- & Htd & <- & Hlocks & _).
  split_and!.
  - etrans; [by apply (sv_spared _ _ _ _ _ Hsw)|apply Htd].
  - intros ? [= <-] Hin. destruct (sv_reported _ _ _ _ _ Hsw run Hin). congruence.
  - intros l Hl. assert (l = own ∨ interruption_reason (tb_leases (rs_tables (ho_store h)) !! l)
      (probe (ho_locks h) l) at_ = None) as Hlive.
    { unfold verdict in Hv. rewrite Hl in Hv. case_bool_decide; [by left|by right]. }
    assert (¬ ∃ x, sw_examined w !! l = Some x ∧ x.2 = Unlocked) as Hdead.
    { intros (x & Hx & Hu). destruct (sv_examined _ _ _ _ _ Hsw l x Hx) as [-> Hne]. destruct Hlive as [?|Hn]; [done|].
      cbn in Hu. unfold interruption_reason in Hn. rewrite Hu in Hn.
      destruct (tb_leases _ !! l) as [y|]; [|done]. by destruct (is_released y). }
    split.
    + rewrite (td_leases _ _ _ _ _ Htd l Hdead). by apply (sv_held _ _ _ _ _ Hsw).
    + intros file Hf Hheld. rewrite Hlocks. apply held_file_stays; [|done]. by rewrite (td_locks _ _ _ _ _ Htd l Hdead).
Qed.

(** C11. A sweep forgets no abandoned run: when it looks, each run that had not finished and
    whose claim is provably dead is reported, either as a failure or as interrupted, and then
    its record is in the terminal state of that name; and no other run is reported interrupted. *)
Theorem sweep_forgets_no_abandoned_run own at_ now h rep h' :
  store_wf (ho_store h) → sweep (Ok (Some tt)) own at_ now h = (Ok rep, h') →
  was_contended rep = false ∧
  (∀ run r, tb_runs (rs_tables (ho_store h)) !! run = Some r → run_finished r = false →
     ¬ claim_lives own (ho_locks h) at_ (rs_tables (ho_store h)) run →
     run ∈ rf_run <$> failures rep ∨
     run ∈ interrupted_runs rep ∧
       ∃ r', tb_runs (rs_tables (ho_store h')) !! run = Some r' ∧ run_state r' = ExecInterrupted) ∧
  ∀ run, run ∈ interrupted_runs rep → ¬ claim_lives own (ho_locks h) at_ (rs_tables (ho_store h)) run.
Proof.
  intros Hwf Hrun. destruct (sweep_Ok own at_ now h rep h' Hwf Hrun) as (w & s & locks & Hsw & <- & Htd & <- & _ & Hset).
  split_and!; [apply Hsw| |].
  - intros run r Hr Hf Hdead. destruct (Hset run r Hr Hf) as [Hv|[?|(Hin & r' & Hr' & Hst)]]; [|by left|right].
    + by apply verdict_None in Hv.
    + split; [done|]. exists r'. split; [|done]. by rewrite (ut_run _ _ _ (td_runs _ _ _ _ _ Htd run)).
  - intros run Hin Hlive%verdict_None. destruct (sv_reported _ _ _ _ _ Hsw run Hin). congruence.
Qed.

(** A collector asks each file by itself. *)
Lemma discard_other id l locks : l ≠ id → discard id locks !! l = locks !! l.
Proof. intros Hne. unfold discard. destruct (unlink_fails id); [done|]. by rewrite lookup_delete_ne. Qed.
Lemma collect_one_other now id f l locks : l ≠ id → collect_one now locks (id, f) !! l = locks !! l.
Proof.
  intros Hne. unfold collect_one. destruct (young now id f); [done|].
  destruct (open_error id), (lock_error id); try done. destruct (lf_held f); [done|]. by apply discard_other.
Qed.
Lemma collect_foldl_other now l entries : ∀ locks,
  l ∉ entries.*1 → foldl (collect_one now) locks entries !! l = locks !! l.
Proof.
  induction entries as [|[id f] entries IH]; intros locks Hni; [done|]. cbn in Hni.
  apply not_elem_of_cons in Hni as [Hne Hni]. cbn [foldl]. rewrite IH by done. by apply collect_one_other.
Qed.
Lemma collect_lookup now locks l file :
  read_dir_fails = false → locks !! l = Some file →
  collect_dead_files now locks !! l = collect_one now {[l := file]} (l, file) !! l.
Proof.
  intros Hdir Hl. unfold collect_dead_files. rewrite Hdir.
  pose proof (NoDup_fst_map_to_list locks) as Hnd.
  destruct (list_elem_of_split (map_to_list locks) (l, file)) as (before & after & Hs); [by apply elem_of_map_to_list|].
  rewrite Hs in *. rewrite fmap_app, fmap_cons in Hnd. apply NoDup_app in Hnd as (_ & Hb & [Ha _]%NoDup_cons).
  rewrite foldl_app. cbn [foldl]. rewrite collect_foldl_other by done.
  assert (foldl (collect_one now) locks before !! l = Some file) as Hm.
  { rewrite collect_foldl_other; [done|]. intros Hin. apply (Hb l Hin). by left. }
  unfold collect_one, discard. destruct (young now l file); [by rewrite lookup_singleton_eq|].
  destruct (open_error l), (lock_error l); rewrite ?Hm, ?lookup_singleton_eq; try done.
  destruct (lf_held file); [by rewrite lookup_singleton_eq|]. destruct (unlink_fails l); [by rewrite lookup_singleton_eq|].
  by rewrite !lookup_delete_eq.
Qed.

(** C13. A fresh claim and the collector of another process, between the file and its lock:
    the file is kept, and the claim then reads as held, exactly when the file is dated within
    the grace before the collector's clock. A file dated after it, as one created once the
    clock was read is, is unlinked: its maker locks no name, and every other coordinator finds
    the runs that claim owns abandoned. *)
Theorem fresh_claim_kept_iff_young id modified now locks locks1 locks2 :
  read_dir_fails = false → metadata_fails id = false → unlink_fails id = false →
  create_lease id modified locks = (Ok tt, locks1) →
  lock_lease id (collect_dead_files now locks1) = (Ok tt, locks2) →
  if (modified <=? now)%Z && (now - modified <? LEASE_EXPIRY_GRACE)%Z
  then probe locks2 id = Held
  else ∀ other at_ t run, other ≠ id → tb_claims t !! run = Some id → ¬ claim_lives other locks2 at_ t run.
Proof.
  intros Hdir Hmeta Hlink Hcreate Hlock. unfold create_lease in Hcreate.
  destruct (open_error id) eqn:Hopen; [done|]. destruct (locks !! id); [done|]. injection Hcreate as <-.
  unfold lock_lease in Hlock. destruct (lock_error id) eqn:Hle; [done|].
  assert (locks2 = alter (λ file, MkLockFile true (lf_modified file)) id (collect_dead_files now (<[id:=MkLockFile false modified]> locks))) as ->.
  { destruct (collect_dead_files _ _ !! id) as [[[] ?]|]; by injection Hlock. }
  clear Hlock. set (in_time := (modified <=? now)%Z && _).
  assert (collect_dead_files now (<[id:=MkLockFile false modified]> locks) !! id
    = if in_time then Some (MkLockFile false modified) else None) as Hfile.
  { rewrite (collect_lookup now _ id (MkLockFile false modified) Hdir) by by rewrite lookup_insert_eq.
    unfold collect_one, young, discard. cbn [lf_modified lf_held]. rewrite Hmeta, Hopen, Hle, Hlink. cbn [negb andb].
    fold in_time. destruct in_time; [by rewrite lookup_singleton_eq|by rewrite lookup_delete_eq]. }
  unfold claim_lives, probe. destruct in_time.
  - by rewrite lookup_alter_eq, Hfile, Hopen, Hle.
  - intros other at_ t run Hne Hcl (l & Hl & Hlive). assert (l = id) as -> by congruence.
    rewrite lookup_alter_eq, Hfile in Hlive. destruct Hlive as [->|(? & _ & _ & [?|[[? ?] _]])]; done.
Qed.
End sweep_promises.

(** ** A concrete start: one run that nobody owns, and one whose coordinator is driving it *)

#[export] Instance demo_intervals : Intervals := λ a b, (clock_instant a - clock_instant b)%Z.
#[export] Instance demo_file_system : FileSystem :=
  { open_error _ := None; lock_error _ := None; unlink_fails _ := false; metadata_fails _ := false; read_dir_fails := false }.

Definition demo_lease : LeaseId := MkLeaseId (demo_uuid 8).
Definition demo_owned : Run := Run_with_id (MkRunId (demo_uuid 6)) (MkTaskId (demo_uuid 1)) (demo_at 1).
Definition demo_both : RunStore :=
  ran (insert_run_with_event demo_owned (Some (LeaseRecord_acquired demo_lease 7 (demo_at 1)))
    (RunEvent_new RunStateChanged (demo_at 1))) demo_built.
Definition demo_host : Host := MkHost demo_both ∅ {[demo_lease := MkLockFile true 0]}.
Definition demo_sweep : result RuntimeError RecoveryReport * Host :=
  sweep (Ok (Some tt)) (MkLeaseId (demo_uuid 9)) (demo_at 100) 0%Z demo_host.
Definition demo_interruption : stateM RunStore StoreError (option RunInterruption) :=
  interrupt_run (run_id demo_first) None NoLease (demo_at 100).

Lemma demo_owned_wf : run_wf demo_owned.
Proof. split; [apply exec_wf_new|done]. Qed.
Lemma demo_both_wf : store_wf demo_both.
Proof.
  apply (store_step_keeps demo_built); [apply demo_built_wf|].
  apply (ran_step _ _ (op_insert_run_with_event demo_owned _ _ demo_owned_wf)).
Qed.
Definition answers_some {A} (r : result StoreError (option A)) : bool := match r with Ok (Some _) => true | _ => false end.
Lemma answers_some_run {A} (m : stateM RunStore StoreError (option A)) s :
  answers_some (m s).1 = true → ∃ a, m s = (Ok (Some a), ran m s).
Proof. unfold ran. destruct (m s) as [[[a|]|e] s']; try done. by exists a. Qed.

Lemma interruption_ends_the_whole_run_witness : ∃ c',
  tb_calls (rs_tables (ran demo_interruption demo_built)) !! demo_id = Some c' ∧
  ToolCall_transition CallInterrupted (demo_at 100) demo_parked = (Ok tt, c').
Proof.
  destruct (answers_some_run demo_interruption demo_built) as [i Hrun]; [reflexivity|].
  destruct (interruption_ends_the_whole_run _ _ _ _ _ _ _ demo_built_wf Hrun) as (_ & (Hcalls & _) & _).
  exact (Hcalls demo_id demo_parked eq_refl eq_refl).
Defined.

Lemma interrupted_at_most_once_witness :
  rs_tables (demo_interruption (ran demo_interruption demo_built)).2 = rs_tables (ran demo_interruption demo_built).
Proof.
  destruct (answers_some_run demo_interruption demo_built) as [i Hrun]; [reflexivity|].
  revert Hrun. generalize (ran demo_interruption demo_built). intros s1 Hrun.
  destruct (demo_interruption s1) as [r s3] eqn:Hagain.
  exact (proj2 (interrupted_at_most_once _ _ _ _ _ _ _ _ _ _ _ _ _ demo_built_wf Hrun (rtc_refl _ s1) Hagain)).
Defined.

Lemma sweep_spares_claimed_runs_witness :
  run_untouched (run_id demo_owned) (rs_tables demo_both) (rs_tables (ho_store demo_sweep.2)).
Proof.
  apply (sweep_spares_claimed_runs (Ok (Some tt)) (MkLeaseId (demo_uuid 9)) (demo_at 100) 0%Z demo_host demo_sweep.1 demo_sweep.2).
  - exact demo_both_wf.
  - apply surjective_pairing.
  - exists demo_lease. split; [reflexivity|]. right. exists (LeaseRecord_acquired demo_lease 7 (demo_at 1)).
    split; [reflexivity|]. split; [reflexivity|]. left. reflexivity.
Defined.

Lemma sweep_forgets_no_abandoned_run_witness : ∃ rep,
  demo_sweep.1 = Ok rep ∧ (run_id demo_first ∈ rf_run <$> failures rep ∨ run_id demo_first ∈ interrupted_runs rep).
Proof.
  destruct demo_sweep as [[rep|e] h'] eqn:Hrun.
  2: { assert (match demo_sweep.1 with Ok _ => true | Err _ => false end = true) as Hok by reflexivity. by rewrite Hrun in Hok. }
  exists rep. split; [done|].
  destruct (sweep_forgets_no_abandoned_run (MkLeaseId (demo_uuid 9)) (demo_at 100) 0%Z demo_host rep h' demo_both_wf Hrun) as (_ & Hall & _).
  destruct (Hall (run_id demo_first) demo_first) as [?|[? _]]; [reflexivity|reflexivity| |by left|by right].
  intros (l & Hl & _). discriminate.
Defined.

(** Forty seconds is young; a nanosecond ahead of the clock is not. *)
Lemma fresh_claim_kept_iff_young_witness :
  probe (lock_lease demo_lease (collect_dead_files 40000000000 (create_lease demo_lease 0 ∅).2)).2 demo_lease = Held ∧
  ¬ claim_lives (MkLeaseId (demo_uuid 9))
      (lock_lease demo_lease (collect_dead_files 0 (create_lease demo_lease 1 ∅).2)).2 (demo_at 0)
      (rs_tables demo_both) (run_id demo_owned).
Proof.
  pose proof (fresh_claim_kept_iff_young demo_lease 0 40000000000 ∅) as Hyoung.
  pose proof (fresh_claim_kept_iff_young demo_lease 1 0 ∅) as Hahead. split.
  - exact (Hyoung _ _ eq_refl eq_refl eq_refl eq_refl eq_refl).
  - exact (Hahead _ _ eq_refl eq_refl eq_refl eq_refl eq_refl (MkLeaseId (demo_uuid 9)) _ (rs_tables demo_both)
      (run_id demo_owned) ltac:(done) eq_refl).
Defined.
