(* ===== verification/Subscription.v ===== *)
(** * Following a run

    Models [src/crates/harkness-runtime/src/coordinator/subscription.rs] and the delivery of
    events in [coordinator/mod.rs]: a reader is given the durable history of a run, page by
    page, and then the events published after it, through a queue that is cut off rather
    than allowed to grow.

    Threads are the interleaving of their critical sections: the store's accesses, the lock
    of a run's delivery, which a publisher holds while it reads pages and pushes their
    events, and the lock of one reader's queue.  A reader is used by one thread. *)

From Stdlib Require Import ZArith ZifyN ZifyBool.
From stdpp Require Import base decidable countable list gmap sets relations strings.
From S2P Require Import Prelude Digest Tool External Trust Policy Approval Matcher Lifecycle Domain Records Wire RunStore StoreClaims StoreLaws ClaimLaws Interrupt StoreSafety.

Definition SUBSCRIBER_CAPACITY : nat := 64.
Definition DEFAULT_EVENT_PAGE_LIMIT : N := 200.

Inductive TryReceiveError := Empty | Disconnected.
Inductive ReceiveTimeoutError := Timeout | TimeoutDisconnected.

Section subscription.
Context `{PlatformLaws, !StoreParams, Faults, !Fresh, !FreshLaws}.
Abbreviation txM A := (stateM Tables StoreError A).
Abbreviation storeM A := (stateM RunStore StoreError A).

Inductive EventDelivery :=
| Event (event : StoredEvent)
| Lagged (run : RunId) (last_available : N).

(** ** A reader's queue *)

Record Subscriber := MkSubscriber {
  sb_items : list EventDelivery;
  sb_closed : bool;
  sb_live_after : option N;
}.
Definition Subscriber_new (live_after : option N) : Subscriber := MkSubscriber [] false live_after.
Definition push (event : StoredEvent) (s : Subscriber) : Subscriber :=
  if is_some_and (λ tip, se_seq event <=? tip)%N (sb_live_after s) then s
  else if sb_closed s then s
  else if SUBSCRIBER_CAPACITY <=? length (sb_items s) then
    MkSubscriber [Lagged (se_run event) (se_seq event)] true (sb_live_after s)
  else MkSubscriber (sb_items s ++ [Event event]) false (sb_live_after s).
Definition close (s : Subscriber) : Subscriber := MkSubscriber (sb_items s) true (sb_live_after s).

(** What the head of a queue is for the thread that holds its lock; [None] is a wait. *)
Definition pop_live (s : Subscriber) : option (result unit EventDelivery) * Subscriber :=
  match sb_items s with
  | item :: items => (Some (Ok item), MkSubscriber items (sb_closed s) (sb_live_after s))
  | [] => (if sb_closed s then Some (Err tt) else None, s)
  end.

(** ** A reader *)

Record ReplayState := MkReplayState {
  rp_run : RunId;
  rp_tip : option N;
  rp_cursor : option N;
  rp_items : list StoredEvent;
  rp_exhausted : bool;
}.
Record EventReceiver := MkEventReceiver { er_subscriber : Subscriber; er_replay : ReplayState }.
Definition EventReceiver_new (s : Subscriber) (run : RunId) (tip : option N) : EventReceiver :=
  MkEventReceiver s (MkReplayState run tip None [] (is_none tip)).

Fixpoint take_while {A} (p : A → bool) (l : list A) : list A :=
  match l with
  | [] => []
  | a :: l => if p a then a :: take_while p l else []
  end.

Definition replay_next (r : EventReceiver) (s : RunStore) : option StoredEvent * EventReceiver * RunStore :=
  let '(MkReplayState run tip cursor items exhausted) := er_replay r in
  match items with
  | event :: items => (Some event, MkEventReceiver (er_subscriber r) (MkReplayState run tip cursor items exhausted), s)
  | [] =>
    if exhausted then (None, r, s)
    else
      match events run cursor DEFAULT_EVENT_PAGE_LIMIT s with
      | (Err _, s) =>
        (None, MkEventReceiver (close (er_subscriber r)) (MkReplayState run tip cursor [] true), s)
      | (Ok page, s) =>
        let tip_seq := default 0%N tip in
        let items := take_while (λ e, se_seq e <=? tip_seq)%N page in
        let cursor := match se_seq <$> last items with Some c => Some c | None => cursor end in
        let exhausted := match cursor with None => true | Some c => (tip_seq <=? c)%N end in
        (head items, MkEventReceiver (er_subscriber r) (MkReplayState run tip cursor (tail items) exhausted), s)
      end
  end.

(** One attempt of a receive: the replay, and then the queue. *)
Definition receive (r : EventReceiver) (s : RunStore)
    : option (result unit EventDelivery) * EventReceiver * RunStore :=
  match replay_next r s with
  | (Some event, r, s) => (Some (Ok (Event event)), r, s)
  | (None, r, s) =>
    let '(answer, sub) := pop_live (er_subscriber r) in
    (answer, MkEventReceiver sub (er_replay r), s)
  end.
Definition try_recv (r : EventReceiver) (s : RunStore)
    : result TryReceiveError EventDelivery * EventReceiver * RunStore :=
  let '(answer, r, s) := receive r s in
  (match answer with Some (Ok item) => Ok item | Some (Err _) => Err Disconnected | None => Err Empty end, r, s).
(** A blocked receive that is woken looks at its queue again, and not at the replay. *)
Definition wake (r : EventReceiver) : option (result unit EventDelivery) * EventReceiver :=
  let '(answer, sub) := pop_live (er_subscriber r) in
  (answer, MkEventReceiver sub (er_replay r)).
Definition recv_answer (answer : option (result unit EventDelivery)) (out_of_time : bool)
    : option (result ReceiveTimeoutError EventDelivery) :=
  match answer with
  | Some (Ok item) => Some (Ok item)
  | Some (Err _) => Some (Err TimeoutDisconnected)
  | None => if out_of_time then Some (Err Timeout) else None
  end.

(** ** The delivery of one run *)

Record DeliveryState := MkDeliveryState {
  de_cursor : option N;
  de_subscribers : list nat;
  de_closed : bool;
}.
Definition DeliveryState_default : DeliveryState := MkDeliveryState None [] false.
(** A reader that has not been dropped: its receiver, whether its thread is parked in a
    receive, and what it has been given so far. *)
Record Reader := MkReader { rd_receiver : EventReceiver; rd_parked : bool; rd_heard : list EventDelivery }.
(** The readers of a run, each at an address of its own. *)
Abbreviation Readers := (gmap nat Reader).

Definition on_subscriber (f : Subscriber → Subscriber) (r : Reader) : Reader :=
  MkReader (MkEventReceiver (f (er_subscriber (rd_receiver r))) (er_replay (rd_receiver r))) (rd_parked r) (rd_heard r).
(** A reader after an answer; one without an answer parks if it may. *)
Definition answered_with (answer : option (result unit EventDelivery)) (parks : bool) (receiver : EventReceiver)
    (r : Reader) : Reader :=
  match answer with
  | Some (Ok item) => MkReader receiver false (rd_heard r ++ [item])
  | Some (Err _) => MkReader receiver false (rd_heard r)
  | None => MkReader receiver parks (rd_heard r)
  end.
(** [retain]: an address that no longer upgrades is forgotten, the others are told. *)
Fixpoint retain (f : Subscriber → Subscriber) (l : list nat) (readers : Readers) : list nat * Readers :=
  match l with
  | [] => ([], readers)
  | k :: l =>
    match readers !! k with
    | None => retain f l readers
    | Some r =>
      let '(l, readers) := retain f l (<[k := on_subscriber f r]> readers) in
      (k :: l, readers)
    end
  end.

Definition publish_event (event : StoredEvent) (d : DeliveryState) (readers : Readers) : DeliveryState * Readers :=
  let '(subscribers, readers) := retain (push event) (de_subscribers d) readers in
  (MkDeliveryState (Some (se_seq event)) subscribers (de_closed d), readers).
Definition close_delivery (d : DeliveryState) (readers : Readers) : DeliveryState * Readers :=
  let '(subscribers, readers) := retain close (de_subscribers d) readers in
  (MkDeliveryState (de_cursor d) subscribers true, readers).

Definition latest_event_seq (run : RunId) : storeM (option N) :=
  with_reader (λ t, (Ok match log_of_run run t with [] => None | _ => Some (latest_sequence run t) end, t)).

(** Everything one run's delivery is about.  [wo_publishing] is the page a publisher holds
    the lock of the delivery with. *)
Record World := MkWorld {
  wo_store : RunStore;
  wo_delivery : DeliveryState;
  wo_publishing : option (list StoredEvent);
  wo_readers : Readers;
}.
Definition World_new (s : RunStore) : World := MkWorld s DeliveryState_default None ∅.

Section run.
Context (run : RunId).

(** Under the lock of the delivery. [active]: whether a worker of this process drives the
    run. *)
Definition subscribe (k : nat) (active : bool) (w : World) : result StoreError unit * World :=
  match load (R:=Run) run (wo_store w) with
  | (Err e, s) => (Err e, MkWorld s (wo_delivery w) (wo_publishing w) (wo_readers w))
  | (Ok record, s) =>
    match latest_event_seq run s with
    | (Err e, s) => (Err e, MkWorld s (wo_delivery w) (wo_publishing w) (wo_readers w))
    | (Ok tip, s) =>
      let d := wo_delivery w in
      let subscriber := Subscriber_new tip in
      let '(subscriber, d) :=
        if de_closed d || is_terminal (run_state record) && negb active then (close subscriber, d)
        else (subscriber, MkDeliveryState (de_cursor d) (de_subscribers d ++ [k]) (de_closed d)) in
      (Ok tt, MkWorld s d (wo_publishing w) (<[k := MkReader (EventReceiver_new subscriber run tip) false []]> (wo_readers w)))
    end
  end.

(** The loop of [publish], one page at a time: an empty page ends it, and so does a failure. *)
Definition publish_page (w : World) : World :=
  match events run (de_cursor (wo_delivery w)) DEFAULT_EVENT_PAGE_LIMIT (wo_store w) with
  | (Err _, s) => MkWorld s (wo_delivery w) None (wo_readers w)
  | (Ok [], s) => MkWorld s (wo_delivery w) None (wo_readers w)
  | (Ok page, s) => MkWorld s (wo_delivery w) (Some page) (wo_readers w)
  end.

(** What a thread may do next. *)
Inductive world_step (w : World) : World → Prop :=
(** Any operation of the store, by any thread. *)
| step_store s : store_step (wo_store w) s →
    world_step w (MkWorld s (wo_delivery w) (wo_publishing w) (wo_readers w))
| step_subscribe k active : wo_publishing w = None → wo_readers w !! k = None → k ∉ de_subscribers (wo_delivery w) →
    world_step w (subscribe k active w).2
| step_drop k : world_step w (MkWorld (wo_store w) (wo_delivery w) (wo_publishing w) (delete k (wo_readers w)))
| step_publish : wo_publishing w = None →
    world_step w (MkWorld (wo_store w) (wo_delivery w) (Some []) (wo_readers w))
| step_page : wo_publishing w = Some [] → world_step w (publish_page w)
| step_push event rest : wo_publishing w = Some (event :: rest) →
    world_step w
      (let '(d, readers) := publish_event event (wo_delivery w) (wo_readers w) in
       MkWorld (wo_store w) d (Some rest) readers)
| step_close : wo_publishing w = None →
    world_step w
      (let '(d, readers) := close_delivery (wo_delivery w) (wo_readers w) in
       MkWorld (wo_store w) d None readers)
(** A receive begins, and parks if it may and nothing is there. *)
| step_receive k r parks : wo_readers w !! k = Some r → rd_parked r = false →
    world_step w
      (let '(answer, receiver, s) := receive (rd_receiver r) (wo_store w) in
       MkWorld s (wo_delivery w) (wo_publishing w) (<[k := answered_with answer parks receiver r]> (wo_readers w)))
(** A parked receive is woken, and goes on waiting or gives up as its time allows. *)
| step_wake k r parks : wo_readers w !! k = Some r → rd_parked r = true →
    world_step w
      (let '(answer, receiver) := wake (rd_receiver r) in
       MkWorld (wo_store w) (wo_delivery w) (wo_publishing w)
         (<[k := answered_with answer parks receiver r]> (wo_readers w))).
End run.
End subscription.
