(* ===== verification/SubscriptionSafety.v ===== *)
(** * What a reader of a run hears

    A reader is given the log of its run from the beginning, in order and without a hole,
    whatever is appended, published, received or dropped meanwhile, until it is told that it
    fell behind; unless a page of the history could not be read, and then what it is given
    has a hole. *)

From Stdlib Require Import ZArith ZifyN ZifyNat ZifyBool.
From stdpp Require Import base decidable countable list gmap sets relations strings.
From S2P Require Import Prelude Digest Tool External Trust Policy Approval Matcher Lifecycle Domain Records Wire RunStore StoreClaims StoreLaws ClaimLaws Interrupt StoreSafety Subscription.

(** ** Pieces of a log *)

Section pieces.
Context `{PlatformLaws, !StoreParams}.

Definition slice {A} (i j : nat) (l : list A) : list A := take (j - i) (drop i l).
Lemma slice_nil {A} i (l : list A) : slice i i l = [].
Proof. unfold slice. by rewrite Nat.sub_diag. Qed.
Lemma slice_grow {A} i j (l l' : list A) : l `prefix_of` l' → j ≤ length l → slice i j l' = slice i j l.
Proof.
  intros [k ->] Hj. unfold slice. destruct (decide (i ≤ length l)).
  - rewrite drop_app_le by done. rewrite take_app_le; [done|]. rewrite length_drop. lia.
  - assert (j - i = 0) as -> by lia. done.
Qed.
Lemma take_grow {A} h (l l' : list A) : l `prefix_of` l' → h ≤ length l → take h l' = take h l.
Proof. intros [k ->] Hh. by rewrite take_app_le. Qed.
Lemma slice_cons {A} i j (l : list A) x rest :
  slice i j l = x :: rest → l !! i = Some x ∧ rest = slice (S i) j l ∧ i < j.
Proof.
  unfold slice. intros Hs. destruct (j - i) as [|n] eqn:Hn; [done|].
  destruct (drop i l) as [|y k] eqn:Hd; [done|]. injection Hs as -> <-.
  assert (l !! i = Some x) as Hx by by rewrite <- (Nat.add_0_r i), <- lookup_drop, Hd.
  split_and!; [done| |lia]. rewrite (drop_S l x i Hx) in Hd. injection Hd as ->. f_equal. lia.
Qed.
Lemma slice_snoc {A} i j (l : list A) x : i ≤ j → l !! j = Some x → slice i j l ++ [x] = slice i (S j) l.
Proof.
  intros Hij Hx. unfold slice. assert (S j - i = S (j - i)) as -> by lia. symmetry. apply take_S_r.
  rewrite lookup_drop, <- Hx. f_equal. lia.
Qed.
Lemma length_slice {A} i j (l : list A) : j ≤ length l → length (slice i j l) = j - i.
Proof. intros Hj. unfold slice. rewrite length_take, length_drop. lia. Qed.

Lemma numbered_drop a k l : k ≤ length l → numbered a l → numbered (a + k) (drop k l).
Proof.
  unfold numbered. intros Hk Hl. rewrite fmap_drop, Hl, <- fmap_drop, length_drop.
  by rewrite drop_seq.
Qed.
Lemma numbered_take a k l : numbered a l → numbered a (take k l).
Proof.
  unfold numbered. intros Hl. rewrite fmap_take, Hl, <- fmap_take, length_take, take_seq. by rewrite Nat.min_comm.
Qed.
Lemma numbered_slice i j l : i ≤ length l → numbered 0 l → numbered i (slice i j l).
Proof. intros Hi Hl. unfold slice. apply numbered_take. by apply (numbered_drop 0). Qed.
Lemma take_while_numbered a tip l :
  numbered a l → take_while (λ e, se_seq e <=? tip)%N l = take (N.to_nat tip - a) l.
Proof.
  revert a. induction l as [|e l IH]; intros a Hl; [by rewrite take_nil|].
  apply numbered_cons in Hl as [He Hl]. cbn [take_while]. destruct (se_seq e <=? tip)%N eqn:Hle.
  - rewrite (IH (S a) Hl). assert (N.to_nat tip - a = S (N.to_nat tip - S a)) as -> by lia. done.
  - assert (N.to_nat tip - a = 0) as -> by lia. done.
Qed.
Lemma take_slice {A} n i j (l : list A) : take n (slice i j l) = slice i (j `min` (i + n)) l.
Proof. unfold slice. rewrite take_take. f_equal. lia. Qed.
Lemma last_slice i j l e :
  i ≤ length l → numbered 0 l → j ≤ length l → last (slice i j l) = Some e → se_seq e = N.of_nat j.
Proof.
  intros Hi Hl Hj Hlast. rewrite last_lookup, length_slice in Hlast by done.
  assert (i < j). { destruct (decide (j ≤ i)); [|lia]. unfold slice in Hlast. assert (j - i = 0) as Hz by lia. by rewrite Hz in Hlast. }
  apply (numbered_lookup i) in Hlast; [|by apply numbered_slice]. lia.
Qed.
End pieces.

(** ** The invariant *)

Section invariant.
Context `{PlatformLaws, !StoreParams, Faults, !Fresh, !FreshLaws}.
Context (run : RunId).

Definition place (o : option N) : nat := N.to_nat (default 0%N o).
Arguments place : simpl never.
Definition log_of (w : World) : list StoredEvent := log_of_run run (rs_tables (wo_store w)).

(** A page of the history could not be read, and the replay was given up before its end. *)
Definition replay_failed (r : Reader) : Prop :=
  let rp := er_replay (rd_receiver r) in
  rp_exhausted rp = true ∧ rp_items rp = [] ∧ place (rp_cursor rp) < place (rp_tip rp).
Definition replayed (rp : ReplayState) : Prop := rp_items rp = [] ∧ place (rp_cursor rp) = place (rp_tip rp).

(** The replay after [h] events were heard. *)
Definition replay_at (L : list StoredEvent) (h : nat) (rp : ReplayState) : Prop :=
  rp_exhausted rp = (place (rp_tip rp) <=? place (rp_cursor rp)) ∧
  place (rp_cursor rp) ≤ place (rp_tip rp) ∧
  (rp_items rp = slice h (place (rp_cursor rp)) L ∧ h ≤ place (rp_cursor rp) ∨ replayed rp ∧ place (rp_tip rp) ≤ h).
(** The queue holds what was published from [g] on, up to [m] while it is open; or that the
    reader fell behind; and [rest] is what was heard after the events. *)
Definition queue_at (L : list StoredEvent) (g m : nat) (s : Subscriber) (rp : ReplayState) (rest : list EventDelivery) : Prop :=
  (rest = [] ∧ ∃ j, g ≤ j ≤ m ∧ sb_items s = Event <$> slice g j L ∧ (sb_closed s = false → j = m)) ∨
  (sb_closed s = true ∧ ∃ n, rest = [] ∧ sb_items s = [Lagged run n] ∨
     rest = [Lagged run n] ∧ sb_items s = [] ∧ replayed rp).
Definition in_step (L : list StoredEvent) (c : nat) (r : Reader) : Prop :=
  let '(MkEventReceiver s rp) := rd_receiver r in
  ∃ h rest, h ≤ length L ∧ rd_heard r = (Event <$> take h L) ++ rest ∧ replay_at L h rp ∧
    queue_at L (h `max` place (rp_tip rp)) (c `max` place (rp_tip rp)) s rp rest ∧
    (rd_parked r = true → replayed rp).
Record reader_ok (L : list StoredEvent) (c : nat) (live : bool) (r : Reader) : Prop := {
  ro_run : rp_run (er_replay (rd_receiver r)) = run;
  ro_tip : sb_live_after (er_subscriber (rd_receiver r)) = rp_tip (er_replay (rd_receiver r));
  ro_le : place (rp_tip (er_replay (rd_receiver r))) ≤ length L;
  ro_some : rp_tip (er_replay (rd_receiver r)) ≠ Some 0%N;
  ro_live : sb_closed (er_subscriber (rd_receiver r)) = false → live = true;
  ro_state : replay_failed r ∨ in_step L c r;
}.

Lemma reader_grow L L' c live r : c ≤ length L → L `prefix_of` L' → reader_ok L c live r → reader_ok L' c live r.
Proof.
  intros Hc Hp [Hrun Htip Hle Hsome Hlive Hst]. pose proof (prefix_length _ _ Hp). split; [done|done|lia|done|done|].
  destruct Hst as [|Hst]; [by left|right]. unfold in_step in *. destruct (rd_receiver r) as [s rp]. cbn in *.
  destruct Hst as (h & rest & Hh & Hheard & (Hex & Hcur & Hitems) & Hq & Hpark). exists h, rest. split_and!; [lia| | | |done].
  - rewrite (take_grow h L L') by done. done.
  - split_and!; [done..|]. destruct Hitems as [[Hi ?]|Hi]; [left|by right]. rewrite (slice_grow _ _ L L') by (done || lia). done.
  - destruct Hq as [(Hr & j & Hj & Hi & Ho)|Hq]; [left|by right]. split; [done|]. exists j.
    rewrite (slice_grow _ _ L L') by (done || lia). done.
Qed.

(** A reader that is closed, or is told of the event, keeps step with a publisher. *)
Lemma on_closed L c c' live live' r :
  c ≤ c' → sb_closed (er_subscriber (rd_receiver r)) = true → reader_ok L c live r → reader_ok L c' live' r.
Proof.
  intros Hc Hcl [Hrun Htip Hle Hsome Hlive Hst]. split; try done; [congruence|].
  destruct Hst as [|Hst]; [by left|right]. unfold in_step in *. destruct (rd_receiver r) as [s rp]. cbn in *.
  destruct Hst as (h & rest & Hh & Hheard & Hrep & Hq & Hpark). exists h, rest. split_and!; [done..| |done].
  destruct Hq as [(Hr & j & Hj & Hi & Ho)|Hq]; [left|by right]. split; [done|]. exists j. split_and!; [lia|lia|done|congruence].
Qed.
Lemma on_close L c live r : reader_ok L c live r → reader_ok L c live (on_subscriber close r).
Proof.
  destruct r as [[s rp] parked heard]. intros [Hrun Htip Hle Hsome Hlive Hst]. split; try done.
  destruct Hst as [|Hst]; [by left|right]. unfold in_step in *. cbn in *.
  destruct Hst as (h & rest & Hh & Hheard & Hrep & Hq & Hpark). exists h, rest. split_and!; [done..| |done].
  destruct Hq as [(Hr & j & Hj & Hi & Ho)|Hq]; [left|right]; [|by destruct Hq as [_ Hq]].
  split; [done|]. by exists j.
Qed.
Lemma on_push L c live e r :
  numbered 0 L → L !! c = Some e → se_run e = run → reader_ok L c live r →
  reader_ok L (S c) live (on_subscriber (push e) r).
Proof.
  destruct r as [[s rp] parked heard]. intros Hn He Hr [Hrun Htip Hle Hsome Hlive Hst].
  cbn in *. pose proof (numbered_lookup 0 L c e Hn He) as Hseq. pose proof (lookup_lt_Some _ _ _ He).
  unfold on_subscriber. cbn. unfold push. rewrite Htip.
  destruct (is_some_and (λ tip, se_seq e <=? tip)%N (rp_tip rp)) eqn:Hskip.
  { assert (S c ≤ place (rp_tip rp)) as Hm by (destruct (rp_tip rp); [unfold place; cbn in *; lia|done]).
    split; try done. destruct Hst as [|Hst]; [by left|right]. unfold in_step in *. cbn in *.
    destruct Hst as (h & rest & ? & ? & ? & Hq & ?). exists h, rest. split_and!; [done..| |done].
    by replace (S c `max` place (rp_tip rp)) with (c `max` place (rp_tip rp)) by lia. }
  assert (place (rp_tip rp) ≤ c) as Hm by (destruct (rp_tip rp); unfold place; cbn in *; lia).
  destruct (sb_closed s) eqn:Hcl.
  { apply (on_closed L c _ live); [lia|done|]. split; try done. cbn. congruence. }
  destruct (SUBSCRIBER_CAPACITY <=? length (sb_items s)) eqn:Hfull; (split; cbn; try done);
    (destruct Hst as [|Hst]; [by left|right]); unfold in_step in *; cbn in *;
    destruct Hst as (h & rest & Hh & Hheard & Hrep & Hq & Hpark); unfold queue_at in Hq; rewrite Hcl in Hq;
    (destruct Hq as [(Hrest & j & Hj & Hi & Ho)|[? _]]; [|done]); exists h, rest; (split_and!; [done..| |done]).
  - right. split; [done|]. cbn. exists (se_seq e). rewrite Hr. by left.
  - left. split; [done|]. exists (S c). cbn. specialize (Ho eq_refl). split_and!; [lia|lia| |lia].
    rewrite Hi. assert (j = c) as -> by lia. by rewrite <- (slice_snoc _ c L e) by (lia || done); rewrite fmap_app.
Qed.

(** ** A reader's turn *)

Lemma events_Ok after s page s' :
  events run after DEFAULT_EVENT_PAGE_LIMIT s = (Ok page, s') → tables_wf (rs_tables s) →
  (N.of_nat (length (log_of_run run (rs_tables s))) <= I64_MAX)%N →
  page = slice (place after) (length (log_of_run run (rs_tables s)) `min` (place after + 200)) (log_of_run run (rs_tables s)).
Proof.
  intros [_ Hread]%with_reader_spec Hwf Hfits. specialize (Hread page eq_refl). cbn in Hread. injection Hread as <-.
  set (L := log_of_run run (rs_tables s)) in *. unfold take_events, DEFAULT_EVENT_PAGE_LIMIT.
  rewrite (filter_above 0) by by apply numbered_log. rewrite Nat.sub_0_r.
  destruct (decide (place after ≤ length L)) as [Hle|Hgt].
  - unfold place in *. assert (N.to_nat (N.min (default 0%N after) I64_MAX) = N.to_nat (default 0%N after)) as -> by lia.
    set (p := N.to_nat (default 0%N after)) in *. unfold slice. destruct (decide (p + 200 ≤ length L)).
    + f_equal. lia.
    + rewrite !take_ge; [done|rewrite length_drop; lia..].
  - unfold place in *. rewrite drop_ge by lia. unfold slice. by rewrite (drop_ge L) by lia; rewrite !take_nil.
Qed.

Lemma heard_event {A} h (L : list A) x : L !! h = Some x → take h L ++ [x] = take (S h) L.
Proof. intros Hx. symmetry. by apply take_S_r. Qed.

(** Taking the head of the queue, once the replay is over. *)
Lemma live_turn L c live r parks :
  c ≤ length L → reader_ok L c live r → replayed (er_replay (rd_receiver r)) →
  let '(answer, sub) := pop_live (er_subscriber (rd_receiver r)) in
  reader_ok L c live (answered_with answer parks (MkEventReceiver sub (er_replay (rd_receiver r))) r) ∧
  (answer = None → rd_heard r = Event <$> take (c `max` place (rp_tip (er_replay (rd_receiver r)))) L).
Proof.
  destruct r as [[[items closed after] rp] parked heard]. intros Hc [Hrun Htip Hle Hsome Hlive Hst] Hdone. cbn in *.
  destruct Hst as [(_ & _ & Hlt)|Hst]; [cbn in Hlt; destruct Hdone; lia|].
  destruct Hst as (h & rest & Hh & Hheard & Hrep & Hq & Hpark). cbn in *.
  assert (place (rp_tip rp) ≤ h ∨ h = place (rp_cursor rp) ∧ h = place (rp_tip rp)) as Hpos.
  { destruct Hrep as (_ & _ & [[Hi Hlt]|[_ ?]]); [|by left]. destruct Hdone as [Hn He]. rewrite Hn in Hi.
    apply (f_equal length) in Hi. rewrite length_slice in Hi by lia. cbn in Hi. lia. }
  assert (place (rp_tip rp) ≤ h) as Hph by lia.
  assert (∀ h', h ≤ h' → replay_at L h' rp) as Hrep'.
  { intros h' ?. destruct Hrep as (He & Hcur & _). split_and!; [done..|]. right. split; [done|lia]. }
  replace (h `max` place (rp_tip rp)) with h in Hq by lia.
  unfold pop_live. cbn [sb_items sb_closed sb_live_after]. destruct items as [|item items].
  - assert (rest = [] ∧ h = c `max` place (rp_tip rp) ∧ closed = false ∨ closed = true) as Hcl.
    { destruct closed; [by right|left]. destruct Hq as [(-> & j & Hj & Hi & Ho)|[? _]]; [|done]. cbn in *.
      specialize (Ho eq_refl). symmetry in Hi. apply fmap_nil_inv in Hi. apply (f_equal length) in Hi.
      rewrite length_slice in Hi by lia. cbn in Hi. split_and!; [done|lia|done]. }
    destruct Hcl as [(-> & Hm & ->)| ->].
    + split; [|intros _; rewrite Hheard, app_nil_r; congruence]. split; try done. right.
      exists h, []. split_and!; [done..| |by intros _]. by replace (h `max` place (rp_tip rp)) with h by lia.
    + split; [|done]. split; try done. right. exists h, rest. split_and!; [done..| |done].
      by replace (h `max` place (rp_tip rp)) with h by lia.
  - split; [|done]. split; try done. right. destruct Hq as [(-> & j & Hj & Hi & Ho)|[Hcl Hq]].
    + cbn in Hi. symmetry in Hi. apply fmap_cons_inv in Hi as (e & l & -> & -> & Hs).
      apply slice_cons in Hs as (Hx & -> & Hlt). exists (S h), []. cbn. split_and!; [lia| |by apply Hrep'; lia| |done].
      * rewrite Hheard, !app_nil_r, <- (heard_event h L e Hx). by rewrite fmap_app.
      * left. split; [done|]. exists j. replace (S h `max` place (rp_tip rp)) with (S h) by lia. split_and!; [lia|lia|done|done].
    + destruct Hq as (n & [[-> [= -> ->]]|(_ & ? & _)]); [|done]. exists h, [Lagged run n].
      cbn. rewrite app_nil_r in Hheard. split_and!; [done|by rewrite Hheard|done| |done].
      right. split; [done|]. exists n. by right.
Qed.

Lemma failed_turn L c live r parks :
  reader_ok L c live r → replay_failed r →
  let '(answer, sub) := pop_live (er_subscriber (rd_receiver r)) in
  reader_ok L c live (answered_with answer parks (MkEventReceiver sub (er_replay (rd_receiver r))) r).
Proof.
  destruct r as [[[items closed after] rp] parked heard]. intros [Hrun Htip Hle Hsome Hlive _] Hf. cbn in *.
  unfold pop_live. cbn. destruct items as [|item items]; [destruct closed|]; split; try done; by left.
Qed.

(** While the history is being replayed, what was heard is a part of the log. *)
Lemma replaying L c r :
  in_step L c r → ¬ replayed (er_replay (rd_receiver r)) →
  let h := length (rd_heard r) in let rp := er_replay (rd_receiver r) in
  h ≤ length L ∧ rd_heard r = Event <$> take h L ∧ rp_items rp = slice h (place (rp_cursor rp)) L ∧
  h ≤ place (rp_cursor rp) ≤ place (rp_tip rp) ∧ rp_exhausted rp = (place (rp_tip rp) <=? place (rp_cursor rp)) ∧
  queue_at L (place (rp_tip rp)) (c `max` place (rp_tip rp)) (er_subscriber (rd_receiver r)) rp [].
Proof.
  destruct r as [[sub rp] parked heard]. cbn. intros (h & rest & Hh & Hheard & Hrep & Hqueue & _) Hnot. cbn in *.
  assert (rest = []) as ->. { destruct Hqueue as [[? _]|[_ (n & [[? _]|(_ & _ & ?)])]]; done. }
  destruct Hrep as (Hex & Hcur & [[Hi Hlt]|[? _]]); [|done].
  rewrite app_nil_r in Hheard. assert (length heard = h) as Hlen by (rewrite Hheard, length_fmap, length_take; lia).
  rewrite Hlen. replace (h `max` place (rp_tip rp)) with (place (rp_tip rp)) in Hqueue by lia. done.
Qed.
(** The next event of the history, with the page it came from. *)
Lemma replay_turn L c live r parks cursor event items :
  c ≤ length L → reader_ok L c live r → in_step L c r → ¬ replayed (er_replay (rd_receiver r)) →
  let rp := er_replay (rd_receiver r) in
  length (rd_heard r) ≤ place cursor ≤ place (rp_tip rp) →
  event :: items = slice (length (rd_heard r)) (place cursor) L →
  reader_ok L c live
    (answered_with (Some (Ok (Event event))) parks
       (MkEventReceiver (er_subscriber (rd_receiver r))
          (MkReplayState (rp_run rp) (rp_tip rp) cursor items (place (rp_tip rp) <=? place cursor)%nat)) r).
Proof.
  intros Hc Hok Hst Hnot. destruct (replaying L c r Hst Hnot) as (Hh & Hheard & _ & _ & _ & Hqueue).
  destruct r as [[sub rp] parked heard], Hok as [Hrun Htip Hle Hsome Hlive _]. cbn in *. intros Hcur Hs.
  symmetry in Hs. apply slice_cons in Hs as (Hx & -> & Hlt). split; try done. right. exists (S (length heard)), [].
  split_and!; [cbn; lia| | | |done].
  - cbn. rewrite app_nil_r, Hheard at 1. rewrite <- (heard_event _ L event Hx). by rewrite fmap_app.
  - split_and!; [done|cbn; lia|]. left. cbn. split; [done|lia].
  - cbn. replace (S (length heard) `max` place (rp_tip rp)) with (place (rp_tip rp)) by lia.
    destruct Hqueue as [Hqueue|[Hcl (n & [Hqueue|(? & _)])]]; [by left|right|done]. split; [done|]. exists n. by left.
Qed.

Lemma receive_turn c live r parks s answer receiver s' :
  let L := log_of_run run (rs_tables s) in
  tables_wf (rs_tables s) → (N.of_nat (length L) <= I64_MAX)%N → c ≤ length L → reader_ok L c live r →
  receive (rd_receiver r) s = (answer, receiver, s') →
  rs_tables s' = rs_tables s ∧ later s s' ∧ reader_ok L c live (answered_with answer parks receiver r) ∧
  (answer = None → ¬ replay_failed r → rd_heard r = Event <$> take (c `max` place (rp_tip (er_replay (rd_receiver r)))) L).
Proof.
  intros L Hwf Hfits Hc Hok. pose proof (numbered_log run _ Hwf) as Hn. fold L in Hn.
  pose proof (live_turn L c live r parks Hc Hok) as Hlive. pose proof (failed_turn L c live r parks Hok) as Hfail.
  pose proof (replay_turn L c live r parks) as Hreplay. pose proof (replaying L c r) as Hwhile.
  pose proof (ro_state _ _ _ _ Hok) as Hst. pose proof (ro_run _ _ _ _ Hok) as Hrun.
  destruct r as [[sub [run' tip cursor items exhausted]] parked heard].
  unfold receive, replay_next. cbn [rd_receiver er_replay er_subscriber rp_tip rp_items rp_run rp_cursor rp_exhausted rd_heard] in *.
  destruct items as [|event items]; [destruct exhausted|].
  - cbn. intros Hp. destruct (pop_live sub) as [a sub']. injection Hp as <- <- <-. destruct Hst as [Hf|Hst].
    + split_and!; [done|done|by apply Hfail|by intros _ []].
    + destruct Hlive as [? Hnone]; [|split_and!; [done..|]; intros ? _; by apply Hnone].
      destruct Hst as (h & rest & _ & _ & (Hex & Hcur & _) & _). cbn in *. symmetry in Hex. apply Nat.leb_le in Hex.
      split; [done|cbn; lia].
  - destruct Hst as [[? _]|Hst]; [done|].
    assert (¬ replayed (MkReplayState run' tip cursor [] false)) as Hnot.
    { intros [_ He]. destruct Hst as (h & rest & _ & _ & (Hex & Hcur & _) & _). cbn in *. symmetry in Hex.
      apply Nat.leb_gt in Hex. lia. }
    destruct (Hwhile Hst Hnot) as (Hh & Hheard & Hi & Hcur & Hex & _). symmetry in Hex. apply Nat.leb_gt in Hex.
    apply (f_equal length) in Hi. rewrite length_slice in Hi by (pose proof (ro_le _ _ _ _ Hok); cbn in *; lia). cbn in Hi.
    assert (place cursor = length heard) as Hpos by lia.
    destruct (events run' cursor DEFAULT_EVENT_PAGE_LIMIT s) as [[page|e] s1] eqn:Hev.
    + rewrite Hrun in Hev. pose proof Hev as [-> _]%with_reader_spec. apply events_Ok in Hev; [|done|done]. fold L in Hev.
      set (tip_seq := default 0%N tip). assert (N.to_nat tip_seq = place tip) as Htip by done.
      set (q := place tip `min` (length L `min` (place cursor + 200))).
      assert (take_while (λ e, se_seq e <=? tip_seq)%N page = slice (place cursor) q L) as Hitems.
      { subst page. rewrite (take_while_numbered (place cursor)) by (apply numbered_slice; [lia|done]).
        rewrite take_slice. f_equal. lia. }
      cbn zeta. rewrite Hitems. pose proof (ro_le _ _ _ _ Hok) as Hle. cbn in Hle.
      assert (length (slice (place cursor) q L) = q - place cursor) as Hlen by (apply length_slice; lia).
      destruct (slice (place cursor) q L) as [|event items] eqn:Hslice; [cbn in Hlen; lia|].
      destruct (last (event :: items)) as [e|] eqn:Hlast; [|by apply last_None in Hlast].
      rewrite <- Hslice in Hlast. apply last_slice in Hlast; [|lia|done|lia]. cbn [fmap option_fmap option_map head tail].
      rewrite Hlast. intros [= <- <- <-]. split_and!; [done|apply later_tick| |done].
      assert (place (Some (N.of_nat q)) = q) as Hq by (unfold place; cbn; lia).
      assert ((tip_seq <=? N.of_nat q)%N = (place tip <=? place (Some (N.of_nat q)))) as -> by (rewrite Hq; lia).
      apply Hreplay; [done..| |]; rewrite Hq; [lia|]. by rewrite <- Hpos, Hslice.
    + intros Hp. pose proof Hev as [-> _]%with_reader_spec. cbn in Hp.
      assert (replay_failed (MkReader (MkEventReceiver (close sub) (MkReplayState run' tip cursor [] true)) parked heard)) as Hfailed
        by by split_and!; cbn; [| |lia].
      assert (reader_ok L c live (MkReader (MkEventReceiver (close sub) (MkReplayState run' tip cursor [] true)) parked heard)) as Hok'.
      { destruct Hok. split; try done. by left. }
      pose proof (failed_turn L c live _ parks Hok' Hfailed) as Hf. cbn in Hf.
      unfold pop_live in *. cbn in *. destruct (sb_items sub); injection Hp as <- <- <-; (split_and!; [done|apply later_tick|exact Hf|done]).
  - intros [= <- <- <-]. assert (¬ replayed (MkReplayState run' tip cursor (event :: items) exhausted)) as Hnot by by intros [? _].
    destruct Hst as [(_ & ? & _)|Hst]; [done|].
    destruct (Hwhile Hst Hnot) as (Hh & Hheard & Hi & Hcur & Hex & _). split_and!; [done|done| |done].
    rewrite Hex. by apply Hreplay.
Qed.

(** ** The world *)

Lemma retain_spec f l : ∀ (readers : gmap nat Reader), NoDup l →
  let '(l', readers') := retain f l readers in
  NoDup l' ∧ (∀ k, k ∈ l' ↔ k ∈ l ∧ is_Some (readers !! k)) ∧
  ∀ k, readers' !! k = (if bool_decide (k ∈ l) then on_subscriber f <$> readers !! k else readers !! k).
Proof.
  induction l as [|i l IH]; intros readers Hnd; cbn.
  { split_and!; [done|intros k; split; [by intros ?%not_elem_of_nil|by intros [?%not_elem_of_nil _]]|done]. }
  apply NoDup_cons in Hnd as [Hi Hnd]. destruct (readers !! i) as [r|] eqn:Hr.
  - specialize (IH (<[i := on_subscriber f r]> readers) Hnd).
    destruct (retain f l (<[i := on_subscriber f r]> readers)) as [l' readers'].
    destruct IH as (Hnd' & Hin & Hlook). split_and!.
    + apply NoDup_cons. split; [|done]. by intros [? _]%Hin.
    + intros k. rewrite !elem_of_cons, Hin. destruct (decide (k = i)) as [->|Hk].
      * rewrite Hr. split; [by split; [left|eexists]|by intros _; left].
      * rewrite lookup_insert_ne by done. split; [intros [?|[? ?]]; [done|split; [by right|done]]|].
        intros [[?|?] ?]; [done|by right].
    + intros k. rewrite Hlook. destruct (decide (k = i)) as [->|Hk].
      * rewrite lookup_insert_eq, Hr. rewrite (bool_decide_eq_false_2 (i ∈ l)) by done.
        by rewrite bool_decide_eq_true_2 by (by left).
      * rewrite lookup_insert_ne by done. rewrite (bool_decide_ext (k ∈ i :: l) (k ∈ l)); [done|]. rewrite elem_of_cons. naive_solver.
  - specialize (IH readers Hnd). destruct (retain f l readers) as [l' readers']. destruct IH as (Hnd' & Hin & Hlook). split_and!; [done| |].
    + intros k. rewrite Hin, elem_of_cons. split; [by intros [? ?]; split; [right|]|]. intros [[->|?] Hs]; [|done].
      rewrite Hr in Hs. by destruct Hs.
    + intros k. rewrite Hlook. destruct (decide (k = i)) as [->|Hk].
      * rewrite Hr. by destruct (bool_decide (i ∈ l)), (bool_decide (i ∈ i :: l)).
      * rewrite (bool_decide_ext (k ∈ i :: l) (k ∈ l)); [done|]. rewrite elem_of_cons. naive_solver.
Qed.

Definition fits (w : World) : Prop := (N.of_nat (length (log_of w)) <= I64_MAX)%N.
Definition published (w : World) : nat := place (de_cursor (wo_delivery w)).
Definition subscribed (w : World) (k : nat) : bool := bool_decide (k ∈ de_subscribers (wo_delivery w)).
Record world_ok (w : World) : Prop := {
  ok_store : store_wf (wo_store w);
  ok_subscribers : NoDup (de_subscribers (wo_delivery w));
  ok_published : fits w → published w ≤ length (log_of w);
  ok_page : fits w → ∀ page, wo_publishing w = Some page →
    page = slice (published w) (published w + length page) (log_of w) ∧ published w + length page ≤ length (log_of w);
  ok_readers : fits w → ∀ k r, wo_readers w !! k = Some r → reader_ok (log_of w) (published w) (subscribed w k) r;
}.

Lemma log_grows s s' : extends (rs_tables s) (rs_tables s') → log_of_run run (rs_tables s) `prefix_of` log_of_run run (rs_tables s').
Proof. apply log_prefix. Qed.

(** Another store, with the same tables or later ones. *)
Lemma ok_store_grows w s page :
  world_ok w → store_wf s → extends (rs_tables (wo_store w)) (rs_tables s) →
  (fits w → ∀ l, page = Some l → l = slice (published w) (published w + length l) (log_of_run run (rs_tables s)) ∧
     published w + length l ≤ length (log_of_run run (rs_tables s))) →
  world_ok (MkWorld s (wo_delivery w) page (wo_readers w)).
Proof.
  intros [Hwf Hnd Hpub Hpage Hread] Hwf' Hext Hnew. pose proof (log_grows _ _ Hext) as Hp.
  pose proof (prefix_length _ _ Hp) as Hlen. fold (log_of w) in Hlen, Hp.
  assert (fits (MkWorld s (wo_delivery w) page (wo_readers w)) → fits w) as Hfits by (unfold fits, log_of in *; cbn [wo_store]; lia).
  split; cbn; [done|done| | |].
  - intros Hf%Hfits. specialize (Hpub Hf). unfold published, log_of in *. cbn [wo_store wo_delivery]. lia.
  - intros Hf%Hfits. by apply Hnew.
  - intros Hf%Hfits k r Hr. eapply reader_grow; [by apply Hpub|exact Hp|]. by apply Hread.
Qed.
Lemma ok_same_tables w s page readers :
  world_ok w → store_wf s → rs_tables s = rs_tables (wo_store w) →
  (fits w → ∀ l, page = Some l → l = slice (published w) (published w + length l) (log_of w) ∧
     published w + length l ≤ length (log_of w)) →
  (fits w → ∀ k r, readers !! k = Some r → reader_ok (log_of w) (published w) (subscribed w k) r) →
  world_ok (MkWorld s (wo_delivery w) page readers).
Proof.
  intros [Hwf Hnd Hpub Hpage Hread] Hwf' Ht Hnew Hr. assert (log_of (MkWorld s (wo_delivery w) page readers) = log_of w) as Hlog
    by (unfold log_of; cbn; by rewrite Ht).
  split; unfold fits, published, subscribed in *; rewrite ?Hlog; cbn [wo_store wo_delivery wo_publishing wo_readers]; assumption.
Qed.

Lemma ok_subscribe w k active :
  world_ok w → wo_publishing w = None → k ∉ de_subscribers (wo_delivery w) → world_ok (subscribe run k active w).2.
Proof.
  intros Hok Hpub Hk. pose proof (ok_store w Hok) as Hwf. unfold subscribe.
  destruct (load run (wo_store w)) as [[record|e] s1] eqn:Hl; apply with_reader_spec in Hl as [-> _];
    (assert (store_wf (tick (wo_store w))) as Hwf1 by by apply (store_wf_later (wo_store w)); [|apply later_tick|]).
  2: { rewrite Hpub. apply ok_same_tables; [done..|apply Hok]. }
  destruct (latest_event_seq run (tick (wo_store w))) as [[tip|e] s2] eqn:Ht; apply with_reader_spec in Ht as [-> Hread];
    (assert (store_wf (tick (tick (wo_store w)))) as Hwf2 by by apply (store_wf_later (tick (wo_store w))); [|apply later_tick|]).
  2: { cbn. rewrite Hpub. apply ok_same_tables; [done..|apply Hok]. }
  specialize (Hread tip eq_refl). cbn in Hread. injection Hread as Htip.
  change (log_of_run run (rs_tables (wo_store w))) with (log_of w) in Htip.
  rewrite (latest_is_length run _ (sw_tables _ Hwf)) in Htip. change (log_of_run run (rs_tables (wo_store w))) with (log_of w) in Htip.
  assert (place tip = length (log_of w) ∧ tip ≠ Some 0%N) as [Hplace Hzero].
  { rewrite <- Htip. destruct (log_of w) as [|e l]; [done|]. unfold place. cbn. split; [lia|by intros [=]]. }
  set (d := wo_delivery w).
  assert (∀ live closed, (closed = false → live = true) → fits w →
    reader_ok (log_of w) (published w) live
      (MkReader (EventReceiver_new (MkSubscriber [] closed tip) run tip) false [])) as Hnew.
  { intros live closed Hlive Hf. pose proof (ok_published w Hok Hf) as Hc. split; try done; cbn.
    - by rewrite Hplace.
    - right. exists 0, []. cbn. split_and!; [lia|done| | |done].
      + split_and!; [|cbn; unfold place at 1; cbn; lia|].
        * cbn. destruct tip as [t|]; [|done]. cbn. symmetry. apply Nat.leb_gt. unfold place; cbn. destruct t; [done|lia].
        * left. cbn. split; [by rewrite slice_nil|lia].
      + left. split; [done|]. exists (place tip). rewrite slice_nil. cbn. split_and!; [lia|lia|done|lia]. }
  destruct (de_closed d || is_terminal (run_state record) && negb active); cbn; rewrite Hpub.
  - apply ok_same_tables; [done..|]. intros Hf k' r'. rewrite lookup_insert_Some.
    intros [[<- <-]|[_ Hr]]; [by apply Hnew|by apply (ok_readers w Hok Hf)].
  - destruct Hok as [_ Hnd Hpub' _ Hread]. split; cbn; [done| |done|done|].
    + apply NoDup_app. split_and!; [done| |apply NoDup_singleton]. intros x Hx ->%list_elem_of_singleton. done.
    + intros Hf k' r'. rewrite lookup_insert_Some. unfold subscribed. cbn. intros [[<- <-]|[Hne Hr]].
      * apply Hnew; [|done]. intros _. apply bool_decide_eq_true. apply elem_of_app. right. by left.
      * rewrite (bool_decide_ext _ (k' ∈ de_subscribers d)); [by apply Hread|].
        rewrite elem_of_app, list_elem_of_singleton. naive_solver.
Qed.

Lemma ok_page_read w : world_ok w → wo_publishing w = Some [] → world_ok (publish_page run w).
Proof.
  intros Hok Hpub. pose proof (ok_store w Hok) as Hwf. unfold publish_page.
  destruct (events run (de_cursor (wo_delivery w)) DEFAULT_EVENT_PAGE_LIMIT (wo_store w)) as [[page|e] s] eqn:Hev;
    pose proof Hev as [-> _]%with_reader_spec;
    (assert (store_wf (tick (wo_store w))) as Hwf1 by by apply (store_wf_later (wo_store w)); [|apply later_tick|]).
  2: { apply ok_same_tables; [done..|apply Hok]. }
  assert (world_ok (MkWorld (tick (wo_store w)) (wo_delivery w) (Some page) (wo_readers w))) as Hnew.
  { apply ok_same_tables; [done..| |apply Hok]. intros Hf l [= <-].
    apply events_Ok in Hev; [|apply Hwf|done]. fold (log_of w) in Hev. fold (published w) in Hev.
    pose proof (ok_published w Hok Hf) as Hc. rewrite Hev. rewrite length_slice by lia. split; [f_equal|]; lia. }
  destruct page; [|done]. apply ok_same_tables; [done..|apply Hok].
Qed.

Lemma ok_push w event rest :
  world_ok w → wo_publishing w = Some (event :: rest) →
  world_ok (let '(d, readers) := publish_event event (wo_delivery w) (wo_readers w) in
            MkWorld (wo_store w) d (Some rest) readers).
Proof.
  intros Hok Hpub. unfold publish_event.
  pose proof (retain_spec (push event) _ (wo_readers w) (ok_subscribers w Hok)) as Hret.
  destruct (retain (push event) (de_subscribers (wo_delivery w)) (wo_readers w)) as [subs readers].
  destruct Hret as (Hnd & Hin & Hlook).
  assert (fits w → log_of w !! published w = Some event ∧ place (Some (se_seq event)) = S (published w)
    ∧ rest = slice (S (published w)) (S (published w) + length rest) (log_of w)
    ∧ S (published w) + length rest ≤ length (log_of w)) as Hnext.
  { intros Hf. destruct (ok_page w Hok Hf _ Hpub) as [Hpage Hle]. symmetry in Hpage.
    apply slice_cons in Hpage as (Hx & Hrest & _). cbn in Hle, Hrest. split_and!; [done| | |lia].
    - apply (numbered_lookup 0) in Hx; [|apply numbered_log, Hok]. unfold place. cbn. lia.
    - rewrite Hrest at 1. f_equal. lia. }
  split; cbn; [apply Hok|done| | |].
  - intros Hf. destruct (Hnext Hf) as (_ & Hc & _ & ?). unfold published. cbn. rewrite Hc. change (log_of _) with (log_of w). lia.
  - intros Hf page [= <-]. destruct (Hnext Hf) as (_ & Hc & ? & ?). unfold published. cbn [wo_delivery de_cursor]. rewrite Hc.
    by change (log_of _) with (log_of w).
  - intros Hf k r Hr. destruct (Hnext Hf) as (Hx & Hc & _). unfold published. cbn [wo_delivery de_cursor]. rewrite Hc.
    change (log_of _) with (log_of w). rewrite Hlook in Hr. unfold subscribed. cbn.
    case_bool_decide as Hk.
    + destruct (wo_readers w !! k) as [r0|] eqn:Hr0; [|done]. injection Hr as <-.
      assert (k ∈ subs) as Hs by (apply Hin; by eauto). rewrite bool_decide_eq_true_2 by done.
      apply on_push; [apply numbered_log, Hok|done| |].
      * apply list_elem_of_lookup_2 in Hx. unfold log_of, log_of_run in Hx. by apply list_elem_of_filter in Hx as [? _].
      * pose proof (ok_readers w Hok Hf k r0 Hr0) as Hro. unfold subscribed in Hro. by rewrite bool_decide_eq_true_2 in Hro.
    + pose proof (ok_readers w Hok Hf k r Hr) as Hro. unfold subscribed in Hro. rewrite bool_decide_eq_false_2 in Hro by done.
      eapply on_closed; [|  |exact Hro]; [lia|].
      destruct (sb_closed (er_subscriber (rd_receiver r))) eqn:Hcl; [done|]. by pose proof (ro_live _ _ _ _ Hro Hcl).
Qed.

Lemma ok_close w :
  world_ok w → wo_publishing w = None →
  world_ok (let '(d, readers) := close_delivery (wo_delivery w) (wo_readers w) in
            MkWorld (wo_store w) d None readers).
Proof.
  intros Hok Hpub. unfold close_delivery.
  pose proof (retain_spec close _ (wo_readers w) (ok_subscribers w Hok)) as Hret.
  destruct (retain close (de_subscribers (wo_delivery w)) (wo_readers w)) as [subs readers].
  destruct Hret as (Hnd & Hin & Hlook). destruct Hok as [Hwf _ Hc _ Hread]. split; cbn; [done|done|exact Hc|done|].
  intros Hf k r Hr. rewrite Hlook in Hr. unfold subscribed. cbn. case_bool_decide as Hk.
  - destruct (wo_readers w !! k) as [r0|] eqn:Hr0; [|done]. injection Hr as <-.
    apply (on_closed _ (published w) _ (subscribed w k)); [done|done|]. apply on_close. by apply Hread.
  - pose proof (Hread Hf k r Hr) as Hro. apply (on_closed _ (published w) _ (subscribed w k)); [done| |done].
    destruct (sb_closed (er_subscriber (rd_receiver r))) eqn:Hcl; [done|].
    pose proof (ro_live _ _ _ _ Hro Hcl) as Hl. unfold subscribed in Hl. by apply bool_decide_eq_true in Hl.
Qed.

Lemma step_ok w w' : world_ok w → world_step run w w' → world_ok w'.
Proof.
  intros Hok Hs. pose proof (ok_store w Hok) as Hwf.
  destruct Hs as [s Hs|k active Hp _ Hk|k|Hp|Hp|event rest Hp|Hp|k r parks Hr Hparked|k r parks Hr Hparked].
  - destruct (store_step_keeps _ _ Hwf Hs) as [Hwf' Hext]. apply ok_store_grows; [done..|].
    intros Hf page Hpage. destruct (ok_page w Hok Hf page Hpage) as [Heq Hle]. pose proof (log_grows _ _ Hext) as Hgrow.
    pose proof (prefix_length _ _ Hgrow). unfold log_of in *. rewrite (slice_grow _ _ _ _ Hgrow) by done. split; [done|lia].
  - by apply ok_subscribe.
  - apply ok_same_tables; [done..|apply Hok|]. intros Hf k' r' [_ Hr]%lookup_delete_Some. by apply (ok_readers w Hok Hf).
  - apply ok_same_tables; [done..| |apply Hok]. intros Hf l [= <-]. cbn. rewrite Nat.add_0_r, slice_nil. split; [done|by apply Hok].
  - by apply ok_page_read.
  - by apply ok_push.
  - by apply ok_close.
  - destruct (receive (rd_receiver r) (wo_store w)) as [[answer receiver] s] eqn:Hrec.
    assert (rs_tables s = rs_tables (wo_store w) ∧ store_wf s) as [Ht Hwf'].
    { revert Hrec. unfold receive, replay_next. destruct (er_replay (rd_receiver r)) as [a b c [|x l] []]; cbn.
      1, 3, 4: try (destruct (pop_live _)); by intros [= <- <- <-].
      destruct (events a c DEFAULT_EVENT_PAGE_LIMIT (wo_store w)) as [[page|e] s1] eqn:Hev;
        apply with_reader_spec in Hev as [-> _];
        (assert (store_wf (tick (wo_store w))) by by apply (store_wf_later (wo_store w)); [|apply later_tick|]).
      - destruct (head _); [|destruct (pop_live _)]; by intros [= <- <- <-].
      - destruct (pop_live _). by intros [= <- <- <-]. }
    apply ok_same_tables; [done..|apply Hok|]. intros Hf k' r'. rewrite lookup_insert_Some.
    intros [[<- <-]|[_ Hr']]; [|by apply (ok_readers w Hok Hf)].
    eapply receive_turn; [apply Hwf|exact Hf|by apply Hok|by apply (ok_readers w Hok Hf)|exact Hrec].
  - unfold wake. destruct (pop_live (er_subscriber (rd_receiver r))) as [answer sub] eqn:Hpop.
    apply ok_same_tables; [done..|apply Hok|]. intros Hf k' r'. rewrite lookup_insert_Some.
    intros [[<- <-]|[_ Hr']]; [|by apply (ok_readers w Hok Hf)].
    pose proof (ok_readers w Hok Hf k r Hr) as Hro. destruct (ro_state _ _ _ _ Hro) as [Hfail|Hst].
    + pose proof (failed_turn _ _ _ r parks Hro Hfail) as Hnew. by rewrite Hpop in Hnew.
    + pose proof (live_turn _ _ _ r parks (ok_published w Hok Hf) Hro) as Hnew. rewrite Hpop in Hnew. apply Hnew.
      unfold in_step in Hst. destruct (rd_receiver r) as [sub' rp]. destruct Hst as (h & rest & _ & _ & _ & _ & Hp). by apply Hp.
Qed.
Lemma world_reachable_ok s w : store_wf s → rtc (world_step run) (World_new s) w → world_ok w.
Proof.
  intros Hwf. apply rtc_invariant; [exact step_ok|]. split; try done; [by apply NoDup_nil|].
  intros _. unfold published, place. cbn. lia.
Qed.

(** ** What is promised *)

(** A reader whose next look at what it follows would find nothing. *)
Definition nothing_ready (r : Reader) (s : RunStore) : Prop :=
  if rd_parked r then (wake (rd_receiver r)).1 = None else (receive (rd_receiver r) s).1.1 = None.

(** C14. Over every interleaving of the store's operations, publishers, subscriptions and
    readers: as long as no page of the history failed to load, a reader has been given the log
    of its run from its first event, in order, without a hole or a repeat, and after that at
    most the word that it fell behind, after which it is disconnected; and when nothing is
    ready for it, it has been given everything that was published and all the history there
    was when it subscribed. *)
Theorem reader_hears_the_log s w k r :
  store_wf s → rtc (world_step run) (World_new s) w → fits w → wo_readers w !! k = Some r → ¬ replay_failed r →
  (∃ h, rd_heard r = Event <$> take h (log_of w) ∨
     ∃ n, rd_heard r = (Event <$> take h (log_of w)) ++ [Lagged run n] ∧
       (receive (rd_receiver r) (wo_store w)).1.1 = Some (Err tt)) ∧
  (nothing_ready r (wo_store w) →
     rd_heard r = Event <$> take (published w `max` place (rp_tip (er_replay (rd_receiver r)))) (log_of w)).
Proof.
  intros Hwf Hs Hf Hr Hgood. pose proof (world_reachable_ok s w Hwf Hs) as Hok.
  pose proof (ok_readers w Hok Hf k r Hr) as Hro. pose proof (ok_published w Hok Hf) as Hc.
  destruct (ro_state _ _ _ _ Hro) as [?|Hst]; [done|]. split.
  - clear Hro Hgood Hr. unfold in_step in Hst. destruct r as [[sub rp] parked heard]. cbn in *.
    destruct Hst as (h & rest & _ & Hheard & (Hex & Hcur & _) & Hq & _). exists h.
    destruct Hq as [[-> _]|[Hcl (n & [[-> _]|(-> & Hi & Hd)])]]; [left; by rewrite app_nil_r in Hheard..|right].
    exists n. split; [done|]. destruct rp as [a b c items ex], sub as [qs closed after], Hd as [Hd Hpl]. cbn in *.
    subst. unfold receive, replay_next. cbn. by rewrite (proj2 (Nat.leb_le _ _)) by lia.
  - unfold nothing_ready. destruct (rd_parked r) eqn:Hparked.
    + unfold wake. pose proof (live_turn _ _ _ r false Hc Hro) as Hlive.
      destruct (pop_live (er_subscriber (rd_receiver r))) as [answer sub]. intros Ha. apply Hlive; [|exact Ha].
      unfold in_step in Hst. destruct (rd_receiver r) as [sub' rp]. destruct Hst as (h & rest & _ & _ & _ & _ & Hp). by apply Hp.
    + destruct (receive (rd_receiver r) (wo_store w)) as [[answer receiver] s'] eqn:Hrec. cbn. intros ->.
      eapply (receive_turn _ _ r false); [apply Hok|exact Hf|exact Hc|exact Hro|exact Hrec|done|done].
Qed.

(** C15. When a page of the history cannot be read, the queue is closed but keeps what it
    holds: the reader is then given the oldest event published since it subscribed, although
    at least one event between that and what it has heard was never given to it, and it is not
    told. *)
Theorem failed_page_leaves_a_hole s w k r e x rest :
  store_wf s → rtc (world_step run) (World_new s) w → fits w → wo_readers w !! k = Some r →
  rp_items (er_replay (rd_receiver r)) = [] → rp_exhausted (er_replay (rd_receiver r)) = false →
  (events run (rp_cursor (er_replay (rd_receiver r))) DEFAULT_EVENT_PAGE_LIMIT (wo_store w)).1 = Err e →
  sb_items (er_subscriber (rd_receiver r)) = Event x :: rest →
  (receive (rd_receiver r) (wo_store w)).1.1 = Some (Ok (Event x)) ∧
  (N.of_nat (length (rd_heard r)) + 1 < se_seq x)%N.
Proof.
  intros Hwf Hs Hf Hr Hitems Hex Hev Hq. pose proof (world_reachable_ok s w Hwf Hs) as Hok.
  pose proof (ok_readers w Hok Hf k r Hr) as Hro. destruct (ro_state _ _ _ _ Hro) as [[? _]|Hst]; [congruence|].
  assert (¬ replayed (er_replay (rd_receiver r))) as Hnot.
  { intros [_ He]. unfold in_step in Hst. destruct (rd_receiver r) as [sub rp].
    destruct Hst as (h & l & _ & _ & (Hex' & _) & _). cbn in *. rewrite Hex in Hex'. symmetry in Hex'. apply Nat.leb_gt in Hex'. lia. }
  destruct (replaying _ _ r Hst Hnot) as (Hh & _ & _ & Hcur & Hex' & Hqueue). rewrite Hex in Hex'. symmetry in Hex'.
  apply Nat.leb_gt in Hex'. split.
  - pose proof (ro_run _ _ _ _ Hro) as Hrun. unfold receive, replay_next.
    destruct (rd_receiver r) as [[qs closed after] [a b c items ex]]. cbn in *. subst.
    by destruct (events run c DEFAULT_EVENT_PAGE_LIMIT (wo_store w)) as [[page|e'] s'].
  - destruct Hqueue as [(_ & j & Hj & Hi & _)|[_ (n & [[_ Hi]|[? _]])]]; [|congruence|done].
    rewrite Hq in Hi. symmetry in Hi. apply fmap_cons_inv in Hi as (y & l & [= <-] & _ & Hsl).
    apply slice_cons in Hsl as (Hx & _). apply (numbered_lookup 0) in Hx; [lia|]. apply numbered_log, Hok.
Qed.
End invariant.

(** ** Bounds *)

Section bounds.
Context `{PlatformLaws, !StoreParams, Faults, !Fresh, !FreshLaws}.
Context (run : RunId).

Definition reader_bounded (r : Reader) : Prop :=
  length (sb_items (er_subscriber (rd_receiver r))) ≤ SUBSCRIBER_CAPACITY ∧
  length (rp_items (er_replay (rd_receiver r))) ≤ N.to_nat DEFAULT_EVENT_PAGE_LIMIT.
Definition world_bounded (w : World) : Prop :=
  (∀ k r, wo_readers w !! k = Some r → reader_bounded r) ∧
  ∀ page, wo_publishing w = Some page → length page ≤ N.to_nat DEFAULT_EVENT_PAGE_LIMIT.

Lemma page_bounded of_run after s page s' :
  events of_run after DEFAULT_EVENT_PAGE_LIMIT s = (Ok page, s') → length page ≤ N.to_nat DEFAULT_EVENT_PAGE_LIMIT.
Proof.
  intros [_ Hread]%with_reader_spec. specialize (Hread page eq_refl). cbn in Hread. injection Hread as <-.
  unfold take_events. rewrite length_take. lia.
Qed.
Lemma retain_bounded f l : ∀ (readers : gmap nat Reader),
  (∀ r, reader_bounded r → reader_bounded (on_subscriber f r)) →
  (∀ k r, readers !! k = Some r → reader_bounded r) → ∀ k r, (retain f l readers).2 !! k = Some r → reader_bounded r.
Proof.
  induction l as [|i l IH]; intros readers Hf Hall k r; cbn; [apply Hall|].
  destruct (readers !! i) as [r0|] eqn:Hr0; [|by apply IH].
  specialize (IH (<[i := on_subscriber f r0]> readers) Hf).
  destruct (retain f l (<[i := on_subscriber f r0]> readers)) as [l' readers']. cbn in *. apply IH.
  intros k' r'. rewrite lookup_insert_Some. intros [[_ <-]|[_ ?]]; [|by eapply Hall]. apply Hf. by eapply Hall.
Qed.
Lemma take_while_bounded {A} p (l : list A) : length (take_while p l) ≤ length l.
Proof. induction l as [|a l IH]; [done|]. cbn. destruct (p a); cbn; lia. Qed.
Lemma pop_bounded s : length (sb_items (pop_live s).2) ≤ length (sb_items s).
Proof. unfold pop_live. destruct (sb_items s) eqn:Hi; cbn; rewrite ?Hi; cbn; lia. Qed.
Lemma receive_bounded r s answer receiver s' parks :
  reader_bounded r → receive (rd_receiver r) s = (answer, receiver, s') → reader_bounded (answered_with answer parks receiver r).
Proof.
  intros [Hq Hi] Hrec. assert (reader_bounded (MkReader receiver parks [])) as Hb.
  2: { by destruct answer as [[|]|]. }
  revert Hrec. unfold receive, replay_next. destruct (rd_receiver r) as [sub [a b c items ex]]. cbn in *.
  pose proof (pop_bounded sub) as Hp. destruct items as [|x items]; [destruct ex|].
  - cbn. destruct (pop_live sub) as [a' sub']. intros [= _ <- _]. split; cbn in *; [lia|done].
  - destruct (events a c DEFAULT_EVENT_PAGE_LIMIT s) as [[page|e] s1] eqn:Hev.
    + pose proof (page_bounded _ _ _ _ _ Hev) as Hpage. cbn zeta.
      pose proof (take_while_bounded (λ e, se_seq e <=? default 0%N b)%N page) as Hw.
      destruct (take_while _ page) as [|y l]; cbn.
      * destruct (pop_live sub) as [a' sub']. intros [= _ <- _]. split; cbn in *; lia.
      * intros [= _ <- _]. split; cbn in *; lia.
    + cbn. pose proof (pop_bounded (close sub)) as Hp'. destruct (pop_live (close sub)) as [a' sub'].
      intros [= _ <- _]. split; cbn in *; lia.
  - intros [= _ <- _]. split; cbn in *; lia.
Qed.

Lemma step_bounded w w' : world_bounded w → world_step run w w' → world_bounded w'.
Proof.
  intros [Hr Hp] Hs. destruct Hs as [s Hs|k active _ _ _|k|_|_|event rest Hpub|_|k r parks Hk _|k r parks Hk _].
  - by split.
  - unfold subscribe. destruct (load run (wo_store w)) as [[record|e] s1]; [|by split].
    destruct (latest_event_seq run s1) as [[tip|e] s2]; [|by split].
    destruct (de_closed _ || _); (split; [|done]); intros k' r'; cbn; rewrite lookup_insert_Some;
      (intros [[_ <-]|[_ ?]]; [split; cbn; lia|by eapply Hr]).
  - split; [|done]. intros k' r'. cbn. rewrite lookup_delete_Some. intros [_ ?]. by eapply Hr.
  - split; [done|]. intros page [= <-]. cbn. lia.
  - unfold publish_page. destruct (events run _ _ (wo_store w)) as [[[|x page]|e] s] eqn:Hev; split; cbn; try done.
    intros page' [= <-]. by eapply page_bounded.
  - unfold publish_event. pose proof (retain_bounded (push event) (de_subscribers (wo_delivery w)) (wo_readers w)) as Hret.
    destruct (retain _ _ _) as [subs readers]. split; cbn in *.
    + apply Hret; [|done]. intros r [Hq Hi]. split; [|done]. cbn. unfold push. destruct (is_some_and _ _); [done|].
      destruct (sb_closed _); [done|]. destruct (SUBSCRIBER_CAPACITY <=? _) eqn:Hfull; cbn; [unfold SUBSCRIBER_CAPACITY; lia|].
      rewrite length_app. cbn. apply Nat.leb_gt in Hfull. lia.
    + intros page [= <-]. specialize (Hp _ Hpub). cbn in Hp. lia.
  - unfold close_delivery. pose proof (retain_bounded close (de_subscribers (wo_delivery w)) (wo_readers w)) as Hret.
    destruct (retain _ _ _) as [subs readers]. split; cbn in *; [|done]. apply Hret; [|done]. by intros r [Hq Hi].
  - destruct (receive (rd_receiver r) (wo_store w)) as [[answer receiver] s] eqn:Hrec. split; cbn; [|done].
    intros k' r'. rewrite lookup_insert_Some. intros [[_ <-]|[_ ?]]; [|by eapply Hr].
    eapply receive_bounded; [by eapply Hr|exact Hrec].
  - unfold wake. pose proof (pop_bounded (er_subscriber (rd_receiver r))) as Hpop.
    destruct (pop_live (er_subscriber (rd_receiver r))) as [answer sub]. split; cbn; [|done].
    intros k' r'. rewrite lookup_insert_Some. intros [[_ <-]|[_ ?]]; [|by eapply Hr].
    destruct (Hr k r Hk) as [Hq Hi]. cbn in Hpop. destruct answer as [[|]|]; split; cbn; (done || lia).
Qed.

(** C16. No reader, however slow, and no publisher makes the process keep more than the
    capacity of a queue and one page of the log. *)
Theorem readers_are_bounded s w :
  rtc (world_step run) (World_new s) w →
  (∀ k r, wo_readers w !! k = Some r →
     length (sb_items (er_subscriber (rd_receiver r))) ≤ SUBSCRIBER_CAPACITY ∧
     length (rp_items (er_replay (rd_receiver r))) ≤ N.to_nat DEFAULT_EVENT_PAGE_LIMIT) ∧
  ∀ page, wo_publishing w = Some page → length page ≤ N.to_nat DEFAULT_EVENT_PAGE_LIMIT.
Proof. intros Hs. apply (rtc_invariant (world_step run) world_bounded (World_new s) w step_bounded); done. Qed.
End bounds.

(** ** A concrete run: one event of history, one published while it is followed *)

Definition demo_followed : RunId := run_id demo_first.
Section demo.
Context `{faults : !Faults}.
Definition demo_starts_call : stateM RunStore StoreError (ToolCall * N) :=
  dispatch_bound_approved_tool_call_with_event demo_id "reviewer" demo_bound
    (MkInputHash (replicate 32 2%N)) (demo_at 2) demo_event.
Definition demo_subscribed : World := (subscribe demo_followed 0 true (World_new demo_asked)).2.
Definition demo_stored : World :=
  MkWorld (ran demo_starts_call (wo_store demo_subscribed)) (wo_delivery demo_subscribed)
    (wo_publishing demo_subscribed) (wo_readers demo_subscribed).
Definition demo_later : World :=
  MkWorld (wo_store demo_stored) (wo_delivery demo_stored) (Some []) (wo_readers demo_stored).
Definition demo_page : World := publish_page demo_followed demo_later.
Definition pushed (w : World) : World :=
  match wo_publishing w with
  | Some (event :: rest) =>
    let '(d, readers) := publish_event event (wo_delivery w) (wo_readers w) in MkWorld (wo_store w) d (Some rest) readers
  | _ => w
  end.
Definition demo_pushed : World := pushed (pushed demo_page).
Definition read_once (w : World) : World :=
  match wo_readers w !! 0 with
  | Some r =>
    let '(answer, receiver, s) := receive (rd_receiver r) (wo_store w) in
    MkWorld s (wo_delivery w) (wo_publishing w) (<[0 := answered_with answer false receiver r]> (wo_readers w))
  | None => w
  end.

Lemma demo_starts_call_op : operation demo_starts_call.
Proof. apply op_dispatch_bound. Qed.
Lemma demo_starts_call_step s : store_step s (ran demo_starts_call s).
Proof. eexists _, demo_starts_call, _. split; [apply demo_starts_call_op|apply surjective_pairing]. Qed.
Lemma pushed_reached w : rtc (world_step demo_followed) w (pushed w).
Proof.
  unfold pushed. destruct (wo_publishing w) as [[|event rest]|] eqn:Hp; [done| |done].
  apply rtc_once, (step_push demo_followed w event rest Hp).
Qed.
Lemma subscribed_free : wo_publishing demo_subscribed = None.
Proof.
  unfold demo_subscribed, subscribe. destruct (load _ _) as [[?|?] ?]; [|done].
  destruct (latest_event_seq _ _) as [[?|?] ?]; [|done]. by destruct (_ || _).
Qed.
Lemma demo_subscribed_reached : world_step demo_followed (World_new demo_asked) demo_subscribed.
Proof. unfold demo_subscribed. apply step_subscribe; [done|done|apply not_elem_of_nil]. Qed.
Lemma demo_later_reached : rtc (world_step demo_followed) (World_new demo_asked) demo_later.
Proof.
  apply (rtc_l _ _ demo_subscribed); [exact demo_subscribed_reached|].
  apply (rtc_l _ _ demo_stored); [unfold demo_stored; apply step_store, demo_starts_call_step|].
  apply rtc_once. unfold demo_later. apply step_publish. unfold demo_stored. exact subscribed_free.
Qed.
Lemma demo_page_reached : rtc (world_step demo_followed) (World_new demo_asked) demo_page.
Proof. apply (rtc_r _ demo_later); [exact demo_later_reached|]. unfold demo_page. apply step_page. reflexivity. Qed.
Lemma demo_pushed_reached : rtc (world_step demo_followed) (World_new demo_asked) demo_pushed.
Proof.
  unfold demo_pushed. apply (transitivity (y:=demo_page)); [exact demo_page_reached|].
  apply (transitivity (y:=pushed demo_page)); apply pushed_reached.
Qed.
Lemma read_once_reached w r :
  wo_readers w !! 0 = Some r → rd_parked r = false → rtc (world_step demo_followed) w (read_once w).
Proof.
  unfold read_once. intros Hr Hp. rewrite Hr. apply rtc_once. pose proof (step_receive demo_followed w 0 r false Hr Hp) as Hs.
  by destruct (receive (rd_receiver r) (wo_store w)) as [[answer receiver] s].
Qed.
Definition heard_by (w : World) : list EventDelivery := default [] (rd_heard <$> wo_readers w !! 0).
End demo.

(** The next access of the store fails. *)
Definition demo_hole_faults : Faults := λ n, n =? 17.

Definition demo_reader : Reader :=
  MkReader (MkEventReceiver (MkSubscriber [] false (Some 1%N)) (MkReplayState demo_followed (Some 1%N) (Some 1%N) [] true))
    false (Event <$> log_of_run demo_followed (rs_tables demo_asked)).
Lemma demo_reader_reads : wo_readers (read_once demo_subscribed) !! 0 = Some demo_reader.
Proof. reflexivity. Qed.
Lemma demo_log_fits : fits demo_followed (read_once demo_subscribed).
Proof.
  unfold fits. assert (length (log_of demo_followed (read_once demo_subscribed)) = 1) as -> by reflexivity. unfold I64_MAX. lia.
Qed.
Definition demo_new_reader : Reader :=
  MkReader (MkEventReceiver (Subscriber_new (Some 1%N)) (MkReplayState demo_followed (Some 1%N) None [] false)) false [].
Lemma demo_reader_begins : wo_readers demo_subscribed !! 0 = Some demo_new_reader.
Proof. reflexivity. Qed.
Lemma demo_subscribed_reads : rtc (world_step demo_followed) (World_new demo_asked) (read_once demo_subscribed).
Proof.
  apply (rtc_l _ _ demo_subscribed); [exact demo_subscribed_reached|].
  exact (read_once_reached demo_subscribed demo_new_reader demo_reader_begins eq_refl).
Qed.
Lemma demo_reader_follows : ¬ replay_failed demo_reader.
Proof. intros (_ & _ & Hlt). cbn in Hlt. unfold place in Hlt. cbn in Hlt. lia. Qed.
Lemma reader_hears_the_log_witness :
  rd_heard demo_reader =
    Event <$> take (published (read_once demo_subscribed) `max` place (Some 1%N)) (log_of demo_followed (read_once demo_subscribed)).
Proof.
  apply (proj2 (reader_hears_the_log demo_followed demo_asked (read_once demo_subscribed) 0 demo_reader
    demo_asked_wf demo_subscribed_reads demo_log_fits demo_reader_reads demo_reader_follows)).
  reflexivity.
Defined.

Definition demo_live_event : StoredEvent :=
  MkStoredEvent demo_followed 2
    (MkRunEvent ToolCallStateChanged (demo_at 1) None (Some (MkToolCallId (demo_uuid 4))) None (demo_value "null")).
Definition demo_hole_reader : Reader :=
  MkReader (MkEventReceiver (MkSubscriber [Event demo_live_event] false (Some 1%N))
    (MkReplayState demo_followed (Some 1%N) None [] false)) false [].
Abbreviation demo_hole := (demo_pushed (faults:=demo_hole_faults)).
Lemma demo_hole_reads : wo_readers demo_hole !! 0 = Some demo_hole_reader.
Proof. reflexivity. Qed.
Lemma demo_hole_io : rs_io (wo_store demo_hole) = 17.
Proof. reflexivity. Qed.
Lemma demo_hole_fits : fits demo_followed demo_hole.
Proof. unfold fits. assert (length (log_of demo_followed demo_hole) = 2) as -> by reflexivity. unfold I64_MAX. lia. Qed.
Lemma demo_hole_fails :
  (events (H1:=demo_hole_faults) demo_followed None DEFAULT_EVENT_PAGE_LIMIT (wo_store demo_hole)).1 = Err QueryFailed.
Proof.
  unfold events, with_reader, mbind, stateM_bind, attempt. by rewrite demo_hole_io.
Qed.
Lemma failed_page_leaves_a_hole_witness :
  (N.of_nat (length (rd_heard demo_hole_reader)) + 1 < se_seq demo_live_event)%N.
Proof.
  exact (proj2 (failed_page_leaves_a_hole demo_followed demo_asked demo_hole 0 demo_hole_reader QueryFailed demo_live_event []
    demo_asked_wf demo_pushed_reached demo_hole_fits demo_hole_reads eq_refl eq_refl demo_hole_fails eq_refl)).
Defined.

Lemma readers_are_bounded_witness : length (sb_items (er_subscriber (rd_receiver demo_new_reader))) ≤ 64.
Proof.
  exact (proj1 (proj1 (readers_are_bounded demo_followed demo_asked demo_subscribed (rtc_once _ _ demo_subscribed_reached))
    0 demo_new_reader demo_reader_begins)).
Defined.
