(* ===== verification/Worker.v ===== *)
(** * The worker of a run

    Models [RunWorker] of [src/crates/harkness-runtime/src/coordinator/mod.rs]: the loop that
    asks an agent for its next action and carries it out, one step and one tool call at a
    time, through policy, a person's approval and the scheduler, with every record it writes
    on the way and what it does when something fails.

    The worker is one thread.  What other threads and processes do to the store meanwhile
    happens between its accesses, by [others]; the agent, which tools there are, what
    preparing an input answers, the gate and the scheduler are arguments.  A panic is caught
    by [drive], so an [expect] that does not hold is the fault that [drive] makes of it. *)

From Stdlib Require Import ZArith ZifyN ZifyBool.
From stdpp Require Import base decidable countable list gmap sets relations pretty strings.
From S2P Require Import Prelude Digest Tool External Trust Policy Approval Matcher Gate Lifecycle Domain Records Wire Schedule Registry RunStore StoreClaims StoreLaws ClaimLaws Interrupt StoreSafety ToolError Supervise Executor Subscription.

Definition MAX_AGENT_TURNS : nat := 1024.
Definition ORDINAL_LIMIT : N := 2 ^ 32 - 1.

(** ** What an agent is given and what it asks for ([agent/types.rs]) *)

Inductive ObservationKind :=
| KindRunStarted | KindToolResult | KindToolFailed | KindPolicyDenied | KindApprovalOutcome | KindCancelled.
Inductive ApprovalOutcomeView := ViewApproved | ViewDenied.
Record ToolErrorView := MkToolErrorView { tv_kind : string; tv_message : string }.
Definition PlannedStep := string.
Inductive AgentFailure :=
| AgentFailed (reason : string)
| ScenarioDivergence (expected actual : ObservationKind)
| ScenarioExhausted (scenario : string)
| FailApprovalDenied (reason : string)
| FailCancelled
| FailInterrupted (reason : string).
Definition AgentFailure_kind (f : AgentFailure) : string :=
  match f with
  | AgentFailed _ => "agent_failed"
  | ScenarioDivergence _ _ => "scenario_divergence"
  | ScenarioExhausted _ => "scenario_exhausted"
  | FailApprovalDenied _ => "approval_denied"
  | FailCancelled => "cancelled"
  | FailInterrupted _ => "interrupted"
  end.

(** A fault of the worker: it fails the run. *)
Record WorkerFault := MkWorkerFault { wf_kind : string; wf_message : string }.
Definition WorkerFault_new (kind message : string) : WorkerFault :=
  MkWorkerFault kind (truncate message MAX_FAILURE_MESSAGE_BYTES).

Section types.
Context `{Platform, !StoreParams}.

Record TaskRef := MkTaskRef { tr_id : TaskId; tr_title : string }.
Record WorkspaceRef := MkWorkspaceRef { wr_project_id : option ProjectId; wr_root : string }.
Definition TaskRef_from_task (task : Task) : TaskRef := MkTaskRef (task_id task) (redact_text (task_title task)).
Definition ToolErrorView_new (kind message : string) : ToolErrorView := MkToolErrorView kind (redact_text message).

Inductive AgentAction :=
| Plan (steps : list PlannedStep)
| CallTool (tool_id : ToolId) (tool_version : ToolVersion) (input : Value)
| CompleteRun (summary : string)
| FailRun (reason : AgentFailure).

Definition redact_agent_failure (f : AgentFailure) : AgentFailure :=
  match f with
  | AgentFailed reason => AgentFailed (redact_text reason)
  | FailApprovalDenied reason => FailApprovalDenied (redact_text reason)
  | FailInterrupted reason => FailInterrupted (redact_text reason)
  | control => control
  end.
Definition redact_action (a : AgentAction) : AgentAction :=
  match a with
  | Plan steps => Plan (redact_text <$> steps)
  | CallTool tool_id tool_version input => CallTool tool_id tool_version (redact_payload input)
  | CompleteRun summary => CompleteRun (redact_text summary)
  | FailRun reason => FailRun (redact_agent_failure reason)
  end.

Definition StoreError_kind (e : StoreError) : string :=
  match e with
  | NotFound _ => "not_found"
  | AlreadyExists _ => "already_exists"
  | MissingParent _ _ => "missing_parent"
  | DuplicateStepOrdinal _ _ => "duplicate_step_ordinal"
  | PayloadTooLarge _ _ _ => "payload_too_large"
  | ColumnEncoding _ _ => "column_encoding"
  | ArtifactIo => "artifact_io"
  | InvalidTransition _ => "invalid_transition"
  | InvalidRecord _ _ => "invalid_record"
  | ApprovalBindingMismatch _ _ => "approval_binding_mismatch"
  | CanonicalInput _ => "approval_refused"
  | InvalidPageLimit _ => "invalid_page_limit"
  | ApprovalRefused _ => "approval_refused"
  | QueryFailed => "query_failed"
  end.

Definition with_paths (paths : list ContainedPath) (r : PolicyRequest) : PolicyRequest :=
  MkPolicyRequest (pr_descriptor r) (pr_classification r) (pr_trust r) (pr_mode r)
    paths (pr_grants r) (pr_external r).

Inductive Observation {ArtifactRef : Type} :=
| RunStarted (task : TaskRef) (workspace : WorkspaceRef)
| ToolResult (call : ToolCallId) (output : Value) (artifacts : list ArtifactRef)
| ToolFailed (call : ToolCallId) (error : ToolErrorView)
| PolicyDenied (call : ToolCallId) (reason : string)
| ApprovalAnswered (call : ToolCallId) (outcome : ApprovalOutcomeView)
| ObservedCancelled.
End types.
Arguments Observation {_} ArtifactRef.

(** ** The parts a worker works with *)

(** [Agent]: a decision-maker with a state of its own, which may panic. *)
Class Agent `{Platform, !StoreParams} (ArtifactRef A : Type) := {
  next_action : Observation ArtifactRef → A → result string AgentAction * A;
  (** The checkpoint of [state], as the payload of an event. *)
  agent_state : A → result string Value;
}.

(** serde's forms of what the worker records, and the display of errors. *)
Class WorkerTexts `{Platform, !StoreParams} (ArtifactRef : Type) := {
  observation_payload : Observation ArtifactRef → result string Value;
  action_payload : AgentAction → result string Value;
  failure_json : AgentFailure → result string string;
  decision_json : PolicyDecision → Value;
  store_text : StoreError → string;
  approval_text : ApprovalError → string;
}.

(** [Display] of an invocation's error is that of its source. *)
Definition InvocationError_to_string `{Platform, DebugFormat} (e : InvocationError) : string :=
  match e with
  | Resolution e => RegistryError_to_string e
  | InvocationTool _ e => ToolError_to_string e
  end.

(** A refusal of another component, by its kind and its text. *)
Record Refusal := MkRefusal { rf_kind : string; rf_text : string }.

Record PreparedRequest `{Platform} := MkPreparedRequest {
  pc_classification : RequestClassification;
  pc_paths : list ContainedPath;
}.

(** What surrounds a worker, by how often it has looked: what other threads did to the
    store since, whether its run was cancelled, how many slices of a wait pass before it is
    answered, and the answers of the components that are not the store. *)
Class Surroundings `{Platform, !StoreParams} (T ArtifactRef : Type) := {
  others : nat → RunStore → RunStore;
  cancelled : nat → bool;
  slices : nat → nat;
  ticket_free : nat → ApprovalId → bool;
  observed : nat → ApprovalId → ApprovalObservation;
  workspace_trust : nat → WorkspaceKey → result StoreError TrustState;
  run_artifacts : nat → RunId → result StoreError (list (option ToolCallId * ArtifactRef));
  raw_value : Value → result string Value;
  boundary : CanonicalPath → result Refusal PathBoundary;
  prepare_json : T → Value → PathBoundary → result InvocationError PreparedRequest;
  canonicalize : CanonicalPath → result string CanonicalPath;
  (** A submitted call, to the end of its ticket's wait: the refusal carries the store's
      error when that is what it was. *)
  serve : nat → ScheduledCall → RunStore → result (StoreError + Refusal) CompletedCall * RunStore;
}.

Section worker.
Context `{Platform, !StoreParams, Faults, !Fresh, !Now, DebugFormat}.
Context {T ArtifactRef A : Type} (descriptor : T → ToolDescriptor).
Context `{!Agent ArtifactRef A, !WorkerTexts ArtifactRef, !Surroundings T ArtifactRef}.
Abbreviation storeM A := (stateM RunStore StoreError A).

(** A call handed to the scheduler, with the store as it was then. *)
Record Served := MkServed { sv_call : ScheduledCall; sv_store : RunStore }.
(** [wk_served] records what the worker handed over; the code keeps no such list. *)
Record Worker := MkWorker {
  wk_store : RunStore;
  wk_looks : nat;
  wk_cursor : option N;
  wk_agent : A;
  wk_planned : list StepId;
  wk_next_ordinal : N;
  wk_served : list Served;
}.
Abbreviation workM X := (stateM Worker WorkerFault X).

(** [RunWorker::new], over a store whose run was published up to [cursor]. *)
Definition Worker_new (s : RunStore) (cursor : option N) (agent : A) : Worker := MkWorker s 0 cursor agent [] 0 [].
Definition set_store (s : RunStore) (w : Worker) : Worker :=
  MkWorker s (S (wk_looks w)) (wk_cursor w) (wk_agent w) (wk_planned w) (wk_next_ordinal w) (wk_served w).
Definition set_cursor (cursor : option N) (w : Worker) : Worker :=
  MkWorker (wk_store w) (wk_looks w) cursor (wk_agent w) (wk_planned w) (wk_next_ordinal w) (wk_served w).
Definition set_agent (a : A) (w : Worker) : Worker :=
  MkWorker (wk_store w) (wk_looks w) (wk_cursor w) a (wk_planned w) (wk_next_ordinal w) (wk_served w).
Definition set_planned (planned : list StepId) (w : Worker) : Worker :=
  MkWorker (wk_store w) (wk_looks w) (wk_cursor w) (wk_agent w) planned (wk_next_ordinal w) (wk_served w).
Definition set_next_ordinal (n : N) (w : Worker) : Worker :=
  MkWorker (wk_store w) (wk_looks w) (wk_cursor w) (wk_agent w) (wk_planned w) n (wk_served w).
Definition record_served (sd : ScheduledCall) (s : RunStore) (w : Worker) : Worker :=
  MkWorker (wk_store w) (wk_looks w) (wk_cursor w) (wk_agent w) (wk_planned w) (wk_next_ordinal w)
    (wk_served w ++ [MkServed sd s]).

Definition store_fault (e : StoreError) : WorkerFault := WorkerFault_new (StoreError_kind e) (store_text e).
Definition fault {X} (kind message : string) : workM X := lift (Err (WorkerFault_new kind message)).
(** What [drive] makes of a panic. *)
Definition panics {X} (payload : string) : workM X := fault "coordinator_panicked" payload.
Definition or_fault {E X} (describe : E → WorkerFault) (r : result E X) : workM X := lift (map_err describe r).

Definition self : workM Worker := Prelude.get.

(** An access of the store, after what others did to it. *)
Definition answered {X} (m : storeM X) : stateM Worker WorkerFault (result StoreError X) := λ w,
  let '(r, s) := m (others (wk_looks w) (wk_store w)) in (Ok r, set_store s w).
Definition access {X} (m : storeM X) : workM X := r ← answered m; or_fault store_fault r.
(** [let _ =], and [if let Ok]. *)
Definition attempted {X} (m : storeM X) : workM (option X) :=
  r ← answered m; mret (match r with Ok a => Some a | Err _ => None end).
Definition ignored {X} (m : storeM X) : workM unit := _ ← answered m; mret tt.
Definition look : workM nat := λ w, (Ok (wk_looks w), set_store (wk_store w) w).
Definition is_cancelled : workM bool := n ← look; mret (cancelled n).
Definition clock : workM OffsetDateTime := λ w, (Ok (to_utc (now_at (rs_io (wk_store w)))), w).
Definition draw : workM Uuid := λ w, (Ok (fresh_uuid (rs_io (wk_store w))), w).

(** The fields of [RunWorker] that do not change. *)
Context (run : RunId) (task : Task) (workspace : WorkspaceRef) (workspace_key : WorkspaceKey)
  (workspace_metadata : option WorkspaceMetadata) (policy : PolicyEngine) (cancellation : CancellationToken)
  (registry : ToolRegistry (Tool:=T)).

(** ** Writing *)

Definition state_payload (fields : list (string * string)) : Value :=
  json_object ((λ f, (f.1, json_string f.2)) <$> fields).
Definition run_state_event (state : ExecutionState) (at_ : OffsetDateTime) : RunEvent :=
  with_payload (state_payload [("state", ExecutionState_as_str state)]) (RunEvent_new RunStateChanged at_).
Definition call_state_event (step : StepId) (call : ToolCallId) (fields : list (string * string))
    (at_ : OffsetDateTime) : RunEvent :=
  with_payload (state_payload fields) (for_tool_call call (for_step step (RunEvent_new ToolCallStateChanged at_))).
Definition step_event (kind : EventKind) (step : StepId) (fields : list (string * string)) (at_ : OffsetDateTime)
    : RunEvent :=
  with_payload (state_payload fields) (for_step step (RunEvent_new kind at_)).

(** The pages of [publish], under the lock of the delivery.  Others append before it begins,
    and the log is that long. *)
Fixpoint publish_pages (fuel : nat) (cursor : option N) (s : RunStore) : result StoreError (option N) * RunStore :=
  match fuel with
  | 0 => (Ok cursor, s)
  | S fuel =>
    match events run cursor DEFAULT_EVENT_PAGE_LIMIT s with
    | (Err e, s) => (Err e, s)
    | (Ok page, s) =>
      match last page with
      | None => (Ok cursor, s)
      | Some event => publish_pages fuel (Some (se_seq event)) s
      end
    end
  end.
Definition publish_all (cursor : option N) : storeM (option N) := λ s,
  publish_pages (S (length (log_of_run run (rs_tables s)))) cursor s.
Definition publish : workM unit :=
  w ← self;
  cursor ← access (publish_all (wk_cursor w));
  modify (set_cursor cursor).

Definition transition_run_to (state : ExecutionState) (payload : option Value) (at_ : OffsetDateTime) : workM unit :=
  let event := run_state_event state at_ in
  _ ← access (transition_run_with_event run state at_ match payload with Some p => with_payload p event | None => event end);
  publish.
Definition finish_step (step : StepId) (state : ExecutionState) : workM unit :=
  at_ ← clock;
  _ ← access (transition_step_with_event step state at_
        (step_event StepFinished step [("state", ExecutionState_as_str state)] at_));
  publish.
Definition finish_step_failed (step : StepId) (failure : Failure) : workM unit :=
  at_ ← clock;
  _ ← access (fail_step_with_event step failure at_
        (step_event StepFinished step [("state", "failed"); ("kind", failure_kind failure)] at_));
  publish.
(** A step that has not ended is ended as cancelled. *)
Definition cancel_step (step : StepId) : workM unit :=
  record ← access (load (R:=Step) step);
  if is_terminal (step_state record) then mret tt else finish_step step ExecCancelled.
Fixpoint cancel_steps (steps : list StepId) : workM unit :=
  match steps with
  | [] => mret tt
  | step :: steps => _ ← cancel_step step; cancel_steps steps
  end.
Definition terminalize_planned_steps : workM unit := w ← self; cancel_steps (wk_planned w).
Definition terminalize_unexecuted_steps : workM unit :=
  _ ← terminalize_planned_steps;
  modify (set_planned []).
Definition finish_cancelled (step : option StepId) : workM unit :=
  _ ← match step with Some step => cancel_step step | None => mret tt end;
  _ ← terminalize_planned_steps;
  record ← access (load (R:=Run) run);
  if is_terminal (run_state record) then mret tt
  else at_ ← clock; transition_run_to ExecCancelled None at_.
Definition cancel_call (step : StepId) (call : ToolCallId) : workM unit :=
  at_ ← clock;
  _ ← access (transition_tool_call_with_event call CallCancelled at_
        (call_state_event step call [("state", "cancelled")] at_));
  finish_cancelled (Some step).

(** ** The record of a turn *)

Definition record_turn (kind : EventKind) (payload : Value) : workM unit :=
  at_ ← clock;
  _ ← access (append_event run (with_payload payload (RunEvent_new kind at_)));
  publish.
Definition record_observation (o : Observation ArtifactRef) : workM unit :=
  payload ← or_fault (WorkerFault_new "agent_record_invalid") (observation_payload o);
  record_turn AgentObservation payload.
Definition record_action (a : AgentAction) : workM unit :=
  payload ← or_fault (WorkerFault_new "agent_record_invalid") (action_payload (redact_action a));
  record_turn RunStore.AgentAction payload.
Definition record_checkpoint : workM unit :=
  w ← self;
  payload ← or_fault (WorkerFault_new "agent_panicked") (agent_state (wk_agent w));
  record_turn AgentCheckpoint payload.
Definition ask_agent (o : Observation ArtifactRef) : workM AgentAction := λ w,
  let '(r, a) := next_action o (wk_agent w) in
  (map_err (WorkerFault_new "agent_panicked") r, set_agent a w).

(** ** Steps *)

(** [Step::new] under the next ordinal. *)
Definition new_step (title : string) (at_ : OffsetDateTime) : workM Step :=
  id ← draw;
  w ← self;
  let step := Step_with_id (MkStepId id) run (wk_next_ordinal w) title at_ in
  _ ← (if (wk_next_ordinal w =? ORDINAL_LIMIT)%N then fault "step_limit" "step ordinal overflow"
       else modify (set_next_ordinal (wk_next_ordinal w + 1)));
  _ ← access (insert_step step);
  mret step.
Definition plan_step (title : PlannedStep) : workM unit :=
  at_ ← clock;
  step ← new_step title at_;
  _ ← access (append_event run (step_event Diagnostic (step_id step)
        [("kind", "step_planned"); ("title", step_title step)] at_));
  w ← self;
  modify (set_planned (wk_planned w ++ [step_id step])).
Fixpoint plan_steps (titles : list PlannedStep) : workM unit :=
  match titles with
  | [] => mret tt
  | title :: titles => _ ← plan_step title; plan_steps titles
  end.
Definition persist_plan (titles : list PlannedStep) : workM unit := _ ← plan_steps titles; publish.
Definition begin_step (title : string) : workM Step :=
  w ← self;
  step ← match wk_planned w with
         | id :: planned => _ ← modify (set_planned planned); access (load (R:=Step) id)
         | [] => at_ ← clock; new_step title at_
         end;
  at_ ← clock;
  started ← access (transition_step_with_event (step_id step) ExecRunning at_
              (step_event StepStarted (step_id step) [("state", "running")] at_));
  _ ← publish;
  mret started.1.

(** ** A call *)

(** [None]: the run has ended. *)
Abbreviation turnM := (workM (option (Observation ArtifactRef))).

Definition fail_before_policy (step : Step) (call : ToolCallId) (kind message : string) : turnM :=
  let message := truncate message MAX_FAILURE_MESSAGE_BYTES in
  let failure := Failure_new kind message in
  at_ ← clock;
  _ ← access (fail_tool_call_with_event call failure at_
        (call_state_event (step_id step) call [("state", "failed"); ("kind", kind)] at_));
  _ ← finish_step_failed (step_id step) failure;
  _ ← publish;
  mret (Some (ToolFailed call (ToolErrorView_new kind message))).

(** The call as it is handed to the scheduler. *)
Definition scheduled_call (call : ToolCallId) (risk : RiskLevel) (approval : option (string * ToolIdentity * InputHash))
    : workM ScheduledCall :=
  let scheduled := ScheduledCall_new call workspace_key risk cancellation in
  scheduled ← match workspace_metadata with
              | None => mret scheduled
              | Some metadata =>
                or_fault (λ e, WorkerFault_new "forbidden_path"
                            (ToolError_to_string (ForbiddenPath (path_text (fp_path e)) (fp_reason e))))
                  (with_workspace_metadata canonicalize metadata scheduled)
              end;
  mret match approval with
       | Some (decided_by, tool, hash) => approved_with_binding decided_by tool hash scheduled
       | None => scheduled
       end.
Fixpoint waits (slices : nat) (between : workM unit) : workM unit :=
  match slices with
  | 0 => mret tt
  | S slices => _ ← publish; _ ← between; waits slices between
  end.
(** Submission and the wait for the ticket. *)
Definition serve_call (sd : ScheduledCall) : workM CompletedCall :=
  w ← self;
  _ ← modify (record_served sd (wk_store w));
  n ← look;
  _ ← waits (slices n) (mret tt);
  r ← answered (λ s, let '(r, s) := serve n sd s in (Ok r, s));
  match r with
  | Ok (Ok completed) => mret completed
  | Ok (Err (inl e)) => lift (Err (store_fault e))
  | Ok (Err (inr refusal)) => fault (rf_kind refusal) (rf_text refusal)
  | Err e => lift (Err (store_fault e))
  end.

Definition execute_scheduled (step : Step) (call : ToolCallId) (risk : RiskLevel)
    (approval : option (string * ToolIdentity * InputHash)) : turnM :=
  scheduled ← scheduled_call call risk approval;
  completed ← serve_call scheduled;
  _ ← publish;
  match cc_outcome completed with
  | OutcomeSucceeded output =>
    _ ← finish_step (step_id step) ExecSucceeded;
    n ← look;
    artifacts ← or_fault store_fault (run_artifacts n run);
    mret (Some (ToolResult call (redact_payload output)
      (snd <$> filter (λ artifact, artifact.1 = Some call) artifacts)))
  | OutcomeFailed _ | OutcomeTimedOut _ =>
    let failure := default (Failure_new "execution_failed" "the tool failed") (call_failure (cc_record completed)) in
    _ ← finish_step_failed (step_id step) failure;
    mret (Some (ToolFailed call (ToolErrorView_new (failure_kind failure) (failure_message failure))))
  | OutcomeCancelled => _ ← finish_cancelled (Some (step_id step)); mret None
  | OutcomeInterrupted =>
    _ ← finish_step (step_id step) ExecInterrupted;
    mret (Some (ToolFailed call (ToolErrorView_new (ToolError_kind Interrupted)
      "the tool call was interrupted before it reported an outcome")))
  end.

(** What a call is asked about and matched against. *)
Definition binding_of : WorkspaceBinding :=
  MkWorkspaceBinding (Some (wk_project_id workspace_key)) (wk_canonical_root workspace_key).
Definition candidate_of (call : ToolCallId) (tool : T) (hash : InputHash) : CandidateCall :=
  MkCandidateCall run call binding_of (td_identity (descriptor tool)) (td_capabilities (descriptor tool))
    IntegrationIdentity_none hash.
Definition decided_by_of (request : ApprovalRequest) : string :=
  match ar_decision request with Some d => DecidedVia_as_str (ad_decided_via d) | None => "approval_service" end.

Definition resume_denied (o : ApprovalObservation) (step : Step) (call : ToolCallId) (decided_by : string) : turnM :=
  let failure := Failure_new "approval_denied" (default "the approval was denied" (ob_reason o)) in
  at_ ← clock;
  _ ← access (reject_tool_call_approval_with_event call decided_by failure at_
        (call_state_event (step_id step) call [("state", "denied"); ("kind", "approval_denied")] at_));
  _ ← access (resume_run_after_denial_with_event run decided_by at_ (run_state_event ExecRunning at_));
  _ ← finish_step_failed (step_id step) failure;
  _ ← publish;
  mret (Some (ApprovalAnswered call ViewDenied)).
Definition resume_granted (request : ApprovalRequest) (step : Step) (call : ToolCallId) (identity : ToolIdentity)
    (hash : InputHash) (risk : RiskLevel) (decided_by : string) : turnM :=
  match grant_of request with
  | None => fault "approval_binding_mismatch" "a granted request produced no grant"
  | Some grant =>
    match Registry.get (ti_id identity) (Some (ti_version identity)) registry with
    | None => fault "approval_binding_mismatch" "approved tool disappeared"
    | Some tool =>
      let candidate := MkCandidateCall run call binding_of identity (td_capabilities (descriptor tool))
                         IntegrationIdentity_none hash in
      if negb (grant_applies grant candidate)
      then fault "approval_binding_mismatch" "the persisted approval does not bind to the exact scheduled request"
      else
        at_ ← clock;
        _ ← access (approve_run_with_event run decided_by at_ (run_state_event ExecRunning at_));
        _ ← publish;
        execute_scheduled step call risk (Some (decided_by, identity, hash))
    end
  end.
Definition stopped_by (o : ApprovalObservation) : workM bool :=
  if bool_decide (ob_state o = Approval.Cancelled) then mret true else is_cancelled.
Definition resume_approval (o : ApprovalObservation) (step : Step) (call : ToolCallId) (identity : ToolIdentity)
    (hash : InputHash) (risk : RiskLevel) : turnM :=
  request ← access (approval (ob_approval_id o));
  stop ← stopped_by o;
  if (stop : bool) then (_ ← cancel_call (step_id step) call; mret None)
  else
    let decided_by := decided_by_of request in
    match ob_verdict o with
    | VerdictDenied => resume_denied o step call decided_by
    | VerdictGranted => resume_granted request step call identity hash risk decided_by
    end.

(** Between two slices of the wait: a cancelled run withdraws its question. *)
Definition withdraw_if_cancelled (id : ApprovalId) : workM unit :=
  stop ← is_cancelled;
  if (stop : bool) then
    at_ ← clock;
    withdrawn ← attempted (resolve_approval id Approval.Cancelled at_);
    match withdrawn with Some _ => mret tt | None => ignored (approval id) end
  else mret tt.
Definition wait_approval_ticket (id : ApprovalId) (step : Step) (call : ToolCallId) (identity : ToolIdentity)
    (hash : InputHash) (risk : RiskLevel) : turnM :=
  n ← look;
  _ ← waits (slices n) (withdraw_if_cancelled id);
  resume_approval (observed n id) step call identity hash risk.
Definition await_approval (step : Step) (call : ToolCallId) (identity : ToolIdentity) (hash : InputHash)
    (risk : RiskLevel) : turnM :=
  recorded ← access (load (R:=ToolCall) call);
  let scope :=
    match call_policy_decision recorded with
    | Some d => if pd_one_call_only d then ExactCall else ToolForRun
    | None => ToolForRun
    end in
  at_ ← clock;
  match Registry.get (ti_id identity) (Some (ti_version identity)) registry with
  | None => panics "the prepared tool remains registered"
  | Some tool =>
    let pending :=
      summarized_as ("request to run " +:+ ToolIdentity_to_string identity)
        (with_capabilities (td_capabilities (descriptor tool))
          (requesting scope (PendingApproval_new run call identity hash binding_of risk at_))) in
    id ← draw;
    request ← or_fault (λ e, WorkerFault_new (ApprovalError_kind e) (approval_text e)) (open_with_id (MkApprovalId id) pending);
    n ← look;
    _ ← (if ticket_free n (ar_id request) then mret tt
         else fault "approval_waiter_exists" "approval already has a waiter");
    _ ← access (open_approval request);
    at_ ← clock;
    _ ← transition_run_to WaitingForApproval None at_;
    wait_approval_ticket (ar_id request) step call identity hash risk
  end.

(** What policy is asked about a prepared call. *)
Definition request_of (tool : T) (prepared : PreparedRequest) (trust : TrustState) (grants : list ApprovalGrant)
    (candidate : CandidateCall) : PolicyRequest :=
  with_grants (matching_grants grants candidate)
    (with_paths (pc_paths prepared)
      (PolicyRequest_new (descriptor tool) (pc_classification prepared) trust Interactive)).

Definition record_decision (step : Step) (call : ToolCallId) (decision : PolicyDecision) (risk : RiskLevel) : workM unit :=
  at_ ← clock;
  _ ← access (apply_tool_call_policy_decision_with_event call decision at_
        (with_payload (json_object [("decision", decision_json decision); ("risk", json_string (as_str risk))])
          (for_tool_call call (for_step (step_id step) (RunEvent_new PolicyDecisionMade at_)))));
  publish.

(** From the decision on. *)
Definition carry_out (step : Step) (call : ToolCallId) (identity : ToolIdentity) (hash : InputHash)
    (decision : PolicyDecision) (risk : RiskLevel) : turnM :=
  _ ← record_decision step call decision risk;
  match pd_verdict decision with
  | Allow => execute_scheduled step call risk None
  | Deny =>
    _ ← finish_step_failed (step_id step) (Failure_new "policy" (pd_reason decision));
    mret (Some (PolicyDenied call (redact_text (pd_reason decision))))
  | Ask => await_approval step call identity hash risk
  end.
(** From the prepared input to the decision. *)
Definition decide_call (step : Step) (call : ToolCallId) (tool : T) (prepared : PreparedRequest) (input : Value) : turnM :=
  hash ← or_fault (λ text, WorkerFault_new (ApprovalError_kind (UncanonicalizableInput "" text)) text) (input_hash input);
  grants ← access (run_grants run);
  n ← look;
  trust ← or_fault store_fault (workspace_trust n workspace_key);
  let request := request_of tool prepared trust grants (candidate_of call tool hash) in
  stop ← is_cancelled;
  if (stop : bool) then (_ ← cancel_call (step_id step) call; mret None)
  else carry_out step call (td_identity (descriptor tool)) hash (evaluate policy request) (pr_risk request).
Definition dispatch_tool (tool_id : ToolId) (tool_version : ToolVersion) (input : Value) : turnM :=
  step ← begin_step ("Run " +:+ ToolId_as_str tool_id);
  at_ ← clock;
  id ← draw;
  let call := MkToolCallId id in
  _ ← access (insert_tool_call (ToolCall_with_id call step (ToolId_as_str tool_id)
        (Version_to_string (as_semver tool_version)) input at_));
  match Registry.get tool_id (Some tool_version) registry with
  | None =>
    match Registry.resolve tool_id (Some tool_version) registry with
    | Err e =>
      let refusal := registry_refusal e in
      fail_before_policy step call (InvocationError_kind refusal) (InvocationError_to_string refusal)
    | Ok _ => panics "get and resolve agree on a missing tool"
    end
  | Some tool =>
    raw ← or_fault (WorkerFault_new "invalid_input") (raw_value input);
    bounds ← or_fault (λ e, WorkerFault_new (rf_kind e) (rf_text e)) (boundary (wk_canonical_root workspace_key));
    match prepare_json tool raw bounds with
    | Err e => fail_before_policy step call (InvocationError_kind e) (InvocationError_to_string e)
    | Ok prepared =>
      stop ← is_cancelled;
      if (stop : bool) then (_ ← cancel_call (step_id step) call; mret None)
      else decide_call step call tool prepared input
    end
  end.

(** ** The run *)

(** One action carried out: what the agent is shown next, if the run goes on. *)
Definition act (o : Observation ArtifactRef) (a : AgentAction) : turnM :=
  match a with
  | Plan steps => _ ← persist_plan steps; mret (Some o)
  | CallTool tool_id tool_version input => dispatch_tool tool_id tool_version input
  | CompleteRun summary =>
    _ ← terminalize_unexecuted_steps;
    at_ ← clock;
    _ ← transition_run_to ExecSucceeded (Some (state_payload [("state", "succeeded"); ("summary", summary)])) at_;
    mret None
  | FailRun reason =>
    _ ← terminalize_unexecuted_steps;
    at_ ← clock;
    let message := match failure_json reason with Ok text => text | Err _ => "the agent failed the run" end in
    _ ← access (fail_run_with_event run (Failure_new (AgentFailure_kind reason) message) at_ (run_state_event ExecFailed at_));
    _ ← publish;
    mret None
  end.
Definition turn (o : Observation ArtifactRef) : turnM :=
  stop ← is_cancelled;
  if (stop : bool) then (_ ← finish_cancelled None; mret None)
  else
    _ ← record_observation o;
    a ← ask_agent o;
    stop ← is_cancelled;
    if (stop : bool) then (_ ← finish_cancelled None; mret None)
    else
      _ ← record_action a;
      _ ← record_checkpoint;
      stop ← is_cancelled;
      if (stop : bool) then (_ ← finish_cancelled None; mret None)
      else act o a.
Fixpoint turns (fuel : nat) (o : Observation ArtifactRef) : workM unit :=
  match fuel with
  | 0 =>
    fault "agent_turn_limit" ("the agent exceeded the " +:+ pretty MAX_AGENT_TURNS +:+ "-turn run limit")
  | S fuel =>
    next ← turn o;
    match next with Some o => turns fuel o | None => mret tt end
  end.
Definition drive_inner : workM unit :=
  at_ ← clock;
  _ ← transition_run_to ExecRunning None at_;
  turns MAX_AGENT_TURNS (RunStarted (TaskRef_from_task task) workspace).

(** *** A fault: everything of the run that has not ended is ended, as far as it can be *)

Definition fault_approval (at_ : OffsetDateTime) (request : ApprovalRequest) : workM unit :=
  if bool_decide (ar_state request = ApPending) then ignored (resolve_approval (ar_id request) Approval.Cancelled at_)
  else mret tt.
Definition fault_call (f : WorkerFault) (at_ : OffsetDateTime) (call : ToolCall) : workM unit :=
  if is_terminal (call_state call) then mret tt
  else if bool_decide (call_state call = AwaitingApproval) then
    ignored (transition_tool_call_with_event (call_id call) CallCancelled at_
      (call_state_event (call_step_id call) (call_id call) [("state", "cancelled"); ("kind", wf_kind f)] at_))
  else
    ignored (fail_tool_call_with_event (call_id call) (Failure_new (wf_kind f) (wf_message f)) at_
      (call_state_event (call_step_id call) (call_id call) [("state", "failed"); ("kind", wf_kind f)] at_)).
Definition fault_step (f : WorkerFault) (at_ : OffsetDateTime) (step : Step) : workM unit :=
  if is_terminal (step_state step) then mret tt
  else ignored (fail_step_with_event (step_id step) (Failure_new (wf_kind f) (wf_message f)) at_
    (step_event StepFinished (step_id step) [("state", "failed"); ("kind", wf_kind f)] at_)).
Fixpoint each {X} (do : X → workM unit) (l : list X) : workM unit :=
  match l with
  | [] => mret tt
  | x :: l => _ ← do x; each do l
  end.
(** [unwrap_or_default] *)
Definition listed_or_none {X} (m : storeM (list X)) : workM (list X) := l ← attempted m; mret (default [] l).
Definition fail_this_run (f : WorkerFault) (at_ : OffsetDateTime) : workM unit :=
  loaded ← attempted (load (R:=Run) run);
  match loaded with
  | None => mret tt
  | Some record =>
    if is_terminal (run_state record) then mret tt
    else ignored (fail_run_with_event run (Failure_new (wf_kind f) (wf_message f)) at_ (run_state_event ExecFailed at_))
  end.
(** [record_fault] up to its last access: the open approvals, calls and steps, and the
    diagnostic event. It returns the time they are recorded at. *)
Definition record_evidence (f : WorkerFault) : workM OffsetDateTime :=
  at_ ← clock;
  requests ← listed_or_none (run_approvals run);
  _ ← each (fault_approval at_) requests;
  calls ← listed_or_none (load_run_tool_calls run);
  _ ← each (fault_call f at_) calls;
  steps ← listed_or_none (load_run_steps run);
  _ ← each (fault_step f at_) steps;
  _ ← ignored (append_event run (with_payload
        (state_payload [("kind", "coordinator_error"); ("error_kind", wf_kind f); ("message", wf_message f)])
        (RunEvent_new Diagnostic at_)));
  mret at_.
Definition record_fault (f : WorkerFault) : workM unit :=
  at_ ← record_evidence f;
  fail_this_run f at_.

Definition drive (pid : N) (w : Worker) : Worker :=
  let w := (ignored (set_run_owner run (Some pid)) w).2 in
  let w :=
    match drive_inner w with
    | (Ok _, w) => w
    | (Err f, w) => (record_fault f w).2
    end in
  let w := (ignored (set_run_owner run None) w).2 in
  (publish w).2.
End worker.
