(* ===== verification/WorkerLaws.v ===== *)
(** * How the computations of a worker are reasoned about

    Which operations of the store insert no step and no call, what a change with its event
    leaves in its row, and the triples a worker's computations satisfy: what was so before,
    after whatever others did in between, and what is so when it goes on. *)

From Stdlib Require Import ZArith ZifyN ZifyBool.
From stdpp Require Import base decidable countable list gmap sets relations pretty strings.
From S2P Require Import Registry Prelude Digest Tool External Trust Policy Approval Matcher Gate Lifecycle Domain Records Wire Schedule RunStore StoreClaims StoreLaws ClaimLaws Interrupt StoreSafety ToolError Supervise Executor ExecutorSafety RecoverySafety Subscription Worker.

(** ** Operations that insert no step and no call *)

Section rows.
Context `{PlatformLaws, !StoreParams, Faults, !Fresh}.
Abbreviation txM A := (stateM Tables StoreError A).
Abbreviation storeM A := (stateM RunStore StoreError A).

Definition same_rows (t t' : Tables) : Prop :=
  dom (tb_steps t') = dom (tb_steps t) ∧ dom (tb_calls t') = dom (tb_calls t).
#[local] Instance same_rows_preorder : PreOrder same_rows.
Proof. split; [done|]. intros t1 t2 t3 [] []. split; congruence. Qed.

Definition tx_still {A} (m : txM A) : Prop := ∀ t r t', m t = (r, t') → same_rows t t'.
Definition rows_still {A} (m : storeM A) : Prop := ∀ s r s', m s = (r, s') → same_rows (rs_tables s) (rs_tables s').

Lemma tx_still_lift {A} (r : result StoreError A) : tx_still (lift r).
Proof. by intros t ? ? [= <- <-]. Qed.
Lemma tx_still_ret {A} (a : A) : tx_still (mret a).
Proof. by intros t ? ? [= <- <-]. Qed.
Lemma tx_still_get : tx_still get.
Proof. by intros t ? ? [= <- <-]. Qed.
Lemma tx_still_modify f : (∀ t, same_rows t (f t)) → tx_still (modify f).
Proof. by intros Hf t ? ? [= <- <-]. Qed.
Lemma tx_still_bind {A B} (m : txM A) (f : A → txM B) : tx_still m → (∀ a, tx_still (f a)) → tx_still (m ≫= f).
Proof.
  intros Hm Hf t r t'. unfold mbind, stateM_bind. destruct (m t) as [[a|e] t1] eqn:Hrun.
  - intros Hrest. etrans; [by eapply Hm|by eapply Hf].
  - intros [= <- <-]. by eapply Hm.
Qed.
Lemma tx_still_unique record taken : tx_still (insert_unique record taken).
Proof. unfold insert_unique. destruct taken; [apply tx_still_lift|apply tx_still_ret]. Qed.
(** What a step of a transaction does may depend on the tables it reads. *)
Lemma tx_still_read {A} (f : Tables → txM A) : (∀ t r t', f t t = (r, t') → same_rows t t') → tx_still (t ← get; f t).
Proof. intros Hf t r t' Hrun. by apply (Hf t r t'). Qed.

#[local] Ltac walk :=
  repeat (apply tx_still_bind; [apply tx_still_lift || apply tx_still_get || apply tx_still_unique|intros ?]).

Lemma still_load_row {R Id} `{Countable Id, !Row R Id} (id : Id) : tx_still (load_row (R:=R) id).
Proof. intros t r t'. unfold load_row. destruct (row_table t !! id); by intros [= <- <-]. Qed.
Lemma still_change_record {R} (change : stateM R RunDomainError unit) r : tx_still (change_record change r).
Proof. unfold change_record. destruct (change r) as [[?|?] ?]; [apply tx_still_ret|apply tx_still_lift]. Qed.

Lemma same_rows_intro t t' : tb_steps t' = tb_steps t → tb_calls t' = tb_calls t → same_rows t t'.
Proof. intros Hs Hc. split; by rewrite ?Hs, ?Hc. Qed.
Lemma dom_insert_here {K V} `{Countable K} (m : gmap K V) k v v' : m !! k = Some v → dom (<[k := v']> m) = dom m.
Proof. intros Hk. apply dom_insert_lookup_L. by exists v. Qed.

Lemma still_update_run r : tx_still (update_row (R:=Run) (Id:=RunId) r).
Proof.
  apply tx_still_bind; [apply tx_still_lift|]. intros _. apply tx_still_read. intros t x t'.
  destruct (row_table t !! row_id r); intros [= <- <-]; [|done]. by apply same_rows_intro.
Qed.
Lemma still_update_step r : tx_still (update_row (R:=Step) (Id:=StepId) r).
Proof.
  apply tx_still_bind; [apply tx_still_lift|]. intros _. apply tx_still_read. intros t x t'.
  destruct (row_table t !! row_id r) eqn:Hr; intros [= <- <-]; [|done].
  split; [|done]. by eapply dom_insert_here.
Qed.
Lemma still_update_call r : tx_still (update_row (R:=ToolCall) (Id:=ToolCallId) r).
Proof.
  apply tx_still_bind; [apply tx_still_lift|]. intros _. apply tx_still_read. intros t x t'.
  destruct (row_table t !! row_id r) eqn:Hr; intros [= <- <-]; [|done].
  split; [done|]. by eapply dom_insert_here.
Qed.
Lemma still_append_row run e : tx_still (append_event_row run e).
Proof.
  unfold append_event_row. walk.
  apply tx_still_bind; [apply tx_still_modify; intros ?; by apply same_rows_intro|]. intros _. apply tx_still_ret.
Qed.
Lemma still_prepared_append run p : tx_still (PreparedEvent_append run p).
Proof.
  apply tx_still_bind; [|intros _; apply still_append_row]. destruct (pe_sealed p) as [[id row]|]; [|apply tx_still_ret].
  unfold insert_artifact_row. walk.
  apply tx_still_modify. intros ?. by apply same_rows_intro.
Qed.
Lemma still_set_owner run pid : tx_still (set_owner_row run pid).
Proof.
  unfold set_owner_row. walk. apply tx_still_modify. intros ?. by apply same_rows_intro.
Qed.
Lemma still_insert_approval r : tx_still (insert_approval r).
Proof.
  unfold insert_approval. walk. apply tx_still_modify. intros ?. by apply same_rows_intro.
Qed.
Lemma still_update_resolution r : tx_still (update_resolution r).
Proof.
  unfold update_resolution. walk. case_match; [|apply tx_still_lift].
  apply tx_still_modify. intros ?. by apply same_rows_intro.
Qed.

Lemma rows_still_bind {A B} (m : storeM A) (f : A → storeM B) :
  rows_still m → (∀ a, rows_still (f a)) → rows_still (m ≫= f).
Proof.
  intros Hm Hf s r s'. unfold mbind, stateM_bind. destruct (m s) as [[a|e] s1] eqn:Hrun.
  - intros Hrest. etrans; [by eapply Hm|by eapply Hf].
  - intros [= <- <-]. by eapply Hm.
Qed.
Lemma rows_still_pure {A} (m : storeM A) : (∀ s, rs_tables (m s).2 = rs_tables s) → rows_still m.
Proof. intros Hm s r s' Hrun. specialize (Hm s). rewrite Hrun in Hm. cbn in Hm. by rewrite Hm. Qed.
Lemma still_reader {A} (read : txM A) : rows_still (with_reader read).
Proof. intros s r s' [-> _]%with_reader_spec. done. Qed.
Lemma still_transaction {A} (change : txM A) : tx_still change → rows_still (in_write_transaction change).
Proof.
  intros Hc s r s' (_ & _ & Hr)%in_write_transaction_spec. destruct r as [a|e]; [by eapply Hc|by rewrite Hr].
Qed.
Lemma still_prepare run e : rows_still (prepare_event run e).
Proof.
  unfold prepare_event. destruct (_ <=? _)%N; [by apply rows_still_pure|].
  apply rows_still_bind; [apply still_reader|]. intros _. apply rows_still_bind; [|intros ?; by apply rows_still_pure].
  intros s r s'. unfold seal_payload, mbind, stateM_bind, get, modify, mret, stateM_ret. rewrite attempt_spec.
  destruct (io_fails _); by intros [= <- <-].
Qed.
Lemma still_commit {A} p (change : PreparedEvent → txM A) : tx_still (change p) → rows_still (commit_event p change).
Proof.
  intros Hc s r s'. unfold commit_event, on_error.
  destruct (in_write_transaction (change p) s) as [[a|e] s1] eqn:Hrun; intros [= <- <-]; apply still_transaction in Hrun; try done.
  etrans; [exact Hrun|]. unfold discard_spill. destruct (pe_sealed p) as [[? ?]|]; [|done]. by destruct (io_fails _).
Qed.

Lemma still_change {R Id} `{Countable Id, !Row R Id} run_of e (change : txM R) pin log_of :
  rows_still run_of → tx_still change → (∀ r : R, tx_still (update_row r)) → (∀ r, tx_still (pin r)) →
  rows_still (change_with_event run_of e change pin log_of).
Proof.
  intros Hrun Hc Hu Hp. apply rows_still_bind; [done|]. intros run. apply rows_still_bind; [apply still_prepare|].
  intros p. apply still_commit. apply tx_still_bind; [done|]. intros r. apply tx_still_bind; [done|]. intros _.
  apply tx_still_bind; [done|]. intros _. apply tx_still_bind; [apply still_prepared_append|]. intros n. apply tx_still_ret.
Qed.
Lemma still_moved {R Id} `{Countable Id, !Row R Id} (id : Id) (change : stateM R RunDomainError unit) :
  tx_still (loaded_and_moved id change).
Proof. apply tx_still_bind; [apply still_load_row|]. intros r. apply still_change_record. Qed.
Lemma still_change_run id e change : rows_still (change_run_with_event id e change).
Proof.
  apply still_change; [by apply rows_still_pure|apply still_moved|apply still_update_run|intros; apply tx_still_ret].
Qed.
Lemma still_change_step id e change : rows_still (change_step_with_event id e change).
Proof.
  apply still_change; [|apply still_moved|apply still_update_step|intros; apply tx_still_ret].
  apply rows_still_bind; [apply still_reader|intros; by apply rows_still_pure].
Qed.
Lemma still_change_call id e change : rows_still (change_tool_call_with_event id e change).
Proof.
  apply still_change; [|apply still_moved|apply still_update_call|intros; apply tx_still_ret].
  apply rows_still_bind; [apply still_reader|intros; by apply rows_still_pure].
Qed.
Lemma still_append_event run e : rows_still (append_event run e).
Proof.
  apply rows_still_bind; [apply still_prepare|]. intros p. apply still_commit, still_prepared_append.
Qed.
Lemma still_open_approval r : rows_still (open_approval r).
Proof.
  unfold open_approval. destruct (ApprovalState_is_terminal _); [by apply rows_still_pure|].
  apply rows_still_bind; [apply still_prepare|]. intros p. apply rows_still_bind; [|intros; by apply rows_still_pure].
  apply still_commit. apply tx_still_bind; [apply still_insert_approval|]. intros _. apply still_prepared_append.
Qed.
Lemma still_resolve_approval id to at_ : rows_still (resolve_approval id to at_).
Proof.
  apply rows_still_bind; [apply still_reader|]. intros current. apply rows_still_bind; [apply still_prepare|].
  intros p. apply still_commit. apply tx_still_bind.
  { intros t r t'. unfold load_approval. destruct (tb_approvals t !! id); by intros [= <- <-]. }
  intros loaded. apply tx_still_bind.
  { unfold change_request. destruct (ApprovalRequest_resolve to at_ loaded) as [[?|?] ?]; [apply tx_still_ret|apply tx_still_lift]. }
  intros r. apply tx_still_bind; [apply still_update_resolution|]. intros _.
  apply tx_still_bind; [apply still_prepared_append|]. intros n. apply tx_still_ret.
Qed.
Lemma still_set_run_owner run pid : rows_still (set_run_owner run pid).
Proof. apply still_transaction, still_set_owner. Qed.

(** An operation that inserts no step and no call. *)
Definition calm_op {A} (m : storeM A) : Prop := operation m ∧ rows_still m.
End rows.

(** ** A row that was changed *)

Section changed.
Context `{PlatformLaws, !StoreParams, Faults, !Fresh, !FreshLaws}.

Lemma changed_row {R Id} {step : R → R → Prop} `{Countable Id, !Row R Id, !RowLaws R Id step}
    run_of e id (m : stateM R RunDomainError unit) pin log_of s r' n s' :
  store_wf s → quiet run_of → (∀ r r', m r = (Ok tt, r') → step r r') → writes (step:=step) pin →
  change_with_event run_of e (loaded_and_moved id m) pin log_of s = (Ok (r', n), s') →
  ∃ r, row_table (rs_tables s) !! id = Some r ∧ m r = (Ok tt, r') ∧ row_table (rs_tables s') !! id = Some r'.
Proof.
  intros Hwf Hq Hm Hw (run & s1 & Hrun & (p & s2 & Hp & Hc%commit_event_Ok)%bindM_Ok)%bindM_Ok.
  destruct (Hq _ _ _ Hwf Hrun) as [Hwf1 [Ht1 _]].
  destruct (prepare_event_spec _ _ _ _ _ Hwf1 Hp) as (_ & [Ht2 _] & _). rewrite Ht2, Ht1 in Hc.
  apply bindM_Ok in Hc as (r1 & t1 & Hch & (u & t2 & Hu & (u' & t3 & Hpin & Hrest)%bindM_Ok)%bindM_Ok).
  pose proof Hch as (-> & r & Hr & _ & Hmr)%(loaded_and_moved_Ok (step:=step)).
  destruct (change_writes (step:=step) (loaded_and_moved id m) pin (rs_tables s) r1 (rs_tables s) u t2 u' t3)
    as (r0 & _ & Hs0 & Ht3); [by apply loaded_moves|done|apply Hwf|done..|].
  apply bindM_Ok in Hrest as (k & t4 & Happ & [[= -> ->] ->]%ret_Ok).
  apply append_logged in Happ as (artifacts & ->). exists r. split; [done|]. split; [done|].
  rewrite (rl_logged (step:=step)), Ht3, (rl_table (step:=step)).
  rewrite <- (rl_id (step:=step) r0 r1 Hs0), (rl_id (step:=step) r r1) by by apply Hm.
  rewrite (rl_keyed (step:=step) _ _ _ (sw_tables _ Hwf) Hr). by rewrite lookup_insert_eq.
Qed.
Lemma changed_run id e m s r' n s' :
  store_wf s → (∀ r r', m r = (Ok tt, r') → run_step r r') → change_run_with_event id e m s = (Ok (r', n), s') →
  ∃ r, tb_runs (rs_tables s) !! id = Some r ∧ m r = (Ok tt, r') ∧ tb_runs (rs_tables s') !! id = Some r'.
Proof.
  intros Hwf Hm. exact (changed_row (R:=Run) (step:=run_step) _ e id m _ _ s r' n s' Hwf (quiet_ret id) Hm run_writes).
Qed.
Lemma changed_step id e m s r' n s' :
  store_wf s → (∀ r r', m r = (Ok tt, r') → step_step r r') → change_step_with_event id e m s = (Ok (r', n), s') →
  ∃ r, tb_steps (rs_tables s) !! id = Some r ∧ m r = (Ok tt, r') ∧ tb_steps (rs_tables s') !! id = Some r'.
Proof.
  intros Hwf Hm. exact (changed_row (R:=Step) (step:=step_step) _ e id m _ _ s r' n s' Hwf (quiet_run_of id step_run_id) Hm step_writes).
Qed.
Lemma changed_call id e m s r' n s' :
  store_wf s → (∀ r r', m r = (Ok tt, r') → call_still r r') → change_tool_call_with_event id e m s = (Ok (r', n), s') →
  ∃ r, tb_calls (rs_tables s) !! id = Some r ∧ m r = (Ok tt, r') ∧ tb_calls (rs_tables s') !! id = Some r'.
Proof.
  intros Hwf Hm. exact (changed_row (R:=ToolCall) (step:=call_still) _ e id m _ _ s r' n s' Hwf (quiet_run_of id call_run_id) Hm call_writes).
Qed.

#[local] Ltac state_of :=
  intros Hm; method_inv Hm;
  match goal with Hmv : moved _ _ _ |- _ => by apply moved_inv in Hmv as (_ & ? & _) end.

Lemma run_transition_state to at_ r r' : Run_transition to at_ r = (Ok tt, r') → run_state r' = to.
Proof. unfold Run_transition. state_of. Qed.
Lemma run_fail_state f at_ r r' : Run_fail f at_ r = (Ok tt, r') → run_state r' = ExecFailed.
Proof. unfold Run_fail. state_of. Qed.
Lemma step_transition_state to at_ r r' : Step_transition to at_ r = (Ok tt, r') → step_state r' = to.
Proof. unfold Step_transition. state_of. Qed.
Lemma step_fail_state f at_ r r' : Step_fail f at_ r = (Ok tt, r') → step_state r' = ExecFailed.
Proof. unfold Step_fail. state_of. Qed.
Lemma call_transition_state to at_ r r' : ToolCall_transition to at_ r = (Ok tt, r') → call_state r' = to.
Proof. unfold ToolCall_transition. state_of. Qed.
Lemma call_fail_state f at_ r r' : ToolCall_fail f at_ r = (Ok tt, r') → call_state r' = CallFailed.
Proof. unfold ToolCall_fail. state_of. Qed.
Lemma call_reject_state who f at_ r r' : ToolCall_reject_approval who f at_ r = (Ok tt, r') → call_state r' = CallDenied.
Proof. unfold ToolCall_reject_approval. state_of. Qed.
Lemma call_decided d at_ r r' :
  ToolCall_apply_policy_decision d at_ r = (Ok tt, r') →
  call_policy_decision r' = Some d ∧ (pd_verdict d = Deny → call_state r' = CallDenied).
Proof.
  unfold ToolCall_apply_policy_decision. intros Hm. method_inv Hm. destruct (pd_verdict d); method_inv Hm; (split; [done|]).
  all: try done.
  intros _. match goal with Hmv : moved _ _ _ |- _ => by apply moved_inv in Hmv as (_ & ? & _) end.
Qed.
End changed.

(** ** Triples *)

Section triples.
Context `{PlatformLaws, !StoreParams, Faults, !Fresh, !FreshLaws, !Now, DebugFormat}.
Context {T ArtifactRef A : Type} `{!Agent ArtifactRef A, !WorkerTexts ArtifactRef, !Surroundings T ArtifactRef}.
Abbreviation Worker := (Worker (A:=A)).
Abbreviation workM X := (stateM Worker WorkerFault X).
Abbreviation storeM A := (stateM RunStore StoreError A).
Context (run : RunId) (good : Served → Prop).

(** No step and no call of the run was inserted: its worker is the only one that does. *)
Definition no_new (t t' : Tables) : Prop :=
  (∀ id st, tb_steps t' !! id = Some st → step_run_id st = run → is_Some (tb_steps t !! id)) ∧
  (∀ id c, tb_calls t' !! id = Some c → call_run_id c = run → is_Some (tb_calls t !! id)).
Definition calm_step (s s' : RunStore) : Prop := store_step s s' ∧ no_new (rs_tables s) (rs_tables s').

(** What is relied on: others use the operations of the store and leave the making of steps
    and calls of this run to its worker, and a call that was served is over. *)
Class SurroundingsLaws : Prop := {
  others_calm : ∀ n s, rtc calm_step s (others n s);
  serve_calm : ∀ n sd s, rtc calm_step s (serve n sd s).2;
  serve_ends : ∀ n sd s completed s', store_wf s → serve n sd s = (Ok completed, s') →
    ∃ c, tb_calls (rs_tables s') !! sd_call sd = Some c ∧ is_terminal (call_state c) = true;
}.
Context `{!SurroundingsLaws}.

(** The worker went on, and what it handed over meanwhile was [good]. *)
Record advances (w w' : Worker) : Prop := {
  av_steps : rtc store_step (wk_store w) (wk_store w');
  av_served : ∃ l, wk_served w' = wk_served w ++ l ∧ Forall good l;
}.
(** It neither inserted a step or a call, nor handed one over, nor changed its plan. *)
Record calmly (w w' : Worker) : Prop := {
  ca_steps : rtc calm_step (wk_store w) (wk_store w');
  ca_planned : wk_planned w' = wk_planned w;
  ca_served : wk_served w' = wk_served w;
}.
#[export] Instance advances_preorder : PreOrder advances.
Proof.
  split.
  - intros w. split; [done|]. exists []. by rewrite app_nil_r.
  - intros w1 w2 w3 [Hs1 (l1 & Hl1 & Hg1)] [Hs2 (l2 & Hl2 & Hg2)]. split; [by etrans|].
    exists (l1 ++ l2). rewrite Hl2, Hl1, app_assoc. split; [done|by apply Forall_app].
Qed.
#[export] Instance calmly_preorder : PreOrder calmly.
Proof.
  split; [by split|]. intros w1 w2 w3 [] []. split; [by etrans|congruence..].
Qed.
Lemma calm_steps s s' : rtc calm_step s s' → rtc store_step s s'.
Proof. apply rtc_subrel. by intros ? ? [? _]. Qed.
Lemma calmly_advances w w' : calmly w w' → advances w w'.
Proof. intros [Hs _ Hsv]. split; [by apply calm_steps|]. exists []. by rewrite app_nil_r. Qed.
Lemma wf_advances w w' : store_wf (wk_store w) → advances w w' → store_wf (wk_store w').
Proof. intros Hwf [Hs _]. by apply (store_steps_keep _ _ Hwf). Qed.

Definition does {X} (P : Worker → Prop) (m : workM X) (Q : X → Worker → Prop) : Prop := ∀ w r w',
  store_wf (wk_store w) → P w → m w = (r, w') → advances w w' ∧ ∀ x, r = Ok x → Q x w'.
Definition calm {X} (m : workM X) : Prop := ∀ w r w', store_wf (wk_store w) → m w = (r, w') → calmly w w'.
(** What a calm computation does not undo. *)
Definition stable (P : Worker → Prop) : Prop := ∀ w w', store_wf (wk_store w) → calmly w w' → P w → P w'.

Lemma does_bind {X Y} P (m : workM X) Q (f : X → workM Y) R :
  does P m Q → (∀ x, does (Q x) (f x) R) → does P (m ≫= f) R.
Proof.
  intros Hm Hf w r w' Hwf HP. unfold mbind, stateM_bind. destruct (m w) as [[x|e] w1] eqn:Hrun.
  - destruct (Hm _ _ _ Hwf HP Hrun) as [Ha HQ]. specialize (HQ x eq_refl). intros Hrest.
    destruct (Hf x _ _ _ (wf_advances _ _ Hwf Ha) HQ Hrest) as [Ha' HR]. split; [by etrans|done].
  - intros [= <- <-]. destruct (Hm _ _ _ Hwf HP Hrun) as [Ha _]. by split.
Qed.
Lemma does_ret {X} P (x : X) : does P (mret x) (λ y w, P w ∧ y = x).
Proof. intros w r w' _ HP [= <- <-]. split; [done|]. by intros y [= <-]. Qed.
Lemma does_post {X} P (m : workM X) Q Q' : does P m Q → (∀ x w, Q x w → Q' x w) → does P m Q'.
Proof. intros Hm HQ w r w' Hwf HP Hrun. destruct (Hm _ _ _ Hwf HP Hrun) as [? Hq]. split; [done|]. intros x Hx. by apply HQ, Hq. Qed.
Lemma does_pre {X} P P' (m : workM X) Q : does P m Q → (∀ w, store_wf (wk_store w) → P' w → P w) → does P' m Q.
Proof. intros Hm HP w r w' Hwf HP' Hrun. eapply Hm; [done|by apply HP|done]. Qed.
Lemma does_calm {X} P (m : workM X) : stable P → calm m → does P m (λ _, P).
Proof.
  intros HP Hm w r w' Hwf Hw Hrun. pose proof (Hm _ _ _ Hwf Hrun) as Hc.
  split; [by apply calmly_advances|]. intros x _. by apply (HP w).
Qed.
Lemma does_then {X Y} P (m : workM X) (f : X → workM Y) R :
  stable P → calm m → (∀ x, does P (f x) R) → does P (m ≫= f) R.
Proof. intros HP Hm Hf. eapply does_bind; [by apply does_calm|done]. Qed.
Lemma does_err {X} P f (Q : X → Worker → Prop) : does P (lift (Err f)) Q.
Proof. intros w r w' _ _ [= <- <-]. split; [done|]. by intros x [=]. Qed.
Lemma does_frame {X} P R (m : workM X) Q :
  does P m Q → calm m → stable R → does (λ w, P w ∧ R w) m (λ x w, Q x w ∧ R w).
Proof.
  intros Hm Hc HR w r w' Hwf [HP Hr] Hrun. destruct (Hm _ _ _ Hwf HP Hrun) as [Ha HQ]. split; [done|].
  intros x Hx. split; [by apply HQ|]. apply (HR w); [done|by eapply Hc|done].
Qed.

Lemma calm_bind {X Y} (m : workM X) (f : X → workM Y) : calm m → (∀ x, calm (f x)) → calm (m ≫= f).
Proof.
  intros Hm Hf w r w' Hwf. unfold mbind, stateM_bind. destruct (m w) as [[x|e] w1] eqn:Hrun.
  - intros Hrest. pose proof (Hm _ _ _ Hwf Hrun) as Hc. etrans; [exact Hc|].
    eapply Hf; [|done]. by apply (store_steps_keep _ _ Hwf), calm_steps, Hc.
  - intros [= <- <-]. by eapply Hm.
Qed.
(** A computation that leaves the store alone. *)
Lemma calm_pure {X} (m : workM X) :
  (∀ w, wk_store (m w).2 = wk_store w ∧ wk_planned (m w).2 = wk_planned w ∧ wk_served (m w).2 = wk_served w) → calm m.
Proof.
  intros Hm w r w' _ Hrun. specialize (Hm w). rewrite Hrun in Hm. cbn in Hm. destruct Hm as (Hs & ? & ?).
  split; [by rewrite Hs|done..].
Qed.
Lemma calm_ret {X} (x : X) : calm (mret x). Proof. by apply calm_pure. Qed.
Lemma calm_lift {X} (r : result WorkerFault X) : calm (lift r). Proof. by apply calm_pure. Qed.
Lemma calm_self : calm self. Proof. by apply calm_pure. Qed.
Lemma calm_look : calm look. Proof. by apply calm_pure. Qed.
Lemma calm_clock : calm clock. Proof. by apply calm_pure. Qed.
Lemma calm_draw : calm draw. Proof. by apply calm_pure. Qed.
Lemma calm_is_cancelled : calm is_cancelled. Proof. by apply calm_pure. Qed.
Lemma calm_set_cursor c : calm (modify (set_cursor c)). Proof. by apply calm_pure. Qed.
Lemma calm_set_ordinal n : calm (modify (set_next_ordinal n)). Proof. by apply calm_pure. Qed.

Lemma no_new_still t t' : same_rows t t' → no_new t t'.
Proof.
  intros [Hs Hc]. split; intros id ? Hid _.
  - by rewrite <- elem_of_dom, <- Hs, elem_of_dom, Hid.
  - by rewrite <- elem_of_dom, <- Hc, elem_of_dom, Hid.
Qed.
Lemma calm_op_step {X} (m : storeM X) s r s' : calm_op m → m s = (r, s') → calm_step s s'.
Proof. intros [Hop Hst] Hrun. split; [by exists X, m, r|]. by eapply no_new_still, Hst. Qed.
(** A sequence of such operations. *)
Definition calm_ops {X} (m : storeM X) : Prop := ∀ s r s', m s = (r, s') → rtc calm_step s s'.
Lemma calm_op_ops {X} (m : storeM X) : calm_op m → calm_ops m.
Proof. intros Hm s r s' Hrun. by eapply rtc_once, calm_op_step. Qed.

Lemma calm_answered {X} (m : storeM X) : calm_ops m → calm (answered m).
Proof.
  intros Hm w r w' _. unfold answered. destruct (m (others (wk_looks w) (wk_store w))) as [x s] eqn:Hrun.
  intros [= <- <-]. split; [|done..]. cbn. etrans; [apply others_calm|by eapply Hm].
Qed.
Lemma calm_access {X} (m : storeM X) : calm_ops m → calm (access m).
Proof. intros Hm. apply calm_bind; [by apply calm_answered|]. intros r. apply calm_lift. Qed.
Lemma calm_attempted {X} (m : storeM X) : calm_ops m → calm (attempted m).
Proof. intros Hm. apply calm_bind; [by apply calm_answered|]. intros r. apply calm_ret. Qed.
Lemma calm_ignored {X} (m : storeM X) : calm_ops m → calm (ignored m).
Proof. intros Hm. apply calm_bind; [by apply calm_answered|]. intros r. apply calm_ret. Qed.

(** What an access finds or leaves is so when it is answered. *)
Lemma does_access {X} P (m : storeM X) (F : X → RunStore → Prop) :
  stable P → calm_ops m → (∀ s x s', store_wf s → m s = (Ok x, s') → F x s') →
  does P (access m) (λ x w, P w ∧ F x (wk_store w)).
Proof.
  intros HP Hm HF w r w' Hwf Hw Hrun. pose proof (calm_access m Hm w r w' Hwf Hrun) as Hc.
  split; [by apply calmly_advances|]. intros x ->. split; [by apply (HP w)|].
  apply bindM_Ok in Hrun as (r & w1 & Ha & [Hx ->]%lift_Ok). unfold answered in Ha.
  destruct (m (others (wk_looks w) (wk_store w))) as [y s] eqn:Hms. injection Ha as <- <-.
  destruct y as [y|e]; [|done]. injection Hx as ->. cbn. eapply HF; [|exact Hms].
  apply (store_steps_keep (wk_store w)); [done|]. apply calm_steps, others_calm.
Qed.
End triples.
