(* ===== verification/WorkerSafety.v ===== *)
(** * What the worker of a run promises

    Over whatever other threads and processes do to the store between its accesses, and
    whatever fails: a run that was driven has ended, or the write of its failure was refused;
    a call is handed to the scheduler only with a recorded verdict that allows it or a
    recorded approval of it; and a run driven to its end without a fault leaves no step and
    no call open. *)

From Stdlib Require Import ZArith ZifyN ZifyBool.
From stdpp Require Import base decidable countable list gmap sets relations pretty strings.
From S2P Require Import Registry Prelude Digest Tool External Trust Policy Approval Matcher Gate Lifecycle Domain Records Wire Schedule RunStore StoreClaims StoreLaws ClaimLaws Interrupt StoreSafety ToolError Supervise Executor ExecutorSafety RecoverySafety Subscription Worker WorkerLaws.

Section promises.
Context `{PlatformLaws, !StoreParams, Faults, !Fresh, !FreshLaws, !Now, DebugFormat}.
Context {T ArtifactRef A : Type} (descriptor : T → ToolDescriptor).
Context `{!Agent ArtifactRef A, !WorkerTexts ArtifactRef, !Surroundings T ArtifactRef}.
Context (run : RunId) (task : Task) (workspace : WorkspaceRef) (workspace_key : WorkspaceKey)
  (workspace_metadata : option WorkspaceMetadata) (policy : PolicyEngine) (cancellation : CancellationToken)
  (registry : ToolRegistry (Tool:=T)).
Context `{!SurroundingsLaws run}.
(** The steps and calls that were there before the worker: it may be given a run with any. *)
Context (old_steps : list StepId) (old_calls : list ToolCallId).
Abbreviation Worker := (Worker (A:=A)).
Abbreviation workM X := (stateM Worker WorkerFault X).
Abbreviation storeM A := (stateM RunStore StoreError A).
Abbreviation calm_here := (calm (A:=A) run).

(** ** What is open *)

Definition over_steps (l : list StepId) (s : RunStore) : Prop := ∀ id st,
  tb_steps (rs_tables s) !! id = Some st → step_run_id st = run → is_terminal (step_state st) = true ∨ id ∈ l.
Definition over_calls (l : list ToolCallId) (s : RunStore) : Prop := ∀ id c,
  tb_calls (rs_tables s) !! id = Some c → call_run_id c = run → is_terminal (call_state c) = true ∨ id ∈ l.
Definition ended (s : RunStore) : Prop :=
  ∃ r, tb_runs (rs_tables s) !! run = Some r ∧ is_terminal (run_state r) = true.
Definition step_over (id : StepId) (s : RunStore) : Prop :=
  ∃ st, tb_steps (rs_tables s) !! id = Some st ∧ is_terminal (step_state st) = true.
Definition call_over (id : ToolCallId) (s : RunStore) : Prop :=
  ∃ c, tb_calls (rs_tables s) !! id = Some c ∧ is_terminal (call_state c) = true.
Definition own_step (id : StepId) (s : RunStore) : Prop :=
  ∃ st, tb_steps (rs_tables s) !! id = Some st ∧ step_run_id st = run.

Lemma step_terminal_stays st st' : is_terminal (step_state st) = true → rtc step_step st st' → is_terminal (step_state st') = true.
Proof.
  intros Ht Hs. induction Hs as [|st st1 st2 Hs _ IH]; [done|].
  destruct (step_step_refines _ _ Hs) as [He _]. apply exec_edge_live in He.
  exfalso. exact (diff_true_false (eq_trans (eq_sym Ht) He)).
Qed.
Lemma call_terminal_stays c c' : is_terminal (call_state c) = true → rtc call_step c c' → is_terminal (call_state c') = true.
Proof.
  intros Ht Hs. induction Hs as [|c c1 c2 Hs _ IH]; [done|].
  destruct (call_step_moves _ _ Hs) as [(_ & Hp & _)|[to Hm]]; [by rewrite Hp in Ht|].
  apply moved_live in Hm. exfalso. exact (diff_true_false (eq_trans (eq_sym Ht) Hm)).
Qed.

(** A predicate of the store that the others, and the worker's calm operations, keep. *)
Definition lasting (P : RunStore → Prop) : Prop := ∀ s s', store_wf s → rtc (calm_step run) s s' → P s → P s'.
Definition persistent (P : RunStore → Prop) : Prop := ∀ s s', extends (rs_tables s) (rs_tables s') → P s → P s'.

Lemma persistent_lasts P : persistent P → lasting P.
Proof. intros HP s s' Hwf Hs. apply HP. by apply (store_steps_keep _ _ Hwf), (calm_steps run). Qed.
Lemma ended_persistent : persistent ended.
Proof.
  intros s s' Hex (r & Hr & Ht). destruct (ex_runs _ _ Hex _ _ Hr) as (r' & Hr' & Hs). exists r'. split; [done|].
  by rewrite (run_finished_stays _ _ Ht Hs).
Qed.
Lemma step_over_persistent id : persistent (step_over id).
Proof.
  intros s s' Hex (r & Hr & Ht). destruct (ex_steps _ _ Hex _ _ Hr) as (r' & Hr' & Hs). exists r'. split; [done|].
  by eapply step_terminal_stays.
Qed.
Lemma call_over_persistent id : persistent (call_over id).
Proof.
  intros s s' Hex (r & Hr & Ht). destruct (ex_calls _ _ Hex _ _ Hr) as (r' & Hr' & Hs). exists r'. split; [done|].
  by eapply call_terminal_stays.
Qed.
Lemma own_step_persistent id : persistent (own_step id).
Proof.
  intros s s' Hex (r & Hr & Ht). destruct (ex_steps _ _ Hex _ _ Hr) as (r' & Hr' & Hs). exists r'. split; [done|].
  by rewrite (step_steps_run _ _ Hs).
Qed.

Lemma no_new_steps s s' : store_wf s → rtc (calm_step run) s s' → no_new run (rs_tables s) (rs_tables s').
Proof.
  intros Hwf Hs. induction Hs as [s|s s1 s2 [Hst Hn] Hr IH]; [by split; eauto|].
  destruct (store_step_keeps _ _ Hwf Hst) as [Hwf1 Hex]. destruct (IH Hwf1) as [HI1 HI2]. destruct Hn as [Hn1 Hn2].
  destruct (store_steps_keep _ _ Hwf1 (calm_steps run _ _ Hr)) as [_ Hex'].
  split.
  - intros id st Hst2 Hrun. destruct (HI1 id st Hst2 Hrun) as [st1 Hst1]. apply (Hn1 id st1 Hst1).
    destruct (ex_steps _ _ Hex' _ _ Hst1) as (st' & Hst' & Hmv). rewrite Hst2 in Hst'. injection Hst' as <-.
    by rewrite <- (step_steps_run _ _ Hmv).
  - intros id c Hc2 Hrun. destruct (HI2 id c Hc2 Hrun) as [c1 Hc1]. apply (Hn2 id c1 Hc1).
    destruct (ex_calls _ _ Hex' _ _ Hc1) as (c' & Hc' & Hmv). rewrite Hc2 in Hc'. injection Hc' as <-.
    apply call_steps_request in Hmv as (_ & Hr' & _). congruence.
Qed.
Lemma over_steps_lasts l : lasting (over_steps l).
Proof.
  intros s s' Hwf Hs Hl id st Hst Hrun. destruct (no_new_steps _ _ Hwf Hs) as [Hn _].
  destruct (Hn id st Hst Hrun) as [st0 Hst0].
  destruct (store_steps_keep _ _ Hwf (calm_steps run _ _ Hs)) as [_ Hex].
  destruct (ex_steps _ _ Hex _ _ Hst0) as (st' & Hst' & Hmv). rewrite Hst in Hst'. injection Hst' as <-.
  destruct (Hl id st0 Hst0) as [Ht|?]; [by rewrite <- (step_steps_run _ _ Hmv)| |by right].
  left. by eapply step_terminal_stays.
Qed.
Lemma over_calls_lasts l : lasting (over_calls l).
Proof.
  intros s s' Hwf Hs Hl id c Hc Hrun. destruct (no_new_steps _ _ Hwf Hs) as [_ Hn].
  destruct (Hn id c Hc Hrun) as [c0 Hc0].
  destruct (store_steps_keep _ _ Hwf (calm_steps run _ _ Hs)) as [_ Hex].
  destruct (ex_calls _ _ Hex _ _ Hc0) as (c' & Hc' & Hmv). rewrite Hc in Hc'. injection Hc' as <-.
  destruct (Hl id c0 Hc0) as [Ht|?]; [|by left; eapply call_terminal_stays|by right].
  apply call_steps_request in Hmv as (_ & Hr' & _). congruence.
Qed.

(** Between two actions of a run, [steps] and [calls] are what it is in the middle of. *)
Record Open (steps : list StepId) (calls : list ToolCallId) (w : Worker) : Prop := {
  op_steps : over_steps (steps ++ wk_planned w ++ old_steps) (wk_store w);
  op_calls : over_calls (calls ++ old_calls) (wk_store w);
  op_own : ∀ id, id ∈ wk_planned w → own_step id (wk_store w);
}.
Record Finished (w : Worker) : Prop := {
  fi_run : ended (wk_store w);
  fi_steps : over_steps old_steps (wk_store w);
  fi_calls : over_calls old_calls (wk_store w);
}.
Definition next_ok {X} (next : option X) (w : Worker) : Prop :=
  match next with Some _ => Open [] [] w | None => Finished w end.

Lemma stable_store P : lasting P → stable (A:=A) run (λ w, P (wk_store w)).
Proof. intros HP w w' Hwf [Hs _ _]. by apply HP. Qed.
Lemma stable_and (P Q : Worker → Prop) : stable run P → stable run Q → stable run (λ w, P w ∧ Q w).
Proof. intros HP HQ w w' Hwf Hc [? ?]. split; [by apply (HP w)|by apply (HQ w)]. Qed.
Lemma stable_planned P : stable (A:=A) run (λ w, P (wk_planned w)).
Proof. intros w w' _ [_ Hp _]. by rewrite Hp. Qed.
Lemma stable_open steps calls : stable run (Open steps calls).
Proof.
  intros w w' Hwf [Hs Hp _] [Hst Hc Ho]. split; rewrite ?Hp.
  - by apply (over_steps_lasts _ (wk_store w)).
  - by apply (over_calls_lasts _ (wk_store w)).
  - intros id Hid. apply (persistent_lasts _ (own_step_persistent id) (wk_store w)); [done|done|by apply Ho].
Qed.
Lemma stable_finished : stable run Finished.
Proof.
  intros w w' Hwf [Hs _ _] [Hr Hst Hc]. split.
  - by apply (persistent_lasts _ ended_persistent (wk_store w)).
  - by apply (over_steps_lasts _ (wk_store w)).
  - by apply (over_calls_lasts _ (wk_store w)).
Qed.
Lemma close_step step steps calls w : Open (step :: steps) calls w → step_over step (wk_store w) → Open steps calls w.
Proof.
  intros [Hs Hc Ho] (st & Hst & Ht). split; [|done..]. intros id x Hx Hrun.
  destruct (Hs id x Hx Hrun) as [?|[->|?]%elem_of_cons]; [by left| |by right]. left. congruence.
Qed.
Lemma close_call call steps calls w : Open steps (call :: calls) w → call_over call (wk_store w) → Open steps calls w.
Proof.
  intros [Hs Hc Ho] (c & Hca & Ht). split; [done| |done]. intros id x Hx Hrun.
  destruct (Hc id x Hx Hrun) as [?|[->|?]%elem_of_cons]; [by left| |by right]. left. congruence.
Qed.

(** ** Calm computations *)

Create HintDb calm.
#[local] Hint Resolve calm_ret calm_lift calm_self calm_look calm_clock calm_draw calm_is_cancelled calm_set_cursor
  calm_set_ordinal calm_access calm_attempted calm_ignored calm_op_ops : calm.
#[local] Hint Resolve still_reader still_change_run still_change_step still_change_call still_append_event
  still_open_approval still_resolve_approval still_set_run_owner : calm.
#[local] Hint Constructors operation : calm.
#[local] Ltac calm_walk :=
  repeat first
    [ progress intros
    | solve [eauto with calm]
    | match goal with |- calm _ (match ?x with _ => _ end) => destruct x end
    | apply calm_bind ].

Lemma calm_intro {X} (m : storeM X) : operation m → rows_still m → calm_ops run m.
Proof. intros. by apply calm_op_ops. Qed.
#[local] Hint Resolve calm_intro : calm.

Lemma calm_publish_pages fuel cursor : calm_ops run (publish_pages run fuel cursor).
Proof.
  revert cursor. induction fuel as [|fuel IH]; intros cursor s r s'; cbn; [by intros [= <- <-]|].
  destruct (events run cursor DEFAULT_EVENT_PAGE_LIMIT s) as [x s1] eqn:Hev.
  assert (rtc (calm_step run) s s1) as Hs1.
  { apply (calm_op_ops run (events run cursor DEFAULT_EVENT_PAGE_LIMIT)) in Hev; [done|]. split; [constructor|apply still_reader]. }
  destruct x as [page|e]; [|by intros [= <- <-]]. destruct (last page) as [event|]; [|by intros [= <- <-]].
  intros Hrest. etrans; [exact Hs1|by eapply IH].
Qed.
Lemma calm_publish : calm_here (publish run).
Proof.
  unfold publish. apply calm_bind; [apply calm_self|]. intros w. apply calm_bind; [|intros cursor; apply calm_set_cursor].
  apply calm_access; [exact _|]. intros s r s'. apply calm_publish_pages.
Qed.
#[local] Hint Resolve calm_publish : calm.
Lemma calm_transition_run_to state payload at_ : calm_here (transition_run_to run state payload at_).
Proof. unfold transition_run_to. calm_walk. Qed.
Lemma calm_finish_step step state : calm_here (finish_step run step state).
Proof. unfold finish_step. calm_walk. Qed.
Lemma calm_finish_step_failed step failure : calm_here (finish_step_failed run step failure).
Proof. unfold finish_step_failed. calm_walk. Qed.
#[local] Hint Resolve calm_transition_run_to calm_finish_step calm_finish_step_failed : calm.
Lemma calm_cancel_step step : calm_here (cancel_step run step).
Proof. unfold cancel_step. calm_walk. Qed.
#[local] Hint Resolve calm_cancel_step : calm.
Lemma calm_cancel_steps steps : calm_here (cancel_steps run steps).
Proof. induction steps; cbn; calm_walk. Qed.
#[local] Hint Resolve calm_cancel_steps : calm.
Lemma calm_terminalize : calm_here (terminalize_planned_steps run).
Proof. unfold terminalize_planned_steps. calm_walk. Qed.
#[local] Hint Resolve calm_terminalize : calm.
Lemma calm_finish_cancelled step : calm_here (finish_cancelled run step).
Proof. unfold finish_cancelled. calm_walk. Qed.
#[local] Hint Resolve calm_finish_cancelled : calm.
Lemma calm_cancel_call step call : calm_here (cancel_call run step call).
Proof. unfold cancel_call. calm_walk. Qed.
Lemma calm_record_turn kind payload : calm_here (record_turn run kind payload).
Proof. unfold record_turn. calm_walk. Qed.
#[local] Hint Resolve calm_cancel_call calm_record_turn : calm.
Lemma calm_record_observation o : calm_here (record_observation run o).
Proof. unfold record_observation. calm_walk. Qed.
Lemma calm_record_action a : calm_here (record_action run a).
Proof. unfold record_action. calm_walk. Qed.
Lemma calm_record_checkpoint : calm_here (record_checkpoint run).
Proof. unfold record_checkpoint. calm_walk. Qed.
Lemma calm_ask_agent o : calm_here (ask_agent o).
Proof. apply calm_pure. intros w. unfold ask_agent. by destruct (next_action o (wk_agent w)). Qed.
Lemma calm_record_decision step call d risk : calm_here (record_decision run step call d risk).
Proof. unfold record_decision. calm_walk. Qed.
Lemma calm_waits n between : calm_here between → calm_here (waits run n between).
Proof. intros Hb. induction n; cbn; calm_walk. Qed.
Lemma calm_withdraw id : calm_here (withdraw_if_cancelled id).
Proof. unfold withdraw_if_cancelled. calm_walk. Qed.
Lemma calm_scheduled_call call risk approval :
  calm_here (scheduled_call workspace_key workspace_metadata cancellation call risk approval).
Proof. unfold scheduled_call. calm_walk. Qed.
#[local] Hint Resolve calm_record_observation calm_record_action calm_record_checkpoint calm_ask_agent
  calm_record_decision calm_waits calm_withdraw calm_scheduled_call : calm.
Lemma calm_each {X} (do : X → workM unit) l : (∀ x, calm_here (do x)) → calm_here (each do l).
Proof. intros Hdo. induction l; cbn; calm_walk. Qed.
Lemma calm_fault_approval at_ request : calm_here (fault_approval at_ request).
Proof. unfold fault_approval. calm_walk. Qed.
Lemma calm_fault_call f at_ call : calm_here (fault_call f at_ call).
Proof. unfold fault_call. calm_walk. Qed.
Lemma calm_fault_step f at_ step : calm_here (fault_step f at_ step).
Proof. unfold fault_step. calm_walk. Qed.
Lemma calm_fail_this_run f at_ : calm_here (fail_this_run run f at_).
Proof. unfold fail_this_run. calm_walk. Qed.
Lemma calm_listed {X} (m : storeM (list X)) : calm_ops run m → calm_here (listed_or_none m).
Proof. intros Hm. unfold listed_or_none. calm_walk. Qed.
#[local] Hint Resolve calm_each calm_fault_approval calm_fault_call calm_fault_step calm_fail_this_run calm_listed : calm.

(** ** What lets a call be handed over *)

(** The call is recorded as asked for, with the verdict [d]. *)
Definition recorded (call : ToolCallId) (tool_id : ToolId) (hash : InputHash) (d : PolicyDecision) (s : RunStore) : Prop :=
  ∃ c, tb_calls (rs_tables s) !! call = Some c ∧ call_run_id c = run ∧ call_tool_id c = ToolId_as_str tool_id ∧
    input_hash (call_input c) = Ok hash ∧ call_policy_decision c = Some d.
(** [d] is policy's verdict on the call, over grants a person gave. *)
Definition evaluated (call : ToolCallId) (tool : T) (hash : InputHash) (d : PolicyDecision) (s : RunStore) : Prop :=
  ∃ prepared trust grants,
    (∀ g, g ∈ grants → ∃ a, tb_approvals (rs_tables s) !! ar_id a = Some a ∧ grant_of a = Some g) ∧
    d = evaluate policy (request_of descriptor tool prepared trust grants
                           (candidate_of descriptor run workspace_key call tool hash)).
(** A person granted a request that covers the call, and this is who. *)
Definition granted (call : ToolCallId) (decided_by : string) (identity : ToolIdentity) (hash : InputHash) (s : RunStore) : Prop :=
  ∃ a g tool, tb_approvals (rs_tables s) !! ar_id a = Some a ∧ grant_of a = Some g ∧ decided_by = decided_by_of a ∧
    Registry.get (ti_id identity) (Some (ti_version identity)) registry = Some tool ∧
    grant_applies g (MkCandidateCall run call (binding_of workspace_key) identity (td_capabilities (descriptor tool))
      IntegrationIdentity_none hash) = true.

Definition authorized (v : Served) : Prop :=
  let '(MkServed sd s) := v in
  ∃ tool_id tool_version tool hash d,
    Registry.get tool_id (Some tool_version) registry = Some tool ∧
    recorded (sd_call sd) tool_id hash d s ∧ evaluated (sd_call sd) tool hash d s ∧
    match sd_admission sd with
    | AdmitPending => pd_verdict d = Allow
    | AdmitBoundApproved decided_by identity approved_hash =>
      pd_verdict d = Ask ∧ identity = td_identity (descriptor tool) ∧ approved_hash = hash ∧
      granted (sd_call sd) decided_by identity hash s
    | AdmitApproved _ => False
    end.

Lemma answered_request_stays a a' : ar_state a ≠ ApPending → rtc approval_step a a' → a' = a.
Proof.
  intros Ha Hs. induction Hs as [|a a1 a2 Hs _ IH]; [done|]. destruct (resolved_approval_is_final a Ha) as [Hd Hr].
  inversion Hs as [d ? ? _ Hm|to at_ ? ? Hm]; subst; [by rewrite Hd in Hm|by rewrite Hr in Hm].
Qed.
Lemma grant_stays s s' a g :
  extends (rs_tables s) (rs_tables s') → tb_approvals (rs_tables s) !! ar_id a = Some a → grant_of a = Some g →
  tb_approvals (rs_tables s') !! ar_id a = Some a.
Proof.
  intros Hex Ha Hg. destruct (ex_approvals _ _ Hex _ _ Ha) as (a' & Ha' & Hs).
  rewrite (answered_request_stays a a') in Ha'; [done| |done]. unfold grant_of in Hg. by case_decide as Hst; [rewrite Hst|].
Qed.
Lemma verdict_stays c c' d : rtc call_step c c' → call_policy_decision c = Some d → call_policy_decision c' = Some d.
Proof. induction 1 as [|c c1 c2 Hs _ IH]; [done|]. intros Hd. by apply IH, (call_step_keeps_decision c). Qed.
Lemma recorded_persistent call tool_id hash d : persistent (recorded call tool_id hash d).
Proof.
  intros s s' Hex (c & Hc & Hrun & Htool & Hh & Hd). destruct (ex_calls _ _ Hex _ _ Hc) as (c' & Hc' & Hs).
  exists c'. pose proof (call_steps_request _ _ Hs) as (_ & -> & _ & -> & ->). split_and!; [done..|].
  by eapply verdict_stays.
Qed.
Lemma evaluated_persistent call tool hash d : persistent (evaluated call tool hash d).
Proof.
  intros s s' Hex (prepared & trust & grants & Hg & Hd). exists prepared, trust, grants. split; [|done].
  intros g Hin. destruct (Hg g Hin) as (a & Ha & Hga). exists a. split; [by eapply grant_stays|done].
Qed.
Lemma granted_persistent call who identity hash : persistent (granted call who identity hash).
Proof.
  intros s s' Hex (a & g & tool & Ha & Hg & ?). exists a, g, tool. split; [by eapply grant_stays|done].
Qed.
Lemma authorized_persistent sd : persistent (λ s, authorized (MkServed sd s)).
Proof.
  intros s s' Hex (tool_id & tool_version & tool & hash & d & Hget & Hr & He & Had).
  exists tool_id, tool_version, tool, hash, d. split_and!; [done|by eapply recorded_persistent|by eapply evaluated_persistent|].
  destruct (sd_admission sd); [done..|]. destruct Had as (? & ? & ? & ?). split_and!; [done..|]. by eapply granted_persistent.
Qed.

Abbreviation does_here := (does (A:=A) authorized).

Abbreviation stable_here := (stable (A:=A) run).

(** ** Ending steps, calls and the run *)

Lemma step_ends step state at_ e s x s' :
  is_terminal state = true → store_wf s → transition_step_with_event step state at_ e s = (Ok x, s') → step_over step s'.
Proof.
  intros Ht Hwf Hrun. destruct x as [st n]. apply changed_step in Hrun as (st0 & _ & Hm & Hst); [|done|intros; by econstructor].
  exists st. split; [done|]. by rewrite (step_transition_state _ _ _ _ Hm).
Qed.
Lemma step_fails step f at_ e s x s' :
  store_wf s → fail_step_with_event step f at_ e s = (Ok x, s') → step_over step s'.
Proof.
  intros Hwf Hrun. destruct x as [st n]. apply changed_step in Hrun as (st0 & _ & Hm & Hst); [|done|intros; by econstructor].
  exists st. split; [done|]. by rewrite (step_fail_state _ _ _ _ Hm).
Qed.
Lemma call_ends call state at_ e s x s' :
  is_terminal state = true → store_wf s → transition_tool_call_with_event call state at_ e s = (Ok x, s') → call_over call s'.
Proof.
  intros Ht Hwf Hrun. destruct x as [c n].
  apply changed_call in Hrun as (c0 & _ & Hm & Hc); [|done|intros ? ?; apply transition_still].
  exists c. split; [done|]. by rewrite (call_transition_state _ _ _ _ Hm).
Qed.
Lemma call_fails call f at_ e s x s' :
  store_wf s → fail_tool_call_with_event call f at_ e s = (Ok x, s') → call_over call s'.
Proof.
  intros Hwf Hrun. destruct x as [c n].
  apply changed_call in Hrun as (c0 & _ & Hm & Hc); [|done|intros ? ?; apply fail_still].
  exists c. split; [done|]. by rewrite (call_fail_state _ _ _ _ Hm).
Qed.
Lemma call_rejected call who f at_ e s x s' :
  store_wf s → reject_tool_call_approval_with_event call who f at_ e s = (Ok x, s') → call_over call s'.
Proof.
  intros Hwf Hrun. destruct x as [c n].
  apply changed_call in Hrun as (c0 & _ & Hm & Hc); [|done|intros ? ?; apply reject_still].
  exists c. split; [done|]. by rewrite (call_reject_state _ _ _ _ _ Hm).
Qed.
Lemma run_ends state at_ e s x s' :
  is_terminal state = true → store_wf s → transition_run_with_event run state at_ e s = (Ok x, s') → ended s'.
Proof.
  intros Ht Hwf Hrun. destruct x as [r n]. apply changed_run in Hrun as (r0 & _ & Hm & Hr); [|done|intros; by econstructor].
  exists r. split; [done|]. by rewrite (run_transition_state _ _ _ _ Hm).
Qed.
Lemma run_fails f at_ e s x s' :
  store_wf s → fail_run_with_event run f at_ e s = (Ok x, s') → ended s'.
Proof.
  intros Hwf Hrun. destruct x as [r n]. apply changed_run in Hrun as (r0 & _ & Hm & Hr); [|done|intros; by econstructor].
  exists r. split; [done|]. by rewrite (run_fail_state _ _ _ _ Hm).
Qed.

Lemma stable_const (P : Prop) : stable_here (λ _, P).
Proof. by intros w w' _ _. Qed.
Lemma stable_with P (F : RunStore → Prop) : stable_here P → persistent F → stable_here (λ w, P w ∧ F (wk_store w)).
Proof. intros HP HF. apply stable_and; [done|]. by apply stable_store, persistent_lasts. Qed.
#[local] Hint Resolve stable_with stable_and stable_open stable_finished ended_persistent step_over_persistent
  call_over_persistent own_step_persistent recorded_persistent evaluated_persistent granted_persistent
  authorized_persistent : stable.

(** A calm access, then the publishing of what it wrote. *)
Lemma does_write P {X} (m : storeM X) (F : RunStore → Prop) :
  stable_here P → persistent F → operation m → rows_still m → (∀ s x s', store_wf s → m s = (Ok x, s') → F s') →
  does_here P (access m) (λ _ w, P w ∧ F (wk_store w)).
Proof.
  intros HP Hper Hop Hst HF. apply (does_access run authorized P m (λ _, F)); [done|by apply calm_op_ops|].
  intros s x s'. apply HF.
Qed.
Lemma does_publish P : stable_here P → does_here P (publish run) (λ _, P).
Proof. intros HP. by apply (does_calm run), calm_publish. Qed.
Lemma does_write_publish P {X} (m : storeM X) (F : RunStore → Prop) :
  stable_here P → persistent F → operation m → rows_still m → (∀ s x s', store_wf s → m s = (Ok x, s') → F s') →
  does_here P (_ ← access m; publish run) (λ _ w, P w ∧ F (wk_store w)).
Proof.
  intros HP HF ???. eapply does_bind; [by apply (does_write P m F)|]. intros ?. apply does_publish. eauto with stable.
Qed.
Lemma does_clock P {X} (f : OffsetDateTime → workM X) Q :
  stable_here P → (∀ at_, does_here P (f at_) Q) → does_here P (at_ ← clock; f at_) Q.
Proof. intros HP Hf. eapply (does_then run); [done|apply calm_clock|done]. Qed.

Lemma does_finish_step P step state :
  stable_here P → is_terminal state = true →
  does_here P (finish_step run step state) (λ _ w, P w ∧ step_over step (wk_store w)).
Proof.
  intros HP Ht. apply does_clock; [done|]. intros at_.
  apply does_write_publish; [done|apply step_over_persistent|constructor|apply still_change_step|].
  intros s x s'. by apply step_ends.
Qed.
Lemma does_finish_step_failed P step failure :
  stable_here P → does_here P (finish_step_failed run step failure) (λ _ w, P w ∧ step_over step (wk_store w)).
Proof.
  intros HP. apply does_clock; [done|]. intros at_.
  apply does_write_publish; [done|apply step_over_persistent|constructor|apply still_change_step|].
  intros s x s'. apply step_fails.
Qed.
Lemma does_transition_run P state payload at_ :
  stable_here P → is_terminal state = true →
  does_here P (transition_run_to run state payload at_) (λ _ w, P w ∧ ended (wk_store w)).
Proof.
  intros HP Ht. apply does_write_publish; [done|apply ended_persistent|constructor|apply still_change_run|].
  intros s x s'. by apply run_ends.
Qed.
Lemma does_load_step P step :
  stable_here P → does_here P (access (load (R:=Step) step))
    (λ st w, P w ∧ tb_steps (rs_tables (wk_store w)) !! step = Some st).
Proof.
  intros HP. apply (does_access run authorized P _ (λ st s, tb_steps (rs_tables s) !! step = Some st));
    [done|apply calm_op_ops; split; [constructor|apply still_reader]|].
  intros s st s' _ [-> Hr]%with_reader_spec. specialize (Hr st eq_refl).
  destruct (load_row step (rs_tables s)) as [x t] eqn:Hl. cbn in Hr. subst x.
  by apply (load_row_Ok (step:=step_step)) in Hl as (_ & ? & _).
Qed.
Lemma does_load_run P :
  stable_here P → does_here P (access (load (R:=Run) run))
    (λ r w, P w ∧ tb_runs (rs_tables (wk_store w)) !! run = Some r).
Proof.
  intros HP. apply (does_access run authorized P _ (λ r s, tb_runs (rs_tables s) !! run = Some r));
    [done|apply calm_op_ops; split; [constructor|apply still_reader]|].
  intros s st s' _ [-> Hr]%with_reader_spec. specialize (Hr st eq_refl).
  destruct (load_row run (rs_tables s)) as [x t] eqn:Hl. cbn in Hr. subst x.
  by apply (load_row_Ok (step:=run_step)) in Hl as (_ & ? & _).
Qed.

Lemma does_done {X} P (x : X) (Q : X → Worker → Prop) : (∀ w, P w → Q x w) → does_here P (mret x) Q.
Proof. intros HQ. eapply does_post; [apply does_ret|]. intros y w [HP ->]. by apply HQ. Qed.
Lemma does_cancel_step P step :
  stable_here P → does_here P (cancel_step run step) (λ _ w, P w ∧ step_over step (wk_store w)).
Proof.
  intros HP. eapply does_bind; [by apply does_load_step|]. intros st. cbn beta.
  destruct (is_terminal (step_state st)) eqn:Ht.
  - apply does_done. intros w [? ?]. split; [done|]. by exists st.
  - eapply does_pre; [by apply does_finish_step|]. by intros w _ [? _].
Qed.
Lemma does_cancel_steps P steps :
  stable_here P → does_here P (cancel_steps run steps) (λ _ w, P w ∧ ∀ id, id ∈ steps → step_over id (wk_store w)).
Proof.
  revert P. induction steps as [|step steps IH]; intros P HP; cbn [cancel_steps].
  - apply does_done. intros w Hw. split; [done|]. by intros id ?%not_elem_of_nil.
  - eapply does_bind; [by apply does_cancel_step|]. intros ?. eapply does_post; [apply IH; eauto with stable|].
    intros _ w [[? ?] Hall]. split; [done|]. by intros id [->|?]%elem_of_cons; [|apply Hall].
Qed.
Lemma does_terminalize steps calls :
  does_here (Open steps calls) (terminalize_planned_steps run)
    (λ _ w, Open steps calls w ∧ over_steps (steps ++ old_steps) (wk_store w)).
Proof.
  intros w r w' Hwf Hw Hrun. unfold terminalize_planned_steps, mbind, stateM_bind, self, get in Hrun. cbn in Hrun.
  apply (does_cancel_steps (λ v, Open steps calls v ∧ wk_planned v = wk_planned w)) in Hrun as [Ha HQ];
    [|apply stable_and; [apply stable_open|by apply (stable_planned (λ l, l = wk_planned w))]|done|done].
  split; [done|]. intros x Hx. destruct (HQ x Hx) as [[Ho Hp] Hall]. split; [done|]. intros id st Hst Hr.
  destruct (op_steps _ _ _ Ho id st Hst Hr) as [?|[?|[Hin|?]%elem_of_app]%elem_of_app]; [by left|right; set_solver| |right; set_solver].
  rewrite Hp in Hin. destruct (Hall id Hin) as (st' & Hst' & ?). left. congruence.
Qed.
(** With what the run was in the middle of ended, the rest of it is. *)
Lemma does_finish_rest :
  does_here (Open [] []) (
    _ ← terminalize_planned_steps run;
    record ← access (load (R:=Run) run);
    if is_terminal (run_state record) then mret tt
    else at_ ← clock; transition_run_to run ExecCancelled None at_) (λ _, Finished).
Proof.
  eapply does_bind; [apply does_terminalize|]. intros ?. cbn beta.
  assert (stable_here (λ w, Open [] [] w ∧ over_steps old_steps (wk_store w))) as Hst.
  { apply stable_and; [apply stable_open|apply stable_store, over_steps_lasts]. }
  eapply does_bind; [by apply does_load_run|]. intros r. cbn beta. destruct (is_terminal (run_state r)) eqn:Ht.
  - apply does_done. intros w [[[_ Hc _] Hs] Hr]. split; [by exists r|done|done].
  - apply (does_pre _ (λ w, Open [] [] w ∧ over_steps old_steps (wk_store w))); [|by intros w _ [? _]].
    apply does_clock; [done|]. intros at_. eapply does_post; [by apply does_transition_run|].
    by intros _ w [[[_ Hc _] Hs] He].
Qed.
Lemma does_finish_cancelled_none : does_here (Open [] []) (finish_cancelled run None) (λ _, Finished).
Proof.
  unfold finish_cancelled. eapply does_bind; [apply does_ret|]. intros ?. eapply does_pre; [apply does_finish_rest|]. by intros w _ [? _].
Qed.
Lemma does_finish_cancelled step : does_here (Open [step] []) (finish_cancelled run (Some step)) (λ _, Finished).
Proof.
  unfold finish_cancelled. eapply does_bind; [apply does_cancel_step, stable_open|]. intros ?.
  eapply does_pre; [apply does_finish_rest|]. intros w _ [? ?]. by eapply close_step.
Qed.
Lemma does_cancel_call step call : does_here (Open [step] [call]) (cancel_call run step call) (λ _, Finished).
Proof.
  apply does_clock; [apply stable_open|]. intros at_.
  eapply does_bind; [apply (does_write _ _ (call_over call)); [apply stable_open|apply call_over_persistent|apply op_transition_call_with_event|apply still_change_call|]|].
  - intros s x s'. by apply call_ends.
  - intros ?. eapply does_pre; [apply does_finish_cancelled|]. intros w _ [? ?]. by eapply close_call.
Qed.

(** ** Making steps *)

Lemma does_insert P {X} (m : storeM X) (Q : X → Worker → Prop) :
  operation m → stable_here P →
  (∀ w x s', store_wf (wk_store w) → P w → m (wk_store w) = (Ok x, s') → Q x (set_store s' w)) →
  does_here P (access m) Q.
Proof.
  intros Hop HP HQ w r w' Hwf Hw Hrun. unfold access, answered, mbind, stateM_bind in Hrun.
  set (s := others (wk_looks w) (wk_store w)) in Hrun. destruct (m s) as [x s'] eqn:Hm.
  set (v := MkWorker s (wk_looks w) (wk_cursor w) (wk_agent w) (wk_planned w) (wk_next_ordinal w) (wk_served w)).
  assert (calmly run w v) as Hc by (split; [exact (others_calm run (wk_looks w) (wk_store w))|done|done]).
  assert (rtc store_step s s') as Hs by (apply rtc_once; exists X, m, x; done).
  assert (advances authorized w (set_store s' w)) as Ha.
  { split; [etrans; [exact (calm_steps run _ _ (others_calm run (wk_looks w) (wk_store w)))|exact Hs]|]. exists []. by rewrite app_nil_r. }
  assert (store_wf s) as Hwfs by exact (proj1 (store_steps_keep _ _ Hwf (calm_steps run _ _ (others_calm run (wk_looks w) (wk_store w))))).
  destruct x as [x|e]; cbn in Hrun; unfold or_fault, lift in Hrun; cbn in Hrun; injection Hrun as <- <-; (split; [done|]).
  - intros y [= <-]. apply (HQ v); [done|by apply (HP w)|done].
  - by intros y [=].
Qed.
Lemma advances_same (w w' : Worker) : wk_store w' = wk_store w → wk_served w' = wk_served w → advances authorized w w'.
Proof. intros Hs Hsv. split; [by rewrite Hs|]. exists []. by rewrite app_nil_r. Qed.
Lemma does_self P {X} (f : Worker → workM X) Q :
  (∀ v, P v → does_here (λ w, w = v) (f v) Q) → does_here P (w ← self; f w) Q.
Proof. intros Hf w r w' Hwf Hw Hrun. by apply (Hf w Hw w r w'). Qed.

Lemma insert_step_Ok st s u s' :
  insert_step st s = (Ok u, s') → rs_tables s' = set_steps (<[step_id st := st]> (tb_steps (rs_tables s))) (rs_tables s).
Proof.
  intros (_ & _ & Hi)%in_write_transaction_spec. unfold insert_step_row in Hi.
  do 4 (apply bindM_Ok in Hi as (? & ? & [_ ->]%lift_Ok & Hi)). apply bindM_Ok in Hi as (? & ? & [-> ->]%get_Ok & Hi).
  apply bindM_Ok in Hi as (? & ? & [-> _]%insert_unique_Ok & Hi).
  do 2 (apply bindM_Ok in Hi as (? & ? & [_ ->]%lift_Ok & Hi)). by apply modify_Ok in Hi.
Qed.
Lemma insert_call_Ok c s u s' :
  insert_tool_call c s = (Ok u, s') → rs_tables s' = set_calls (<[call_id c := c]> (tb_calls (rs_tables s))) (rs_tables s).
Proof.
  intros (_ & _ & Hi)%in_write_transaction_spec. unfold insert_tool_call_row in Hi.
  do 8 (apply bindM_Ok in Hi as (? & ? & [_ ->]%lift_Ok & Hi)). apply bindM_Ok in Hi as (? & ? & [-> ->]%get_Ok & Hi).
  apply bindM_Ok in Hi as (? & ? & [-> _]%insert_unique_Ok & Hi).
  apply bindM_Ok in Hi as (? & ? & [_ ->]%lift_Ok & Hi). by apply modify_Ok in Hi.
Qed.
Lemma own_step_insert id st s s' :
  rs_tables s' = set_steps (<[step_id st := st]> (tb_steps (rs_tables s))) (rs_tables s) → step_run_id st = run →
  own_step id s → own_step id s'.
Proof.
  intros Ht Hr (x & Hx & Hxr). unfold own_step. rewrite Ht. cbn. destruct (decide (step_id st = id)) as [<-|Hne].
  - exists st. by rewrite lookup_insert_eq.
  - exists x. by rewrite lookup_insert_ne.
Qed.

Lemma does_new_step title at_ :
  does_here (Open [] []) (new_step run title at_)
    (λ st w, Open [step_id st] [] w ∧ own_step (step_id st) (wk_store w) ∧ step_run_id st = run).
Proof.
  unfold new_step. eapply (does_then run); [apply stable_open|apply calm_draw|]. intros id.
  eapply (does_then run); [apply stable_open|apply calm_self|]. intros v.
  eapply (does_then run); [apply stable_open|destruct (_ =? _)%N; [apply calm_lift|apply calm_set_ordinal]|]. intros ?.
  set (st := Step_with_id _ _ _ _ _).
  apply (does_bind _ _ _ (λ _ w, Open [step_id st] [] w ∧ own_step (step_id st) (wk_store w))).
  - apply does_insert; [constructor; apply exec_wf_new|apply stable_open|].
    intros w ? s' _ [Hs Hc Ho] Hi. apply insert_step_Ok in Hi as Ht. split; [split|].
    + intros sid y Hy Hyr. cbn in Hy. rewrite Ht in Hy. cbn in Hy. destruct (decide (sid = step_id st)) as [->|Hne].
      * right. by left.
      * rewrite lookup_insert_ne in Hy by done. destruct (Hs sid y Hy Hyr) as [?|?]; [by left|right; by right].
    + intros cid y. cbn. rewrite Ht. apply Hc.
    + intros sid Hsid. apply (own_step_insert sid st (wk_store w) s' Ht eq_refl). by apply Ho.
    + exists st. cbn. rewrite Ht. cbn. by rewrite lookup_insert_eq.
  - intros ?. apply does_done. by intros w [? ?].
Qed.
Lemma does_plan_step title : does_here (Open [] []) (plan_step run title) (λ _, Open [] []).
Proof.
  apply does_clock; [apply stable_open|]. intros at_. eapply does_bind; [apply does_new_step|]. intros st. cbn beta.
  eapply does_bind; [apply (does_calm run); [|apply calm_access; [exact _|apply calm_op_ops; split; [constructor|apply still_append_event]]]|].
  - apply stable_and; [apply stable_open|].
    apply stable_and; [apply stable_store, persistent_lasts, own_step_persistent|apply stable_const].
  - intros ?. cbn beta. apply does_self. intros v (Ho & Hown & _) w r w' _ -> [= <- <-]. split; [by apply advances_same|].
    intros ? _. destruct Ho as [Hs Hc Ho]. split; [|done|].
    + intros id y Hy Hyr. destruct (Hs id y Hy Hyr) as [?|Hin]; [by left|right]. cbn in Hin |- *. set_solver.
    + intros id [?| ->%list_elem_of_singleton]%elem_of_app; [by apply Ho|done].
Qed.
Lemma does_persist_plan titles : does_here (Open [] []) (persist_plan run titles) (λ _, Open [] []).
Proof.
  eapply (does_bind _ _ _ (λ _, Open [] [])); [|intros ?; apply does_publish, stable_open].
  induction titles as [|title titles IH]; cbn [plan_steps]; [by apply does_done|].
  eapply does_bind; [apply does_plan_step|]. by intros ?.
Qed.

(** A step the worker may begin: one it made, and is in the middle of. *)
Definition begun (st : Step) (w : Worker) : Prop :=
  Open [step_id st] [] w ∧ own_step (step_id st) (wk_store w) ∧ step_run_id st = run.
Lemma stable_begun st : stable_here (begun st).
Proof.
  apply stable_and; [apply stable_open|]. apply stable_and; [|apply stable_const].
  apply stable_store, persistent_lasts, own_step_persistent.
Qed.
Lemma does_take_planned id planned w0 :
  Open [] [] w0 → wk_planned w0 = id :: planned →
  does_here (λ w, w = w0) (_ ← modify (set_planned planned); access (load (R:=Step) id)) begun.
Proof.
  intros [Hs Hc Ho] Hp.
  apply (does_bind _ _ _ (λ _ w, Open [id] [] w ∧ own_step id (wk_store w))).
  - intros w r w' _ -> [= <- <-]. split; [by apply advances_same|]. intros ? _. split; [split|]; cbn.
    + intros sid y Hy Hyr. destruct (Hs sid y Hy Hyr) as [?|Hin]; [by left|right]. rewrite Hp in Hin. exact Hin.
    + exact Hc.
    + intros sid Hsid. apply Ho. rewrite Hp. by right.
    + apply Ho. rewrite Hp. by left.
  - intros ?. cbn beta. intros w r w' Hwf Hw Hrun.
    pose proof (does_load_step _ id (stable_with _ _ (stable_open [id] []) (own_step_persistent id)) w r w' Hwf Hw Hrun) as [Ha HQ].
    split; [done|]. intros st Hr. destruct (HQ st Hr) as [[Hopen Hown] Hst].
    assert (store_wf (wk_store w')) as Hwf' by by eapply wf_advances.
    destruct (wf_steps _ (sw_tables _ Hwf') _ _ Hst) as [<- _]. split_and!; [done..|].
    destruct Hown as (y & Hy & Hyr). congruence.
Qed.
Lemma does_begin_step title : does_here (Open [] []) (begin_step run title) begun.
Proof.
  apply does_self. intros v Hv.
  apply (does_bind _ _ _ begun).
  - destruct (wk_planned v) as [|id planned] eqn:Hp; [|by apply does_take_planned].
    apply (does_pre _ (Open [] [])); [|by intros w _ ->].
    apply does_clock; [apply stable_open|]. intros at_. apply does_new_step.
  - intros st. apply does_clock; [apply stable_begun|]. intros at_.
    apply (does_bind _ _ _ (λ started w, begun st w ∧ tb_steps (rs_tables (wk_store w)) !! step_id st = Some started.1)).
    + apply (does_access run authorized _ _ (λ started s, tb_steps (rs_tables s) !! step_id st = Some started.1));
        [apply stable_begun|apply calm_op_ops; split; [apply op_transition_step_with_event|apply still_change_step]|].
      intros s [st' n] s' Hwf Hrun. by apply changed_step in Hrun as (_ & _ & _ & ?); [|done|intros; by econstructor].
    + intros [st' n]. cbn beta.
      apply (does_pre _ (λ w, begun st w ∧ step_id st' = step_id st ∧ step_run_id st' = run)).
      * eapply does_bind; [apply does_publish; apply stable_and; [apply stable_begun|apply stable_const]|].
        intros ?. apply does_done. intros w [(? & ? & _) [Hid Hr]]. unfold begun. cbn. by rewrite Hid.
      * intros w Hwf [Hb Hst]. split_and!; [done|by destruct (wf_steps _ (sw_tables _ Hwf) _ _ Hst) as [? _]|].
        destruct Hb as (_ & (y & Hy & Hyr) & _). cbn in Hst. congruence.
Qed.

(** ** A call *)

(** In the middle of [call], which is part of [st]. *)
Abbreviation during st call := (Open [step_id st] [call]).

Lemma next_failed steps calls (o : Observation ArtifactRef) :
  steps = [] → calls = [] → does_here (Open steps calls) (mret (Some o)) next_ok.
Proof. intros -> ->. by apply does_done. Qed.
Lemma does_step_failed st failure (o : Observation ArtifactRef) P :
  stable_here P → (∀ w, P w → Open [step_id st] [] w) →
  does_here P (_ ← finish_step_failed run (step_id st) failure; mret (Some o)) next_ok.
Proof.
  intros HP Ho. eapply does_bind; [by apply does_finish_step_failed|]. intros ?. apply does_done.
  intros w [Hw Hover]. by apply (close_step (step_id st)); [apply Ho|].
Qed.
Lemma does_fail_before_policy st call kind message :
  does_here (during st call) (fail_before_policy run st call kind message) next_ok.
Proof.
  apply does_clock; [apply stable_open|]. intros at_.
  eapply does_bind; [apply (does_write _ _ (call_over call)); [apply stable_open|apply call_over_persistent|apply op_fail_call_with_event|apply still_change_call|]|].
  { intros s x s'. apply call_fails. }
  intros ?. cbn beta.
  eapply does_bind; [apply does_finish_step_failed; apply stable_with; [apply stable_open|apply call_over_persistent]|].
  intros ?. cbn beta. apply (does_pre _ (Open [] [])).
  - eapply does_bind; [apply does_publish, stable_open|]. intros ?. by apply does_done.
  - intros w _ [[Ho Hc] Hs]. by apply (close_call call), Hc; apply (close_step (step_id st)).
Qed.

Definition admission_of (approval : option (string * ToolIdentity * InputHash)) : Admission :=
  match approval with
  | None => AdmitPending
  | Some (decided_by, tool, hash) => AdmitBoundApproved decided_by tool hash
  end.
Lemma does_scheduled_call P call risk approval :
  stable_here P →
  does_here P (scheduled_call workspace_key workspace_metadata cancellation call risk approval)
    (λ sd w, P w ∧ sd_call sd = call ∧ sd_admission sd = admission_of approval).
Proof.
  intros HP. unfold scheduled_call.
  apply (does_bind _ _ _ (λ sd w, P w ∧ sd_call sd = call ∧ sd_admission sd = AdmitPending)).
  - destruct workspace_metadata as [metadata|]; [|by apply does_done].
    intros w r w' _ Hw. unfold or_fault, lift. intros [= <- <-]. split; [done|]. intros sd Hsd. split; [done|].
    unfold with_workspace_metadata in Hsd. repeat (case_match; try done). by injection Hsd as <-.
  - intros sd. apply does_done. intros w (Hw & Hc & Ha). destruct approval as [[[who tool] hash]|]; by split_and!.
Qed.

(** Handing a call over is what is recorded; when it is answered, the call is over. *)
Lemma does_serve_call step call sd :
  sd_call sd = call →
  does_here (λ w, Open [step] [call] w ∧ authorized (MkServed sd (wk_store w))) (serve_call run sd) (λ _, Open [step] []).
Proof.
  intros Hcall. unfold serve_call. apply does_self. intros v [Hv Hauth].
  apply (does_bind _ _ _ (λ _, Open [step] [call])).
  { intros w r w' _ -> [= <- <-]. split; [|by intros ? _; destruct Hv].
    split; [done|]. exists [MkServed sd (wk_store v)]. split; [done|]. by apply Forall_singleton. }
  intros ?. eapply (does_then run); [apply stable_open|apply calm_look|]. intros n.
  eapply (does_then run); [apply stable_open|apply calm_waits, calm_ret|]. intros ?.
  apply (does_bind _ _ _ (λ r w, Open [step] [call] w ∧ ∀ completed, r = Ok (Ok completed) → call_over call (wk_store w))).
  - intros w r w' Hwf Hw Hrun. unfold answered in Hrun.
    pose proof (others_calm run (wk_looks w) (wk_store w)) as Hoth. set (s := others (wk_looks w) (wk_store w)) in *.
    pose proof (serve_calm run n sd s) as Hserve. pose proof (serve_ends run n sd s) as Hends.
    destruct (serve n sd s) as [z s'] eqn:Hz. cbn in Hserve. injection Hrun as <- <-.
    assert (calmly run w (set_store s' w)) as Hc by (split; [cbn; by etrans|done|done]).
    split; [by apply (calmly_advances run)|]. intros y [= <-]. split; [by apply (stable_open _ _ w)|].
    intros completed [= ->]. cbn. rewrite <- Hcall. eapply Hends; [|done].
    apply (store_steps_keep _ _ Hwf), (calm_steps run), Hoth.
  - intros r. cbn beta. destruct r as [[completed|[e|refusal]]|e]; [|apply does_err..].
    apply does_done. intros w [Hw Hover]. eapply close_call; [done|]. by eapply Hover.
Qed.

Lemma does_execute_scheduled st call risk approval :
  does_here (λ w, during st call w ∧ ∀ sd, sd_call sd = call → sd_admission sd = admission_of approval →
      authorized (MkServed sd (wk_store w)))
    (execute_scheduled run workspace_key workspace_metadata cancellation st call risk approval) next_ok.
Proof.
  unfold execute_scheduled. set (P := λ w, during st call w ∧ ∀ sd, _ → _ → _).
  assert (stable_here P) as HP.
  { apply stable_and; [apply stable_open|]. intros w w' Hwf Hc Hw sd Hsd Had.
    apply (persistent_lasts _ (authorized_persistent sd) (wk_store w)); [done|apply Hc|by apply Hw]. }
  eapply does_bind; [by apply does_scheduled_call|]. intros sd. cbn beta.
  apply (does_bind _ _ _ (λ _, Open [step_id st] [])).
  { intros w r w' Hwf [[Hw Hau] [Hcall Had]]. by apply (does_serve_call (step_id st) call sd Hcall); [|split; [|apply Hau]]. }
  intros completed. eapply does_bind; [apply does_publish, stable_open|]. intros ?. cbn beta.
  destruct (cc_outcome completed).
  - eapply does_bind; [apply does_finish_step; [apply stable_open|done]|]. intros ?. cbn beta.
    apply (does_pre _ (Open [] [])); [|intros w _ [? ?]; by eapply close_step].
    eapply (does_then run); [apply stable_open|apply calm_look|]. intros n.
    eapply (does_then run); [apply stable_open|apply calm_lift|]. intros artifacts. by apply does_done.
  - apply (does_step_failed _ _ _ (Open [step_id st] [])); [apply stable_open|done].
  - eapply does_bind; [apply does_finish_cancelled|]. intros ?. by apply does_done.
  - eapply does_bind; [apply does_finish_step; [apply stable_open|done]|]. intros ?. apply does_done.
    intros w [? ?]. by eapply close_step.
  - apply (does_step_failed _ _ _ (Open [step_id st] [])); [apply stable_open|done].
Qed.

(** In the middle of a call on which policy's verdict [d] is recorded. *)
Definition judged (st : Step) (call : ToolCallId) (tool_id : ToolId) (tool : T) (hash : InputHash) (d : PolicyDecision)
    (w : Worker) : Prop :=
  during st call w ∧ recorded call tool_id hash d (wk_store w) ∧ evaluated call tool hash d (wk_store w).
Lemma stable_judged st call tool_id tool hash d : stable_here (judged st call tool_id tool hash d).
Proof.
  apply stable_and; [apply stable_open|]. apply stable_and; apply stable_store, persistent_lasts;
    [apply recorded_persistent|apply evaluated_persistent].
Qed.

Lemma does_load_approval P id :
  stable_here P →
  does_here P (access (approval id)) (λ a w, P w ∧ tb_approvals (rs_tables (wk_store w)) !! ar_id a = Some a).
Proof.
  intros HP. apply (does_access run authorized P _ (λ a s, tb_approvals (rs_tables s) !! ar_id a = Some a));
    [done|apply calm_op_ops; split; [constructor|apply still_reader]|].
  intros s a s' Hwf [-> Hr]%with_reader_spec. specialize (Hr a eq_refl). cbn.
  destruct (load_approval id (rs_tables s)) as [y t] eqn:Hl. cbn in Hr. subst y.
  apply load_approval_Ok in Hl as [_ Ha]; [|apply Hwf]. by destruct (wf_approvals _ (sw_tables _ Hwf) _ _ Ha) as [-> _].
Qed.
Lemma does_drop P P' {X} (m : workM X) Q : does_here P m Q → (∀ w, P' w → P w) → does_here P' m Q.
Proof. intros Hm HP. eapply does_pre; [exact Hm|]. intros w _. apply HP. Qed.

Lemma bindM_run {X Y} (m : workM X) (f : X → workM Y) w r w' :
  (m ≫= f) w = (r, w') →
  (∃ x w1, m w = (Ok x, w1) ∧ f x w1 = (r, w')) ∨ (∃ e, r = Err e ∧ m w = (Err e, w')).
Proof.
  unfold mbind, stateM_bind. destruct (m w) as [[x|e] w1]; intros Hrun; [left; eauto|right].
  injection Hrun as <- <-. eauto.
Qed.
Section asked.
Context (st : Step) (call : ToolCallId) (tool_id : ToolId) (tool_version : ToolVersion) (tool : T) (hash : InputHash)
  (d : PolicyDecision).
Context (Hget : Registry.get tool_id (Some tool_version) registry = Some tool).
Abbreviation judged_here := (judged st call tool_id tool hash d).
Abbreviation identity := (td_identity (descriptor tool)).

Lemma does_resume_denied o decided_by : does_here judged_here (resume_denied run o st call decided_by) next_ok.
Proof.
  apply (does_drop (during st call)); [|by intros w [? _]]. apply does_clock; [apply stable_open|]. intros at_.
  eapply does_bind; [apply (does_write _ _ (call_over call)); [apply stable_open|apply call_over_persistent|apply op_reject_call_with_event|apply still_change_call|]|].
  { intros s x s'. apply call_rejected. }
  intros ?. apply (does_drop (Open [step_id st] [])); [|intros w [? ?]; by eapply close_call].
  eapply (does_then run); [apply stable_open|apply calm_access; [exact _|apply calm_op_ops; split; [apply op_resume_run|apply still_change_run]]|].
  intros ?. eapply does_bind; [apply does_finish_step_failed, stable_open|]. intros ?.
  apply (does_drop (Open [] [])); [|intros w [? ?]; by eapply close_step].
  eapply does_bind; [apply does_publish, stable_open|]. intros ?. by apply does_done.
Qed.
Lemma does_resume_granted request risk :
  pd_verdict d = Ask →
  does_here (λ w, judged_here w ∧ tb_approvals (rs_tables (wk_store w)) !! ar_id request = Some request)
    (resume_granted descriptor run workspace_key workspace_metadata cancellation registry request st call identity hash risk (decided_by_of request))
    next_ok.
Proof.
  intros Hask. unfold resume_granted. destruct (grant_of request) as [g|] eqn:Hg; [|apply does_err].
  destruct (Registry.get (ti_id identity) (Some (ti_version identity)) registry) as [tool'|] eqn:Hget'; [|apply does_err].
  destruct (negb _) eqn:Happ; [apply does_err|]. apply negb_false_iff in Happ.
  apply (does_drop (λ w, judged_here w ∧ granted call (decided_by_of request) identity hash (wk_store w))).
  2: { intros w [? Ha]. split; [done|]. by exists request, g, tool'. }
  assert (stable_here (λ w, judged_here w ∧ granted call (decided_by_of request) identity hash (wk_store w))) as HP.
  { apply stable_with; [apply stable_judged|apply granted_persistent]. }
  apply does_clock; [done|]. intros at_.
  eapply (does_then run); [done|apply calm_access; [exact _|apply calm_op_ops; split; [apply op_approve_run_with_event|apply still_change_run]]|].
  intros ?. eapply does_bind; [by apply does_publish|]. intros ?.
  eapply does_drop; [apply does_execute_scheduled|]. intros w [[Ho [Hrec Hev]] Hgr]. split; [done|].
  intros sd Hsd Had. exists tool_id, tool_version, tool, hash, d. rewrite Hsd, Had. by split_and!.
Qed.
Lemma does_resume_approval o risk :
  pd_verdict d = Ask →
  does_here judged_here
    (resume_approval descriptor run workspace_key workspace_metadata cancellation registry o st call identity hash risk) next_ok.
Proof.
  intros Hask. unfold resume_approval. eapply does_bind; [apply does_load_approval, stable_judged|]. intros request.
  assert (stable_here (λ w, judged_here w ∧ granted call (decided_by_of request) identity hash (wk_store w))) as HP.
  { apply stable_with; [apply stable_judged|apply granted_persistent]. }
  cbn beta. intros w r w' Hwf [Hj Ha] Hrun.
  apply bindM_run in Hrun as [(stop & w1 & Hs & Hrun)|(e & -> & Hs)].
  2: { exfalso. revert Hs. unfold stopped_by. by case_bool_decide. }
  assert (wk_store w1 = wk_store w ∧ wk_planned w1 = wk_planned w ∧ wk_served w1 = wk_served w) as (Hst & Hp & Hsv).
  { revert Hs. unfold stopped_by. case_bool_decide; by intros [= _ <-]. }
  assert (advances authorized w w1) as Ha1 by by apply advances_same.
  assert (judged_here w1) as Hj1.
  { destruct Hj as ([? ? ?] & ? & ?). unfold judged. rewrite Hst. split_and!; [|done..]. by split; rewrite ?Hp, ?Hst. }
  rewrite <- Hst in Ha, Hwf.
  assert (advances authorized w1 w' ∧ ∀ x, r = Ok x → next_ok x w') as [Ha2 HQ]; [|split; [by etrans|done]].
  destruct stop.
  - refine (does_bind _ (during st call) _ (λ _, Finished) _ next_ok _ _ w1 r w' Hwf (proj1 Hj1) Hrun);
      [apply does_cancel_call|intros ?; by apply does_done].
  - destruct (ob_verdict o).
    + by eapply (does_resume_granted request risk Hask).
    + by eapply (does_resume_denied o (decided_by_of request)).
Qed.

Lemma does_await_approval risk :
  pd_verdict d = Ask →
  does_here judged_here
    (await_approval descriptor run workspace_key workspace_metadata cancellation registry st call identity hash risk) next_ok.
Proof.
  intros Hask. pose proof (stable_judged st call tool_id tool hash d) as HP. unfold await_approval.
  eapply (does_then run); [done|apply calm_access; [exact _|apply calm_op_ops; split; [apply op_load_call|apply still_reader]]|].
  intros c. apply does_clock; [done|]. intros at_.
  destruct (Registry.get (ti_id identity) (Some (ti_version identity)) registry) as [tool'|]; [|apply does_err].
  eapply (does_then run); [done|apply calm_draw|]. intros id. set (pending := summarized_as _ _).
  apply (does_bind _ _ _ (λ a w, judged_here w ∧ stored_request a)).
  { intros w r w' _ Hw. unfold or_fault, lift. intros [= <- <-]. split; [done|]. intros a Ha. split; [done|].
    destruct (open_with_id (MkApprovalId id) pending) as [a'|e] eqn:Ho; [|done]. injection Ha as <-. by eapply open_is_stored. }
  intros a w r w' Hwf [Hw Ha]. revert w r w' Hwf Hw. change (does_here judged_here
    (n ← look; _ ← (if ticket_free n (ar_id a) then mret tt else fault "approval_waiter_exists" "approval already has a waiter");
     _ ← access (open_approval a); at_ ← clock; _ ← transition_run_to run WaitingForApproval None at_;
     wait_approval_ticket descriptor run workspace_key workspace_metadata cancellation registry (ar_id a) st call identity hash risk) next_ok).
  eapply (does_then run); [done|apply calm_look|]. intros n.
  eapply (does_then run); [done|destruct (ticket_free n (ar_id a)); [apply calm_ret|apply calm_lift]|]. intros ?.
  eapply (does_then run); [done|apply calm_access; [exact _|apply calm_op_ops; split; [by apply op_open_approval|apply still_open_approval]]|].
  intros ?. apply does_clock; [done|]. intros at1. eapply (does_then run); [done|apply calm_transition_run_to|]. intros ?.
  eapply (does_then run); [done|apply calm_look|]. intros n1.
  eapply (does_then run); [done|apply calm_waits, calm_withdraw|]. intros ?. by apply does_resume_approval.
Qed.

Lemma does_record_decision risk :
  does_here (λ w, during st call w ∧ evaluated call tool hash d (wk_store w) ∧
      ∃ c, tb_calls (rs_tables (wk_store w)) !! call = Some c ∧ call_run_id c = run ∧
        call_tool_id c = ToolId_as_str tool_id ∧ input_hash (call_input c) = Ok hash)
    (record_decision run st call d risk)
    (λ _ w, judged_here w ∧ (pd_verdict d = Deny → call_over call (wk_store w))).
Proof.
  set (asked := λ s, ∃ c, tb_calls (rs_tables s) !! call = Some c ∧ call_run_id c = run ∧
        call_tool_id c = ToolId_as_str tool_id ∧ input_hash (call_input c) = Ok hash).
  assert (persistent asked) as Hask.
  { intros s s' Hex (c & Hc & Hr). destruct (ex_calls _ _ Hex _ _ Hc) as (c' & Hc' & Hs). exists c'.
    by pose proof (call_steps_request _ _ Hs) as (_ & -> & _ & -> & ->). }
  set (P := λ w, during st call w ∧ evaluated call tool hash d (wk_store w) ∧ asked (wk_store w)).
  assert (stable_here P) as HP.
  { apply stable_and; [apply stable_open|]. apply stable_and; apply stable_store, persistent_lasts; [apply evaluated_persistent|done]. }
  set (F := λ s, ∃ c, tb_calls (rs_tables s) !! call = Some c ∧ call_policy_decision c = Some d ∧
                  (pd_verdict d = Deny → is_terminal (call_state c) = true)).
  assert (persistent F) as HF.
  { intros s s' Hex (c & Hc & Hd & Ht). destruct (ex_calls _ _ Hex _ _ Hc) as (c' & Hc' & Hs). exists c'.
    split; [done|]. split; [by eapply verdict_stays|]. intros Hv. eapply call_terminal_stays; [by apply Ht|done]. }
  apply does_clock; [done|]. intros at_.
  eapply does_post; [apply (does_write_publish P _ F); [done|done|apply op_decide_call_with_event|apply still_change_call|]|].
  - intros s [c n] s' Hwf Hrun. apply changed_call in Hrun as (c0 & _ & Hm & Hc); [|done|intros ? ?; apply decide_still].
    apply call_decided in Hm as [Hd Hv]. exists c. split_and!; [done..|]. intros Hdeny. by rewrite (Hv Hdeny).
  - intros _ w [(Ho & Hev & c & Hc & Hr & Ht & Hh) (c' & Hc' & Hd & Hv)]. rewrite Hc in Hc'. injection Hc' as <-.
    split; [split_and!; [done| |done]|]; [by exists c|]. intros Hdeny. exists c. split; [done|by apply Hv].
Qed.
Lemma does_carry_out risk :
  does_here (λ w, during st call w ∧ evaluated call tool hash d (wk_store w) ∧
      ∃ c, tb_calls (rs_tables (wk_store w)) !! call = Some c ∧ call_run_id c = run ∧
        call_tool_id c = ToolId_as_str tool_id ∧ input_hash (call_input c) = Ok hash)
    (carry_out descriptor run workspace_key workspace_metadata cancellation registry st call identity hash d risk) next_ok.
Proof.
  eapply does_bind; [apply does_record_decision|]. intros ?. cbn beta. destruct (pd_verdict d) eqn:Hv.
  - eapply does_drop; [apply does_execute_scheduled|]. intros w [(Ho & Hrec & Hev) _]. split; [done|].
    intros sd Hsd Had. exists tool_id, tool_version, tool, hash, d. rewrite Hsd, Had. by split_and!.
  - eapply does_drop; [by apply does_await_approval|]. by intros w [? _].
  - apply (does_drop (Open [step_id st] [])).
    + by apply (does_step_failed _ _ _ (Open [step_id st] [])); [apply stable_open|].
    + intros w [(Ho & _) Hc]. eapply close_call; [done|by apply Hc].
Qed.
End asked.

(** The call as it was asked for. *)
Definition requested (call : ToolCallId) (tool_id : ToolId) (input : Value) (s : RunStore) : Prop :=
  ∃ c, tb_calls (rs_tables s) !! call = Some c ∧ call_run_id c = run ∧ call_tool_id c = ToolId_as_str tool_id ∧ call_input c = input.
Lemma requested_persistent call tool_id input : persistent (requested call tool_id input).
Proof.
  intros s s' Hex (c & Hc & Hr). destruct (ex_calls _ _ Hex _ _ Hc) as (c' & Hc' & Hs). exists c'.
  by pose proof (call_steps_request _ _ Hs) as (_ & -> & _ & -> & ->).
Qed.
Definition all_granted (grants : list ApprovalGrant) (s : RunStore) : Prop :=
  ∀ g, g ∈ grants → ∃ a, tb_approvals (rs_tables s) !! ar_id a = Some a ∧ grant_of a = Some g.
Lemma all_granted_persistent grants : persistent (all_granted grants).
Proof.
  intros s s' Hex Hg g Hin. destruct (Hg g Hin) as (a & Ha & Hga). exists a. split; [by eapply grant_stays|done].
Qed.
Lemma run_grants_Ok s grants s' : store_wf s → run_grants run s = (Ok grants, s') → all_granted grants s'.
Proof.
  intros Hwf [-> Hr]%with_reader_spec. specialize (Hr grants eq_refl). intros g Hin. cbn.
  destruct (run_grants_rows run (rs_tables s)) as [y t] eqn:Hl. cbn in Hr. subst y.
  apply bindM_Ok in Hl as (rows & t1 & Hrows & [-> _]%ret_Ok). injection Hrows as Hdec _.
  apply list_elem_of_omap in Hin as (a & Ha & Hga). exists a. split; [|done].
  rewrite decode_all_same in Hdec.
  - injection Hdec as <-. apply elem_of_order_by, list_elem_of_filter in Ha as [_ Ha].
    apply elem_of_rows_of in Ha as (id & Ha). by destruct (wf_approvals _ (sw_tables _ Hwf) _ _ Ha) as [-> _].
  - intros x Hx. apply elem_of_order_by, list_elem_of_filter in Hx as [_ Hx]. apply elem_of_rows_of in Hx as (id & Hx).
    apply stored_reads. by apply (wf_approvals _ (sw_tables _ Hwf) _ _ Hx).
Qed.

Lemma does_decide_call st call tool_id tool_version tool prepared input :
  Registry.get tool_id (Some tool_version) registry = Some tool →
  does_here (λ w, during st call w ∧ requested call tool_id input (wk_store w))
    (decide_call descriptor run workspace_key workspace_metadata policy cancellation registry st call tool prepared input) next_ok.
Proof.
  intros Hget. set (P := λ w, during st call w ∧ requested call tool_id input (wk_store w)).
  assert (stable_here P) as HP by (apply stable_with; [apply stable_open|apply requested_persistent]).
  unfold decide_call. apply (does_bind _ _ _ (λ hash w, P w ∧ input_hash input = Ok hash)).
  { intros w r w' _ Hw. unfold or_fault, lift. intros [= <- <-]. split; [done|]. intros h Hh. split; [done|].
    by destruct (input_hash input); [injection Hh as <-|]. }
  intros hash w r w' Hwf [Hw Hh]. revert w r w' Hwf Hw. eapply does_bind.
  { apply (does_access run authorized P _ (λ grants s, all_granted grants s));
      [done|apply calm_op_ops; split; [apply op_run_grants|apply still_reader]|apply run_grants_Ok]. }
  intros grants. cbn beta. assert (stable_here (λ w, P w ∧ all_granted grants (wk_store w))) as HP1
    by (apply stable_with; [done|apply all_granted_persistent]).
  eapply (does_then run); [done|apply calm_look|]. intros n.
  eapply (does_then run); [done|apply calm_lift|]. intros trust.
  eapply (does_then run); [done|apply calm_is_cancelled|]. intros stop. destruct stop.
  - apply (does_drop (during st call)); [|by intros w [[? _] _]].
    eapply does_bind; [apply does_cancel_call|]. intros ?. by apply does_done.
  - eapply does_drop; [by apply (does_carry_out st call tool_id tool_version tool hash)|].
    intros w [[Ho (c & Hc & Hr & Ht & Hi)] Hg]. split_and!; [done| |].
    + by exists prepared, trust, grants.
    + exists c. split_and!; [done..|]. by rewrite Hi.
Qed.

Lemma does_insert_call st tool_id version input at_ id :
  does_here (begun st)
    (access (insert_tool_call (ToolCall_with_id (MkToolCallId id) st (ToolId_as_str tool_id) version input at_)))
    (λ _ w, during st (MkToolCallId id) w ∧ requested (MkToolCallId id) tool_id input (wk_store w)).
Proof.
  apply does_insert; [constructor; apply call_wf_new|apply stable_begun|].
  intros w ? s' _ ([Hs Hc Ho] & _ & Hrun) Hi. apply insert_call_Ok in Hi as Ht. cbn in Ht.
  split; [split|].
  - intros sid y. cbn. rewrite Ht. apply Hs.
  - intros cid y Hy Hyr. cbn in Hy. rewrite Ht in Hy. cbn in Hy. destruct (decide (cid = MkToolCallId id)) as [->|Hne].
    + right. by left.
    + rewrite lookup_insert_ne in Hy by done. destruct (Hc cid y Hy Hyr) as [?|?]; [by left|right; by right].
  - intros sid Hsid. unfold own_step. cbn. rewrite Ht. by apply Ho.
  - eexists. cbn. rewrite Ht. cbn. rewrite lookup_insert_eq. by split_and!.
Qed.
Lemma does_dispatch_tool tool_id tool_version input :
  does_here (Open [] [])
    (dispatch_tool descriptor run workspace_key workspace_metadata policy cancellation registry tool_id tool_version input) next_ok.
Proof.
  unfold dispatch_tool. eapply does_bind; [apply does_begin_step|]. intros st. cbn beta.
  apply does_clock; [apply stable_begun|]. intros at_. eapply (does_then run); [apply stable_begun|apply calm_draw|]. intros id.
  eapply does_bind; [apply does_insert_call|]. intros ?. cbn beta. set (call := MkToolCallId id).
  set (P := λ w, during st call w ∧ requested call tool_id input (wk_store w)).
  assert (stable_here P) as HP by (apply stable_with; [apply stable_open|apply requested_persistent]).
  destruct (Registry.get tool_id (Some tool_version) registry) as [tool|] eqn:Hget.
  - eapply (does_then run); [done|apply calm_lift|]. intros raw. eapply (does_then run); [done|apply calm_lift|]. intros bounds.
    destruct (prepare_json tool raw bounds) as [prepared|e].
    + eapply (does_then run); [done|apply calm_is_cancelled|]. intros stop. destruct stop; [|by eapply does_decide_call].
      apply (does_drop (during st call)); [|by intros w [? _]].
      eapply does_bind; [apply does_cancel_call|]. intros ?. by apply does_done.
    + eapply does_drop; [apply does_fail_before_policy|]. by intros w [? _].
  - destruct (Registry.resolve tool_id (Some tool_version) registry); [apply does_err|].
    eapply does_drop; [apply does_fail_before_policy|]. by intros w [? _].
Qed.

(** ** The run *)

Lemma does_finish P Q {X} (m : workM unit) (next : option X) :
  does_here P m (λ _ w, Q w) → (∀ w, Q w → next_ok next w) → does_here P (_ ← m; mret next) next_ok.
Proof. intros Hm HQ. eapply does_bind; [exact Hm|]. intros ?. by apply does_done. Qed.
Lemma does_terminalize_all :
  does_here (Open [] []) (terminalize_unexecuted_steps run)
    (λ _ w, over_steps old_steps (wk_store w) ∧ over_calls old_calls (wk_store w)).
Proof.
  eapply does_bind; [apply does_terminalize|]. intros ? w r w' _ [[_ Hc _] Hs] [= <- <-].
  split; [by apply advances_same|done].
Qed.
Lemma stable_rest : stable_here (λ w, over_steps old_steps (wk_store w) ∧ over_calls old_calls (wk_store w)).
Proof. apply stable_and; apply stable_store; [apply over_steps_lasts|apply over_calls_lasts]. Qed.
Lemma does_act o a :
  does_here (Open [] []) (act descriptor run workspace_key workspace_metadata policy cancellation registry o a) next_ok.
Proof.
  destruct a as [steps|tool_id tool_version input|summary|reason]; cbn [act].
  - eapply does_finish; [apply does_persist_plan|done].
  - apply does_dispatch_tool.
  - eapply does_bind; [apply does_terminalize_all|]. intros ?. cbn beta. apply does_clock; [apply stable_rest|]. intros at_.
    eapply does_finish; [apply does_transition_run; [apply stable_rest|done]|]. by intros w [[? ?] ?].
  - eapply does_bind; [apply does_terminalize_all|]. intros ?. cbn beta. apply does_clock; [apply stable_rest|]. intros at_.
    eapply does_bind; [apply (does_write _ _ ended); [apply stable_rest|apply ended_persistent|apply op_fail_run_with_event|apply still_change_run|]|].
    { intros s z s'. apply run_fails. }
    intros ?. eapply does_finish; [apply does_publish|].
    + apply stable_with; [apply stable_rest|apply ended_persistent].
    + by intros w [[? ?] ?].
Qed.
Lemma does_turn o :
  does_here (Open [] []) (turn descriptor run workspace_key workspace_metadata policy cancellation registry o) next_ok.
Proof.
  pose proof (stable_open [] []) as HP.
  assert (does_here (Open [] []) (_ ← finish_cancelled run None; mret (None : option (Observation ArtifactRef))) next_ok) as Hstop
    by (eapply does_finish; [apply does_finish_cancelled_none|done]).
  unfold turn. eapply (does_then run); [done|apply calm_is_cancelled|]. intros [|]; [done|].
  eapply (does_then run); [done|apply calm_record_observation|]. intros ?.
  eapply (does_then run); [done|apply calm_ask_agent|]. intros a.
  eapply (does_then run); [done|apply calm_is_cancelled|]. intros [|]; [done|].
  eapply (does_then run); [done|apply calm_record_action|]. intros ?.
  eapply (does_then run); [done|apply calm_record_checkpoint|]. intros ?.
  eapply (does_then run); [done|apply calm_is_cancelled|]. intros [|]; [done|]. apply does_act.
Qed.
Lemma does_turns fuel o :
  does_here (Open [] []) (turns descriptor run workspace_key workspace_metadata policy cancellation registry fuel o) (λ _, Finished).
Proof.
  revert o. induction fuel as [|fuel IH]; intros o; cbn [turns]; [apply does_err|].
  eapply does_bind; [apply does_turn|]. intros [o'|]; [apply IH|by apply does_done].
Qed.
Lemma does_drive_inner :
  does_here (Open [] [])
    (drive_inner descriptor run task workspace workspace_key workspace_metadata policy cancellation registry) (λ _, Finished).
Proof.
  apply does_clock; [apply stable_open|]. intros at_.
  eapply (does_then run); [apply stable_open|apply calm_transition_run_to|]. intros ?. apply does_turns.
Qed.
Lemma calm_record_evidence f : calm_here (record_evidence run f).
Proof. unfold record_evidence. calm_walk. Qed.
Lemma calm_record_fault f : calm_here (record_fault run f).
Proof. unfold record_fault. pose proof (calm_record_evidence f). calm_walk. Qed.
End promises.
