(* ===== verification/Serving.v ===== *)
(** * How a worker's call is served

    A call the worker of a run handed to the scheduler, to the end of its ticket: refused,
    swept before it was dispatched, or run by the executor by its admission (schedule/
    scheduler.rs, schedule/ticket.rs, the wait in coordinator/mod.rs).  The executor keeps what
    the worker relies on of it. *)

From Stdlib Require Import ZArith ZifyN ZifyBool.
From stdpp Require Import base decidable countable list gmap sets relations pretty strings.
From S2P Require Import Registry Prelude Digest Tool External Trust Policy Approval Matcher Gate Lifecycle Domain Records Wire Schedule RunStore StoreClaims StoreLaws ClaimLaws Interrupt StoreSafety ToolError Supervise Executor ExecutorSafety RecoverySafety Subscription Worker WorkerLaws WorkerSafety.

Section serving.
Context `{Platform, !StoreParams, Faults, !Fresh, !Now, DebugFormat}.
Context {T ArtifactRef : Type} (descriptor : T → ToolDescriptor).

(** What the admission of a call asks of the executor. *)
Definition start_of (a : Admission) : Start :=
  match a with
  | AdmitPending => StartPending
  | AdmitApproved decided_by => LegacyApproved decided_by
  | AdmitBoundApproved decided_by tool hash => StartApproved decided_by tool hash
  end.
(** [Inner::run] of the scheduler; the root and the metadata of the call give the context. *)
Definition run_admitted (te : ToolExecutor (T:=T)) (context : ScheduledCall → result ToolError unit)
    (supervise : Supervision (T:=T)) (sd : ScheduledCall) : stateM RunStore ExecutionError CompletedCall :=
  let call := sd_call sd in
  match sd_admission sd with
  | AdmitPending => execute descriptor te call (context sd) supervise
  | AdmitApproved decided_by => execute_approved descriptor te call decided_by (context sd) supervise
  | AdmitBoundApproved decided_by tool hash =>
    execute_bound_approved descriptor te call decided_by tool hash (context sd) supervise
  end.

(** What becomes of a submission: [Swept] is a queued call whose run was stopped. *)
Inductive Fate := Refused (e : ScheduleError) | Swept | Dispatched | Silent.

(** [ScheduleError::kind]: an executor's own, and of a submission that was the store's. *)
Definition ScheduleError_kind (e : ScheduleError) : string :=
  match e with
  | SchedShutdown _ => "scheduler_shutting_down"
  | AlreadyScheduled _ => "already_scheduled"
  | SchedExecution _ => ExecutionError_kind (ExecStore QueryFailed)
  | WorkerLost _ => "worker_lost"
  end.

(** What comes out of a ticket ([settle]): the executor's fault travels inside it. *)
Inductive Unsettled := NotScheduled (e : ScheduleError) | NotExecuted (source : ExecutionError).
Definition settle (call : ToolCallId) (reported : option (result ExecutionError CompletedCall))
    : result Unsettled CompletedCall :=
  match reported with
  | Some (Ok completed) => Ok completed
  | Some (Err source) => Err (NotExecuted source)
  | None => Err (NotScheduled (WorkerLost call))
  end.

(** What surrounds the scheduler of a worker's calls. *)
Class Scheduling := {
  fate : nat → ScheduledCall → Fate;
  context_of : ScheduledCall → result ToolError unit;
  supervised : nat → Supervision (T:=T);
  schedule_text : ScheduleError → string;
  execution_text : ExecutionError → string;
}.
Context `{!Scheduling}.

(** [map_err] over the ticket's answer: a refusal of the store stays one. *)
Definition as_fault (e : Unsettled) : StoreError + Refusal :=
  match e with
  | NotExecuted (ExecStore e) => inl e
  | NotExecuted source => inr (MkRefusal (ExecutionError_kind source) (execution_text source))
  | NotScheduled e => inr (MkRefusal (ScheduleError_kind e) (schedule_text e))
  end.
Definition ticketed (te : ToolExecutor (T:=T)) (n : nat) (sd : ScheduledCall) (s : RunStore)
    : result Unsettled CompletedCall * RunStore :=
  let report (m : stateM RunStore ExecutionError CompletedCall) :=
    let '(r, s) := m s in (settle (sd_call sd) (Some r), s) in
  match fate n sd with
  | Refused e => (Err (NotScheduled e), s)
  | Swept => report (cancel_undispatched (sd_call sd))
  | Dispatched => report (run_admitted te context_of (supervised n) sd)
  | Silent => (settle (sd_call sd) None, s)
  end.
Definition served_by (te : ToolExecutor (T:=T)) (n : nat) (sd : ScheduledCall) (s : RunStore)
    : result (StoreError + Refusal) CompletedCall * RunStore :=
  let '(r, s) := ticketed te n sd s in (map_err as_fault r, s).

(** The surroundings of a worker whose calls go to this scheduler. *)
Definition with_scheduler (te : ToolExecutor (T:=T)) (w : Surroundings T ArtifactRef) : Surroundings T ArtifactRef := {|
  others := others; cancelled := cancelled; slices := slices; ticket_free := ticket_free; observed := observed;
  workspace_trust := workspace_trust; run_artifacts := run_artifacts; raw_value := raw_value; boundary := boundary;
  prepare_json := prepare_json; canonicalize := canonicalize; serve := served_by te
|}.
End serving.

(** ** What the executor leaves of the rows *)

Section laws.
Context `{PlatformLaws, !StoreParams, Faults, !Fresh, !FreshLaws, !Now, DebugFormat}.
Context {T ArtifactRef : Type} (descriptor : T → ToolDescriptor) `{!Scheduling (T:=T)}.
Context (run_of_worker : RunId).
Abbreviation storeM A := (stateM RunStore StoreError A).
Abbreviation execM A := (stateM RunStore ExecutionError A).

Lemma still_pin c : tx_still (pin_tool_call_version c).
Proof.
  apply tx_still_bind; [apply tx_still_lift|]. intros _. apply tx_still_read. intros t r t'.
  destruct (tb_calls t !! call_id c) as [stored|] eqn:Hst; intros [= <- <-]; [|done].
  split; [done|]. cbn. by eapply dom_insert_here.
Qed.
Lemma still_begin id e (start : stateM Tables StoreError ToolCall) :
  tx_still start → rows_still (begin_tool_call id e start).
Proof.
  intros Hs. apply still_change; [|done|apply still_update_call|apply still_pin].
  apply rows_still_bind; [apply still_reader|intros; by apply rows_still_pure].
Qed.
Lemma still_dispatch call start version at_ e : rows_still (dispatch call start version at_ e).
Proof.
  assert (∀ who tool hash, rows_still (dispatch_bound_approved_tool_call_with_event call who tool hash at_ e)) as Hbound.
  { intros. apply still_begin. apply tx_still_bind; [apply still_load_row|]. intros c.
    apply tx_still_bind; [apply tx_still_lift|]. intros _. apply still_change_record. }
  destruct start; cbn [dispatch]; [apply still_begin, still_moved| |apply Hbound].
  apply rows_still_bind; [apply still_reader|]. intros c. apply rows_still_bind; [by apply rows_still_pure|]. intros tool.
  apply rows_still_bind; [by apply rows_still_pure|]. intros hash. apply Hbound.
Qed.
Lemma still_on_error {A} (undo : RunStore → RunStore) (m : storeM A) :
  (∀ s, rs_tables (undo s) = rs_tables s) → rows_still m → rows_still (on_error undo m).
Proof.
  intros Hu Hm s r s'. unfold on_error. destruct (m s) as [[a|e] s1] eqn:Hrun; intros [= <- <-]; apply Hm in Hrun; [done|].
  by rewrite Hu.
Qed.
Lemma discard_tables p s : rs_tables (discard_spill p s) = rs_tables s.
Proof. unfold discard_spill. destruct (pe_sealed p) as [[? ?]|]; [|done]. by destruct (io_fails _). Qed.
Lemma discards_tables ps s : rs_tables (foldl (λ s p, discard_spill p s) s ps) = rs_tables s.
Proof. revert s. induction ps as [|p ps IH]; intros s; cbn; [done|]. by rewrite IH, discard_tables. Qed.
Lemma still_prepare_events run es ps : rows_still (prepare_events run es ps).
Proof.
  revert ps. induction es as [|e es IH]; intros ps; [by apply rows_still_pure|].
  apply rows_still_bind; [|intros; apply IH]. apply still_on_error; [apply discards_tables|apply still_prepare].
Qed.
Lemma still_append_all run ps : tx_still (append_all run ps).
Proof.
  induction ps as [|p ps IH]; [apply tx_still_ret|]. apply tx_still_bind; [apply still_prepared_append|]. intros n.
  apply tx_still_bind; [exact IH|]. intros ns. apply tx_still_ret.
Qed.
Lemma still_append_events run es : rows_still (append_events run es).
Proof.
  apply rows_still_bind; [apply still_prepare_events|]. intros [|p ps]; [by apply rows_still_pure|].
  apply still_on_error; [apply discards_tables|apply still_transaction, still_append_all].
Qed.

(** ** The executor is calm *)

Definition calm_exec {A} (m : execM A) : Prop := ∀ s r s', m s = (r, s') → rtc (calm_step run_of_worker) s s'.
Lemma calm_of_store {A} (m : storeM A) : operation m → rows_still m → calm_exec (of_store m).
Proof.
  intros Hop Hst s r s' Hrun. unfold of_store in Hrun. destruct (m s) as [x s1] eqn:Hm.
  assert (s1 = s') as <- by (destruct x; by injection Hrun as _ <-).
  apply rtc_once. by eapply calm_op_step.
Qed.
Lemma calm_exec_pure {A} (m : execM A) : (∀ s, (m s).2 = s) → calm_exec m.
Proof. intros Hm s r s' Hrun. specialize (Hm s). rewrite Hrun in Hm. cbn in Hm. by subst. Qed.
Lemma calm_exec_bind {A B} (m : execM A) (f : A → execM B) :
  calm_exec m → (∀ a, calm_exec (f a)) → calm_exec (m ≫= f).
Proof.
  intros Hm Hf s r s' [(a & s1 & Ha & Hrest)|(e & -> & He)]%bind_run; [|by eapply Hm].
  etrans; [by eapply Hm|by eapply Hf].
Qed.
Lemma calm_recorded call step tool o at_ : calm_exec (recorded_as_outcome call step tool o at_).
Proof.
  apply calm_exec_bind; [|intros; by apply calm_exec_pure]. intros s r s' Hrun. unfold of_store in Hrun.
  destruct (persist call step o at_ s) as [x s1] eqn:Hp. assert (s1 = s') as <- by (destruct x; by injection Hrun as _ <-).
  apply persist_runs in Hp as (r0 & Hp & _). apply rtc_once. eapply (calm_op_step _ (persist_operation call step o at_)); [|exact Hp].
  split; [apply persist_is_operation|]. destruct (persist_change call step o at_) as [detail ->]. apply still_change_call.
Qed.
Lemma calm_finish call step tool o : calm_exec (finish call step tool o).
Proof.
  apply calm_exec_bind; [by apply calm_exec_pure|]. intros at_ s r s'. unfold finish_at.
  destruct (recorded_as_outcome call step tool o at_ s) as [x s1] eqn:Hrec. apply calm_recorded in Hrec.
  destruct x as [done_|e]; [by intros [= <- <-]|]. destruct e as [e| | | |]; try by intros [= <- <-].
  destruct e; try by intros [= <- <-]. destruct (succeeded o); [|by intros [= <- <-]].
  intros Hrec2. etrans; [exact Hrec|]. by eapply calm_recorded.
Qed.
Lemma calm_progress run call step reported : calm_exec (record_progress run call step reported).
Proof.
  intros s r s'. unfold record_progress. destruct reported as [|v reported]; [by intros [= <- <-]|].
  set (es := _ <$> _). destruct (append_events run es s) as [x s1] eqn:Happ. intros [= <- <-]. apply rtc_once.
  eapply (calm_op_step _ (append_events run es)); [|exact Happ]. split; [apply op_append_events|apply still_append_events].
Qed.
Lemma calm_bursts run call step bursts : calm_exec (record_bursts run call step bursts).
Proof.
  induction bursts as [|b bursts IH]; [by apply calm_exec_pure|]. cbn.
  apply calm_exec_bind; [apply calm_progress|]. intros _. exact IH.
Qed.
Lemma calm_dispatch call start version at_ e : calm_exec (of_store (dispatch call start version at_ e)).
Proof.
  apply calm_of_store; [|apply still_dispatch].
  destruct start; [apply op_dispatch_call|apply op_dispatch_approved|apply op_dispatch_bound].
Qed.
Lemma calm_load_call call : calm_exec (of_store (load (R:=ToolCall) call)).
Proof. apply calm_of_store; [apply op_load_call|apply still_reader]. Qed.
Lemma calm_run te call start context supervise : calm_exec (Executor.run descriptor te call start context supervise).
Proof.
  apply calm_exec_bind; [apply calm_load_call|]. intros record.
  apply calm_exec_bind; [by apply calm_exec_pure|]. intros _.
  destruct (resolve_start _ _ _) as [tool|error]; [|apply calm_finish].
  apply calm_exec_bind; [by apply calm_exec_pure|]. intros timeout.
  apply calm_exec_bind; [by apply calm_exec_pure|]. intros at_.
  apply calm_exec_bind; [apply calm_dispatch|]. intros dispatched.
  destruct context as [u|source]; [|apply calm_finish].
  apply calm_exec_bind; [apply calm_bursts|]. intros _. apply calm_finish.
Qed.
Lemma calm_cancel_undispatched call : calm_exec (cancel_undispatched call).
Proof.
  apply calm_exec_bind; [apply calm_load_call|]. intros record.
  apply calm_exec_bind; [by apply calm_exec_pure|]. intros _. apply calm_finish.
Qed.

(** ** What comes of a submission *)

Lemma run_admitted_eq te context supervise sd :
  run_admitted descriptor te context supervise sd
  = Executor.run descriptor te (sd_call sd) (start_of (sd_admission sd)) (context sd) supervise.
Proof. unfold run_admitted. by destruct (sd_admission sd). Qed.
(** A call is over once it was recorded as it ended. *)
Lemma recorded_over call step o c s :
  ExecutorSafety.ended call step o c s → call_over call s.
Proof.
  intros [Hc [Hst _] _]. exists c. split; [exact Hc|]. rewrite Hst. by destruct o.
Qed.
Lemma cancel_undispatched_over call s d s' :
  store_wf s → cancel_undispatched call s = (Ok d, s') → call_over call s'.
Proof.
  intros Hwf (c & s1 & [_ ->]%of_store_Ok%load_call_Ok & (u & s2 & [_ ->]%lift_Ok & Hrun)%bindM_Ok)%bindM_Ok.
  apply finish_Ok in Hrun as (_ & _ & He); [by eapply recorded_over|].
  by apply (store_wf_later s); [|apply later_tick|].
Qed.

(** A ticket's answer, the store it leaves, and the call when the answer is a record. *)
Lemma ticketed_calmly te n sd s r s' :
  ticketed descriptor te n sd s = (r, s') → rtc (calm_step run_of_worker) s s'.
Proof.
  unfold ticketed. destruct (fate n sd); [by intros [= <- <-]| | |by intros [= <- <-]].
  - destruct (cancel_undispatched (sd_call sd) s) as [x s1] eqn:Hrun. intros [= <- <-]. by eapply calm_cancel_undispatched.
  - rewrite run_admitted_eq. destruct (Executor.run _ _ _ _ _ _ s) as [x s1] eqn:Hrun. intros [= <- <-]. by eapply calm_run.
Qed.
Lemma ticketed_over te n sd s completed s' :
  store_wf s → ticketed descriptor te n sd s = (Ok completed, s') → call_over (sd_call sd) s'.
Proof.
  intros Hwf. unfold ticketed. destruct (fate n sd); [by intros [=]| | |by intros [=]].
  - destruct (cancel_undispatched (sd_call sd) s) as [x s1] eqn:Hrun. destruct x as [d|e]; [|by intros [=]].
    intros [= <- <-]. by eapply cancel_undispatched_over.
  - rewrite run_admitted_eq. destruct (Executor.run _ _ _ _ _ _ s) as [x s1] eqn:Hrun. destruct x as [d|e]; [|by intros [=]].
    intros [= <- <-]. apply run_Ok in Hrun as (c & reported & _ & _ & _ & _ & He); [|done]. by eapply recorded_over.
Qed.

(** C20. The scheduler and the executor keep what a worker relies on: whatever became of a
    submission, and whatever failed under it, serving a call inserts no step and no call of
    the worker's run, and an answer that carries a completed call finds that call over. *)
Theorem scheduled_surroundings te (w : Surroundings T ArtifactRef) :
  (∀ n s, rtc (calm_step run_of_worker) s (others n s)) →
  @SurroundingsLaws _ _ _ _ T ArtifactRef (with_scheduler descriptor te w) run_of_worker.
Proof.
  intros Hothers. split; [exact Hothers| |]; cbn [serve with_scheduler]; unfold served_by.
  - intros n sd s. destruct (ticketed descriptor te n sd s) as [r s'] eqn:Hrun. by eapply ticketed_calmly.
  - intros n sd s completed s' Hwf. destruct (ticketed descriptor te n sd s) as [r s1] eqn:Hrun.
    destruct r as [d|e]; intros [= <- <-]. by eapply ticketed_over.
Qed.
End laws.

(** ** A concrete scheduler *)

#[export] Instance demo_scheduling : Scheduling (T:=ToolDescriptor) := {
  fate _ _ := Dispatched;
  context_of _ := Ok tt;
  supervised _ := demo_body;
  schedule_text _ := "refused";
  execution_text _ := "execution";
}.
Definition demo_reading : ToolExecutor (T:=ToolDescriptor) :=
  MkToolExecutor (after (register_erased id (demo_registered "fs.read" 1 false)) ToolRegistry_new) ExecutionLimits_default.
Definition demo_run_id : RunId := run_id demo_first.
(** Nobody else writes, cancels or waits. *)
Definition demo_alone : Surroundings ToolDescriptor unit := {|
  others _ s := s; cancelled _ := false; slices _ := 0; ticket_free _ _ := true;
  observed _ id := MkApprovalObservation id ApPending VerdictDenied None None;
  workspace_trust _ _ := Ok Trusted; run_artifacts _ _ := Ok []; raw_value v := Ok v;
  boundary root := Ok (MkPathBoundary root []);
  prepare_json _ _ _ := Ok (MkPreparedRequest _ (MkRequestClassification Observe NoForce) []);
  canonicalize root := Ok root;
  serve _ _ s := (Err (inr (MkRefusal "schedule" "refused")), s)
|}.

Lemma scheduled_surroundings_witness :
  @SurroundingsLaws _ _ _ _ ToolDescriptor unit (with_scheduler id demo_reading demo_alone) demo_run_id.
Proof. apply (scheduled_surroundings id demo_run_id demo_reading demo_alone). intros n s. apply rtc_refl. Defined.
