(* ===== verification/WorkerEnd.v ===== *)
(** * What a driven run comes to

    The properties of [drive]: the run has ended when its worker leaves it, every call handed
    to the scheduler was authorized, and a run that went to its end leaves nothing open. *)

From Stdlib Require Import ZArith ZifyN ZifyBool.
From stdpp Require Import base decidable countable list gmap sets relations pretty strings.
From S2P Require Import Registry Prelude Digest Tool External Trust Policy Approval Matcher Gate Lifecycle Domain Records Wire Schedule RunStore StoreClaims StoreLaws ClaimLaws Interrupt StoreSafety ToolError Supervise Executor ExecutorSafety RecoverySafety Subscription Worker WorkerLaws WorkerSafety Serving.

(** ** A failure and its columns *)

Section columns.
Context `{PlatformLaws, !StoreParams, Faults, !Fresh}.

Lemma run_fail_failure f at_ r r' : Run_fail f at_ r = (Ok tt, r') → run_failure r' = Some f.
Proof. unfold Run_fail. intros Hm. method_inv Hm. done. Qed.
(** A run is failed only with a failure its columns hold. *)
Lemma failed_run_fits run f at_ e s x s' :
  fail_run_with_event run f at_ e s = (Ok x, s') → encode_failure "run" (Some (redact_failure f)) = Ok tt.
Proof.
  intros (run' & s1 & _ & (p & s2 & _ & Hc%commit_event_Ok)%bindM_Ok)%bindM_Ok.
  apply bindM_Ok in Hc as (r1 & t1 & Hch & (u & t2 & [Hcols _]%update_row_Ok & _)%bindM_Ok).
  apply bindM_Ok in Hch as (r0 & t0 & _ & Hch). unfold change_record in Hch.
  destruct (Run_fail (redact_failure f) at_ r0) as [[[]|?] r2] eqn:Hf; [|done]. apply ret_Ok in Hch as [-> _].
  cbn [row_columns run_row] in Hcols. rewrite (run_fail_failure _ _ _ _ Hf) in Hcols.
  destruct (encode_failure "run" _) as [[]|?]; [done|discriminate Hcols].
Qed.

Lemma failure_fits kind message :
  encode_failure "run" (Some (redact_failure (Failure_new kind message))) = Ok tt →
  (N.of_nat (String.length (redact_text message)) <= MAX_INLINE_PAYLOAD_BYTES)%N.
Proof.
  cbn. unfold encode_text, within_inline_limit. destruct (_ <? N.of_nat (String.length kind))%N; cbn; [discriminate|].
  destruct (MAX_INLINE_PAYLOAD_BYTES <? N.of_nat (String.length (redact_text message)))%N eqn:Hlt; [discriminate|].
  intros _. by apply N.ltb_ge.
Qed.
End columns.

(** ** The worker *)

Section driven.
Context `{PlatformLaws, !StoreParams, Faults, !Fresh, !FreshLaws, !Now, DebugFormat}.
Context {T ArtifactRef A : Type} (descriptor : T → ToolDescriptor).
Context `{!Agent ArtifactRef A, !WorkerTexts ArtifactRef, !Surroundings T ArtifactRef}.
Context (run : RunId) (task : Task) (workspace : WorkspaceRef) (workspace_key : WorkspaceKey)
  (workspace_metadata : option WorkspaceMetadata) (policy : PolicyEngine) (cancellation : CancellationToken)
  (registry : ToolRegistry (Tool:=T)).
Context `{!SurroundingsLaws run}.
Abbreviation Worker := (Worker (A:=A)).
Abbreviation drive_here :=
  (drive descriptor run task workspace workspace_key workspace_metadata policy cancellation registry).
Abbreviation drive_inner_here :=
  (drive_inner descriptor run task workspace workspace_key workspace_metadata policy cancellation registry).
Abbreviation act_here := (act descriptor run workspace_key workspace_metadata policy cancellation registry).
Abbreviation authorized_here := (authorized descriptor run workspace_key policy registry).

(** The worker once its run is owned by its process. *)
Definition owned (pid : N) (w : Worker) : Worker := (ignored (set_run_owner run (Some pid)) w).2.
Lemma calm_owner pid : calm run (ignored (A:=A) (set_run_owner run pid)).
Proof. apply calm_ignored; [exact _|]. apply calm_op_ops. split; [constructor|apply still_set_run_owner]. Qed.
Lemma owned_calmly pid w : store_wf (wk_store w) → calmly run w (owned pid w).
Proof.
  intros Hwf. unfold owned. destruct (ignored (set_run_owner run (Some pid)) w) as [r w'] eqn:Hrun.
  by apply (calm_owner (Some pid) w r w').
Qed.
(** What [drive] does once the run is over for [drive_inner]. *)
Definition leave (w : Worker) : Worker := (publish run (ignored (set_run_owner run None) w).2).2.
Lemma leave_calmly w : store_wf (wk_store w) → calmly run w (leave w).
Proof.
  intros Hwf. unfold leave. destruct (ignored (set_run_owner run None) w) as [r w1] eqn:Hrun.
  apply (calm_owner None) in Hrun; [|done]. cbn [snd]. destruct (publish run w1) as [r2 w2] eqn:Hpub.
  etrans; [exact Hrun|]. refine (calm_publish run w1 r2 w2 _ Hpub).
  by apply (store_steps_keep _ _ Hwf), (calm_steps run), Hrun.
Qed.
Lemma drive_eq pid w :
  drive_here pid w = leave match drive_inner_here (owned pid w) with
                           | (Ok _, w) => w
                           | (Err f, w) => (record_fault run f w).2
                           end.
Proof. reflexivity. Qed.

Definition open_steps (s : RunStore) : list StepId := (map_to_list (tb_steps (rs_tables s))).*1.
Definition open_calls (s : RunStore) : list ToolCallId := (map_to_list (tb_calls (rs_tables s))).*1.
Lemma open_at_first w :
  wk_planned w = [] → Open (A:=A) run (open_steps (wk_store w)) (open_calls (wk_store w)) [] [] w.
Proof.
  intros Hp. split; rewrite ?Hp.
  - intros id st Hst _. right. apply list_elem_of_fmap. exists (id, st). by rewrite elem_of_map_to_list.
  - intros id c Hc _. right. apply list_elem_of_fmap. exists (id, c). by rewrite elem_of_map_to_list.
  - by intros id ?%not_elem_of_nil.
Qed.

(** What holds of a run of [drive_inner] from a worker without a plan. *)
Lemma driven w r w' :
  store_wf (wk_store w) → wk_planned w = [] → drive_inner_here w = (r, w') →
  advances authorized_here w w' ∧ ∀ x, r = Ok x → ended run (wk_store w').
Proof.
  intros Hwf Hp Hrun.
  destruct (does_drive_inner descriptor run task workspace workspace_key workspace_metadata policy cancellation registry
    (open_steps (wk_store w)) (open_calls (wk_store w)) w r w' Hwf (open_at_first w Hp) Hrun) as [Ha HQ].
  split; [done|]. intros x Hx. by destruct (HQ x Hx).
Qed.

(** *** What is left of a fault *)

(** A computation of the worker that does not fail. *)
Definition sure {X} (m : stateM Worker WorkerFault X) : Prop := ∀ w, ∃ x w', m w = (Ok x, w').
Lemma sure_ret {X} (x : X) : sure (mret x). Proof. intros w. by eexists _, _. Qed.
Lemma sure_bind {X Y} (m : stateM Worker WorkerFault X) (f : X → stateM Worker WorkerFault Y) :
  sure m → (∀ x, sure (f x)) → sure (m ≫= f).
Proof.
  intros Hm Hf w. destruct (Hm w) as (x & w1 & Hrun). destruct (Hf x w1) as (y & w2 & Hrest).
  exists y, w2. unfold mbind, stateM_bind. by rewrite Hrun.
Qed.
Lemma sure_answered {X} (m : stateM RunStore StoreError X) : sure (answered (A:=A) m).
Proof. intros w. unfold answered. destruct (m _) as [r s']. by eexists _, _. Qed.
Lemma sure_ignored {X} (m : stateM RunStore StoreError X) : sure (ignored (A:=A) m).
Proof. apply sure_bind; [apply sure_answered|]. intros ?. apply sure_ret. Qed.
Lemma sure_attempted {X} (m : stateM RunStore StoreError X) : sure (attempted (A:=A) m).
Proof. apply sure_bind; [apply sure_answered|]. intros ?. apply sure_ret. Qed.
Lemma sure_listed {X} (m : stateM RunStore StoreError (list X)) : sure (listed_or_none (A:=A) m).
Proof. apply sure_bind; [apply sure_attempted|]. intros ?. apply sure_ret. Qed.
Lemma sure_each {X} (do : X → stateM Worker WorkerFault unit) l : (∀ x, sure (do x)) → sure (each do l).
Proof. intros Hdo. induction l; cbn [each]; [apply sure_ret|by apply sure_bind]. Qed.
Lemma sure_fault_approval at_ r : sure (fault_approval (A:=A) at_ r).
Proof. unfold fault_approval. case_bool_decide; [apply sure_ignored|apply sure_ret]. Qed.
Lemma sure_fault_call f at_ c : sure (fault_call (A:=A) f at_ c).
Proof.
  unfold fault_call. destruct (is_terminal (call_state c)); [apply sure_ret|]. case_bool_decide; apply sure_ignored.
Qed.
Lemma sure_fault_step f at_ st : sure (fault_step (A:=A) f at_ st).
Proof. unfold fault_step. destruct (is_terminal (step_state st)); [apply sure_ret|apply sure_ignored]. Qed.

(** From [w] the run cannot be ended: it cannot be read; or what is read has not ended, and
    failing it with [f] is refused right then. *)
Definition end_refused (f : WorkerFault) (at_ : OffsetDateTime) (w : Worker) : Prop :=
  (attempted (load (R:=Run) run) w).1 = Ok None ∨
  ∃ record w1 e, attempted (load (R:=Run) run) w = (Ok (Some record), w1) ∧ is_terminal (run_state record) = false ∧
    (answered (fail_run_with_event run (Failure_new (wf_kind f) (wf_message f)) at_ (run_state_event ExecFailed at_)) w1).1
    = Ok (Err e).
Lemma ended_lasts (w w' : Worker) : store_wf (wk_store w) → calmly run w w' → ended run (wk_store w) → ended run (wk_store w').
Proof. intros Hwf [Hs _ _]. by apply (persistent_lasts run _ (ended_persistent run)). Qed.

Lemma attempted_run {X} (m : stateM RunStore StoreError X) w o (w' : Worker) :
  attempted m w = (Ok o, w') → ∃ r, m (others (wk_looks w) (wk_store w)) = (r, wk_store w') ∧
    o = match r with Ok a => Some a | Err _ => None end.
Proof.
  intros (r & w1 & Ha & [-> <-]%ret_Ok)%bindM_Ok. exists r. split; [|done]. unfold answered in Ha.
  destruct (m _) as [r' s'] eqn:Hm. by injection Ha as <- <-.
Qed.
Lemma others_stay n s : store_wf s → store_wf (others n s) ∧ rtc store_step s (others n s).
Proof.
  intros Hwf. pose proof (calm_steps run _ _ (others_calm run n s)) as Hs. split; [|done]. by apply (store_steps_keep s).
Qed.
Lemma ignored_run {X} (m : stateM RunStore StoreError X) w r (w' : Worker) :
  ignored m w = (r, w') → ∃ x, answered m w = (Ok x, w') ∧ m (others (wk_looks w) (wk_store w)) = (x, wk_store w').
Proof.
  unfold ignored, answered, mbind, stateM_bind. destruct (m _) as [x s'] eqn:Hm. intros [= <- <-]. by exists x.
Qed.
Lemma loaded_ended (s s' : RunStore) record :
  load (R:=Run) run s = (Ok record, s') → is_terminal (run_state record) = true → ended run s'.
Proof.
  intros [-> Hr]%with_reader_spec Ht. specialize (Hr record eq_refl).
  destruct (load_row run (rs_tables s)) as [x t] eqn:Hl. cbn in Hr. subst x.
  apply (load_row_Ok (step:=run_step)) in Hl as (_ & Hr & _). by exists record.
Qed.
Lemma fail_this_run_ends f at_ w r (w' : Worker) :
  store_wf (wk_store w) → fail_this_run run f at_ w = (r, w') → ended run (wk_store w') ∨ end_refused f at_ w.
Proof.
  intros Hwf Hrun. unfold fail_this_run in Hrun. unfold end_refused.
  destruct (sure_attempted (load (R:=Run) run) w) as (o & w1 & Hload).
  unfold mbind at 1, stateM_bind at 1 in Hrun. rewrite Hload in Hrun |- *.
  pose proof (calm_attempted run (load (R:=Run) run) (calm_op_ops run _ (conj (op_load_run run) (still_reader _))) _ _ _ Hwf Hload) as Hc1.
  pose proof (proj1 (store_steps_keep _ _ Hwf (calm_steps run _ _ (ca_steps _ _ _ Hc1)))) as Hwf1.
  apply attempted_run in Hload as (x & Hload & ->). destruct x as [record|e]; [|right; by left].
  destruct (is_terminal (run_state record)) eqn:Ht.
  - injection Hrun as <- <-. left. by eapply loaded_ended.
  - apply ignored_run in Hrun as ([x|e] & Ha & Hfail); [left|right; right].
    + eapply run_fails; [|exact Hfail]. by apply others_stay.
    + exists record, w1, e. by rewrite Ha.
Qed.

Lemma sure_evidence f : sure (record_evidence (A:=A) run f).
Proof.
  unfold record_evidence. apply sure_bind; [intros w; by eexists _, _|]. intros at_.
  apply sure_bind; [apply sure_listed|]. intros requests.
  apply sure_bind; [apply sure_each; intros; apply sure_fault_approval|]. intros _.
  apply sure_bind; [apply sure_listed|]. intros calls.
  apply sure_bind; [apply sure_each; intros; apply sure_fault_call|]. intros _.
  apply sure_bind; [apply sure_listed|]. intros steps.
  apply sure_bind; [apply sure_each; intros; apply sure_fault_step|]. intros _.
  apply sure_bind; [apply sure_ignored|]. intros _. apply sure_ret.
Qed.
Lemma record_fault_ends f w r (w' : Worker) :
  store_wf (wk_store w) → record_fault run f w = (r, w') →
  ended run (wk_store w') ∨ ∃ at_ w1, record_evidence run f w = (Ok at_, w1) ∧ end_refused f at_ w1.
Proof.
  intros Hwf Hrun. destruct (sure_evidence f w) as (at_ & w1 & He).
  unfold record_fault, mbind, stateM_bind in Hrun. rewrite He in Hrun |- *.
  pose proof (calm_record_evidence run f _ _ _ Hwf He) as Hc.
  apply fail_this_run_ends in Hrun as [?|Hr]; [by left|right; by exists at_, w1|].
  by apply (store_steps_keep _ _ Hwf), (calm_steps run), Hc.
Qed.

(** *** The worker from its first access to its last *)

Lemma wf_calmly (w w' : Worker) : store_wf (wk_store w) → calmly run w w' → store_wf (wk_store w').
Proof. intros Hwf [Hs _ _]. by apply (store_steps_keep _ _ Hwf), (calm_steps run). Qed.

(** A worker that was just made goes on until its process leaves it, and the run is over or
    the end of it was refused. *)
Lemma drive_goes pid (w : Worker) :
  store_wf (wk_store w) → wk_planned w = [] →
  advances authorized_here w (drive_here pid w) ∧
  (ended run (wk_store (drive_here pid w)) ∨
   ∃ f w1 at_ w2, drive_inner_here (owned pid w) = (Err f, w1) ∧ record_evidence run f w1 = (Ok at_, w2) ∧
     end_refused f at_ w2).
Proof.
  intros Hwf Hp. rewrite drive_eq. pose proof (owned_calmly pid w Hwf) as Ho. pose proof (wf_calmly w _ Hwf Ho) as Hwfo.
  pose proof (calmly_advances run authorized_here _ _ Ho) as Hao.
  destruct (drive_inner_here (owned pid w)) as [r w1] eqn:Hrun.
  destruct (driven (owned pid w) r w1 Hwfo) as [Ha HQ]; [by rewrite (ca_planned _ _ _ Ho)|done|].
  pose proof (wf_advances authorized_here _ _ Hwfo Ha) as Hwf1.
  destruct r as [x|f].
  - pose proof (leave_calmly w1 Hwf1) as Hl. split.
    + etrans; [exact Hao|]. etrans; [exact Ha|]. by apply (calmly_advances run).
    + left. by eapply ended_lasts, HQ.
  - destruct (record_fault run f w1) as [r2 w2] eqn:Hf. cbn [snd].
    pose proof (calm_record_fault run f w1 r2 w2 Hwf1 Hf) as Hc2. pose proof (wf_calmly _ _ Hwf1 Hc2) as Hwf2.
    pose proof (leave_calmly w2 Hwf2) as Hl. split.
    + etrans; [exact Hao|]. etrans; [exact Ha|]. etrans; by eapply calmly_advances.
    + destruct (record_fault_ends f w1 r2 w2 Hwf1 Hf) as [He|(at_ & w3 & He & Hr)]; [left; by eapply ended_lasts|].
      right. by exists f, w1, at_, w3.
Qed.

(** C7. However its agent, its tools, the people it asks, the other threads and the disk
    behave, a driven run has ended when its worker leaves it; unless the worker failed and,
    once the evidence of that was recorded, the run could not be read, or had not ended and
    the store refused the failure written there and then as its end. *)
Theorem driven_run_ends pid s cursor (agent : A) :
  store_wf s →
  let w := Worker_new s cursor agent in
  ended run (wk_store (drive_here pid w)) ∨
  ∃ f w1 at_ w2, drive_inner_here (owned pid w) = (Err f, w1) ∧ record_evidence run f w1 = (Ok at_, w2) ∧
    end_refused f at_ w2.
Proof. intros Hwf w. by apply (drive_goes pid w Hwf). Qed.

(** C5. Every call the worker handed to the scheduler was authorized in the store of that
    moment: a recorded verdict allowed its evaluated request, or it was bound to an approval
    the store holds as granted, or a recorded grant covered it. *)
Theorem served_calls_are_authorized pid s cursor (agent : A) :
  store_wf s → Forall authorized_here (wk_served (drive_here pid (Worker_new s cursor agent))).
Proof.
  intros Hwf. destruct (drive_goes pid (Worker_new s cursor agent) Hwf eq_refl) as [[_ (l & -> & Hl)] _]. exact Hl.
Qed.

(** C6. A run without an open step or call that its worker drives to its end without a fault
    is left ended, with no step and no call of it open. *)
Theorem driven_run_leaves_nothing_open pid s cursor (agent : A) :
  store_wf s → over_steps run [] s → over_calls run [] s →
  let w := Worker_new s cursor agent in
  (drive_inner_here (owned pid w)).1 = Ok tt →
  let s' := wk_store (drive_here pid w) in
  ended run s' ∧ over_steps run [] s' ∧ over_calls run [] s'.
Proof.
  intros Hwf Hs Hc w Hok s'. pose proof (owned_calmly pid w Hwf) as Ho. pose proof (wf_calmly w _ Hwf Ho) as Hwfo.
  assert (Open (A:=A) run [] [] [] [] (owned pid w)) as HO.
  { apply (stable_open run [] [] [] [] w (owned pid w) Hwf Ho). split; cbn; [done|done|]. by intros id ?%not_elem_of_nil. }
  subst s'. rewrite drive_eq. destruct (drive_inner_here (owned pid w)) as [r w1] eqn:Hrun. cbn in Hok. subst r.
  destruct (does_drive_inner descriptor run task workspace workspace_key workspace_metadata policy cancellation registry
    [] [] _ _ _ Hwfo HO Hrun) as [Ha HQ].
  pose proof (wf_advances _ _ _ Hwfo Ha) as Hwf1.
  by destruct (stable_finished run [] [] _ _ Hwf1 (leave_calmly w1 Hwf1) (HQ tt eq_refl)).
Qed.
(** Failing the run with a reason longer than a column of the store holds is a fault of the
    worker. *)
Lemma long_reason_is_a_fault o reason text (w : Worker) :
  failure_json reason = Ok text →
  (MAX_INLINE_PAYLOAD_BYTES < N.of_nat (String.length (redact_text text)))%N →
  ∃ f, (act_here o (FailRun reason) w).1 = Err f.
Proof.
  intros Htext Hlong. destruct (act _ _ _ _ _ _ _ o (FailRun reason) w) as [[x|f] w'] eqn:Hrun; [|by exists f].
  exfalso. cbn [act] in Hrun. rewrite Htext in Hrun.
  apply bindM_Ok in Hrun as (u & w1 & _ & (at_ & w2 & _ & (v & w3 & Hfail & _)%bindM_Ok)%bindM_Ok).
  apply bindM_Ok in Hfail as (y & w4 & Ha & [Hy _]%lift_Ok). unfold answered in Ha.
  destruct (fail_run_with_event _ _ _ _ _) as [z s'] eqn:Hop in Ha. injection Ha as <- _.
  destruct z as [z|e]; [|discriminate Hy]. apply failed_run_fits, failure_fits in Hop. lia.
Qed.
End driven.

(** ** A concrete run *)

(** Two agents: one asks for a tool and completes, the other panics. *)
Definition demo_agent_turn (o : Observation unit) (n : nat) : result string AgentAction * nat :=
  match n with
  | 0 => (Ok (Worker.Plan ["read"]), 1)
  | 1 => (Ok (CallTool (MkToolId "fs.read") (demo_version 1 false) (demo_value "{}")), 2)
  | 2 => (Ok (CompleteRun "done"), 3)
  | _ => (Err "no more turns", n)
  end.
#[export] Instance demo_agent : Agent unit nat := {
  next_action := demo_agent_turn;
  agent_state n := Ok (demo_value "{}");
}.
#[export] Instance demo_texts : WorkerTexts unit := {
  observation_payload _ := Ok (demo_value "{}");
  action_payload _ := Ok (demo_value "{}");
  failure_json f := Ok match f with AgentFailed reason => reason | _ => "{}" end;
  decision_json _ := demo_value "{}";
  store_text _ := "store";
  approval_text _ := "approval";
}.
#[export] Instance demo_surroundings : Surroundings ToolDescriptor unit :=
  with_scheduler id demo_reading demo_alone.
Definition demo_queued : RunStore := ran (insert_run demo_first) (ran (insert_task demo_task) RunStore_empty).
Definition demo_workspace_key : WorkspaceKey := MkWorkspaceKey (MkProjectId (demo_uuid 6)) ["src"].
Definition demo_worker (agent : nat) : Worker.Worker (A:=nat) := Worker_new demo_queued None agent.
Abbreviation demo_drive := (drive id demo_run_id demo_task (MkWorkspaceRef None "/src") demo_workspace_key None
  demo_engine 0 (te_registry demo_reading)).
Abbreviation demo_drive_inner := (drive_inner id demo_run_id demo_task (MkWorkspaceRef None "/src") demo_workspace_key None
  demo_engine 0 (te_registry demo_reading)).
Definition demo_left (agent : nat) : RunStore := wk_store (demo_drive 7 (demo_worker agent)).

Lemma demo_queued_wf : store_wf demo_queued.
Proof.
  apply (store_steps_keep _ _ store_wf_empty).
  eapply rtc_l; [apply (ran_step _ _ (op_insert_task demo_task))|].
  apply rtc_once, (ran_step _ _ (op_insert_run demo_first demo_first_wf)).
Qed.
#[export] Instance demo_laws : SurroundingsLaws demo_run_id.
Proof.
  split; [done| |]; cbn [serve demo_surroundings with_scheduler]; unfold served_by.
  - intros n sd s. destruct (ticketed id demo_reading n sd s) as [r s'] eqn:Hrun. by eapply ticketed_calmly.
  - intros n sd s completed s' Hwf. destruct (ticketed id demo_reading n sd s) as [r s1] eqn:Hrun.
    destruct r as [d|e]; intros [= <- <-]. by eapply ticketed_over.
Qed.

(** The agent panics: its run has failed with that. *)
Lemma driven_run_ends_witness :
  answers (demo_drive_inner (owned demo_run_id 7 (demo_worker 3))).1 = false ∧
  (ended demo_run_id (demo_left 3) ∨
   ∃ f w1 at_ w2, demo_drive_inner (owned demo_run_id 7 (demo_worker 3)) = (Err f, w1) ∧
    record_evidence demo_run_id f w1 = (Ok at_, w2) ∧ end_refused demo_run_id f at_ w2).
Proof.
  split; [reflexivity|].
  exact (driven_run_ends id demo_run_id demo_task (MkWorkspaceRef None "/src") demo_workspace_key None demo_engine 0
    (te_registry demo_reading) 7 demo_queued None 3 demo_queued_wf).
Defined.

(** One call is handed over, under a verdict that allows it. *)
Lemma served_calls_are_authorized_witness :
  length (wk_served (demo_drive 7 (demo_worker 0))) = 1 ∧
  Forall (authorized id demo_run_id demo_workspace_key demo_engine (te_registry demo_reading))
    (wk_served (demo_drive 7 (demo_worker 0))).
Proof.
  split; [reflexivity|].
  exact (served_calls_are_authorized id demo_run_id demo_task (MkWorkspaceRef None "/src") demo_workspace_key None
    demo_engine 0 (te_registry demo_reading) 7 demo_queued None 0 demo_queued_wf).
Defined.

(** The run plans a step, reads in it, and completes. *)
Lemma driven_run_leaves_nothing_open_witness :
  ended demo_run_id (demo_left 0) ∧ over_steps demo_run_id [] (demo_left 0) ∧ over_calls demo_run_id [] (demo_left 0).
Proof.
  apply (driven_run_leaves_nothing_open id demo_run_id demo_task (MkWorkspaceRef None "/src") demo_workspace_key None
    demo_engine 0 (te_registry demo_reading) 7 demo_queued None 0 demo_queued_wf).
  - intros i st Hst. change (tb_steps (rs_tables demo_queued)) with (∅ : gmap StepId Step) in Hst. by rewrite lookup_empty in Hst.
  - intros i c Hc. change (tb_calls (rs_tables demo_queued)) with (∅ : gmap ToolCallId ToolCall) in Hc. by rewrite lookup_empty in Hc.
  - reflexivity.
Defined.
