(* ===== verification/Status.v ===== *)
(** * The status of a repository

    [src/crates/harkness-git/src/status.rs]: the parser of what [git status
    --porcelain=v2 --branch -z] prints, and the projection of libgit2's status flags that
    the read tool uses instead.  A path is its bytes and a name the bytes of its text.  The
    theorems are against the grammar Git documents for the format, as a printer. *)

From Stdlib Require Import ZArith ZifyN ZifyBool.
From stdpp Require Import base list strings pretty.
From S2P Require Import Prelude Text Canonical Hunk.

(** ** What the source uses of the standard library *)

Section std.
Local Open Scope N_scope.

(** [slice::split]: one more piece than there are separators. *)
Fixpoint split_on (sep : N) (bytes : list N) : list (list N) :=
  match bytes with
  | [] => [[]]
  | b :: bytes =>
    if b =? sep then [] :: split_on sep bytes
    else match split_on sep bytes with
         | [] => [[b]]
         | piece :: pieces => (b :: piece) :: pieces
         end
  end.
(** What stands before the first separator, and what after it. *)
Fixpoint cut_at (sep : N) (bytes : list N) : list N * option (list N) :=
  match bytes with
  | [] => ([], None)
  | b :: bytes =>
    if b =? sep then ([], Some bytes)
    else let '(before, after) := cut_at sep bytes in (b :: before, after)
  end.
(** [slice::splitn], and [str::splitn] at an ASCII character. *)
Fixpoint splitn (n : nat) (sep : N) (bytes : list N) : list (list N) :=
  match n with
  | 0%nat => []
  | 1%nat => [bytes]
  | S n =>
    match cut_at sep bytes with
    | (before, Some after) => before :: splitn n sep after
    | (before, None) => [before]
    end
  end.

(** [String::from_utf8_lossy]: each ill-formed part becomes one replacement character. *)
Definition REPLACEMENT : list N := [0xEF; 0xBF; 0xBD].
Fixpoint lossy_loop (fuel : nat) (bytes : list N) : list N :=
  match fuel, bytes with
  | 0%nat, _ | _, [] => []
  | S fuel, _ =>
    match decode1 bytes with
    | Char c rest => c ++ lossy_loop fuel rest
    | CutOff => REPLACEMENT
    | Bad n => REPLACEMENT ++ lossy_loop fuel (drop n bytes)
    end
  end.
Definition from_utf8_lossy (bytes : list N) : list N := lossy_loop (length bytes) bytes.

(** [str::split_whitespace], over the characters with the [White_Space] property. *)
Definition space_len (bytes : list N) : nat :=
  match bytes with
  | b :: _ =>
    if is_blank_bytes (take 1 bytes) then 1
    else if (0xC2 <=? b)%N && is_blank_bytes (take 2 bytes) then 2
    else if (0xE0 <=? b)%N && is_blank_bytes (take 3 bytes) then 3
    else 0
  | [] => 0
  end%nat.
Definition flush (word : list N) : list (list N) := if decide (word = []) then [] else [word].
Fixpoint words (fuel : nat) (bytes word : list N) : list (list N) :=
  match fuel, bytes with
  | 0%nat, _ | _, [] => flush word
  | S fuel, b :: rest =>
    match space_len bytes with
    | 0%nat => words fuel rest (word ++ [b])
    | n => flush word ++ words fuel (drop n bytes) []
    end
  end.
Definition split_whitespace (bytes : list N) : list (list N) := words (length bytes) bytes [].

Definition strip_prefix (c : N) (bytes : list N) : option (list N) :=
  match bytes with
  | b :: rest => if b =? c then Some rest else None
  | [] => None
  end.
(** [usize::from_str], where it has 64 bits; a leading plus is part of a number. *)
Definition USIZE_LIMIT : N := 2 ^ 64 - 1.
Definition decimal (bytes : list N) : N := foldl (λ n b, 10 * n + (b - 48)) 0 bytes.
Definition parse_usize (bytes : list N) : option N :=
  let digits := match strip_prefix 43 bytes with Some rest => rest | None => bytes end in
  if bool_decide (digits = []) || negb (forallb digit digits) then None
  else if decimal digits <=? USIZE_LIMIT then Some (decimal digits) else None.
(** [char::from] of a byte, in UTF-8. *)
Definition char_from (b : N) : list N :=
  if b <? 0x80 then [b] else [0xC0 + b / 64; 0x80 + b mod 64].
End std.

(** ** What a status says *)

Record UpstreamStatus := MkUpstreamStatus { us_name : list N; us_ahead : N; us_behind : N }.
Inductive HeadState :=
| Unborn (branch : option (list N))
| OnBranch (name : list N)
| Detached (commit : list N).
Record StatusEntry := MkStatusEntry {
  se_path : list N;
  se_staged : option FileChange;
  se_unstaged : option FileChange;
  se_rename_source : option (list N);
  se_conflicted : bool;
}.
(** [pending] is what [detailed] fills in from the repository. *)
Record DetailedStatus {P : Type} := MkDetailedStatus {
  ds_head : HeadState;
  ds_upstream : option UpstreamStatus;
  ds_pending : option P;
  ds_entries : list StatusEntry;
}.
Arguments DetailedStatus : clear implicits.
Definition has_conflicts {P} (s : DetailedStatus P) : bool := existsb se_conflicted (ds_entries s).

Inductive StatusError := MalformedStatus (detail : list N).
Definition malformed {A} (detail : list N) : result StatusError A := Err (MalformedStatus detail).

(** ** The parser *)

Definition INITIAL_COMMIT : list N := lit "(initial)".
Definition DETACHED_HEAD : list N := lit "(detached)".
Definition ORDINARY_FIELDS : nat := 9.
Definition RENAME_FIELDS : nat := 10.
Definition UNMERGED_FIELDS : nat := 11.
Definition UNTRACKED_FIELDS : nat := 2.

(** What the headers said so far. *)
Record Headers := MkHeaders {
  hd_oid : option (list N);
  hd_head_name : option (list N);
  hd_upstream_name : option (list N);
  hd_ahead_behind : option (N * N);
}.
Definition Headers_empty : Headers := MkHeaders None None None None.

Definition parse_ahead_behind (value : list N) : result StatusError (N * N) :=
  let counts := split_whitespace value in
  let count c (word : option (list N)) := (word ≫= strip_prefix c) ≫= parse_usize in
  match count 43%N (counts !! 0), count 45%N (counts !! 1) with
  | Some ahead, Some behind => Ok (ahead, behind)
  | _, _ => malformed (lit "'# branch.ab " ++ value ++ lit "' is not a divergence pair")
  end.
Definition parse_header (record : list N) (h : Headers) : result StatusError Headers :=
  match splitn 3 32 (from_utf8_lossy record) with
  | mark :: key :: rest =>
    let value := default [] (head rest) in
    if negb (bool_decide (mark = lit "#")) then Ok h
    else if bool_decide (key = lit "branch.oid") then
      Ok (MkHeaders (Some value) (hd_head_name h) (hd_upstream_name h) (hd_ahead_behind h))
    else if bool_decide (key = lit "branch.head") then
      Ok (MkHeaders (hd_oid h) (Some value) (hd_upstream_name h) (hd_ahead_behind h))
    else if bool_decide (key = lit "branch.upstream") then
      Ok (MkHeaders (hd_oid h) (hd_head_name h) (Some value) (hd_ahead_behind h))
    else if bool_decide (key = lit "branch.ab") then
      pair ← parse_ahead_behind value;
      Ok (MkHeaders (hd_oid h) (hd_head_name h) (hd_upstream_name h) (Some pair))
    else Ok h
  | _ => Ok h
  end.

Definition change_kind (code : N) : result StatusError (option FileChange) :=
  (if code =? 46 then Ok None
   else if code =? 65 then Ok (Some Added)
   else if code =? 77 then Ok (Some Modified)
   else if code =? 68 then Ok (Some Deleted)
   else if code =? 82 then Ok (Some Renamed)
   else if code =? 67 then Ok (Some Copied)
   else if code =? 84 then Ok (Some TypeChanged)
   else if code =? 85 then Ok (Some Unmerged)
   else malformed (lit "unknown change code '" ++ char_from code ++ lit "'"))%N.
Definition change_kinds (field : list N) : result StatusError (option FileChange * option FileChange) :=
  match field with
  | [staged; unstaged] =>
    staged ← change_kind staged;
    unstaged ← change_kind unstaged;
    Ok (staged, unstaged)
  | _ => malformed (lit "'" ++ from_utf8_lossy field ++ lit "' is not a two-letter change field")
  end.
(** The indices of the source are within its fields: there are as many as were asked for. *)
Definition field (i : nat) (fields : list (list N)) : list N := default [] (fields !! i).
Definition split_record (record : list N) (fields : nat) : result StatusError (list (list N)) :=
  let split := splitn fields 32 record in
  if negb (length split =? fields) || bool_decide (field (fields - 1) split = []) then
    malformed (lit "status record '" ++ from_utf8_lossy record ++ lit "' does not have "
               ++ lit (pretty fields) ++ lit " fields")
  else Ok split.

Definition parse_changed (record : list N) (fields : nat) (rename_source : option (list N))
    : result StatusError StatusEntry :=
  split ← split_record record fields;
  kinds ← change_kinds (field 1 split);
  Ok (MkStatusEntry (field (length split - 1) split) kinds.1 kinds.2 rename_source false).
Definition parse_unmerged (record : list N) : result StatusError StatusEntry :=
  split ← split_record record UNMERGED_FIELDS;
  kinds ← change_kinds (field 1 split);
  Ok (MkStatusEntry (field (UNMERGED_FIELDS - 1) split) kinds.1 kinds.2 None true).
Definition parse_untracked (record : list N) : result StatusError StatusEntry :=
  split ← split_record record UNTRACKED_FIELDS;
  Ok (MkStatusEntry (field (UNTRACKED_FIELDS - 1) split) None (Some Untracked) None false).

(** The loop over the records: a rename takes the one after it too. *)
Fixpoint parse_records (records : list (list N)) (h : Headers) (entries : list StatusEntry)
    : result StatusError (Headers * list StatusEntry) :=
  match records with
  | [] => Ok (h, entries)
  | [] :: records => parse_records records h entries
  | ((mark :: _) as record) :: records =>
    if (mark =? 35)%N then h ← parse_header record h; parse_records records h entries
    else if (mark =? 49)%N then
      e ← parse_changed record ORDINARY_FIELDS None; parse_records records h (entries ++ [e])
    else if (mark =? 50)%N then
      match records with
      | ((_ :: _) as source) :: records =>
        e ← parse_changed record RENAME_FIELDS (Some source); parse_records records h (entries ++ [e])
      | _ => malformed (lit "a rename record is missing its source path")
      end
    else if (mark =? 117)%N then e ← parse_unmerged record; parse_records records h (entries ++ [e])
    else if (mark =? 63)%N then e ← parse_untracked record; parse_records records h (entries ++ [e])
    else if (mark =? 33)%N then parse_records records h entries
    else malformed (lit "unknown status record '" ++ from_utf8_lossy record ++ lit "'")
  end.
Definition head_of (oid head_name : list N) : HeadState :=
  if bool_decide (oid = INITIAL_COMMIT) then
    Unborn (if bool_decide (head_name = DETACHED_HEAD) then None else Some head_name)
  else if bool_decide (head_name = DETACHED_HEAD) then Detached oid
  else OnBranch head_name.
Definition upstream_of (h : Headers) : option UpstreamStatus :=
  (λ name, let '(ahead, behind) := default (0, 0)%N (hd_ahead_behind h) in MkUpstreamStatus name ahead behind)
    <$> hd_upstream_name h.
Definition parse_porcelain_v2 {P} (output : list N) : result StatusError (DetailedStatus P) :=
  read ← parse_records (split_on 0 output) Headers_empty [];
  let '(h, entries) := read in
  match hd_oid h, hd_head_name h with
  | Some oid, Some head_name => Ok (MkDetailedStatus P (head_of oid head_name) (upstream_of h) None entries)
  | _, _ => malformed (lit "the status output carries no '# branch.oid' and '# branch.head' pair")
  end.

(** ** The projection of libgit2's flags *)

Record StatusFlags := MkStatusFlags {
  INDEX_NEW : bool; INDEX_MODIFIED : bool; INDEX_DELETED : bool; INDEX_RENAMED : bool; INDEX_TYPECHANGE : bool;
  WT_NEW : bool; WT_MODIFIED : bool; WT_DELETED : bool; WT_RENAMED : bool; WT_TYPECHANGE : bool;
  CONFLICTED : bool;
}.
Definition staged_change (status : StatusFlags) : option FileChange :=
  if INDEX_NEW status then Some Added
  else if INDEX_MODIFIED status then Some Modified
  else if INDEX_DELETED status then Some Deleted
  else if INDEX_RENAMED status then Some Renamed
  else if INDEX_TYPECHANGE status then Some TypeChanged
  else None.
Definition unstaged_change (status : StatusFlags) : option FileChange :=
  if WT_NEW status then Some Untracked
  else if WT_MODIFIED status then Some Modified
  else if WT_DELETED status then Some Deleted
  else if WT_RENAMED status then Some Renamed
  else if WT_TYPECHANGE status then Some TypeChanged
  else None.
Definition is_staged (status : StatusFlags) : bool :=
  INDEX_NEW status || INDEX_MODIFIED status || INDEX_DELETED status || INDEX_RENAMED status || INDEX_TYPECHANGE status.
Definition is_unstaged (status : StatusFlags) : bool :=
  WT_MODIFIED status || WT_DELETED status || WT_RENAMED status || WT_TYPECHANGE status || CONFLICTED status.

(** The counts of [inspect]. *)
Record GitStatus := MkGitStatus {
  gs_branch : option (list N);
  gs_dirty : bool;
  gs_upstream : option UpstreamStatus;
  gs_staged : nat;
  gs_unstaged : nat;
}.
Definition inspect (branch : option (list N)) (upstream : option UpstreamStatus) (statuses : list StatusFlags) : GitStatus :=
  MkGitStatus branch (negb (bool_decide (length statuses = 0))) upstream
    (length (filter (λ status, is_staged status = true) statuses))
    (length (filter (λ status, is_unstaged status = true) statuses)).

(** A delta's old and new path, as libgit2 has them. *)
Record Delta := MkDelta { dl_old : option (list N); dl_new : option (list N) }.
Record RawEntry := MkRawEntry {
  rw_path : list N;
  rw_status : StatusFlags;
  rw_head_to_index : option Delta;
  rw_index_to_workdir : option Delta;
}.
Definition renamed_delta (e : RawEntry) : option Delta :=
  if INDEX_RENAMED (rw_status e) then rw_head_to_index e
  else if WT_RENAMED (rw_status e) then rw_index_to_workdir e
  else None.
Definition project_entry (copy_sources : list N → option (list N)) (e : RawEntry) : StatusEntry :=
  let flags := rw_status e in
  let path := default (rw_path e) (renamed_delta e ≫= dl_new) in
  MkStatusEntry path
    (if CONFLICTED flags then Some Unmerged
     else match copy_sources path with Some _ => Some Copied | None => staged_change flags end)
    (if CONFLICTED flags then Some Unmerged else unstaged_change flags)
    (match copy_sources path with Some source => Some source | None => renamed_delta e ≫= dl_old end)
    (CONFLICTED flags).

(** The walk asks whether it was cancelled before each entry; [None] when it was. *)
Fixpoint project_each (cancelled : nat → bool) (poll : nat) (copy_sources : list N → option (list N)) (l : list RawEntry)
    : option (list StatusEntry) :=
  match l with
  | [] => Some []
  | e :: l =>
    if cancelled poll then None
    else (λ es, project_entry copy_sources e :: es) <$> project_each cancelled (S poll) copy_sources l
  end.
Record DetailedStatusPage {P : Type} := MkDetailedStatusPage { dp_status : DetailedStatus P; dp_omitted_entries : nat }.
Arguments DetailedStatusPage : clear implicits.
(** From an opened repository, whose head, upstream, copies and pending operation were read. *)
Definition detailed_in_process_bounded {P} (cancelled : nat → bool) (head : HeadState) (upstream : option UpstreamStatus)
    (pending : option P) (copy_sources : list N → option (list N)) (statuses : list RawEntry) (maximum_entries : nat)
    : option (DetailedStatusPage P) :=
  if cancelled 0 then None
  else
    let retained := length statuses `min` maximum_entries in
    (λ entries, MkDetailedStatusPage P (MkDetailedStatus P head upstream pending entries) (length statuses - retained))
      <$> project_each cancelled 1 copy_sources (take maximum_entries statuses).

(** ** What Git prints *)

Definition join (sep : N) (fields : list (list N)) : list N :=
  match fields with
  | [] => []
  | f :: fields => f ++ concat ((λ f, sep :: f) <$> fields)
  end.
Definition code_of (c : option FileChange) : N :=
  match c with
  | None => 46
  | Some Added => 65 | Some Modified => 77 | Some Deleted => 68 | Some Renamed => 82
  | Some Copied => 67 | Some TypeChanged => 84 | Some Unmerged => 85 | Some Untracked => 63
  end%N.
(** The records of the format; [meta] is the submodule state, modes, names and scores. *)
Inductive FileRecord :=
| Ordinary (staged unstaged : option FileChange) (meta : list (list N)) (path : list N)
| Moved (staged unstaged : option FileChange) (meta : list (list N)) (path source : list N)
| Conflict (staged unstaged : option FileChange) (meta : list (list N)) (path : list N)
| New (path : list N)
| Ignored (path : list N).
Definition letters (staged unstaged : option FileChange) : list N := [code_of staged; code_of unstaged].
Definition lines_of (r : FileRecord) : list (list N) :=
  match r with
  | Ordinary x y meta path => [join 32 (lit "1" :: letters x y :: meta ++ [path])]
  | Moved x y meta path source => [join 32 (lit "2" :: letters x y :: meta ++ [path]); source]
  | Conflict x y meta path => [join 32 (lit "u" :: letters x y :: meta ++ [path])]
  | New path => [join 32 [lit "?"; path]]
  | Ignored path => [join 32 [lit "!"; path]]
  end.
Definition entry_of (r : FileRecord) : list StatusEntry :=
  match r with
  | Ordinary x y _ path => [MkStatusEntry path x y None false]
  | Moved x y _ path source => [MkStatusEntry path x y (Some source) false]
  | Conflict x y _ path => [MkStatusEntry path x y None true]
  | New path => [MkStatusEntry path None (Some Untracked) None false]
  | Ignored _ => []
  end.
Record Report := MkReport {
  rp_head : HeadState;
  rp_commit : list N;
  rp_upstream : option (list N * option (N * N));
  rp_files : list FileRecord;
}.
Definition oid_of (r : Report) : list N :=
  match rp_head r with Unborn _ => INITIAL_COMMIT | OnBranch _ => rp_commit r | Detached commit => commit end.
Definition name_of (r : Report) : list N :=
  match rp_head r with Unborn (Some b) | OnBranch b => b | Unborn None | Detached _ => DETACHED_HEAD end.
Definition header (key : string) (value : list N) : list N := lit "# " ++ lit key ++ lit " " ++ value.
Definition header_lines (r : Report) : list (list N) :=
  [header "branch.oid" (oid_of r); header "branch.head" (name_of r)] ++
  match rp_upstream r with
  | None => []
  | Some (name, None) => [header "branch.upstream" name]
  | Some (name, Some (ahead, behind)) =>
    [header "branch.upstream" name; header "branch.ab" (lit ("+" +:+ pretty ahead +:+ " -" +:+ pretty behind))]
  end.
Definition print (r : Report) : list N :=
  concat ((λ line, line ++ [0%N]) <$> header_lines r ++ concat (lines_of <$> rp_files r)).
Definition status_of {P} (r : Report) : DetailedStatus P :=
  MkDetailedStatus P (rp_head r)
    ((λ u, let '(ahead, behind) := default (0, 0)%N u.2 in MkUpstreamStatus u.1 ahead behind) <$> rp_upstream r)
    None (concat (entry_of <$> rp_files r)).

(** A field has no separator; a path may have spaces and bytes of no text. *)
Definition token (f : list N) : Prop := 32%N ∉ f ∧ 0%N ∉ f.
Definition path_ok (p : list N) : Prop := p ≠ [] ∧ 0%N ∉ p.
Definition name_ok (n : list N) : Prop := valid n ∧ 0%N ∉ n.
Definition tracked (c : option FileChange) : Prop := c ≠ Some Untracked.
Definition record_ok (r : FileRecord) : Prop :=
  match r with
  | Ordinary x y meta path => tracked x ∧ tracked y ∧ length meta = 6 ∧ Forall token meta ∧ path_ok path
  | Moved x y meta path source =>
    tracked x ∧ tracked y ∧ length meta = 7 ∧ Forall token meta ∧ path_ok path ∧ path_ok source
  | Conflict x y meta path => tracked x ∧ tracked y ∧ length meta = 8 ∧ Forall token meta ∧ path_ok path
  | New path | Ignored path => path_ok path
  end.
Definition head_ok (r : Report) : Prop :=
  match rp_head r with
  | Unborn None => True
  | Unborn (Some b) => name_ok b ∧ b ≠ DETACHED_HEAD
  | OnBranch b => name_ok b ∧ b ≠ DETACHED_HEAD ∧ name_ok (rp_commit r) ∧ rp_commit r ≠ INITIAL_COMMIT
  | Detached commit => name_ok commit ∧ commit ≠ INITIAL_COMMIT
  end.
Definition upstream_ok (r : Report) : Prop :=
  match rp_upstream r with
  | None => True
  | Some (name, counts) =>
    name_ok name ∧ match counts with Some (a, b) => (a <= USIZE_LIMIT ∧ b <= USIZE_LIMIT)%N | None => True end
  end.
Definition report_ok (r : Report) : Prop := head_ok r ∧ upstream_ok r ∧ Forall record_ok (rp_files r).
