(* ===== verification/StatusSafety.v ===== *)
(** * What is read of a printed status

    What Git prints by the grammar of the format is read back as it was; and the projection
    of the flags of the index and the working tree. *)

From Stdlib Require Import Ascii ZArith ZifyN ZifyBool.
From stdpp Require Import base list sets strings pretty.
From S2P Require Import Prelude Text Canonical Hunk Status.

(** ** Splitting *)

Lemma split_on_piece sep p bytes : sep ∉ p → split_on sep (p ++ sep :: bytes) = p :: split_on sep bytes.
Proof.
  induction p as [|b p IH]; cbn [app split_on]; intros Hp; [by rewrite N.eqb_refl|].
  apply not_elem_of_cons in Hp as [Hb Hp]. rewrite (proj2 (N.eqb_neq b sep)) by done. by rewrite IH.
Qed.
Lemma split_on_terminated sep l :
  Forall (λ p, sep ∉ p) l → split_on sep (concat ((λ p, p ++ [sep]) <$> l)) = l ++ [[]].
Proof.
  induction 1 as [|p l Hp _ IH]; [done|]. cbn [fmap list_fmap concat app]. rewrite <- app_assoc.
  cbn [app]. by rewrite split_on_piece, IH.
Qed.
Lemma cut_at_app sep p bytes : sep ∉ p → cut_at sep (p ++ sep :: bytes) = (p, Some bytes).
Proof.
  induction p as [|b p IH]; cbn [app cut_at]; intros Hp; [by rewrite N.eqb_refl|].
  apply not_elem_of_cons in Hp as [Hb Hp]. rewrite (proj2 (N.eqb_neq b sep)) by done. by rewrite IH.
Qed.
Lemma join_cons sep f g fields : join sep (f :: g :: fields) = f ++ sep :: join sep (g :: fields).
Proof. done. Qed.
Lemma splitn_more n sep before after bytes :
  cut_at sep bytes = (before, Some after) → splitn (S (S n)) sep bytes = before :: splitn (S n) sep after.
Proof. intros Hc. cbn [splitn]. by rewrite Hc. Qed.
(** As many fields as were joined, the last with whatever it holds. *)
Lemma splitn_join sep fields last :
  Forall (λ f, sep ∉ f) fields → splitn (S (length fields)) sep (join sep (fields ++ [last])) = fields ++ [last].
Proof.
  induction 1 as [|f fields Hf _ IH]; [cbn; by rewrite app_nil_r|].
  destruct (fields ++ [last]) as [|g gs] eqn:Hg; [by destruct fields|]. cbn [app length]. rewrite Hg, join_cons.
  erewrite splitn_more by by apply cut_at_app. by rewrite IH.
Qed.

(** ** Text *)

Lemma decode1_Bad_some bytes n : decode1 bytes = Bad n → 0 < n.
Proof. unfold decode1. repeat (case_match; try done); intros [= <-]; lia. Qed.
Lemma lossy_fuel : ∀ fuel fuel' bytes,
  length bytes ≤ fuel → length bytes ≤ fuel' → lossy_loop fuel bytes = lossy_loop fuel' bytes.
Proof.
  induction fuel as [|fuel IH]; intros [|fuel'] [|b bytes] H1 H2; try done; [cbn in *; lia..|].
  cbn [lossy_loop]. destruct (decode1 (b :: bytes)) as [c rest| |n] eqn:Hd; [| done|].
  - apply decode1_Char in Hd as [Hb Hc]. f_equal. apply IH; rewrite Hb, length_app in *; lia.
  - f_equal. assert (0 < n) as Hn by by apply decode1_Bad_some in Hd.
    apply IH; rewrite length_drop; cbn in *; lia.
Qed.
Lemma lossy_valid text : valid text → from_utf8_lossy text = text.
Proof.
  induction text as [text IH] using (induction_ltof1 _ length). unfold ltof in IH. unfold valid. rewrite scan_eq.
  destruct text as [|b text]; [done|]. unfold from_utf8_lossy. cbn [length lossy_loop].
  destruct (decode1 (b :: text)) as [c rest| |n] eqn:Hd; [|done..].
  apply decode1_Char in Hd as [Hb Hc]. destruct (scan rest) as [t stop] eqn:Hs. intros [= Ht ->].
  rewrite Hb in Ht |- *. apply app_inv_head in Ht as ->. f_equal.
  rewrite (lossy_fuel _ (length rest)); [|apply (f_equal length) in Hb; rewrite length_app in Hb; cbn in Hb; lia|lia].
  apply IH; [|exact Hs]. rewrite Hb, length_app. lia.
Qed.

(** ** Numbers *)

Lemma decimal_go x : ∀ s, foldl (λ n b, 10 * n + (b - 48))%N 0%N (lit (pretty_N_go x s)) = foldl (λ n b, 10 * n + (b - 48))%N x (lit s).
Proof.
  induction (N.lt_wf_0 x) as [x _ IH]. intros s. destruct (decide (x = 0)%N) as [->|Hx]; [by rewrite pretty_N_go_0|].
  rewrite pretty_N_go_step, IH by (try apply N.div_lt; lia). unfold lit. cbn [utf8_bytes String.list_ascii_of_string fmap list_fmap foldl].
  f_equal. assert (N_of_ascii (pretty_N_char (x mod 10)) = 48 + x mod 10)%N as ->.
  { pose proof (N.mod_lt x 10 ltac:(done)) as Hm. generalize dependent (x mod 10)%N. intros m Hm.
    assert (m = 0 ∨ m = 1 ∨ m = 2 ∨ m = 3 ∨ m = 4 ∨ m = 5 ∨ m = 6 ∨ m = 7 ∨ m = 8 ∨ m = 9)%N as Hcases by lia.
    by destruct_or? Hcases; subst. }
  pose proof (N.div_mod x 10 ltac:(done)). lia.
Qed.
Lemma decimal_pretty (n : N) : decimal (lit (pretty n)) = n.
Proof.
  unfold decimal, pretty, pretty_N. destruct (decide (n = 0)%N) as [->|Hn]; [done|]. by rewrite decimal_go.
Qed.
Lemma parse_usize_pretty (n : N) : (n <= USIZE_LIMIT)%N → parse_usize (lit (pretty n)) = Some n.
Proof.
  intros Hn. destruct (pretty_N_digits n) as [Hd Hne]. change utf8_bytes with lit in Hd, Hne. unfold parse_usize.
  assert (strip_prefix 43 (lit (pretty n)) = None) as ->.
  { destruct (lit (pretty n)) as [|b l]; [done|]. inversion Hd as [|? ? Hb]; subst. cbn. destruct (N.eqb_spec b 43); [by subst|done]. }
  rewrite bool_decide_eq_false_2 by done.
  assert (forallb digit (lit (pretty n)) = true) as ->.
  { apply forallb_forall. intros b Hb. rewrite list.Forall_forall in Hd. apply Hd. by apply list_elem_of_In. }
  cbn [negb orb]. rewrite decimal_pretty. by rewrite (proj2 (N.leb_le _ _)).
Qed.

(** A byte that stands for itself in a word. *)
Definition graphic (b : N) : Prop := (33 <= b <= 126)%N.
Lemma graphic_no_space b rest : graphic b → space_len (b :: rest) = 0.
Proof.
  intros Hb. unfold space_len, graphic in *. cbn [take is_blank_bytes].
  rewrite (proj2 (N.leb_gt 0xC2 b)), (proj2 (N.leb_gt 0xE0 b)) by lia.
  destruct ((9 <=? b)%N && (b <=? 13)%N || (b =? 32)%N) eqn:He; [lia|done].
Qed.
Lemma words_graphic p : ∀ fuel rest word,
  Forall graphic p → words (length p + fuel) (p ++ rest) word = words fuel rest (word ++ p).
Proof.
  induction p as [|b p IH]; intros fuel rest word Hp; [by rewrite app_nil_r|].
  inversion Hp as [|? ? Hb Hp']; subst. cbn [length Nat.add app words]. rewrite graphic_no_space by done.
  rewrite IH by done. by rewrite <- app_assoc.
Qed.
Lemma split_two_words p q :
  p ≠ [] → q ≠ [] → Forall graphic p → Forall graphic q → split_whitespace (p ++ 32%N :: q) = [p; q].
Proof.
  intros Hp Hq Hgp Hgq. unfold split_whitespace. rewrite length_app. cbn [length].
  rewrite words_graphic by done. cbn [words]. change (space_len (32%N :: q)) with 1. cbn [drop]. rewrite drop_0. cbn [app].
  unfold flush at 1. rewrite decide_False by done.
  pose proof (words_graphic q 0 [] [] Hgq) as Hw. rewrite app_nil_r, Nat.add_0_r in Hw. rewrite Hw.
  cbn [words app]. unfold flush. by rewrite decide_False by done.
Qed.
Lemma digits_graphic (n : N) : Forall graphic (lit (pretty n)).
Proof.
  destruct (pretty_N_digits n) as [Hd _]. eapply list.Forall_impl; [exact Hd|]. intros b Hb. unfold digit, graphic in *. lia.
Qed.
Lemma lit_app a b : lit (a +:+ b) = lit a ++ lit b.
Proof. apply utf8_bytes_app. Qed.
Lemma ahead_behind_read_back a b :
  (a <= USIZE_LIMIT)%N → (b <= USIZE_LIMIT)%N →
  parse_ahead_behind (lit ("+" +:+ pretty a +:+ " -" +:+ pretty b)) = Ok (a, b).
Proof.
  intros Ha Hb. unfold parse_ahead_behind.
  assert (lit ("+" +:+ pretty a +:+ " -" +:+ pretty b) = (43%N :: lit (pretty a)) ++ 32%N :: (45%N :: lit (pretty b))) as ->.
  { rewrite !lit_app. done. }
  rewrite split_two_words; [|done|done|constructor; [unfold graphic; lia|apply digits_graphic]..].
  cbn [lookup list_lookup mbind option_bind strip_prefix N.eqb Pos.eqb].
  rewrite (parse_usize_pretty a), (parse_usize_pretty b) by done. done.
Qed.

(** ** One record *)

Lemma change_kind_code c : tracked c → change_kind (code_of c) = Ok c.
Proof. unfold tracked. by destruct c as [[]|]; [..|]. Qed.
Lemma change_kinds_letters x y : tracked x → tracked y → change_kinds (letters x y) = Ok (x, y).
Proof. intros Hx Hy. unfold change_kinds, letters. by rewrite (change_kind_code x), (change_kind_code y) by done. Qed.
Lemma letters_token x y : token (letters x y).
Proof. split; destruct x as [[]|], y as [[]|]; cbv; set_solver. Qed.
Lemma split_record_join fields path n :
  Forall token fields → n = S (length fields) → path ≠ [] →
  split_record (join 32 (fields ++ [path])) n = Ok (fields ++ [path]).
Proof.
  intros Hf -> Hp. unfold split_record. rewrite splitn_join by by eapply list.Forall_impl; [exact Hf|]; intros ? [].
  rewrite length_app. cbn [length]. replace (length fields + 1) with (S (length fields)) by lia. rewrite Nat.eqb_refl.
  unfold field. replace (S (length fields) - 1) with (length fields) by lia. rewrite list_lookup_middle by done.
  cbn [default negb orb]. by rewrite bool_decide_eq_false_2.
Qed.
Lemma last_field (fields : list (list N)) path n : n = length (fields ++ [path]) → field (n - 1) (fields ++ [path]) = path.
Proof.
  intros ->. unfold field. rewrite length_app. cbn [length]. replace (length fields + 1 - 1) with (length fields) by lia.
  by rewrite list_lookup_middle.
Qed.
Lemma changed_read mark x y meta path source n :
  token mark → tracked x → tracked y → Forall token meta → path ≠ [] → n = S (S (S (length meta))) →
  parse_changed (join 32 (mark :: letters x y :: meta ++ [path])) n source = Ok (MkStatusEntry path x y source false).
Proof.
  intros Hm Hx Hy Hmeta Hp Hn. unfold parse_changed.
  change (mark :: letters x y :: meta ++ [path]) with ((mark :: letters x y :: meta) ++ [path]).
  rewrite split_record_join; [|constructor; [done|constructor; [apply letters_token|done]]|done|done]. cbn [mbind result_bind].
  change (field 1 _) with (letters x y). rewrite change_kinds_letters by done. cbn [mbind result_bind fst snd].
  by rewrite last_field.
Qed.
Lemma unmerged_read mark x y meta path :
  token mark → tracked x → tracked y → Forall token meta → path ≠ [] → length meta = 8 →
  parse_unmerged (join 32 (mark :: letters x y :: meta ++ [path])) = Ok (MkStatusEntry path x y None true).
Proof.
  intros Hm Hx Hy Hmeta Hp Hn. unfold parse_unmerged.
  change (mark :: letters x y :: meta ++ [path]) with ((mark :: letters x y :: meta) ++ [path]).
  rewrite split_record_join; [|constructor; [done|constructor; [apply letters_token|done]]| |done].
  2: { cbn [length]. by rewrite Hn. }
  cbn [mbind result_bind]. change (field 1 _) with (letters x y). rewrite change_kinds_letters by done.
  cbn [mbind result_bind fst snd]. rewrite last_field; [done|]. rewrite length_app. cbn [length]. by rewrite Hn.
Qed.
Lemma untracked_read mark path :
  token mark → path ≠ [] → parse_untracked (join 32 [mark; path]) = Ok (MkStatusEntry path None (Some Untracked) None false).
Proof.
  intros Hm Hp. unfold parse_untracked. change [mark; path] with ([mark] ++ [path]).
  rewrite split_record_join; [done|by constructor|done|done].
Qed.
Lemma mark_token c : (32 < c)%N → token [c].
Proof. intros Hc. split; intros He%list_elem_of_singleton; lia. Qed.
Lemma join_mark c f fields : ∃ t, join 32 ([c] :: f :: fields) = c :: t.
Proof. by eexists. Qed.

Lemma record_read r rest h es :
  record_ok r → parse_records (lines_of r ++ rest) h es = parse_records rest h (es ++ entry_of r).
Proof.
  destruct r as [x y meta path|x y meta path source|x y meta path|path|path]; cbn [record_ok lines_of entry_of app].
  - intros (Hx & Hy & Hl & Hm & Hp & _). change (lit "1") with [49%N].
    destruct (join_mark 49 (letters x y) (meta ++ [path])) as [t Ht]. rewrite Ht. cbn [parse_records N.eqb Pos.eqb].
    rewrite <- Ht, changed_read; [done|by apply mark_token|done..|by rewrite Hl].
  - intros (Hx & Hy & Hl & Hm & [Hp _] & [Hs _]). change (lit "2") with [50%N].
    destruct (join_mark 50 (letters x y) (meta ++ [path])) as [t Ht]. rewrite Ht. cbn [parse_records N.eqb Pos.eqb].
    destruct source as [|b source]; [done|].
    rewrite <- Ht, changed_read; [done|by apply mark_token|done..|by rewrite Hl].
  - intros (Hx & Hy & Hl & Hm & Hp & _). change (lit "u") with [117%N].
    destruct (join_mark 117 (letters x y) (meta ++ [path])) as [t Ht]. rewrite Ht. cbn [parse_records N.eqb Pos.eqb].
    rewrite <- Ht, unmerged_read; [done|by apply mark_token|done..].
  - intros [Hp _]. change (lit "?") with [63%N]. destruct (join_mark 63 path []) as [t Ht]. rewrite Ht.
    cbn [parse_records N.eqb Pos.eqb]. rewrite <- Ht, untracked_read; [done|by apply mark_token|done].
  - intros _. change (lit "!") with [33%N]. destruct (join_mark 33 path []) as [t Ht]. rewrite Ht.
    cbn [parse_records N.eqb Pos.eqb]. by rewrite app_nil_r.
Qed.
Lemma records_read files rest h es :
  Forall record_ok files →
  parse_records (concat (lines_of <$> files) ++ rest) h es = parse_records rest h (es ++ concat (entry_of <$> files)).
Proof.
  intros Hf. revert es. induction Hf as [|r files Hr _ IH]; intros es; cbn [fmap list_fmap concat]; [by rewrite app_nil_r|].
  rewrite <- app_assoc, record_read, IH by done. by rewrite <- app_assoc.
Qed.

(** ** The headers *)

Lemma header_split key value :
  valid (lit "# " ++ lit key ++ lit " ") → 32%N ∉ lit key → valid value →
  splitn 3 32 (from_utf8_lossy (header key value)) = [lit "#"; lit key; value].
Proof.
  intros Hk Hs Hv. unfold header. rewrite lossy_valid.
  2: { rewrite (app_assoc (lit key)), app_assoc. by apply valid_app. }
  replace (lit "# " ++ lit key ++ lit " " ++ value) with (join 32 ([lit "#"; lit key] ++ [value])).
  - apply (splitn_join 32 [lit "#"; lit key]). constructor; [cbv; set_solver|by constructor].
  - cbn [app join fmap list_fmap concat]. by rewrite app_nil_r.
Qed.
Definition headers_of (r : Report) : Headers :=
  MkHeaders (Some (oid_of r)) (Some (name_of r)) (fst <$> rp_upstream r) (rp_upstream r ≫= snd).
Lemma read_header key value rest h h' es :
  parse_header (header key value) h = Ok h' →
  parse_records (header key value :: rest) h es = parse_records rest h' es.
Proof.
  intros Hh. destruct (header key value) as [|b t] eqn:Hk; [done|]. unfold header in Hk.
  assert (b = 35%N) as -> by by injection Hk as <- _. cbn [parse_records N.eqb Pos.eqb]. by rewrite Hh.
Qed.
(** Each of the four headers sets its own. *)
Lemma read_oid value h : valid value →
  parse_header (header "branch.oid" value) h
  = Ok (MkHeaders (Some value) (hd_head_name h) (hd_upstream_name h) (hd_ahead_behind h)).
Proof. intros Hv. unfold parse_header. rewrite header_split; [reflexivity|reflexivity|cbv; set_solver|done]. Qed.
Lemma read_head_name value h : valid value →
  parse_header (header "branch.head" value) h
  = Ok (MkHeaders (hd_oid h) (Some value) (hd_upstream_name h) (hd_ahead_behind h)).
Proof. intros Hv. unfold parse_header. rewrite header_split; [reflexivity|reflexivity|cbv; set_solver|done]. Qed.
Lemma read_upstream value h : valid value →
  parse_header (header "branch.upstream" value) h
  = Ok (MkHeaders (hd_oid h) (hd_head_name h) (Some value) (hd_ahead_behind h)).
Proof. intros Hv. unfold parse_header. rewrite header_split; [reflexivity|reflexivity|cbv; set_solver|done]. Qed.
Lemma read_divergence value h pair : valid value → parse_ahead_behind value = Ok pair →
  parse_header (header "branch.ab" value) h
  = Ok (MkHeaders (hd_oid h) (hd_head_name h) (hd_upstream_name h) (Some pair)).
Proof.
  intros Hv Hp. unfold parse_header. rewrite header_split; [|reflexivity|cbv; set_solver|done].
  change (parse_ahead_behind value ≫= (λ pair, Ok (MkHeaders (hd_oid h) (hd_head_name h) (hd_upstream_name h) (Some pair)))
          = Ok (MkHeaders (hd_oid h) (hd_head_name h) (hd_upstream_name h) (Some pair))).
  by rewrite Hp.
Qed.
Lemma divergence_name_ok (a b : N) : name_ok (lit ("+" +:+ pretty a +:+ " -" +:+ pretty b)).
Proof.
  assert (∀ l, Forall graphic l → valid l ∧ 0%N ∉ l) as Hg.
  { intros l Hl. split.
    - induction Hl as [|c l Hc _ IH]; [apply valid_nil|]. apply (valid_app [c] l); [|exact IH]. unfold valid. rewrite scan_eq.
      unfold graphic in Hc. cbn [decode1]. rewrite (proj2 (N.ltb_lt c 0x80)) by lia. done.
    - intros H0. rewrite list.Forall_forall in Hl. specialize (Hl _ H0). unfold graphic in Hl. lia. }
  destruct (Hg _ (digits_graphic a)) as [Hva Hna]. destruct (Hg _ (digits_graphic b)) as [Hvb Hnb].
  rewrite !lit_app. split.
  - repeat apply valid_app; by try reflexivity.
  - rewrite !not_elem_of_app. split_and!; [cbv; set_solver|done|cbv; set_solver|done].
Qed.

Lemma initial_ok : name_ok INITIAL_COMMIT. Proof. split; [reflexivity|cbv; set_solver]. Qed.
Lemma detached_ok : name_ok DETACHED_HEAD. Proof. split; [reflexivity|cbv; set_solver]. Qed.
Lemma oid_ok r : head_ok r → name_ok (oid_of r).
Proof. unfold head_ok, oid_of. destruct (rp_head r) as [[b|]|b|c]; intros Hh; try apply initial_ok; tauto. Qed.
Lemma head_name_ok r : head_ok r → name_ok (name_of r).
Proof. unfold head_ok, name_of. destruct (rp_head r) as [[b|]|b|c]; intros Hh; try apply detached_ok; tauto. Qed.
Lemma headers_read r rest :
  head_ok r → upstream_ok r →
  parse_records (header_lines r ++ rest) Headers_empty [] = parse_records rest (headers_of r) [].
Proof.
  intros Hh Hu. unfold header_lines, headers_of. rewrite <- app_assoc. cbn [app].
  erewrite read_header by apply read_oid, (oid_ok r Hh). erewrite read_header by apply read_head_name, (head_name_ok r Hh).
  unfold upstream_ok in Hu. destruct (rp_upstream r) as [[name [[a b]|]]|]; cbn [app]; [|..].
  - destruct Hu as [[Hn _] [Ha Hb]]. erewrite read_header by by apply read_upstream.
    erewrite read_header; [reflexivity|]. apply read_divergence; [apply divergence_name_ok|by apply ahead_behind_read_back].
  - destruct Hu as [[Hn _] _]. erewrite read_header by by apply read_upstream. reflexivity.
  - reflexivity.
Qed.

(** ** No line has a terminator in it *)

Lemma header_no_nul key value : 0%N ∉ lit key → 0%N ∉ value → 0%N ∉ header key value.
Proof. intros Hk Hv. unfold header. rewrite !not_elem_of_app. split_and!; [cbv; set_solver|done|cbv; set_solver|done]. Qed.
Lemma join_no_nul fields : Forall (λ f, 0%N ∉ f) fields → 0%N ∉ join 32 fields.
Proof.
  destruct 1 as [|f fields Hf Hfs]; [by apply not_elem_of_nil|]. cbn [join]. rewrite not_elem_of_app. split; [done|].
  induction Hfs as [|g fields Hg _ IH]; cbn [fmap list_fmap concat]; [by apply not_elem_of_nil|].
  rewrite not_elem_of_app. split; [|exact IH]. by apply not_elem_of_cons.
Qed.
Lemma line_no_nul mark x y meta path :
  0%N ∉ mark → Forall token meta → 0%N ∉ path → 0%N ∉ join 32 (mark :: letters x y :: meta ++ [path]).
Proof.
  intros Hm Hmeta Hp. apply join_no_nul. constructor; [done|]. constructor; [apply letters_token|].
  apply list.Forall_app. split; [|by constructor]. eapply list.Forall_impl; [exact Hmeta|]. by intros ? [].
Qed.
Lemma lines_no_nul r : record_ok r → Forall (λ l, 0%N ∉ l) (lines_of r).
Proof.
  assert (∀ c : N, c ≠ 0%N → 0%N ∉ [c]) as Hc by (intros c Hc He%list_elem_of_singleton; done).
  destruct r as [x y meta path|x y meta path source|x y meta path|path|path]; cbn [record_ok lines_of].
  - intros (_ & _ & _ & Hm & _ & Hp). repeat constructor. apply line_no_nul; [by apply Hc|done..].
  - intros (_ & _ & _ & Hm & [_ Hp] & _ & Hs). repeat constructor; [apply line_no_nul; [by apply Hc|done..]|done].
  - intros (_ & _ & _ & Hm & _ & Hp). repeat constructor. apply line_no_nul; [by apply Hc|done..].
  - intros [_ Hp]. repeat constructor. apply join_no_nul. repeat constructor; [by apply Hc|done].
  - intros [_ Hp]. repeat constructor. apply join_no_nul. repeat constructor; [by apply Hc|done].
Qed.
Lemma header_lines_no_nul r : head_ok r → upstream_ok r → Forall (λ l, 0%N ∉ l) (header_lines r).
Proof.
  intros Hh Hu. unfold header_lines. constructor; [apply header_no_nul; [cbv; set_solver|apply (oid_ok r Hh)]|].
  constructor; [apply header_no_nul; [cbv; set_solver|apply (head_name_ok r Hh)]|].
  unfold upstream_ok in Hu. destruct (rp_upstream r) as [[name [[a b]|]]|]; [| |by constructor].
  - destruct Hu as [[_ Hn] _]. constructor; [apply header_no_nul; [cbv; set_solver|done]|].
    constructor; [apply header_no_nul; [cbv; set_solver|apply divergence_name_ok]|constructor].
  - destruct Hu as [[_ Hn] _]. constructor; [apply header_no_nul; [cbv; set_solver|done]|constructor].
Qed.

(** ** The whole output *)

Lemma head_read r : head_ok r → head_of (oid_of r) (name_of r) = rp_head r.
Proof.
  unfold head_ok, head_of, oid_of, name_of. destruct (rp_head r) as [[b|]|b|c].
  - intros [_ Hb]. rewrite bool_decide_eq_true_2 by done. by rewrite bool_decide_eq_false_2.
  - intros _. rewrite bool_decide_eq_true_2 by done. by rewrite bool_decide_eq_true_2.
  - intros (_ & Hb & _ & Hc). rewrite bool_decide_eq_false_2 by done. by rewrite bool_decide_eq_false_2.
  - intros (_ & Hc). rewrite bool_decide_eq_false_2 by done. by rewrite bool_decide_eq_true_2.
Qed.
Lemma upstream_read r : upstream_of (headers_of r) = ds_upstream (status_of (P:=unit) r).
Proof. unfold upstream_of, headers_of, status_of. cbn. by destruct (rp_upstream r) as [[name [[a b]|]]|]. Qed.

(** C30. What Git prints of a status is read back as it was: the branch that is checked out,
    its upstream and the distance to it, and every changed, moved, new or conflicted path in
    order, whatever bytes its name is made of, spaces, newlines and bytes of no text included;
    a moved path takes its source with it, and ignored paths are left out. *)
Theorem printed_status_is_read_back r :
  report_ok r → parse_porcelain_v2 (P:=unit) (print r) = Ok (status_of r).
Proof.
  intros (Hh & Hu & Hf). unfold parse_porcelain_v2, print. rewrite split_on_terminated.
  - rewrite <- app_assoc, headers_read, records_read by done. cbn [parse_records mbind result_bind app].
    cbn [headers_of hd_oid hd_head_name]. rewrite head_read by done. by rewrite upstream_read.
  - apply list.Forall_app. split; [by apply header_lines_no_nul|].
    clear -Hf. induction Hf as [|f files Hr _ IH]; cbn [fmap list_fmap concat]; [constructor|].
    apply list.Forall_app. split; [by apply lines_no_nul|exact IH].
Qed.

(** A status printed and read: a branch ahead of its upstream, an edit, a move between names
    with spaces, a conflict, a name of no text, and an ignored path. *)
Definition demo_meta : list (list N) := lit <$> ["N..."; "100644"; "100644"; "100644"; "aaa"; "bbb"].
Definition demo_report : Report :=
  MkReport (OnBranch (lit "main")) (lit "1111") (Some (lit "origin/main", Some (2, 3)%N))
    [Ordinary (Some Modified) None demo_meta (lit "staged.txt");
     Moved (Some Renamed) None (demo_meta ++ [lit "R100"]) (lit "new name.txt") (lit "old name.txt");
     Conflict (Some Unmerged) (Some Unmerged) (demo_meta ++ [lit "ccc"; lit "ddd"]) (lit "conflict.txt");
     New [255; 10]%N; Ignored (lit "target")].
Lemma printed_status_is_read_back_witness :
  parse_porcelain_v2 (P:=unit) (print demo_report) = Ok (status_of demo_report).
Proof.
  apply printed_status_is_read_back. split; [|split].
  - split_and!; try discriminate; split; (reflexivity || (cbv; set_solver)).
  - split; [split; [reflexivity|cbv; set_solver]|by split].
  - assert (Forall token (demo_meta ++ [lit "R100"])) as H7.
    { repeat constructor; cbv; set_solver. }
    assert (Forall token (demo_meta ++ [lit "ccc"; lit "ddd"])) as H8.
    { repeat constructor; cbv; set_solver. }
    assert (Forall token demo_meta) as H6 by by apply list.Forall_app in H7 as [? _].
    repeat constructor; try done; cbv; set_solver.
Defined.

(** ** The projection of the flags *)

Lemma is_staged_change status : is_staged status = true ↔ staged_change status ≠ None.
Proof. unfold is_staged, staged_change. destruct status as [[] [] [] [] [] ? ? ? ? ? ?]; cbn; split; done. Qed.
Lemma is_unstaged_change status :
  is_unstaged status = true ↔
  CONFLICTED status = true ∨
  (WT_MODIFIED status || WT_DELETED status || WT_RENAMED status || WT_TYPECHANGE status = true ∧ unstaged_change status ≠ None).
Proof.
  unfold is_unstaged, unstaged_change. destruct status as [? ? ? ? ? [] [] [] [] [] []]; cbn; split; intros Hs; naive_solver.
Qed.
Lemma project_each_Some cancelled poll copies l es :
  project_each cancelled poll copies l = Some es → es = project_entry copies <$> l.
Proof.
  revert poll es. induction l as [|e l IH]; intros poll es; cbn [project_each]; [by intros [= <-]|].
  destruct (cancelled poll); [done|]. destruct (project_each cancelled (S poll) copies l) as [es'|] eqn:Hl; [|done].
  intros [= <-]. cbn. f_equal. by eapply IH.
Qed.
(** A bounded answer is the beginning of the whole one, and says how much it leaves out. *)
Lemma bounded_status_is_a_prefix {P} cancelled cancelled' head upstream (pending : option P) copies statuses n page full :
  detailed_in_process_bounded cancelled head upstream pending copies statuses n = Some page →
  detailed_in_process_bounded cancelled' head upstream pending copies statuses (length statuses) = Some full →
  ds_entries (dp_status page) = take n (ds_entries (dp_status full)) ∧
  dp_omitted_entries page = length (ds_entries (dp_status full)) - n ∧ dp_omitted_entries full = 0.
Proof.
  unfold detailed_in_process_bounded. destruct (cancelled 0); [done|]. destruct (cancelled' 0); [done|].
  rewrite (take_ge statuses (length statuses)) by lia.
  destruct (project_each cancelled 1 copies (take n statuses)) as [es|] eqn:Hes; [|done].
  destruct (project_each cancelled' 1 copies statuses) as [all|] eqn:Hall; [|done].
  intros [= <-] [= <-]. apply project_each_Some in Hes as ->, Hall as ->. cbn.
  rewrite fmap_take, length_fmap. split_and!; [done|lia|lia].
Qed.
