(* ===== verification/Start.v ===== *)
(** * Starting, retrying and ending runs

    The operations of [RunCoordinator] ([src/crates/harkness-runtime/src/coordinator/mod.rs])
    other than following a run: starting and retrying one, cancelling one, answering its
    questions, and the shutdown that gives the claim of the process up.

    An operation is one function over the store and the runs that are active; what other
    threads do to the store comes between its accesses, by [meanwhile]; the other fields of the
    coordinator are its own from the first access of an operation to the last.  The guard of the
    claim makes starting a run and the first step of a shutdown exclude each other, so they
    are steps of the relation at the end; the worker a start spawns is that of [Worker]. *)

From Stdlib Require Import ZArith ZifyN ZifyBool.
From stdpp Require Import base decidable countable list gmap sets relations pretty strings.
From S2P Require Import Registry Prelude Digest Tool External Trust Policy Approval Matcher Gate Lifecycle Domain Records Wire Schedule RunStore StoreClaims StoreLaws ClaimLaws Interrupt StoreSafety ToolError Supervise Executor ExecutorSafety Recovery RecoverySafety Subscription Worker.

Section start.
Context `{Platform, !StoreParams, Faults, !Fresh, !Now, DebugFormat}.
Context {T : Type} (descriptor : T → ToolDescriptor).
Abbreviation storeM A := (stateM RunStore StoreError A).
Abbreviation ApprovalGate := (gmap ApprovalId (option ApprovalObservation)).

(** What surrounds a coordinator: the other threads, the file system, whether a thread could
    be spawned, and texts. *)
Class Startup := {
  meanwhile : nat → RunStore → RunStore;
  canonical_root : string → result string CanonicalPath;
  catalog_root : CanonicalPath → result string CanonicalPath;
  spawn_refused : nat → option string;
  failure_text : StoreError → string;
  json_bool : bool → Value;
}.
Context `{!Startup}.

(** [WorkspaceRef::from_task] *)
Definition WorkspaceRef_from_task (task : Task) : WorkspaceRef :=
  MkWorkspaceRef (task_project_id task) (redact_text (task_workspace_root task)).
(** [Store::load_task] *)
Definition load_task (id : TaskId) : storeM Task := with_reader (λ t,
  match tb_tasks t !! id with
  | None => (Err (NotFound "task"), t)
  | Some task => (map_err (InvalidRecord "task") (Task_try_from (Task_to_wire task)), t)
  end).

(** [CoordinatorInner]: the store, the gate its runs wait at, the runs with a worker, which of
    them were cancelled, how far each was published and whether that is over, and whether a
    shutdown began. *)
Record Coordinator := MkCoordinator {
  co_store : RunStore;
  co_looks : nat;
  co_gate : ApprovalGate;
  co_active : gset RunId;
  co_cancelled : gset RunId;
  co_cursors : gmap RunId (option N);
  co_closed : gset RunId;
  co_stopping : bool;
}.
Abbreviation coordM A := (stateM Coordinator RuntimeError A).

Definition co_set_store (s : RunStore) (c : Coordinator) : Coordinator :=
  MkCoordinator s (S (co_looks c)) (co_gate c) (co_active c) (co_cancelled c) (co_cursors c) (co_closed c) (co_stopping c).
Definition co_set_gate (gate : ApprovalGate) (c : Coordinator) : Coordinator :=
  MkCoordinator (co_store c) (co_looks c) gate (co_active c) (co_cancelled c) (co_cursors c) (co_closed c) (co_stopping c).
Definition co_set_active (active : gset RunId) (c : Coordinator) : Coordinator :=
  MkCoordinator (co_store c) (co_looks c) (co_gate c) active (co_cancelled c) (co_cursors c) (co_closed c) (co_stopping c).
Definition co_cancel (run : RunId) (c : Coordinator) : Coordinator :=
  MkCoordinator (co_store c) (co_looks c) (co_gate c) (co_active c) ({[run]} ∪ co_cancelled c) (co_cursors c) (co_closed c) (co_stopping c).
Definition co_set_cursor (run : RunId) (cursor : option N) (c : Coordinator) : Coordinator :=
  MkCoordinator (co_store c) (co_looks c) (co_gate c) (co_active c) (co_cancelled c) (<[run := cursor]> (co_cursors c)) (co_closed c) (co_stopping c).
Definition co_close (run : RunId) (c : Coordinator) : Coordinator :=
  MkCoordinator (co_store c) (co_looks c) (co_gate c) (co_active c) (co_cancelled c) (co_cursors c) ({[run]} ∪ co_closed c) (co_stopping c).
Definition co_stop (c : Coordinator) : Coordinator :=
  MkCoordinator (co_store c) (co_looks c) (co_gate c) (co_active c) (co_cancelled c) (co_cursors c) (co_closed c) true.

(** An access of the store, after what others did to it; and one whose refusal is dropped. *)
Definition co_answered {A} (m : storeM A) : coordM (result StoreError A) := λ c,
  let '(r, s) := m (meanwhile (co_looks c) (co_store c)) in (Ok r, co_set_store s c).
Definition co_access {A} (m : storeM A) : coordM A := r ← co_answered m; lift (map_err StoreFailed r).
Definition co_ignored {A} (m : storeM A) : coordM unit := _ ← co_answered m; mret tt.
Definition refuse {A} (e : RuntimeError) : coordM A := lift (Err e).
Definition now : coordM OffsetDateTime := λ c, (Ok (to_utc (now_at (rs_io (co_store c)))), c).
Definition fresh : coordM Uuid := λ c, (Ok (fresh_uuid (rs_io (co_store c))), c).
Definition this : coordM Coordinator := Prelude.get.

(** [delivery(run)], and [publish] from where its delivery stands. *)
Definition delivery (run : RunId) : coordM unit :=
  c ← this;
  match co_cursors c !! run with Some _ => mret tt | None => modify (co_set_cursor run None) end.
Definition publish_run (run : RunId) : coordM unit :=
  _ ← delivery run;
  c ← this;
  cursor ← co_access (publish_all run (default None (co_cursors c !! run)));
  modify (co_set_cursor run cursor).

(** [start_task] *)
Definition start_task (task : Task) : coordM TaskId := _ ← co_access (insert_task task); mret (task_id task).

Context (lease : LeaseRecord) (registry : ToolRegistry (Tool:=T)).

(** The workspace a run is to work in: the task's own, by whatever else names it. *)
Definition workspace_of (task : Task) (workspace : WorkspaceRef) (metadata : option WorkspaceMetadata)
    : result RuntimeError WorkspaceKey :=
  match task_project_id task with
  | None => Err (WorkspaceIdentityRequired (task_id task))
  | Some project_id =>
    let expected := WorkspaceRef_from_task task in
    if negb (bool_decide (wr_project_id workspace = wr_project_id expected))
       || negb (bool_decide (wr_root workspace = wr_root expected))
    then Err (WorkspaceMismatch (task_id task))
    else
      root ← map_err (WorkspaceUnavailable (task_id task)) (canonical_root (task_workspace_root task));
      let key := MkWorkspaceKey project_id root in
      match metadata with
      | None => Ok key
      | Some metadata =>
        if negb (bool_decide (wm_project_id metadata = project_id)) then Err (WorkspaceMismatch (task_id task))
        else
          canonical ← map_err (λ e, WorkspaceUnavailable (task_id task) ("catalog workspace metadata is unavailable: " +:+ e))
                        (catalog_root (wm_canonical_root metadata));
          if bool_decide (canonical = root) then Ok key else Err (WorkspaceMismatch (task_id task))
      end
  end.

Definition queued_event (at_ : OffsetDateTime) : RunEvent :=
  with_payload (state_payload [("state", ExecutionState_as_str Queued)]) (RunEvent_new RunStateChanged at_).
Definition retried_event (run : RunId) (modified : bool) (at_ : OffsetDateTime) : RunEvent :=
  with_payload (json_object [("retry_run_id", json_string (uuid_text (RunId_uuid run)));
                             ("workspace_may_be_modified", json_bool modified)])
    (RunEvent_new RunRetried at_).
(** The row of the run with its first event, and of a retry with the line its original gains. *)
Definition record_run (run : RunId) (task : TaskId) (retry : option (RunId * bool)) (at_ : OffsetDateTime) : storeM N :=
  match retry with
  | Some (original, modified) =>
    insert_retry_with_events (Run_retrying_with_id run task original modified at_) (Some lease) (queued_event at_)
      original (retried_event run modified at_)
  | None => insert_run_with_event (Run_with_id run task at_) (Some lease) (queued_event at_)
  end.
(** A run whose first events could not be delivered is started all the same. *)
Definition announce (run : RunId) : coordM unit := λ c,
  match publish_run run c with
  | (Ok _, c) => (Ok tt, c)
  | (Err e, c) =>
    (at_ ← now;
     co_ignored (append_event run (with_payload
       (state_payload [("kind", "startup_delivery_failed"); ("error_kind", RuntimeError_kind StoreError_kind e);
                       ("message", match e with StoreFailed e => failure_text e | _ => "" end)])
       (RunEvent_new Diagnostic at_)))) c
  end.
(** A run without a thread to drive it is failed. *)
Definition run_without_thread (run : RunId) (reason : string) : coordM unit :=
  at_ ← now;
  _ ← co_ignored (fail_run_with_event run (Failure_new "worker_spawn_failed" reason) at_ (run_state_event ExecFailed at_));
  _ ← (λ c, (Ok tt, (publish_run run c).2));
  _ ← modify (co_close run);
  refuse (WorkerSpawn run reason).
Definition spawn_worker (run : RunId) : coordM unit :=
  c ← this;
  match spawn_refused (co_looks c) with
  | None => mret tt
  | Some reason =>
    _ ← modify (λ c, co_set_active (co_active c ∖ {[run]}) c);
    run_without_thread run reason
  end.
Definition start_run_inner (task_id_ : TaskId) (workspace : WorkspaceRef) (metadata : option WorkspaceMetadata)
    (retry : option (RunId * bool)) : coordM RunId :=
  c ← this;
  if co_stopping c then refuse (LeaseUnavailable "this coordinator has shut down and no longer claims runs")
  else
    task ← co_access (load_task task_id_);
    _ ← lift (workspace_of task workspace metadata);
    at_ ← now;
    id ← fresh;
    let run := MkRunId id in
    _ ← co_access (record_run run task_id_ retry at_);
    _ ← delivery run;
    _ ← announce run;
    _ ← modify (λ c, co_set_active ({[run]} ∪ co_active c) c);
    _ ← spawn_worker run;
    mret run.

(** [workspace_may_be_modified]: a call that began, of a tool that may write or is not known. *)
Definition may_have_written (call : ToolCall) : bool :=
  match lc_started_at (call_lifecycle call) with
  | None => false
  | Some _ =>
    match ToolIdentity_parse (call_tool_id call) (call_tool_version call) with
    | Ok identity =>
      match Registry.get (ti_id identity) (Some (ti_version identity)) registry with
      | Some tool => negb (RiskLevel_rank (td_risk (descriptor tool)) <? RiskLevel_rank WorkspaceWrite)
      | None => true
      end
    | Err _ => true
    end
  end.
Definition workspace_may_be_modified (run : RunId) : coordM bool :=
  calls ← co_access (load_run_tool_calls run);
  mret (existsb may_have_written calls).
(** No retry of the run is still going. *)
Fixpoint refuse_live_retries (retries : list RunId) : coordM unit :=
  match retries with
  | [] => mret tt
  | existing :: retries =>
    record ← co_access (load (R:=Run) existing);
    if is_terminal (run_state record) then refuse_live_retries retries else refuse (RunStillActive existing)
  end.
Definition retry_run_inner (original : RunId) (workspace : WorkspaceRef) (metadata : option WorkspaceMetadata)
    : coordM RunId :=
  record ← co_access (load (R:=Run) original);
  if negb (is_terminal (run_state record)) then refuse (RunStillActive original)
  else if bool_decide (run_state record = ExecSucceeded) then refuse (RunNotRetryable original (run_state record))
  else
    retries ← co_access (retries_of original);
    _ ← refuse_live_retries retries;
    modified ← (if run_workspace_may_be_modified record then mret true else workspace_may_be_modified original);
    start_run_inner (run_task_id record) workspace metadata (Some (original, modified)).

(** The waits of a question that is over are told so. *)
Definition wake (resolved : ApprovalRequest) (c : Coordinator) : Coordinator :=
  co_set_gate (resolve_from resolved (co_gate c)).1 c.
(** [cancel_run]: the token, then every question of the run.  What it asks of the scheduler in
    between, which keeps its own state, is [Schedule.cancel_run]; so is what a shutdown asks. *)
Definition withdraw (request : ApprovalRequest) : coordM unit :=
  at_ ← now;
  resolved ← co_answered (resolve_approval (ar_id request) Approval.Cancelled at_);
  match resolved with
  | Ok (resolved, _) => modify (wake resolved)
  | Err _ =>
    known ← co_answered (approval (ar_id request));
    match known with Ok resolved => modify (wake resolved) | Err _ => mret tt end
  end.
Fixpoint withdraw_questions (requests : list ApprovalRequest) : coordM unit :=
  match requests with
  | [] => mret tt
  | request :: requests =>
    _ ← (if bool_decide (ar_state request = ApPending) then withdraw request else mret tt);
    withdraw_questions requests
  end.
Definition end_questions (run : RunId) : coordM unit :=
  requests ← co_access (run_approvals run);
  _ ← withdraw_questions requests;
  publish_run run.
Definition cancel_run (run : RunId) : coordM unit :=
  c ← this;
  if negb (bool_decide (run ∈ co_active c)) then refuse (RunNotActive run)
  else
    _ ← modify (co_cancel run);
    end_questions run.
(** [decide_approval]: only of a run that is driven here. *)
Definition answer_question (decision : ApprovalDecision) : coordM unit :=
  current ← co_access (approval (ad_approval_id decision));
  c ← this;
  if negb (bool_decide (pa_run_id (ar_pending current) ∈ co_active c))
  then refuse (ApprovalNotActive (ad_approval_id decision))
  else
    resolved ← co_access (decide_approval (ad_approval_id decision) decision);
    _ ← modify (wake resolved.1);
    publish_run (pa_run_id (ar_pending current)).

(** ** Shutting down *)

(** Where a shutdown is: which of the runs it saw are still to be cancelled. *)
Inductive Phase := Open | Stopping | Cancelling (todo : list RunId) | Waiting | Released.
(** The process: its coordinator, the threads of its workers, and its shutdown. *)
Record Process := MkProcess { pr_coordinator : Coordinator; pr_workers : gset RunId; pr_phase : Phase }.

Inductive process_step (p : Process) : Process → Prop :=
(** A start or a retry answers a run with its worker, or refuses. *)
| start_run task workspace metadata id c :
    start_run_inner task workspace metadata None (pr_coordinator p) = (Ok id, c) →
    process_step p (MkProcess c ({[id]} ∪ pr_workers p) (pr_phase p))
| start_refused task workspace metadata e c :
    start_run_inner task workspace metadata None (pr_coordinator p) = (Err e, c) →
    process_step p (MkProcess c (pr_workers p) (pr_phase p))
| retry_run original workspace metadata id c :
    retry_run_inner original workspace metadata (pr_coordinator p) = (Ok id, c) →
    process_step p (MkProcess c ({[id]} ∪ pr_workers p) (pr_phase p))
| retry_refused original workspace metadata e c :
    retry_run_inner original workspace metadata (pr_coordinator p) = (Err e, c) →
    process_step p (MkProcess c (pr_workers p) (pr_phase p))
| cancels run :
    process_step p (MkProcess (cancel_run run (pr_coordinator p)).2 (pr_workers p) (pr_phase p))
| answers_question decision : well_formed_answer decision →
    process_step p (MkProcess (answer_question decision (pr_coordinator p)).2 (pr_workers p) (pr_phase p))
| starts_task task : process_step p (MkProcess (start_task task (pr_coordinator p)).2 (pr_workers p) (pr_phase p))
(** Between the accesses of an operation and after them the store is everyone's. *)
| others_write s : rtc store_step (co_store (pr_coordinator p)) s →
    process_step p (MkProcess (co_set_store s (pr_coordinator p)) (pr_workers p) (pr_phase p))
(** A worker leaves its run: the end of [drive]. *)
| worker_leaves run : run ∈ pr_workers p →
    process_step p (MkProcess (co_close run (co_set_active (co_active (pr_coordinator p) ∖ {[run]}) (pr_coordinator p)))
                      (pr_workers p ∖ {[run]}) (pr_phase p))
(** [shutdown]: under the guard of the claim, once; the runs that are active; the token of
    each; the bounded wait, whatever it came to; and the claim. *)
| shutdown_begins : co_stopping (pr_coordinator p) = false →
    process_step p (MkProcess (co_stop (pr_coordinator p)) (pr_workers p) Stopping)
| shutdown_looks : pr_phase p = Stopping →
    process_step p (MkProcess (pr_coordinator p) (pr_workers p) (Cancelling (elements (co_active (pr_coordinator p)))))
| shutdown_cancels run todo : pr_phase p = Cancelling (run :: todo) →
    process_step p (MkProcess (co_cancel run (pr_coordinator p)) (pr_workers p) (Cancelling todo))
| shutdown_waits : pr_phase p = Cancelling [] →
    process_step p (MkProcess (pr_coordinator p) (pr_workers p) Waiting)
| shutdown_releases at_ : pr_phase p = Waiting →
    process_step p (MkProcess (co_ignored (release_lease (le_id lease) at_) (pr_coordinator p)).2 (pr_workers p) Released).
Definition process_init (s : RunStore) : Process := MkProcess (MkCoordinator s 0 ∅ ∅ ∅ ∅ ∅ false) ∅ Open.
End start.
