(* ===== verification/StartSafety.v ===== *)
(** * What starting, retrying and ending runs promises

    Over every interleaving of the operations of a coordinator with its workers and with
    whatever else writes the store: once a shutdown has passed its runs, every run that still
    has a worker was cancelled and is recorded under the claim, and no run starts any more; a
    retry is of an attempt that is over, after no other that is not, and says whether the
    workspace may have been written. *)

From Stdlib Require Import ZArith ZifyN ZifyBool.
From stdpp Require Import base decidable countable list gmap sets relations pretty strings.
From S2P Require Import Registry Prelude Digest Tool External Trust Policy Approval Matcher Gate Lifecycle Domain Records Wire Schedule RunStore StoreClaims StoreLaws ClaimLaws Interrupt StoreSafety ToolError Supervise Executor ExecutorSafety Recovery RecoverySafety Subscription Worker WorkerLaws Start.

Section safety.
Context `{PlatformLaws, !StoreParams, Faults, !Fresh, !FreshLaws, !Now, DebugFormat}.
Context {T : Type} (descriptor : T → ToolDescriptor).
Abbreviation storeM A := (stateM RunStore StoreError A).
Abbreviation coordM A := (stateM Coordinator RuntimeError A).
Context `{!Startup}.
Context (lease : LeaseRecord) (registry : ToolRegistry (Tool:=T)).

(** Others change the store by its operations. *)
Class StartupLaws : Prop := meanwhile_steps : ∀ n s, rtc store_step s (meanwhile n s).
Context `{!StartupLaws}.

(** ** How the store and the runs of a coordinator move *)

Definition evolves (s s' : RunStore) : Prop :=
  store_wf s → store_wf s' ∧ extends (rs_tables s) (rs_tables s').
#[export] Instance evolves_preorder : PreOrder evolves.
Proof.
  split; [by intros s Hwf|]. intros s1 s2 s3 H12 H23 Hwf. destruct (H12 Hwf) as [Hwf2 Hex].
  destruct (H23 Hwf2) as [? ?]. split; [done|by etrans].
Qed.
Definition evolving {A} (m : storeM A) : Prop := ∀ s r s', m s = (r, s') → evolves s s'.

Lemma operation_evolves {A} (m : storeM A) : operation m → evolving m.
Proof. intros Hop s r s' Hrun Hwf. by destruct (operation_keeps m Hop s r s' Hwf Hrun) as (? & ? & _). Qed.
Lemma steps_evolve s s' : rtc store_step s s' → evolves s s'.
Proof. intros Hs Hwf. by apply store_steps_keep. Qed.
Lemma reader_evolves {A} (read : stateM Tables StoreError A) : evolving (with_reader read).
Proof.
  intros s r s' [-> _]%with_reader_spec Hwf. split; [|done].
  apply (store_wf_later s); [done|apply later_tick|done].
Qed.
Lemma publish_evolves run fuel cursor : evolving (publish_pages run fuel cursor).
Proof.
  revert cursor. induction fuel as [|fuel IH]; intros cursor s r s'; cbn; [by intros [= <- <-]|].
  destruct (events run cursor DEFAULT_EVENT_PAGE_LIMIT s) as [x s1] eqn:Hev.
  apply reader_evolves in Hev. destruct x as [page|e]; [|by intros [= <- <-]].
  destruct (last page) as [event|]; [|by intros [= <- <-]]. intros Hrest. etrans; [exact Hev|by eapply IH].
Qed.

(** A part of an operation that leaves alone which runs are driven, cancelled or refused. *)
Record steadily (c c' : Coordinator) : Prop := {
  st_evolves : evolves (co_store c) (co_store c');
  st_active : co_active c' = co_active c;
  st_cancelled : co_cancelled c' = co_cancelled c;
  st_stopping : co_stopping c' = co_stopping c;
}.
#[export] Instance steadily_preorder : PreOrder steadily.
Proof. split; [by split|]. intros c1 c2 c3 [] []. split; [by etrans|congruence..]. Qed.
Definition steady {X} (m : coordM X) : Prop := ∀ c r c', m c = (r, c') → steadily c c'.

Lemma steady_bind {X Y} (m : coordM X) (f : X → coordM Y) : steady m → (∀ x, steady (f x)) → steady (m ≫= f).
Proof.
  intros Hm Hf c r c'. unfold mbind, stateM_bind. destruct (m c) as [[x|e] c1] eqn:Hrun.
  - intros Hrest. etrans; [by eapply Hm|by eapply Hf].
  - intros [= <- <-]. by eapply Hm.
Qed.
Lemma steady_ret {X} (x : X) : steady (mret x).
Proof. by intros c r c' [= <- <-]. Qed.
Lemma steady_lift {X} (r : result RuntimeError X) : steady (lift r).
Proof. by intros c x c' [= <- <-]. Qed.
Lemma steady_refuse {X} e : steady (refuse (A:=X) e).
Proof. apply steady_lift. Qed.
Lemma steady_now : steady now.
Proof. by intros c r c' [= <- <-]. Qed.
Lemma steady_fresh : steady fresh.
Proof. by intros c r c' [= <- <-]. Qed.
Lemma steady_this : steady this.
Proof. by intros c r c' [= <- <-]. Qed.
Lemma steady_cursor run cursor : steady (modify (co_set_cursor run cursor)).
Proof. by intros c r c' [= <- <-]. Qed.
Lemma steady_close run : steady (modify (co_close run)).
Proof. by intros c r c' [= <- <-]. Qed.
Lemma steady_wake a : steady (modify (wake a)).
Proof. by intros c r c' [= <- <-]. Qed.
Lemma steady_answered {X} (m : storeM X) : evolving m → steady (co_answered m).
Proof.
  intros Hm c r c'. unfold co_answered. destruct (m (meanwhile (co_looks c) (co_store c))) as [x s] eqn:Hrun.
  intros [= <- <-]. split; [|done..]. cbn. etrans; [apply steps_evolve, meanwhile_steps|by eapply Hm].
Qed.
Lemma steady_access {X} (m : storeM X) : evolving m → steady (co_access m).
Proof. intros Hm. apply steady_bind; [by apply steady_answered|]. intros r. apply steady_lift. Qed.
Lemma steady_ignored {X} (m : storeM X) : evolving m → steady (co_ignored m).
Proof. intros Hm. apply steady_bind; [by apply steady_answered|]. intros r. apply steady_ret. Qed.
Create HintDb steady.
#[local] Hint Resolve steady_ret steady_lift steady_refuse steady_now steady_fresh steady_this steady_cursor steady_close
  steady_wake steady_answered steady_access steady_ignored reader_evolves operation_evolves publish_evolves : steady.
#[local] Hint Constructors operation : steady.
#[local] Ltac steady_walk :=
  repeat first
    [ progress intros
    | solve [eauto with steady]
    | match goal with |- steady (match ?x with _ => _ end) => destruct x end
    | apply steady_bind ].

Lemma steady_delivery run : steady (delivery run).
Proof. unfold delivery. steady_walk. Qed.
#[local] Hint Resolve steady_delivery : steady.
Lemma publish_all_evolves run cursor : evolving (publish_all run cursor).
Proof. intros s r s'. apply publish_evolves. Qed.
#[local] Hint Resolve publish_all_evolves : steady.
Lemma steady_publish run : steady (publish_run run).
Proof. unfold publish_run. steady_walk. Qed.
#[local] Hint Resolve steady_publish : steady.
Lemma steady_start_task task : steady (start_task task).
Proof. unfold start_task. steady_walk. Qed.
Lemma steady_announce run : steady (announce run).
Proof.
  intros c r c'. unfold announce. destruct (publish_run run c) as [[x|e] c1] eqn:Hp; apply steady_publish in Hp.
  - by intros [= <- <-].
  - intros Hrest. etrans; [exact Hp|]. revert Hrest. apply (steady_bind now); [apply steady_now|]. steady_walk.
Qed.
Lemma steady_withdraw requests : steady (withdraw_questions requests).
Proof. induction requests as [|request requests IH]; cbn; unfold withdraw; steady_walk. Qed.
Lemma steady_answer decision : well_formed_answer decision → steady (answer_question decision).
Proof. intros Hd. unfold answer_question. steady_walk. Qed.
#[local] Hint Resolve steady_announce steady_withdraw : steady.
Lemma steady_modified run : steady (workspace_may_be_modified descriptor registry run).
Proof. unfold workspace_may_be_modified. steady_walk. Qed.
Lemma steady_live_retries retries : steady (refuse_live_retries retries).
Proof. induction retries as [|existing retries IH]; cbn; steady_walk. Qed.
#[local] Hint Resolve steady_modified steady_live_retries : steady.
Lemma steady_end_questions run : steady (end_questions run).
Proof. unfold end_questions. steady_walk. Qed.
Lemma steady_without_thread run reason : steady (run_without_thread run reason).
Proof.
  unfold run_without_thread. steady_walk. intros c r c'. destruct (publish_run run c) as [answer c1] eqn:Hp.
  intros [= <- <-]. by eapply steady_publish.
Qed.
Lemma cancel_moves run c r c' : cancel_run run c = (r, c') →
  evolves (co_store c) (co_store c') ∧ co_active c' = co_active c ∧ co_stopping c' = co_stopping c
  ∧ co_cancelled c ⊆ co_cancelled c'.
Proof.
  unfold cancel_run, this, mbind at 1, stateM_bind at 1. cbn [Prelude.get]. destruct (negb _).
  - intros [= <- <-]. split_and!; done.
  - unfold mbind at 1, stateM_bind at 1. cbn [modify]. intros [He Ha Hc Hs]%steady_end_questions.
    split_and!; [exact He|exact Ha|exact Hs|]. rewrite Hc. cbn. set_solver.
Qed.

(** ** The row of a run *)

Lemma insert_owned_Ok run t u t' :
  insert_owned_run run (Some lease) t = (Ok u, t') →
  tb_runs t !! run_id run = None ∧ tb_runs t' = <[run_id run := run]> (tb_runs t)
  ∧ tb_claims t' !! run_id run = Some (le_id lease).
Proof.
  unfold insert_owned_run. intros (? & t1 & He & Hi)%bindM_Ok.
  assert (tb_runs t1 = tb_runs t) as Ht1.
  { unfold ensure_lease in He. apply bindM_Ok in He as (? & ? & [-> ->]%get_Ok & He).
    destruct (is_present _); [by apply ret_Ok in He as [_ ->]|by apply modify_Ok in He as ->]. }
  unfold insert_run_row in Hi. apply bindM_Ok in Hi as (? & ? & [_ ->]%lift_Ok & Hi).
  apply bindM_Ok in Hi as (? & ? & [-> ->]%get_Ok & Hi).
  apply bindM_Ok in Hi as (? & ? & [-> Hnew%absent]%insert_unique_Ok & Hi).
  apply bindM_Ok in Hi as (? & ? & [_ ->]%lift_Ok & ->%modify_Ok).
  rewrite Ht1 in Hnew. cbn. by rewrite Ht1, lookup_insert_eq.
Qed.
Lemma appended_rows run p t n t' :
  PreparedEvent_append run p t = (Ok n, t') → tb_runs t' = tb_runs t ∧ tb_claims t' = tb_claims t.
Proof. by intros (artifacts & ->)%append_logged. Qed.

(** The run a start records. *)
Definition new_run (run : RunId) (task : TaskId) (retry : option (RunId * bool)) (at_ : OffsetDateTime) : Run :=
  match retry with
  | Some (original, modified) => Run_retrying_with_id run task original modified at_
  | None => Run_with_id run task at_
  end.
Lemma new_run_id run task retry at_ : run_id (new_run run task retry at_) = run.
Proof. by destruct retry as [[original modified]|]. Qed.
Lemma new_run_wf run task retry at_ : (∀ original, fst <$> retry = Some original → original ≠ run) → run_wf (new_run run task retry at_).
Proof.
  intros Hne. destruct retry as [[original modified]|]; (split; [apply exec_wf_new|]); cbn; [|done].
  split; [|done]. intros [= ->]. by apply (Hne run).
Qed.
Lemma record_run_Ok run task retry at_ s n s' :
  record_run lease run task retry at_ s = (Ok n, s') →
  tb_runs (rs_tables s) !! run = None ∧ tb_runs (rs_tables s') !! run = Some (new_run run task retry at_)
  ∧ tb_claims (rs_tables s') !! run = Some (le_id lease).
Proof.
  unfold record_run. destruct retry as [[original modified]|].
  - unfold insert_retry_with_events. intros (p & s1 & Hp%prepare_tables & Hrest)%bindM_Ok.
    apply bindM_Ok in Hrest as (q & s2 & Hq & Hrest). unfold on_error at 1 in Hq.
    destruct (prepare_event original _ s1) as [[q'|e] s2'] eqn:Hq'; [|discriminate]. injection Hq as -> ->.
    apply prepare_tables in Hq'. unfold on_error in Hrest.
    destruct (in_write_transaction _ s2) as [[m|e] s3] eqn:Htx; [|discriminate]. injection Hrest as -> ->.
    apply in_write_transaction_spec in Htx as (_ & _ & Htx). rewrite Hq', Hp in Htx.
    apply bindM_Ok in Htx as (? & t1 & (Hnone & Hrow & Hclaim)%insert_owned_Ok & Htx).
    apply bindM_Ok in Htx as (? & t2 & [Hr2 Hc2]%appended_rows & Htx).
    apply bindM_Ok in Htx as (? & t3 & [Hr3 Hc3]%appended_rows & [_ ->]%ret_Ok).
    cbn in Hnone, Hrow, Hclaim. rewrite Hr3, Hr2, Hrow, Hc3, Hc2, lookup_insert_eq. done.
  - unfold insert_run_with_event. intros (p & s1 & Hp%prepare_tables & Htx%commit_event_Ok)%bindM_Ok.
    rewrite Hp in Htx. apply bindM_Ok in Htx as (? & t1 & (Hnone & Hrow & Hclaim)%insert_owned_Ok & [Hr2 Hc2]%appended_rows).
    cbn in Hnone, Hrow, Hclaim. rewrite Hr2, Hrow, Hc2, lookup_insert_eq. done.
Qed.

(** A run that is there already is refused, whatever it would have said. *)
Lemma insert_owned_taken run t : is_Some (tb_runs t !! run_id run) →
  ∃ e, (insert_owned_run run (Some lease) t).1 = Err e.
Proof.
  intros [r Hr]. destruct (insert_owned_run run (Some lease) t) as [[u|e] t'] eqn:Hi; [|by exists e].
  apply insert_owned_Ok in Hi as (Hnone & _). congruence.
Qed.
Lemma refused_transaction {A} (change : stateM Tables StoreError A) e s :
  (change (rs_tables s)).1 = Err e → in_write_transaction change s = in_write_transaction (λ t, (Err e, t)) s.
Proof.
  intros Hc. unfold in_write_transaction, mbind, stateM_bind. rewrite attempt_spec.
  destruct (io_fails (rs_io s)); [done|]. unfold commit_change. cbn [rs_tables tick].
  destruct (change (rs_tables s)) as [[a|e'] t]; cbn in Hc; [discriminate|]. by injection Hc as ->.
Qed.
Lemma taken_retry_evolves run e original retried s r s' :
  is_Some (tb_runs (rs_tables s) !! run_id run) →
  insert_retry_with_events run (Some lease) e original retried s = (r, s') → evolves s s'.
Proof.
  intros Htaken. unfold insert_retry_with_events, mbind, stateM_bind, on_error at 1. intros Hrun Hwf. revert Hrun.
  destruct (prepare_event (run_id run) e s) as [[p|err] s1] eqn:Hp;
    destruct (prepare_event_spec _ _ _ _ _ Hwf Hp) as (Hwf1 & Hl & Hf & Hpend).
  2: { intros [= <- <-]. destruct Hl as [-> ?]. done. }
  destruct (Hpend p eq_refl) as [Hpd _].
  destruct (prepare_event original retried s1) as [[q|err] s2] eqn:Hq;
    destruct (prepare_event_spec _ _ _ _ _ Hwf1 Hq) as (Hwf2 & Hl2 & Hf2 & Hpend2).
  - destruct (Hpend2 q eq_refl) as [Hqd _]. pose proof (transitivity Hl Hl2) as [Ht _]. rewrite <- Ht in *.
    assert (all_pending [p; q] s2) as Hall.
    { intros x [-> |[-> |[]%not_elem_of_nil]%elem_of_cons]%elem_of_cons; [|done]. by eapply pending_later. }
    destruct (insert_owned_taken run (rs_tables s2) Htaken) as [err Herr].
    unfold on_error. rewrite (refused_transaction _ err).
    2: { unfold mbind, stateM_bind. destruct (insert_owned_run run (Some lease) (rs_tables s2)) as [[?|?] ?]; cbn in *; congruence. }
    intros Hrest. eapply (commit_all_keeps [p; q] (λ t : Tables, ((Err err : result StoreError N), t))) in Hrest as (? & ? & _); [done|done|done|by intros t x t' ?].
  - intros [= <- <-]. destruct (discard_spill_spec p s2 Hwf2) as [? Hl3].
    { intros id Hid. rewrite (lt_tables _ _ Hl2). by destruct (Hpd id Hid) as (_ & _ & ?). }
    pose proof (transitivity Hl (transitivity Hl2 Hl3)) as [-> ?]. done.
Qed.
Lemma record_run_evolves run task retry at_ s r s' :
  (∀ original, fst <$> retry = Some original → is_Some (tb_runs (rs_tables s) !! original)) →
  record_run lease run task retry at_ s = (r, s') → evolves s s'.
Proof.
  intros Hthere Hrun. destruct (decide (fst <$> retry = Some run)) as [Hself|Hne].
  - destruct retry as [[original modified]|]; [|done]. cbn in Hself. injection Hself as ->.
    eapply taken_retry_evolves; [|exact Hrun]. by apply Hthere.
  - assert (run_wf (new_run run task retry at_)) as Hwf by (apply new_run_wf; congruence).
    revert Hrun. unfold record_run. destruct retry as [[original modified]|]; apply operation_evolves; by constructor.
Qed.

(** ** Starting *)

Lemma bind_answers {X Y} (m : coordM X) (f : X → coordM Y) c r c' :
  (m ≫= f) c = (r, c') → (∃ x c1, m c = (Ok x, c1) ∧ f x c1 = (r, c')) ∨ (∃ e, r = Err e ∧ m c = (Err e, c')).
Proof.
  unfold mbind, stateM_bind. destruct (m c) as [[x|e] c1]; intros Hrun; [left; eauto|right].
  injection Hrun as <- <-. eauto.
Qed.
Lemma access_answers {X} (m : storeM X) c r c' : co_access m c = (r, c') →
  ∃ x s', m (meanwhile (co_looks c) (co_store c)) = (x, s') ∧ c' = co_set_store s' c ∧ r = map_err StoreFailed x.
Proof.
  unfold co_access, co_answered, mbind, stateM_bind. destruct (m _) as [x s'] eqn:Hm. cbn.
  intros [= <- <-]. by exists x, s'.
Qed.
Lemma absent_before s s' run : store_wf s → evolves s s' →
  tb_runs (rs_tables s') !! run = None → tb_runs (rs_tables s) !! run = None.
Proof.
  intros Hwf He Hn. destruct (tb_runs (rs_tables s) !! run) as [r|] eqn:Hr; [|done].
  destruct (He Hwf) as [_ Hex]. destruct (ex_runs _ _ Hex run r Hr) as (r' & ? & _). congruence.
Qed.
Lemma present_after s s' run : store_wf s → evolves s s' →
  is_Some (tb_runs (rs_tables s) !! run) → is_Some (tb_runs (rs_tables s') !! run).
Proof. intros Hwf He. apply ex_has_run. by apply He. Qed.

(** What a start that is not refused for the shutdown does to the runs that are driven. *)
Record started (task : TaskId) (retry : option (RunId * bool)) (id : RunId) (c : Coordinator) (s' : RunStore) : Prop := {
  sd_new : tb_runs (rs_tables (co_store c)) !! id = None;
  sd_row : ∃ s at_, evolves (co_store c) s ∧ evolves s s' ∧ store_wf s
    ∧ tb_runs (rs_tables s) !! id = Some (new_run id task retry at_)
    ∧ tb_claims (rs_tables s) !! id = Some (le_id lease);
}.
Record start_outcome (task : TaskId) (retry : option (RunId * bool)) (c : Coordinator) (r : result RuntimeError RunId)
    (c' : Coordinator) : Prop := {
  so_evolves : evolves (co_store c) (co_store c');
  so_cancelled : co_cancelled c' = co_cancelled c;
  so_stopping : co_stopping c' = co_stopping c;
  so_runs : match r with
    | Ok id => co_active c' = {[id]} ∪ co_active c ∧ started task retry id c (co_store c')
    | Err _ => co_active c' = co_active c
        ∨ ∃ id, co_active c' = ({[id]} ∪ co_active c) ∖ {[id]} ∧ tb_runs (rs_tables (co_store c)) !! id = None
    end;
}.
Lemma steady_outcome task retry c e c' : steadily c c' → start_outcome task retry c (Err e) c'.
Proof. intros []. split; [done..|]. by left. Qed.
Lemma after_steady task retry c c1 r c' :
  store_wf (co_store c) → steadily c c1 → start_outcome task retry c1 r c' → start_outcome task retry c r c'.
Proof.
  intros Hwf [He Ha Hc Hs] [Heo Hco Hso Hr]. split; [by etrans|congruence..|].
  destruct r as [id|e].
  - destruct Hr as [-> [Hnew (s & at_ & Hs1 & Hs2 & Hwfs & Hrow & Hclaim)]]. rewrite Ha. split; [done|]. split; [by eapply absent_before|].
    exists s, at_. split_and!; [by etrans|done..].
  - destruct Hr as [->|(id & -> & Hn)]; rewrite Ha; [by left|]. right. exists id. split; [done|by eapply absent_before].
Qed.
(** The end of a start: the run is recorded. *)
Lemma driven_outcome task retry id at_ c0 s c r c' :
  tb_runs (rs_tables (co_store c0)) !! id = None → evolves (co_store c0) s → evolves s (co_store c) → store_wf s →
  co_active c = co_active c0 → co_cancelled c = co_cancelled c0 → co_stopping c = co_stopping c0 →
  tb_runs (rs_tables s) !! id = Some (new_run id task retry at_) →
  tb_claims (rs_tables s) !! id = Some (le_id lease) →
  (_ ← modify (λ c, co_set_active ({[id]} ∪ co_active c) c); _ ← spawn_worker id; mret id) c = (r, c') →
  start_outcome task retry c0 r c'.
Proof.
  intros Hnew He Hes0 Hwf Ha Hcn Hst Hrow Hclaim.
  intros Hrun. apply bind_answers in Hrun as [([] & c1 & Hm & Hrun)|(e & -> & Hm)]; [|discriminate].
  apply modify_Ok in Hm. assert (evolves (co_store c0) (co_store c1)) as He1 by (rewrite Hm; by etrans).
  unfold spawn_worker in Hrun. apply bind_answers in Hrun as [([] & c2 & Hsp & [= <- <-])|(e & -> & Hsp)];
    apply bind_answers in Hsp as [(c1' & ? & [= <- <-] & Hsp)|(? & ? & ?)]; [| discriminate| |discriminate];
    destruct (spawn_refused (co_looks c1)) as [reason|].
  - exfalso. apply bind_answers in Hsp as [([] & c3 & _ & Hsp)|(? & ? & _)]; [|discriminate].
    unfold run_without_thread in Hsp. do 4 (apply bind_answers in Hsp as [(? & ? & _ & Hsp)|(? & ? & _)]; [|discriminate]).
    discriminate.
  - injection Hsp as <-. subst c1. split; [exact He1|done|done|]. split; [cbn; by rewrite Ha|]. split; [done|].
    exists s, at_. done.
  - apply bind_answers in Hsp as [([] & c3 & Hm3 & [Hes Has Hcs Hss]%steady_without_thread)|(? & ? & ?)]; [|discriminate].
    apply modify_Ok in Hm3. subst c3 c1.
    split; [by etrans|by rewrite Hcs|by rewrite Hss|]. right. exists id. split; [|done]. rewrite Has. cbn. by rewrite Ha.
  - discriminate.
Qed.

(** From the row of the run on. *)
Lemma recorded_outcome task retry id at_ c r c' :
  store_wf (co_store c) →
  (∀ original, fst <$> retry = Some original → is_Some (tb_runs (rs_tables (co_store c)) !! original)) →
  (_ ← co_access (record_run lease id task retry at_); _ ← delivery id; _ ← announce id;
   _ ← modify (λ c, co_set_active ({[id]} ∪ co_active c) c); _ ← spawn_worker id; mret id) c = (r, c') →
  start_outcome task retry c r c'.
Proof.
  intros Hwf Hthere Hrun. set (s1 := meanwhile (co_looks c) (co_store c)).
  assert (evolves (co_store c) s1) as Hs1 by apply steps_evolve, meanwhile_steps.
  assert (∀ o, fst <$> retry = Some o → is_Some (tb_runs (rs_tables s1) !! o)) as Hthere2.
  { intros o Ho. eapply present_after; [exact Hwf|exact Hs1|by apply Hthere]. }
  apply bind_answers in Hrun as [(n & c2 & Hrec & Hrun)|(e & -> & Hrec)];
    apply access_answers in Hrec as (x & s2 & Hrec & -> & Hx); fold s1 in Hrec;
    pose proof (record_run_evolves id task retry _ _ _ _ Hthere2 Hrec) as Hs2; pose proof (transitivity Hs1 Hs2 : evolves _ _) as Hs.
  2: { by apply steady_outcome. }
  destruct x as [m|?]; [|discriminate]. cbn in Hx. injection Hx as <-.
  apply record_run_Ok in Hrec as (Hnew & Hrow & Hclaim). apply (absent_before _ _ _ Hwf Hs1) in Hnew.
  destruct (Hs Hwf) as [Hwf2 _].
  apply bind_answers in Hrun as [(? & c3 & Hd%steady_delivery & Hrun)|(e & -> & Hd%steady_delivery)].
  2: { apply steady_outcome. etrans; [|exact Hd]. by split. }
  apply bind_answers in Hrun as [(? & c4 & Hn%steady_announce & Hrun)|(e & -> & Hn%steady_announce)].
  2: { apply steady_outcome. etrans; [|exact Hn]. etrans; [|exact Hd]. by split. }
  pose proof (transitivity Hd Hn) as [He Ha Hc Hst]. cbn in He, Ha, Hc, Hst.
  by eapply (driven_outcome task retry id at_ c s2).
Qed.

Lemma start_moves task ws md retry c r c' :
  store_wf (co_store c) →
  (∀ original, fst <$> retry = Some original → is_Some (tb_runs (rs_tables (co_store c)) !! original)) →
  start_run_inner lease task ws md retry c = (r, c') →
  start_outcome task retry c r c' ∧ (co_stopping c = true → c' = c ∧ ∃ e, r = Err e).
Proof.
  intros Hwf Hthere. unfold start_run_inner. intros Hrun.
  apply bind_answers in Hrun as [(c1' & ? & [= <- <-] & Hrun)|(? & ? & ?)]; [|discriminate].
  destruct (co_stopping c) eqn:Hstop.
  { injection Hrun as <- <-. split; [by apply steady_outcome|]. eauto. }
  split; [|done].
  apply bind_answers in Hrun as [(t & c1 & Hl & Hrun)|(e & -> & Hl)];
    apply (steady_access (load_task task) (reader_evolves _)) in Hl; [|by apply steady_outcome].
  eapply after_steady; [done|exact Hl|].
  apply bind_answers in Hrun as [(? & ? & [_ ->]%lift_Ok & Hrun)|(e & -> & Hk%steady_lift)]; [|by apply steady_outcome].
  apply bind_answers in Hrun as [(at_ & ? & [= _ <-] & Hrun)|(e & -> & [=])].
  apply bind_answers in Hrun as [(id & ? & [= _ <-] & Hrun)|(e & -> & [=])].
  destruct (st_evolves _ _ Hl Hwf) as [Hwf1 _].
  eapply recorded_outcome; [done| |exact Hrun]. intros o Ho. eapply present_after; [exact Hwf|apply Hl|by apply Hthere].
Qed.

(** ** Retrying *)

(** A call that began, of a tool that is not known to write nothing. *)
Definition began_and_may_write (call : ToolCall) : Prop :=
  is_Some (lc_started_at (call_lifecycle call)) ∧
  ∀ identity tool, ToolIdentity_parse (call_tool_id call) (call_tool_version call) = Ok identity →
    Registry.get (ti_id identity) (Some (ti_version identity)) registry = Some tool →
    RiskLevel_rank WorkspaceWrite ≤ RiskLevel_rank (td_risk (descriptor tool)).
Lemma may_have_written_spec call : may_have_written descriptor registry call = true ↔ began_and_may_write call.
Proof.
  unfold may_have_written, began_and_may_write. destruct (lc_started_at (call_lifecycle call)) as [at_|].
  2: { split; [done|by intros [[? ?] _]]. }
  destruct (ToolIdentity_parse _ _) as [identity|e]; [|split; [by eauto|done]].
  destruct (Registry.get _ _ _) as [tool|] eqn:Hget; [|split; [|done]; split; [by eauto|naive_solver]].
  rewrite negb_true_iff, Nat.ltb_ge. split; [|naive_solver].
  intros Hrank. split; [by eauto|]. intros identity' tool' [= <-]. rewrite Hget. by intros [= <-].
Qed.
(** What the records of a run say of its workspace: a run before it was already retried with
    the warning, or a call of its own began that may write. *)
Definition may_be_modified (original : RunId) (t : Tables) : Prop :=
  (∃ r, tb_runs t !! original = Some r ∧ run_workspace_may_be_modified r = true)
  ∨ ∃ id call, tb_calls t !! id = Some call ∧ call_run_id call = original ∧ began_and_may_write call.
Definition over (run : RunId) (s : RunStore) : Prop :=
  ∃ r, tb_runs (rs_tables s) !! run = Some r ∧ is_terminal (run_state r) = true.

Lemma run_steps_frame r r' : rtc run_step r r' →
  run_task_id r' = run_task_id r ∧ run_retry_of r' = run_retry_of r
  ∧ run_workspace_may_be_modified r' = run_workspace_may_be_modified r.
Proof. induction 1 as [|? ? ? (_ & _ & ? & ? & ?)%run_step_refines]; [done|]. intuition congruence. Qed.
Lemma finished_attempt_stays run r s s' : store_wf s → evolves s s' →
  tb_runs (rs_tables s) !! run = Some r → is_terminal (run_state r) = true →
  ∃ r', tb_runs (rs_tables s') !! run = Some r' ∧ run_state r' = run_state r ∧ run_task_id r' = run_task_id r
        ∧ run_workspace_may_be_modified r' = run_workspace_may_be_modified r.
Proof.
  intros Hwf He Hr Ht. destruct (He Hwf) as [_ Hex]. destruct (ex_runs _ _ Hex _ _ Hr) as (r' & Hr' & Hs).
  exists r'. destruct (run_steps_frame _ _ Hs) as (? & _ & ?). split_and!; [done|by apply run_finished_stays|done..].
Qed.
Lemma over_stays run s s' : store_wf s → evolves s s' → over run s → over run s'.
Proof.
  intros Hwf He (r & Hr & Ht). destruct (finished_attempt_stays run r s s' Hwf He Hr Ht) as (r' & ? & Hs & _).
  exists r'. by rewrite Hs.
Qed.
Lemma loaded_run id s (r : Run) s' : load (R:=Run) id s = (Ok r, s') → rs_tables s' = rs_tables s ∧ tb_runs (rs_tables s) !! id = Some r.
Proof.
  intros [-> Hr]%with_reader_spec. specialize (Hr r eq_refl). split; [done|].
  destruct (load_row id (rs_tables s)) as [x t] eqn:Hl. cbn in Hr. subst x.
  by apply (load_row_Ok (step:=run_step)) in Hl as (_ & ? & _).
Qed.
(** A reader answers of the store it leaves. *)
Lemma read_here {A} (read : stateM Tables StoreError A) c a c' :
  co_access (with_reader read) c = (Ok a, c') → (read (rs_tables (co_store c'))).1 = Ok a.
Proof.
  intros (x & s & [-> Hx]%with_reader_spec & -> & Ha)%access_answers. destruct x as [a'|]; [|discriminate].
  injection Ha as <-. by apply Hx.
Qed.
Lemma loaded_here id c (r : Run) c' :
  co_access (load (R:=Run) id) c = (Ok r, c') → tb_runs (rs_tables (co_store c')) !! id = Some r.
Proof.
  intros Hrun%read_here. destruct (load_row id (rs_tables (co_store c'))) as [x t] eqn:Hl. cbn in Hrun. subst x.
  by apply (load_row_Ok (step:=run_step)) in Hl as (_ & ? & _).
Qed.
Lemma live_retries_Ok retries c u c' : store_wf (co_store c) →
  refuse_live_retries retries c = (Ok u, c') → ∀ run, run ∈ retries → over run (co_store c').
Proof.
  revert c. induction retries as [|existing retries IH]; intros c Hwf; cbn; [by intros _ run ?%not_elem_of_nil|].
  intros (r & c1 & Hl & Hrest)%bindM_Ok. pose proof (steady_access _ (reader_evolves _) _ _ _ Hl) as [He1 _ _ _].
  destruct (He1 Hwf) as [Hwf1 _]. apply loaded_here in Hl. destruct (ExecutionState_is_terminal (run_state r)) eqn:Ht; [|discriminate Hrest].
  intros run [->|Hin]%elem_of_cons; [|by eapply IH].
  eapply over_stays; [exact Hwf1|by eapply steady_live_retries|by exists r].
Qed.
Lemma retries_listed original t l : tables_wf t → (retries_rows original t).1 = Ok l →
  ∀ run r, tb_runs t !! run = Some r → run_retry_of r = Some original → run ∈ l.
Proof.
  intros Hwf [= <-] run r Hr Hof. destruct (wf_runs _ Hwf _ _ Hr) as (Hid & _). apply list_elem_of_fmap. exists r.
  split; [done|]. rewrite elem_of_order_by, list_elem_of_filter, elem_of_rows_of. eauto.
Qed.
Lemma modified_Ok original c b c' : store_wf (co_store c) →
  workspace_may_be_modified descriptor registry original c = (Ok b, c') →
  steadily c c' ∧ (b = true ↔ ∃ id call, tb_calls (rs_tables (co_store c')) !! id = Some call ∧ call_run_id call = original
                               ∧ began_and_may_write call).
Proof.
  intros Hwf Hrun. pose proof (steady_modified original _ _ _ Hrun) as Hst. split; [done|].
  unfold workspace_may_be_modified in Hrun. apply bindM_Ok in Hrun as (calls & c1 & Hl%read_here & [-> ->]%ret_Ok).
  destruct (st_evolves _ _ Hst Hwf) as [[Hwf1 _] _].
  pose proof (run_calls_listed original _ calls Hwf1 Hl) as Hlisted. rewrite existsb_exists.
  setoid_rewrite may_have_written_spec. split.
  - intros (call & Hin%list_elem_of_In & Hw). apply Hlisted in Hin as [? ?]. eauto.
  - intros (id & call & Hc & Hr & Hw). exists call. split; [|done]. apply list_elem_of_In, Hlisted.
    destruct (wf_calls _ Hwf1 _ _ Hc) as (-> & _). done.
Qed.

(** The checks of a retry, and the start they lead to. *)
Lemma retry_reaches original ws md c r c' : store_wf (co_store c) →
  retry_run_inner descriptor lease registry original ws md c = (r, c') →
  (steadily c c' ∧ ∃ e, r = Err e) ∨
  ∃ record modified c1 c2, steadily c c1 ∧ steadily c1 c2 ∧
    tb_runs (rs_tables (co_store c1)) !! original = Some record ∧ is_terminal (run_state record) = true
    ∧ run_state record ≠ ExecSucceeded
    ∧ (∀ run r, tb_runs (rs_tables (co_store c1)) !! run = Some r → run_retry_of r = Some original → over run (co_store c2))
    ∧ (modified = true ↔ may_be_modified original (rs_tables (co_store c2)))
    ∧ start_run_inner lease (run_task_id record) ws md (Some (original, modified)) c2 = (r, c').
Proof.
  intros Hwf Hrun. unfold retry_run_inner in Hrun.
  apply bind_answers in Hrun as [(record & c1 & Hl & Hrun)|(e & -> & Hl)];
    pose proof (steady_access _ (reader_evolves _) _ _ _ Hl) as Hc1; [|left; eauto].
  apply loaded_here in Hl. destruct (st_evolves _ _ Hc1 Hwf) as [Hwf1 _].
  destruct (is_terminal (run_state record)) eqn:Ht; cbn in Hrun; [|injection Hrun as <- <-; left; eauto].
  case_bool_decide as Hs; [injection Hrun as <- <-; left; eauto|].
  apply bind_answers in Hrun as [(retries & c2 & Hrs & Hrun)|(e & -> & Hrs)];
    pose proof (steady_access _ (reader_evolves _) _ _ _ Hrs) as Hc2; [|left; split; [by etrans|eauto]].
  destruct (st_evolves _ _ Hc2 Hwf1) as [Hwf2 Hex2]. apply read_here in Hrs.
  apply bind_answers in Hrun as [(u & c3 & Hlive & Hrun)|(e & -> & Hlive)];
    pose proof (steady_live_retries _ _ _ _ Hlive) as Hc3; [|left; split; [by do 2 (etrans; [done|])|eauto]].
  pose proof (live_retries_Ok _ _ _ _ Hwf2 Hlive) as Hover. destruct (st_evolves _ _ Hc3 Hwf2) as [Hwf3 Hex3].
  apply bind_answers in Hrun as [(modified & c4 & Hm & Hrun)|(e & -> & Hm)].
  2: { left. split; [|eauto]. do 3 (etrans; [done|]). destruct (run_workspace_may_be_modified _); [discriminate|]. by eapply steady_modified. }
  right. destruct (finished_attempt_stays original record _ _ Hwf1 (st_evolves _ _ Hc2) Hl Ht) as (record2 & Hl2 & Hs2 & Htask2 & Hf2).
  exists record2, modified, c2, c4. rewrite Hs2, Htask2.
  assert (steadily c3 c4 ∧ (modified = true ↔ may_be_modified original (rs_tables (co_store c4)))) as [Hc4 Hmod].
  { destruct (run_workspace_may_be_modified record) eqn:Hf.
    - injection Hm as <- <-. split; [done|]. split; [|done]. intros _. left.
      destruct (finished_attempt_stays original record2 _ _ Hwf2 (st_evolves _ _ Hc3) Hl2) as (record3 & ? & _ & _ & ?); [by rewrite Hs2|].
      exists record3. split; [done|congruence].
    - apply modified_Ok in Hm as [Hc4 Hb]; [|done]. split; [done|]. rewrite Hb. split; [by right|]. intros [(r0 & Hr0 & Hr0f)|?]; [|done].
      destruct (finished_attempt_stays original record2 _ _ Hwf2 (transitivity (st_evolves _ _ Hc3) (st_evolves _ _ Hc4)) Hl2)
        as (record3 & ? & _ & _ & ?); [by rewrite Hs2|]. congruence. }
  split_and!; [by etrans|by etrans|done..| |done|done].
  intros run r0 Hr0 Hof. eapply over_stays; [exact Hwf3|apply Hc4|]. apply Hover. eapply retries_listed; [apply Hwf2|exact Hrs|exact Hr0|exact Hof].
Qed.

(** C21. A retry that is accepted is a new attempt at the task of a run that is over and did
    not succeed, recorded under the claim of the process and as the retry of that run; every
    other retry of the run that was there when the retry looked is over; and the new run warns
    that the workspace may be modified exactly when the records of its predecessor say so at
    one moment of the retry: it carried the warning itself, or a call of it began whose tool
    may write or is unknown. *)
Theorem retry_follows_a_finished_attempt original ws md c id c' :
  store_wf (co_store c) → retry_run_inner descriptor lease registry original ws md c = (Ok id, c') →
  ∃ was next s s', let t := rs_tables (co_store c') in
    tb_runs t !! original = Some was ∧ is_terminal (run_state was) = true ∧ run_state was ≠ ExecSucceeded ∧
    tb_runs t !! id = Some next ∧ tb_claims t !! id = Some (le_id lease) ∧
    run_retry_of next = Some original ∧ run_task_id next = run_task_id was ∧
    evolves (co_store c) s ∧ evolves s s' ∧ evolves s' (co_store c') ∧
    (∀ run r, tb_runs (rs_tables s) !! run = Some r → run_retry_of r = Some original → over run (co_store c')) ∧
    (run_workspace_may_be_modified next = true ↔ may_be_modified original (rs_tables s')).
Proof.
  intros Hwf [[_ [e [=]]]|(record & modified & c1 & c2 & Hc1 & Hc2 & Hr & Ht & Hs & Hover & Hmod & Hstart)]%retry_reaches; [|done].
  destruct (st_evolves _ _ Hc1 Hwf) as [Hwf1 _]. destruct (st_evolves _ _ Hc2 Hwf1) as [Hwf2 Hex2].
  destruct (finished_attempt_stays original record _ _ Hwf1 (st_evolves _ _ Hc2) Hr Ht) as (record2 & Hr2 & Hs2 & Ht2 & _).
  apply start_moves in Hstart as [[He _ _ [_ [_ (s & at_ & Hst1 & Hst2 & Hwfs & Hrow & Hclaim)]]] _]; [|done|].
  2: { intros o [= <-]. by exists record2. }
  destruct (finished_attempt_stays original record2 _ _ Hwf2 He Hr2) as (record3 & Hr3 & Hs3 & Ht3 & _); [by rewrite Hs2|].
  destruct (Hst2 Hwfs) as [_ Hexs]. destruct (ex_runs _ _ Hexs _ _ Hrow) as (next & His & Hsteps).
  assert (run_task_id next = run_task_id record ∧ run_retry_of next = Some original ∧ run_workspace_may_be_modified next = modified) as (Htask & Hof & Hflag).
  { by apply run_steps_frame in Hsteps as (-> & -> & ->). }
  exists record3, next, (co_store c1), (co_store c2). cbn zeta. rewrite Hs3, Ht3, Hs2, Ht2.
  split_and!; [done..| |done|done|apply Hc1|apply Hc2|done| |by rewrite Hflag].
  - rewrite (ex_claims _ _ Hexs id); [done|]. by eexists.
  - intros run r Hrun Hrof. eapply over_stays; [exact Hwf2|exact He|by eapply Hover].
Qed.

(** ** Shutting down *)

Abbreviation step_of := (process_step descriptor lease registry).

(** What the start or the retry of a run does to a process that starts no run any more. *)
Lemma retry_moves original ws md c r c' : store_wf (co_store c) →
  retry_run_inner descriptor lease registry original ws md c = (r, c') →
  (∃ task retry, start_outcome task retry c r c')
  ∧ (co_stopping c = true → co_active c' = co_active c ∧ ∃ e, r = Err e).
Proof.
  intros Hwf [[Hst [e ->]]|(record & modified & c1 & c2 & Hc1 & Hc2 & Hr & Ht & _ & _ & _ & Hstart)]%retry_reaches; [| |done].
  { split; [|intros _; split; [apply Hst|eauto]]. exists (MkTaskId (RunId_uuid original)), None. by apply steady_outcome. }
  pose proof (transitivity Hc1 Hc2) as Hc. destruct (st_evolves _ _ Hc1 Hwf) as [Hwf1 _]. destruct (st_evolves _ _ Hc Hwf) as [Hwf2 _].
  apply start_moves in Hstart as [Hout Hstop]; [|done|].
  2: { intros o [= <-]. eapply present_after; [exact Hwf1|apply Hc2|by exists record]. }
  split; [by eexists _, _; eapply after_steady|]. intros Hs. destruct Hstop as [-> [e ->]]; [by rewrite (st_stopping _ _ Hc)|].
  split; [apply Hc|eauto].
Qed.

(** The runs that are driven have their row and their claim, and what a shutdown has passed
    is cancelled. *)
Definition claimed (run : RunId) (s : RunStore) : Prop :=
  is_Some (tb_runs (rs_tables s) !! run) ∧ tb_claims (rs_tables s) !! run = Some (le_id lease).
Definition passed (phase : Phase) (c : Coordinator) : Prop :=
  match phase with
  | Open | Stopping => True
  | Cancelling todo => ∀ run, run ∈ co_active c → run ∈ co_cancelled c ∨ run ∈ todo
  | Waiting | Released => ∀ run, run ∈ co_active c → run ∈ co_cancelled c
  end.
Record process_ok (p : Process) : Prop := {
  po_wf : store_wf (co_store (pr_coordinator p));
  po_workers : ∀ run, run ∈ pr_workers p → run ∈ co_active (pr_coordinator p) ∧ claimed run (co_store (pr_coordinator p));
  po_stopping : pr_phase p ≠ Open → co_stopping (pr_coordinator p) = true;
  po_passed : passed (pr_phase p) (pr_coordinator p);
}.
Lemma claimed_stays run s s' : store_wf s → evolves s s' → claimed run s → claimed run s'.
Proof.
  intros Hwf He [Hr Hc]. destruct (He Hwf) as [_ Hex]. split; [by eapply ex_has_run|]. by rewrite (ex_claims _ _ Hex).
Qed.
Lemma passed_shrinks phase c c' : co_active c' ⊆ co_active c → co_cancelled c ⊆ co_cancelled c' → passed phase c → passed phase c'.
Proof.
  intros Ha Hc. destruct phase as [| |todo| |]; cbn; [done|done| |by intros Hp run Hr; apply Hc, Hp, Ha..].
  intros Hp run Hr. destruct (Hp run) as [?|?]; [by apply Ha|left; by apply Hc|by right].
Qed.
(** A step that drives no more runs than before. *)
Lemma ok_moved workers phase c c' :
  process_ok (MkProcess c workers phase) → evolves (co_store c) (co_store c') → co_active c' ⊆ co_active c →
  (∀ run, run ∈ workers → run ∈ co_active c') → co_cancelled c ⊆ co_cancelled c' → co_stopping c' = co_stopping c →
  process_ok (MkProcess c' workers phase).
Proof.
  intros [Hwf Hw Hs Hp] He Ha Hk Hc Hst. cbn in *. split; cbn.
  - by apply He.
  - intros run Hr. destruct (Hw run Hr) as [_ ?]. split; [by apply Hk|by eapply claimed_stays].
  - intros Hph. rewrite Hst. by apply Hs.
  - by eapply passed_shrinks.
Qed.
Lemma ok_steady workers phase c c' : process_ok (MkProcess c workers phase) → steadily c c' → process_ok (MkProcess c' workers phase).
Proof.
  intros Hok [He Ha Hc Hs]. eapply ok_moved; [exact Hok|done|by rewrite Ha| |by rewrite Hc|done].
  intros run Hr. rewrite Ha. by apply (po_workers _ Hok).
Qed.
Lemma ok_refused workers phase task retry c e c' :
  process_ok (MkProcess c workers phase) → start_outcome task retry c (Err e) c' → process_ok (MkProcess c' workers phase).
Proof.
  intros Hok [He Hc Hs Hr]. destruct (Hr) as [Ha|(id & Ha & Hnew)].
  - by eapply ok_steady.
  - eapply ok_moved; [exact Hok|done|rewrite Ha; set_solver| |by rewrite Hc|done].
    intros run Hrun. destruct (po_workers _ Hok run Hrun) as [Hact [[r Hrow] _]]. cbn in Hact, Hrow. rewrite Ha.
    apply elem_of_difference. split; [set_solver|]. intros ->%elem_of_singleton. congruence.
Qed.
Lemma ok_started workers phase task retry c id c' :
  process_ok (MkProcess c workers phase) → co_stopping c = false → start_outcome task retry c (Ok id) c' →
  process_ok (MkProcess c' ({[id]} ∪ workers) phase).
Proof.
  intros [Hwf Hw Hs Hp] Hstop [He Hc Hst [Ha [_ (s & at_ & Hs1 & Hs2 & Hwfs & Hrow & Hclaim)]]]. cbn in *.
  assert (phase = Open) as ->.
  { destruct phase; [done|exfalso; assert (co_stopping c = true) by (by apply Hs); congruence..]. }
  split; cbn; [by apply He| |done|done]. intros run [->%elem_of_singleton|Hr]%elem_of_union.
  - split; [rewrite Ha; set_solver|]. eapply (claimed_stays id s); [exact Hwfs|exact Hs2|]. split; [by eexists|done].
  - destruct (Hw run Hr) as [? ?]. split; [rewrite Ha; set_solver|by apply (claimed_stays run (co_store c))].
Qed.
Lemma not_stopping {A} (c : Coordinator) (id : A) : (co_stopping c = true → ∃ e : RuntimeError, Ok id = Err e) → co_stopping c = false.
Proof. destruct (co_stopping c); [|done]. by intros [e [=]]. Qed.

Lemma process_step_ok p p' : process_ok p → step_of p p' → process_ok p'.
Proof.
  destruct p as [c workers phase]. intros Hok Hstep. pose proof (po_wf _ Hok) as Hwf. cbn in Hwf.
  inversion Hstep as [task ws md id c' Hrun|task ws md e c' Hrun|original ws md id c' Hrun|original ws md e c' Hrun|run|decision Hd
    |task|s Hs|run Hin|Hst|Hph|run todo Hph|Hph|at_ Hph]; subst; cbn in *.
  - apply start_moves in Hrun as [Hout Hstop]; [|done..]. eapply ok_started; [exact Hok| |exact Hout].
    apply (not_stopping c id). intros Hs. by apply Hstop.
  - apply start_moves in Hrun as [Hout _]; [|done..]. by eapply ok_refused.
  - apply retry_moves in Hrun as [(task & retry & Hout) Hstop]; [|done]. eapply ok_started; [exact Hok| |exact Hout].
    apply (not_stopping c id). intros Hs. by apply Hstop.
  - apply retry_moves in Hrun as [(task & retry & Hout) _]; [|done]. by eapply ok_refused.
  - destruct (cancel_run run c) as [r c'] eqn:Hrun. apply cancel_moves in Hrun as (He & Ha & Hs & Hc). cbn.
    eapply ok_moved; [exact Hok|done|by rewrite Ha| |done|done]. intros x Hx. rewrite Ha. by apply (po_workers _ Hok).
  - destruct (answer_question decision c) as [r c'] eqn:Hrun. eapply ok_steady; [exact Hok|by eapply steady_answer].
  - destruct (start_task task c) as [r c'] eqn:Hrun. eapply ok_steady; [exact Hok|by eapply steady_start_task].
  - eapply ok_steady; [exact Hok|]. split; [by apply steps_evolve|done..].
  - assert (process_ok (MkProcess c (workers ∖ {[run]}) phase)) as Hok'.
    { destruct Hok as [_ Hw Hs Hp]. split; [done| |done|done]. intros x Hx. apply Hw. cbn in *. set_solver. }
    eapply ok_moved; [exact Hok'|done|cbn; set_solver| |done|done].
    intros x Hx. cbn. destruct (po_workers _ Hok x) as [? _]; cbn in *; set_solver.
  - destruct Hok as [_ Hw _ _]. by split.
  - subst phase. destruct Hok as [_ Hw Hs _]. split; cbn; [done|done|by intros _; apply Hs|].
    intros x Hx. right. by apply elem_of_elements.
  - subst phase. destruct Hok as [_ Hw Hs Hp]. split; cbn; [done|done|by intros _; apply Hs|].
    intros x Hx. destruct (Hp x Hx) as [?|[->|?]%elem_of_cons]; [left; set_solver|left; set_solver|by right].
  - subst phase. destruct Hok as [_ Hw Hs Hp]. split; cbn; [done|done|by intros _; apply Hs|].
    intros x Hx. by destruct (Hp x Hx) as [?|?%not_elem_of_nil].
  - subst phase. assert (process_ok (MkProcess c workers Released)) as Hok'.
    { destruct Hok as [_ Hw Hs Hp]. split; cbn in *; [done|done|by intros _; apply Hs|exact Hp]. }
    destruct (co_ignored (release_lease (le_id lease) at_) c) as [r c'] eqn:Hrun.
    eapply ok_steady; [exact Hok'|]. eapply steady_ignored; [|exact Hrun]. apply operation_evolves. constructor.
Qed.

(** Over every interleaving of starts, retries, cancellations, answers, workers and other
    writers with the shutdown of a coordinator: once the shutdown has passed the runs it saw,
    every run that still has a worker has been cancelled and is recorded under the claim that
    is then released, so that a later sweep finds it; and from then on no run is started or
    retried. *)
Theorem shutdown_reaches_every_driven_run s p :
  store_wf s → rtc step_of (process_init s) p → pr_phase p = Waiting ∨ pr_phase p = Released →
  (∀ run, run ∈ pr_workers p → run ∈ co_cancelled (pr_coordinator p) ∧ claimed run (co_store (pr_coordinator p))) ∧
  (∀ task ws md r c, start_run_inner lease task ws md None (pr_coordinator p) = (r, c) →
     c = pr_coordinator p ∧ ∃ e, r = Err e) ∧
  (∀ original ws md r c, retry_run_inner descriptor lease registry original ws md (pr_coordinator p) = (r, c) → ∃ e, r = Err e).
Proof.
  intros Hwf Hreach Hphase.
  assert (process_ok p) as [Hwfp Hw Hs Hp].
  { apply (rtc_invariant step_of process_ok (process_init s)); [intros ??; apply process_step_ok| |exact Hreach].
    split; cbn; [done|intros run Hr; set_solver|done|done]. }
  assert (co_stopping (pr_coordinator p) = true) as Hstop by (apply Hs; by destruct Hphase as [-> | ->]).
  split_and!.
  - intros run Hr. destruct (Hw run Hr) as [Ha Hc]. split; [|done]. by destruct Hphase as [Hph|Hph]; rewrite Hph in Hp; apply Hp.
  - intros task ws md r c Hrun. by apply start_moves in Hrun as [_ Hrun]; [apply Hrun|..].
  - intros original ws md r c Hrun. apply retry_moves in Hrun as [_ Hrun]; [|done]. by apply Hrun.
Qed.

(** One run is started, and then the shutdown comes to it. *)
Lemma shutdown_after_start task ws md c0 c run :
  start_run_inner lease task ws md None c0 = (Ok run, c) → co_active c = {[run]} → co_stopping c = false →
  rtc step_of (MkProcess c0 ∅ Open) (MkProcess (co_cancel run (co_stop c)) {[run]} Waiting).
Proof.
  intros Hrun Hactive Hopen.
  assert (elements (co_active (co_stop c)) = [run]) as He by (cbn; by rewrite Hactive, elements_singleton).
  eapply rtc_l; [by apply (start_run _ _ _ (MkProcess c0 ∅ Open) task ws md run c)|]. cbn. rewrite union_empty_r_L.
  eapply rtc_l; [by apply (shutdown_begins descriptor lease registry (MkProcess c {[run]} Open))|].
  eapply rtc_l; [by apply (shutdown_looks descriptor lease registry (MkProcess (co_stop c) {[run]} Stopping))|].
  cbn [pr_coordinator]. rewrite He.
  eapply rtc_l; [by apply (shutdown_cancels descriptor lease registry _ run [])|].
  apply rtc_once. exact (shutdown_waits descriptor lease registry (MkProcess (co_cancel run (co_stop c)) {[run]} (Cancelling [])) eq_refl).
Qed.
End safety.

(** ** A concrete coordinator *)

#[export] Instance demo_startup : Startup := {
  meanwhile _ s := s;
  canonical_root root := Ok [root];
  catalog_root root := Ok root;
  spawn_refused _ := None;
  failure_text _ := "store";
  json_bool b := demo_value (if b then "true" else "false");
}.
#[export] Instance demo_startup_laws : StartupLaws.
Proof. intros n s. apply rtc_refl. Qed.

(** A run of a task of a project, whose call began before the run was cancelled. *)
Definition demo_home : Task :=
  Task_with_id (MkTaskId (demo_uuid 1)) "work" "/src" (Some (MkProjectId (demo_uuid 6))) (demo_at 0).
Definition demo_home_built : RunStore :=
  ran (insert_tool_call demo_parked) (ran (insert_step demo_step)
    (ran (insert_run demo_first) (ran (insert_task demo_home) RunStore_empty))).
Definition demo_home_asked : RunStore :=
  ran (apply_tool_call_policy_decision_with_event demo_id (demo_decision Ask) (demo_at 1) demo_event) demo_home_built.
Definition demo_ended : RunStore :=
  ran (transition_run (run_id demo_first) ExecCancelled (demo_at 3)) (ran demo_dispatch demo_home_asked).
Definition demo_claim : LeaseRecord := LeaseRecord_acquired (MkLeaseId (demo_uuid 8)) 7 (demo_at 1).
Definition demo_coordinator : Coordinator := pr_coordinator (process_init demo_ended).
Definition demo_no_tools : ToolRegistry (Tool:=ToolDescriptor) := ToolRegistry_new.
Definition demo_retry : result RuntimeError RunId * Coordinator :=
  retry_run_inner id demo_claim demo_no_tools (run_id demo_first) (WorkspaceRef_from_task demo_home) None demo_coordinator.
Definition demo_begun : result RuntimeError RunId * Coordinator :=
  start_run_inner demo_claim (task_id demo_home) (WorkspaceRef_from_task demo_home) None None demo_coordinator.

Lemma demo_ended_wf : store_wf demo_ended.
Proof.
  apply (store_steps_keep _ _ store_wf_empty).
  eapply rtc_l; [apply (ran_step _ _ (op_insert_task demo_home))|].
  eapply rtc_l; [apply (ran_step _ _ (op_insert_run demo_first demo_first_wf))|].
  eapply rtc_l; [apply (ran_step _ _ (op_insert_step demo_step (exec_wf_new _)))|].
  eapply rtc_l; [apply (ran_step _ _ (op_insert_tool_call demo_parked demo_parked_wf))|].
  eapply rtc_l; [apply (ran_step _ _ (op_decide_call_with_event demo_id (demo_decision Ask) (demo_at 1) demo_event))|].
  eapply rtc_l; [apply (ran_step _ _ (op_dispatch_bound demo_id "reviewer" demo_bound (MkInputHash (replicate 32 2%N)) (demo_at 2) demo_event))|].
  apply rtc_once, (ran_step _ _ (op_transition_run (run_id demo_first) ExecCancelled (demo_at 3))).
Qed.
Definition demo_second : RunId := MkRunId (demo_uuid 120).

Definition answered_with (id : RunId) (r : result RuntimeError RunId) : bool :=
  match r with Ok id' => bool_decide (id' = id) | Err _ => false end.
Lemma answered_run id (p : result RuntimeError RunId * Coordinator) : answered_with id p.1 = true → p = (Ok id, p.2).
Proof. destruct p as [[id'|e] c]; cbn; [|done]. by intros ->%bool_decide_eq_true. Qed.
Definition warns (run : RunId) (s : RunStore) : bool :=
  match tb_runs (rs_tables s) !! run with Some r => run_workspace_may_be_modified r | None => false end.

Lemma demo_retry_accepted : demo_retry = (Ok demo_second, demo_retry.2).
Proof. apply answered_run. vm_compute. reflexivity. Qed.
Lemma demo_retry_warns : warns demo_second (co_store demo_retry.2) = true.
Proof. vm_compute. reflexivity. Qed.

(** The retry of a run whose tool this build does not know carries the warning. *)
Lemma retry_follows_a_finished_attempt_witness : ∃ next,
  tb_runs (rs_tables (co_store demo_retry.2)) !! demo_second = Some next ∧
  run_retry_of next = Some (run_id demo_first) ∧ run_workspace_may_be_modified next = true.
Proof.
  pose proof demo_retry_warns as Hwarns. pose proof demo_retry_accepted as Hrun. revert Hrun Hwarns.
  unfold demo_retry at 1. generalize demo_retry.2. intros c' Hrun Hwarns.
  destruct (retry_follows_a_finished_attempt id demo_claim demo_no_tools (run_id demo_first) (WorkspaceRef_from_task demo_home) None
    demo_coordinator demo_second c' demo_ended_wf Hrun)
    as (was & next & s & s' & _ & _ & _ & Hnext & _ & Hof & _).
  exists next. split; [exact Hnext|]. split; [exact Hof|].
  unfold warns in Hwarns. rewrite Hnext in Hwarns. exact Hwarns.
Defined.

Definition demo_running : RunId := MkRunId (demo_uuid 117).
Definition demo_process (phase : Phase) (c : Coordinator) : Process := MkProcess c {[demo_running]} phase.
Lemma demo_start_accepted : demo_begun = (Ok demo_running, demo_begun.2).
Proof. apply answered_run. vm_compute. reflexivity. Qed.
Lemma demo_start_active : co_active demo_begun.2 = {[demo_running]}.
Proof. apply (bool_decide_unpack (co_active demo_begun.2 = {[demo_running]})). vm_compute. exact I. Qed.
Lemma demo_start_open : co_stopping demo_begun.2 = false.
Proof. vm_compute. reflexivity. Qed.
Lemma demo_reaches_waiting :
  rtc (process_step id demo_claim demo_no_tools) (process_init demo_ended)
    (demo_process Waiting (co_cancel demo_running (co_stop demo_begun.2))).
Proof.
  pose proof demo_start_accepted as Hrun. pose proof demo_start_active as Hactive. pose proof demo_start_open as Hopen.
  revert Hrun Hactive Hopen. unfold demo_begun at 1. generalize demo_begun.2. intros c Hrun Hactive Hopen.
  exact (shutdown_after_start id demo_claim demo_no_tools _ _ _ demo_coordinator c demo_running Hrun Hactive Hopen).
Qed.
Lemma shutdown_reaches_every_driven_run_witness :
  demo_running ∈ co_cancelled (co_cancel demo_running (co_stop demo_begun.2)) ∧
  claimed demo_claim demo_running (co_store (co_cancel demo_running (co_stop demo_begun.2))).
Proof.
  apply (shutdown_reaches_every_driven_run id demo_claim demo_no_tools demo_ended _ demo_ended_wf demo_reaches_waiting (or_introl eq_refl)).
  apply elem_of_singleton. reflexivity.
Defined.
